(* ===== verification/_CoqProject ===== *)
-Q . S2P
Prelude.v
MemoryAddr.v
PageTableEntry.v
PageTree.v
PageTable.v
PageTableProps.v
LinkedList.v
Containers.v
Scheduler.v
TimerList.v
RunQueue.v
RunQueueInv.v
RunQueueOps.v
TaskSystem.v
TaskSystemProps.v
Mutex.v
SpinLock.v
Ratio.v
FlattenObjects.v
Pipe.v
Disk.v
SlabHeap.v
SlabHeapProps.v
PageAlloc.v
ByteAlloc.v
NetBuf.v
Path.v
Vfs.v
GlobalAlloc.v
VfsProps.v
AxIo.v
AxIoProps.v
AxFs.v
RootFs.v
FsApi.v
AxFsProps.v
FsApiProps.v
NetStack.v
NetLocks.v
NetProps.v
TcpSocket.v
TcpProps.v
SmolModel.v
TcpSystem.v
TcpErrors.v
UdpSocket.v
CString.v
CStdlib.v
Vga.v
PosixTime.v
Select.v
Epoll.v
CTime.v
Printf.v
PrintfProps.v
Errno.v
PosixFs.v
PosixFsProps.v
Stdio.v
StdioProps.v
Inet.v
PosixNet.v
PosixNetProps.v
Strftime.v
