(* ===== verification/Prelude.v ===== *)
(** * A verification library for ArceOS

    ArceOS is a modular unikernel in Rust.  Its crates ([src/crates]) are libraries that do
    not depend on a kernel, its modules ([src/modules]) build the kernel from them, and the
    APIs and user libraries ([src/api], [src/ulib]) are what applications see.  This library
    models the parts of it that are data structures and algorithms over memory, tasks and
    files, and proves what makes them correct.

    ** How the parts fit together

    - Memory: [axalloc] hands out bytes and pages; it asks the byte allocators of
      [allocator] (among them [slab_allocator]) and its page allocator.  [page_table] maps
      addresses with the entry formats of [page_table_entry], over [memory_addr].
    - Tasks: [axtask] keeps tasks in a run queue of [scheduler], which uses [linked_list];
      blocked tasks wait in wait queues and on timers of [timer_list].  [axsync] builds the
      sleeping mutex on wait queues.  [kernel_guard] turns interrupts and preemption off,
      [spinlock] excludes other processors.
    - Files: [axfs] looks paths up in the file systems mounted in its root directory, which
      implement the nodes of [axfs_vfs] ([axfs_ramfs], [axfs_devfs]); [capability] guards open
      files, [axio] has the readers and writers.  A disk is a stream over a block device.
    - Network: [axnet] has TCP and UDP sockets over the stack [smoltcp]; packets are in
      buffers of [driver_net].
    - POSIX: [arceos_posix_api] numbers open files, sockets and pipes with [flatten_objects].
      The C library [axlibc] puts streams, formatted output and dates on top of it.

    ** Files of the library and the code they model

    - [Prelude]: 64-bit arithmetic, durations, the state and error monad, shared lemmas and
      tactics.
    - [MemoryAddr]: [crates/memory_addr].
    - [PageTableEntry]: [crates/page_table_entry]; each architecture is an instance of the
      class [GenericPTE] with its laws.
    - [PageTable], with [PageTree] for the abstract tree and [PageTableProps] for the
      theorems: [crates/page_table].  [PagingIf] and the metadata are classes.
    - [LinkedList]: [crates/linked_list].  [Containers]: the ordered map of the standard
      library.  [Scheduler]: [crates/scheduler]; [SchedulerSpec] is what a scheduler promises.
    - [TimerList]: [crates/timer_list].
    - [RunQueue], [RunQueueInv], [RunQueueOps], [TaskSystem], [TaskSystemProps]:
      [modules/axtask] and the timer interrupt of [modules/axruntime/src/trap.rs].
    - [Mutex]: [modules/axsync/src/mutex.rs].
    - [FlattenObjects]: [crates/flatten_objects] and the file descriptors of
      [api/arceos_posix_api/src/imp/fd_ops.rs].  [Pipe]: [imp/pipe.rs] there.
    - [Disk]: [crates/driver_block], [modules/axfs/src/dev.rs] and the disk in [fs/fatfs.rs].
    - [SlabHeap], [SlabHeapProps]: [crates/slab_allocator].
    - [PageAlloc]: [crates/allocator/src/bitmap.rs].  [ByteAlloc]: the byte allocators of
      [crates/allocator] behind the class [ByteAllocator].  [GlobalAlloc]: [modules/axalloc].
    - [Path]: [crates/axfs_vfs/src/path.rs].  [Vfs], [VfsProps]: the rest of
      [crates/axfs_vfs], [axfs_ramfs] and [axfs_devfs].
    - [AxIo], [AxIoProps]: [crates/axio].
    - [AxFs], [AxFsProps]: [modules/axfs/src/root.rs] and [fops.rs], [crates/capability].
      [RootFs]: [mounts.rs] and [init_rootfs].  [FsApi], [FsApiProps]: [modules/axfs/src/api].
    - [SpinLock]: [crates/kernel_guard] and [crates/spinlock].  [Ratio]: [crates/ratio].
    - [NetBuf]: [crates/driver_net/src/net_buf.rs] and [crates/driver_pci].
    - [NetStack]: [addr.rs], [mod.rs] and [listen_table.rs] of
      [modules/axnet/src/smoltcp_impl], over the classes [SmolSockets] and [SmolNet];
      [NetProps]: its invariant.  [NetLocks]: the locks its functions take.  [TcpSocket],
      [TcpProps], [TcpSystem], [TcpErrors]: [tcp.rs].  [UdpSocket]: [udp.rs].  [SmolModel]: a
      small stack that meets the laws.
    - [CString], [CStdlib]: the C library of [ulib/axlibc/c] ([string.c], [ctype.c], the number
      conversions of [stdlib.c]), over a memory of bytes.
    - [Vga]: the text console and the keyboard buffer of [modules/axhal/src/platform/x86_pc].
    - [PosixTime], [Select], [Epoll]: [time.rs], [io_mpx/select.rs] and [io_mpx/epoll.rs] of
      [api/arceos_posix_api/src/imp].
    - [Errno]: the error numbers of [crates/axerrno] and [errno].
    - [PosixFs], [PosixFsProps]: [fs.rs], [io.rs], [stdio.rs] and [fd_ops.rs] of
      [api/arceos_posix_api/src/imp], over [FlattenObjects], [AxFs] and [AxIo].  [PosixNet],
      [PosixNetProps]: [net.rs] there, over [FlattenObjects], [TcpSocket] and [UdpSocket].
    - [CTime]: [time.c] of [ulib/axlibc/c].  [Strftime]: [mktime.rs] and [strftime.rs] of
      [ulib/axlibc/src].  [Printf], [PrintfProps]: [printf.c].  [Stdio], [StdioProps]:
      [stdio.c], over the class [FdIo], which the calls of [PosixFs] implement.  [Inet]:
      [network.c].

    ** How state and operations correspond to the code

    A method with [&mut self] is a function on the state in the monad [M], which returns
    [Ok], [Err], [Panic] (a failed assertion, an index out of range, an access to freed or
    uninitialised memory) or [OutOfFuel].  Integers are [Z] with the wrap-around of the
    release profile written out.  Memory that data structures thread links through (lists,
    slabs, page tables, counted references) is an explicit store.  Critical sections under a
    lock are atomic steps; the tasks that run them interleave freely in the step relations of
    [TaskSystem], [Mutex], [Pipe], [SpinLock], [NetLocks] and [TcpSystem].  Third-party code is a class of operations with a class
    of laws for its documented behaviour, and a concrete instance shows that the laws can hold.

    ** What the theorems show

    - Page tables: mapping, unmapping and updating change exactly the translations they should
      on every path, regions round-trip, no frame leaks whatever the arguments, entries decode to
      what was encoded.
    - Allocators: live allocations of the slab heap and of the global allocator are disjoint,
      in the memory given and aligned (small ones to at most 4096 bytes), over all sequences of
      calls; no call panics or runs on.
    - Lists and schedulers refine sequences and multisets; timers expire in order.
    - Task system: in every interleaving the run queue, the states and the reference counts
      agree, and a step panics exactly when the time of a sleep or a timeout overflows, as long as
      no task is called "idle"; the mutex excludes and loses no wake-up.
    - Files: the node store stays well formed, the operations on it panic exactly in the cases
      listed, path operations change exactly the walks that take the name they add or remove,
      paths are resolved to their canonical form,
      what is written is read back (files, the API, the disk, pipes, buffered readers), and
      capabilities are enforced.
    - Locks and guards: a spin lock has one holder, guards nest; network calls that keep the
      order of the locks do not deadlock, those that do not can.
    - Network: over all interleavings of calls with IPv4 addresses that leave a socket to the task
      that waits for its connection, every socket of the stack has one owner, listening ports
      and sockets agree, dropped sockets leave nothing behind, accept and poll agree, UDP
      sockets receive from their peer; buffers of a pool are disjoint.
    - Where the code departs from what it means to do or documents, a theorem exhibits it.
    - System calls that wait: [select] and [epoll_wait] report exactly what is ready, in the first
      round in which something is or the time is over; times survive their conversions.
    - C library: the functions on memory and strings meet their definitions over the bytes, the
      conversions give the number that is written there or the nearest one in range.
    - Console: the ring of typed characters is a bounded queue, text in colour appears as such,
      and the calls that fail are characterised.
    - Descriptors: the table of shared open files refines a map under open, close, dup, dup2 and
      fcntl, each file is closed with its last descriptor; what is written through a descriptor is read back; no sequence of calls on UDP
      sockets panics, and addresses survive the way through the structures of C.
    - Output and dates: [printf] prints integers as the C standard says (without the flag [#], and
      up to the width that its buffer allows), and [strtol] reads them back; streams deliver what was written, in order and once; [gmtime_r] inverts the
      Gregorian calendar and [mktime] inverts [gmtime_r]; [strftime] stays in its buffer;
      IPv4 addresses survive printing and reading, and exactly their texts are read; which groups
      of an IPv6 address are lost behind [::] is characterised.

    ** Fuel and bounds

    Loops that are not structural take fuel.  Each theorem about a result shows that enough
    fuel gives one: the number of pages of a region, of free pages of the bitmap, of due
    timers, of bytes left in a stream or a string, of ports to
    try, of rounds until a descriptor is ready, of years between a date and 1970, of characters
    of a format (with 40 more for the formats that [strftime] expands to).  A blocking call of a socket waits as
    long as the network takes, so its loop is also given turn by turn in [TcpSystem].  The
    page allocator covers [2^20] pages, the size of its bitmap.

    ** Not modelled

    Assembly, registers, device access and boot code ([modules/axhal] except the console, [axdriver],
    [axdisplay], most [crates/driver_*], the device adapter of [axnet]) act on
    hardware.  The network stack [smoltcp], the FAT file system and the TLSF, buddy and
    bitmap allocators are third-party code.  [axtask] is modelled for one processor.
    Of the POSIX interface threads, resource limits and the resolution of host names are left
    out, of the C library floating point, mathematics, [strstr], allocation, directories and
    the glue code.  Log output, formatting, procedural macros, example
    applications and tools, and facades that only forward calls ([arceos_api], [axstd]) have
    nothing to prove. *)

From stdpp Require Import gmap strings list fin_maps sorting.
From Stdlib Require Import ZArith Lia.

(** ** Notation scope and hint databases of the development *)

Declare Scope arceos_scope.
Delimit Scope arceos_scope with arc.

Create HintDb u64 discriminated.
Create HintDb testbits discriminated.

(** ** Machine integers

    Integers are [Z]; a [w]-bit unsigned operation reduces modulo [2^w], which
    is what the release profile (the default [MODE] of the Makefile) compiles
    [+], [-], [*] and [<<] to. *)

Definition wrap (w x : Z) : Z := (x mod 2 ^ w)%Z.

(** The maximal [u64]/[usize] value on the 64-bit targets. *)
Definition u64_max : Z := (2 ^ 64 - 1)%Z.

Definition in_u64 (x : Z) : Prop := (0 ≤ x < 2 ^ 64)%Z.

Definition add64 (a b : Z) : Z := wrap 64 (a + b).
Definition sub64 (a b : Z) : Z := wrap 64 (a - b).
Definition mul64 (a b : Z) : Z := wrap 64 (a * b).
Definition shl64 (a n : Z) : Z := wrap 64 (Z.shiftl a n).
Definition shr64 (a n : Z) : Z := Z.shiftr a n.

(** [!x] at 64 bits. *)
Definition not64 (x : Z) : Z := (u64_max - x)%Z.

(** Two's complement [isize]/[i64] wrap-around. *)
Definition wrap_i64 (x : Z) : Z := ((x + 2 ^ 63) mod 2 ^ 64 - 2 ^ 63)%Z.

(** ** Results, panics and a state monad

    A Rust function that returns [Result<A, E>] or may panic gives a [res]; a
    function with side effects on a state [S] is a function [M S E A].  The
    state is returned on every path: an early [return Err(..)] keeps the
    effects made before it.  A loop that is not structural runs on fuel;
    [OutOfFuel] is the outcome of a run cut short, and the theorems on loops
    exclude it. *)

Inductive res (E A : Type) : Type :=
| Ok (a : A)
| Err (e : E)
| Panic
| OutOfFuel.
Arguments Ok {E A} a.
Arguments Err {E A} e.
Arguments Panic {E A}.
Arguments OutOfFuel {E A}.

Definition M (S E A : Type) : Type := S → res E A * S.

Definition throw {S E A} (e : E) : M S E A := λ s, (Err e, s).
Definition panic {S E A} : M S E A := λ s, (Panic, s).
Definition out_of_fuel {S E A} : M S E A := λ s, (OutOfFuel, s).
Definition get_state {S E} : M S E S := λ s, (Ok s, s).
Definition put_state {S E} (s' : S) : M S E unit := λ _, (Ok tt, s').

#[export] Instance M_ret {S E} : MRet (M S E) := λ A a s, (Ok a, s).

#[export] Instance M_bind {S E} : MBind (M S E) :=
  λ A B k m s,
    match m s with
    | (Ok a, s') => k a s'
    | (Err e, s') => (Err e, s')
    | (Panic, s') => (Panic, s')
    | (OutOfFuel, s') => (OutOfFuel, s')
    end.

(** A read of the state and an update of it. *)
Definition gets {S E A} (f : S → A) : M S E A := λ s, (Ok (f s), s).
Definition modify {S E} (f : S → S) : M S E unit := λ s, (Ok tt, f s).

(** A computation on the first part of the state. *)
Definition on_fst {S T E A} (m : M S E A) : M (S * T) E A := λ s,
  let '(r, s') := m s.1 in (r, (s', s.2)).

(** [assert!(b)]. *)
Definition assert_ {S E} (b : bool) : M S E unit :=
  if b then mret tt else panic.

(** [core::time::Duration], in nanoseconds: less than [2^64] seconds; a sum that is not panics. *)
Definition NANOS_PER_SECOND : Z := 1000000000.
Definition DURATION_LIMIT : Z := (2 ^ 64 * NANOS_PER_SECOND)%Z.
Definition Duration_add {S E} (a b : Z) : M S E Z :=
  if (a + b <? DURATION_LIMIT)%Z then mret (a + b)%Z else panic.

Definition is_ok {E A} (r : res E A) : bool :=
  match r with Ok _ => true | _ => false end.

(** ** Third-party bit flags

    The flag types of the repository are declared with the [bitflags] crate,
    whose operations are an interface here: [Bitflags] is what the sources call,
    [BitflagsSpec] its documented meaning. *)

Class Bitflags : Type := {
  bf_contains : Z → Z → bool;
  bf_intersects : Z → Z → bool;
  bf_union : Z → Z → Z;
  bf_truncate : Z → Z → Z;
  bf_is_empty : Z → bool;
}.

Class BitflagsSpec (B : Bitflags) : Prop := {
  bf_contains_spec a b : bf_contains a b = (Z.land a b =? b)%Z;
  bf_intersects_spec a b : bf_intersects a b = negb (Z.land a b =? 0)%Z;
  bf_union_spec a b : bf_union a b = Z.lor a b;
  bf_truncate_spec all a : bf_truncate all a = Z.land a all;
  bf_is_empty_spec a : bf_is_empty a = (a =? 0)%Z;
}.

(** The documented meaning, as an instance used by the concrete witnesses. *)
Definition std_bitflags : Bitflags := {|
  bf_contains a b := (Z.land a b =? b)%Z;
  bf_intersects a b := negb (Z.land a b =? 0)%Z;
  bf_union := Z.lor;
  bf_truncate all a := Z.land a all;
  bf_is_empty a := (a =? 0)%Z;
|}.

#[export] Instance std_bitflags_spec : BitflagsSpec std_bitflags.
Proof. by split. Qed.

(** ** Tactics *)

(** Invert an equation between results or pairs and substitute. *)
Ltac inv_res :=
  repeat match goal with
  | H : (_, _) = (_, _) |- _ => injection H as H; subst
  | H : Ok _ = Ok _ |- _ => injection H as H; subst
  | H : Err _ = Err _ |- _ => injection H as H; subst
  | H : @eq (res _ _) _ _ |- _ => discriminate H
  end.

(** Case analysis on every conditional of the goal. *)
Ltac split_ifs :=
  repeat match goal with |- context [if ?b then _ else _] => destruct b eqn:? end.

(** Turn boolean comparisons in hypotheses into propositions. *)
Ltac bool_to_prop :=
  repeat match goal with
  | H : (_ && _)%bool = true |- _ => apply andb_true_iff in H; destruct H
  | H : (_ || _)%bool = false |- _ => apply orb_false_iff in H; destruct H
  | H : negb _ = true |- _ => apply negb_true_iff in H
  | H : negb _ = false |- _ => apply negb_false_iff in H
  | H : (_ =? _)%Z = true |- _ => apply Z.eqb_eq in H
  | H : (_ =? _)%Z = false |- _ => apply Z.eqb_neq in H
  | H : (_ <? _)%Z = true |- _ => apply Z.ltb_lt in H
  | H : (_ <? _)%Z = false |- _ => apply Z.ltb_ge in H
  | H : (_ <=? _)%Z = true |- _ => apply Z.leb_le in H
  | H : (_ <=? _)%Z = false |- _ => apply Z.leb_gt in H
  end.

(** ** Lemmas on the monad *)

Lemma M_bind_ok {S E A B} (m : M S E A) (k : A → M S E B) s a s' :
  m s = (Ok a, s') → (m ≫= k) s = k a s'.
Proof. unfold mbind, M_bind. by intros ->. Qed.

Lemma M_bind_err {S E A B} (m : M S E A) (k : A → M S E B) s e s' :
  m s = (Err e, s') → (m ≫= k) s = (Err e, s').
Proof. unfold mbind, M_bind. by intros ->. Qed.

Lemma M_bind_panic {S E A B} (m : M S E A) (k : A → M S E B) s s' :
  m s = (Panic, s') → (m ≫= k) s = (Panic, s').
Proof. unfold mbind, M_bind. by intros ->. Qed.

Lemma M_bind_ok_inv {S E A B} (m : M S E A) (k : A → M S E B) s b s' :
  (m ≫= k) s = (Ok b, s') → ∃ a s1, m s = (Ok a, s1) ∧ k a s1 = (Ok b, s').
Proof.
  unfold mbind, M_bind. destruct (m s) as [[a|e| |] s1]; [|done..].
  intros H. by exists a, s1.
Qed.

(** ** Lemmas on machine integers and bits *)

Section ints.
Local Open Scope Z_scope.

Lemma wrap_range w x : 0 ≤ w → 0 ≤ wrap w x < 2 ^ w.
Proof. intros. apply Z.mod_pos_bound. lia. Qed.

Lemma wrap_small w x : 0 ≤ x < 2 ^ w → wrap w x = x.
Proof. apply Z.mod_small. Qed.

(** The bit [n] of a word, as the code tests it. *)
Lemma land_bit_zero r n : 0 ≤ n → (Z.land r (Z.shiftl 1 n) =? 0) = negb (Z.testbit r n).
Proof.
  intros Hn. destruct (Z.testbit r n) eqn:E; [apply Z.eqb_neq|apply Z.eqb_eq].
  - intros H0. assert (Z.testbit (Z.land r (Z.shiftl 1 n)) n = true) as Ht; [|by rewrite H0, Z.testbit_0_l in Ht].
    by rewrite Z.land_spec, E, Z.shiftl_spec, Z.sub_diag.
  - apply Z.bits_inj_0. intros i. rewrite Z.land_spec, Z.shiftl_1_l. destruct (decide (i = n)) as [->|Hne]; [by rewrite E|].
    rewrite Z.pow2_bits_false by done. apply andb_false_r.
Qed.

Lemma add64_small a b : in_u64 (a + b) → add64 a b = a + b.
Proof. apply wrap_small. Qed.

Lemma sub64_small a b : in_u64 (a - b) → sub64 a b = a - b.
Proof. apply wrap_small. Qed.

Lemma add64_range a b : in_u64 (add64 a b).
Proof. apply wrap_range. lia. Qed.

Lemma sub64_range a b : in_u64 (sub64 a b).
Proof. apply wrap_range. lia. Qed.

Lemma wrap_i64_small x : - 2 ^ 63 ≤ x < 2 ^ 63 → wrap_i64 x = x.
Proof. intros. unfold wrap_i64. rewrite Z.mod_small by lia. lia. Qed.

Lemma wrap_i64_range x : - 2 ^ 63 ≤ wrap_i64 x < 2 ^ 63.
Proof. unfold wrap_i64. pose proof (Z.mod_pos_bound (x + 2 ^ 63) (2 ^ 64)). lia. Qed.

(** Bits above the width of a bounded number are zero. *)
Lemma testbit_high n x i : 0 ≤ x < 2 ^ n → 0 ≤ n → n ≤ i → Z.testbit x i = false.
Proof.
  intros Hx Hn Hi. rewrite <-(Z.mod_small x (2 ^ n)) by done.
  by apply Z.mod_pow2_bits_high; lia.
Qed.

(** A number whose bits are zero from [n] on is below [2^n]. *)
Lemma testbit_bound n x :
  0 ≤ x → 0 ≤ n → (∀ i, n ≤ i → Z.testbit x i = false) → x < 2 ^ n.
Proof.
  intros Hx Hn Hb. assert (x = x mod 2 ^ n) as ->.
  { apply Z.bits_inj'. intros i Hi. destruct (decide (i < n)).
    - by rewrite Z.mod_pow2_bits_low by lia.
    - rewrite Z.mod_pow2_bits_high by lia. apply Hb. lia. }
  apply Z.mod_pos_bound. lia.
Qed.

Lemma not64_testbit x i :
  in_u64 x → 0 ≤ i < 64 → Z.testbit (not64 x) i = negb (Z.testbit x i).
Proof.
  intros Hx Hi. unfold not64, u64_max.
  replace (2 ^ 64 - 1 - x) with (Z.lnot x + 1 * 2 ^ 64) by (unfold Z.lnot; lia).
  rewrite <-(Z.mod_pow2_bits_low _ 64), Z.mod_add by lia.
  rewrite Z.mod_pow2_bits_low by lia. by apply Z.lnot_spec; lia.
Qed.

(** [a & !b] clears the bits of [b]. *)
Lemma land_not64 a b : in_u64 a → in_u64 b → Z.land a (not64 b) = Z.ldiff a b.
Proof.
  intros Ha Hb. apply Z.bits_inj'. intros i Hi.
  rewrite Z.land_spec, Z.ldiff_spec. destruct (decide (i < 64)).
  - by rewrite not64_testbit by (done || lia).
  - rewrite (testbit_high 64 a) by (done || lia). done.
Qed.

Lemma land_pow2_mask a k : 0 ≤ k → Z.land a (2 ^ k - 1) = a mod 2 ^ k.
Proof.
  intros. rewrite <-Z.land_ones by done. f_equal. rewrite Z.ones_equiv. lia.
Qed.

Lemma ldiff_pow2_mask a k : 0 ≤ k → Z.ldiff a (2 ^ k - 1) = a - a mod 2 ^ k.
Proof.
  intros Hk. replace (2 ^ k - 1) with (Z.ones k) by (rewrite Z.ones_equiv; lia).
  rewrite Z.ldiff_ones_r by done.
  rewrite Z.shiftl_mul_pow2, Z.shiftr_div_pow2 by done.
  pose proof (Z.div_mod a (2 ^ k) ltac:(lia)). lia.
Qed.

Lemma land_bounded a b n : 0 ≤ b < 2 ^ n → 0 ≤ n → 0 ≤ Z.land a b < 2 ^ n.
Proof.
  intros Hb Hn. assert (0 ≤ Z.land a b) by (apply Z.land_nonneg; lia).
  split; [done|]. apply testbit_bound; [done..|]. intros i Hi.
  rewrite Z.land_spec, (testbit_high n b) by (done || lia). apply andb_false_r.
Qed.

Lemma lor_bounded a b n :
  0 ≤ a < 2 ^ n → 0 ≤ b < 2 ^ n → 0 ≤ n → 0 ≤ Z.lor a b < 2 ^ n.
Proof.
  intros Ha Hb Hn. assert (0 ≤ Z.lor a b) by (apply Z.lor_nonneg; lia).
  split; [done|]. apply testbit_bound; [done..|]. intros i Hi.
  by rewrite Z.lor_spec, (testbit_high n a), (testbit_high n b) by (done || lia).
Qed.

Lemma pow2_divide a b : 0 ≤ a ≤ b → (2 ^ a | 2 ^ b).
Proof.
  intros. exists (2 ^ (b - a)). rewrite <-Z.pow_add_r by lia. f_equal. lia.
Qed.

End ints.

#[export] Hint Resolve wrap_range add64_range sub64_range : u64.

(** ** Lemmas on lists *)

Lemma filter_all {A} (P : A → Prop) `{∀ x, Decision (P x)} (l : list A) :
  Forall P l → filter P l = l.
Proof. induction 1; [done|]. rewrite filter_cons_True by done. by f_equal. Qed.

Lemma filter_none {A} (P : A → Prop) `{∀ x, Decision (P x)} (l : list A) :
  Forall (λ x, ¬ P x) l → filter P l = [].
Proof. induction 1; [done|]. by rewrite filter_cons_False by done. Qed.

(** ** Counting the occurrences of an address *)

Section counting.
Local Open Scope Z_scope.

Definition b2z (P : Prop) `{Decision P} : Z := if decide P then 1 else 0.

Fixpoint occ (t : positive) (l : list positive) : Z :=
  match l with [] => 0 | u :: l => b2z (u = t) + occ t l end.

Lemma b2z_nonneg P `{Decision P} : 0 ≤ b2z P.
Proof. unfold b2z. case_decide; lia. Qed.
Lemma b2z_true (P : Prop) `{Decision P} : P → b2z P = 1.
Proof. intros. unfold b2z. by rewrite decide_True. Qed.
Lemma b2z_false (P : Prop) `{Decision P} : ¬ P → b2z P = 0.
Proof. intros. unfold b2z. by rewrite decide_False. Qed.
Lemma b2z_iff (P Q : Prop) `{Decision P, Decision Q} : (P ↔ Q) → b2z P = b2z Q.
Proof. intros HPQ. unfold b2z. repeat case_decide; tauto. Qed.

Lemma occ_nonneg t l : 0 ≤ occ t l.
Proof. induction l as [|u l IH]; simpl; [lia|]. pose proof (b2z_nonneg (u = t)). lia. Qed.

Lemma occ_app t l k : occ t (l ++ k) = occ t l + occ t k.
Proof. induction l; simpl; lia. Qed.

Lemma occ_pos t l : t ∈ l ↔ 0 < occ t l.
Proof.
  induction l as [|u l IH]; simpl; [set_solver by lia|].
  rewrite elem_of_cons, IH. pose proof (occ_nonneg t l). unfold b2z. case_decide; subst.
  - intuition lia.
  - intuition (congruence || lia).
Qed.

#[export] Instance occ_perm t : Proper ((≡ₚ) ==> (=)) (occ t).
Proof. induction 1; simpl; lia. Qed.

Lemma occ_filter t (P : positive → Prop) `{∀ u, Decision (P u)} l :
  occ t (filter P l) = if decide (P t) then occ t l else 0.
Proof.
  induction l as [|u l IH]; [by case_decide|]. rewrite filter_cons.
  destruct (decide (P u)) as [Hu|Hu]; simpl; rewrite IH; case_decide; try lia.
  - rewrite b2z_false by congruence. lia.
  - rewrite b2z_false by congruence. lia.
Qed.

Lemma occ_delete t l i u : l !! i = Some u → occ t (delete i l) = occ t l - b2z (u = t).
Proof. intros Hi. rewrite (delete_Permutation l i u) at 2 by done. simpl. lia. Qed.
End counting.
