(* ===== verification/MemoryAddr.v ===== *)
(** * Addresses and alignment ([crates/memory_addr/src/lib.rs])

    The alignment helpers on [usize], and the wrapper types [PhysAddr] and
    [VirtAddr].  [align_down]/[align_up] are specified by the extremal property
    their documentation states, and the wrap-around of [align_up] near
    [usize::MAX] is made explicit. *)

From stdpp Require Import base decidable numbers.
From Stdlib Require Import ZArith Lia.
From S2P Require Import Prelude.

Local Open Scope Z_scope.

(** ** Free functions *)

Definition PAGE_SIZE_4K : Z := 0x1000.

Definition align_down (addr align : Z) : Z :=
  Z.land addr (not64 (sub64 align 1)).

Definition align_up (addr align : Z) : Z :=
  Z.land (sub64 (add64 addr align) 1) (not64 (sub64 align 1)).

Definition align_offset (addr align : Z) : Z :=
  Z.land addr (sub64 align 1).

Definition is_aligned (addr align : Z) : bool :=
  align_offset addr align =? 0.

Definition align_down_4k (addr : Z) : Z := align_down addr PAGE_SIZE_4K.
Definition align_up_4k (addr : Z) : Z := align_up addr PAGE_SIZE_4K.
Definition align_offset_4k (addr : Z) : Z := align_offset addr PAGE_SIZE_4K.
Definition is_aligned_4k (addr : Z) : bool := is_aligned addr PAGE_SIZE_4K.

(** ** The wrapper types

    Both structs are [repr(transparent)] wrappers of a [usize]; their methods
    call the free functions, and [Add]/[Sub] are the wrapping [usize] ones. *)

Abbreviation PhysAddr := Z (only parsing).
Abbreviation VirtAddr := Z (only parsing).

Definition PhysAddr_from (addr : Z) : PhysAddr := addr.
Definition PhysAddr_as_usize (self : PhysAddr) : Z := self.
Definition PhysAddr_align_down (self : PhysAddr) (align : Z) : PhysAddr :=
  PhysAddr_from (align_down (PhysAddr_as_usize self) align).
Definition PhysAddr_align_up (self : PhysAddr) (align : Z) : PhysAddr :=
  PhysAddr_from (align_up (PhysAddr_as_usize self) align).
Definition PhysAddr_align_offset (self : PhysAddr) (align : Z) : Z :=
  align_offset (PhysAddr_as_usize self) align.
Definition PhysAddr_is_aligned (self : PhysAddr) (align : Z) : bool :=
  is_aligned (PhysAddr_as_usize self) align.
Definition PhysAddr_align_down_4k (self : PhysAddr) : PhysAddr :=
  PhysAddr_align_down self PAGE_SIZE_4K.
Definition PhysAddr_align_up_4k (self : PhysAddr) : PhysAddr :=
  PhysAddr_align_up self PAGE_SIZE_4K.
Definition PhysAddr_align_offset_4k (self : PhysAddr) : Z :=
  PhysAddr_align_offset self PAGE_SIZE_4K.
Definition PhysAddr_is_aligned_4k (self : PhysAddr) : bool :=
  PhysAddr_is_aligned self PAGE_SIZE_4K.
Definition PhysAddr_add (self : PhysAddr) (rhs : Z) : PhysAddr := add64 self rhs.
Definition PhysAddr_sub (self : PhysAddr) (rhs : Z) : PhysAddr := sub64 self rhs.

Definition VirtAddr_from (addr : Z) : VirtAddr := addr.
Definition VirtAddr_as_usize (self : VirtAddr) : Z := self.
Definition VirtAddr_align_down (self : VirtAddr) (align : Z) : VirtAddr :=
  VirtAddr_from (align_down (VirtAddr_as_usize self) align).
Definition VirtAddr_align_up (self : VirtAddr) (align : Z) : VirtAddr :=
  VirtAddr_from (align_up (VirtAddr_as_usize self) align).
Definition VirtAddr_align_offset (self : VirtAddr) (align : Z) : Z :=
  align_offset (VirtAddr_as_usize self) align.
Definition VirtAddr_is_aligned (self : VirtAddr) (align : Z) : bool :=
  is_aligned (VirtAddr_as_usize self) align.
Definition VirtAddr_align_down_4k (self : VirtAddr) : VirtAddr :=
  VirtAddr_align_down self PAGE_SIZE_4K.
Definition VirtAddr_align_up_4k (self : VirtAddr) : VirtAddr :=
  VirtAddr_align_up self PAGE_SIZE_4K.
Definition VirtAddr_align_offset_4k (self : VirtAddr) : Z :=
  VirtAddr_align_offset self PAGE_SIZE_4K.
Definition VirtAddr_is_aligned_4k (self : VirtAddr) : bool :=
  VirtAddr_is_aligned self PAGE_SIZE_4K.
Definition VirtAddr_add (self : VirtAddr) (rhs : Z) : VirtAddr := add64 self rhs.
Definition VirtAddr_sub (self : VirtAddr) (rhs : Z) : VirtAddr := sub64 self rhs.

(** ** Lemmas: the bit tricks are division and remainder by [2^k] *)

Lemma pow2_sub64 k : 0 ≤ k < 64 → sub64 (2 ^ k) 1 = 2 ^ k - 1.
Proof.
  intros. apply sub64_small. unfold in_u64.
  pose proof (Z.pow_lt_mono_r 2 k 64). lia.
Qed.

Lemma pow2_mask_u64 k : 0 ≤ k < 64 → in_u64 (2 ^ k - 1).
Proof. intros. unfold in_u64. pose proof (Z.pow_lt_mono_r 2 k 64). lia. Qed.

Lemma align_offset_mod addr k :
  0 ≤ k < 64 → align_offset addr (2 ^ k) = addr mod 2 ^ k.
Proof. intros. unfold align_offset. rewrite pow2_sub64, land_pow2_mask by lia. done. Qed.

Lemma align_down_mod addr k :
  in_u64 addr → 0 ≤ k < 64 → align_down addr (2 ^ k) = addr - addr mod 2 ^ k.
Proof.
  intros. unfold align_down. rewrite pow2_sub64 by done.
  rewrite land_not64, ldiff_pow2_mask by (done || lia || by apply pow2_mask_u64). done.
Qed.

Lemma align_down_mult addr k :
  in_u64 addr → 0 ≤ k < 64 → align_down addr (2 ^ k) = 2 ^ k * (addr / 2 ^ k).
Proof. intros. rewrite align_down_mod by done. pose proof (Z.div_mod addr (2 ^ k)). lia. Qed.

Lemma align_down_range addr k :
  in_u64 addr → 0 ≤ k < 64 → 0 ≤ align_down addr (2 ^ k) ≤ addr.
Proof.
  intros [??] ?. rewrite align_down_mod by (done || split; done).
  pose proof (Z.mod_pos_bound addr (2 ^ k)). pose proof (Z.mod_le addr (2 ^ k)). lia.
Qed.

Lemma align_up_eq addr k :
  in_u64 addr → 0 ≤ k < 64 →
  align_up addr (2 ^ k) = align_down (wrap 64 (addr + (2 ^ k - 1))) (2 ^ k).
Proof.
  intros. unfold align_up, align_down. f_equal. unfold sub64, add64, wrap.
  rewrite Zminus_mod_idemp_l. f_equal. lia.
Qed.

Lemma is_aligned_divide addr k :
  0 ≤ k < 64 → is_aligned addr (2 ^ k) = true ↔ (2 ^ k | addr).
Proof.
  intros. unfold is_aligned. rewrite align_offset_mod, Z.eqb_eq by done.
  apply Z.mod_divide. lia.
Qed.

Lemma is_aligned_mod addr k :
  0 ≤ k < 64 → is_aligned addr (2 ^ k) = (addr mod 2 ^ k =? 0).
Proof. intros. unfold is_aligned. by rewrite align_offset_mod. Qed.

Lemma align_up_overflow addr k :
  in_u64 addr → 0 ≤ k < 64 → 2 ^ 64 ≤ addr + (2 ^ k - 1) → align_up addr (2 ^ k) = 0.
Proof.
  intros [??] Hk Hov. rewrite align_up_eq by (done || split; done).
  pose proof (pow2_mask_u64 k Hk) as [_ ?].
  assert (wrap 64 (addr + (2 ^ k - 1)) = addr + (2 ^ k - 1) - 2 ^ 64) as ->.
  { unfold wrap. symmetry. apply Z.mod_unique with 1; lia. }
  rewrite align_down_mult by (unfold in_u64; lia).
  rewrite Z.div_small by lia. lia.
Qed.

(** ** Properties *)

(** for a power-of-two alignment, [align_down] returns the greatest
    multiple of the alignment that is not above the address. *)
Theorem align_down_greatest addr k :
  in_u64 addr → 0 ≤ k < 64 →
  (2 ^ k | align_down addr (2 ^ k)) ∧
  align_down addr (2 ^ k) ≤ addr ∧
  ∀ x, (2 ^ k | x) → x ≤ addr → x ≤ align_down addr (2 ^ k).
Proof.
  intros Ha Hk. pose proof (align_down_range addr k Ha Hk).
  rewrite align_down_mult by done. split_and!; [apply Z.divide_factor_l| |].
  - rewrite <-align_down_mult by done. lia.
  - intros x [q ->] Hx. rewrite (Z.mul_comm q). apply Z.mul_le_mono_nonneg_l; [lia|].
    apply Z.div_le_lower_bound; lia.
Qed.

Lemma align_down_greatest_witness :
  in_u64 0x12345 ∧ 0 ≤ 12 < 64 ∧ align_down 0x12345 (2 ^ 12) = 0x12000 ∧
  (2 ^ 12 | align_down 0x12345 (2 ^ 12)).
Proof.
  split_and!; [done..|reflexivity|].
  apply (align_down_greatest 0x12345 12); done.
Defined.

(** when [addr + align - 1] fits in a [usize], [align_up] returns the
    smallest multiple of the alignment that is not below the address; when it
    does not fit, the addition wraps around and the result is [0]. *)
Theorem align_up_smallest addr k :
  in_u64 addr → 0 ≤ k < 64 →
  (addr + (2 ^ k - 1) < 2 ^ 64 ∧
   (2 ^ k | align_up addr (2 ^ k)) ∧
   addr ≤ align_up addr (2 ^ k) ∧
   ∀ x, (2 ^ k | x) → addr ≤ x → align_up addr (2 ^ k) ≤ x) ∨
  (2 ^ 64 ≤ addr + (2 ^ k - 1) ∧ align_up addr (2 ^ k) = 0).
Proof.
  intros Ha Hk. pose proof (pow2_mask_u64 k Hk) as [_ ?].
  destruct (Z.lt_ge_cases (addr + (2 ^ k - 1)) (2 ^ 64)) as [Hs|Hs];
    [left; split; [done|]|right; split; [done|by apply align_up_overflow]].
  destruct Ha as [??]. assert (0 < 2 ^ k) by lia.
  rewrite align_up_eq, wrap_small by (done || split; lia || lia).
  rewrite align_down_mult by (unfold in_u64; lia).
  pose proof (Z.div_mod (addr + (2 ^ k - 1)) (2 ^ k) ltac:(lia)).
  pose proof (Z.mod_pos_bound (addr + (2 ^ k - 1)) (2 ^ k) ltac:(lia)).
  split_and!; [apply Z.divide_factor_l|lia|].
  intros x [q ->] Hx. rewrite (Z.mul_comm q). apply Z.mul_le_mono_nonneg_l; [lia|].
  assert ((addr + (2 ^ k - 1)) / 2 ^ k < q + 1); [|lia].
  apply Z.div_lt_upper_bound; lia.
Qed.

Lemma align_up_smallest_witness :
  in_u64 0x12345 ∧ 0 ≤ 12 < 64 ∧ align_up 0x12345 (2 ^ 12) = 0x13000 ∧
  in_u64 (2 ^ 64 - 1) ∧ align_up (2 ^ 64 - 1) (2 ^ 12) = 0.
Proof.
  split_and!; [done..|reflexivity|done|].
  destruct (align_up_smallest (2 ^ 64 - 1) 12 ltac:(done) ltac:(done))
    as [[H _]|[_ H]]; [by apply Z.ltb_lt in H|exact H].
Defined.

(** [align_offset] and [is_aligned] are remainder and divisibility, and an
    address splits into its aligned part and its offset. *)
Lemma align_offset_split addr k :
  in_u64 addr → 0 ≤ k < 64 →
  align_offset addr (2 ^ k) = addr mod 2 ^ k ∧
  align_down addr (2 ^ k) + align_offset addr (2 ^ k) = addr ∧
  (is_aligned addr (2 ^ k) = true ↔ align_down addr (2 ^ k) = addr).
Proof.
  intros Ha Hk. rewrite align_offset_mod, align_down_mod by done.
  split_and!; [done|lia|]. rewrite is_aligned_mod, Z.eqb_eq by done. lia.
Qed.
