(* ===== verification/PageTableEntry.v ===== *)
(** * Page table entries ([crates/page_table_entry])

    The generic flags [MappingFlags], the trait [GenericPTE] as a class of
    operations with its laws ([GenericPTESpec]), and the three entry formats:
    VMSAv8-64 ([A64]), Sv39/Sv48 ([Rv64]) and x86-64 ([X64]).  Every format
    discharges the laws, so the page table of [PageTable] is verified against
    the interface only.  An entry is its raw [u64]. *)

From stdpp Require Import base decidable numbers list.
From Stdlib Require Import ZArith Lia.
From S2P Require Import Prelude MemoryAddr.

Local Open Scope Z_scope.

(** ** [MappingFlags] *)

Definition MF_READ : Z := Z.shiftl 1 0.
Definition MF_WRITE : Z := Z.shiftl 1 1.
Definition MF_EXECUTE : Z := Z.shiftl 1 2.
Definition MF_USER : Z := Z.shiftl 1 3.
Definition MF_DEVICE : Z := Z.shiftl 1 4.
Definition MF_UNCACHED : Z := Z.shiftl 1 5.
Definition MF_empty : Z := 0.

(** [if c { f |= x }]. *)
Definition or_if {B : Bitflags} (c : bool) (x f : Z) : Z :=
  if c then bf_union f x else f.

(** ** The trait [GenericPTE] *)

Class GenericPTE : Type := {
  pte_new_page : PhysAddr → Z → bool → Z;
  pte_new_table : PhysAddr → Z;
  pte_paddr : Z → PhysAddr;
  pte_flags : Z → Z;
  pte_set_paddr : Z → PhysAddr → Z;
  pte_set_flags : Z → Z → bool → Z;
  pte_is_unused : Z → bool;
  pte_is_present : Z → bool;
  pte_is_huge : Z → bool;
  pte_clear : Z → Z;
}.

(** A physical address an entry can hold: 4K-aligned, of at most [bits] bits. *)
Definition frame_ok (bits : Z) (p : PhysAddr) : Prop :=
  0 ≤ p < 2 ^ bits ∧ (2 ^ 12 | p).

(** Flags of a readable mapping. *)
Definition flags_ok (f : Z) : Prop := 0 ≤ f < 2 ^ 6 ∧ Z.land f MF_READ = MF_READ.

(** What a page table relies on.  [norm] is the set of flags an entry
    created with given flags reports. *)
Class GenericPTESpec (P : GenericPTE) (bits : Z) (norm : Z → Z) : Prop := {
  pte_unused_zero e : pte_is_unused e = true ↔ e = 0;
  pte_clear_zero e : pte_clear e = 0;
  pte_zero_absent : pte_is_present 0 = false;
  pte_table_unused p : frame_ok bits p → pte_is_unused (pte_new_table p) = false;
  pte_table_present p : frame_ok bits p → pte_is_present (pte_new_table p) = true;
  pte_table_huge p : frame_ok bits p → pte_is_huge (pte_new_table p) = false;
  pte_table_paddr p : frame_ok bits p → pte_paddr (pte_new_table p) = p;
  pte_page_unused p f h :
    frame_ok bits p → flags_ok f → pte_is_unused (pte_new_page p f h) = false;
  pte_page_present p f h :
    frame_ok bits p → flags_ok f → pte_is_present (pte_new_page p f h) = true;
  pte_page_huge p f :
    frame_ok bits p → flags_ok f → pte_is_huge (pte_new_page p f true) = true;
  pte_page_paddr p f h :
    frame_ok bits p → flags_ok f → pte_paddr (pte_new_page p f h) = p;
  pte_page_flags p f h :
    frame_ok bits p → flags_ok f → pte_flags (pte_new_page p f h) = norm f;
  pte_set_paddr_paddr e p :
    in_u64 e → frame_ok bits p → pte_paddr (pte_set_paddr e p) = p;
  pte_set_paddr_flags e p :
    in_u64 e → frame_ok bits p → pte_flags (pte_set_paddr e p) = pte_flags e;
  pte_set_paddr_huge e p :
    in_u64 e → frame_ok bits p → pte_is_huge (pte_set_paddr e p) = pte_is_huge e;
  pte_set_flags_paddr e f h :
    in_u64 e → flags_ok f → pte_paddr (pte_set_flags e f h) = pte_paddr e;
  pte_set_flags_flags e f h :
    in_u64 e → flags_ok f → pte_flags (pte_set_flags e f h) = norm f;
  pte_set_flags_huge e f :
    in_u64 e → flags_ok f → pte_is_huge (pte_set_flags e f true) = true;
  pte_set_paddr_present e p :
    in_u64 e → frame_ok bits p → pte_is_present (pte_set_paddr e p) = pte_is_present e;
  pte_set_flags_present e f h :
    in_u64 e → flags_ok f → pte_is_present (pte_set_flags e f h) = true;
  pte_page_u64 p f h : flags_ok f → in_u64 (pte_new_page p f h);
  pte_table_u64 p : in_u64 (pte_new_table p);
  pte_set_paddr_u64 e p : in_u64 e → in_u64 (pte_set_paddr e p);
  pte_set_flags_u64 e f h : in_u64 e → flags_ok f → in_u64 (pte_set_flags e f h);
}.

(** ** AArch64 ([arch/aarch64.rs]) *)

Definition DA_VALID : Z := Z.shiftl 1 0.
Definition DA_NON_BLOCK : Z := Z.shiftl 1 1.
Definition DA_ATTR_INDX : Z := Z.shiftl 7 2.
Definition DA_NS : Z := Z.shiftl 1 5.
Definition DA_AP_EL0 : Z := Z.shiftl 1 6.
Definition DA_AP_RO : Z := Z.shiftl 1 7.
Definition DA_INNER : Z := Z.shiftl 1 8.
Definition DA_SHAREABLE : Z := Z.shiftl 1 9.
Definition DA_AF : Z := Z.shiftl 1 10.
Definition DA_NG : Z := Z.shiftl 1 11.
Definition DA_CONTIGUOUS : Z := Z.shiftl 1 52.
Definition DA_PXN : Z := Z.shiftl 1 53.
Definition DA_UXN : Z := Z.shiftl 1 54.
Definition DA_PXN_TABLE : Z := Z.shiftl 1 59.
Definition DA_XN_TABLE : Z := Z.shiftl 1 60.
Definition DA_AP_NO_EL0_TABLE : Z := Z.shiftl 1 61.
Definition DA_AP_NO_WRITE_TABLE : Z := Z.shiftl 1 62.
Definition DA_NS_TABLE : Z := Z.shiftl 1 63.

(** [DescriptorAttr::all()]: the union of the declared flags. *)
Definition DescriptorAttr_all : Z :=
  foldr Z.lor 0
    [DA_VALID; DA_NON_BLOCK; DA_ATTR_INDX; DA_NS; DA_AP_EL0; DA_AP_RO; DA_INNER;
     DA_SHAREABLE; DA_AF; DA_NG; DA_CONTIGUOUS; DA_PXN; DA_UXN; DA_PXN_TABLE;
     DA_XN_TABLE; DA_AP_NO_EL0_TABLE; DA_AP_NO_WRITE_TABLE; DA_NS_TABLE].

Inductive MemAttr : Type := Device | Normal | NormalNonCacheable.

Definition MemAttr_repr (a : MemAttr) : Z :=
  match a with Device => 0 | Normal => 1 | NormalNonCacheable => 2 end.

Definition ATTR_INDEX_MASK : Z := 0x1c.

Section a64.
Context {B : Bitflags}.

Definition from_mem_attr (idx : MemAttr) : Z :=
  let bits := shl64 (MemAttr_repr idx) 2 in
  match idx with
  | Normal | NormalNonCacheable => Z.lor bits (Z.lor DA_INNER DA_SHAREABLE)
  | Device => bits
  end.

Definition mem_attr (attr : Z) : option MemAttr :=
  let idx := shr64 (Z.land attr ATTR_INDEX_MASK) 2 in
  match idx with
  | 0 => Some Device
  | 1 => Some Normal
  | 2 => Some NormalNonCacheable
  | _ => None
  end.

Definition MappingFlags_from_DescriptorAttr (attr : Z) : Z :=
  let flags := MF_empty in
  let flags := or_if (bf_contains attr DA_VALID) MF_READ flags in
  let flags := or_if (negb (bf_contains attr DA_AP_RO)) MF_WRITE flags in
  let flags :=
    if bf_contains attr DA_AP_EL0 then
      or_if (negb (bf_contains attr DA_UXN)) MF_EXECUTE (bf_union flags MF_USER)
    else
      or_if (negb (bf_intersects attr DA_PXN)) MF_EXECUTE flags in
  match mem_attr attr with
  | Some Device => bf_union flags MF_DEVICE
  | Some NormalNonCacheable => bf_union flags MF_UNCACHED
  | _ => flags
  end.

Definition DescriptorAttr_from_MappingFlags (flags : Z) : Z :=
  let attr :=
    if bf_contains flags MF_DEVICE then from_mem_attr Device
    else if bf_contains flags MF_UNCACHED then from_mem_attr NormalNonCacheable
    else from_mem_attr Normal in
  let attr := or_if (bf_contains flags MF_READ) DA_VALID attr in
  let attr := or_if (negb (bf_contains flags MF_WRITE)) DA_AP_RO attr in
  if bf_contains flags MF_USER then
    or_if (negb (bf_contains flags MF_EXECUTE)) DA_UXN
      (bf_union attr (bf_union DA_AP_EL0 DA_PXN))
  else
    or_if (negb (bf_contains flags MF_EXECUTE)) DA_PXN (bf_union attr DA_UXN).

Definition A64_PHYS_ADDR_MASK : Z := 0x0000fffffffff000.

Definition A64_new_page (paddr : PhysAddr) (flags : Z) (is_huge : bool) : Z :=
  let attr := bf_union (DescriptorAttr_from_MappingFlags flags) DA_AF in
  let attr := or_if (negb is_huge) DA_NON_BLOCK attr in
  Z.lor attr (Z.land (PhysAddr_as_usize paddr) A64_PHYS_ADDR_MASK).

Definition A64_new_table (paddr : PhysAddr) : Z :=
  let attr := bf_union DA_NON_BLOCK DA_VALID in
  Z.lor attr (Z.land (PhysAddr_as_usize paddr) A64_PHYS_ADDR_MASK).

Definition A64_paddr (self : Z) : PhysAddr :=
  PhysAddr_from (Z.land self A64_PHYS_ADDR_MASK).

Definition A64_flags (self : Z) : Z :=
  MappingFlags_from_DescriptorAttr (bf_truncate DescriptorAttr_all self).

Definition A64_set_paddr (self : Z) (paddr : PhysAddr) : Z :=
  Z.lor (Z.land self (not64 A64_PHYS_ADDR_MASK))
        (Z.land (PhysAddr_as_usize paddr) A64_PHYS_ADDR_MASK).

Definition A64_set_flags (self : Z) (flags : Z) (is_huge : bool) : Z :=
  let attr := bf_union (DescriptorAttr_from_MappingFlags flags) DA_AF in
  let attr := or_if (negb is_huge) DA_NON_BLOCK attr in
  Z.lor (Z.land self A64_PHYS_ADDR_MASK) attr.

Definition A64_is_unused (self : Z) : bool := self =? 0.
Definition A64_is_present (self : Z) : bool :=
  bf_contains (bf_truncate DescriptorAttr_all self) DA_VALID.
Definition A64_is_huge (self : Z) : bool :=
  negb (bf_contains (bf_truncate DescriptorAttr_all self) DA_NON_BLOCK).
Definition A64_clear (self : Z) : Z := 0.

Definition A64PTE : GenericPTE := {|
  pte_new_page := A64_new_page;
  pte_new_table := A64_new_table;
  pte_paddr := A64_paddr;
  pte_flags := A64_flags;
  pte_set_paddr := A64_set_paddr;
  pte_set_flags := A64_set_flags;
  pte_is_unused := A64_is_unused;
  pte_is_present := A64_is_present;
  pte_is_huge := A64_is_huge;
  pte_clear := A64_clear;
|}.

End a64.

(** ** RISC-V ([arch/riscv.rs]) *)

Definition PF_V : Z := Z.shiftl 1 0.
Definition PF_R : Z := Z.shiftl 1 1.
Definition PF_W : Z := Z.shiftl 1 2.
Definition PF_X : Z := Z.shiftl 1 3.
Definition PF_U : Z := Z.shiftl 1 4.
Definition PF_G : Z := Z.shiftl 1 5.
Definition PF_A : Z := Z.shiftl 1 6.
Definition PF_D : Z := Z.shiftl 1 7.

Definition PTEFlags_all : Z :=
  foldr Z.lor 0 [PF_V; PF_R; PF_W; PF_X; PF_U; PF_G; PF_A; PF_D].

Section rv64.
Context {B : Bitflags}.

Definition MappingFlags_from_PTEFlags (f : Z) : Z :=
  let ret := MF_empty in
  let ret := or_if (bf_contains f PF_R) MF_READ ret in
  let ret := or_if (bf_contains f PF_W) MF_WRITE ret in
  let ret := or_if (bf_contains f PF_X) MF_EXECUTE ret in
  or_if (bf_contains f PF_U) MF_USER ret.

Definition PTEFlags_from_MappingFlags (f : Z) : Z :=
  if bf_is_empty f then 0
  else
    let ret := PF_V in
    let ret := or_if (bf_contains f MF_READ) PF_R ret in
    let ret := or_if (bf_contains f MF_WRITE) PF_W ret in
    let ret := or_if (bf_contains f MF_EXECUTE) PF_X ret in
    or_if (bf_contains f MF_USER) PF_U ret.

Definition Rv64_PHYS_ADDR_MASK : Z := sub64 (shl64 1 54) (shl64 1 10).

Definition Rv64_new_page (paddr : PhysAddr) (flags : Z) (_is_huge : bool) : Z :=
  let flags := bf_union (bf_union (PTEFlags_from_MappingFlags flags) PF_A) PF_D in
  Z.lor flags (Z.land (shr64 (PhysAddr_as_usize paddr) 2) Rv64_PHYS_ADDR_MASK).

Definition Rv64_new_table (paddr : PhysAddr) : Z :=
  Z.lor PF_V (Z.land (shr64 (PhysAddr_as_usize paddr) 2) Rv64_PHYS_ADDR_MASK).

Definition Rv64_paddr (self : Z) : PhysAddr :=
  PhysAddr_from (shl64 (Z.land self Rv64_PHYS_ADDR_MASK) 2).

Definition Rv64_flags (self : Z) : Z :=
  MappingFlags_from_PTEFlags (bf_truncate PTEFlags_all self).

Definition Rv64_set_paddr (self : Z) (paddr : PhysAddr) : Z :=
  Z.lor (Z.land self (not64 Rv64_PHYS_ADDR_MASK))
        (Z.land (shr64 (PhysAddr_as_usize paddr) 2) Rv64_PHYS_ADDR_MASK).

Definition Rv64_set_flags (self : Z) (flags : Z) (_is_huge : bool) : Z :=
  let flags := bf_union (bf_union (PTEFlags_from_MappingFlags flags) PF_A) PF_D in
  Z.lor (Z.land self Rv64_PHYS_ADDR_MASK) flags.

Definition Rv64_is_unused (self : Z) : bool := self =? 0.
Definition Rv64_is_present (self : Z) : bool :=
  bf_contains (bf_truncate PTEFlags_all self) PF_V.
Definition Rv64_is_huge (self : Z) : bool :=
  bf_intersects (bf_truncate PTEFlags_all self) (bf_union PF_R PF_X).
Definition Rv64_clear (self : Z) : Z := 0.

Definition Rv64PTE : GenericPTE := {|
  pte_new_page := Rv64_new_page;
  pte_new_table := Rv64_new_table;
  pte_paddr := Rv64_paddr;
  pte_flags := Rv64_flags;
  pte_set_paddr := Rv64_set_paddr;
  pte_set_flags := Rv64_set_flags;
  pte_is_unused := Rv64_is_unused;
  pte_is_present := Rv64_is_present;
  pte_is_huge := Rv64_is_huge;
  pte_clear := Rv64_clear;
|}.

End rv64.

(** ** x86-64 ([arch/x86_64.rs])

    The hardware flags come from the [x86_64] crate ([PageTableFlags]): their
    values are parameters, [PTFSpec] is the documented layout. *)

Class PTF : Type := {
  PTF_PRESENT : Z;
  PTF_WRITABLE : Z;
  PTF_USER_ACCESSIBLE : Z;
  PTF_WRITE_THROUGH : Z;
  PTF_NO_CACHE : Z;
  PTF_HUGE_PAGE : Z;
  PTF_NO_EXECUTE : Z;
  PTF_all : Z;
}.

Class PTFSpec (X : PTF) : Prop := {
  ptf_present : PTF_PRESENT = 2 ^ 0;
  ptf_writable : PTF_WRITABLE = 2 ^ 1;
  ptf_user : PTF_USER_ACCESSIBLE = 2 ^ 2;
  ptf_write_through : PTF_WRITE_THROUGH = 2 ^ 3;
  ptf_no_cache : PTF_NO_CACHE = 2 ^ 4;
  ptf_huge : PTF_HUGE_PAGE = 2 ^ 7;
  ptf_no_execute : PTF_NO_EXECUTE = 2 ^ 63;
  ptf_all : PTF_all = 0xfff0000000000fff;
}.

Definition std_ptf : PTF := {|
  PTF_PRESENT := 2 ^ 0; PTF_WRITABLE := 2 ^ 1; PTF_USER_ACCESSIBLE := 2 ^ 2;
  PTF_WRITE_THROUGH := 2 ^ 3; PTF_NO_CACHE := 2 ^ 4; PTF_HUGE_PAGE := 2 ^ 7;
  PTF_NO_EXECUTE := 2 ^ 63; PTF_all := 0xfff0000000000fff;
|}.

#[export] Instance std_ptf_spec : PTFSpec std_ptf.
Proof. by split. Qed.

Section x64.
Context {B : Bitflags} {X : PTF}.

Definition MappingFlags_from_PTF (f : Z) : Z :=
  if bf_is_empty f then MF_empty
  else
    let ret := MF_READ in
    let ret := or_if (bf_contains f PTF_WRITABLE) MF_WRITE ret in
    let ret := or_if (negb (bf_contains f PTF_NO_EXECUTE)) MF_EXECUTE ret in
    let ret := or_if (bf_contains f PTF_USER_ACCESSIBLE) MF_USER ret in
    or_if (bf_contains f PTF_NO_CACHE) MF_UNCACHED ret.

Definition PTF_from_MappingFlags (f : Z) : Z :=
  if bf_is_empty f then 0
  else
    let ret := PTF_PRESENT in
    let ret := or_if (bf_contains f MF_WRITE) PTF_WRITABLE ret in
    let ret := or_if (negb (bf_contains f MF_EXECUTE)) PTF_NO_EXECUTE ret in
    let ret := or_if (bf_contains f MF_USER) PTF_USER_ACCESSIBLE ret in
    or_if (bf_contains f MF_DEVICE || bf_contains f MF_UNCACHED)%bool
      (bf_union PTF_NO_CACHE PTF_WRITE_THROUGH) ret.

Definition X64_PHYS_ADDR_MASK : Z := 0x000ffffffffff000.

Definition X64_new_page (paddr : PhysAddr) (flags : Z) (is_huge : bool) : Z :=
  let flags := or_if is_huge PTF_HUGE_PAGE (PTF_from_MappingFlags flags) in
  Z.lor flags (Z.land (PhysAddr_as_usize paddr) X64_PHYS_ADDR_MASK).

Definition X64_new_table (paddr : PhysAddr) : Z :=
  let flags := bf_union (bf_union PTF_PRESENT PTF_WRITABLE) PTF_USER_ACCESSIBLE in
  Z.lor flags (Z.land (PhysAddr_as_usize paddr) X64_PHYS_ADDR_MASK).

Definition X64_paddr (self : Z) : PhysAddr :=
  PhysAddr_from (Z.land self X64_PHYS_ADDR_MASK).

Definition X64_flags (self : Z) : Z :=
  MappingFlags_from_PTF (bf_truncate PTF_all self).

Definition X64_set_paddr (self : Z) (paddr : PhysAddr) : Z :=
  Z.lor (Z.land self (not64 X64_PHYS_ADDR_MASK))
        (Z.land (PhysAddr_as_usize paddr) X64_PHYS_ADDR_MASK).

Definition X64_set_flags (self : Z) (flags : Z) (is_huge : bool) : Z :=
  let flags := or_if is_huge PTF_HUGE_PAGE (PTF_from_MappingFlags flags) in
  Z.lor (Z.land self X64_PHYS_ADDR_MASK) flags.

Definition X64_is_unused (self : Z) : bool := self =? 0.
Definition X64_is_present (self : Z) : bool :=
  bf_contains (bf_truncate PTF_all self) PTF_PRESENT.
Definition X64_is_huge (self : Z) : bool :=
  bf_contains (bf_truncate PTF_all self) PTF_HUGE_PAGE.
Definition X64_clear (self : Z) : Z := 0.

Definition X64PTE : GenericPTE := {|
  pte_new_page := X64_new_page;
  pte_new_table := X64_new_table;
  pte_paddr := X64_paddr;
  pte_flags := X64_flags;
  pte_set_paddr := X64_set_paddr;
  pte_set_flags := X64_set_flags;
  pte_is_unused := X64_is_unused;
  pte_is_present := X64_is_present;
  pte_is_huge := X64_is_huge;
  pte_clear := X64_clear;
|}.

End x64.

(** ** Shared lemmas *)

(** A property of all flag sets is checked by computing it on the 64 values. *)
Lemma flags_enum (P : Z → bool) :
  forallb P (seqZ 0 64) = true → ∀ f, 0 ≤ f < 2 ^ 6 → P f = true.
Proof.
  intros HP f Hf. rewrite forallb_forall in HP. apply HP.
  apply list_elem_of_In, elem_of_seqZ. lia.
Qed.

(** The bits of the address field of an entry: [[lo, hi)]. *)
Lemma field_aligned lo hi p :
  0 ≤ lo ≤ hi → 0 ≤ p < 2 ^ hi → (2 ^ lo | p) → Z.land p (2 ^ hi - 2 ^ lo) = p.
Proof.
  intros Hlh Hp Hdiv.
  replace (2 ^ hi - 2 ^ lo) with (Z.ldiff (Z.ones hi) (Z.ones lo)).
  - rewrite Z.ldiff_land, Z.land_assoc, <-Z.ldiff_land.
    rewrite Z.land_ones, Z.mod_small by lia.
    rewrite Z.ones_equiv, <-Z.sub_1_r, ldiff_pow2_mask by lia.
    apply Z.mod_divide in Hdiv; lia.
  - rewrite Z.ones_equiv, <-Z.sub_1_r.
    assert (2 ^ lo ≤ 2 ^ hi) by (apply Z.pow_le_mono_r; lia).
    rewrite Z.ones_equiv, <-Z.sub_1_r, ldiff_pow2_mask by lia.
    assert ((2 ^ hi - 1) mod 2 ^ lo = 2 ^ lo - 1) as ->; [|lia].
    destruct (pow2_divide lo hi) as [q Hq]; [lia|].
    symmetry. apply Z.mod_unique with (q - 1); lia.
Qed.

(** An entry built from attribute bits and an address field reads back as its
    parts, provided the two masks are disjoint. *)
Section masked_entry.
Context (MASK ALL : Z) (Hdisj : Z.land MASK ALL = 0).

Lemma entry_paddr attr p :
  Z.land attr MASK = 0 → Z.land (Z.lor attr (Z.land p MASK)) MASK = Z.land p MASK.
Proof.
  intros Ha. by rewrite Z.land_lor_distr_l, Ha, Z.lor_0_l, <-Z.land_assoc, Z.land_diag.
Qed.

Lemma entry_attr attr p :
  Z.land (Z.lor attr (Z.land p MASK)) ALL = Z.land attr ALL.
Proof.
  by rewrite Z.land_lor_distr_l, <-Z.land_assoc, Hdisj, Z.land_0_r, Z.lor_0_r.
Qed.

Lemma entry_nonzero attr p : Z.land attr ALL ≠ 0 → Z.lor attr (Z.land p MASK) ≠ 0.
Proof.
  intros Ha H. apply Ha. by rewrite <-(entry_attr attr p), H, Z.land_0_l.
Qed.

Lemma set_attr_paddr e attr :
  Z.land attr MASK = 0 → Z.land (Z.lor (Z.land e MASK) attr) MASK = Z.land e MASK.
Proof. rewrite Z.lor_comm. apply entry_paddr. Qed.

Lemma set_attr_attr e attr :
  Z.land (Z.lor (Z.land e MASK) attr) ALL = Z.land attr ALL.
Proof. rewrite Z.lor_comm. apply entry_attr. Qed.

Lemma set_paddr_paddr e p :
  in_u64 e → in_u64 MASK →
  Z.land (Z.lor (Z.land e (not64 MASK)) (Z.land p MASK)) MASK = Z.land p MASK.
Proof.
  intros. apply entry_paddr. rewrite land_not64 by done. apply Z.land_ldiff.
Qed.

Lemma set_paddr_attr e p :
  in_u64 e → in_u64 MASK →
  Z.land (Z.lor (Z.land e (not64 MASK)) (Z.land p MASK)) ALL = Z.land e ALL.
Proof.
  intros. rewrite entry_attr, land_not64 by done.
  apply Z.bits_inj'. intros i Hi. rewrite !Z.land_spec, Z.ldiff_spec.
  pose proof (f_equal (λ x, Z.testbit x i) Hdisj) as Hi'. simpl in Hi'.
  rewrite Z.land_spec, Z.bits_0 in Hi'.
  destruct (Z.testbit MASK i), (Z.testbit ALL i), (Z.testbit e i); done.
Qed.

End masked_entry.

(** ** Masked formats

    The three formats share one shape: attribute bits outside an address field,
    all predicates computed from the known attribute bits.  The laws follow from
    a handful of facts on the attributes, which a format checks by computation. *)

Record masked_format (P : GenericPTE) (bits : Z) (norm : Z → Z) (MASK ALL : Z)
    (attr : Z → bool → Z) (tattr : Z) (enc dec : Z → Z)
    (present huge : Z → bool) (flagsof : Z → Z) (hv : bool → bool) : Prop := {
  mf_page p f h : pte_new_page p f h = Z.lor (attr f h) (Z.land (enc p) MASK);
  mf_table p : pte_new_table p = Z.lor tattr (Z.land (enc p) MASK);
  mf_paddr e : pte_paddr e = dec (Z.land e MASK);
  mf_set_paddr e p :
    pte_set_paddr e p = Z.lor (Z.land e (not64 MASK)) (Z.land (enc p) MASK);
  mf_set_flags e f h : pte_set_flags e f h = Z.lor (Z.land e MASK) (attr f h);
  mf_unused e : pte_is_unused e = (e =? 0);
  mf_present e : pte_is_present e = present (Z.land e ALL);
  mf_huge e : pte_is_huge e = huge (Z.land e ALL);
  mf_flags e : pte_flags e = flagsof (Z.land e ALL);
  mf_clear e : pte_clear e = 0;
  mf_mask : in_u64 MASK;
  mf_disjoint : Z.land MASK ALL = 0;
  mf_dec p : frame_ok bits p → dec (Z.land (enc p) MASK) = p;
  mf_present0 : present 0 = false;
  mf_tattr_mask : Z.land tattr MASK = 0;
  mf_tattr_present : present (Z.land tattr ALL) = true;
  mf_tattr_huge : huge (Z.land tattr ALL) = false;
  mf_attr_mask f h : flags_ok f → Z.land (attr f h) MASK = 0;
  mf_attr_present f h : flags_ok f → present (Z.land (attr f h) ALL) = true;
  mf_attr_huge f h : flags_ok f → huge (Z.land (attr f h) ALL) = hv h;
  mf_hv : hv true = true;
  mf_attr_u64 f h : flags_ok f → in_u64 (attr f h);
  mf_tattr_u64 : in_u64 tattr;
  mf_attr_flags f h : flags_ok f → flagsof (Z.land (attr f h) ALL) = norm f;
}.

Section masked_format.
Context {P : GenericPTE} {bits : Z} {norm : Z → Z} {MASK ALL : Z}
  {attr : Z → bool → Z} {tattr : Z} {enc dec : Z → Z}
  {present huge : Z → bool} {flagsof : Z → Z} {hv : bool → bool}
  (F : masked_format P bits norm MASK ALL attr tattr enc dec present huge flagsof hv).

Lemma mf_field_u64 x : in_u64 (Z.land x MASK).
Proof. apply land_bounded; [|lia]. apply F. Qed.

Lemma mf_lor_u64 x y : in_u64 x → in_u64 y → in_u64 (Z.lor x y).
Proof. intros. by apply lor_bounded; [| |lia]. Qed.

Lemma mf_page_u64 p f h : flags_ok f → in_u64 (pte_new_page p f h).
Proof.
  intros. rewrite F.(mf_page _ _ _ _ _ _ _ _ _ _ _ _ _).
  apply mf_lor_u64; [by apply F|apply mf_field_u64].
Qed.

Lemma mf_nonzero a p :
  present (Z.land a ALL) = true → (Z.lor a (Z.land p MASK) =? 0) = false.
Proof.
  intros Ha. apply Z.eqb_neq, (entry_nonzero MASK ALL); [apply F|]. intros Hz.
  rewrite Hz, F.(mf_present0 _ _ _ _ _ _ _ _ _ _ _ _ _) in Ha. done.
Qed.

(** Rewrite the operations of a format to their masked form. *)
Local Ltac masked :=
  pose proof F.(mf_disjoint _ _ _ _ _ _ _ _ _ _ _ _ _) as Hd;
  pose proof F.(mf_mask _ _ _ _ _ _ _ _ _ _ _ _ _) as Hm;
  rewrite ?F.(mf_page _ _ _ _ _ _ _ _ _ _ _ _ _), ?F.(mf_table _ _ _ _ _ _ _ _ _ _ _ _ _),
    ?F.(mf_set_paddr _ _ _ _ _ _ _ _ _ _ _ _ _),
    ?F.(mf_set_flags _ _ _ _ _ _ _ _ _ _ _ _ _),
    ?F.(mf_paddr _ _ _ _ _ _ _ _ _ _ _ _ _), ?F.(mf_unused _ _ _ _ _ _ _ _ _ _ _ _ _),
    ?F.(mf_present _ _ _ _ _ _ _ _ _ _ _ _ _), ?F.(mf_huge _ _ _ _ _ _ _ _ _ _ _ _ _),
    ?F.(mf_flags _ _ _ _ _ _ _ _ _ _ _ _ _), ?F.(mf_clear _ _ _ _ _ _ _ _ _ _ _ _ _),
    ?(set_paddr_paddr MASK), ?(set_paddr_attr MASK ALL Hd), ?(entry_attr MASK ALL Hd),
    ?(set_attr_attr MASK ALL Hd) by done;
  rewrite ?entry_paddr, ?set_attr_paddr by eauto using mf_tattr_mask, mf_attr_mask.

Lemma masked_format_spec : GenericPTESpec P bits norm.
Proof.
  split; intros; masked; try apply mf_nonzero;
    eauto using mf_dec, mf_tattr_present, mf_tattr_huge, mf_attr_present,
      mf_attr_flags, mf_lor_u64, mf_field_u64, mf_attr_u64, mf_tattr_u64.
  - apply Z.eqb_eq.
  - rewrite Z.land_0_l. eauto using mf_present0.
  - erewrite mf_attr_huge by done. eauto using mf_hv.
  - erewrite mf_attr_huge by done. eauto using mf_hv.
  - apply mf_lor_u64; [|apply mf_field_u64].
    rewrite Z.land_comm. by apply land_bounded; [|lia].
Qed.

(** What an entry decodes to: address, flags, presence and page size. *)
Definition pte_view (e : Z) : PhysAddr * Z * bool * bool :=
  (pte_paddr e, pte_flags e, pte_is_present e, pte_is_huge e).

Lemma masked_page_view p f h p' f' h' :
  frame_ok bits p → flags_ok f → frame_ok bits p' → flags_ok f' →
  pte_view (pte_new_page p f h) = (p, norm f, true, hv h) ∧
  pte_is_unused (pte_new_page p f h) = false ∧
  pte_view (pte_set_flags (pte_new_page p f h) f' h') = (p, norm f', true, hv h') ∧
  pte_view (pte_set_paddr (pte_new_page p f h) p') = (p', norm f, true, hv h).
Proof.
  intros Hp Hf Hp' Hf'. pose proof (mf_page_u64 p f h Hf) as Hu.
  rewrite F.(mf_page _ _ _ _ _ _ _ _ _ _ _ _ _) in Hu.
  unfold pte_view. split_and!; masked; try apply mf_nonzero;
    rewrite ?(mf_dec _ _ _ _ _ _ _ _ _ _ _ _ _ F), ?(mf_attr_flags _ _ _ _ _ _ _ _ _ _ _ _ _ F),
      ?(mf_attr_present _ _ _ _ _ _ _ _ _ _ _ _ _ F), ?(mf_attr_huge _ _ _ _ _ _ _ _ _ _ _ _ _ F)
      by done; done.
Qed.
End masked_format.

(** Replace the operations of a specified [Bitflags] by their meaning. *)
Ltac bf_std :=
  rewrite ?bf_contains_spec, ?bf_intersects_spec, ?bf_union_spec,
    ?bf_truncate_spec, ?bf_is_empty_spec.

(** ** The AArch64 format *)

(** With both [DEVICE] and [UNCACHED], only [DEVICE] is stored. *)
Definition a64_norm (f : Z) : Z :=
  if Z.land f MF_DEVICE =? MF_DEVICE then Z.ldiff f MF_UNCACHED else f.

Definition a64_attr {B : Bitflags} (f : Z) (h : bool) : Z :=
  or_if (negb h) DA_NON_BLOCK (bf_union (DescriptorAttr_from_MappingFlags f) DA_AF).

Definition a64_attr_check (h : bool) (f : Z) : bool :=
  let a := @a64_attr std_bitflags f h in
  let t := Z.land a DescriptorAttr_all in
  (negb (Z.land f MF_READ =? MF_READ) ||
   ((0 <=? a) && (a <? 2 ^ 64) && (Z.land a A64_PHYS_ADDR_MASK =? 0) && (Z.land t DA_VALID =? DA_VALID) &&
    eqb (negb (Z.land t DA_NON_BLOCK =? DA_NON_BLOCK)) h &&
    (@MappingFlags_from_DescriptorAttr std_bitflags t =? a64_norm f)))%bool.

Section a64_spec.
Context {B : Bitflags} `{!BitflagsSpec B}.

Lemma a64_attr_std f h : @a64_attr B f h = @a64_attr std_bitflags f h.
Proof. unfold a64_attr, DescriptorAttr_from_MappingFlags, or_if. by bf_std. Qed.

Lemma a64_flags_std a :
  @MappingFlags_from_DescriptorAttr B a = @MappingFlags_from_DescriptorAttr std_bitflags a.
Proof. unfold MappingFlags_from_DescriptorAttr, or_if. by bf_std. Qed.

Lemma a64_attr_facts f h :
  flags_ok f →
  in_u64 (a64_attr f h) ∧ Z.land (a64_attr f h) A64_PHYS_ADDR_MASK = 0 ∧
  bf_contains (Z.land (a64_attr f h) DescriptorAttr_all) DA_VALID = true ∧
  negb (bf_contains (Z.land (a64_attr f h) DescriptorAttr_all) DA_NON_BLOCK) = h ∧
  MappingFlags_from_DescriptorAttr (Z.land (a64_attr f h) DescriptorAttr_all) = a64_norm f.
Proof.
  intros [Hf Hr]. rewrite a64_attr_std, a64_flags_std. bf_std.
  assert (a64_attr_check h f = true) as Hc.
  { apply flags_enum; [|done]. destruct h; vm_compute; reflexivity. }
  unfold a64_attr_check in Hc. apply Z.eqb_eq in Hr. rewrite Hr in Hc. simpl in Hc.
  bool_to_prop. split_and!; [done..|by apply Z.eqb_eq|by apply eqb_prop|done].
Qed.

Lemma a64_format :
  masked_format A64PTE 48 a64_norm A64_PHYS_ADDR_MASK DescriptorAttr_all a64_attr
    (bf_union DA_NON_BLOCK DA_VALID) id id (λ t, bf_contains t DA_VALID)
    (λ t, negb (bf_contains t DA_NON_BLOCK)) MappingFlags_from_DescriptorAttr id.
Proof.
  split; try done; intros; simpl.
  all: try (by apply a64_attr_facts).
  all: try (unfold A64_is_present, A64_is_huge, A64_flags; bf_std; done).
  unfold id. apply (field_aligned 12 48); [lia|apply H..].
Qed.
#[export] Instance A64PTE_spec : GenericPTESpec A64PTE 48 a64_norm.
Proof. exact (masked_format_spec a64_format). Qed.
End a64_spec.

(** ** The RISC-V format *)

(** The memory type has no bits in an entry. *)
Definition rv_norm (f : Z) : Z := Z.land f 0xf.

Definition rv_attr {B : Bitflags} (f : Z) (h : bool) : Z :=
  bf_union (bf_union (PTEFlags_from_MappingFlags f) PF_A) PF_D.

Definition rv_attr_check (f : Z) : bool :=
  let a := @rv_attr std_bitflags f true in
  let t := Z.land a PTEFlags_all in
  (negb (Z.land f MF_READ =? MF_READ) ||
   ((0 <=? a) && (a <? 2 ^ 64) && (Z.land a Rv64_PHYS_ADDR_MASK =? 0) && (Z.land t PF_V =? PF_V) &&
    negb (Z.land t (Z.lor PF_R PF_X) =? 0) &&
    (@MappingFlags_from_PTEFlags std_bitflags t =? rv_norm f)))%bool.

Section rv64_spec.
Context {B : Bitflags} `{!BitflagsSpec B}.

Lemma rv_attr_std f h : @rv_attr B f h = @rv_attr std_bitflags f h.
Proof. unfold rv_attr, PTEFlags_from_MappingFlags, or_if. by bf_std. Qed.

Lemma rv_flags_std a :
  @MappingFlags_from_PTEFlags B a = @MappingFlags_from_PTEFlags std_bitflags a.
Proof. unfold MappingFlags_from_PTEFlags, or_if. by bf_std. Qed.

Lemma rv_attr_facts f h :
  flags_ok f →
  in_u64 (rv_attr f h) ∧ Z.land (rv_attr f h) Rv64_PHYS_ADDR_MASK = 0 ∧
  bf_contains (Z.land (rv_attr f h) PTEFlags_all) PF_V = true ∧
  bf_intersects (Z.land (rv_attr f h) PTEFlags_all) (bf_union PF_R PF_X) = true ∧
  MappingFlags_from_PTEFlags (Z.land (rv_attr f h) PTEFlags_all) = rv_norm f.
Proof.
  intros [Hf Hr]. rewrite rv_attr_std, rv_flags_std. bf_std.
  assert (rv_attr_check f = true) as Hc.
  { apply flags_enum; [|done]. vm_compute; reflexivity. }
  unfold rv_attr_check in Hc. apply Z.eqb_eq in Hr. rewrite Hr in Hc. simpl in Hc.
  bool_to_prop. split_and!; [done..|by apply Z.eqb_eq|by apply negb_true_iff, Z.eqb_neq|done].
Qed.

Lemma rv_dec p : frame_ok 56 p → shl64 (Z.land (shr64 p 2) Rv64_PHYS_ADDR_MASK) 2 = p.
Proof.
  intros [Hp [q ->]].
  assert (shr64 (q * 2 ^ 12) 2 = q * 2 ^ 10) as ->.
  { unfold shr64. rewrite Z.shiftr_div_pow2 by lia.
    symmetry. apply Z.div_unique_exact; lia. }
  change Rv64_PHYS_ADDR_MASK with (2 ^ 54 - 2 ^ 10).
  rewrite field_aligned by (lia || apply Z.divide_factor_r).
  unfold shl64. rewrite Z.shiftl_mul_pow2, wrap_small by lia. lia.
Qed.

Lemma rv_format :
  masked_format Rv64PTE 56 rv_norm Rv64_PHYS_ADDR_MASK PTEFlags_all rv_attr
    PF_V (λ p, shr64 p 2) (λ q, shl64 q 2) (λ t, bf_contains t PF_V)
    (λ t, bf_intersects t (bf_union PF_R PF_X)) MappingFlags_from_PTEFlags (λ _, true).
Proof.
  split; try done; intros; simpl.
  all: try (by apply rv_attr_facts).
  all: try (unfold Rv64_is_present, Rv64_is_huge, Rv64_flags; bf_std; done).
  by apply rv_dec.
Qed.
#[export] Instance Rv64PTE_spec : GenericPTESpec Rv64PTE 56 rv_norm.
Proof. exact (masked_format_spec rv_format). Qed.
End rv64_spec.

(** ** The x86-64 format *)

(** [DEVICE] and [UNCACHED] are both stored as uncached. *)
Definition x64_norm (f : Z) : Z :=
  let r := Z.land f 0xf in
  if Z.land f (Z.lor MF_DEVICE MF_UNCACHED) =? 0 then r else Z.lor r MF_UNCACHED.

Definition x64_attr {B : Bitflags} {X : PTF} (f : Z) (h : bool) : Z :=
  or_if h PTF_HUGE_PAGE (PTF_from_MappingFlags f).

Definition x64_attr_check (h : bool) (f : Z) : bool :=
  let a := @x64_attr std_bitflags std_ptf f h in
  let t := Z.land a (@PTF_all std_ptf) in
  (negb (Z.land f MF_READ =? MF_READ) ||
   ((0 <=? a) && (a <? 2 ^ 64) && (Z.land a X64_PHYS_ADDR_MASK =? 0) && (Z.land t 1 =? 1) &&
    eqb (Z.land t (2 ^ 7) =? 2 ^ 7) h &&
    (@MappingFlags_from_PTF std_bitflags std_ptf t =? x64_norm f)))%bool.

Section x64_spec.
Context {B : Bitflags} `{!BitflagsSpec B} {X : PTF} `{!PTFSpec X}.

Lemma x64_attr_std f h : @x64_attr B X f h = @x64_attr std_bitflags std_ptf f h.
Proof.
  unfold x64_attr, PTF_from_MappingFlags, or_if. bf_std.
  by rewrite ptf_present, ptf_writable, ptf_user, ptf_write_through, ptf_no_cache,
    ptf_huge, ptf_no_execute.
Qed.

Lemma x64_flags_std a :
  @MappingFlags_from_PTF B X a = @MappingFlags_from_PTF std_bitflags std_ptf a.
Proof.
  unfold MappingFlags_from_PTF, or_if. bf_std.
  by rewrite ptf_writable, ptf_user, ptf_no_cache, ptf_no_execute.
Qed.

Lemma x64_attr_facts f h :
  flags_ok f →
  in_u64 (x64_attr f h) ∧ Z.land (x64_attr f h) X64_PHYS_ADDR_MASK = 0 ∧
  bf_contains (Z.land (x64_attr f h) PTF_all) PTF_PRESENT = true ∧
  bf_contains (Z.land (x64_attr f h) PTF_all) PTF_HUGE_PAGE = h ∧
  MappingFlags_from_PTF (Z.land (x64_attr f h) PTF_all) = x64_norm f.
Proof.
  intros [Hf Hr]. rewrite x64_attr_std, x64_flags_std, ptf_all, ptf_present, ptf_huge. bf_std.
  assert (x64_attr_check h f = true) as Hc.
  { apply flags_enum; [|done]. destruct h; vm_compute; reflexivity. }
  unfold x64_attr_check in Hc. apply Z.eqb_eq in Hr. rewrite Hr in Hc. simpl in Hc.
  bool_to_prop. split_and!; [done..|by apply Z.eqb_eq|by apply eqb_prop|done].
Qed.

Lemma x64_format :
  masked_format X64PTE 52 x64_norm X64_PHYS_ADDR_MASK PTF_all x64_attr
    (bf_union (bf_union PTF_PRESENT PTF_WRITABLE) PTF_USER_ACCESSIBLE) id id
    (λ t, bf_contains t PTF_PRESENT) (λ t, bf_contains t PTF_HUGE_PAGE)
    MappingFlags_from_PTF id.
Proof.
  split; try done; intros; simpl.
  all: try (by apply x64_attr_facts).
  all: try (unfold X64_is_present, X64_is_huge, X64_flags; bf_std;
    rewrite ?ptf_all, ?ptf_present, ?ptf_writable, ?ptf_user, ?ptf_huge; done).
  - unfold id. apply (field_aligned 12 52); [lia|apply H..].
Qed.
#[export] Instance X64PTE_spec : GenericPTESpec X64PTE 52 x64_norm.
Proof. exact (masked_format_spec x64_format). Qed.
End x64_spec.


(** ** Properties *)

(** on AArch64, an entry made by [new_page] from a 48-bit frame and
    readable flags decodes to that frame and those flags ([DEVICE] winning over
    [UNCACHED]), is present, in use, and huge exactly when requested;
    [set_flags] and [set_paddr] change only the part they name. *)
Theorem a64_page_roundtrip {B : Bitflags} `{!BitflagsSpec B} p f h p' f' h' :
  frame_ok 48 p → flags_ok f → frame_ok 48 p' → flags_ok f' →
  @pte_view A64PTE (A64_new_page p f h) = (p, a64_norm f, true, h) ∧
  A64_is_unused (A64_new_page p f h) = false ∧
  @pte_view A64PTE (A64_set_flags (A64_new_page p f h) f' h') =
    (p, a64_norm f', true, h') ∧
  @pte_view A64PTE (A64_set_paddr (A64_new_page p f h) p') =
    (p', a64_norm f, true, h).
Proof. exact (masked_page_view a64_format p f h p' f' h'). Qed.

Lemma a64_page_roundtrip_witness :
  let e := @A64_new_page std_bitflags 0x8020_0000 0x23 true in
  frame_ok 48 0x8020_0000 ∧ flags_ok 0x23 ∧
  @pte_view (@A64PTE std_bitflags) e = (0x8020_0000, 0x23, true, true).
Proof.
  intros e. split; [split; [done|by exists 0x80200]|split; [done|]].
  apply (@a64_page_roundtrip std_bitflags std_bitflags_spec 0x8020_0000 0x23 true 0x8020_0000 0x23 true);
    split; (done || by exists 0x80200).
Defined.

(** on RISC-V, an entry made by [new_page] from a 56-bit frame and
    readable flags decodes to that frame and to the access flags (the memory
    type is not stored), is present, in use, and a leaf at every level;
    [set_flags] and [set_paddr] change only the part they name. *)
Theorem rv64_page_roundtrip {B : Bitflags} `{!BitflagsSpec B} p f h p' f' h' :
  frame_ok 56 p → flags_ok f → frame_ok 56 p' → flags_ok f' →
  @pte_view Rv64PTE (Rv64_new_page p f h) = (p, rv_norm f, true, true) ∧
  Rv64_is_unused (Rv64_new_page p f h) = false ∧
  @pte_view Rv64PTE (Rv64_set_flags (Rv64_new_page p f h) f' h') =
    (p, rv_norm f', true, true) ∧
  @pte_view Rv64PTE (Rv64_set_paddr (Rv64_new_page p f h) p') =
    (p', rv_norm f, true, true).
Proof. exact (masked_page_view rv_format p f h p' f' h'). Qed.

Lemma rv64_page_roundtrip_witness :
  let e := @Rv64_new_page std_bitflags 0x8020_0000 0x23 true in
  frame_ok 56 0x8020_0000 ∧ flags_ok 0x23 ∧
  @pte_view (@Rv64PTE std_bitflags) e = (0x8020_0000, 0x3, true, true).
Proof.
  intros e. split; [split; [done|by exists 0x80200]|split; [done|]].
  apply (@rv64_page_roundtrip std_bitflags std_bitflags_spec 0x8020_0000 0x23 true 0x8020_0000 0x23 true);
    split; (done || by exists 0x80200).
Defined.

(** on x86-64, an entry made by [new_page] from a 52-bit frame and
    readable flags decodes to that frame and those flags ([DEVICE] reading back
    as [UNCACHED]), is present, in use, and huge exactly when requested;
    [set_flags] and [set_paddr] change only the part they name. *)
Theorem x64_page_roundtrip {B : Bitflags} `{!BitflagsSpec B} {X : PTF} `{!PTFSpec X} p f h p' f' h' :
  frame_ok 52 p → flags_ok f → frame_ok 52 p' → flags_ok f' →
  @pte_view X64PTE (X64_new_page p f h) = (p, x64_norm f, true, h) ∧
  X64_is_unused (X64_new_page p f h) = false ∧
  @pte_view X64PTE (X64_set_flags (X64_new_page p f h) f' h') =
    (p, x64_norm f', true, h') ∧
  @pte_view X64PTE (X64_set_paddr (X64_new_page p f h) p') =
    (p', x64_norm f, true, h).
Proof. exact (masked_page_view x64_format p f h p' f' h'). Qed.

Lemma x64_page_roundtrip_witness :
  let e := @X64_new_page std_bitflags std_ptf 0x8020_0000 0x23 true in
  frame_ok 52 0x8020_0000 ∧ flags_ok 0x23 ∧
  @pte_view (@X64PTE std_bitflags std_ptf) e = (0x8020_0000, 0x23, true, true).
Proof.
  intros e. split; [split; [done|by exists 0x80200]|split; [done|]].
  apply (@x64_page_roundtrip std_bitflags std_bitflags_spec std_ptf std_ptf_spec 0x8020_0000 0x23 true 0x8020_0000 0x23 true);
    split; (done || by exists 0x80200).
Defined.
