(* ===== verification/PageTree.v ===== *)
(** * The tree of page tables, abstractly

    The proof device of [PageTable]: a forest of tables is a function [ent] from
    a frame and an index to an entry, and a labelling [lab] gives every table
    its level and the part of the address space it covers.  The labelling makes
    the tree structure a local condition: an entry that points to a table agrees
    with the label of that table. *)

From stdpp Require Import base decidable numbers list gmap.
From Stdlib Require Import ZArith Lia.
From S2P Require Import Prelude MemoryAddr PageTableEntry.

Local Open Scope Z_scope.

(** ** Indices of a virtual address *)

(** [12 + 9 * l]: the bits of an address below a table of level [l + 1]. *)
Definition lbits (l : nat) : Z := 12 + 9 * Z.of_nat l.

(** The index into the table of level [S l]. *)
Definition vidx (l : nat) (v : VirtAddr) : Z := (v / 2 ^ lbits l) mod 512.

(** The number of the level-[l] page of [v] in an address space of [L] levels:
    addresses that agree on their low [lbits L] bits are not distinguished. *)
Definition vbase (L l : nat) (v : VirtAddr) : Z := (v mod 2 ^ lbits L) / 2 ^ lbits l.

Lemma lbits_S l : 2 ^ lbits (S l) = 2 ^ lbits l * 512.
Proof.
  unfold lbits. change 512 with (2 ^ 9). rewrite <-Z.pow_add_r by lia. f_equal. lia.
Qed.

Lemma lbits_pos l : 0 < 2 ^ lbits l.
Proof. unfold lbits. apply Z.pow_pos_nonneg; lia. Qed.

Lemma vidx_range l v : 0 ≤ vidx l v < 512.
Proof. apply Z.mod_pos_bound. lia. Qed.

Lemma lbits_divide l L : (l ≤ L)%nat → (2 ^ lbits l | 2 ^ lbits L).
Proof. intros. apply pow2_divide. unfold lbits. lia. Qed.

Lemma vbase_top L v : vbase L L v = 0.
Proof. apply Z.div_small, Z.mod_pos_bound, lbits_pos. Qed.

(** A page of level [l] is entry [vidx l v] of its table. *)
Lemma vbase_step L l v : (l < L)%nat → vbase L l v = 512 * vbase L (S l) v + vidx l v.
Proof.
  intros Hl. unfold vbase, vidx. pose proof (lbits_pos l) as H0.
  set (x := v mod 2 ^ lbits L).
  assert (v / 2 ^ lbits l mod 512 = x / 2 ^ lbits l mod 512) as ->.
  { destruct (lbits_divide (S l) L) as [q Hq]; [lia|]. rewrite lbits_S in Hq.
    rewrite (Z.div_mod v (2 ^ lbits L)) at 1 by (pose proof (lbits_pos L); lia).
    fold x. rewrite Hq.
    replace (q * (2 ^ lbits l * 512) * (v / (q * (2 ^ lbits l * 512))) + x)
      with (x + (q * (v / (q * (2 ^ lbits l * 512))) * 512) * 2 ^ lbits l) by lia.
    rewrite Z.div_add by lia. by rewrite Z.mod_add by lia. }
  rewrite lbits_S, <-Z.div_div by lia. apply Z.div_mod. lia.
Qed.

(** Addresses in one page share the pages above it and the indices to it. *)
Lemma vbase_up L l l' v v' :
  (l ≤ l' ≤ L)%nat → vbase L l v = vbase L l v' → vbase L l' v = vbase L l' v'.
Proof.
  intros [Hl HL] H. unfold vbase in *. destruct (lbits_divide l l' Hl) as [q Hq].
  pose proof (lbits_pos l). pose proof (lbits_pos l') as Hp. rewrite Hq in Hp |- *.
  assert (0 < q) by (apply (Z.mul_pos_cancel_r q (2 ^ lbits l)); done).
  rewrite (Z.mul_comm q), <-!Z.div_div by lia. by rewrite H.
Qed.

Lemma vbase_idx L l v v' :
  (l < L)%nat → vbase L l v = vbase L l v' → vidx l v = vidx l v'.
Proof.
  intros Hl H. pose proof (vbase_up L l (S l) v v' ltac:(lia) H).
  rewrite (vbase_step L l v), (vbase_step L l v') in H by done. lia.
Qed.

(** ** Trees *)

Section tree.
Context {P : GenericPTE} {bits : Z} {norm : Z → Z} `{!GenericPTESpec P bits norm}.
Context (L : nat) (root : Z).

Definition Ent : Type := Z → Z → Z.

(** The leaf entry for [v] below table [p] of level [l], and its level. *)
Fixpoint twalk (ent : Ent) (l : nat) (p : Z) (v : VirtAddr) : option (nat * Z) :=
  match l with
  | O => None
  | S l' =>
      let e := ent p (vidx l' v) in
      if decide (e = 0) then None
      else if decide (l' = O) then Some (l, e)
      else if pte_is_huge e then Some (l, e)
      else twalk ent l' (pte_paddr e) v
  end.

Lemma twalk_level ent l p v k e : twalk ent l p v = Some (k, e) → (1 ≤ k ≤ l)%nat.
Proof.
  revert p. induction l as [|l IH]; intros p; simpl; [done|].
  repeat case_match; intros Ht; simplify_eq; try lia. apply IH in Ht. lia.
Qed.

Definition table_entry (lab : gmap Z (nat * Z)) (l : nat) (b : Z) (e : Z) : Prop :=
  pte_is_present e = true ∧ pte_is_huge e = false ∧ lab !! pte_paddr e = Some (l, b).

(** The entry of index [i] in a table labelled [(S l, b)]. *)
Definition entry_wf (lab : gmap Z (nat * Z)) (l : nat) (b i : Z) (e : Z) : Prop :=
  e = 0 ∨
  (l = O ∧ pte_is_present e = true) ∨
  ((1 ≤ l ≤ 2)%nat ∧ pte_is_present e = true ∧ pte_is_huge e = true) ∨
  ((1 ≤ l)%nat ∧ table_entry lab l (512 * b + i) e).

Record twf (lab : gmap Z (nat * Z)) (ent : Ent) : Prop := {
  twf_root : lab !! root = Some (L, 0);
  twf_level p l b : lab !! p = Some (l, b) → (1 ≤ l ≤ L)%nat;
  twf_entry p l b i :
    lab !! p = Some (S l, b) → 0 ≤ i < 512 → entry_wf lab l b i (ent p i);
}.

(** [reach ent v l p]: the walk for [v] arrives at table [p] of level [l]. *)
Inductive reach (ent : Ent) (v : VirtAddr) : nat → Z → Prop :=
| reach_root : reach ent v L root
| reach_step l p :
    reach ent v (S l) p → (1 ≤ l)%nat →
    pte_is_present (ent p (vidx l v)) = true →
    pte_is_huge (ent p (vidx l v)) = false →
    reach ent v l (pte_paddr (ent p (vidx l v))).

(** [ent'] is [ent] with entry [i] of table [p] set to [e], on the tables. *)
Definition ent_set (lab : gmap Z (nat * Z)) (ent ent' : Ent) (p : Z) (i e : Z) : Prop :=
  ∀ q j, is_Some (lab !! q) → 0 ≤ j < 512 →
    ent' q j = if decide (q = p ∧ j = i) then e else ent q j.

Lemma present_nonzero e : pte_is_present e = true → e ≠ 0.
Proof. intros H ->. rewrite pte_zero_absent in H. done. Qed.

Lemma reach_label lab ent v l p :
  twf lab ent → reach ent v l p → lab !! p = Some (l, vbase L l v).
Proof.
  intros W. induction 1 as [|l p Hr IH Hl Hp Hh].
  - rewrite vbase_top. apply W.
  - pose proof (twf_level _ _ W _ _ _ IH).
    destruct (twf_entry _ _ W _ _ _ (vidx l v) IH (vidx_range _ _)) as [He|[He|[He|He]]].
    + by apply present_nonzero in Hp.
    + lia.
    + destruct He as (_&_&He). congruence.
    + destruct He as (_&_&_&->). by rewrite (vbase_step L l) by lia.
Qed.

Lemma reach_level lab ent v l p : twf lab ent → reach ent v l p → (1 ≤ l ≤ L)%nat.
Proof. intros W Hr. eapply (twf_level _ _ W), reach_label; done. Qed.

(** The walk continues from a table it reaches. *)
Lemma reach_twalk ent v l p :
  reach ent v l p → (1 ≤ l)%nat → twalk ent L root v = twalk ent l p v.
Proof.
  induction 1 as [|l p Hr IH Hl Hp Hh]; [done|]. intros _. rewrite IH by lia. simpl.
  rewrite decide_False by (by apply present_nonzero). rewrite decide_False by lia.
  by rewrite Hh.
Qed.

Lemma reach_top ent v l p : reach ent v l p → (l ≤ L)%nat.
Proof. induction 1; lia. Qed.

Lemma reach_same ent v v' l p :
  reach ent v l p → vbase L l v = vbase L l v' → reach ent v' l p.
Proof.
  induction 1 as [|l p Hr IH Hl Hp Hh]; intros Hb; [constructor|].
  apply reach_top in Hr as HL.
  assert (vidx l v = vidx l v') as Hi by (apply (vbase_idx L); lia || done).
  rewrite Hi in Hp, Hh |- *. constructor; try done. apply IH.
  by apply (vbase_up L l); [lia|].
Qed.

(** The entry a walk follows points to the table of the next level. *)
Lemma table_child lab ent q l v :
  twf lab ent → lab !! q = Some (S l, vbase L (S l) v) →
  ent q (vidx l v) ≠ 0 → l ≠ O → pte_is_huge (ent q (vidx l v)) = false →
  pte_is_present (ent q (vidx l v)) = true ∧
  lab !! pte_paddr (ent q (vidx l v)) = Some (l, vbase L l v).
Proof.
  intros W Hq He Hl Hh. pose proof (twf_level _ _ W _ _ _ Hq).
  destruct (twf_entry _ _ W _ _ _ (vidx l v) Hq (vidx_range _ _)) as [H'|[H'|[H'|H']]];
    [done|lia|destruct H' as (_&_&?); congruence|].
  destruct H' as (_&?&_&->). by rewrite (vbase_step L l) by lia.
Qed.

(** *** Writing an entry *)

Section set_entry.
Context (lab : gmap Z (nat * Z)) (ent ent' : Ent) (p : Z) (l : nat) (b i e : Z).
Context (W : twf lab ent) (Hset : ent_set lab ent ent' p i e).
Context (Hp : lab !! p = Some (S l, b)) (Hi : 0 ≤ i < 512).

Lemma ent_set_here : ent' p i = e.
Proof. rewrite Hset by (done || eauto). by rewrite decide_True by done. Qed.

Lemma twf_set : entry_wf lab l b i e → twf lab ent'.
Proof.
  intros He. split; [apply W|apply W|]. intros q k c j Hq Hj.
  rewrite Hset by (done || eauto). case_decide as Hd.
  - destruct Hd as [-> ->]. rewrite Hp in Hq. by injection Hq as <- <-.
  - by apply W.
Qed.

(** Addresses outside the page of the entry are not affected. *)
Lemma twalk_set_other v k q :
  vbase L l v ≠ 512 * b + i → lab !! q = Some (k, vbase L k v) →
  twalk ent' k q v = twalk ent k q v.
Proof.
  intros Hv. revert q. induction k as [|k IH]; intros q Hq; [done|]. simpl.
  pose proof (twf_level _ _ W _ _ _ Hq).
  rewrite Hset by (eauto || apply vidx_range).
  rewrite (decide_False (P := q = p ∧ vidx k v = i)).
  2:{ intros [-> <-]. rewrite Hp in Hq. injection Hq as -> ->.
      rewrite (vbase_step L k) in Hv by lia. done. }
  case_decide; [done|]. case_decide; [done|].
  destruct (pte_is_huge _) eqn:Hh; [done|].
  apply IH. by apply table_child.
Qed.

Lemma reach_set v k q : (l < k)%nat → reach ent v k q → reach ent' v k q.
Proof.
  intros Hk. induction 1 as [|k q Hr IH Hl Hpr Hh]; [constructor|].
  apply (reach_label _ _ _ _ _ W) in Hr as Hq.
  assert (ent' q (vidx k v) = ent q (vidx k v)) as Heq.
  { rewrite Hset by (eauto || apply vidx_range). rewrite decide_False; [done|].
    intros [-> _]. rewrite Hp in Hq. injection Hq. lia. }
  rewrite <-Heq in Hpr, Hh |- *. constructor; try done. apply IH. lia.
Qed.

(** Addresses in the page of the entry see the new entry. *)
Lemma twalk_set_same v :
  reach ent v (S l) p → vbase L l v = 512 * b + i →
  twalk ent' L root v = twalk ent' (S l) p v ∧ ent' p (vidx l v) = e.
Proof.
  intros Hr Hv. split.
  - apply reach_twalk; [|lia]. by apply reach_set; [lia|].
  - pose proof (reach_label _ _ _ _ _ W Hr) as Hq. rewrite Hp in Hq.
    injection Hq as Hb. pose proof (twf_level _ _ W _ _ _ Hp).
    rewrite (vbase_step L l) in Hv by lia.
    assert (vidx l v = i) as -> by lia. apply ent_set_here.
Qed.
End set_entry.

(** *** Creating a table *)

Section new_table.
Context (lab : gmap Z (nat * Z)) (ent ent' : Ent) (p q : Z) (l : nat) (b i : Z).
Context (W : twf lab ent) (Hp : lab !! p = Some (S l, b)) (Hl : (1 ≤ l)%nat).
Context (Hi : 0 ≤ i < 512) (Hunused : ent p i = 0).
Context (Hq : lab !! q = None) (Hframe : frame_ok bits q).
Context (Hset : ent_set lab ent ent' p i (pte_new_table q)).
Context (Hzero : ∀ j, 0 ≤ j < 512 → ent' q j = 0).

Definition lab_new : gmap Z (nat * Z) := <[q := (l, 512 * b + i)]> lab.

Lemma lab_new_mono x y : lab !! x = Some y → lab_new !! x = Some y.
Proof. intros Hx. unfold lab_new. rewrite lookup_insert_ne; [done|]. intros ->. congruence. Qed.

Lemma twf_new : twf lab_new ent'.
Proof.
  split.
  - apply lab_new_mono, W.
  - intros x k c. unfold lab_new. rewrite lookup_insert. case_decide.
    + pose proof (twf_level _ _ W _ _ _ Hp). intros [= <- <-]. lia.
    + apply W.
  - intros x k c j Hx Hj. unfold lab_new in Hx. rewrite lookup_insert in Hx.
    case_decide as Hd; [subst x; rewrite Hzero by done; by left|].
    rewrite Hset by (done || eauto). case_decide as Hd'.
    + destruct Hd' as [-> ->]. rewrite Hp in Hx. injection Hx as <- <-.
      right. right. right. split; [done|]. split_and!.
      * by apply pte_table_present.
      * by apply pte_table_huge.
      * rewrite pte_table_paddr by done. unfold lab_new. by rewrite lookup_insert_eq.
    + destruct (twf_entry _ _ W _ _ _ _ Hx Hj) as [?|[?|[?|(?&?&?&?)]]];
        [by left|by right; left|by right; right; left|].
      right; right; right. split; [done|]. split_and!; [done..|].
      by apply lab_new_mono.
Qed.

(** No address is translated differently. *)
Lemma twalk_new v k x :
  lab !! x = Some (k, vbase L k v) → twalk ent' k x v = twalk ent k x v.
Proof.
  revert x. induction k as [|k IH]; intros x Hx; [done|]. simpl.
  rewrite Hset by (eauto || apply vidx_range).
  destruct (decide (x = p ∧ vidx k v = i)) as [Hd|Hd].
  - destruct Hd as [-> ->]. rewrite Hp in Hx. injection Hx as <- _.
    rewrite Hunused. rewrite (decide_True (P := 0 = 0)) by done.
    rewrite decide_False.
    2:{ apply present_nonzero. by apply pte_table_present. }
    rewrite decide_False by lia. rewrite pte_table_huge, pte_table_paddr by done.
    destruct l as [|l']; [lia|]. simpl. rewrite Hzero by apply vidx_range.
    by rewrite decide_True.
  - case_decide; [done|]. case_decide; [done|]. destruct (pte_is_huge _) eqn:Hh; [done|].
    apply IH. by apply table_child.
Qed.

Lemma reach_new v k x : reach ent v k x → reach ent' v k x.
Proof.
  induction 1 as [|k x Hr IH Hk Hpr Hh]; [constructor|].
  apply (reach_label _ _ _ _ _ W) in Hr as Hx.
  assert (ent' x (vidx k v) = ent x (vidx k v)) as Heq.
  { rewrite Hset by (eauto || apply vidx_range). rewrite decide_False; [done|].
    intros [-> Hv]. rewrite Hv, Hunused, pte_zero_absent in Hpr. done. }
  rewrite <-Heq in Hpr, Hh |- *. by constructor.
Qed.

Lemma reach_new_table v : reach ent v (S l) p → vidx l v = i → reach ent' v l q.
Proof.
  intros Hr Hv.
  assert (ent' p (vidx l v) = pte_new_table q) as He.
  { rewrite Hv. by apply (ent_set_here lab ent ent' p l b). }
  rewrite <-(pte_table_paddr q) by done. rewrite <-He.
  constructor; [by apply reach_new|done| |]; rewrite He.
  - by apply pte_table_present.
  - by apply pte_table_huge.
Qed.
End new_table.

End tree.
