(* ===== verification/PageTable.v ===== *)
(** * Page tables ([crates/page_table])

    [PageTable64] over the interfaces it is generic in: the entry format
    ([GenericPTE]), the architecture metadata ([PagingMetaData]) and the
    operating system services ([PagingIf]).  Physical memory is a map from the
    virtual address of a table to its 512 raw entries, so a [&mut PTE] is a
    slot: the address of a table and an index into it. *)

From stdpp Require Import base decidable numbers list gmap.
From Stdlib Require Import ZArith Lia.
From S2P Require Import Prelude MemoryAddr PageTableEntry PageTree.

Local Open Scope Z_scope.

(** ** [lib.rs] *)

Inductive PagingError : Type :=
| NoMemory | NotAligned | NotMapped | AlreadyMapped | MappedToHugePage.

Class PagingMetaData : Type := {
  LEVELS : nat;
  PA_MAX_BITS : Z;
  VA_MAX_BITS : Z;
  vaddr_is_valid : Z → bool;
}.

Definition PA_MAX_ADDR `{PagingMetaData} : Z := sub64 (shl64 1 PA_MAX_BITS) 1.

Definition paddr_is_valid `{PagingMetaData} (paddr : Z) : bool := paddr <=? PA_MAX_ADDR.

(** The default of the trait: the top bits are a sign extension. *)
Definition default_vaddr_is_valid (va_max_bits : Z) (vaddr : Z) : bool :=
  let top_mask := shl64 u64_max (va_max_bits - 1) in
  ((Z.land vaddr top_mask =? 0) || (Z.land vaddr top_mask =? top_mask))%bool.

(** The frame allocator and the direct map; [A] is the allocator's state. *)
Class PagingIf (A : Type) : Type := {
  if_alloc_frame : A → option PhysAddr * A;
  if_dealloc_frame : PhysAddr → A → A;
  if_phys_to_virt : PhysAddr → VirtAddr;
}.

Inductive PageSize : Type := Size4K | Size2M | Size1G.

#[export] Instance PageSize_eq_dec : EqDecision PageSize.
Proof. solve_decision. Defined.

Definition PageSize_as_usize (s : PageSize) : Z :=
  match s with Size4K => 0x1000 | Size2M => 0x20_0000 | Size1G => 0x4000_0000 end.

Definition PageSize_is_huge (s : PageSize) : bool :=
  match s with Size1G | Size2M => true | Size4K => false end.

(** ** Architectures ([arch/*.rs]) *)

Definition A64PagingMetaData : PagingMetaData := {|
  LEVELS := 4; PA_MAX_BITS := 48; VA_MAX_BITS := 48;
  vaddr_is_valid vaddr :=
    let top_bits := shr64 vaddr 48 in ((top_bits =? 0) || (top_bits =? 0xffff))%bool;
|}.

Definition Sv39MetaData : PagingMetaData := {|
  LEVELS := 3; PA_MAX_BITS := 56; VA_MAX_BITS := 39;
  vaddr_is_valid := default_vaddr_is_valid 39;
|}.

Definition Sv48MetaData : PagingMetaData := {|
  LEVELS := 4; PA_MAX_BITS := 56; VA_MAX_BITS := 48;
  vaddr_is_valid := default_vaddr_is_valid 48;
|}.

Definition X64PagingMetaData : PagingMetaData := {|
  LEVELS := 4; PA_MAX_BITS := 52; VA_MAX_BITS := 48;
  vaddr_is_valid := default_vaddr_is_valid 48;
|}.

(** ** [bits64.rs] *)

Definition ENTRY_COUNT : Z := 512.

Definition p4_index (vaddr : VirtAddr) : Z :=
  Z.land (shr64 (VirtAddr_as_usize vaddr) (12 + 27)) (ENTRY_COUNT - 1).
Definition p3_index (vaddr : VirtAddr) : Z :=
  Z.land (shr64 (VirtAddr_as_usize vaddr) (12 + 18)) (ENTRY_COUNT - 1).
Definition p2_index (vaddr : VirtAddr) : Z :=
  Z.land (shr64 (VirtAddr_as_usize vaddr) (12 + 9)) (ENTRY_COUNT - 1).
Definition p1_index (vaddr : VirtAddr) : Z :=
  Z.land (shr64 (VirtAddr_as_usize vaddr) 12) (ENTRY_COUNT - 1).

(** The struct. *)
Record PageTable64 : Type := { root_paddr : PhysAddr; intrm_tables : list PhysAddr }.

(** The state an operation runs in: the struct, the memory holding tables and
    the state of the frame allocator. *)
Record PTState (A : Type) : Type := {
  pt_self : PageTable64;
  pt_mem : gmap Z (list Z);
  pt_frames : A;
}.
Arguments pt_self {A}.
Arguments pt_mem {A}.
Arguments pt_frames {A}.
Arguments Build_PTState {A}.

(** [&mut [PTE]] and [&mut PTE]. *)
Definition Table : Type := VirtAddr.
Definition Slot : Type := (VirtAddr * Z)%type.

Section bits64.
Context {MD : PagingMetaData} {P : GenericPTE} {A : Type} {IF : PagingIf A}.

Abbreviation PM := (M (PTState A) PagingError).

(** A dereference; outside a table it is undefined behaviour. *)
Definition read_slot (s : Slot) : PM Z := λ st,
  match pt_mem st !! s.1 ≫= λ t, t !! Z.to_nat s.2 with
  | Some e => (Ok e, st)
  | None => (Panic, st)
  end.

Definition set_mem (m : gmap Z (list Z)) (st : PTState A) : PTState A :=
  Build_PTState (pt_self st) m (pt_frames st).

(** [*entry = e]. *)
Definition write_slot (s : Slot) (e : Z) : PM unit := λ st,
  match pt_mem st !! s.1 with
  | Some t => (Ok tt, set_mem (<[s.1 := <[Z.to_nat s.2 := e]> t]> (pt_mem st)) st)
  | None => (Panic, st)
  end.

(** A 4K frame of zero bytes, as entries. *)
Definition zero_table : list Z := replicate 512 0.

Definition alloc_table : PM PhysAddr := λ st,
  match if_alloc_frame (pt_frames st) with
  | (Some paddr, a) =>
      (Ok paddr,
       Build_PTState (pt_self st)
         (<[if_phys_to_virt paddr := zero_table]> (pt_mem st)) a)
  | (None, a) => (Err NoMemory, Build_PTState (pt_self st) (pt_mem st) a)
  end.

Definition table_of (paddr : PhysAddr) : Table := if_phys_to_virt paddr.
Definition table_of_mut (paddr : PhysAddr) : Table := if_phys_to_virt paddr.

Definition next_table_mut (entry : Z) : PM Table :=
  if negb (pte_is_present entry) then throw NotMapped
  else if pte_is_huge entry then throw MappedToHugePage
  else mret (table_of_mut (pte_paddr entry)).

(** [self.intrm_tables.push(paddr)]. *)
Definition push_intrm (paddr : PhysAddr) : PM unit :=
  modify (λ st, Build_PTState
    {| root_paddr := root_paddr (pt_self st);
       intrm_tables := intrm_tables (pt_self st) ++ [paddr] |}
    (pt_mem st) (pt_frames st)).

Definition next_table_mut_or_create (entry : Slot) : PM Table :=
  e ← read_slot entry;
  if pte_is_unused e then
    paddr ← alloc_table;
    _ ← push_intrm paddr;
    _ ← write_slot entry (pte_new_table paddr);
    mret (table_of_mut paddr)
  else next_table_mut e.

Definition get_root : PM PhysAddr := gets (λ st, root_paddr (pt_self st)).

Definition get_entry_mut (vaddr : VirtAddr) : PM (Slot * PageSize) :=
  root ← get_root;
  p3 ← (if Nat.eqb LEVELS 3 then mret (table_of_mut root)
        else if Nat.eqb LEVELS 4 then
          let p4 := table_of_mut root in
          p4e ← read_slot (p4, p4_index vaddr);
          next_table_mut p4e
        else panic);
  p3e ← read_slot (p3, p3_index vaddr);
  if pte_is_huge p3e then mret ((p3, p3_index vaddr), Size1G)
  else
    p2 ← next_table_mut p3e;
    p2e ← read_slot (p2, p2_index vaddr);
    if pte_is_huge p2e then mret ((p2, p2_index vaddr), Size2M)
    else
      p1 ← next_table_mut p2e;
      mret ((p1, p1_index vaddr), Size4K).

Definition get_entry_mut_or_create (vaddr : VirtAddr) (page_size : PageSize) : PM Slot :=
  root ← get_root;
  p3 ← (if Nat.eqb LEVELS 3 then mret (table_of_mut root)
        else if Nat.eqb LEVELS 4 then
          let p4 := table_of_mut root in
          next_table_mut_or_create (p4, p4_index vaddr)
        else panic);
  let p3e := (p3, p3_index vaddr) in
  if decide (page_size = Size1G) then mret p3e
  else
    p2 ← next_table_mut_or_create p3e;
    let p2e := (p2, p2_index vaddr) in
    if decide (page_size = Size2M) then mret p2e
    else
      p1 ← next_table_mut_or_create p2e;
      mret (p1, p1_index vaddr).

Definition map (vaddr : VirtAddr) (target : PhysAddr) (page_size : PageSize)
    (flags : Z) : PM unit :=
  entry ← get_entry_mut_or_create vaddr page_size;
  e ← read_slot entry;
  if negb (pte_is_unused e) then throw AlreadyMapped
  else
    write_slot entry
      (pte_new_page (PhysAddr_align_down target (PageSize_as_usize page_size)) flags
        (PageSize_is_huge page_size)).

Definition unmap (vaddr : VirtAddr) : PM (PhysAddr * PageSize) :=
  '(entry, size) ← get_entry_mut vaddr;
  e ← read_slot entry;
  if pte_is_unused e then throw NotMapped
  else
    let paddr := pte_paddr e in
    _ ← write_slot entry (pte_clear e);
    mret (paddr, size).

Definition query (vaddr : VirtAddr) : PM (PhysAddr * Z * PageSize) :=
  '(entry, size) ← get_entry_mut vaddr;
  e ← read_slot entry;
  if pte_is_unused e then throw NotMapped
  else
    let off := VirtAddr_align_offset vaddr (PageSize_as_usize size) in
    mret (PhysAddr_add (pte_paddr e) off, pte_flags e, size).

Definition update (vaddr : VirtAddr) (paddr : option PhysAddr) (flags : option Z)
    : PM PageSize :=
  '(entry, size) ← get_entry_mut vaddr;
  _ ← match paddr with
      | Some paddr => e ← read_slot entry; write_slot entry (pte_set_paddr e paddr)
      | None => mret tt
      end;
  _ ← match flags with
      | Some flags =>
          e ← read_slot entry;
          write_slot entry (pte_set_flags e flags (PageSize_is_huge size))
      | None => mret tt
      end;
  mret size.

Definition try_new (mem : gmap Z (list Z)) (a : A) : res PagingError unit * PTState A :=
  let st := Build_PTState {| root_paddr := 0; intrm_tables := [] |} mem a in
  (root_paddr ← alloc_table;
   modify (λ st, Build_PTState
     {| root_paddr := root_paddr; intrm_tables := [root_paddr] |}
     (pt_mem st) (pt_frames st))) st.

(** The page size chosen by an iteration of [map_region]. *)
Definition region_page_size (vaddr : VirtAddr) (paddr : PhysAddr) (size : Z)
    (allow_huge : bool) : PageSize :=
  if allow_huge then
    if (VirtAddr_is_aligned vaddr (PageSize_as_usize Size1G) &&
        PhysAddr_is_aligned paddr (PageSize_as_usize Size1G) &&
        (PageSize_as_usize Size1G <=? size))%bool then Size1G
    else if (VirtAddr_is_aligned vaddr (PageSize_as_usize Size2M) &&
        PhysAddr_is_aligned paddr (PageSize_as_usize Size2M) &&
        (PageSize_as_usize Size2M <=? size))%bool then Size2M
    else Size4K
  else Size4K.

Fixpoint map_region_loop (fuel : nat) (vaddr : VirtAddr) (paddr : PhysAddr) (size : Z)
    (flags : Z) (allow_huge : bool) : PM unit :=
  if 0 <? size then
    match fuel with
    | O => out_of_fuel
    | S fuel =>
        let page_size := region_page_size vaddr paddr size allow_huge in
        _ ← map vaddr paddr page_size flags;
        map_region_loop fuel
          (VirtAddr_add vaddr (PageSize_as_usize page_size))
          (PhysAddr_add paddr (PageSize_as_usize page_size))
          (sub64 size (PageSize_as_usize page_size)) flags allow_huge
    end
  else mret tt.

(** Every iteration advances by a page of at least 4K. *)
Definition region_fuel (size : Z) : nat := Z.to_nat (size / PAGE_SIZE_4K + 1).

Definition map_region (vaddr : VirtAddr) (paddr : PhysAddr) (size : Z) (flags : Z)
    (allow_huge : bool) : PM unit :=
  if (negb (VirtAddr_is_aligned vaddr (PageSize_as_usize Size4K)) ||
      negb (PhysAddr_is_aligned paddr (PageSize_as_usize Size4K)) ||
      negb (is_aligned size (PageSize_as_usize Size4K)))%bool
  then throw NotAligned
  else map_region_loop (region_fuel size) vaddr paddr size flags allow_huge.

Fixpoint unmap_region_loop (fuel : nat) (vaddr : VirtAddr) (size : Z) : PM unit :=
  if 0 <? size then
    match fuel with
    | O => out_of_fuel
    | S fuel =>
        '(_, page_size) ← unmap vaddr;
        _ ← assert_ (VirtAddr_is_aligned vaddr (PageSize_as_usize page_size));
        _ ← assert_ (PageSize_as_usize page_size <=? size);
        unmap_region_loop fuel
          (VirtAddr_add vaddr (PageSize_as_usize page_size))
          (sub64 size (PageSize_as_usize page_size))
    end
  else mret tt.

Definition unmap_region (vaddr : VirtAddr) (size : Z) : PM unit :=
  unmap_region_loop (region_fuel size) vaddr size.

(** [Drop]: the frames go back in order; the tables are gone. *)
Definition drop_table (st : PTState A) : A :=
  fold_left (λ a frame, if_dealloc_frame frame a) (intrm_tables (pt_self st)) (pt_frames st).

(** *** [walk]

    The closure is called for its effects: its calls are recorded in order. *)

Definition WalkCall : Type := (nat * Z * VirtAddr * Z)%type.
Abbreviation WM := (M (list WalkCall) PagingError).

Definition call_func (c : WalkCall) : WM unit := modify (λ log, log ++ [c]).

(** The loop of [walk_recursive] over the rest of a table, with the recursive
    call as an argument; [n] counts the present entries seen. *)
Fixpoint walk_entries (rec : Z → VirtAddr → WM unit) (level : nat)
    (start_vaddr : VirtAddr) (limit n : Z) (i : Z) (entries : list Z) : WM unit :=
  match entries with
  | [] => mret tt
  | entry :: rest =>
      let vaddr := VirtAddr_add start_vaddr
        (shl64 i (12 + Z.of_nat (LEVELS - 1 - level) * 9)) in
      if pte_is_present entry then
        _ ← call_func (level, i, vaddr, entry);
        _ ← (if (Nat.ltb level (LEVELS - 1) && negb (pte_is_huge entry))%bool
             then rec entry vaddr else mret tt);
        if limit <=? n + 1 then mret tt
        else walk_entries rec level start_vaddr limit (n + 1) (i + 1) rest
      else walk_entries rec level start_vaddr limit n (i + 1) rest
  end.

(** [depth] is the number of levels below the current table. *)
Fixpoint walk_recursive (mem : gmap Z (list Z)) (depth : nat) (table : Table)
    (level : nat) (start_vaddr : VirtAddr) (limit : Z) : WM unit :=
  match mem !! table with
  | None => panic
  | Some entries =>
      walk_entries
        (λ entry vaddr,
          match depth with
          | O => out_of_fuel
          | S depth =>
              if negb (pte_is_present entry) then throw NotMapped
              else if pte_is_huge entry then throw MappedToHugePage
              else walk_recursive mem depth (table_of_mut (pte_paddr entry)) (S level)
                     vaddr limit
          end)
        level start_vaddr limit 0 0 entries
  end.

Definition walk (st : PTState A) (limit : Z) : WM unit :=
  walk_recursive (pt_mem st) (LEVELS - 1) (table_of (root_paddr (pt_self st))) 0
    (VirtAddr_from 0) limit.

End bits64.

(** ** What the services promise *)

Class PagingMetaSpec (MD : PagingMetaData) : Prop := {
  levels_3_or_4 : LEVELS = 3%nat ∨ LEVELS = 4%nat;
  va_bits_levels : VA_MAX_BITS = 12 + 9 * Z.of_nat LEVELS;
  pa_bits_u64 : 12 ≤ PA_MAX_BITS < 64;
}.

#[export] Instance A64_meta_spec : PagingMetaSpec A64PagingMetaData.
Proof. split; [by auto|done|done]. Qed.
#[export] Instance Sv39_meta_spec : PagingMetaSpec Sv39MetaData.
Proof. split; [by auto|done|done]. Qed.
#[export] Instance Sv48_meta_spec : PagingMetaSpec Sv48MetaData.
Proof. split; [by auto|done|done]. Qed.
#[export] Instance X64_meta_spec : PagingMetaSpec X64PagingMetaData.
Proof. split; [by auto|done|done]. Qed.

(** [if_owned] is the set of frames handed out and not yet returned. *)
Class PagingIfSpec {A : Type} (IF : PagingIf A) (bits : Z) : Type := {
  if_owned : A → gset Z;
  if_alloc_some a p a' :
    if_alloc_frame a = (Some p, a') →
    frame_ok bits p ∧ (p ∉ if_owned a) ∧ if_owned a' = {[p]} ∪ if_owned a;
  if_alloc_none a a' : if_alloc_frame a = (None, a') → if_owned a' = if_owned a;
  if_dealloc_owned p a :
    p ∈ if_owned a → if_owned (if_dealloc_frame p a) = if_owned a ∖ {[p]};
  if_p2v_inj p q :
    frame_ok bits p → frame_ok bits q → if_phys_to_virt p = if_phys_to_virt q → p = q;
}.

(** ** Indices and sizes by level *)

(** The level of the table whose entries map pages of a size, minus one. *)
Definition size_level (s : PageSize) : nat :=
  match s with Size4K => 0 | Size2M => 1 | Size1G => 2 end.

Definition level_size (l : nat) : PageSize :=
  match l with O => Size4K | S O => Size2M | _ => Size1G end.

Lemma PageSize_pow s : PageSize_as_usize s = 2 ^ lbits (size_level s).
Proof. by destruct s. Qed.

Lemma level_size_level s : level_size (size_level s) = s.
Proof. by destruct s. Qed.

Lemma index_vidx n v :
  0 ≤ n → Z.land (shr64 v n) (ENTRY_COUNT - 1) = (v / 2 ^ n) mod 512.
Proof.
  intros. unfold shr64, ENTRY_COUNT. change (512 - 1) with (2 ^ 9 - 1).
  by rewrite land_pow2_mask, Z.shiftr_div_pow2 by lia.
Qed.

Lemma p_index_vidx v :
  p1_index v = vidx 0 v ∧ p2_index v = vidx 1 v ∧ p3_index v = vidx 2 v ∧ p4_index v = vidx 3 v.
Proof.
  unfold p1_index, p2_index, p3_index, p4_index, VirtAddr_as_usize.
  by rewrite !index_vidx by lia.
Qed.

(** ** The invariant of a page table *)

Section pt_proofs.
Context {MD : PagingMetaData} `{!PagingMetaSpec MD}.
Context {P : GenericPTE} {norm : Z → Z} `{!GenericPTESpec P PA_MAX_BITS norm}.
Context {A : Type} {IF : PagingIf A} `{!PagingIfSpec IF PA_MAX_BITS}.
Implicit Types (st : PTState A) (lab : gmap Z (nat * Z)).

(** The entries of the table in frame [p]. *)
Definition ent_of (mem : gmap Z (list Z)) : Ent :=
  λ p i, default 0 (mem !! if_phys_to_virt p ≫= λ t, t !! Z.to_nat i).

Abbreviation st_ent st := (ent_of (pt_mem st)).
Abbreviation st_root st := (root_paddr (pt_self st)).

(** The leaf entry that translates [v], and its level. *)
Definition trans st (v : VirtAddr) : option (nat * Z) :=
  twalk (st_ent st) LEVELS (st_root st) v.

(** The tables of [lab] are in memory, in owned frames. *)
Definition frames_ok lab st : Prop := ∀ p, is_Some (lab !! p) →
  frame_ok PA_MAX_BITS p ∧ p ∈ if_owned (pt_frames st) ∧
  ∃ t, pt_mem st !! if_phys_to_virt p = Some t ∧ length t = 512%nat ∧ Forall in_u64 t.

Record pt_wf lab st : Prop := {
  ptw_tree : twf LEVELS (st_root st) lab (st_ent st);
  ptw_tables : list_to_set (intrm_tables (pt_self st)) = dom lab;
  ptw_nodup : NoDup (intrm_tables (pt_self st));
  ptw_frames : frames_ok lab st;
}.

(** The invariant: the tables form a tree whose frames are exactly
    [intrm_tables], owned and pairwise distinct. *)
Definition pt_ok st : Prop := ∃ lab, pt_wf lab st.

Abbreviation st_reach st := (reach LEVELS (st_root st) (st_ent st)).

(** *** Reading and writing an entry *)

Lemma read_slot_ok lab st p i :
  frames_ok lab st → is_Some (lab !! p) → 0 ≤ i < 512 →
  read_slot (if_phys_to_virt p, i) st = (Ok (st_ent st p i), st) ∧ in_u64 (st_ent st p i).
Proof.
  intros W Hp Hi. destruct (W p Hp) as (_&_&t&Ht&Hlen&Hu).
  unfold read_slot, ent_of. simpl. rewrite Ht. simpl.
  destruct (lookup_lt_is_Some_2 t (Z.to_nat i)) as [e He]; [lia|]. rewrite He. simpl.
  split; [done|]. by apply (Forall_lookup_1 _ _ _ _ Hu He).
Qed.

Lemma write_slot_ok lab st p i e :
  frames_ok lab st → is_Some (lab !! p) → 0 ≤ i < 512 → in_u64 e →
  ∃ st', write_slot (if_phys_to_virt p, i) e st = (Ok tt, st') ∧
    pt_self st' = pt_self st ∧ pt_frames st' = pt_frames st ∧
    ent_set lab (st_ent st) (st_ent st') p i e ∧ frames_ok lab st'.
Proof.
  intros W Hp Hi He. destruct (W p Hp) as (Hfp&_&t&Ht&Hlen&Hu).
  unfold write_slot. simpl. rewrite Ht. eexists. split_and!; [done..| |]; simpl.
  - intros q j Hq Hj. unfold ent_of. simpl.
    destruct (W q Hq) as (Hfq&_&tq&Htq&_).
    destruct (decide (q = p)) as [->|Hne].
    + rewrite lookup_insert_eq, Ht. simpl. destruct (decide (j = i)) as [->|Hji].
      * rewrite decide_True by done. by rewrite list_lookup_insert_eq by lia.
      * rewrite decide_False by (by intros [??]). by rewrite list_lookup_insert_ne by lia.
    + rewrite decide_False by (by intros [??]). rewrite lookup_insert_ne; [done|].
      intros Heq. by apply Hne, (if_p2v_inj (bits := PA_MAX_BITS)).
  - intros q Hq. destruct (W q Hq) as (Hfq&?&tq&Htq&Hlq&Huq). split_and!; [done..|].
    simpl. rewrite lookup_insert. case_decide; [|by eauto].
    eexists. split; [done|]. rewrite length_insert. split; [done|]. by apply Forall_insert.
Qed.

(** A write of an entry that fits its table keeps the invariant. *)
Lemma write_slot_wf lab st p l b i e :
  pt_wf lab st → lab !! p = Some (S l, b) → 0 ≤ i < 512 →
  entry_wf lab l b i e → in_u64 e →
  ∃ st', write_slot (if_phys_to_virt p, i) e st = (Ok tt, st') ∧ pt_wf lab st' ∧
    pt_self st' = pt_self st ∧ pt_frames st' = pt_frames st ∧
    ent_set lab (st_ent st) (st_ent st') p i e.
Proof.
  intros W Hp Hi He Hu.
  destruct (write_slot_ok lab st p i e (ptw_frames _ _ W)) as (st'&Hw&Hs&Hf&Hset&Ht);
    [eauto|done..|].
  exists st'. split_and!; try done. split; rewrite ?Hs; try apply W; [|done].
  by eapply twf_set; [apply W|..].
Qed.

(** *** Lookup *)

Lemma next_table_reach lab st v l p :
  pt_wf lab st → st_reach st v (S l) p → (1 ≤ l)%nat →
  let e := st_ent st p (vidx l v) in
  (l = 3%nat ∨ pte_is_huge e = false) →
  (e = 0 ∧ next_table_mut e st = (Err NotMapped, st)) ∨
  (e ≠ 0 ∧ next_table_mut e st = (Ok (if_phys_to_virt (pte_paddr e)), st) ∧
   st_reach st v l (pte_paddr e)).
Proof.
  intros W Hr Hl e Hh. pose proof (reach_label _ _ _ _ _ _ _ (ptw_tree _ _ W) Hr) as Hp.
  unfold next_table_mut.
  destruct (twf_entry _ _ _ _ (ptw_tree _ _ W) _ _ _ _ Hp (vidx_range l v))
    as [He|[He|[He|He]]]; fold e in He.
  - left. split; [done|]. by rewrite He, pte_zero_absent.
  - lia.
  - destruct He as (?&_&He), Hh as [?|Hh]; [lia|congruence].
  - right. destruct He as (_&Hpr&Hhu&_). split; [by apply present_nonzero|].
    rewrite Hpr, Hhu. split; [done|]. by apply reach_step.
Qed.

(** The entry found for [v]: none, or the slot of level [S l] the walk stops at. *)
Definition found st v (r : res PagingError (Slot * PageSize)) : Prop :=
  (r = Err NotMapped ∧ trans st v = None) ∨
  ∃ l p, r = Ok ((if_phys_to_virt p, vidx l v), level_size l) ∧ (l ≤ 2)%nat ∧
    st_reach st v (S l) p ∧
    trans st v =
      (let e := st_ent st p (vidx l v) in if decide (e = 0) then None else Some (S l, e)).

Lemma reach_trans st v l p :
  st_reach st v (S l) p → trans st v = twalk (st_ent st) (S l) p v.
Proof. intros Hr. apply reach_twalk; [done|lia]. Qed.

Lemma reach_is_table lab st v l p :
  pt_wf lab st → st_reach st v l p → is_Some (lab !! p).
Proof. intros W Hr. rewrite (reach_label _ _ _ _ _ _ _ (ptw_tree _ _ W) Hr). eauto. Qed.

Lemma read_reach lab st v l p :
  pt_wf lab st → st_reach st v (S l) p →
  read_slot (if_phys_to_virt p, vidx l v) st = (Ok (st_ent st p (vidx l v)), st).
Proof.
  intros W Hr.
  by apply (read_slot_ok lab); eauto using reach_is_table, vidx_range, ptw_frames.
Qed.

(** A walk that stops at a huge, an unused or a last-level entry. *)
Lemma found_stop st v l p :
  st_reach st v (S l) p → (l ≤ 2)%nat →
  l = O ∨ pte_is_huge (st_ent st p (vidx l v)) = true →
  found st v (Ok ((if_phys_to_virt p, vidx l v), level_size l)).
Proof.
  intros Hr Hl Hs. right. exists l, p. split_and!; [done..|].
  rewrite (reach_trans _ _ _ _ Hr). simpl. case_decide; [done|].
  case_decide; [done|]. by destruct Hs as [?| ->].
Qed.

Lemma found_none st v l p :
  st_reach st v (S l) p → st_ent st p (vidx l v) = 0 → trans st v = None.
Proof. intros Hr He. rewrite (reach_trans _ _ _ _ Hr). simpl. by rewrite decide_True. Qed.

Lemma levels_cases :
  (LEVELS = 3%nat ∧ Nat.eqb LEVELS 3 = true ∧ Nat.eqb LEVELS 4 = false) ∨
  (LEVELS = 4%nat ∧ Nat.eqb LEVELS 3 = false ∧ Nat.eqb LEVELS 4 = true).
Proof. destruct levels_3_or_4 as [-> | ->]; [by left|by right]. Qed.

Lemma reach_at_root st v n : LEVELS = n → st_reach st v n (st_root st).
Proof. intros <-. constructor. Qed.

Lemma get_entry_mut_spec lab st v :
  pt_wf lab st → ∃ r, get_entry_mut v st = (r, st) ∧ found st v r.
Proof.
  intros W. destruct (p_index_vidx v) as (H1&H2&H3&H4).
  assert (∃ r, (if Nat.eqb LEVELS 3 then mret (table_of_mut (st_root st))
     else if Nat.eqb LEVELS 4 then
       p4e ← read_slot (table_of_mut (st_root st), p4_index v); next_table_mut p4e
     else panic) st = (r, st) ∧
     ((r = Err NotMapped ∧ trans st v = None) ∨
      ∃ p, r = Ok (if_phys_to_virt p) ∧ st_reach st v 3 p)) as (r&Hr&Hp3).
  { destruct levels_cases as [(HL & -> & _)|(HL & -> & ->)];
      pose proof (reach_at_root st v _ HL) as Hroot.
    - eexists. split; [done|]. right. by exists (st_root st).
    - rewrite H4. erewrite M_bind_ok by (exact (read_reach lab st v 3 _ W Hroot)).
      destruct (next_table_reach lab st v 3 _ W Hroot) as [[He He']|(He&He'&Hr)];
        [lia|by left|..]; rewrite He'; eexists; (split; [done|]); [left|right]; eauto.
      split; [done|]. by eapply found_none. }
  unfold get_entry_mut. erewrite M_bind_ok by done.
  destruct Hp3 as [[-> Ht]|(p3 & -> & Hr3)].
  { erewrite M_bind_err by exact Hr. eexists. split; [done|]. by left. }
  erewrite M_bind_ok by exact Hr. rewrite H3, H2, H1.
  erewrite M_bind_ok by (by eapply read_reach).
  destruct (pte_is_huge _) eqn:Hh3.
  { eexists. split; [done|]. apply (found_stop _ _ 2); [done|lia|by right]. }
  destruct (next_table_reach lab st v 2 _ W Hr3) as [[He He']|(He&He'&Hr2)]; [lia|by right|..].
  { erewrite M_bind_err by exact He'. eexists. split; [done|]. left. split; [done|].
    by eapply found_none. }
  erewrite M_bind_ok by exact He'.
  erewrite M_bind_ok by (by eapply read_reach).
  destruct (pte_is_huge (st_ent st _ (vidx 1 v))) eqn:Hh2.
  { eexists. split; [done|]. apply (found_stop _ _ 1); [done|lia|by right]. }
  clear He'. destruct (next_table_reach lab st v 1 _ W Hr2) as [[He1 He']|(He1&He'&Hr1)];
    [lia|by right|..].
  { erewrite M_bind_err by exact He'. eexists. split; [done|]. left. split; [done|].
    by eapply found_none. }
  erewrite M_bind_ok by exact He'. eexists. split; [done|].
  apply (found_stop _ _ 0); [done|lia|by left].
Qed.

(** [query] is the translation of the tree. *)
Definition query_result (v : VirtAddr) (t : option (nat * Z))
    : res PagingError (PhysAddr * Z * PageSize) :=
  match t with
  | None => Err NotMapped
  | Some (l, e) =>
      let size := level_size (pred l) in
      Ok (PhysAddr_add (pte_paddr e) (VirtAddr_align_offset v (PageSize_as_usize size)),
          pte_flags e, size)
  end.

Lemma query_trans st v : pt_ok st → query v st = (query_result v (trans st v), st).
Proof.
  intros [lab W]. destruct (get_entry_mut_spec lab st v W) as (r&Hg&Hf).
  unfold query. destruct Hf as [[-> Ht]|(l&p & -> & Hl&Hr&Ht)].
  - erewrite M_bind_err by exact Hg. by rewrite Ht.
  - erewrite M_bind_ok by exact Hg. cbv beta iota.
    erewrite M_bind_ok by (by eapply read_reach).
    rewrite Ht. simpl. case_decide as He.
    + rewrite He. by rewrite (proj2 (pte_unused_zero 0)).
    + destruct (pte_is_unused _) eqn:Hu; [|done]. by apply pte_unused_zero in Hu.
Qed.

(** *** Creating tables *)

(** The frames an operating system service outside the page table holds. *)
Definition foreign st : gset Z :=
  if_owned (pt_frames st) ∖ list_to_set (intrm_tables (pt_self st)).

(** [st'] has more tables than [st] and the same translations. *)
Record pt_ext st st' : Prop := {
  ext_ok : pt_ok st';
  ext_root : st_root st' = st_root st;
  ext_trans v : trans st' v = trans st v;
  ext_reach v l p : st_reach st v l p → st_reach st' v l p;
  ext_foreign : foreign st' = foreign st;
}.

Lemma pt_ext_refl st : pt_ok st → pt_ext st st.
Proof. by split. Qed.

Lemma pt_ext_trans st1 st2 st3 : pt_ext st1 st2 → pt_ext st2 st3 → pt_ext st1 st3.
Proof.
  intros [? R1 T1 H1 F1] [? R2 T2 H2 F2]. split; try congruence. by eauto.
Qed.

(** The state with [q] allocated, zeroed and recorded in [intrm_tables]. *)
Definition with_table st (q : PhysAddr) (a : A) : PTState A :=
  Build_PTState
    {| root_paddr := st_root st; intrm_tables := intrm_tables (pt_self st) ++ [q] |}
    (<[if_phys_to_virt q := zero_table]> (pt_mem st)) a.

Section with_table.
Context lab st (q : PhysAddr) (a : A) (W : pt_wf lab st).
Context (Ha : if_alloc_frame (pt_frames st) = (Some q, a)).

Lemma with_table_fresh : lab !! q = None ∧ frame_ok PA_MAX_BITS q.
Proof.
  destruct (if_alloc_some _ _ _ Ha) as (?&Hq&_). split; [|done].
  apply eq_None_not_Some. intros Hs. by apply Hq, (ptw_frames _ _ W).
Qed.

Lemma with_table_frames x : frames_ok (<[q := x]> lab) (with_table st q a).
Proof.
  destruct (if_alloc_some _ _ _ Ha) as (Hfq&Hq&Ho). intros r Hr. simpl. rewrite Ho.
  destruct (decide (r = q)) as [->|Hne].
  - rewrite lookup_insert_eq. split_and!; [done|set_solver|]. eexists. split; [done|].
    unfold zero_table. rewrite length_replicate. split; [done|]. by apply Forall_replicate.
  - rewrite lookup_insert_ne in Hr by done.
    destruct (ptw_frames _ _ W r Hr) as (Hfr&?&?). split_and!; [done|set_solver|].
    rewrite lookup_insert_ne; [done|]. intros Heq.
    by apply Hne, (if_p2v_inj (bits := PA_MAX_BITS)).
Qed.

Lemma with_table_ent r j :
  is_Some (lab !! r) → st_ent (with_table st q a) r j = st_ent st r j.
Proof.
  intros Hr. destruct with_table_fresh as [Hn Hfq].
  destruct (ptw_frames _ _ W r Hr) as (Hfr&_&_). unfold ent_of. simpl.
  rewrite lookup_insert_ne; [done|]. intros Heq.
  apply (if_p2v_inj (bits := PA_MAX_BITS)) in Heq; [|done..]. subst.
  rewrite Hn in Hr. by destruct Hr.
Qed.

Lemma with_table_zero j : 0 ≤ j < 512 → st_ent (with_table st q a) q j = 0.
Proof.
  intros Hj. unfold ent_of. simpl. rewrite lookup_insert_eq. simpl.
  unfold zero_table. by rewrite lookup_replicate_2 by lia.
Qed.
End with_table.

(** Hanging the new table into an unused slot. *)
Lemma create_table lab st q a v l p :
  pt_wf lab st → if_alloc_frame (pt_frames st) = (Some q, a) →
  st_reach st v (S l) p → (1 ≤ l)%nat → st_ent st p (vidx l v) = 0 →
  ∃ st', write_slot (if_phys_to_virt p, vidx l v) (pte_new_table q) (with_table st q a)
      = (Ok tt, st') ∧ pt_ext st st' ∧ st_reach st' v l q.
Proof.
  intros W Ha Hr Hl Hz.
  pose proof (reach_label _ _ _ _ _ _ _ (ptw_tree _ _ W) Hr) as Hp.
  destruct (with_table_fresh lab st q a W Ha) as [Hfresh Hframe].
  set (lab' := lab_new lab q l (vbase LEVELS (S l) v) (vidx l v)).
  destruct (write_slot_ok lab' (with_table st q a) p (vidx l v) (pte_new_table q))
    as (st'&Hw&Hs&Hf&Hset&Hfr).
  { by apply with_table_frames. }
  { unfold lab', lab_new. rewrite lookup_insert_ne; [eauto|]. intros ->. congruence. }
  { apply vidx_range. }
  { apply pte_table_u64. }
  assert (st_root st' = st_root st) as Hroot by (by rewrite Hs).
  assert (ent_set lab (st_ent st) (st_ent st') p (vidx l v) (pte_new_table q)) as Hset'.
  { intros r j Hr' Hj. rewrite Hset; [|by apply lookup_insert_is_Some'; right|done].
    by rewrite (with_table_ent lab) by done. }
  assert (∀ j, 0 ≤ j < 512 → st_ent st' q j = 0) as Hzero.
  { intros j Hj. rewrite Hset; [|by apply lookup_insert_is_Some'; left|done].
    rewrite decide_False by (intros [-> _]; congruence). by apply with_table_zero. }
  exists st'. split; [done|].
  assert (pt_wf lab' st') as W'.
  { split; [rewrite Hroot| | |done].
    - by eapply twf_new; try apply vidx_range; eauto using ptw_tree.
    - rewrite Hs. unfold lab', lab_new. simpl. rewrite dom_insert_L, list_to_set_app_L.
      rewrite (ptw_tables _ _ W). set_solver.
    - rewrite Hs. simpl. apply NoDup_app. split; [apply W|]. split; [|apply NoDup_singleton].
      intros x Hx ->%list_elem_of_singleton.
      apply (elem_of_list_to_set (C := gset Z)) in Hx. rewrite (ptw_tables _ _ W) in Hx.
      apply elem_of_dom in Hx. rewrite Hfresh in Hx. by destruct Hx. }
  split; [split|].
  - by exists lab'.
  - done.
  - intros v'. unfold trans. rewrite Hroot.
    eapply (twalk_new LEVELS (st_root st) lab); eauto using vidx_range, ptw_tree.
    rewrite vbase_top. apply W.
  - intros v' k x Hx. rewrite Hroot. by eapply reach_new; eauto using ptw_tree.
  - unfold foreign. rewrite Hf, Hs. simpl. destruct (if_alloc_some _ _ _ Ha) as (_&Hq&->).
    rewrite list_to_set_app_L. simpl.
    assert (q ∉ (list_to_set (intrm_tables (pt_self st)) : gset Z)).
    { rewrite (ptw_tables _ _ W). by apply not_elem_of_dom. }
    set_solver.
  - rewrite Hroot. by eapply reach_new_table; eauto using vidx_range, ptw_tree.
Qed.

(** A failed allocation leaves the tables as they are. *)
Lemma alloc_none_ext lab st a :
  pt_wf lab st → if_alloc_frame (pt_frames st) = (None, a) →
  pt_ext st (Build_PTState (pt_self st) (pt_mem st) a).
Proof.
  intros W Ha. pose proof (if_alloc_none _ _ Ha) as Ho.
  split; try done; [|unfold foreign; simpl; by rewrite Ho].
  exists lab. split; try apply W. intros p Hp.
  destruct (ptw_frames _ _ W p Hp) as (?&?&?). simpl. by rewrite Ho.
Qed.

Lemma next_create_spec st v l p :
  pt_ok st → st_reach st v (S l) p → (1 ≤ l)%nat →
  ∃ r st', next_table_mut_or_create (if_phys_to_virt p, vidx l v) st = (r, st') ∧
    pt_ext st st' ∧
    (r = Err NoMemory ∨
     (r = Err MappedToHugePage ∧ ∃ e, trans st v = Some (S l, e)) ∨
     ∃ q, r = Ok (if_phys_to_virt q) ∧ st_reach st' v l q).
Proof.
  intros [lab W] Hr Hl. unfold next_table_mut_or_create.
  erewrite M_bind_ok by (by eapply read_reach).
  destruct (pte_is_unused _) eqn:Hu.
  - apply pte_unused_zero in Hu.
    destruct (if_alloc_frame (pt_frames st)) as [[q|] a] eqn:Ha.
    + destruct (create_table lab st q a v l p W Ha Hr Hl Hu) as (st'&Hw&Hext&Hq).
      do 2 eexists. split.
      * erewrite M_bind_ok by (unfold alloc_table; by rewrite Ha).
        erewrite M_bind_ok by done. by erewrite M_bind_ok by exact Hw.
      * split; [done|]. right. right. eauto.
    + do 2 eexists. split; [by erewrite M_bind_err by (unfold alloc_table; by rewrite Ha)|].
      split; [by eapply alloc_none_ext|by left].
  - assert (st_ent st p (vidx l v) ≠ 0) as Hne by (by intros H%pte_unused_zero; congruence).
    destruct (pte_is_huge (st_ent st p (vidx l v))) eqn:Hh.
    + unfold next_table_mut.
      pose proof (reach_label _ _ _ _ _ _ _ (ptw_tree _ _ W) Hr) as Hp.
      destruct (twf_entry _ _ _ _ (ptw_tree _ _ W) _ _ _ _ Hp (vidx_range l v))
        as [?|[?|[(?&Hpr&_)|(_&_&?&_)]]]; [done|lia| |congruence].
      rewrite Hpr, Hh. do 2 eexists. split; [done|].
      split; [apply pt_ext_refl; by exists lab|].
      right; left. split; [done|]. exists (st_ent st p (vidx l v)).
      rewrite (reach_trans _ _ _ _ Hr). simpl.
      rewrite decide_False by done. rewrite decide_False by lia. by rewrite Hh.
    + destruct (next_table_reach lab st v l p W Hr Hl) as [[? _]|(_&Hn&Hq)];
        [by right|done|].
      do 2 eexists. split; [exact Hn|]. split; [apply pt_ext_refl; by exists lab|]. right; right. eauto.
Qed.

(** What [get_entry_mut_or_create] does: it stops with an error, or reaches the
    slot for the page size. *)
Definition created st v (size : PageSize) (r : res PagingError Slot) st' : Prop :=
  pt_ext st st' ∧
  (r = Err NoMemory ∨
   (r = Err MappedToHugePage ∧ ∃ l e, (size_level size < l)%nat ∧ trans st v = Some (S l, e)) ∨
   ∃ p, r = Ok (if_phys_to_virt p, vidx (size_level size) v) ∧
     st_reach st' v (S (size_level size)) p).

(** One level of the descent, for the continuation [k]. *)
Lemma created_step {B} st v size l p (k : Table → M (PTState A) PagingError B) r st' :
  pt_ok st → st_reach st v (S l) p → (1 ≤ l)%nat → (size_level size < l)%nat →
  (next_table_mut_or_create (if_phys_to_virt p, vidx l v) ≫= k) st = (r, st') →
  (pt_ext st st' ∧ (r = Err NoMemory ∨
    (r = Err MappedToHugePage ∧ ∃ l e, (size_level size < l)%nat ∧ trans st v = Some (S l, e)))) ∨
  ∃ st1 q, pt_ext st st1 ∧ st_reach st1 v l q ∧ k (if_phys_to_virt q) st1 = (r, st').
Proof.
  intros Hok Hr Hl Hs Hk.
  destruct (next_create_spec st v l p Hok Hr Hl) as (r1&st1&Hn&Hext&[->|[[-> [e ?]]|(q & -> & Hq)]]).
  - erewrite M_bind_err in Hk by exact Hn. inv_res. left. auto.
  - erewrite M_bind_err in Hk by exact Hn. inv_res. left. split; [done|]. right. eauto.
  - erewrite M_bind_ok in Hk by exact Hn. right. eauto.
Qed.

Lemma created_ext st st1 v size r st' :
  pt_ext st st1 → created st1 v size r st' → created st v size r st'.
Proof.
  intros He [He' Hc]. split; [by eapply pt_ext_trans|].
  by rewrite <-(ext_trans _ _ He).
Qed.

Lemma created_done st v size p :
  pt_ok st → st_reach st v (S (size_level size)) p →
  created st v size (Ok (if_phys_to_virt p, vidx (size_level size) v)) st.
Proof. intros. split; [by apply pt_ext_refl|]. right; right. eauto. Qed.

Lemma created_fail st v size r st' :
  pt_ext st st' ∧ (r = Err NoMemory ∨
    (r = Err MappedToHugePage ∧ ∃ l e, (size_level size < l)%nat ∧ trans st v = Some (S l, e))) →
  created st v size r st'.
Proof. intros [? [?|?]]; (split; [done|]); auto. Qed.

(** From the third level down. *)
Lemma get_p3_create st v size p3 r st' :
  pt_ok st → st_reach st v 3 p3 →
  (if decide (size = Size1G) then mret (if_phys_to_virt p3, p3_index v)
   else
     p2 ← next_table_mut_or_create (if_phys_to_virt p3, p3_index v);
     if decide (size = Size2M) then mret (p2, p2_index v)
     else
       p1 ← next_table_mut_or_create (p2, p2_index v);
       mret (p1, p1_index v)) st = (r, st') →
  created st v size r st'.
Proof.
  destruct (p_index_vidx v) as (->&->&->&_). intros Hok Hr H.
  case_decide as Hd; [subst size; injection H as <- <-; by apply (created_done _ _ Size1G)|].
  destruct (created_step st v size 2 _ _ _ _ Hok Hr ltac:(lia)
    ltac:(destruct size; simpl; lia || done) H) as [Hf|(st1&p2&He1&Hr2&H1)];
    [by apply created_fail|].
  apply (created_ext _ st1); [done|]. clear H. case_decide as Hd'.
  { subst size; injection H1 as <- <-. by apply (created_done _ _ Size2M), Hr2; apply He1. }
  destruct (created_step st1 v size 1 _ _ _ _ (ext_ok _ _ He1) Hr2 ltac:(lia)
    ltac:(destruct size; simpl; lia || done) H1) as [Hf|(st2&p1&He2&Hr1&H2)];
    [by apply created_fail|].
  apply (created_ext _ st2); [done|]. destruct size; [|done..].
  injection H2 as <- <-. apply (created_done _ _ Size4K); [apply He2|done].
Qed.

Lemma get_entry_mut_or_create_spec st v size r st' :
  pt_ok st → get_entry_mut_or_create v size st = (r, st') → created st v size r st'.
Proof.
  intros Hok H. unfold get_entry_mut_or_create in H. erewrite M_bind_ok in H by done.
  destruct levels_cases as [(HL&E3&_)|(HL&E3&E4)]; rewrite E3 in H; try rewrite E4 in H;
    pose proof (reach_at_root st v _ HL) as Hroot.
  - erewrite M_bind_ok in H by done. by apply get_p3_create in H.
  - destruct (p_index_vidx v) as (_&_&_&Hi4). rewrite Hi4 in H.
    destruct (created_step st v size 3 _ _ _ _ Hok Hroot ltac:(lia)
      ltac:(destruct size; simpl; lia || done) H) as [Hf|(st1&p3&He1&Hr3&H1)];
      [by apply created_fail|].
    apply (created_ext _ st1); [done|]. apply (get_p3_create st1 v size p3); [apply He1|done|exact H1].
Qed.

(** *** [map] *)

Definition same_page (size : PageSize) (v v' : VirtAddr) : Prop :=
  vbase LEVELS (size_level size) v' = vbase LEVELS (size_level size) v.

#[export] Instance same_page_dec size v v' : Decision (same_page size v v').
Proof. unfold same_page. apply _. Defined.

(** A target frame that fits the entry format. *)
Definition target_ok (target : PhysAddr) : Prop := 0 ≤ target < 2 ^ PA_MAX_BITS.

Definition page_entry (target : PhysAddr) (size : PageSize) (flags : Z) : Z :=
  pte_new_page (PhysAddr_align_down target (PageSize_as_usize size)) flags
    (PageSize_is_huge size).

Lemma page_entry_frame target size :
  target_ok target →
  frame_ok PA_MAX_BITS (PhysAddr_align_down target (PageSize_as_usize size)).
Proof.
  intros [H0 Ht]. pose proof pa_bits_u64.
  assert (in_u64 target).
  { split; [done|]. pose proof (Z.pow_le_mono_r 2 PA_MAX_BITS 64). lia. }
  assert (0 ≤ lbits (size_level size) < 64) by (unfold lbits; destruct size; simpl; lia).
  unfold PhysAddr_align_down, PhysAddr_from, PhysAddr_as_usize. rewrite PageSize_pow.
  pose proof (align_down_range target (lbits (size_level size))) as Hr.
  split; [split; [by apply Hr|]; eapply Z.le_lt_trans; [by apply Hr|done]|].
  rewrite align_down_mult by done. apply Z.divide_mul_l.
  apply (pow2_divide 12). unfold lbits. lia.
Qed.

(** Writing a leaf or clearing an entry changes one page. *)
Lemma leaf_write lab st v l p e :
  pt_wf lab st → st_reach st v (S l) p → in_u64 e →
  entry_wf lab l (vbase LEVELS (S l) v) (vidx l v) e →
  e = 0 ∨ l = O ∨ pte_is_huge e = true →
  ∃ st', write_slot (if_phys_to_virt p, vidx l v) e st = (Ok tt, st') ∧
    pt_wf lab st' ∧ st_reach st' v (S l) p ∧ st_ent st' p (vidx l v) = e ∧
    pt_self st' = pt_self st ∧ pt_frames st' = pt_frames st ∧
    (∀ v', vbase LEVELS l v' = vbase LEVELS l v →
      trans st' v' = if decide (e = 0) then None else Some (S l, e)) ∧
    (∀ v', vbase LEVELS l v' ≠ vbase LEVELS l v → trans st' v' = trans st v').
Proof.
  intros W Hr Hu He Hleaf.
  pose proof (reach_label _ _ _ _ _ _ _ (ptw_tree _ _ W) Hr) as Hp.
  pose proof (twf_level _ _ _ _ (ptw_tree _ _ W) _ _ _ Hp).
  destruct (write_slot_wf lab st p l _ (vidx l v) e W Hp (vidx_range _ _) He Hu)
    as (st'&Hw&W'&Hs&Hf&Hset).
  exists st'. split_and!; try done; [rewrite Hs; by eapply reach_set; eauto using ptw_tree
    |by eapply ent_set_here; eauto using vidx_range| |]; intros v' Hv; unfold trans; rewrite Hs.
  - assert (vbase LEVELS l v' = 512 * vbase LEVELS (S l) v + vidx l v) as Hv'
      by (rewrite Hv; by apply vbase_step; lia).
    destruct (twalk_set_same LEVELS (st_root st) lab (st_ent st) (st_ent st') p l
      _ _ e (ptw_tree _ _ W) Hset Hp (vidx_range _ _) v') as [-> He'].
    + eapply reach_same; [done|]. symmetry. by apply (vbase_up LEVELS l); [lia|].
    + done.
    + simpl. rewrite He'. case_decide; [done|]. destruct Hleaf as [?|[->|Hh]]; [done..|].
      rewrite Hh. by case_decide.
  - eapply (twalk_set_other LEVELS (st_root st) lab); try done; eauto using vidx_range, ptw_tree.
    + rewrite <-vbase_step by lia. done.
    + rewrite vbase_top. apply W.
Qed.

(** The two outcomes of [map]. *)
Definition mapped st v target size flags (r : res PagingError unit) st' : Prop :=
  pt_ok st' ∧ st_root st' = st_root st ∧ foreign st' = foreign st ∧
  match r with
  | Ok _ =>
      (∀ v', same_page size v v' →
        trans st v' = None ∧
        trans st' v' = Some (S (size_level size), page_entry target size flags)) ∧
      (∀ v', ¬ same_page size v v' → trans st' v' = trans st v')
  | Err e =>
      (∀ v', trans st' v' = trans st v') ∧
      (e = NoMemory ∨ (e = AlreadyMapped ∧ (size = Size4K → trans st v ≠ None)) ∨
       (e = MappedToHugePage ∧ ∃ l x, (size_level size < l)%nat ∧ trans st v = Some (S l, x)))
  | _ => False
  end.

Lemma page_entry_wf lab target size flags b i :
  target_ok target → flags_ok flags →
  entry_wf lab (size_level size) b i (page_entry target size flags) ∧
  page_entry target size flags ≠ 0 ∧ in_u64 (page_entry target size flags) ∧
  (size_level size = O ∨ pte_is_huge (page_entry target size flags) = true).
Proof.
  intros Ht Hf. pose proof (page_entry_frame target size Ht) as Hfr.
  assert (pte_is_present (page_entry target size flags) = true) as Hpr
    by (by apply pte_page_present).
  assert (size_level size = O ∨ pte_is_huge (page_entry target size flags) = true) as Hh.
  { destruct size; [by left|right..]; by apply pte_page_huge. }
  split_and!; [|by apply present_nonzero|by apply pte_page_u64|done].
  right. destruct size; [by left|right; left..];
    (destruct Hh as [Hh|Hh]; [done|]); simpl; split_and!; lia || done.
Qed.

Lemma map_spec st v target size flags r st' :
  pt_ok st → target_ok target → flags_ok flags →
  map v target size flags st = (r, st') → mapped st v target size flags r st'.
Proof.
  intros Hok Ht Hf H. unfold map in H.
  destruct (get_entry_mut_or_create v size st) as [r1 st1] eqn:Hg.
  pose proof (get_entry_mut_or_create_spec st v size r1 st1 Hok Hg)
    as [[[lab W] Hroot Htr _ Hfo] [->|[[-> Hh]|(p & -> & Hr)]]].
  - erewrite M_bind_err in H by exact Hg. inv_res. split_and!; [by exists lab|done..|auto].
  - erewrite M_bind_err in H by exact Hg. inv_res. split_and!; [by exists lab|done..|auto].
  - erewrite M_bind_ok in H by exact Hg. erewrite M_bind_ok in H by (by eapply read_reach).
    destruct (pte_is_unused _) eqn:Hu; simpl in H.
    + apply pte_unused_zero in Hu. fold (page_entry target size flags) in H.
      destruct (page_entry_wf lab target size flags
        (vbase LEVELS (S (size_level size)) v) (vidx (size_level size) v) Ht Hf)
        as (Hwf&Hne&Hu64&Hleaf).
      destruct (leaf_write lab st1 v _ p _ W Hr Hu64 Hwf ltac:(auto))
        as (st2&Hw&W2&_&_&Hs&Hfr&Hin&Hout).
      rewrite Hw in H. inv_res. unfold mapped, foreign. rewrite Hs, Hfr.
      split_and!; [by exists lab|done..| |].
      * intros v' Hv. rewrite (Hin v' Hv), decide_False by done. split; [|done].
        rewrite <-Htr. apply (found_none st1 v' (size_level size) p).
        -- eapply reach_same; [exact Hr|]. symmetry.
           apply (vbase_up LEVELS (size_level size)); [|done].
           apply reach_top in Hr. lia.
        -- rewrite <-Hu. f_equal. apply reach_top in Hr. by apply (vbase_idx LEVELS); [lia|].
      * intros v' Hv. by rewrite Hout, Htr by done.
    + injection H as <- <-. split_and!; [by exists lab|done..|].
      right; left. split; [done|]. intros ->. rewrite <-Htr, (reach_trans _ _ _ _ Hr). simpl.
      rewrite decide_False; [done|]. simpl in Hu.
      intros H0%pte_unused_zero. congruence.
Qed.

(** *** [unmap] and [update] *)

(** The slot that holds the translation of a mapped address. *)
Lemma found_mapped lab st v l e :
  pt_wf lab st → trans st v = Some (l, e) →
  ∃ l' p, l = S l' ∧ get_entry_mut v st =
      (Ok ((if_phys_to_virt p, vidx l' v), level_size l'), st) ∧
    (l' ≤ 2)%nat ∧ st_reach st v (S l') p ∧ st_ent st p (vidx l' v) = e ∧ e ≠ 0.
Proof.
  intros W Ht. destruct (get_entry_mut_spec lab st v W) as (r&Hg&[[_ Hn]|(l'&p & -> &?&?&Ht')]).
  - congruence.
  - rewrite Ht in Ht'. simpl in Ht'. case_decide; [done|]. injection Ht' as -> ->. eauto 10.
Qed.

(** Addresses in the page of a mapped address have the same translation. *)
Lemma trans_same st v v' l e :
  pt_ok st → trans st v = Some (S l, e) → vbase LEVELS l v' = vbase LEVELS l v →
  trans st v' = Some (S l, e).
Proof.
  intros [lab W] Ht Hv.
  destruct (found_mapped lab st v _ e W Ht) as (l'&p&[= <-]&_&Hl&Hr&He&Hne).
  apply reach_top in Hr as HL.
  assert (st_reach st v' (S l) p) as Hr'.
  { eapply reach_same; [exact Hr|]. symmetry. by apply (vbase_up LEVELS l); [lia|]. }
  rewrite (reach_trans _ _ _ _ Hr) in Ht. rewrite (reach_trans _ _ _ _ Hr').
  simpl in *. rewrite (vbase_idx LEVELS l v' v), He in * by (lia || done).
  rewrite decide_False in * by done. case_decide; [done|].
  destruct (pte_is_huge e); [done|]. apply twalk_level in Ht. lia.
Qed.

Lemma unmap_spec st v :
  pt_ok st →
  match trans st v with
  | None => unmap v st = (Err NotMapped, st)
  | Some (l, e) =>
      ∃ st', unmap v st = (Ok (pte_paddr e, level_size (pred l)), st') ∧
        pt_ok st' ∧ pt_self st' = pt_self st ∧ pt_frames st' = pt_frames st ∧
        (∀ v', vbase LEVELS (pred l) v' = vbase LEVELS (pred l) v → trans st' v' = None) ∧
        (∀ v', vbase LEVELS (pred l) v' ≠ vbase LEVELS (pred l) v → trans st' v' = trans st v')
  end.
Proof.
  intros [lab W]. destruct (trans st v) as [[l e]|] eqn:Ht.
  - destruct (found_mapped lab st v l e W Ht) as (l'&p & -> & Hg&_&Hr&He&Hne).
    unfold unmap. erewrite M_bind_ok by exact Hg. cbv beta iota.
    erewrite M_bind_ok by (by eapply read_reach). rewrite He.
    destruct (pte_is_unused e) eqn:Hu; [by apply pte_unused_zero in Hu|].
    rewrite pte_clear_zero.
    destruct (leaf_write lab st v l' p 0 W Hr) as (st'&Hw&W'&_&_&Hs&Hf&Hin&Hout);
      [done|by left|by left|].
    erewrite M_bind_ok by exact Hw. eexists. split; [done|]. simpl.
    split_and!; [by exists lab|done..|]. intros v' Hv. by rewrite Hout.
  - destruct (get_entry_mut_spec lab st v W) as (r&Hg&[[-> _]|(l&p & -> &_&Hr&Ht')]);
      unfold unmap; [by erewrite M_bind_err by exact Hg|].
    erewrite M_bind_ok by exact Hg. cbv beta iota.
    erewrite M_bind_ok by (by eapply read_reach).
    rewrite Ht in Ht'. simpl in Ht'. case_decide as He; [|done].
    rewrite He. by rewrite (proj2 (pte_unused_zero 0)).
Qed.

(** The entry [update] writes. *)
Definition updated_entry (size : PageSize) (paddr : option PhysAddr) (flags : option Z)
    (e : Z) : Z :=
  let e := match paddr with Some p => pte_set_paddr e p | None => e end in
  match flags with Some f => pte_set_flags e f (PageSize_is_huge size) | None => e end.

(** A leaf entry of level [S l]. *)
Definition leaf_ok (l : nat) (e : Z) : Prop :=
  in_u64 e ∧ pte_is_present e = true ∧ (l = O ∨ pte_is_huge e = true).

Lemma leaf_entry_wf lab l b i e : (l ≤ 2)%nat → leaf_ok l e → entry_wf lab l b i e.
Proof.
  intros Hl (_&Hp&Hh). right. destruct l as [|l]; [by left|right; left].
  destruct Hh as [?|?]; [done|]. split_and!; lia || done.
Qed.

(** The translation of a mapped address is a leaf. *)
Lemma trans_leaf lab st v l p :
  pt_wf lab st → st_reach st v (S l) p → st_ent st p (vidx l v) ≠ 0 →
  trans st v = Some (S l, st_ent st p (vidx l v)) → leaf_ok l (st_ent st p (vidx l v)).
Proof.
  intros W Hr Hne Ht. split; [|].
  { eapply (read_slot_ok lab); eauto using reach_is_table, vidx_range, ptw_frames. }
  pose proof (reach_label _ _ _ _ _ _ _ (ptw_tree _ _ W) Hr) as Hp.
  destruct (twf_entry _ _ _ _ (ptw_tree _ _ W) _ _ _ _ Hp (vidx_range l v))
    as [?|[(?&?)|[(?&?&?)|(?&?&Hh&?)]]]; [done|by auto..|].
  rewrite (reach_trans _ _ _ _ Hr) in Ht. simpl in Ht.
  rewrite decide_False in Ht by done. rewrite decide_False in Ht by lia.
  rewrite Hh in Ht. apply twalk_level in Ht. lia.
Qed.

Lemma set_paddr_leaf l e p :
  leaf_ok l e → frame_ok PA_MAX_BITS p → leaf_ok l (pte_set_paddr e p).
Proof.
  intros (Hu&Hp&Hh) Hf. split; [by apply pte_set_paddr_u64|].
  by rewrite pte_set_paddr_present, pte_set_paddr_huge.
Qed.

Lemma set_flags_leaf l e f :
  leaf_ok l e → (l ≤ 2)%nat → flags_ok f →
  leaf_ok l (pte_set_flags e f (PageSize_is_huge (level_size l))).
Proof.
  intros (Hu&_&_) Hl Hf. split_and!; [by apply pte_set_flags_u64|by apply pte_set_flags_present|].
  destruct l as [|[|[|]]]; [by left|right..|lia]; by apply pte_set_flags_huge.
Qed.

(** While [update] runs: the leaf slot of [v] holds [e], the rest is as in [st0]. *)
Record updating lab st0 v l p st e : Prop := {
  upd_wf : pt_wf lab st;
  upd_reach : st_reach st v (S l) p;
  upd_ent : st_ent st p (vidx l v) = e;
  upd_in v' : vbase LEVELS l v' = vbase LEVELS l v → trans st v' = Some (S l, e);
  upd_out v' : vbase LEVELS l v' ≠ vbase LEVELS l v → trans st v' = trans st0 v';
  upd_self : pt_self st = pt_self st0;
  upd_frames : pt_frames st = pt_frames st0;
}.

Lemma updating_step lab st0 v l p st e (g : Z → Z) :
  updating lab st0 v l p st e → (l ≤ 2)%nat → leaf_ok l (g e) →
  ∃ st', (e ← read_slot (if_phys_to_virt p, vidx l v);
          write_slot (if_phys_to_virt p, vidx l v) (g e)) st = (Ok tt, st') ∧
    updating lab st0 v l p st' (g e).
Proof.
  intros [W Hr He Hin Hout Hs Hf] Hl Hg. erewrite M_bind_ok by (by eapply read_reach).
  rewrite He. destruct (leaf_write lab st v l p (g e) W Hr) as (st'&Hw&W'&Hr'&He'&Hs'&Hf'&Hi&Ho).
  - apply Hg.
  - by apply leaf_entry_wf.
  - right. apply Hg.
  - exists st'. split; [done|]. split; try done; try congruence.
    + intros v' Hv. rewrite Hi by done. rewrite decide_False; [done|].
      apply present_nonzero, Hg.
    + intros v' Hv. by rewrite Ho, Hout.
Qed.

Lemma update_spec st v l e paddr flags :
  pt_ok st → trans st v = Some (S l, e) →
  (∀ p, paddr = Some p → frame_ok PA_MAX_BITS p) → (∀ f, flags = Some f → flags_ok f) →
  ∃ st', update v paddr flags st = (Ok (level_size l), st') ∧
    pt_ok st' ∧ pt_self st' = pt_self st ∧ pt_frames st' = pt_frames st ∧
    (∀ v', vbase LEVELS l v' = vbase LEVELS l v →
      trans st' v' = Some (S l, updated_entry (level_size l) paddr flags e)) ∧
    (∀ v', vbase LEVELS l v' ≠ vbase LEVELS l v → trans st' v' = trans st v').
Proof.
  intros [lab W] Ht Hpa Hfl.
  destruct (found_mapped lab st v _ e W Ht) as (l'&p&[= <-]&Hg&Hl&Hr&He&Hne).
  assert (leaf_ok l e) as Hleaf by (rewrite <-He; apply (trans_leaf lab); congruence).
  unfold update. erewrite M_bind_ok by exact Hg. cbv beta iota.
  assert (updating lab st v l p st e) as H0.
  { split; try done. intros v' Hv. by apply (trans_same st v); [exists lab|..]. }
  assert (∃ st1, match paddr with
    | Some q => e ← read_slot (if_phys_to_virt p, vidx l v);
                write_slot (if_phys_to_virt p, vidx l v) (pte_set_paddr e q)
    | None => mret tt end st = (Ok tt, st1) ∧
    leaf_ok l (match paddr with Some q => pte_set_paddr e q | None => e end) ∧
    updating lab st v l p st1 (match paddr with Some q => pte_set_paddr e q | None => e end))
    as (st1&Hw1&Hleaf1&H1).
  { destruct paddr as [q|]; [|by eauto].
    assert (leaf_ok l (pte_set_paddr e q)) as Hq by (by apply set_paddr_leaf; auto).
    destruct (updating_step _ _ _ _ _ _ _ (λ e, pte_set_paddr e q) H0 Hl Hq) as (st1&?&?); eauto. }
  erewrite M_bind_ok by exact Hw1. unfold updated_entry.
  destruct flags as [f|].
  - edestruct (updating_step _ _ _ _ _ _ _
      (λ e, pte_set_flags e f (PageSize_is_huge (level_size l))) H1 Hl) as (st2&Hw2&H2);
      [by apply set_flags_leaf; auto|].
    erewrite M_bind_ok by exact Hw2. exists st2. destruct H2.
    split_and!; [done|by exists lab|done..].
  - exists st1. destruct H1. split_and!; [done|by exists lab|done..].
Qed.

End pt_proofs.
