(* ===== verification/PageTableProps.v ===== *)
(** * Correctness of page tables

    The properties of [PageTable64], stated on what a caller observes: the
    results of the operations and of [query].  They hold for every entry format,
    architecture and frame allocator that satisfies its interface. *)

From stdpp Require Import base decidable numbers list gmap.
From Stdlib Require Import ZArith Lia.
From S2P Require Import Prelude MemoryAddr PageTableEntry PageTree PageTable.

Local Open Scope Z_scope.

Section props.
Context {MD : PagingMetaData} `{!PagingMetaSpec MD}.
Context {P : GenericPTE} {norm : Z → Z} `{!GenericPTESpec P PA_MAX_BITS norm}.
Context {A : Type} {IF : PagingIf A} `{!PagingIfSpec IF PA_MAX_BITS}.
Implicit Types (st : PTState A).

(** What [query] returns. *)
Definition queried (v : VirtAddr) st : res PagingError (PhysAddr * Z * PageSize) :=
  (query v st).1.

Lemma queried_trans v st : pt_ok st → queried v st = query_result v (trans st v).
Proof. intros Hok. unfold queried. by rewrite query_trans. Qed.

(** The offset of an address in a page. *)
Definition page_off (v : VirtAddr) (size : PageSize) : Z := v mod PageSize_as_usize size.

Lemma size_bits s : 0 ≤ lbits (size_level s) < 64.
Proof. unfold lbits. destruct s; simpl; lia. Qed.

Lemma align_offset_off v s :
  VirtAddr_align_offset v (PageSize_as_usize s) = page_off v s.
Proof.
  unfold VirtAddr_align_offset, VirtAddr_as_usize, page_off. rewrite PageSize_pow.
  apply align_offset_mod, size_bits.
Qed.

(** The entry [map] writes, as [query] reports it. *)
Lemma query_page_entry v target size flags :
  target_ok target → flags_ok flags →
  query_result v (Some (S (size_level size), page_entry target size flags)) =
    Ok (PhysAddr_add (PhysAddr_align_down target (PageSize_as_usize size)) (page_off v size),
        norm flags, size).
Proof.
  intros Ht Hf. simpl. rewrite level_size_level, align_offset_off. unfold page_entry.
  pose proof (page_entry_frame target size Ht).
  by rewrite pte_page_paddr, pte_page_flags.
Qed.

(** Virtual addresses the hardware does not distinguish. *)
Definition alias (v v' : VirtAddr) : Prop := v mod 2 ^ VA_MAX_BITS = v' mod 2 ^ VA_MAX_BITS.

Lemma va_bits_lbits : 2 ^ VA_MAX_BITS = 2 ^ lbits LEVELS.
Proof. by rewrite va_bits_levels. Qed.

Lemma mod_aligned_add v off s m :
  0 < s → (s | m) → 0 < m → (s | v) → 0 ≤ off < s → (v + off) mod m = v mod m + off.
Proof.
  intros Hs [c ->] Hm [q ->] Ho. assert (0 < c) by nia.
  assert ((q * s) mod (c * s) = (q mod c) * s) as -> by (by rewrite Z.mul_mod_distr_r; lia).
  pose proof (Z.mod_pos_bound q c). pose proof (Z.div_mod q c).
  symmetry. apply Z.mod_unique with (q / c); [left|]; nia.
Qed.

(** The page of an aligned address. *)
Lemma same_page_off size v v' :
  (PageSize_as_usize size | v) →
  same_page size v v' ↔ ∃ off, 0 ≤ off < PageSize_as_usize size ∧ alias (v + off) v'.
Proof.
  unfold same_page, vbase, alias. rewrite PageSize_pow, va_bits_lbits. intros Hv.
  set (s := 2 ^ lbits (size_level size)) in *. set (m := 2 ^ lbits LEVELS).
  pose proof (lbits_pos (size_level size)) as Hs. pose proof (lbits_pos LEVELS) as Hm.
  fold s in Hs. fold m in Hm.
  assert ((s | m)) as Hd.
  { apply lbits_divide. destruct levels_3_or_4 as [-> | ->]; destruct size; simpl; lia. }
  assert ((s | v mod m)) as [c Hc].
  { rewrite Z.mod_eq by lia. apply Z.divide_sub_r; [done|]. by apply Z.divide_mul_l. }
  split.
  - intros Heq. exists (v' mod m mod s).
    pose proof (Z.mod_pos_bound (v' mod m) s Hs). split; [done|].
    rewrite mod_aligned_add with (s := s) by done.
    pose proof (Z.div_mod (v' mod m) s). rewrite Hc, Z.div_mul in Heq by lia. lia.
  - intros (off&Ho&Ha). rewrite mod_aligned_add with (s := s) in Ha by done.
    rewrite <-Ha, Hc, Z.div_mul by lia. symmetry. apply Z.div_unique with off; lia.
Qed.

(** ** Regions *)

Lemma is_aligned_size x s :
  is_aligned x (PageSize_as_usize s) = true ↔ (PageSize_as_usize s | x).
Proof. rewrite PageSize_pow. apply is_aligned_divide, size_bits. Qed.

Lemma size_4k s : (PageSize_as_usize Size4K | PageSize_as_usize s) ∧ 4096 ≤ PageSize_as_usize s.
Proof. destruct s; (split; [|done]); [by exists 1|by exists 512|by exists (512 * 512)]. Qed.

(** An iteration uses a page size that fits. *)
Lemma region_page_size_fits v p size h s :
  (4096 | v) → (4096 | p) → (4096 | size) → 0 < size →
  region_page_size v p size h = s →
  (PageSize_as_usize s | v) ∧ (PageSize_as_usize s | p) ∧ PageSize_as_usize s ≤ size.
Proof.
  intros Hv Hp [c Hc] H0. assert (4096 ≤ size) by lia. unfold region_page_size.
  destruct h; [|by intros <-].
  destruct (_ && _ && _)%bool eqn:E1; [|clear E1; destruct (_ && _ && _)%bool eqn:E1];
    intros <-; [..|done]; bool_to_prop;
    (split_and!; [by apply is_aligned_size..|done]).
Qed.

Definition region_mapped st v p size flags (r : res PagingError unit) st' : Prop :=
  pt_ok st' ∧ root_paddr (pt_self st') = root_paddr (pt_self st) ∧ foreign st' = foreign st ∧
  (∀ v' x, trans st v' = Some x → trans st' v' = Some x) ∧
  (∀ v', (∀ off, 0 ≤ off < size → ¬ alias (v + off) v') → trans st' v' = trans st v') ∧
  match r with
  | Ok _ => ∀ off, 0 ≤ off < size → trans st (v + off) = None ∧
      ∃ s, query_result (v + off) (trans st' (v + off)) = Ok (p + off, norm flags, s)
  | Err e => e = NoMemory ∨ e = AlreadyMapped ∨ e = MappedToHugePage
  | _ => False
  end.

(** A region argument in range. *)
Definition region_ok (v : VirtAddr) (p : PhysAddr) (size : Z) : Prop :=
  0 ≤ v ∧ 0 ≤ p ∧ 0 ≤ size ∧ v + size ≤ 2 ^ 64 ∧ p + size ≤ 2 ^ PA_MAX_BITS.

Lemma align_down_aligned p s :
  in_u64 p → (PageSize_as_usize s | p) → PhysAddr_align_down p (PageSize_as_usize s) = p.
Proof.
  intros Hp Hd. unfold PhysAddr_align_down, PhysAddr_from, PhysAddr_as_usize.
  rewrite PageSize_pow in *. rewrite align_down_mod by (done || apply size_bits).
  apply Z.mod_divide in Hd; [lia|]. pose proof (lbits_pos (size_level s)). lia.
Qed.

Lemma page_off_aligned v s off :
  (PageSize_as_usize s | v) → 0 ≤ off < PageSize_as_usize s → page_off (v + off) s = off.
Proof.
  intros [c ->] Ho. unfold page_off. rewrite Z.add_comm, Z.mod_add by lia.
  by apply Z.mod_small.
Qed.

Lemma pa_in_u64 x : 0 ≤ x < 2 ^ PA_MAX_BITS → in_u64 x.
Proof.
  intros [??]. split; [done|]. pose proof pa_bits_u64.
  pose proof (Z.pow_le_mono_r 2 PA_MAX_BITS 64). lia.
Qed.

(** One page of a region. *)
Lemma map_page_region st v p size s flags r st' :
  pt_ok st → flags_ok flags → region_ok v p size → PageSize_as_usize s ≤ size →
  (PageSize_as_usize s | v) → (PageSize_as_usize s | p) →
  map v p s flags st = (r, st') → region_mapped st v p (PageSize_as_usize s) flags r st'.
Proof.
  intros Hok Hf (Hv&Hp&_&Hvs&Hps) Hs Hdv Hdp H.
  assert (target_ok p) as Ht by (pose proof (size_4k s); split; lia).
  destruct (map_spec st v p s flags r st' Hok Ht Hf H) as (Hok'&Hr&Hfo&Hm).
  split_and!; [done..| | |]; destruct r as [|e| |]; try done.
  - destruct Hm as [Hin Hout]. intros v' x Hx.
    destruct (decide (same_page s v v')) as [Hsp|Hsp]; [|by rewrite Hout].
    destruct (Hin v' Hsp) as [? _]. congruence.
  - intros v' x Hx. destruct Hm as [-> _]. done.
  - destruct Hm as [Hin Hout]. intros v' Hv'. apply Hout.
    rewrite same_page_off by done. intros (off&?&?). by eapply Hv'.
  - intros v' _. by destruct Hm as [-> _].
  - destruct Hm as [Hin _]. intros off Ho.
    destruct (Hin (v + off)) as [Hn ->].
    { apply same_page_off; [done|]. by exists off. }
    split; [done|]. exists s. rewrite query_page_entry, align_down_aligned, page_off_aligned by
      (done || by apply pa_in_u64).
    unfold PhysAddr_add. rewrite add64_small; [done|]. apply pa_in_u64. lia.
  - destruct Hm as [_ [->|[[-> _]|[-> _]]]]; auto.
Qed.

(** The iterations of [map_region] compose. *)
Lemma region_mapped_app st v p s size flags r1 st1 r st' :
  0 ≤ s → 0 ≤ size → region_mapped st v p s flags (Ok r1) st1 →
  region_mapped st1 (v + s) (p + s) size flags r st' →
  region_mapped st v p (s + size) flags r st'.
Proof.
  intros Hs Hsz (Hok1&Hr1&Hf1&Hm1&Ho1&Hq1) (Hok&Hr&Hf&Hm&Ho&Hq).
  split_and!; [done|congruence|congruence|by auto| |].
  - intros v' Hv'. rewrite Ho, Ho1; [done|..]; intros off Hoff.
    + apply Hv'. lia.
    + rewrite <-Z.add_assoc. apply Hv'. lia.
  - destruct r; try done. intros off Hoff. destruct (decide (off < s)).
    + destruct (Hq1 off) as [Hn [z Hz]]; [lia|]. split; [done|]. exists z.
      destruct (trans st1 (v + off)) as [x|] eqn:Hx; [|done].
      by rewrite (Hm _ _ Hx).
    + destruct (Hq (off - s)) as [Hn [z Hz]]; [lia|].
      replace (v + s + (off - s)) with (v + off) in * by lia. split.
      * apply eq_None_not_Some. intros [x Hx]. apply Hm1 in Hx. congruence.
      * exists z. by replace (p + s + (off - s)) with (p + off) in Hz by lia.
Qed.

Lemma region_mapped_nil st v p flags : pt_ok st → region_mapped st v p 0 flags (Ok tt) st.
Proof. intros. split_and!; try done. intros off Ho. lia. Qed.

Lemma region_mapped_err st v p s size flags e st' :
  s ≤ size → region_mapped st v p s flags (Err e) st' →
  region_mapped st v p size flags (Err e) st'.
Proof.
  intros Hs (?&?&?&?&Ho&?). split_and!; try done. intros v' Hv'. apply Ho.
  intros off Hoff. apply Hv'. lia.
Qed.

(** The arguments of the next iteration. *)
Lemma region_ok_next v p size s :
  region_ok v p size → 0 < s ≤ size → sub64 size s = size - s ∧
  PhysAddr_add p s = p + s ∧ (size - s = 0 ∨ VirtAddr_add v s = v + s) ∧
  0 ≤ VirtAddr_add v s ∧ VirtAddr_add v s ≤ v + s.
Proof.
  intros (?&?&?&?&?) Hs. pose proof pa_bits_u64.
  pose proof (Z.pow_lt_mono_r 2 PA_MAX_BITS 64). unfold PhysAddr_add, VirtAddr_add.
  rewrite sub64_small, add64_small by (unfold in_u64; lia).
  split_and!; [done..| |apply add64_range|apply Z.mod_le; lia].
  destruct (decide (v + s = 2 ^ 64)); [left; lia|right].
  apply add64_small. unfold in_u64. lia.
Qed.

Lemma region_ok_step v p size s :
  region_ok v p size → 0 < s ≤ size → region_ok (VirtAddr_add v s) (p + s) (size - s).
Proof.
  intros Hreg Hs. destruct (region_ok_next v p size s Hreg Hs) as (_&_&_&?&?).
  destruct Hreg as (?&?&?&?&?). split_and!; lia.
Qed.

Lemma map_region_loop_spec fuel v p size flags h st r st' :
  pt_ok st → flags_ok flags → region_ok v p size →
  (4096 | v) → (4096 | p) → (4096 | size) → size ≤ 4096 * Z.of_nat fuel →
  map_region_loop fuel v p size flags h st = (r, st') →
  region_mapped st v p size flags r st'.
Proof.
  revert v p size st. induction fuel as [|fuel IH];
    intros v p size st Hok Hf Hreg Hv Hp Hsz Hfuel H; simpl in H;
    destruct (Z.ltb_spec 0 size) as [H0|H0]; try (destruct Hreg as (_&_&?&_); lia);
    try (injection H as <- <-; replace size with 0 by (destruct Hreg as (_&_&?&_); lia);
         by apply region_mapped_nil).
  set (s := region_page_size v p size h) in *.
  destruct (region_page_size_fits v p size h s Hv Hp Hsz H0 eq_refl) as (Hsv&Hsp&Hss).
  destruct (map v p s flags st) as [r1 st1] eqn:Hmap. destruct (size_4k s) as [Hs4 Hs].
  pose proof (map_page_region st v p size s flags r1 st1 Hok Hf Hreg Hss Hsv Hsp Hmap) as Hm1.
  destruct r1 as [[]|e| |]; try by destruct Hm1 as (_&_&_&_&_&[]).
  2:{ erewrite M_bind_err in H by exact Hmap. inv_res. by apply region_mapped_err with (PageSize_as_usize s). }
  erewrite M_bind_ok in H by exact Hmap.
  destruct (region_ok_next v p size (PageSize_as_usize s) Hreg) as (Es&Ep&Ev&_); [lia|].
  rewrite Es, Ep in H.
  replace size with (PageSize_as_usize s + (size - PageSize_as_usize s)) by lia.
  eapply region_mapped_app; [lia..|exact Hm1|].
  destruct Ev as [Ev|Ev].
  { rewrite Ev in H |- *. destruct fuel; injection H as <- <-; by apply region_mapped_nil, Hm1. }
  rewrite <-Ev. eapply IH; [apply Hm1|done|apply region_ok_step; [done|lia]|..|exact H].
  all: try lia.
  all: change 4096 with (PageSize_as_usize Size4K) in *.
  - rewrite Ev. by apply Z.divide_add_r.
  - by apply Z.divide_add_r.
  - by apply Z.divide_sub_r.
Qed.

(** Addresses that alias translate alike. *)
Lemma trans_alias st v v' : alias v v' → trans st v = trans st v'.
Proof.
  unfold alias. rewrite va_bits_lbits. intros Ha. unfold trans.
  assert (∀ l p, (l ≤ LEVELS)%nat →
    twalk (ent_of (pt_mem st)) l p v = twalk (ent_of (pt_mem st)) l p v') as H; [|by apply H].
  induction l as [|l IH]; intros p Hl; [done|]. simpl.
  rewrite (vbase_idx LEVELS l v v') by (lia || by unfold vbase; rewrite Ha).
  repeat case_match; try done. apply IH. lia.
Qed.

(** The translations a region keeps when it is unmapped. *)
Definition region_unmapped st v size (r : res PagingError unit) st' : Prop :=
  pt_ok st' ∧ pt_self st' = pt_self st ∧ pt_frames st' = pt_frames st ∧
  match r with
  | Ok _ =>
      (∀ v', trans st v' = None → trans st' v' = None) ∧
      (∀ off, 0 ≤ off < size → trans st' (v + off) = None) ∧
      (∀ v', (∀ off, 0 ≤ off < size → ¬ alias (v + off) v') → trans st' v' = trans st v')
  | Err e =>
      e = NotMapped ∧
      (∀ v', (∀ off, 0 ≤ off < size → ¬ alias (v + off) v') → trans st' v' = trans st v')
  | Panic => True
  | OutOfFuel => False
  end.

(** One page of [unmap_region], when the assertions hold. *)
Lemma unmap_page st v r st' :
  pt_ok st → unmap v st = (r, st') →
  pt_ok st' ∧ pt_self st' = pt_self st ∧ pt_frames st' = pt_frames st ∧
  match r with
  | Ok (_, s) => ∃ e, trans st v = Some (S (size_level s), e) ∧
      (∀ v', same_page s v v' → trans st' v' = None) ∧
      (∀ v', ¬ same_page s v v' → trans st' v' = trans st v')
  | Err e => e = NotMapped ∧ trans st v = None ∧ st' = st
  | _ => False
  end.
Proof.
  intros Hok H. pose proof (unmap_spec st v Hok) as Hs.
  destruct (trans st v) as [[l e]|] eqn:Ht; [|rewrite Hs in H; inv_res; done].
  destruct Hs as (st1&Hu&?&?&?&Hin&Hout). rewrite Hu in H. inv_res. split_and!; [done..|].
  destruct Hok as [lab W]. destruct (found_mapped lab st v l e W Ht) as (l'&p & -> &_&Hl&_).
  simpl in *.
  assert (size_level (level_size l') = l') as Hsl by (destruct l' as [|[|[|]]]; (done || lia)).
  exists e. unfold same_page. rewrite Hsl. done.
Qed.

Lemma unmap_page_region st v s size pa st1 r st' :
  pt_ok st → unmap v st = (Ok (pa, s), st1) → (PageSize_as_usize s | v) →
  PageSize_as_usize s ≤ size →
  region_unmapped st1 (v + PageSize_as_usize s) (size - PageSize_as_usize s) r st' →
  region_unmapped st v size r st'.
Proof.
  intros Hok Hu Hd Hs (Hok'&Hs'&Hf'&Hm). destruct (size_4k s) as [_ H4].
  destruct (unmap_page st v _ _ Hok Hu) as (Hok1&Hs1&Hf1&e&Ht&Hin&Hout).
  assert (∀ v', (∀ off, 0 ≤ off < size → ¬ alias (v + off) v') → trans st1 v' = trans st v')
    as Hout1.
  { intros v' Hv'. apply Hout. rewrite same_page_off by done. intros (off&?&Ha).
    by apply (Hv' off); [lia|]. }
  assert (∀ v', (∀ off, 0 ≤ off < size → ¬ alias (v + off) v') →
    ∀ off, 0 ≤ off < size - PageSize_as_usize s → ¬ alias (v + PageSize_as_usize s + off) v')
    as Hrest.
  { intros v' Hv' off Ho. rewrite <-Z.add_assoc. apply Hv'. lia. }
  split_and!; [done|congruence|congruence|]. destruct r as [[]|e'| |]; try done.
  - destruct Hm as (Hn&Hr&Ho). split_and!.
    + intros v' Hv'. apply Hn. destruct (decide (same_page s v v')); [by apply Hin|].
      by rewrite Hout.
    + intros off Hoff. destruct (decide (off < PageSize_as_usize s)).
      * apply Hn, Hin, same_page_off; [done|]. exists off. split; [lia|done].
      * replace (v + off) with (v + PageSize_as_usize s + (off - PageSize_as_usize s)) by lia.
        apply Hr. lia.
    + intros v' Hv'. rewrite Ho by auto. by apply Hout1.
  - destruct Hm as [-> Ho]. split; [done|]. intros v' Hv'. rewrite Ho by auto. by apply Hout1.
Qed.

Lemma region_unmapped_nil st v : pt_ok st → region_unmapped st v 0 (Ok tt) st.
Proof. intros. split_and!; try done. intros off Ho. lia. Qed.

(** The arguments of the next iteration of [unmap_region]. *)
Lemma unmap_next v size s :
  0 ≤ v → 0 < s ≤ size → v + size ≤ 2 ^ 64 →
  sub64 size s = size - s ∧ (size - s = 0 ∨ VirtAddr_add v s = v + s).
Proof.
  intros. split; [apply sub64_small; unfold in_u64; lia|].
  destruct (decide (v + s = 2 ^ 64)); [left; lia|right]. apply add64_small. unfold in_u64. lia.
Qed.

Lemma unmap_region_loop_spec fuel v size st r st' :
  pt_ok st → 0 ≤ v → 0 ≤ size → v + size ≤ 2 ^ 64 → size < 4096 * Z.of_nat fuel ∨ size = 0 →
  unmap_region_loop fuel v size st = (r, st') → region_unmapped st v size r st'.
Proof.
  revert v size st. induction fuel as [|fuel IH];
    intros v size st Hok Hv Hsz Hvs Hfuel H; simpl in H;
    destruct (Z.ltb_spec 0 size) as [H0|H0]; try lia;
    try (injection H as <- <-; replace size with 0 by lia; by apply region_unmapped_nil).
  destruct (unmap v st) as [r1 st1] eqn:Hu.
  pose proof (unmap_page st v r1 st1 Hok Hu) as Hp.
  destruct r1 as [[pa s]|e| |]; try by destruct Hp as (_&_&_&[]).
  2:{ erewrite M_bind_err in H by exact Hu. inv_res. destruct Hp as (?&?&?&?&?&?); subst.
      split_and!; try done. }
  erewrite M_bind_ok in H by exact Hu. cbv beta iota in H.
  destruct (VirtAddr_is_aligned v (PageSize_as_usize s)) eqn:Hal; simpl in H;
    [|erewrite M_bind_panic in H by done; inv_res; split_and!; by try apply Hp].
  erewrite M_bind_ok in H by done.
  destruct (Z.leb_spec (PageSize_as_usize s) size) as [Hle|Hle]; simpl in H;
    [|erewrite M_bind_panic in H by done; inv_res; split_and!; by try apply Hp].
  erewrite M_bind_ok in H by done. destruct (size_4k s) as [_ H4].
  destruct (unmap_next v size (PageSize_as_usize s)) as [Es Ev]; [lia..|]. rewrite Es in H.
  eapply unmap_page_region; [done|exact Hu|by apply is_aligned_size|done|].
  destruct Ev as [Ev|Ev].
  - rewrite Ev in H |- *. destruct fuel; injection H as <- <-; apply region_unmapped_nil, Hp.
  - rewrite <-Ev. eapply IH; [apply Hp|..|exact H]; rewrite ?Ev; lia.
Qed.

(** ** Unmapping what was mapped *)

(** The arguments of an iteration of [map_region]. *)
Definition region_args (v : VirtAddr) (p : PhysAddr) (size : Z) : Prop :=
  region_ok v p size ∧ (4096 | v) ∧ (4096 | p) ∧ (4096 | size).

Lemma region_args_step v p size h s :
  region_args v p size → 0 < size → region_page_size v p size h = s →
  (PageSize_as_usize s | v) ∧ 4096 ≤ PageSize_as_usize s ≤ size ∧
  sub64 size (PageSize_as_usize s) = size - PageSize_as_usize s ∧
  PhysAddr_add p (PageSize_as_usize s) = p + PageSize_as_usize s ∧
  (size - PageSize_as_usize s = 0 ∨
   VirtAddr_add v (PageSize_as_usize s) = v + PageSize_as_usize s ∧
   region_args (v + PageSize_as_usize s) (p + PageSize_as_usize s)
     (size - PageSize_as_usize s)).
Proof.
  intros (Hreg&Hv&Hp&Hsz) H0 Hs.
  destruct (region_page_size_fits v p size h s Hv Hp Hsz H0 Hs) as (Hsv&Hsp&Hss).
  destruct (size_4k s) as [Hs4 H4].
  destruct (region_ok_next v p size (PageSize_as_usize s) Hreg) as (Es&Ep&Ev&_); [lia|].
  split_and!; [done..|]. destruct Ev as [Ev|Ev]; [by left|right]. split; [done|].
  split; [rewrite <-Ev; apply region_ok_step; [done|lia]|].
  change 4096 with (PageSize_as_usize Size4K) in *.
  split_and!; [by apply Z.divide_add_r..|by apply Z.divide_sub_r].
Qed.

(** The pages [map_region] chooses are present. *)
Fixpoint region_pages st (fuel : nat) (v : VirtAddr) (p : PhysAddr) (size : Z) (h : bool) : Prop :=
  0 < size →
  match fuel with
  | O => False
  | S fuel =>
      let s := region_page_size v p size h in
      (∃ e, trans st v = Some (S (size_level s), e)) ∧
      region_pages st fuel (v + PageSize_as_usize s) (p + PageSize_as_usize s)
        (size - PageSize_as_usize s) h
  end.

Lemma region_pages_nil st fuel v p size h : size ≤ 0 → region_pages st fuel v p size h.
Proof. destruct fuel; simpl; lia. Qed.

Lemma region_pages_mono st st' fuel v p size h :
  region_args v p size →
  (∀ off x, 0 ≤ off < size → trans st (v + off) = Some x → trans st' (v + off) = Some x) →
  region_pages st fuel v p size h → region_pages st' fuel v p size h.
Proof.
  revert v p size. induction fuel as [|fuel IH]; intros v p size Hargs Hm Hp H0;
    specialize (Hp H0); [done|]. simpl.
  destruct (region_args_step v p size h _ Hargs H0 eq_refl) as (_&Hs&_&_&Hn).
  destruct Hp as [[e He] Hp]. split.
  - exists e. specialize (Hm 0). rewrite Z.add_0_r in Hm. apply Hm; [lia|done].
  - destruct Hn as [Hn|[_ Hn]]; [apply region_pages_nil; lia|].
    apply IH; [done| |done]. intros off x Ho Hx. rewrite <-Z.add_assoc in *.
    apply Hm; [lia|done].
Qed.

Lemma map_region_pages fuel v p size flags h st st' :
  pt_ok st → flags_ok flags → region_args v p size → size ≤ 4096 * Z.of_nat fuel →
  map_region_loop fuel v p size flags h st = (Ok tt, st') →
  region_pages st' fuel v p size h.
Proof.
  revert v p size st. induction fuel as [|fuel IH];
    intros v p size st Hok Hf Hargs Hfuel H; simpl; intros H0; simpl in H;
    (destruct (Z.ltb_spec 0 size) as [_|?]; [|lia]); [done|].
  apply M_bind_ok_inv in H as (u&st1&Hmap&H).
  set (s := region_page_size v p size h) in *.
  destruct (region_args_step v p size h s Hargs H0 eq_refl) as (Hsv&Hs&Es&Ep&Hn).
  rewrite Es, Ep in H. destruct Hargs as (Hreg&_&Hp4&_).
  assert (target_ok p) as Ht by (destruct Hreg as (?&?&?&?&?); split; lia).
  destruct (map_spec st v p s flags _ _ Hok Ht Hf Hmap) as (Hok1&_&_&Hin&_). clear Ht.
  destruct (Hin v) as [_ Ht]; [done|].
  destruct Hn as [Hn|[Ev Hn]].
  - rewrite Hn in H. split; [|apply region_pages_nil; lia].
    destruct fuel; injection H as <-; eauto.
  - rewrite Ev in H. split; [|by eapply (IH _ _ _ st1); [..|exact H]; lia || done].
    destruct Hn as (?&?&?&?).
    eapply (map_region_loop_spec fuel) in H as (_&_&_&Hm&_); [|done..|lia].
    exists (page_entry p s flags). by apply Hm.
Qed.

Lemma in_region_dec v v' size :
  size ≤ 2 ^ VA_MAX_BITS →
  (∃ off, 0 ≤ off < size ∧ alias (v + off) v') ∨ (∀ off, 0 ≤ off < size → ¬ alias (v + off) v').
Proof.
  unfold alias. rewrite va_bits_lbits. pose proof (lbits_pos LEVELS) as Hm. intros Hs.
  pose proof (Z.mod_pos_bound (v' - v) _ Hm).
  destruct (decide ((v' - v) mod 2 ^ lbits LEVELS < size)) as [Hd|Hd]; [left|right].
  - eexists. split; [split; [|exact Hd]; lia|]. rewrite Z.add_mod_idemp_r by lia. f_equal. lia.
  - intros off Ho Ha. apply Hd. replace (v' - v) with (v' - (v + off) + off) by lia.
    rewrite Z.add_mod, (Zminus_mod v'), Ha, Z.sub_diag, Z.mod_0_l by lia.
    rewrite Z.add_0_l, Z.mod_mod by lia. rewrite Z.mod_small by lia. lia.
Qed.

(** Within an address space, later pages of a region are not in its first page. *)
Lemma region_no_wrap s v size off :
  (PageSize_as_usize s | v) → size ≤ 2 ^ VA_MAX_BITS →
  PageSize_as_usize s ≤ off < size → ¬ same_page s v (v + off).
Proof.
  intros Hd Hva Ho. rewrite same_page_off by done. intros (o&Hoo&Ha). unfold alias in Ha.
  assert ((off - o) mod 2 ^ VA_MAX_BITS = 0) as Hz.
  { replace (off - o) with ((v + off) - (v + o)) by lia. rewrite Zminus_mod, Ha.
    by rewrite Z.sub_diag. }
  rewrite Z.mod_small in Hz by lia. lia.
Qed.

Lemma unmap_region_pages fuel fuel' v p size h st :
  pt_ok st → region_args v p size → size ≤ 2 ^ VA_MAX_BITS → size ≤ 4096 * Z.of_nat fuel' →
  region_pages st fuel v p size h →
  ∃ st', unmap_region_loop fuel' v size st = (Ok tt, st').
Proof.
  revert fuel v p size st. induction fuel' as [|fuel' IH];
    intros fuel v p size st Hok Hargs Hva Hfuel Hpages; simpl;
    destruct (Z.ltb_spec 0 size) as [H0|H0]; try (by eauto); [lia|].
  destruct fuel as [|fuel]; specialize (Hpages H0); [done|].
  destruct Hpages as [[e He] Hpages]. set (s := region_page_size v p size h) in *.
  destruct (region_args_step v p size h s Hargs H0 eq_refl) as (Hsv&Hs&Es&Ep&Hn).
  destruct (unmap v st) as [r1 st1] eqn:Hu.
  destruct (unmap_page st v r1 st1 Hok Hu) as (Hok1&_&_&Hr).
  destruct r1 as [[pa s']|e'| |]; try done; [|destruct Hr as (_&?&_); congruence].
  destruct Hr as (e'&He'&_&Hout). rewrite He in He'. injection He' as Hs' _.
  assert (s' = s) as -> by (by destruct s', s).
  erewrite M_bind_ok by exact Hu. cbv beta iota.
  assert (VirtAddr_is_aligned v (PageSize_as_usize s) = true) as ->
    by (by apply is_aligned_size).
  erewrite M_bind_ok by done.
  rewrite (proj2 (Z.leb_le _ _)) by lia. erewrite M_bind_ok by done. rewrite Es.
  destruct Hn as [Hn|[Ev Hn]]; [rewrite Hn; destruct fuel'; eexists; reflexivity|].
  rewrite Ev. eapply IH; [done|exact Hn|lia|lia|].
  eapply region_pages_mono; [exact Hn| |exact Hpages].
  intros off x Ho Hx. rewrite <-Z.add_assoc in *. rewrite Hout; [done|].
  apply region_no_wrap with size; [done..|lia].
Qed.

(** ** Creation and destruction *)

Lemma try_new_spec mem a r st :
  try_new mem a = (r, st) →
  match r with
  | Ok _ => pt_ok st ∧ (∀ v, trans st v = None) ∧ foreign st = if_owned a
  | Err e => e = NoMemory ∧ if_owned (pt_frames st) = if_owned a
  | _ => False
  end.
Proof.
  unfold try_new, alloc_table, mbind, M_bind, modify. simpl.
  destruct (if_alloc_frame a) as [[q|] a'] eqn:Ha; intros H; inv_res;
    [|by rewrite (if_alloc_none _ _ Ha)].
  destruct (if_alloc_some _ _ _ Ha) as (Hfr&Hq&Ho).
  assert (∀ j, 0 ≤ j < 512 →
    ent_of (<[if_phys_to_virt q := zero_table]> mem) q j = 0) as Hz.
  { intros j Hj. unfold ent_of. rewrite lookup_insert_eq. simpl. unfold zero_table.
    by rewrite lookup_replicate_2 by lia. }
  cbv beta iota. split_and!.
  - exists {[ q := (LEVELS, 0) ]}. split; simpl.
    + split; [by rewrite lookup_singleton_eq|..].
      * intros p l b [<- [= <- <-]]%lookup_singleton_Some.
        destruct levels_3_or_4 as [-> | ->]; lia.
      * intros p l b i [<- _]%lookup_singleton_Some Hi. left. by apply Hz.
    + rewrite dom_singleton_L. set_solver.
    + apply NoDup_singleton.
    + intros p [y [<- _]%lookup_singleton_Some]. simpl. rewrite Ho.
      split_and!; [done|set_solver|]. eexists. rewrite lookup_insert_eq. split; [done|].
      unfold zero_table. rewrite length_replicate. split; [done|]. by apply Forall_replicate.
  - intros v. unfold trans. simpl. destruct levels_3_or_4 as [-> | ->]; simpl;
      rewrite Hz by apply vidx_range; by rewrite decide_True.
  - unfold foreign. simpl. rewrite Ho. set_solver.
Qed.

Lemma drop_frames (l : list Z) a :
  NoDup l → list_to_set l ⊆ if_owned a →
  if_owned (fold_left (λ a frame, if_dealloc_frame frame a) l a) = if_owned a ∖ list_to_set l.
Proof.
  revert a. induction l as [|p l IH]; intros a Hnd Hsub; simpl; [set_solver|].
  apply NoDup_cons in Hnd as [Hp Hnd]. simpl in Hsub.
  rewrite IH; [|done|rewrite if_dealloc_owned; set_solver].
  rewrite if_dealloc_owned by set_solver. set_solver.
Qed.

Lemma drop_spec st : pt_ok st → if_owned (drop_table st) = foreign st.
Proof.
  intros [lab W]. unfold drop_table, foreign. apply drop_frames; [apply W|].
  rewrite (ptw_tables _ _ W). intros p [x Hx]%elem_of_dom. by apply (ptw_frames _ _ W).
Qed.

(** ** Life of a page table *)

(** The states a page table can be in after [try_new] with allocator state [a0]
    and any sequence of operations with valid arguments, failing ones included: targets
    in the physical address space, flags with [READ], regions that do not wrap around,
    and [update] of addresses that are mapped. *)
Inductive reachable (a0 : A) : PTState A → Prop :=
| reachable_new mem st : try_new mem a0 = (Ok tt, st) → reachable a0 st
| reachable_map st v target size flags r st' :
    reachable a0 st → target_ok target → flags_ok flags →
    map v target size flags st = (r, st') → reachable a0 st'
| reachable_unmap st v r st' :
    reachable a0 st → unmap v st = (r, st') → reachable a0 st'
| reachable_update st v paddr flags r st' :
    reachable a0 st → queried v st ≠ Err NotMapped →
    (∀ p, paddr = Some p → frame_ok PA_MAX_BITS p) → (∀ f, flags = Some f → flags_ok f) →
    update v paddr flags st = (r, st') → reachable a0 st'
| reachable_map_region st v p size flags h r st' :
    reachable a0 st → region_ok v p size → flags_ok flags →
    map_region v p size flags h st = (r, st') → reachable a0 st'
| reachable_unmap_region st v size r st' :
    reachable a0 st → 0 ≤ v → 0 ≤ size → v + size ≤ 2 ^ 64 →
    unmap_region v size st = (r, st') → reachable a0 st'.

Lemma region_fuel_enough size : 0 ≤ size →
  size < 4096 * Z.of_nat (region_fuel size) ∧ size ≤ 4096 * Z.of_nat (region_fuel size).
Proof.
  intros. unfold region_fuel, PAGE_SIZE_4K. pose proof (Z.div_mod size 0x1000).
  pose proof (Z.mod_pos_bound size 0x1000). pose proof (Z.div_pos size 0x1000). lia.
Qed.

(** The arguments [map_region] accepts. *)
Definition region_aligned (v p size : Z) : bool :=
  (is_aligned_4k v && is_aligned_4k p && is_aligned_4k size)%bool.

Lemma map_region_unfold v p size flags h st :
  map_region v p size flags h st =
  if region_aligned v p size
  then map_region_loop (region_fuel size) v p size flags h st else (Err NotAligned, st).
Proof.
  unfold map_region, region_aligned, VirtAddr_is_aligned, PhysAddr_is_aligned, is_aligned_4k.
  change PAGE_SIZE_4K with (PageSize_as_usize Size4K).
  unfold VirtAddr_as_usize, PhysAddr_as_usize.
  by do 3 destruct (is_aligned _ _).
Qed.

Lemma region_aligned_args v p size :
  region_ok v p size → region_aligned v p size = true → region_args v p size.
Proof.
  intros Hr Ha. unfold region_aligned, is_aligned_4k in Ha. bool_to_prop.
  split_and!; [done|..]; by apply (is_aligned_size _ Size4K).
Qed.

Lemma map_region_spec v p size flags h st r st' :
  pt_ok st → flags_ok flags → region_ok v p size → region_aligned v p size = true →
  map_region v p size flags h st = (r, st') → region_mapped st v p size flags r st'.
Proof.
  intros Hok Hf Hr Ha H. rewrite map_region_unfold, Ha in H.
  destruct (region_aligned_args _ _ _ Hr Ha) as (_&?&?&?).
  eapply map_region_loop_spec; try done. apply region_fuel_enough. apply Hr.
Qed.

Lemma unmap_region_spec v size st r st' :
  pt_ok st → 0 ≤ v → 0 ≤ size → v + size ≤ 2 ^ 64 →
  unmap_region v size st = (r, st') → region_unmapped st v size r st'.
Proof.
  intros Hok Hv Hs Hvs H. eapply unmap_region_loop_spec; try done.
  left. by apply region_fuel_enough.
Qed.

Lemma reachable_ok a0 st : reachable a0 st → pt_ok st ∧ foreign st = if_owned a0.
Proof.
  induction 1 as [mem st H|st v t s f r st' Hr [Hok Hf] Ht Hfl H|st v r st' Hr [Hok Hf] H
    |st v pa fl r st' Hr [Hok Hf] Hq Hpa Hfl H|st v p sz f h r st' Hr [Hok Hf] Hreg Hfl H
    |st v sz r st' Hr [Hok Hf] Hv Hsz Hvs H].
  - apply try_new_spec in H as (?&_&?). done.
  - apply map_spec in H as (?&?&?&_); [|done..]. split; [done|congruence].
  - apply unmap_page in H as (?&Hs&Hfr&_); [|done]. unfold foreign in *.
    by rewrite Hs, Hfr.
  - rewrite queried_trans in Hq by done.
    destruct (trans st v) as [[l e]|] eqn:Ht; [|done].
    destruct Hok as [lab W]. destruct (found_mapped lab st v l e W Ht) as (l'&_& -> &_).
    destruct (update_spec st v l' e pa fl) as (st1&Hu&?&Hs&Hfr&_); [by exists lab|done..|].
    rewrite Hu in H. inv_res. unfold foreign in *. by rewrite Hs, Hfr.
  - destruct (region_aligned v p sz) eqn:Ha.
    + apply map_region_spec in H as (?&?&?&_); [|done..]. split; [done|congruence].
    + rewrite map_region_unfold, Ha in H. inv_res. done.
  - apply unmap_region_spec in H as (?&Hs&Hfr&_); [|done..]. unfold foreign in *.
    by rewrite Hs, Hfr.
Qed.

(** *** Frames, whatever the arguments *)

(** The states after any sequence of operations with any arguments. *)
Inductive reachable_any (a0 : A) : PTState A → Prop :=
| any_new mem st : try_new mem a0 = (Ok tt, st) → reachable_any a0 st
| any_map st v target size flags : reachable_any a0 st → reachable_any a0 (map v target size flags st).2
| any_unmap st v : reachable_any a0 st → reachable_any a0 (unmap v st).2
| any_update st v paddr flags : reachable_any a0 st → reachable_any a0 (update v paddr flags st).2
| any_map_region st v p size flags h : reachable_any a0 st → reachable_any a0 (map_region v p size flags h st).2
| any_unmap_region st v size : reachable_any a0 st → reachable_any a0 (unmap_region v size st).2.

(** The frames of the table are taken from the allocator, each once; the rest is [F]. *)
Definition frames_inv (F : gset Z) st : Prop :=
  NoDup (intrm_tables (pt_self st)) ∧ list_to_set (intrm_tables (pt_self st)) ⊆ if_owned (pt_frames st) ∧ foreign st = F.
Definition preserves {B} (m : M (PTState A) PagingError B) : Prop := ∀ F st, frames_inv F st → frames_inv F (m st).2.

Lemma preserves_same {B} (m : M (PTState A) PagingError B) :
  (∀ st, pt_self (m st).2 = pt_self st ∧ pt_frames (m st).2 = pt_frames st) → preserves m.
Proof. intros Hm F st. unfold frames_inv, foreign. by destruct (Hm st) as [-> ->]. Qed.
Lemma preserves_bind {B C} (m : M (PTState A) PagingError B) (k : B → M (PTState A) PagingError C) :
  preserves m → (∀ x, preserves (k x)) → preserves (m ≫= k).
Proof.
  intros Hm Hk F st Hst. specialize (Hm F st Hst). unfold mbind, M_bind. destruct (m st) as [[x|e| |] st']; try done. by apply Hk.
Qed.
Lemma preserves_ret {B} (x : B) : preserves (mret x).
Proof. by apply preserves_same. Qed.
Lemma preserves_throw {B} e : preserves (B := B) (throw e).
Proof. by apply preserves_same. Qed.
Lemma preserves_panic {B} : preserves (B := B) panic.
Proof. by apply preserves_same. Qed.
Lemma preserves_fuel {B} : preserves (B := B) out_of_fuel.
Proof. by apply preserves_same. Qed.
Lemma preserves_assert b : preserves (assert_ b).
Proof. destruct b; [apply preserves_ret|apply preserves_panic]. Qed.
Lemma preserves_root : preserves get_root.
Proof. by apply preserves_same. Qed.
Lemma preserves_read s : preserves (read_slot s).
Proof. apply preserves_same. intros st. unfold read_slot. by destruct (_ ≫= _). Qed.
Lemma preserves_write s e : preserves (write_slot s e).
Proof. apply preserves_same. intros st. unfold write_slot. by destruct (pt_mem st !! s.1). Qed.
Lemma preserves_next e : preserves (next_table_mut e).
Proof. unfold next_table_mut. repeat case_match; auto using preserves_throw, preserves_ret. Qed.
Lemma alloc_push {B} (k : PhysAddr → M (PTState A) PagingError B) :
  (∀ p, preserves (k p)) → preserves (p ← alloc_table; _ ← push_intrm p; k p).
Proof.
  intros Hk F st (Hnd&Hsub&Hf). unfold mbind, M_bind, alloc_table, push_intrm, modify, foreign in *.
  destruct (if_alloc_frame (pt_frames st)) as [[p|] a] eqn:Ha.
  - apply if_alloc_some in Ha as (_&Hp&Ho). apply Hk. unfold frames_inv, foreign. cbn. rewrite Ho, list_to_set_app_L.
    split; [apply NoDup_app; split_and!; [done| |apply NoDup_singleton]; set_solver|]. split; [set_solver|].
    rewrite <-Hf. cbn. set_solver.
  - apply if_alloc_none in Ha. unfold frames_inv, foreign. cbn. by rewrite Ha.
Qed.
Lemma preserves_create s : preserves (next_table_mut_or_create s).
Proof.
  unfold next_table_mut_or_create. apply preserves_bind; [apply preserves_read|]. intros e. case_match; [|apply preserves_next].
  apply alloc_push. intros p. apply preserves_bind; [apply preserves_write|]. intros. apply preserves_ret.
Qed.
Create HintDb frames.
#[local] Hint Resolve preserves_ret preserves_throw preserves_panic preserves_fuel preserves_assert preserves_root preserves_read
  preserves_write preserves_next preserves_create : frames.
Ltac frames := repeat (intros; cbv zeta; first [solve [auto with frames] | simple apply preserves_bind | case_match]).
Lemma preserves_entry v : preserves (get_entry_mut v).
Proof. unfold get_entry_mut. frames. Qed.
Lemma preserves_entry_create v size : preserves (get_entry_mut_or_create v size).
Proof. unfold get_entry_mut_or_create. frames. Qed.
#[local] Hint Resolve preserves_entry preserves_entry_create : frames.
Lemma preserves_map v target size flags : preserves (map v target size flags).
Proof. unfold map. frames. Qed.
Lemma preserves_unmap v : preserves (unmap v).
Proof. unfold unmap. frames. Qed.
Lemma preserves_update v paddr flags : preserves (update v paddr flags).
Proof. unfold update. frames. Qed.
#[local] Hint Resolve preserves_map preserves_unmap : frames.
Lemma preserves_map_region v p size flags h : preserves (map_region v p size flags h).
Proof.
  assert (∀ fuel v p size, preserves (map_region_loop fuel v p size flags h)) as Hl.
  { induction fuel as [|fuel IH]; intros; cbn [map_region_loop]; frames. }
  unfold map_region. frames.
Qed.
Lemma preserves_unmap_region v size : preserves (unmap_region v size).
Proof. unfold unmap_region. generalize (region_fuel size). intros fuel. revert v size. induction fuel as [|fuel IH]; intros; cbn [unmap_region_loop]; frames. Qed.

Lemma reachable_any_frames a0 st : reachable_any a0 st → frames_inv (if_owned a0) st.
Proof.
  induction 1.
  - apply try_new_spec in H as ([lab W]&_&Hf). split; [apply W|]. split; [|done].
    rewrite (ptw_tables _ _ W). intros p [x Hx]%elem_of_dom. by apply (ptw_frames _ _ W).
  - by apply preserves_map.
  - by apply preserves_unmap.
  - by apply preserves_update.
  - by apply preserves_map_region.
  - by apply preserves_unmap_region.
Qed.
Lemma drop_frames_inv F st : frames_inv F st → if_owned (drop_table st) = F.
Proof. intros (Hnd&Hsub&<-). unfold drop_table, foreign. by apply drop_frames. Qed.

End props.

(** ** A concrete system

    Sv39 tables over a bump allocator of frames that never reuses one, with
    physical memory mapped at a fixed offset. *)

Record Bump : Type := { bump_next : Z; bump_owned : gset Z }.

Definition bump_alloc (a : Bump) : option PhysAddr * Bump :=
  let p := 4096 * bump_next a in
  if decide (0 ≤ p < 2 ^ 40 ∧ p ∉ bump_owned a) then
    (Some p, {| bump_next := bump_next a + 1; bump_owned := {[p]} ∪ bump_owned a |})
  else (None, a).

Definition bump_if : PagingIf Bump := {|
  if_alloc_frame := bump_alloc;
  if_dealloc_frame p a :=
    {| bump_next := bump_next a; bump_owned := bump_owned a ∖ {[p]} |};
  if_phys_to_virt p := p + 0xffff_ffc0_0000_0000;
|}.

#[export] Instance bump_spec : PagingIfSpec bump_if 56.
Proof.
  refine {| if_owned := bump_owned |}.
  - intros a p a' H. simpl in H. unfold bump_alloc in H. case_decide as Hd; [|done].
    injection H as <- <-. destruct Hd as [[??] ?].
    split_and!; [split; [split; [done|]|]|done|done].
    + eapply Z.lt_trans; [done|by apply Z.pow_lt_mono_r].
    + by exists (bump_next a); rewrite Z.mul_comm.
  - intros a a' H. simpl in H. unfold bump_alloc in H. by case_decide; inv_res.
  - done.
  - simpl. lia.
Defined.

Definition sv39_new : res PagingError unit * PTState Bump :=
  @try_new Bump bump_if ∅ {| bump_next := 1; bump_owned := ∅ |}.

Definition rv : GenericPTE := @Rv64PTE std_bitflags.

Definition sv39_map v p s f : M (PTState Bump) PagingError unit :=
  @map Sv39MetaData rv Bump bump_if v p s f.

Lemma sv39_new_ok : sv39_new = (Ok tt, sv39_new.2).
Proof. reflexivity. Qed.

Lemma sv39_ok : @pt_ok Sv39MetaData rv Bump bump_if bump_spec sv39_new.2.
Proof. by apply (try_new_spec (MD := Sv39MetaData) (P := rv) _ _ _ _ sv39_new_ok). Qed.

(** ** Properties *)

Section claims.
Context {MD : PagingMetaData} `{!PagingMetaSpec MD}.
Context {P : GenericPTE} {norm : Z → Z} `{!GenericPTESpec P PA_MAX_BITS norm}.
Context {A : Type} {IF : PagingIf A} `{!PagingIfSpec IF PA_MAX_BITS}.
Implicit Types (st : PTState A).

(** C1: a successful [map] makes exactly the addresses of the virtual page
    translate to the target frame, at their offset, with the flags the format
    stores and the requested page size; none of them was mapped before; every
    other address keeps its translation; the invariant is kept. *)
Theorem map_query st v target size flags st' :
  pt_ok st → target_ok target → flags_ok flags →
  map v target size flags st = (Ok tt, st') →
  pt_ok st' ∧
  (∀ v', same_page size v v' →
    queried v' st = Err NotMapped ∧
    queried v' st' =
      Ok (PhysAddr_add (PhysAddr_align_down target (PageSize_as_usize size)) (page_off v' size),
          norm flags, size)) ∧
  (∀ v', ¬ same_page size v v' → queried v' st' = queried v' st).
Proof.
  intros Hok Ht Hf H. apply map_spec in H as (Hok'&_&_&Hin&Hout); [|done..].
  split_and!; [done|..]; intros v' Hv; rewrite !queried_trans by done.
  - destruct (Hin v' Hv) as [-> ->]. split; [done|]. by apply query_page_entry.
  - by rewrite Hout.
Qed.

(** [map] never panics; when it fails it keeps the invariant and every
    translation, and it reports [MappedToHugePage] only if a larger page
    already covers the address. *)
Theorem map_error st v target size flags r st' :
  pt_ok st → target_ok target → flags_ok flags →
  map v target size flags st = (r, st') → r ≠ Ok tt →
  pt_ok st' ∧ (∀ v', queried v' st' = queried v' st) ∧
  (r = Err NoMemory ∨ r = Err AlreadyMapped ∨
   (r = Err MappedToHugePage ∧ ∃ pa f s,
     queried v st = Ok (pa, f, s) ∧ PageSize_as_usize size < PageSize_as_usize s)).
Proof.
  intros Hok Ht Hf H Hr. apply map_spec in H as (Hok'&_&_&Hm); [|done..].
  destruct r as [[]|e| |]; [done| |done..]. destruct Hm as [Hq Hm]. split_and!; [done| |].
  - intros v'. by rewrite !queried_trans, Hq.
  - destruct Hm as [->|[[-> _]|(-> & l & x & Hl & Hx)]]; [by auto..|].
    right; right. split; [done|]. rewrite queried_trans, Hx by done.
    do 3 eexists. split; [done|]. destruct Hok as [lab W].
    destruct (found_mapped lab st v _ _ W Hx) as (l'&_&[= <-]&_&Hl'&_).
    rewrite !PageSize_pow. apply Z.pow_lt_mono_r; [done|unfold lbits; lia|]. unfold lbits.
    destruct l as [|[|[|]]]; simpl; lia.
Qed.

(** mapping a 4K page at an unmapped address succeeds unless a table is
    needed and no frame is left. *)
Theorem map_4k_succeeds st v target flags :
  pt_ok st → target_ok target → flags_ok flags → queried v st = Err NotMapped →
  ∃ st', map v target Size4K flags st = (Ok tt, st') ∨
    map v target Size4K flags st = (Err NoMemory, st').
Proof.
  intros Hok Ht Hf Hq. rewrite queried_trans in Hq by done.
  destruct (map v target Size4K flags st) as [r st'] eqn:H. exists st'.
  apply map_spec in H as (_&_&_&Hm); [|done..].
  destruct (trans st v) as [[l e]|] eqn:Hn; [done|].
  destruct r as [[]|e| |]; [by left| |done..]. right.
  destruct Hm as [_ [->|[[_ Hx]|(_&l&x&_&Hx)]]]; [done|by destruct Hx|congruence].
Qed.

(** [unmap] of a mapped address returns the frame and page size of its
    translation, unmaps exactly the addresses of that page and keeps the
    invariant; of an unmapped address it returns [NotMapped] and changes
    nothing. *)
Theorem unmap_query st v r st' :
  pt_ok st → unmap v st = (r, st') →
  pt_ok st' ∧
  match r with
  | Ok (pa, s) =>
      (∃ f, queried v st = Ok (PhysAddr_add pa (page_off v s), f, s)) ∧
      (∀ v', same_page s v v' → queried v' st' = Err NotMapped) ∧
      (∀ v', ¬ same_page s v v' → queried v' st' = queried v' st)
  | Err e => e = NotMapped ∧ queried v st = Err NotMapped ∧ st' = st
  | _ => False
  end.
Proof.
  intros Hok H. pose proof H as Hp. apply unmap_page in Hp as (Hok'&_&_&Hr); [|done].
  split; [done|]. destruct r as [[pa s]|e| |]; [|by rewrite queried_trans by done;
    destruct Hr as (?&->&?)|done..].
  destruct Hr as (e&He&Hin&Hout). split_and!.
  - pose proof (unmap_spec st v Hok) as Hu. rewrite He in Hu.
    destruct Hu as (st1&Hu&_). rewrite Hu in H. injection H as <- _ _. simpl.
    rewrite queried_trans, He by done. simpl.
    rewrite level_size_level, align_offset_off. eauto.
  - intros v' Hv. by rewrite queried_trans, Hin.
  - intros v' Hv. by rewrite !queried_trans, Hout.
Qed.

Lemma updated_entry_query s paddr flags e :
  in_u64 e → (∀ p, paddr = Some p → frame_ok PA_MAX_BITS p) →
  (∀ f, flags = Some f → flags_ok f) →
  pte_paddr (updated_entry s paddr flags e) = default (pte_paddr e) paddr ∧
  pte_flags (updated_entry s paddr flags e) = from_option norm (pte_flags e) flags.
Proof.
  intros Hu Hp Hf. unfold updated_entry. destruct paddr as [p|], flags as [f|]; simpl.
  - assert (in_u64 (pte_set_paddr e p)) by (by apply pte_set_paddr_u64).
    rewrite pte_set_flags_paddr, pte_set_flags_flags by auto.
    by rewrite pte_set_paddr_paddr by auto.
  - by rewrite pte_set_paddr_paddr, pte_set_paddr_flags by auto.
  - by rewrite pte_set_flags_paddr, pte_set_flags_flags by auto.
  - done.
Qed.

(** on a mapped address, [update] returns the page size and changes, for
    exactly the addresses of that page, the frame and the flags that are given
    and nothing else; the invariant is kept. *)
Theorem update_query st v paddr flags pa f s :
  pt_ok st → queried v st = Ok (pa, f, s) →
  (∀ p, paddr = Some p → frame_ok PA_MAX_BITS p) → (∀ f, flags = Some f → flags_ok f) →
  ∃ st', update v paddr flags st = (Ok s, st') ∧ pt_ok st' ∧
    (∀ v', same_page s v v' → ∃ base,
      queried v' st = Ok (PhysAddr_add base (page_off v' s), f, s) ∧
      queried v' st' =
        Ok (PhysAddr_add (default base paddr) (page_off v' s), from_option norm f flags, s)) ∧
    (∀ v', ¬ same_page s v v' → queried v' st' = queried v' st).
Proof.
  intros Hok Hq Hp Hf. rewrite queried_trans in Hq by done.
  destruct (trans st v) as [[l e]|] eqn:Ht; [|done]. destruct Hok as [lab W].
  destruct (found_mapped lab st v l e W Ht) as (l'&p & -> &_&Hl&Hr&He&Hne).
  assert (in_u64 e) as Hu by (rewrite <-He; apply (trans_leaf lab); congruence).
  simpl in Hq. injection Hq as _ <- <-.
  destruct (update_spec st v l' e paddr flags ltac:(by exists lab) Ht Hp Hf)
    as (st'&Hup&Hok'&_&_&Hin&Hout).
  exists st'. assert (size_level (level_size l') = l') as Hsl
    by (destruct l' as [|[|[|]]]; (done || lia)).
  unfold same_page. rewrite Hsl. split_and!; [done..| |]; intros v' Hv;
    rewrite !queried_trans by (done || by exists lab).
  - exists (pte_paddr e). rewrite (trans_same st v v' l' e) by (done || by exists lab).
    rewrite Hin by done. simpl. rewrite align_offset_off.
    by destruct (updated_entry_query (level_size l') paddr flags e Hu Hp Hf) as [-> ->].
  - by rewrite Hout.
Qed.

(** [map_region] of a page-aligned region always terminates without a
    panic; on success every address of the region, previously unmapped,
    translates to the same offset in the physical region with the stored flags,
    and every address outside the region keeps its translation; a failure is
    one of [map]'s, and addresses outside the region and addresses mapped
    before are not affected; misaligned arguments are rejected without effect. *)
Theorem map_region_query st v p size flags h r st' :
  pt_ok st → flags_ok flags → region_ok v p size →
  map_region v p size flags h st = (r, st') →
  pt_ok st' ∧
  (∀ v', (∀ off, 0 ≤ off < size → ¬ alias (v + off) v') → queried v' st' = queried v' st) ∧
  (∀ v', queried v' st ≠ Err NotMapped → queried v' st' = queried v' st) ∧
  match r with
  | Ok _ => region_aligned v p size = true ∧ ∀ off, 0 ≤ off < size →
      queried (v + off) st = Err NotMapped ∧
      ∃ s, queried (v + off) st' = Ok (p + off, norm flags, s)
  | Err NotAligned => region_aligned v p size = false ∧ st' = st
  | Err e => e = NoMemory ∨ e = AlreadyMapped ∨ e = MappedToHugePage
  | _ => False
  end.
Proof.
  intros Hok Hf Hr H. destruct (region_aligned v p size) eqn:Ha.
  - apply map_region_spec in H as (Hok'&_&_&Hm&Ho&Hq); [|done..]. split_and!; [done|..].
    + intros v' Hv. by rewrite !queried_trans, Ho.
    + intros v' Hv. rewrite !queried_trans in * by done.
      destruct (trans st v') as [x|] eqn:Hx; [by rewrite (Hm _ _ Hx)|done].
    + destruct r as [|e| |]; try done.
      * split; [done|]. intros off Hoff. rewrite !queried_trans by done.
        destruct (Hq off Hoff) as [-> ?]. done.
      * destruct Hq as [->|[->| ->]]; auto.
  - rewrite map_region_unfold, Ha in H. inv_res. done.
Qed.

(** C36: [unmap_region] terminates: it succeeds and then exactly the addresses
    of the region are unmapped, or it reports [NotMapped] having touched only
    the region, or an assertion fails (a page that is not contained in the
    region). *)
Theorem unmap_region_query st v size r st' :
  pt_ok st → 0 ≤ v → 0 ≤ size → v + size ≤ 2 ^ 64 →
  unmap_region v size st = (r, st') →
  pt_ok st' ∧
  match r with
  | Ok _ =>
      (∀ off, 0 ≤ off < size → queried (v + off) st' = Err NotMapped) ∧
      (∀ v', (∀ off, 0 ≤ off < size → ¬ alias (v + off) v') → queried v' st' = queried v' st)
  | Err e => e = NotMapped ∧
      (∀ v', (∀ off, 0 ≤ off < size → ¬ alias (v + off) v') → queried v' st' = queried v' st)
  | Panic => True
  | OutOfFuel => False
  end.
Proof.
  intros Hok Hv Hs Hvs H. apply unmap_region_spec in H as (Hok'&_&_&Hm); [|done..].
  split; [done|]. destruct r as [|e| |]; try done.
  - destruct Hm as (_&Hn&Ho). split; [intros off Hoff; by rewrite queried_trans, Hn|].
    intros v' Hv'. by rewrite !queried_trans, Ho.
  - destruct Hm as [-> Ho]. split; [done|]. intros v' Hv'. by rewrite !queried_trans, Ho.
Qed.

(** C5: a region mapped by [map_region] (with or without huge pages) that fits
    in the address space is unmapped by [unmap_region] without error or panic,
    and every translation is again what it was before the two calls. *)
Theorem map_unmap_region st v p size flags h st1 :
  pt_ok st → flags_ok flags → region_ok v p size → size ≤ 2 ^ VA_MAX_BITS →
  map_region v p size flags h st = (Ok tt, st1) →
  ∃ st2, unmap_region v size st1 = (Ok tt, st2) ∧
    ∀ v', queried v' st2 = queried v' st.
Proof.
  intros Hok Hf Hr Hva H. destruct (region_aligned v p size) eqn:Ha.
  2:{ rewrite map_region_unfold, Ha in H. done. }
  pose proof H as Hl. rewrite map_region_unfold, Ha in Hl.
  pose proof (region_aligned_args _ _ _ Hr Ha) as Hargs.
  apply map_region_spec in H as (Hok1&_&_&Hm&Ho&Hq); [|done..].
  destruct (region_fuel_enough size) as [_ Hfuel]; [apply Hr|].
  apply map_region_pages in Hl; [|done..].
  destruct (unmap_region_pages _ (region_fuel size) _ _ _ _ _ Hok1 Hargs Hva Hfuel Hl)
    as [st2 Hu].
  exists st2. split; [exact Hu|].
  apply unmap_region_spec in Hu as (Hok2&_&_&Hn&Hn2&Ho2); [|done|apply Hr..].
  intros v'. rewrite !queried_trans by done. f_equal.
  destruct (in_region_dec v v' size Hva) as [(off&Hoff&Hal)|Hx].
  - rewrite <-!(trans_alias _ _ _ Hal), Hn2 by done. by destruct (Hq off Hoff) as [-> _].
  - by rewrite Ho2, Ho.
Qed.

(** C6: no operation leaks or steals a frame: after [try_new], any sequence of
    operations with any arguments (failing operations, and [update] of addresses that are
    not mapped, included) and [drop], the allocator has handed out exactly the frames it
    had handed out before [try_new].  When the arguments are valid - targets in the
    physical address space, flags with [READ], regions that do not wrap around and
    [update] only of mapped addresses - the tree of tables is moreover well formed. *)
Theorem page_table_no_leak a0 st :
  reachable_any a0 st → if_owned (drop_table st) = if_owned a0 ∧ (reachable a0 st → pt_ok st).
Proof.
  intros Hr. split; [by apply drop_frames_inv, reachable_any_frames|]. by intros [Hok _]%reachable_ok.
Qed.

End claims.

(** *** Witnesses *)

Definition sv39_st1 : PTState Bump := (sv39_map 0x4000_1000 0x8020_3000 Size4K 3 sv39_new.2).2.

Lemma sv39_st1_eq : sv39_map 0x4000_1000 0x8020_3000 Size4K 3 sv39_new.2 = (Ok tt, sv39_st1).
Proof. vm_compute. reflexivity. Qed.

Lemma sv39_st1_ok : @pt_ok Sv39MetaData rv Bump bump_if bump_spec sv39_st1.
Proof.
  apply (map_spec (MD := Sv39MetaData) (P := rv) _ _ _ _ _ _ _ sv39_ok) with (3 := sv39_st1_eq);
    done.
Qed.

Lemma map_query_witness :
  sv39_map 0x4000_1000 0x8020_3000 Size4K 3 sv39_new.2 = (Ok tt, sv39_st1) ∧
  @queried Sv39MetaData rv Bump bump_if 0x4000_1abc sv39_st1 = Ok (0x8020_3abc, 3, Size4K).
Proof.
  split; [exact sv39_st1_eq|].
  apply (map_query (MD := Sv39MetaData) (P := rv) sv39_new.2 0x4000_1000 0x8020_3000 Size4K 3
    sv39_st1 sv39_ok ltac:(done) ltac:(done) sv39_st1_eq). done.
Defined.

(** The operations at Sv39. *)
Definition sv39_unmap v : M (PTState Bump) PagingError (PhysAddr * PageSize) :=
  @unmap Sv39MetaData rv Bump bump_if v.
Definition sv39_update v p f : M (PTState Bump) PagingError PageSize :=
  @update Sv39MetaData rv Bump bump_if v p f.
Definition sv39_map_region v p s f h : M (PTState Bump) PagingError unit :=
  @map_region Sv39MetaData rv Bump bump_if v p s f h.
Definition sv39_unmap_region v s : M (PTState Bump) PagingError unit :=
  @unmap_region Sv39MetaData rv Bump bump_if v s.
Definition sv39_query v st := @queried Sv39MetaData rv Bump bump_if v st.

Lemma map_error_witness :
  let r := sv39_map 0x4000_1000 0x8020_4000 Size4K 3 sv39_st1 in
  r.1 = Err AlreadyMapped ∧ sv39_query 0x4000_1000 r.2 = sv39_query 0x4000_1000 sv39_st1.
Proof.
  split; [vm_compute; reflexivity|].
  apply (map_error (MD := Sv39MetaData) (P := rv) sv39_st1 0x4000_1000 0x8020_4000 Size4K 3
    (sv39_map 0x4000_1000 0x8020_4000 Size4K 3 sv39_st1).1 _ sv39_st1_ok);
    [done|done|apply surjective_pairing|vm_compute; discriminate].
Defined.

Lemma map_4k_succeeds_witness :
  sv39_query 0x4000_2000 sv39_st1 = Err NotMapped ∧
  (∃ st', sv39_map 0x4000_2000 0x8020_4000 Size4K 3 sv39_st1 = (Ok tt, st') ∨
    sv39_map 0x4000_2000 0x8020_4000 Size4K 3 sv39_st1 = (Err NoMemory, st')).
Proof.
  split; [vm_compute; reflexivity|].
  apply (map_4k_succeeds (MD := Sv39MetaData) (P := rv) sv39_st1 0x4000_2000 0x8020_4000 3
    sv39_st1_ok); [done..|vm_compute; reflexivity].
Defined.

Lemma unmap_query_witness :
  let r := sv39_unmap 0x4000_1000 sv39_st1 in
  r.1 = Ok (0x8020_3000, Size4K) ∧ sv39_query 0x4000_1abc r.2 = Err NotMapped.
Proof.
  assert ((sv39_unmap 0x4000_1000 sv39_st1).1 = Ok (0x8020_3000, Size4K)) as Hr
    by (vm_compute; reflexivity).
  split; [exact Hr|].
  destruct (unmap_query (MD := Sv39MetaData) (P := rv) sv39_st1 0x4000_1000
    (Ok (0x8020_3000, Size4K)) (sv39_unmap 0x4000_1000 sv39_st1).2 sv39_st1_ok)
    as (_&_&Hin&_); [rewrite <-Hr; apply surjective_pairing|].
  apply Hin. reflexivity.
Defined.

Lemma update_query_witness :
  sv39_query 0x4000_1000 sv39_st1 = Ok (0x8020_3000, 3, Size4K) ∧
  ∃ st', sv39_update 0x4000_1000 (Some 0x9000_0000) (Some 1) sv39_st1 = (Ok Size4K, st') ∧
    @pt_ok Sv39MetaData rv Bump bump_if bump_spec st'.
Proof.
  assert (sv39_query 0x4000_1000 sv39_st1 = Ok (0x8020_3000, 3, Size4K)) as Hq
    by (vm_compute; reflexivity).
  split; [exact Hq|].
  destruct (update_query (MD := Sv39MetaData) (P := rv) sv39_st1 0x4000_1000
    (Some 0x9000_0000) (Some 1) _ _ _ sv39_st1_ok Hq) as (st'&Hu&Hok&_).
  - intros p [= <-]. split; [split; vm_compute; [discriminate|reflexivity]|].
    exists 0x90000. reflexivity.
  - intros f [= <-]. split; [lia|reflexivity].
  - exists st'. split; [exact Hu|exact Hok].
Defined.

(** A region of one 2M page and two 4K pages. *)
Definition sv39_region : res PagingError unit * PTState Bump :=
  sv39_map_region 0x4020_0000 0x8020_0000 0x20_2000 3 true sv39_new.2.

Lemma sv39_region_eq :
  sv39_map_region 0x4020_0000 0x8020_0000 0x20_2000 3 true sv39_new.2 = (Ok tt, sv39_region.2).
Proof. vm_compute. reflexivity. Qed.

Lemma map_region_query_witness :
  sv39_region.1 = Ok tt ∧
  ∃ s, sv39_query (0x4020_0000 + 0x20_1008) sv39_region.2 = Ok (0x8020_0000 + 0x20_1008, 3, s).
Proof.
  split; [vm_compute; reflexivity|].
  destruct (map_region_query (MD := Sv39MetaData) (P := rv) sv39_new.2 0x4020_0000 0x8020_0000
    0x20_2000 3 true (Ok tt) sv39_region.2 sv39_ok) as (_&_&_&_&Hq);
    [done|by split_and!|exact sv39_region_eq|].
  apply (Hq 0x20_1008). lia.
Defined.

Lemma sv39_region_ok : @pt_ok Sv39MetaData rv Bump bump_if bump_spec sv39_region.2.
Proof.
  apply (map_region_spec (MD := Sv39MetaData) (P := rv) 0x4020_0000 0x8020_0000 0x20_2000 3
    true sv39_new.2 (Ok tt) sv39_region.2 sv39_ok);
    [done|by split_and!|vm_compute; reflexivity|exact sv39_region_eq].
Qed.

Lemma unmap_region_query_witness :
  let r := sv39_unmap_region 0x4020_0000 0x20_2000 sv39_region.2 in
  r.1 = Ok tt ∧ sv39_query (0x4020_0000 + 0x20_1008) r.2 = Err NotMapped.
Proof.
  assert ((sv39_unmap_region 0x4020_0000 0x20_2000 sv39_region.2).1 = Ok tt) as Hr
    by (vm_compute; reflexivity).
  split; [exact Hr|].
  destruct (unmap_region_query (MD := Sv39MetaData) (P := rv) sv39_region.2 0x4020_0000
    0x20_2000 (Ok tt) (sv39_unmap_region 0x4020_0000 0x20_2000 sv39_region.2).2 sv39_region_ok)
    as (_&Hq&_); [done..|rewrite <-Hr; apply surjective_pairing|].
  apply (Hq 0x20_1008). lia.
Defined.

Lemma map_unmap_region_witness :
  sv39_region.1 = Ok tt ∧
  ∃ st2, sv39_unmap_region 0x4020_0000 0x20_2000 sv39_region.2 = (Ok tt, st2) ∧
    sv39_query 0x4030_0000 st2 = sv39_query 0x4030_0000 sv39_new.2.
Proof.
  split; [vm_compute; reflexivity|].
  destruct (map_unmap_region (MD := Sv39MetaData) (P := rv) sv39_new.2 0x4020_0000 0x8020_0000
    0x20_2000 3 true sv39_region.2 sv39_ok) as (st2&Hu&Hq);
    [done|by split_and!|done|exact sv39_region_eq|].
  exists st2. split; [exact Hu|apply Hq].
Defined.

Lemma page_table_no_leak_witness :
  bump_owned (@drop_table Bump bump_if (sv39_update 0x4000_2000 None (Some 3) sv39_st1).2) = ∅ ∧
  @pt_ok Sv39MetaData rv Bump bump_if bump_spec sv39_st1.
Proof.
  assert (reachable_any (MD := Sv39MetaData) (P := rv) (IF := bump_if) {| bump_next := 1; bump_owned := ∅ |} sv39_st1) as Hr.
  { pose proof (any_map (MD := Sv39MetaData) (P := rv) (IF := bump_if) _ sv39_new.2 0x4000_1000 0x8020_3000 Size4K 3 (any_new _ _ _ sv39_new_ok)) as H.
    exact H. }
  split.
  - apply (page_table_no_leak (MD := Sv39MetaData) (P := rv) (PagingIfSpec0 := bump_spec) {| bump_next := 1; bump_owned := ∅ |} _
      (any_update _ _ 0x4000_2000 None (Some 3) Hr)).
  - apply (page_table_no_leak (MD := Sv39MetaData) (P := rv) (PagingIfSpec0 := bump_spec) {| bump_next := 1; bump_owned := ∅ |} sv39_st1 Hr).
    eapply reachable_map; [|..|exact sv39_st1_eq]; [|done..]. eapply reachable_new. exact sv39_new_ok.
Defined.

(** [update] does not check that the address is mapped: on an address whose
    last-level table exists and whose entry was cleared, where its documentation
    promises [NotMapped], it succeeds and creates a mapping. *)
Theorem update_maps_unmapped :
  let st := (sv39_unmap 0x4000_1000 sv39_st1).2 in
  @pt_ok Sv39MetaData rv Bump bump_if bump_spec st ∧
  sv39_query 0x4000_1000 st = Err NotMapped ∧
  let r := sv39_update 0x4000_1000 (Some 0x9000_0000) (Some 3) st in
  r.1 = Ok Size4K ∧ sv39_query 0x4000_1000 r.2 = Ok (0x9000_0000, 3, Size4K).
Proof.
  intros st. split; [|split; [|split]]; [|vm_compute; reflexivity..].
  destruct (unmap_page (MD := Sv39MetaData) (P := rv) sv39_st1 0x4000_1000 _ _ sv39_st1_ok
    (surjective_pairing (sv39_unmap 0x4000_1000 sv39_st1))) as [Hok _].
  exact Hok.
Qed.
