(* ===== verification/LinkedList.v ===== *)
(** * Intrusive doubly linked lists ([crates/linked_list])

    [unsafe_list.rs] is a circular list whose links live in the entries, so the
    model has a memory of links shared by all lists of an adapter, and an entry
    is its address.  Uninitialised links are absent from the memory and reading
    them is undefined behaviour ([Panic]).  [linked_list.rs] is the owning
    wrapper used by the schedulers.  The abstraction is the sequence of entries:
    [repr] relates a list head and the memory to it, and each operation refines
    the corresponding operation on sequences. *)

From stdpp Require Import base decidable numbers list gmap.
From Stdlib Require Import ZArith Lia.
From S2P Require Import Prelude.

(** ** [unsafe_list.rs] *)

Definition Ptr : Type := positive.

Record LinksInner : Type := { next : positive; prev : positive }.

(** A list head, and the links of all entries. *)
Record LList : Type := {
  first : option positive;
  links : gmap positive LinksInner;
}.

(** The operations have no error result. *)
Inductive NoError : Set := .

Abbreviation LM := (M LList NoError).

Definition get_first : LM (option positive) := gets first.
Definition set_first (f : option positive) : LM unit :=
  modify (λ s, {| first := f; links := links s |}).

(** [inner]/[inner_ref]. *)
Definition inner_ref (p : positive) : LM LinksInner := λ s,
  match links s !! p with Some l => (Ok l, s) | None => (Panic, s) end.

(** Writing the links of an entry, or one of their fields. *)
Definition write_links (p : positive) (l : LinksInner) : LM unit :=
  modify (λ s, {| first := first s; links := <[p := l]> (links s) |}).
Definition set_next (p n : positive) : LM unit :=
  l ← inner_ref p; write_links p {| next := n; prev := prev l |}.
Definition set_prev (p n : positive) : LM unit :=
  l ← inner_ref p; write_links p {| next := next l; prev := n |}.
Definition drop_links (p : positive) : LM unit :=
  modify (λ s, {| first := first s; links := delete p (links s) |}).

(** [Option::unwrap]. *)
Definition unwrap {S E A} (o : option A) : M S E A :=
  match o with Some a => mret a | None => panic end.

Definition ulist_is_empty (s : LList) : bool :=
  match first s with Some _ => false | None => true end.

Definition insert_only_entry (obj : positive) : LM unit :=
  _ ← write_links obj {| next := obj; prev := obj |};
  set_first (Some obj).

Definition ulist_insert_after (existing new : positive) : LM unit :=
  existing_inner ← inner_ref existing;
  let nxt := next existing_inner in
  _ ← write_links new {| next := nxt; prev := existing |};
  _ ← set_next existing new;
  set_prev nxt new.

Definition ulist_insert_before (existing new : positive) : LM unit :=
  l ← inner_ref existing;
  _ ← ulist_insert_after (prev l) new;
  f ← get_first;
  f ← unwrap f;
  if decide (f = existing) then set_first (Some new) else mret tt.

Definition ulist_push_back (obj : positive) : LM unit :=
  f ← get_first;
  match f with
  | Some first => l ← inner_ref first; ulist_insert_after (prev l) obj
  | None => insert_only_entry obj
  end.

Definition ulist_push_front (obj : positive) : LM unit :=
  f ← get_first;
  match f with
  | Some first => ulist_insert_before first obj
  | None => insert_only_entry obj
  end.

Definition ulist_remove (entry : positive) : LM unit :=
  l ← inner_ref entry;
  let nxt := next l in
  let prv := prev l in
  _ ← drop_links entry;
  if decide (nxt = entry) then set_first None
  else
    _ ← set_next prv nxt;
    _ ← set_prev nxt prv;
    f ← get_first;
    f ← unwrap f;
    if decide (f = entry) then set_first (Some nxt) else mret tt.

Definition ulist_front : LM (option positive) := get_first.

Definition ulist_back : LM (option positive) :=
  f ← get_first;
  match f with
  | Some f => l ← inner_ref f; mret (Some (prev l))
  | None => mret None
  end.

(** *** Cursors: [CommonCursor::move_next]/[move_prev] on the position [cur] *)

Definition cursor_move_next (cur : option positive) : LM (option positive) :=
  f ← get_first;
  match cur with
  | None => mret f
  | Some cur =>
      match f with
      | Some head =>
          l ← inner_ref cur;
          if decide (next l ≠ head) then mret (Some (next l)) else mret None
      | None => mret None
      end
  end.

Definition cursor_move_prev (cur : option positive) : LM (option positive) :=
  f ← get_first;
  match f with
  | None => mret None
  | Some head =>
      match cur with
      | None => l ← inner_ref head; mret (Some (prev l))
      | Some cur =>
          if decide (cur = head) then mret None
          else l ← inner_ref cur; mret (Some (prev l))
      end
  end.

(** [Iterator::next] until [None]: the entries visited from [cur] on. *)
Fixpoint iterate (fuel : nat) (cur : option positive) : LM (list positive) :=
  match cur with
  | None => mret []
  | Some c =>
      match fuel with
      | O => out_of_fuel
      | S fuel =>
          cur ← cursor_move_next (Some c);
          rest ← iterate fuel cur;
          mret (c :: rest)
      end
  end.

Definition ulist_iter (fuel : nat) : LM (list positive) :=
  f ← ulist_front; iterate fuel f.

(** ** [linked_list.rs]

    [into_pointer]/[from_pointer] convert between an owned entry and its
    address, which is the entry here. *)

Definition list_new (mem : gmap positive LinksInner) : LList :=
  {| first := None; links := mem |}.
Definition list_is_empty (s : LList) : bool := ulist_is_empty s.
Definition list_push_back (data : positive) : LM unit := ulist_push_back data.
Definition list_insert_after (existing data : positive) : LM unit :=
  ulist_insert_after existing data.
Definition list_remove (data : positive) : LM (option positive) :=
  _ ← ulist_remove data; mret (Some data).
Definition list_pop_front : LM (option positive) :=
  f ← ulist_front;
  match f with
  | Some entry => _ ← ulist_remove entry; mret (Some entry)
  | None => mret None
  end.
Definition list_front : LM (option positive) := ulist_front.
Definition list_back : LM (option positive) := ulist_back.

(** [Drop]: [while self.pop_front().is_some() {}]. *)
Fixpoint list_drop (fuel : nat) : LM unit :=
  r ← list_pop_front;
  match r with
  | Some _ => match fuel with O => out_of_fuel | S fuel => list_drop fuel end
  | None => mret tt
  end.

(** ** The abstraction *)

Definition next_of (mem : gmap positive LinksInner) (x : positive) : option positive :=
  next <$> mem !! x.
Definition prev_of (mem : gmap positive LinksInner) (x : positive) : option positive :=
  prev <$> mem !! x.

(** [x] and [y] are neighbours. *)
Definition linked (mem : gmap positive LinksInner) (x y : positive) : Prop :=
  next_of mem x = Some y ∧ prev_of mem y = Some x.

Fixpoint chain (mem : gmap positive LinksInner) (l : list positive) : Prop :=
  match l with
  | x :: (y :: _) as l' => linked mem x y ∧ chain mem l'
  | _ => True
  end.

Arguments chain : simpl never.

(** The entries of [l], in order, form a ring. *)
Definition ring (mem : gmap positive LinksInner) (l : list positive) : Prop :=
  match l with [] => True | x :: _ => chain mem (l ++ [x]) end.

(** The list [s] holds the sequence [l]. *)
Record repr (s : LList) (l : list positive) : Prop := {
  repr_first : first s = head l;
  repr_nodup : NoDup l;
  repr_ring : ring (links s) l;
}.

(** ** Lemmas on rings *)

Lemma chain_cons mem x y l : chain mem (x :: y :: l) ↔ linked mem x y ∧ chain mem (y :: l).
Proof. done. Qed.

Lemma chain_app mem l1 x l2 :
  chain mem (l1 ++ x :: l2) ↔ chain mem (l1 ++ [x]) ∧ chain mem (x :: l2).
Proof.
  induction l1 as [|y [|z l1] IH].
  - simpl. unfold chain at 2. tauto.
  - simpl. rewrite !chain_cons. unfold chain at 3. tauto.
  - change ((y :: z :: l1) ++ x :: l2) with (y :: z :: (l1 ++ x :: l2)).
    change ((y :: z :: l1) ++ [x]) with (y :: z :: (l1 ++ [x])).
    rewrite !chain_cons. change (z :: l1 ++ x :: l2) with ((z :: l1) ++ x :: l2).
    change (z :: l1 ++ [x]) with ((z :: l1) ++ [x]). rewrite IH. tauto.
Qed.

(** A chain only depends on the forward links of all its entries but the last and
    on the backward links of all but the first. *)
Lemma chain_frame mem mem' x l y :
  chain mem (x :: l ++ [y]) →
  (∀ z, z ∈ x :: l → next_of mem' z = next_of mem z) →
  (∀ z, z ∈ l ++ [y] → prev_of mem' z = prev_of mem z) →
  chain mem' (x :: l ++ [y]).
Proof.
  revert x. induction l as [|z l IH]; intros x Hc Hn Hp; simpl app in *.
  - rewrite chain_cons in *. destruct Hc as [[H1 H2] _]. split; [|done].
    split; [rewrite Hn|rewrite Hp]; set_solver.
  - rewrite chain_cons in *. destruct Hc as [[H1 H2] Hc]. split.
    + split; [rewrite Hn|rewrite Hp]; set_solver.
    + apply IH; [done|..]; intros; [apply Hn|apply Hp]; set_solver.
Qed.

Lemma ring_unfold mem x l : ring mem (x :: l) ↔ chain mem (x :: l ++ [x]).
Proof. done. Qed.

(** A ring has no distinguished first entry. *)
Lemma ring_rotate mem l1 l2 : ring mem (l1 ++ l2) → ring mem (l2 ++ l1).
Proof.
  destruct l1 as [|x l1], l2 as [|y l2]; simpl app; rewrite ?app_nil_r; try done.
  rewrite !ring_unfold. rewrite <-!app_assoc. simpl.
  change (x :: l1 ++ y :: l2 ++ [x]) with ((x :: l1) ++ y :: (l2 ++ [x])).
  change (y :: l2 ++ x :: l1 ++ [y]) with ((y :: l2) ++ x :: (l1 ++ [y])).
  intros [H1 H2]%chain_app. apply chain_app. by split.
Qed.

(** An entry of a ring has links, to entries of the ring. *)
Lemma ring_links mem l x :
  ring mem l → x ∈ l → ∃ k, mem !! x = Some k ∧ next k ∈ l ∧ prev k ∈ l.
Proof.
  intros Hr (l1&l2&->)%list_elem_of_split. apply ring_rotate in Hr.
  simpl in Hr. destruct (mem !! x) as [k|] eqn:Hk.
  2:{ destruct (l2 ++ l1) as [|y l]; simpl in Hr; apply chain_cons in Hr as [[H _] _];
      unfold next_of in H; by rewrite Hk in H. }
  exists k. split; [done|].
  assert (∀ z, z ∈ x :: l2 ++ l1 → z ∈ l1 ++ x :: l2) as Hin by set_solver.
  split; apply Hin.
  - destruct (l2 ++ l1) as [|y l]; simpl in Hr; apply chain_cons in Hr as [[H _] _];
      unfold next_of in H; rewrite Hk in H; injection H as ->; set_solver.
  - destruct (l2 ++ l1) as [|y l _] using rev_ind; simpl in Hr.
    + apply chain_cons in Hr as [[_ H] _]. unfold prev_of in H. rewrite Hk in H. injection H as ->.
      set_solver.
    + rewrite <-app_assoc in Hr. change (x :: l ++ [y] ++ [x]) with ((x :: l) ++ y :: [x]) in Hr.
      apply chain_app in Hr as [_ [[_ H] _]]. unfold prev_of in H. rewrite Hk in H.
      injection H as ->. set_solver.
Qed.

(** The last entry of a ring precedes the first. *)
Lemma ring_last mem x l : ring mem ((l ++ [x])) → ∀ y, head (l ++ [x]) = Some y → linked mem x y.
Proof.
  intros Hr y Hy. destruct l as [|z l]; simpl in *.
  - injection Hy as <-. apply Hr.
  - injection Hy as <-. rewrite <-app_assoc in Hr.
    change (z :: l ++ [x] ++ [z]) with ((z :: l) ++ x :: [z]) in Hr.
    apply chain_app in Hr as [_ [H _]]. done.
Qed.

(** ** The primitive operations on rings *)

Lemma next_of_insert mem p k x :
  next_of (<[p := k]> mem) x = if decide (p = x) then Some (next k) else next_of mem x.
Proof. unfold next_of. rewrite lookup_insert. by case_decide. Qed.

Lemma prev_of_insert mem p k x :
  prev_of (<[p := k]> mem) x = if decide (p = x) then Some (prev k) else prev_of mem x.
Proof. unfold prev_of. rewrite lookup_insert. by case_decide. Qed.

Lemma next_of_delete mem p x : p ≠ x → next_of (delete p mem) x = next_of mem x.
Proof. intros. unfold next_of. by rewrite lookup_delete_ne. Qed.

Lemma prev_of_delete mem p x : p ≠ x → prev_of (delete p mem) x = prev_of mem x.
Proof. intros. unfold prev_of. by rewrite lookup_delete_ne. Qed.

Lemma set_next_ok s p n k :
  links s !! p = Some k →
  set_next p n s = (Ok tt, {| first := first s; links := <[p := {| next := n; prev := prev k |}]> (links s) |}).
Proof. intros Hk. unfold set_next, inner_ref, mbind, M_bind. by rewrite Hk. Qed.

Lemma set_prev_ok s p n k :
  links s !! p = Some k →
  set_prev p n s = (Ok tt, {| first := first s; links := <[p := {| next := next k; prev := n |}]> (links s) |}).
Proof. intros Hk. unfold set_prev, inner_ref, mbind, M_bind. by rewrite Hk. Qed.

Lemma next_of_Some mem x y : next_of mem x = Some y → ∃ k, mem !! x = Some k ∧ next k = y.
Proof. unfold next_of. destruct (mem !! x); simpl; [|done]. intros [= <-]. eauto. Qed.

Lemma prev_of_Some mem x y : prev_of mem x = Some y → ∃ k, mem !! x = Some k ∧ prev k = y.
Proof. unfold prev_of. destruct (mem !! x); simpl; [|done]. intros [= <-]. eauto. Qed.

(** Two memories with the same links outside [l]. *)
Definition same_outside (l : list positive) (mem mem' : gmap positive LinksInner) : Prop :=
  ∀ x, x ∉ l → mem' !! x = mem !! x.

(** The effect of [insert_after] on the links, entry by entry. *)
Lemma insert_after_links s e f new :
  linked (links s) e f → new ≠ e → new ≠ f →
  ∃ s', ulist_insert_after e new s = (Ok tt, s') ∧ first s' = first s ∧
    (∀ x, next_of (links s') x =
      if decide (x = e) then Some new else if decide (x = new) then Some f
      else next_of (links s) x) ∧
    (∀ x, prev_of (links s') x =
      if decide (x = f) then Some new else if decide (x = new) then Some e
      else prev_of (links s) x) ∧
    same_outside [new; e; f] (links s) (links s').
Proof.
  intros [Hn Hp] Hne Hnf. apply next_of_Some in Hn as (ke&Hke&Hf).
  apply prev_of_Some in Hp as (kf&Hkf&He).
  unfold ulist_insert_after. erewrite M_bind_ok by (unfold inner_ref; by rewrite Hke).
  cbv zeta. rewrite Hf. erewrite M_bind_ok by done.
  erewrite M_bind_ok.
  2:{ apply set_next_ok. simpl. by rewrite lookup_insert_ne by done. }
  simpl. destruct (decide (f = e)) as [->|Hfe].
  - erewrite set_prev_ok by (simpl; by rewrite lookup_insert_eq). eexists.
    split_and!; [done|done|..]; simpl; intros x; rewrite ?next_of_insert, ?prev_of_insert; simpl.
    + repeat case_decide; try done; congruence.
    + repeat case_decide; try done; congruence.
    + intros Hx. rewrite !lookup_insert_ne by set_solver. done.
  - erewrite set_prev_ok by (simpl; rewrite !lookup_insert_ne by done; done). eexists.
    split_and!; [done|done|..]; simpl; intros x; rewrite ?next_of_insert, ?prev_of_insert; simpl.
    + repeat case_decide; try done; try congruence. subst. unfold next_of. rewrite Hkf.
      by f_equal.
    + repeat case_decide; try done; try congruence. subst. unfold prev_of. by rewrite Hke.
    + intros Hx. rewrite !lookup_insert_ne by set_solver. done.
Qed.

(** Inserting after the last entry of a ring. *)
Lemma insert_after_last s l e new :
  ring (links s) (l ++ [e]) → NoDup (l ++ [e]) → new ∉ l ++ [e] →
  ∃ s', ulist_insert_after e new s = (Ok tt, s') ∧ first s' = first s ∧
    ring (links s') (l ++ [e; new]) ∧ same_outside (new :: l ++ [e]) (links s) (links s').
Proof.
  intros Hr Hnd Hnew. destruct (head (l ++ [e])) as [f|] eqn:Hf; [|by destruct l].
  pose proof (ring_last _ _ _ Hr f Hf) as Hlk.
  assert (f ∈ l ++ [e]) as Hfin by (by apply head_Some_elem_of).
  destruct (insert_after_links s e f new Hlk) as (s'&Hs&Hfst&Hn&Hp&Hout);
    [set_solver|set_solver|].
  exists s'. split_and!; [done..| |].
  2:{ intros x Hx. apply Hout. set_solver. }
  assert (linked (links s') e new) as Hen.
  { split; [rewrite Hn, decide_True by done; done|].
    rewrite Hp, decide_False, decide_True by set_solver. done. }
  assert (linked (links s') new f) as Hnf.
  { split; [rewrite Hn, decide_False, decide_True by set_solver; done|].
    rewrite Hp, decide_True by done. done. }
  destruct l as [|x l]; simpl in Hf; injection Hf as ->; simpl.
  - rewrite !chain_cons. by split_and!.
  - rewrite <-app_assoc. simpl.
    change (f :: l ++ e :: new :: [f]) with ((f :: l) ++ e :: [new; f]).
    apply chain_app. rewrite !chain_cons. split_and!; try done.
    simpl in Hr. rewrite <-app_assoc in Hr.
    change (f :: l ++ [e] ++ [f]) with ((f :: l) ++ e :: [f]) in Hr.
    apply chain_app in Hr as [Hr _]. apply NoDup_app in Hnd as (Hnd&Hd&_).
    apply NoDup_cons in Hnd as [? _].
    apply (chain_frame (links s)); [done|..]; intros z Hz.
    + rewrite Hn, !decide_False; [done|set_solver|]. intros ->. by apply (Hd e); [|set_solver].
    + rewrite Hp, !decide_False; [done|set_solver|]. intros ->.
      apply elem_of_app in Hz as [Hz|Hz]; [done|]. apply (Hd f); set_solver.
Qed.

(** ** Refinement of the operations on sequences *)

Lemma repr_elem s l x : repr s l → x ∈ l → ∃ k, links s !! x = Some k.
Proof. intros R Hx. destruct (ring_links _ _ _ (repr_ring _ _ R) Hx) as (k&?&_). eauto. Qed.

Lemma ulist_insert_after_repr s l1 e l2 new :
  repr s (l1 ++ e :: l2) → new ∉ l1 ++ e :: l2 →
  ∃ s', ulist_insert_after e new s = (Ok tt, s') ∧ repr s' (l1 ++ e :: new :: l2) ∧
    same_outside (new :: l1 ++ e :: l2) (links s) (links s').
Proof.
  intros [Hf Hnd Hr] Hnew.
  assert (l1 ++ e :: l2 ≡ₚ (l2 ++ l1) ++ [e]) as Hperm.
  { rewrite Permutation_app_comm. simpl. by rewrite Permutation_cons_append. }
  change (e :: l2) with ([e] ++ l2) in Hr. rewrite app_assoc in Hr.
  apply ring_rotate in Hr. rewrite app_assoc in Hr.
  destruct (insert_after_last s (l2 ++ l1) e new Hr) as (s'&Hs&Hf'&Hr'&Hout).
  { by rewrite <-Hperm. }
  { by rewrite <-Hperm. }
  exists s'. split_and!; [done|split| ].
  - rewrite Hf', Hf. by destruct l1.
  - rewrite (app_assoc l1 [e] (new :: l2) : l1 ++ e :: new :: l2 = _).
    rewrite <-Permutation_middle. apply NoDup_cons. rewrite <-app_assoc. simpl. done.
  - rewrite <-app_assoc in Hr'. apply ring_rotate in Hr'. rewrite <-app_assoc in Hr'. done.
  - intros x Hx. apply Hout. rewrite <-Hperm. done.
Qed.

Lemma ulist_push_back_repr s l x :
  repr s l → x ∉ l →
  ∃ s', ulist_push_back x s = (Ok tt, s') ∧ repr s' (l ++ [x]) ∧
    same_outside (x :: l) (links s) (links s').
Proof.
  intros R Hx. pose proof (repr_first _ _ R) as Hf. unfold ulist_push_back.
  erewrite M_bind_ok by done. rewrite Hf. destruct l as [|y l _] using rev_ind; simpl.
  - eexists. split; [done|]. split; [split; simpl|].
    + done.
    + apply NoDup_singleton.
    + rewrite chain_cons. split; [|done].
      split; [rewrite next_of_insert|rewrite prev_of_insert]; by rewrite decide_True.
    + intros z Hz. simpl. rewrite lookup_insert_ne by set_solver. done.
  - destruct (head (l ++ [y])) as [f|] eqn:Hh; [|by destruct l].
    destruct (ring_last _ _ _ (repr_ring _ _ R) f Hh) as [_ Hp].
    apply prev_of_Some in Hp as (k&Hk&Hp).
    erewrite M_bind_ok by (unfold inner_ref; by rewrite Hk). rewrite Hp.
    destruct (ulist_insert_after_repr s l y [] x R Hx) as (s'&?&?&?).
    exists s'. rewrite <-app_assoc. done.
Qed.

Lemma ulist_insert_before_repr s l1 e l2 new :
  repr s (l1 ++ e :: l2) → new ∉ l1 ++ e :: l2 →
  ∃ s', ulist_insert_before e new s = (Ok tt, s') ∧ repr s' (l1 ++ new :: e :: l2) ∧
    same_outside (new :: l1 ++ e :: l2) (links s) (links s').
Proof.
  intros R Hnew. unfold ulist_insert_before. pose proof (repr_nodup _ _ R) as Hnd.
  destruct l1 as [|p l1 _] using rev_ind; simpl app in *.
  - destruct (exists_last (l := e :: l2)) as (l'&y&Heq); [done|]. rewrite Heq in R, Hnew |- *.
    assert (head (l' ++ [y]) = Some e) as Hh by (by rewrite <-Heq).
    destruct (ring_last _ _ _ (repr_ring _ _ R) e Hh) as [_ (k&Hk&Hp)%prev_of_Some].
    erewrite M_bind_ok by (unfold inner_ref; by rewrite Hk). rewrite Hp.
    destruct (ulist_insert_after_repr s l' y [] new R Hnew) as (s1&Hs1&[Hf1 Hnd1 Hr1]&Hout).
    erewrite M_bind_ok by exact Hs1. erewrite M_bind_ok by done.
    assert (first s1 = Some e) as -> by (rewrite Hf1; by destruct l').
    erewrite M_bind_ok by done. rewrite decide_True by done. eexists. split; [done|].
    change (l' ++ [y; new]) with (l' ++ [y] ++ [new]) in Hnd1, Hr1.
    rewrite app_assoc in Hnd1, Hr1. split; [split|done].
    + done.
    + by rewrite Permutation_cons_append.
    + apply ring_rotate in Hr1. exact Hr1.
  - rewrite <-!app_assoc in R, Hnew, Hnd |- *. simpl in *.
    assert (linked (links s) p e) as [_ (k&Hk&Hp)%prev_of_Some].
    { pose proof (repr_ring _ _ R) as Hr. change (p :: e :: l2) with ([p] ++ e :: l2) in Hr.
      rewrite app_assoc in Hr. apply ring_rotate in Hr. rewrite app_assoc in Hr.
      apply (ring_last _ _ _ Hr). by destruct l1. }
    erewrite M_bind_ok by (unfold inner_ref; by rewrite Hk). rewrite Hp.
    destruct (ulist_insert_after_repr s l1 p (e :: l2) new R Hnew) as (s1&Hs1&R1&Hout).
    erewrite M_bind_ok by exact Hs1. erewrite M_bind_ok by done.
    rewrite (repr_first _ _ R1). destruct (head (l1 ++ p :: new :: e :: l2)) as [f|] eqn:Hf;
      [|by destruct l1].
    erewrite M_bind_ok by done. rewrite decide_False; [exists s1; rewrite <-?app_assoc; by split_and!|].
    intros ->. assert (head (l1 ++ [p]) = Some e) as He by (by destruct l1).
    apply head_Some_elem_of in He. change (p :: e :: l2) with ([p] ++ e :: l2) in Hnd.
    rewrite app_assoc in Hnd. apply NoDup_app in Hnd as (_&Hd&_). apply (Hd e); set_solver.
Qed.

Lemma ulist_push_front_repr s l x :
  repr s l → x ∉ l →
  ∃ s', ulist_push_front x s = (Ok tt, s') ∧ repr s' (x :: l) ∧
    same_outside (x :: l) (links s) (links s').
Proof.
  intros R Hx. unfold ulist_push_front. erewrite M_bind_ok by done.
  destruct l as [|y l]; rewrite (repr_first _ _ R); simpl.
  - destruct (ulist_push_back_repr s [] x R Hx) as (s'&Hs&?). exists s'.
    unfold ulist_push_back in Hs. erewrite M_bind_ok in Hs by done.
    rewrite (repr_first _ _ R) in Hs. done.
  - apply (ulist_insert_before_repr s [] y l x R Hx).
Qed.

(** The effect of [remove] on the links, entry by entry. *)
Lemma remove_links s p e n :
  linked (links s) p e → linked (links s) e n → n ≠ e → p ≠ e → is_Some (first s) →
  ∃ s', ulist_remove e s = (Ok tt, s') ∧
    first s' = (if decide (first s = Some e) then Some n else first s) ∧
    (∀ x, x ≠ e → next_of (links s') x = if decide (x = p) then Some n else next_of (links s) x) ∧
    (∀ x, x ≠ e → prev_of (links s') x = if decide (x = n) then Some p else prev_of (links s) x) ∧
    same_outside [p; e; n] (links s) (links s').
Proof.
  intros [Hn1 Hp1] [Hn2 Hp2] Hne Hpe [f Hf].
  apply next_of_Some in Hn1 as (kp&Hkp&Hkpn). apply prev_of_Some in Hp1 as (ke&Hke&Hkep).
  apply next_of_Some in Hn2 as (ke'&Hke'&Hken). rewrite Hke in Hke'. injection Hke' as <-.
  apply prev_of_Some in Hp2 as (kn&Hkn&Hknp).
  unfold ulist_remove. erewrite M_bind_ok by (unfold inner_ref; by rewrite Hke).
  cbv zeta. rewrite Hken, Hkep. erewrite M_bind_ok by done. rewrite decide_False by done.
  erewrite M_bind_ok.
  2:{ apply set_next_ok. simpl. by rewrite lookup_delete_ne. }
  assert (∃ k, <[p := {| next := n; prev := prev kp |}]> (delete e (links s)) !! n = Some k ∧
    next k = if decide (p = n) then n else next kn) as (k&Hk&Hkk).
  { rewrite lookup_insert. case_decide; [eauto|]. rewrite lookup_delete_ne by done. eauto. }
  erewrite M_bind_ok by (apply set_prev_ok; exact Hk). erewrite M_bind_ok by done.
  simpl. rewrite Hf. erewrite M_bind_ok by done. exists {|
    first := if decide (Some f = Some e) then Some n else Some f;
    links := <[n := {| next := next k; prev := p |}]>
      (<[p := {| next := n; prev := prev kp |}]> (delete e (links s))) |}.
  split_and!; simpl.
  - repeat case_decide; naive_solver.
  - done.
  - intros x Hx. rewrite !next_of_insert, next_of_delete by done. simpl. rewrite Hkk.
    unfold next_of. repeat case_decide; subst; try done. by rewrite Hkn.
  - intros x Hx. rewrite !prev_of_insert, prev_of_delete by done. simpl.
    unfold prev_of. repeat case_decide; subst; try done. by rewrite Hkp.
  - intros x Hx. rewrite !lookup_insert_ne, lookup_delete_ne by set_solver. done.
Qed.

(** The neighbours of the last entry of a longer ring. *)
Lemma ring_neighbours mem n l e :
  ring mem (n :: l ++ [e]) →
  linked mem (default n (last l)) e ∧ linked mem e n ∧ chain mem (n :: l).
Proof.
  intros Hr. split_and!.
  - destruct l as [|p l _] using rev_ind; simpl.
    + simpl in Hr. by apply chain_cons in Hr as [? _].
    + rewrite last_snoc. simpl in *. rewrite <-!app_assoc in Hr. simpl in Hr.
      change (n :: l ++ [p; e; n]) with ((n :: l) ++ p :: [e; n]) in Hr.
      apply chain_app in Hr as [_ Hr]. by apply chain_cons in Hr as [? _].
  - by apply (ring_last mem e (n :: l)).
  - simpl in Hr. rewrite <-app_assoc in Hr. destruct l as [|p l _] using rev_ind; [done|].
    rewrite <-app_assoc in Hr. change (n :: l ++ [p] ++ [e] ++ [n])
      with ((n :: l) ++ p :: [e; n]) in Hr. by apply chain_app in Hr as [? _].
Qed.

(** Removing the last entry of a ring. *)
Lemma remove_last s n l e :
  ring (links s) (n :: l ++ [e]) → NoDup (n :: l ++ [e]) → is_Some (first s) →
  ∃ s', ulist_remove e s = (Ok tt, s') ∧
    first s' = (if decide (first s = Some e) then Some n else first s) ∧
    ring (links s') (n :: l) ∧ same_outside (n :: l ++ [e]) (links s) (links s').
Proof.
  intros Hr Hnd Hf. destruct (ring_neighbours _ _ _ _ Hr) as (Hpe&Hen&Hc).
  apply NoDup_cons in Hnd as [Hn Hnd]. apply NoDup_app in Hnd as (Hnd&Hd&_).
  set (p := default n (last l)) in *.
  assert (p ∈ n :: l) as Hpin.
  { unfold p. destruct (last l) as [q|] eqn:Hq; simpl; [|set_solver].
    apply last_Some_elem_of in Hq. set_solver. }
  assert (n ≠ e) as Hne by set_solver.
  assert (p ≠ e) as Hpe'.
  { intros ->. apply elem_of_cons in Hpin as [->|Hpin]; [done|]. apply (Hd e); set_solver. }
  destruct (remove_links s p e n Hpe Hen Hne Hpe' Hf) as (s'&Hs&Hfs&Hnx&Hpv&Hout).
  exists s'. split_and!; [done..| |]; [|intros x Hx; apply Hout; set_solver].
  assert (linked (links s') p n) as Hpn.
  { split; [rewrite Hnx|rewrite Hpv]; by rewrite ?decide_True. }
  destruct l as [|q l _] using rev_ind.
  - simpl in p. subst p. simpl. by apply chain_cons.
  - assert (p = q) as -> by (unfold p; by rewrite last_snoc). simpl in *.
    rewrite <-app_assoc. change (n :: l ++ [q] ++ [n]) with ((n :: l) ++ q :: [n]).
    apply chain_app. split; [|by apply chain_cons].
    apply NoDup_app in Hnd as (Hnd&Hd'&_).
    apply (chain_frame (links s)); [done|..]; intros z Hz.
    + assert (z ≠ e) by (intros ->; apply elem_of_cons in Hz as [->|Hz]; [done|];
        apply (Hd e); set_solver).
      rewrite Hnx, decide_False; [done| |done]. intros ->.
      apply elem_of_cons in Hz as [->|Hz]; [set_solver|]. apply (Hd' q); set_solver.
    + assert (z ≠ e) by (intros ->; apply (Hd e); set_solver).
      rewrite Hpv, decide_False; [done| |done]. intros ->. set_solver.
Qed.

Lemma ulist_remove_repr s l1 x l2 :
  repr s (l1 ++ x :: l2) →
  ∃ s', ulist_remove x s = (Ok tt, s') ∧ repr s' (l1 ++ l2) ∧
    same_outside (l1 ++ x :: l2) (links s) (links s').
Proof.
  intros [Hf Hnd Hr].
  assert (l1 ++ x :: l2 ≡ₚ (l2 ++ l1) ++ [x]) as Hperm.
  { rewrite Permutation_app_comm. simpl. by rewrite Permutation_cons_append. }
  assert (NoDup (l1 ++ l2)) as Hnd'.
  { rewrite <-Permutation_middle in Hnd. by apply NoDup_cons in Hnd as [_ ?]. }
  change (x :: l2) with ([x] ++ l2) in Hr. rewrite app_assoc in Hr.
  apply ring_rotate in Hr. rewrite app_assoc in Hr.
  destruct (l2 ++ l1) as [|n m] eqn:Hm.
  - apply app_eq_nil in Hm as [-> ->]. simpl in *.
    apply chain_cons in Hr as [[Hn _] _]. apply next_of_Some in Hn as (k&Hk&Hkn).
    unfold ulist_remove. erewrite M_bind_ok by (unfold inner_ref; by rewrite Hk).
    cbv zeta. rewrite Hkn. erewrite M_bind_ok by done. rewrite decide_True by done.
    eexists. split; [done|]. split; [split|]; [done|constructor|done|].
    intros z Hz. simpl. by rewrite lookup_delete_ne by set_solver.
  - destruct (remove_last s n m x Hr) as (s'&Hs&Hfs&Hr'&Hout).
    { by rewrite Hperm in Hnd. }
    { rewrite Hf. by destruct l1. }
    exists s'. split_and!; [done|split|].
    + rewrite Hfs, Hf. destruct l1 as [|y l1]; simpl.
      * rewrite decide_True by done. rewrite app_nil_r in Hm. by subst.
      * rewrite decide_False; [done|]. intros [= ->].
        apply NoDup_cons in Hnd as [Hx _]. set_solver.
    + done.
    + apply ring_rotate. by rewrite Hm.
    + intros z Hz. apply Hout. rewrite Hperm in Hz. done.
Qed.

Lemma list_pop_front_repr s l :
  repr s l →
  match l with
  | [] => list_pop_front s = (Ok None, s)
  | x :: l' => ∃ s', list_pop_front s = (Ok (Some x), s') ∧ repr s' l' ∧
      same_outside l (links s) (links s')
  end.
Proof.
  intros R. unfold list_pop_front, ulist_front. erewrite M_bind_ok by done.
  rewrite (repr_first _ _ R). destruct l as [|x l]; [done|]. simpl.
  destruct (ulist_remove_repr s [] x l R) as (s'&Hs&?&?).
  erewrite M_bind_ok by exact Hs. eauto.
Qed.

(** ** Traversal *)

Lemma cursor_next_repr s l1 x l2 :
  repr s (l1 ++ x :: l2) → cursor_move_next (Some x) s = (Ok (head l2), s).
Proof.
  intros [Hf Hnd Hr]. destruct (head (l1 ++ x :: l2)) as [h|] eqn:Hh; [|by destruct l1].
  assert (∃ k, links s !! x = Some k ∧ next k = default h (head l2)) as (k&Hk&Hkn).
  { change (x :: l2) with ([x] ++ l2) in Hr. rewrite app_assoc in Hr.
    apply ring_rotate in Hr. rewrite app_assoc in Hr.
    destruct (head ((l2 ++ l1) ++ [x])) as [n|] eqn:Hn; [|by destruct (l2 ++ l1)].
    destruct (ring_last _ _ _ Hr n Hn) as [(k&Hk&Hkn)%next_of_Some _].
    exists k. split; [done|]. rewrite Hkn. destruct l2 as [|y l2]; simpl in *; [|congruence].
    destruct l1; simpl in *; congruence. }
  unfold cursor_move_next. erewrite M_bind_ok by done. rewrite Hf.
  erewrite M_bind_ok by (unfold inner_ref; by rewrite Hk). rewrite Hkn.
  destruct l2 as [|y l2]; simpl.
  - case_decide; [done|]. done.
  - rewrite decide_True; [done|]. intros ->.
    apply NoDup_app in Hnd as (_&Hd&Hnd). destruct l1 as [|z l1]; simpl in Hh; injection Hh as ->.
    + apply NoDup_cons in Hnd as [? _]. set_solver.
    + apply (Hd h); set_solver.
Qed.

Lemma iterate_repr s l1 l2 fuel :
  repr s (l1 ++ l2) → (length l2 ≤ fuel)%nat → iterate fuel (head l2) s = (Ok l2, s).
Proof.
  revert l1 fuel. induction l2 as [|x l2 IH]; intros l1 fuel R Hf; [by destruct fuel|].
  destruct fuel as [|fuel]; simpl in Hf; [lia|]. simpl.
  erewrite M_bind_ok by (by eapply cursor_next_repr).
  erewrite M_bind_ok; [done|]. apply (IH (l1 ++ [x])); [|lia]. by rewrite <-app_assoc.
Qed.

Lemma ulist_back_repr s l : repr s l → ulist_back s = (Ok (last l), s).
Proof.
  intros [Hf Hnd Hr]. unfold ulist_back. erewrite M_bind_ok by done. rewrite Hf.
  destruct l as [|x l _] using rev_ind; [done|]. rewrite last_snoc.
  destruct (head (l ++ [x])) as [h|] eqn:Hh; [|by destruct l].
  destruct (ring_last _ _ _ Hr h Hh) as [_ (k&Hk&Hkp)%prev_of_Some].
  erewrite M_bind_ok by (unfold inner_ref; by rewrite Hk). by rewrite Hkp.
Qed.

Lemma list_drop_repr s l fuel :
  repr s l → (length l ≤ fuel)%nat →
  ∃ s', list_drop fuel s = (Ok tt, s') ∧ repr s' [] ∧ same_outside l (links s) (links s').
Proof.
  revert s fuel. induction l as [|x l IH]; intros s fuel R Hf;
    pose proof (list_pop_front_repr s _ R) as Hp; simpl in Hp.
  - exists s. destruct fuel; simpl; (erewrite M_bind_ok by exact Hp); done.
  - destruct Hp as (s1&Hs1&R1&Hout). destruct fuel as [|fuel]; simpl in Hf; [lia|]. simpl.
    erewrite M_bind_ok by exact Hs1. destruct (IH s1 fuel R1) as (s'&Hs'&R'&Hout'); [lia|].
    exists s'. split_and!; [done..|]. intros z Hz. rewrite Hout', Hout by set_solver. done.
Qed.

(** ** Operations on sequences *)

Inductive ListOp : Type :=
| OpPushBack (x : positive)
| OpPushFront (x : positive)
| OpInsertAfter (e x : positive)
| OpInsertBefore (e x : positive)
| OpRemove (x : positive)
| OpPopFront
| OpFront
| OpBack
| OpIsEmpty
| OpIter (fuel : nat)
| OpDrop (fuel : nat).
(** What an operation returns. *)
Inductive ListRet : Type := RUnit | REntry (e : option positive) | RBool (b : bool) | REntries (l : list positive).

(** What the safety comments require of the caller: an entry that is inserted is not on
    the list, one that is removed or inserted next to is.  The loops end after one turn
    for each entry. *)
Definition op_safe (l : list positive) (op : ListOp) : Prop :=
  match op with
  | OpPushBack x | OpPushFront x => x ∉ l
  | OpInsertAfter e x | OpInsertBefore e x => e ∈ l ∧ x ∉ l
  | OpRemove x => x ∈ l
  | OpIter fuel | OpDrop fuel => (length l ≤ fuel)%nat
  | OpPopFront | OpFront | OpBack | OpIsEmpty => True
  end.

Fixpoint seq_insert_after (e x : positive) (l : list positive) : list positive :=
  match l with
  | [] => []
  | y :: l' => if decide (y = e) then y :: x :: l' else y :: seq_insert_after e x l'
  end.

Fixpoint seq_insert_before (e x : positive) (l : list positive) : list positive :=
  match l with
  | [] => []
  | y :: l' => if decide (y = e) then x :: y :: l' else y :: seq_insert_before e x l'
  end.

(** The specification: result and sequence after an operation. *)
Definition seq_step (op : ListOp) (l : list positive) : ListRet * list positive :=
  match op with
  | OpPushBack x => (RUnit, l ++ [x])
  | OpPushFront x => (RUnit, x :: l)
  | OpInsertAfter e x => (RUnit, seq_insert_after e x l)
  | OpInsertBefore e x => (RUnit, seq_insert_before e x l)
  | OpRemove x => (REntry (Some x), filter (x ≠.) l)
  | OpPopFront => (REntry (head l), tail l)
  | OpFront => (REntry (head l), l)
  | OpBack => (REntry (last l), l)
  | OpIsEmpty => (RBool (bool_decide (l = [])), l)
  | OpIter _ => (REntries l, l)
  | OpDrop _ => (RUnit, [])
  end.

(** The implementation of an operation. *)
Definition list_step (op : ListOp) : LM ListRet :=
  match op with
  | OpPushBack x => _ ← list_push_back x; mret RUnit
  | OpPushFront x => _ ← ulist_push_front x; mret RUnit
  | OpInsertAfter e x => _ ← list_insert_after e x; mret RUnit
  | OpInsertBefore e x => _ ← ulist_insert_before e x; mret RUnit
  | OpRemove x => r ← list_remove x; mret (REntry r)
  | OpPopFront => r ← list_pop_front; mret (REntry r)
  | OpFront => r ← list_front; mret (REntry r)
  | OpBack => r ← list_back; mret (REntry r)
  | OpIsEmpty => s ← get_state; mret (RBool (list_is_empty s))
  | OpIter fuel => r ← ulist_iter fuel; mret (REntries r)
  | OpDrop fuel => _ ← list_drop fuel; mret RUnit
  end.

Lemma seq_insert_after_split l1 e l2 x :
  e ∉ l1 → seq_insert_after e x (l1 ++ e :: l2) = l1 ++ e :: x :: l2.
Proof.
  induction l1 as [|y l1 IH]; intros He; simpl; [by rewrite decide_True|].
  rewrite decide_False by set_solver. rewrite IH by set_solver. done.
Qed.

Lemma seq_insert_before_split l1 e l2 x :
  e ∉ l1 → seq_insert_before e x (l1 ++ e :: l2) = l1 ++ x :: e :: l2.
Proof.
  induction l1 as [|y l1 IH]; intros He; simpl; [by rewrite decide_True|].
  rewrite decide_False by set_solver. rewrite IH by set_solver. done.
Qed.

Lemma filter_ne_notin (x : positive) (l : list positive) : x ∉ l → filter (x ≠.) l = l.
Proof.
  induction l as [|y l IH]; intros Hx; [done|].
  rewrite filter_cons_True by set_solver. f_equal. apply IH. set_solver.
Qed.

Lemma filter_ne_split (x : positive) (l1 l2 : list positive) :
  NoDup (l1 ++ x :: l2) → filter (x ≠.) (l1 ++ x :: l2) = l1 ++ l2.
Proof.
  intros Hnd. rewrite <-Permutation_middle in Hnd. apply NoDup_cons in Hnd as [Hx _].
  rewrite filter_app, filter_cons_False by (by intros ?).
  by rewrite !filter_ne_notin by set_solver.
Qed.

Lemma repr_split s l e :
  repr s l → e ∈ l → ∃ l1 l2, l = l1 ++ e :: l2 ∧ e ∉ l1 ∧ NoDup (l1 ++ e :: l2).
Proof.
  intros R (l1&l2&->)%list_elem_of_split. exists l1, l2. pose proof (repr_nodup _ _ R) as Hnd.
  split_and!; [done| |done]. apply NoDup_app in Hnd as (_&Hd&_). intros He.
  apply (Hd e); set_solver.
Qed.

(** ** Properties *)

(** C11: every operation (insertions, [remove], [pop_front], [front], [back],
    [is_empty], iteration and [Drop]) used within its safety contract terminates
    without undefined behaviour and refines the operation on sequences: it returns
    what the sequence operation returns and the list then holds the resulting
    sequence; the links of entries outside the list are not touched.  The contract is
    that an inserted entry is not on the list already, and that one that is removed or
    inserted next to is; the documentation of the safe [push_back] says that an entry
    on a list is handled, but it corrupts the list ([push_back_twice_corrupts]). *)
Theorem list_refines s l op :
  repr s l → op_safe l op →
  ∃ s', list_step op s = (Ok (seq_step op l).1, s') ∧ repr s' (seq_step op l).2 ∧
    same_outside ((seq_step op l).2 ++ l) (links s) (links s').
Proof.
  intros R Hsafe. pose proof (repr_first _ _ R) as Hfst.
  destruct op as [x|x|e x|e x|x| | | | |fuel|fuel]; cbn [list_step seq_step fst snd op_safe] in *.
  - destruct (ulist_push_back_repr s l x R Hsafe) as (s'&Hs&?&Ho). exists s'.
    erewrite M_bind_ok by exact Hs. split_and!; [done..|]. intros z Hz. apply Ho. set_solver.
  - destruct (ulist_push_front_repr s l x R Hsafe) as (s'&Hs&?&Ho). exists s'.
    erewrite M_bind_ok by exact Hs. split_and!; [done..|]. intros z Hz. apply Ho. set_solver.
  - destruct Hsafe as [He Hx]. destruct (repr_split _ _ _ R He) as (l1&l2&->&He'&_).
    destruct (ulist_insert_after_repr s l1 e l2 x R Hx) as (s'&Hs&?&Ho). exists s'.
    rewrite seq_insert_after_split by done.
    erewrite M_bind_ok by exact Hs. split_and!; [done..|]. intros z Hz. apply Ho. set_solver.
  - destruct Hsafe as [He Hx]. destruct (repr_split _ _ _ R He) as (l1&l2&->&He'&_).
    destruct (ulist_insert_before_repr s l1 e l2 x R Hx) as (s'&Hs&?&Ho). exists s'.
    rewrite seq_insert_before_split by done.
    erewrite M_bind_ok by exact Hs. split_and!; [done..|]. intros z Hz. apply Ho. set_solver.
  - destruct (repr_split _ _ _ R Hsafe) as (l1&l2&->&_&Hnd).
    destruct (ulist_remove_repr s l1 x l2 R) as (s'&Hs&?&Ho). exists s'.
    rewrite filter_ne_split by done. unfold list_remove.
    erewrite M_bind_ok by (by erewrite M_bind_ok by exact Hs). split_and!; [done..|]. intros z Hz. apply Ho. set_solver.
  - pose proof (list_pop_front_repr s l R) as Hp. destruct l as [|x l]; simpl in *.
    { exists s. by erewrite M_bind_ok by exact Hp. }
    destruct Hp as (s'&Hs&?&Ho). exists s'. erewrite M_bind_ok by exact Hs. split_and!; [done..|]. intros z Hz. apply Ho.
    set_solver.
  - exists s. unfold list_front, ulist_front. erewrite M_bind_ok by done. by rewrite Hfst.
  - exists s. by erewrite M_bind_ok by (by apply ulist_back_repr).
  - exists s. erewrite M_bind_ok by done. unfold list_is_empty, ulist_is_empty. rewrite Hfst. by destruct l.
  - exists s. by erewrite M_bind_ok by (unfold ulist_iter, ulist_front; erewrite M_bind_ok by done; rewrite Hfst; by apply (iterate_repr s [])).
  - destruct (list_drop_repr s l fuel R Hsafe) as (s'&Hs&?&Ho). exists s'. by erewrite M_bind_ok by exact Hs.
Qed.

Lemma list_refines_witness :
  let s := {| first := Some 1%positive;
              links := {[ 1%positive := {| next := 1; prev := 1 |} ]} |} in
  ∃ s', list_step (OpPushBack 2) s = (Ok RUnit, s') ∧ repr s' [1; 2]%positive.
Proof.
  intros s. destruct (list_refines s [1%positive] (OpPushBack 2)) as (s'&Hs&R&_).
  - split; [done|apply NoDup_singleton|]. simpl. by apply chain_cons.
  - simpl. by rewrite list_elem_of_singleton.
  - by exists s'.
Defined.

(** iterating a list visits exactly its sequence, in order, and ends; [front]
    and [back] are its ends; and dropping the list unlinks every entry. *)
Theorem list_traversal s l fuel :
  repr s l → (length l ≤ fuel)%nat →
  ulist_iter fuel s = (Ok l, s) ∧
  list_front s = (Ok (head l), s) ∧ list_back s = (Ok (last l), s) ∧
  list_is_empty s = bool_decide (l = []) ∧
  ∃ s', list_drop fuel s = (Ok tt, s') ∧ repr s' [].
Proof.
  intros R Hf. pose proof (repr_first _ _ R) as Hfst. split_and!.
  - unfold ulist_iter, ulist_front. erewrite M_bind_ok by done. rewrite Hfst.
    by apply (iterate_repr s []).
  - unfold list_front, ulist_front, get_first, gets. by rewrite Hfst.
  - by apply ulist_back_repr.
  - unfold list_is_empty, ulist_is_empty. rewrite Hfst. by destruct l.
  - destruct (list_drop_repr s l fuel R Hf) as (s'&?&?&_). eauto.
Qed.

Lemma list_traversal_witness :
  let s := {| first := Some 1%positive;
              links := {[ 1%positive := {| next := 1; prev := 1 |} ]} |} in
  repr s [1%positive] ∧ ulist_iter 1 s = (Ok [1%positive], s).
Proof.
  intros s. assert (repr s [1%positive]) as R.
  { split; [done|apply NoDup_singleton|]. simpl. by apply chain_cons. }
  split; [exact R|]. apply (list_traversal s [1%positive] 1 R). reflexivity.
Defined.

(** [push_back] of an entry that is already in the list is not a no-op and
    does not drop the entry, as its documentation says: on the list [1, 2],
    pushing [1] again makes the list end after [1], so [2] is lost. *)
Theorem push_back_twice_corrupts :
  let s := {| first := Some 1%positive;
              links := {[ 1%positive := {| next := 2; prev := 2 |};
                          2%positive := {| next := 1; prev := 1 |} ]} |} in
  repr s [1; 2]%positive ∧ (ulist_iter 3 s).1 = Ok [1; 2]%positive ∧
  (ulist_iter 3 (list_push_back 1 s).2).1 = Ok [1]%positive.
Proof.
  intros s. split; [split|split; vm_compute; reflexivity].
  - done.
  - repeat (constructor; [set_solver|]). constructor.
  - simpl. rewrite !chain_cons. by split_and!.
Qed.
