(* ===== verification/Containers.v ===== *)
(** * Ordered maps of the standard library

    [alloc::collections::BTreeMap] as the list of its entries in key order,
    which is also its iteration order: the operations the sources use, and the
    laws that make them a map.  [KeyOrd] is the [Ord] of the key type. *)

From stdpp Require Import base decidable numbers list gmap sorting.
From Stdlib Require Import ZArith Lia Ascii.
From S2P Require Import Prelude.

Class KeyOrd (K : Type) : Type := {
  kcmp : K → K → comparison;
  kcmp_eq a b : kcmp a b = Eq ↔ a = b;
  kcmp_opp a b : kcmp b a = CompOpp (kcmp a b);
  kcmp_trans a b c : kcmp a b = Lt → kcmp b c = Lt → kcmp a c = Lt;
}.

Section btree.
Context {K V : Type} `{KeyOrd K}.
Implicit Types (m : list (K * V)).

Fixpoint bt_get (k : K) m : option V :=
  match m with
  | [] => None
  | (k', v) :: m' =>
      match kcmp k k' with Lt => None | Eq => Some v | Gt => bt_get k m' end
  end.

Definition bt_contains (k : K) m : bool :=
  match bt_get k m with Some _ => true | None => false end.

Fixpoint bt_insert (k : K) (v : V) m : list (K * V) :=
  match m with
  | [] => [(k, v)]
  | (k', v') :: m' =>
      match kcmp k k' with
      | Lt => (k, v) :: m
      | Eq => (k, v) :: m'
      | Gt => (k', v') :: bt_insert k v m'
      end
  end.

Fixpoint bt_remove (k : K) m : list (K * V) :=
  match m with
  | [] => []
  | (k', v') :: m' =>
      match kcmp k k' with
      | Lt => m
      | Eq => m'
      | Gt => (k', v') :: bt_remove k m'
      end
  end.

(** [first_key_value] and [pop_first]. *)
Definition bt_first m : option (K * V) := head m.
Definition bt_pop_first m : option (K * V) * list (K * V) := (head m, tail m).

Definition bt_lt (x y : K * V) : Prop := kcmp x.1 y.1 = Lt.
Definition bt_sorted m : Prop := StronglySorted bt_lt m.

Lemma kcmp_refl k : kcmp k k = Eq.
Proof. by apply kcmp_eq. Qed.

Lemma kcmp_gt a b : kcmp a b = Gt → kcmp b a = Lt.
Proof. intros Hab. by rewrite kcmp_opp, Hab. Qed.

Lemma bt_sorted_cons x m : bt_sorted (x :: m) ↔ bt_sorted m ∧ Forall (bt_lt x) m.
Proof.
  split; [intros Hs; by inversion Hs|]. intros [??]. by constructor.
Qed.

Lemma bt_get_below k m : Forall (λ y, kcmp k y.1 = Lt) m → bt_get k m = None.
Proof. destruct m as [|[k' v'] m]; [done|]. intros [Hk _]%Forall_cons. simpl in *. by rewrite Hk. Qed.

Lemma bt_below k k' (m : list (K * V)) (v' : V) :
  kcmp k k' = Lt → Forall (bt_lt (k', v')) m → Forall (λ y, kcmp k y.1 = Lt) m.
Proof.
  intros Hk Hf. eapply Forall_impl; [exact Hf|]. intros y Hy. unfold bt_lt in Hy. simpl in Hy.
  by apply kcmp_trans with k'.
Qed.

Lemma bt_get_insert_eq k v m : bt_get k (bt_insert k v m) = Some v.
Proof.
  induction m as [|[k' v'] m IH]; simpl; [by rewrite kcmp_refl|].
  destruct (kcmp k k') eqn:Hk; simpl; rewrite ?kcmp_refl, ?Hk; done.
Qed.

Lemma bt_get_insert_ne k k' v m :
  bt_sorted m → k' ≠ k → bt_get k' (bt_insert k v m) = bt_get k' m.
Proof.
  intros Hs Hne. induction m as [|[k1 v1] m IH]; simpl.
  - destruct (kcmp k' k) eqn:Hk; [by apply kcmp_eq in Hk|done..].
  - apply bt_sorted_cons in Hs as [Hs Hf]. destruct (kcmp k k1) eqn:Hk; simpl.
    + apply kcmp_eq in Hk as ->. destruct (kcmp k' k1) eqn:Hk'; [by apply kcmp_eq in Hk'|done..].
    + destruct (kcmp k' k) eqn:Hk'; [by apply kcmp_eq in Hk'|..|done].
      by rewrite (kcmp_trans k' k k1).
    + by rewrite IH.
Qed.

Lemma bt_insert_forall (Q : K * V → Prop) k v m :
  Forall Q m → Q (k, v) → Forall Q (bt_insert k v m).
Proof.
  intros Hm Hq. induction m as [|[k1 v1] m IH]; simpl; [by constructor|].
  apply Forall_cons in Hm as [H1 Hm]. destruct (kcmp k k1); repeat constructor; auto.
Qed.

Lemma bt_insert_sorted k v m : bt_sorted m → bt_sorted (bt_insert k v m).
Proof.
  induction m as [|[k1 v1] m IH]; intros Hs; simpl; [by repeat constructor|].
  apply bt_sorted_cons in Hs as [Hs Hf]. destruct (kcmp k k1) eqn:Hk; apply bt_sorted_cons.
  - apply kcmp_eq in Hk as ->. done.
  - split; [by apply bt_sorted_cons|]. constructor; [done|].
    by apply (bt_below k k1 m v1).
  - split; [by apply IH|]. apply bt_insert_forall; [done|]. by apply kcmp_gt.
Qed.

Lemma bt_get_remove_eq k m : bt_sorted m → bt_get k (bt_remove k m) = None.
Proof.
  induction m as [|[k1 v1] m IH]; intros Hs; simpl; [done|].
  apply bt_sorted_cons in Hs as [Hs Hf]. destruct (kcmp k k1) eqn:Hk; simpl.
  - apply kcmp_eq in Hk as ->. by apply bt_get_below.
  - by rewrite Hk.
  - rewrite Hk. by apply IH.
Qed.

Lemma bt_get_remove_ne k k' m :
  bt_sorted m → k' ≠ k → bt_get k' (bt_remove k m) = bt_get k' m.
Proof.
  intros Hs Hne. induction m as [|[k1 v1] m IH]; simpl; [done|].
  apply bt_sorted_cons in Hs as [Hs Hf]. destruct (kcmp k k1) eqn:Hk; simpl; [|done|by rewrite IH].
  apply kcmp_eq in Hk as ->. destruct (kcmp k' k1) eqn:Hk'; [by apply kcmp_eq in Hk'|..|done].
  by apply bt_get_below, (bt_below k' k1 m v1).
Qed.

Lemma bt_remove_forall (Q : K * V → Prop) k m : Forall Q m → Forall Q (bt_remove k m).
Proof.
  intros HQ. induction m as [|[k1 v1] m IH]; simpl; [done|].
  apply Forall_cons in HQ as [H1 HQ]. destruct (kcmp k k1); repeat constructor; auto.
Qed.

Lemma bt_remove_sorted k m : bt_sorted m → bt_sorted (bt_remove k m).
Proof.
  induction m as [|[k1 v1] m IH]; intros Hs; simpl; [done|].
  pose proof Hs as Hs'. apply bt_sorted_cons in Hs' as [Hs' Hf].
  destruct (kcmp k k1); [done|done|]. apply bt_sorted_cons. split; [by apply IH|].
  by apply bt_remove_forall.
Qed.

Lemma bt_elem_get k v m : bt_sorted m → (k, v) ∈ m ↔ bt_get k m = Some v.
Proof.
  intros Hs. induction m as [|[k1 v1] m IH]; simpl; [set_solver|].
  apply bt_sorted_cons in Hs as [Hs Hf]. rewrite elem_of_cons.
  destruct (kcmp k k1) eqn:Hk.
  - apply kcmp_eq in Hk as ->. split; [|intros [= ->]; by left].
    intros [[= ->]|Hin]; [done|]. rewrite Forall_forall in Hf. apply Hf in Hin.
    unfold bt_lt in Hin. simpl in Hin. by rewrite kcmp_refl in Hin.
  - split; [|done]. intros [[= -> ->]|Hin]; [by rewrite kcmp_refl in Hk|].
    rewrite Forall_forall in Hf. apply Hf in Hin. unfold bt_lt in Hin. simpl in Hin.
    pose proof (kcmp_trans _ _ _ Hin Hk) as Hc. by rewrite kcmp_refl in Hc.
  - rewrite <-IH by done. split; [|by right]. intros [[= -> ->]|?]; [|done].
    by rewrite kcmp_refl in Hk.
Qed.

(** The first entry has the least key. *)
Lemma bt_first_least k v m x :
  bt_sorted m → bt_first m = Some (k, v) → x ∈ m → x = (k, v) ∨ kcmp k x.1 = Lt.
Proof.
  intros Hs Hf Hx. destruct m as [|y m]; simpl in Hf; [done|]. injection Hf as ->.
  apply bt_sorted_cons in Hs as [_ Hs]. apply elem_of_cons in Hx as [->|Hx]; [by left|right].
  rewrite Forall_forall in Hs. by apply Hs.
Qed.
Lemma bt_insert_fresh k v m : bt_sorted m → bt_get k m = None → bt_insert k v m ≡ₚ (k, v) :: m.
Proof.
  induction m as [|[k1 v1] m IH]; intros Hs Hk; simpl in *; [done|].
  apply bt_sorted_cons in Hs as [Hs Hf]. destruct (kcmp k k1); [done|done|].
  rewrite IH by done. apply Permutation_swap.
Qed.

Lemma bt_remove_perm k v m : bt_sorted m → bt_get k m = Some v → m ≡ₚ (k, v) :: bt_remove k m.
Proof.
  induction m as [|[k1 v1] m IH]; intros Hs Hk; simpl in *; [done|].
  apply bt_sorted_cons in Hs as [Hs Hf]. destruct (kcmp k k1) eqn:Hc; [|done|].
  - apply kcmp_eq in Hc as ->. by injection Hk as ->.
  - rewrite (IH Hs Hk) at 1. apply Permutation_swap.
Qed.

Lemma bt_insert_perm k v m : bt_insert k v m ≡ₚ (k, v) :: bt_remove k m.
Proof.
  induction m as [|[k1 v1] m IH]; simpl; [done|]. destruct (kcmp k k1); [done|done|].
  rewrite IH. apply Permutation_swap.
Qed.

(** Membership after an insertion and a removal. *)
Lemma bt_elem_insert k v m x :
  bt_sorted m → x ∈ bt_insert k v m ↔ x = (k, v) ∨ (x ∈ m ∧ x.1 ≠ k).
Proof.
  intros Hs. destruct x as [k' v']. rewrite !bt_elem_get by auto using bt_insert_sorted. simpl.
  destruct (kcmp k' k) eqn:Hk.
  1: apply kcmp_eq in Hk as ->; rewrite bt_get_insert_eq; naive_solver.
  all: assert (k' ≠ k) by (intros ->; by rewrite kcmp_refl in Hk);
    rewrite bt_get_insert_ne by done; naive_solver.
Qed.

Lemma bt_elem_remove k m x : bt_sorted m → x ∈ bt_remove k m ↔ x ∈ m ∧ x.1 ≠ k.
Proof.
  intros Hs. destruct x as [k' v']. rewrite !bt_elem_get by auto using bt_remove_sorted. simpl.
  destruct (kcmp k' k) eqn:Hk.
  1: apply kcmp_eq in Hk as ->; rewrite bt_get_remove_eq by done; naive_solver.
  all: assert (k' ≠ k) by (intros ->; by rewrite kcmp_refl in Hk);
    rewrite bt_get_remove_ne by done; naive_solver.
Qed.
End btree.

(** ** Key types *)

(** [(isize, isize)], lexicographically. *)
Definition pair_cmp (a b : Z * Z) : comparison :=
  match Z.compare a.1 b.1 with Eq => Z.compare a.2 b.2 | c => c end.

#[export] Instance pair_ord : KeyOrd (Z * Z).
Proof.
  refine {| kcmp := pair_cmp |}.
  - intros [a1 a2] [b1 b2]. unfold pair_cmp. simpl.
    destruct (Z.compare_spec a1 b1), (Z.compare_spec a2 b2);
      (split; [intros|intros [= ? ?]]); subst; (done || lia).
  - intros [a1 a2] [b1 b2]. unfold pair_cmp. simpl.
    rewrite (Z.compare_antisym a1 b1), (Z.compare_antisym a2 b2).
    by destruct (a1 ?= b1)%Z, (a2 ?= b2)%Z.
  - intros [a1 a2] [b1 b2] [c1 c2]. unfold pair_cmp. simpl.
    destruct (Z.compare_spec a1 b1), (Z.compare_spec b1 c1), (Z.compare_spec a1 c1);
      try lia; try done; subst; rewrite ?Z.compare_lt_iff; lia.
Defined.
