(* ===== verification/Scheduler.v ===== *)
(** * Schedulers ([crates/scheduler])

    The trait [BaseScheduler] as a class of operations with what it promises to
    the run queue ([SchedulerSpec]), and its three implementations.  A task is a
    shared object ([Arc]), hence an address; the counters a scheduler keeps in
    the task are in a store of the scheduler's state, because they are shared by
    every holder of the [Arc]. *)

From stdpp Require Import base decidable numbers list gmap.
From Stdlib Require Import ZArith Lia.
From S2P Require Import Prelude LinkedList Containers.

Local Open Scope Z_scope.

(** ** The trait *)

(** The trait's operations; [sched_task_new] is the constructor of its
    [SchedItem], the wrapper each scheduler has for the tasks. *)
Class BaseScheduler (S : Type) : Type := {
  sched_task_new : positive → M S NoError unit;
  sched_init : M S NoError unit;
  sched_add_task : positive → M S NoError unit;
  sched_remove_task : positive → M S NoError (option positive);
  sched_pick_next_task : M S NoError (option positive);
  sched_put_prev_task : positive → bool → M S NoError unit;
  sched_task_tick : positive → M S NoError bool;
  sched_set_priority : positive → Z → M S NoError bool;
}.

(** What the run queue relies on: the scheduler holds a set of runnable tasks,
    picking removes one of them if there is any, adding and putting back insert
    one, a tick changes none.  [sched_known] are the tasks whose object exists,
    [sched_room n] that [n] more insertions can be made. *)
Class SchedulerSpec (S : Type) `{BaseScheduler S} : Type := {
  sched_ready : S → gset positive → Prop;
  sched_known : S → positive → Prop;
  sched_room : nat → S → Prop;
  sched_room_S n s : sched_room (Datatypes.S n) s → sched_room n s;
  sched_new_ok s X t :
    sched_ready s X → t ∉ X →
    ∃ s', sched_task_new t s = (Ok tt, s') ∧ sched_ready s' X ∧ sched_known s' t ∧
      (∀ u, sched_known s u → sched_known s' u) ∧ (∀ n, sched_room n s → sched_room n s');
  sched_add_ok s X t n :
    sched_ready s X → sched_known s t → sched_room (Datatypes.S n) s → t ∉ X →
    ∃ s', sched_add_task t s = (Ok tt, s') ∧ sched_ready s' ({[t]} ∪ X) ∧
      (∀ u, sched_known s u → sched_known s' u) ∧ sched_room n s';
  sched_put_ok s X t b n :
    sched_ready s X → sched_known s t → sched_room (Datatypes.S n) s → t ∉ X →
    ∃ s', sched_put_prev_task t b s = (Ok tt, s') ∧ sched_ready s' ({[t]} ∪ X) ∧
      (∀ u, sched_known s u → sched_known s' u) ∧ sched_room n s';
  sched_pick_ok s X :
    sched_ready s X →
    ∃ r s', sched_pick_next_task s = (Ok r, s') ∧
      (∀ u, sched_known s u → sched_known s' u) ∧ (∀ n, sched_room n s → sched_room n s') ∧
      match r with
      | Some t => t ∈ X ∧ sched_ready s' (X ∖ {[t]})
      | None => X = ∅ ∧ s' = s
      end;
  sched_tick_ok s X t :
    sched_ready s X → sched_known s t →
    ∃ b s', sched_task_tick t s = (Ok b, s') ∧ sched_ready s' X ∧
      (∀ u, sched_known s u → sched_known s' u) ∧ (∀ n, sched_room n s → sched_room n s');
  sched_prio_ok s X t prio :
    sched_ready s X → sched_known s t →
    ∃ b s', sched_set_priority t prio s = (Ok b, s') ∧ sched_ready s' X ∧
      (∀ u, sched_known s u → sched_known s' u) ∧ (∀ n, sched_room n s → sched_room n s');
}.

(** ** FIFO ([fifo.rs]): the ready queue is a linked list *)

Definition FifoScheduler : Type := LList.

Definition fifo_new (mem : gmap positive LinksInner) : FifoScheduler := list_new mem.
(** [FifoTask::new] for the task at [t]: its links are empty. *)
Definition fifo_task_new (t : positive) : M FifoScheduler NoError unit := drop_links t.
Definition fifo_init : M FifoScheduler NoError unit := mret tt.
Definition fifo_add_task (task : positive) : M FifoScheduler NoError unit := list_push_back task.
Definition fifo_remove_task (task : positive) : M FifoScheduler NoError (option positive) :=
  list_remove task.
Definition fifo_pick_next_task : M FifoScheduler NoError (option positive) := list_pop_front.
Definition fifo_put_prev_task (prev : positive) (_preempt : bool) : M FifoScheduler NoError unit :=
  list_push_back prev.
Definition fifo_task_tick (_current : positive) : M FifoScheduler NoError bool := mret false.
Definition fifo_set_priority (_task : positive) (_prio : Z) : M FifoScheduler NoError bool :=
  mret false.

Definition Fifo : BaseScheduler FifoScheduler := {|
  sched_task_new := fifo_task_new;
  sched_init := fifo_init;
  sched_add_task := fifo_add_task;
  sched_remove_task := fifo_remove_task;
  sched_pick_next_task := fifo_pick_next_task;
  sched_put_prev_task := fifo_put_prev_task;
  sched_task_tick := fifo_task_tick;
  sched_set_priority := fifo_set_priority;
|}.

(** ** Round robin ([round_robin.rs]) *)

Record RRScheduler : Type := {
  rr_queue : list positive;
  rr_slices : gmap positive Z;
}.

Section rr.
Context (MAX_TIME_SLICE : Z).

Definition rr_new (slices : gmap positive Z) : RRScheduler :=
  {| rr_queue := []; rr_slices := slices |}.

(** [RRTask::new] for the task at [t]. *)
Definition rr_task_new (t : positive) : M RRScheduler NoError unit :=
  modify (λ s, {| rr_queue := rr_queue s;
                  rr_slices := <[t := wrap_i64 MAX_TIME_SLICE]> (rr_slices s) |}).

Definition rr_time_slice (t : positive) : M RRScheduler NoError Z :=
  s ← get_state; unwrap (rr_slices s !! t).

Definition rr_reset_time_slice (t : positive) : M RRScheduler NoError unit :=
  modify (λ s, {| rr_queue := rr_queue s;
                  rr_slices := <[t := wrap_i64 MAX_TIME_SLICE]> (rr_slices s) |}).

Definition rr_set_queue (q : list positive) : M RRScheduler NoError unit :=
  modify (λ s, {| rr_queue := q; rr_slices := rr_slices s |}).

Definition rr_init : M RRScheduler NoError unit := mret tt.

Definition rr_add_task (task : positive) : M RRScheduler NoError unit :=
  s ← get_state; rr_set_queue (rr_queue s ++ [task]).

(** [position] and [VecDeque::remove]. *)
Definition rr_remove_task (task : positive) : M RRScheduler NoError (option positive) :=
  s ← get_state;
  match list_find (λ t, t = task) (rr_queue s) with
  | Some (idx, t) => _ ← rr_set_queue (delete idx (rr_queue s)); mret (Some t)
  | None => mret None
  end.

Definition rr_pick_next_task : M RRScheduler NoError (option positive) :=
  s ← get_state;
  match rr_queue s with
  | t :: q => _ ← rr_set_queue q; mret (Some t)
  | [] => mret None
  end.

Definition rr_put_prev_task (prev : positive) (preempt : bool) : M RRScheduler NoError unit :=
  slice ← rr_time_slice prev;
  if ((0 <? slice) && preempt)%bool then
    s ← get_state; rr_set_queue (prev :: rr_queue s)
  else
    _ ← rr_reset_time_slice prev;
    s ← get_state; rr_set_queue (rr_queue s ++ [prev]).

Definition rr_task_tick (current : positive) : M RRScheduler NoError bool :=
  old_slice ← rr_time_slice current;
  _ ← modify (λ s, {| rr_queue := rr_queue s;
                      rr_slices := <[current := wrap_i64 (old_slice - 1)]> (rr_slices s) |});
  mret (old_slice <=? 1).

Definition rr_set_priority (_task : positive) (_prio : Z) : M RRScheduler NoError bool :=
  mret false.

Definition RR : BaseScheduler RRScheduler := {|
  sched_task_new := rr_task_new;
  sched_init := rr_init;
  sched_add_task := rr_add_task;
  sched_remove_task := rr_remove_task;
  sched_pick_next_task := rr_pick_next_task;
  sched_put_prev_task := rr_put_prev_task;
  sched_task_tick := rr_task_tick;
  sched_set_priority := rr_set_priority;
|}.
End rr.

(** ** Completely fair ([cfs.rs]) *)

Record CFSTask : Type := {
  init_vruntime : Z;
  delta : Z;
  nice : Z;
  cfs_id : Z;
}.

Record CFScheduler : Type := {
  cfs_queue : list ((Z * Z) * positive);
  min_vruntime : option Z;
  id_pool : Z;
  cfs_tasks : gmap positive CFSTask;
}.

Definition NICE2WEIGHT_POS : list Z :=
  [1024; 820; 655; 526; 423; 335; 272; 215; 172; 137; 110; 87; 70; 56; 45; 36; 29; 23; 18; 15].
Definition NICE2WEIGHT_NEG : list Z :=
  [1024; 1277; 1586; 1991; 2501; 3121; 3906; 4904; 6100; 7620; 9548; 11916; 14949; 18705;
   23254; 29154; 36291; 46273; 56483; 71755; 88761].

Definition cfs_task_new : CFSTask := {| init_vruntime := 0; delta := 0; nice := 0; cfs_id := 0 |}.

(** An index out of range panics. *)
Definition get_weight (t : CFSTask) : option Z :=
  if 0 <=? nice t then NICE2WEIGHT_POS !! Z.to_nat (nice t)
  else NICE2WEIGHT_NEG !! Z.to_nat (wrap_i64 (- nice t)).

Definition get_vruntime (t : CFSTask) : option Z :=
  if nice t =? 0 then Some (wrap_i64 (init_vruntime t + delta t))
  else
    w ← get_weight t;
    Some (wrap_i64 (init_vruntime t + Z.quot (wrap_i64 (delta t * 1024)) w)).

Definition task_set_vruntime (v : Z) (t : CFSTask) : CFSTask :=
  {| init_vruntime := v; delta := delta t; nice := nice t; cfs_id := cfs_id t |}.
Definition task_set_id (i : Z) (t : CFSTask) : CFSTask :=
  {| init_vruntime := init_vruntime t; delta := delta t; nice := nice t; cfs_id := i |}.
Definition task_set_priority (n : Z) (t : CFSTask) : option CFSTask :=
  current_init_vruntime ← get_vruntime t;
  Some {| init_vruntime := current_init_vruntime; delta := 0; nice := n; cfs_id := cfs_id t |}.
Definition cfstask_tick (t : CFSTask) : CFSTask :=
  {| init_vruntime := init_vruntime t; delta := wrap_i64 (delta t + 1); nice := nice t;
     cfs_id := cfs_id t |}.

Abbreviation CM := (M CFScheduler NoError).

(** Access to the task object, which is alive while an [Arc] to it exists. *)
Definition load_task (t : positive) : CM CFSTask :=
  s ← get_state; unwrap (cfs_tasks s !! t).
Definition store_task (t : positive) (x : CFSTask) : CM unit :=
  modify (λ s, {| cfs_queue := cfs_queue s; min_vruntime := min_vruntime s;
                  id_pool := id_pool s; cfs_tasks := <[t := x]> (cfs_tasks s) |}).
Definition cfs_task_vruntime (t : positive) : CM Z :=
  x ← load_task t; unwrap (get_vruntime x).

Definition set_cfs_queue (q : list ((Z * Z) * positive)) : CM unit :=
  modify (λ s, {| cfs_queue := q; min_vruntime := min_vruntime s;
                  id_pool := id_pool s; cfs_tasks := cfs_tasks s |}).
Definition set_min_vruntime (v : option Z) : CM unit :=
  modify (λ s, {| cfs_queue := cfs_queue s; min_vruntime := v;
                  id_pool := id_pool s; cfs_tasks := cfs_tasks s |}).

(** [id_pool.fetch_add(1)]. *)
Definition next_id : CM Z :=
  s ← get_state;
  _ ← modify (λ s, {| cfs_queue := cfs_queue s; min_vruntime := min_vruntime s;
                      id_pool := wrap_i64 (id_pool s + 1); cfs_tasks := cfs_tasks s |});
  mret (id_pool s).

(** [min_vruntime] follows the first key of the queue. *)
Definition refresh_min_vruntime : CM unit :=
  s ← get_state;
  set_min_vruntime (match bt_first (cfs_queue s) with Some ((v, _), _) => Some v | None => None end).

Definition cfs_new (tasks : gmap positive CFSTask) : CFScheduler :=
  {| cfs_queue := []; min_vruntime := None; id_pool := 0; cfs_tasks := tasks |}.

Definition cfs_init : CM unit := mret tt.

Definition cfs_add_task (task : positive) : CM unit :=
  s ← get_state;
  _ ← match min_vruntime s with None => set_min_vruntime (Some 0) | Some _ => mret tt end;
  s ← get_state;
  vruntime ← unwrap (min_vruntime s);
  taskid ← next_id;
  x ← load_task task;
  _ ← store_task task (task_set_vruntime vruntime x);
  x ← load_task task;
  _ ← store_task task (task_set_id taskid x);
  s ← get_state;
  _ ← set_cfs_queue (bt_insert (vruntime, taskid) task (cfs_queue s));
  refresh_min_vruntime.

Definition cfs_remove_task (task : positive) : CM (option positive) :=
  v ← cfs_task_vruntime task;
  x ← load_task task;
  s ← get_state;
  match bt_get (v, cfs_id x) (cfs_queue s) with
  | Some tmp =>
      _ ← set_cfs_queue (bt_remove (v, cfs_id x) (cfs_queue s));
      _ ← refresh_min_vruntime;
      mret (Some tmp)
  | None => mret None
  end.

Definition cfs_pick_next_task : CM (option positive) :=
  s ← get_state;
  match bt_pop_first (cfs_queue s) with
  | (Some (_, v), q) => _ ← set_cfs_queue q; mret (Some v)
  | (None, _) => mret None
  end.

Definition cfs_put_prev_task (prev : positive) (_preempt : bool) : CM unit :=
  taskid ← next_id;
  x ← load_task prev;
  _ ← store_task prev (task_set_id taskid x);
  v ← cfs_task_vruntime prev;
  s ← get_state;
  set_cfs_queue (bt_insert (v, taskid) prev (cfs_queue s)).

Definition cfs_task_tick (current : positive) : CM bool :=
  x ← load_task current;
  _ ← store_task current (cfstask_tick x);
  s ← get_state;
  match min_vruntime s with
  | None => mret true
  | Some m => v ← cfs_task_vruntime current; mret (m <? v)
  end.

Definition cfs_set_priority (task : positive) (prio : Z) : CM bool :=
  if ((-20 <=? prio) && (prio <=? 19))%bool then
    x ← load_task task;
    x ← unwrap (task_set_priority prio x);
    _ ← store_task task x;
    mret true
  else mret false.

Definition CFS : BaseScheduler CFScheduler := {|
  sched_task_new t := store_task t cfs_task_new;
  sched_init := cfs_init;
  sched_add_task := cfs_add_task;
  sched_remove_task := cfs_remove_task;
  sched_pick_next_task := cfs_pick_next_task;
  sched_put_prev_task := cfs_put_prev_task;
  sched_task_tick := cfs_task_tick;
  sched_set_priority := cfs_set_priority;
|}.

(** ** FIFO implements the interface *)

Definition fifo_ready (s : FifoScheduler) (X : gset positive) : Prop :=
  ∃ l, repr s l ∧ X = list_to_set l.

Lemma fifo_push_ok s X t :
  fifo_ready s X → t ∉ X →
  ∃ s', list_push_back t s = (Ok tt, s') ∧ fifo_ready s' ({[t]} ∪ X).
Proof.
  intros (l&R&->) Ht. destruct (ulist_push_back_repr s l t R) as (s'&Hs&R'&_); [set_solver|].
  exists s'. split; [done|]. exists (l ++ [t]). split; [done|].
  rewrite list_to_set_app_L. set_solver.
Qed.

Lemma fifo_new_ok s X t : fifo_ready s X → t ∉ X → fifo_ready (fifo_task_new t s).2 X.
Proof.
  intros (l&[Hf Hnd Hr]&->) Ht. exists l. split; [|done]. split; simpl; [done|done|].
  destruct l as [|x l]; [done|]. rewrite ring_unfold in *. eapply chain_frame; [done|..];
    intros z Hz; unfold next_of, prev_of; rewrite lookup_delete_ne; set_solver.
Qed.

#[export] Instance fifo_spec : @SchedulerSpec FifoScheduler Fifo.
Proof.
  refine (@Build_SchedulerSpec FifoScheduler Fifo fifo_ready (λ _ _, True) (λ _ _, True)
    (λ _ _ _, I) _ _ _ _ _ _).
  - intros s X t Hr Ht. eexists. split; [done|]. split; [by apply fifo_new_ok|done].
  - intros s X t n Hr _ _ Ht. destruct (fifo_push_ok s X t Hr Ht) as (s'&?&?). eauto.
  - intros s X t b n Hr _ _ Ht. destruct (fifo_push_ok s X t Hr Ht) as (s'&?&?). eauto.
  - intros s X (l&R&->). pose proof (list_pop_front_repr s l R) as Hp.
    destruct l as [|x l]; simpl in *; [by eauto 10|].
    destruct Hp as (s'&Hs&R'&_). exists (Some x), s'. split_and!; [done|done|done|set_solver|].
    exists l. split; [done|]. pose proof (repr_nodup _ _ R) as Hnd.
    apply NoDup_cons in Hnd as [Hx _].
    assert (x ∉ (list_to_set l : gset positive)) by (by rewrite elem_of_list_to_set).
    set_solver.
  - intros s X t Hr _. exists false, s. done.
  - intros s X t prio Hr _. exists false, s. done.
Defined.

(** ** Round robin implements the interface *)

Definition rr_ready (s : RRScheduler) (X : gset positive) : Prop :=
  NoDup (rr_queue s) ∧ X = list_to_set (rr_queue s).

Lemma rr_time_slice_ok s t v :
  rr_slices s !! t = Some v → rr_time_slice t s = (Ok v, s).
Proof. intros Hv. unfold rr_time_slice. erewrite M_bind_ok by done. by rewrite Hv. Qed.

Lemma rr_back_ready q t (sl : gmap positive Z) X :
  rr_ready {| rr_queue := q; rr_slices := sl |} X → t ∉ X → ∀ sl',
  rr_ready {| rr_queue := q ++ [t]; rr_slices := sl' |} ({[t]} ∪ X).
Proof.
  intros [Hnd ->] Ht sl'. simpl in *. split; simpl.
  - apply NoDup_app. split; [done|]. split; [|apply NoDup_singleton]. set_solver.
  - rewrite list_to_set_app_L. set_solver.
Qed.

#[export] Instance rr_spec (S : Z) : @SchedulerSpec RRScheduler (RR S).
Proof.
  refine (@Build_SchedulerSpec RRScheduler (RR S) rr_ready
    (λ s t, is_Some (rr_slices s !! t)) (λ _ _, True) (λ _ _ _, I) _ _ _ _ _ _); simpl.
  - intros [q sl] X t Hr Ht. eexists. split; [done|]. split_and!; [done| | |done]; simpl.
    + rewrite lookup_insert_eq. eauto.
    + intros u Hu. rewrite lookup_insert. case_decide; eauto.
  - intros [q sl] X t n Hr Hk _ Ht. eexists. split; [done|]. split; [|done].
    by eapply rr_back_ready.
  - intros [q sl] X t b n Hr [v Hv] _ Ht. unfold rr_put_prev_task.
    erewrite M_bind_ok by (by apply rr_time_slice_ok).
    destruct ((0 <? v) && b)%bool; eexists; (split; [done|]); simpl.
    + split; [|done]. destruct Hr as [Hnd ->]. split; simpl in *; [|done].
      apply NoDup_cons. split; [set_solver|done].
    + split; [by eapply rr_back_ready|]. split; [|done].
      intros u Hu. rewrite lookup_insert. case_decide; eauto.
  - intros [q sl] X [Hnd ->]. unfold rr_pick_next_task. erewrite M_bind_ok by done. simpl in *.
    destruct q as [|t q]; simpl; [by eauto 10|]. do 2 eexists. split; [done|].
    apply NoDup_cons in Hnd as [Ht Hnd]. split_and!; [done|done|set_solver|]. split; simpl; [done|].
    assert (t ∉ (list_to_set q : gset positive)) by (by rewrite elem_of_list_to_set).
    set_solver.
  - intros [q sl] X t Hr [v Hv]. unfold rr_task_tick.
    erewrite M_bind_ok by (by apply rr_time_slice_ok). do 2 eexists. split; [done|].
    split; [done|]. split; [|done].
    intros u Hu. simpl. rewrite lookup_insert. case_decide; eauto.
  - intros s X t prio Hr _. exists false, s. done.
Defined.

(** ** The fair scheduler implements the interface *)

Definition cfs_task_ok (x : CFSTask) : Prop := -20 ≤ nice x ≤ 19.

Lemma get_weight_some x : cfs_task_ok x → ∃ w, get_weight x = Some w ∧ 0 < w.
Proof.
  intros Hx. unfold cfs_task_ok in Hx. unfold get_weight.
  destruct (Z.leb_spec 0 (nice x)).
  - destruct (lookup_lt_is_Some_2 NICE2WEIGHT_POS (Z.to_nat (nice x))) as [w Hw];
      [simpl; lia|]. exists w. split; [done|].
    assert (Forall (λ w, 0 < w) NICE2WEIGHT_POS) as Hp by (repeat constructor).
    by apply (Forall_lookup_1 _ _ _ _ Hp Hw).
  - rewrite wrap_i64_small by lia.
    destruct (lookup_lt_is_Some_2 NICE2WEIGHT_NEG (Z.to_nat (- nice x))) as [w Hw];
      [simpl; lia|]. exists w. split; [done|].
    assert (Forall (λ w, 0 < w) NICE2WEIGHT_NEG) as Hp by (repeat constructor).
    by apply (Forall_lookup_1 _ _ _ _ Hp Hw).
Qed.

Lemma get_vruntime_some x : cfs_task_ok x → ∃ v, get_vruntime x = Some v.
Proof.
  intros Hx. unfold get_vruntime. case_match; [by eauto|].
  destruct (get_weight_some x Hx) as (w&->&_). simpl. eauto.
Qed.

Record cfs_inv (s : CFScheduler) : Prop := {
  cfs_sorted : bt_sorted (cfs_queue s);
  cfs_nodup : NoDup (cfs_queue s).*2;
  cfs_ids k i t : ((k, i), t) ∈ cfs_queue s → i < id_pool s;
  cfs_pool : - 2 ^ 63 ≤ id_pool s;
}.

Definition cfs_ready (s : CFScheduler) (X : gset positive) : Prop :=
  cfs_inv s ∧ X = list_to_set (cfs_queue s).*2.

Definition cfs_known (s : CFScheduler) (t : positive) : Prop :=
  ∃ x, cfs_tasks s !! t = Some x ∧ cfs_task_ok x.

Definition cfs_room (n : nat) (s : CFScheduler) : Prop := id_pool s + Z.of_nat n < 2 ^ 63.

Lemma next_id_ok s n :
  cfs_room (Datatypes.S n) s → cfs_inv s →
  next_id s = (Ok (id_pool s), {| cfs_queue := cfs_queue s; min_vruntime := min_vruntime s;
    id_pool := id_pool s + 1; cfs_tasks := cfs_tasks s |}).
Proof.
  intros Hr Hi. unfold next_id, mbind, M_bind, get_state, modify, mret, M_ret. simpl.
  do 2 f_equal. apply wrap_i64_small. destruct Hi as [_ _ _ ?]. unfold cfs_room in Hr. lia.
Qed.

Lemma load_task_ok s t x : cfs_tasks s !! t = Some x → load_task t s = (Ok x, s).
Proof. intros Hx. unfold load_task. erewrite M_bind_ok by done. by rewrite Hx. Qed.

(** Queueing a task under a fresh identifier. *)
Lemma cfs_insert_ready s v t X m tasks :
  cfs_ready s X → t ∉ X →
  cfs_ready {| cfs_queue := bt_insert (v, id_pool s) t (cfs_queue s); min_vruntime := m;
               id_pool := id_pool s + 1; cfs_tasks := tasks |} ({[t]} ∪ X).
Proof.
  intros [[Hs Hnd Hids Hp] ->] Ht.
  assert (bt_get (v, id_pool s) (cfs_queue s) = None) as Hfresh.
  { destruct (bt_get (v, id_pool s) (cfs_queue s)) as [u|] eqn:Hg; [|done].
    apply bt_elem_get in Hg; [|done]. apply Hids in Hg. lia. }
  pose proof (bt_insert_fresh (v, id_pool s) t (cfs_queue s) Hs Hfresh) as Hperm.
  split; [split; simpl|].
  - by apply bt_insert_sorted.
  - rewrite Hperm. simpl. apply NoDup_cons. split; [set_solver|done].
  - intros k i u Hin. rewrite Hperm in Hin.
    apply elem_of_cons in Hin as [[= -> -> ->]|Hin]; [lia|]. apply Hids in Hin. lia.
  - lia.
  - simpl. apply set_eq. intros u. rewrite elem_of_union, !elem_of_list_to_set, Hperm. simpl.
    set_solver.
Qed.

Lemma cfs_insert_known s t x x' u q m i :
  cfs_known s u → cfs_task_ok x' → cfs_tasks s !! t = Some x →
  cfs_known {| cfs_queue := q; min_vruntime := m; id_pool := i;
               cfs_tasks := <[t := x']> (cfs_tasks s) |} u.
Proof.
  intros (y&Hy&Hok) Hx' Ht. unfold cfs_known. simpl. rewrite lookup_insert.
  case_decide; eauto.
Qed.

Lemma cfs_add_ok s X t n :
  cfs_ready s X → cfs_known s t → cfs_room (Datatypes.S n) s → t ∉ X →
  ∃ s', cfs_add_task t s = (Ok tt, s') ∧ cfs_ready s' ({[t]} ∪ X) ∧
    (∀ u, cfs_known s u → cfs_known s' u) ∧ cfs_room n s'.
Proof.
  intros Hr (x&Hx&Hok) Hroom Ht.
  set (v := default 0 (min_vruntime s)).
  set (x' := task_set_id (id_pool s) (task_set_vruntime v x)).
  set (q := bt_insert (v, id_pool s) t (cfs_queue s)).
  exists {| cfs_queue := q;
            min_vruntime := match bt_first q with Some ((v, _), _) => Some v | None => None end;
            id_pool := id_pool s + 1; cfs_tasks := <[t := x']> (cfs_tasks s) |}.
  split_and!.
  - unfold cfs_add_task. erewrite M_bind_ok by done.
    set (s1 := {| cfs_queue := cfs_queue s; min_vruntime := Some v; id_pool := id_pool s;
                  cfs_tasks := cfs_tasks s |}).
    erewrite (M_bind_ok _ _ s tt s1).
    2:{ unfold s1, v. destruct s as [? [m|] ? ?]; done. }
    erewrite M_bind_ok by done. erewrite M_bind_ok by done.
    erewrite M_bind_ok.
    2:{ eapply next_id_ok; [done|]. destruct Hr as [[? ? ? ?] _]. by split. }
    erewrite M_bind_ok by (apply load_task_ok; exact Hx). erewrite M_bind_ok by done.
    erewrite M_bind_ok by (apply load_task_ok; simpl; apply lookup_insert_eq).
    erewrite M_bind_ok by done. erewrite M_bind_ok by done. erewrite M_bind_ok by done.
    unfold refresh_min_vruntime. erewrite M_bind_ok by done. simpl. unfold set_min_vruntime, modify.
    simpl. rewrite insert_insert_eq. done.
  - by apply cfs_insert_ready.
  - intros u Hu. by eapply cfs_insert_known.
  - unfold cfs_room in *. simpl. lia.
Qed.

Lemma cfs_put_ok s X t b n :
  cfs_ready s X → cfs_known s t → cfs_room (Datatypes.S n) s → t ∉ X →
  ∃ s', cfs_put_prev_task t b s = (Ok tt, s') ∧ cfs_ready s' ({[t]} ∪ X) ∧
    (∀ u, cfs_known s u → cfs_known s' u) ∧ cfs_room n s'.
Proof.
  intros Hr (x&Hx&Hok) Hroom Ht.
  destruct (get_vruntime_some (task_set_id (id_pool s) x) Hok) as [v Hv].
  eexists. split_and!.
  - unfold cfs_put_prev_task. erewrite M_bind_ok by (eapply next_id_ok; [done|apply Hr]).
    erewrite M_bind_ok by (apply load_task_ok; exact Hx). erewrite M_bind_ok by done.
    erewrite M_bind_ok.
    2:{ unfold cfs_task_vruntime.
        erewrite M_bind_ok by (apply load_task_ok; simpl; apply lookup_insert_eq).
        by rewrite Hv. }
    erewrite M_bind_ok by done. reflexivity.
  - simpl. by apply cfs_insert_ready.
  - simpl. intros u Hu. by eapply cfs_insert_known.
  - unfold cfs_room in *. simpl. lia.
Qed.

Lemma cfs_new_ok s X t :
  cfs_ready s X → t ∉ X →
  ∃ s', store_task t cfs_task_new s = (Ok tt, s') ∧ cfs_ready s' X ∧ cfs_known s' t ∧
    (∀ u, cfs_known s u → cfs_known s' u) ∧ (∀ n, cfs_room n s → cfs_room n s').
Proof.
  intros [[Hs Hnd Hids Hp] ->] Ht. eexists. split; [done|].
  assert (cfs_task_ok cfs_task_new) as Hok by (unfold cfs_task_ok; simpl; lia).
  split_and!; [by split| | |done]; unfold cfs_known; simpl.
  - rewrite lookup_insert_eq. eauto.
  - intros u (x&Hx&?). rewrite lookup_insert. case_decide; eauto.
Qed.

Lemma cfs_prio_ok s X t prio :
  cfs_ready s X → cfs_known s t →
  ∃ b s', cfs_set_priority t prio s = (Ok b, s') ∧ cfs_ready s' X ∧
    (∀ u, cfs_known s u → cfs_known s' u) ∧ (∀ n, cfs_room n s → cfs_room n s').
Proof.
  intros [[Hs Hnd Hids Hp] ->] (x&Hx&Hok). unfold cfs_set_priority. case_match eqn:Hc.
  - erewrite M_bind_ok by (by apply load_task_ok).
    destruct (get_vruntime_some x Hok) as [v Hv].
    unfold task_set_priority. rewrite Hv. simpl. do 2 eexists. split; [done|].
    split; [by split|]. split; [|done]. intros u Hu. eapply cfs_insert_known; [done| |done].
    bool_to_prop. unfold cfs_task_ok. simpl. lia.
  - exists false, s. split; [done|]. split; [by split|done].
Qed.

#[export] Instance cfs_spec : @SchedulerSpec CFScheduler CFS.
Proof.
  refine (@Build_SchedulerSpec CFScheduler CFS cfs_ready cfs_known cfs_room
    _ cfs_new_ok cfs_add_ok cfs_put_ok _ _ cfs_prio_ok); simpl.
  - intros n s. unfold cfs_room. lia.
  - intros s X [[Hs Hnd Hids Hp] ->]. unfold cfs_pick_next_task. erewrite M_bind_ok by done.
    destruct (cfs_queue s) as [|[k t] q] eqn:Hq; simpl; [by eauto 10|].
    do 2 eexists. split; [done|]. split; [done|]. split; [done|]. simpl in *.
    apply NoDup_cons in Hnd as [Ht Hnd]. split; [set_solver|].
    apply bt_sorted_cons in Hs as [Hs _]. split; [split; simpl|]; [done|done| |done|].
    + intros k' i u Hin. apply (Hids k' i u). set_solver.
    + simpl. assert (t ∉ (list_to_set q.*2 : gset positive)) by (by rewrite elem_of_list_to_set).
      set_solver.
  - intros s X t [[Hs Hnd Hids Hp] ->] (x&Hx&Hok). unfold cfs_task_tick.
    erewrite M_bind_ok by (by apply load_task_ok). erewrite M_bind_ok by done.
    erewrite M_bind_ok by done. simpl.
    destruct (get_vruntime_some (cfstask_tick x) Hok) as [v Hv].
    destruct (min_vruntime s) as [m|].
    + do 2 eexists. split.
      { erewrite M_bind_ok; [done|]. unfold cfs_task_vruntime.
        erewrite M_bind_ok by (apply load_task_ok; simpl; apply lookup_insert_eq).
        by rewrite Hv. }
      split; [by split|]. split; [|done]. intros u Hu. by eapply cfs_insert_known.
    + do 2 eexists. split; [done|]. split; [by split|]. split; [|done].
      intros u Hu. by eapply cfs_insert_known.
Defined.

(** ** Properties *)

(** Runs of the FIFO scheduler, with the tasks queued and the tasks picked. *)
Inductive fifo_trace : FifoScheduler → list positive → list positive → FifoScheduler → Prop :=
| fifo_trace_nil s : fifo_trace s [] [] s
| fifo_trace_add s t s1 added picked s2 :
    (∀ l, repr s l → t ∉ l) → fifo_add_task t s = (Ok tt, s1) →
    fifo_trace s1 added picked s2 → fifo_trace s (t :: added) picked s2
| fifo_trace_put s t b s1 added picked s2 :
    (∀ l, repr s l → t ∉ l) → fifo_put_prev_task t b s = (Ok tt, s1) →
    fifo_trace s1 added picked s2 → fifo_trace s (t :: added) picked s2
| fifo_trace_pick s t s1 added picked s2 :
    fifo_pick_next_task s = (Ok (Some t), s1) →
    fifo_trace s1 added picked s2 → fifo_trace s added (t :: picked) s2
| fifo_trace_idle s s1 added picked s2 :
    fifo_pick_next_task s = (Ok None, s1) →
    fifo_trace s1 added picked s2 → fifo_trace s added picked s2.

Lemma fifo_push_repr s l t s1 :
  repr s l → t ∉ l → list_push_back t s = (Ok tt, s1) → repr s1 (l ++ [t]).
Proof.
  intros R Ht Hs. destruct (ulist_push_back_repr s l t R Ht) as (s'&Hs'&R'&_).
  unfold list_push_back in Hs. rewrite Hs in Hs'. by injection Hs' as ->.
Qed.

(** the FIFO scheduler is first in, first out: over any run, the tasks
    picked followed by the tasks still queued are exactly the tasks that were
    queued at the start followed by the tasks queued since, in that order. *)
Theorem fifo_order s l added picked s' :
  repr s l → fifo_trace s added picked s' →
  ∃ l', repr s' l' ∧ picked ++ l' = l ++ added.
Proof.
  intros R Ht. revert l R. induction Ht as [s|s t s1 a p s2 Hn Hs _ IH|s t b s1 a p s2 Hn Hs _ IH
    |s t s1 a p s2 Hs _ IH|s s1 a p s2 Hs _ IH]; intros l R.
  - exists l. by rewrite app_nil_r.
  - destruct (IH (l ++ [t])) as (l'&R'&Hl); [by eapply fifo_push_repr; eauto|].
    exists l'. split; [done|]. by rewrite Hl, <-app_assoc.
  - destruct (IH (l ++ [t])) as (l'&R'&Hl); [by eapply fifo_push_repr; eauto|].
    exists l'. split; [done|]. by rewrite Hl, <-app_assoc.
  - pose proof (list_pop_front_repr s l R) as Hp. unfold fifo_pick_next_task in Hs.
    destruct l as [|x l]; simpl in Hp; [congruence|]. destruct Hp as (s1'&Hp&R1&_).
    rewrite Hs in Hp. injection Hp as -> ->. destruct (IH l R1) as (l'&R'&Hl).
    exists l'. split; [done|]. simpl. by rewrite Hl.
  - pose proof (list_pop_front_repr s l R) as Hp. unfold fifo_pick_next_task in Hs.
    destruct l as [|x l]; simpl in Hp; [|destruct Hp as (?&?&_); congruence].
    rewrite Hs in Hp. injection Hp as ->. by apply IH.
Qed.

Lemma fifo_order_witness :
  let s := {| first := Some 1%positive;
              links := {[ 1%positive := {| next := 1; prev := 1 |} ]} |} in
  ∃ s' l', repr s' l' ∧ [1; 2]%positive ++ l' = [1]%positive ++ [2]%positive.
Proof.
  intros s. assert (repr s [1%positive]) as R.
  { split; [done|apply NoDup_singleton|]. simpl. by apply chain_cons. }
  set (s1 := (list_push_back 2 s).2). set (s2 := (list_pop_front s1).2).
  exists (list_pop_front s2).2.
  apply (fifo_order s [1%positive] [2%positive] [1; 2]%positive _ R).
  eapply fifo_trace_add with (s1 := s1); [|reflexivity|].
  { intros l Rl. pose proof (iterate_repr s [] l (length l) Rl ltac:(done)) as Hi.
    pose proof (iterate_repr s [] [1%positive] (length l) R) as Hj.
    destruct l as [|x l]; [by destruct Rl|].
    rewrite <-(repr_first _ _ Rl), (repr_first _ _ R) in Hi.
    rewrite Hj in Hi by (simpl; lia). injection Hi as <- <-. set_solver. }
  eapply fifo_trace_pick with (s1 := s2); [reflexivity|].
  eapply fifo_trace_pick; [reflexivity|]. constructor.
Defined.

(** [n] ticks of a running task, with the answers of [task_tick]. *)
Fixpoint rr_ticks (n : nat) (t : positive) : M RRScheduler NoError (list bool) :=
  match n with
  | O => mret []
  | S n => b ← rr_task_tick t; l ← rr_ticks n t; mret (b :: l)
  end.

Lemma rr_ticks_ok n t s v :
  rr_slices s !! t = Some v → - 2 ^ 63 ≤ v - Z.of_nat n → v < 2 ^ 63 →
  ∃ s', rr_ticks n t s = (Ok ((λ i, v - Z.of_nat i <=? 1) <$> seq 0 n), s') ∧
    rr_queue s' = rr_queue s ∧ rr_slices s' !! t = Some (v - Z.of_nat n).
Proof.
  revert s v. induction n as [|n IH]; intros s v Hv Hlo Hhi.
  - exists s. simpl. by rewrite Z.sub_0_r.
  - simpl rr_ticks. unfold rr_task_tick. erewrite M_bind_ok.
    2:{ erewrite M_bind_ok by (by apply rr_time_slice_ok). by erewrite M_bind_ok by done. }
    set (s1 := {| rr_queue := rr_queue s; rr_slices := _ |}).
    destruct (IH s1 (v - 1)) as (s'&Hs&Hq&Hsl); [|lia..|].
    { simpl. rewrite lookup_insert_eq. f_equal. apply wrap_i64_small. lia. }
    exists s'. rewrite Hq, Hsl. split_and!; [|done|f_equal; lia].
    erewrite M_bind_ok by exact Hs. unfold mret, M_ret. simpl. rewrite Z.sub_0_r.
    do 3 f_equal. rewrite <-fmap_S_seq, <-list_fmap_compose. apply list_fmap_ext.
    intros i x _. simpl. f_equal. lia.
Qed.

(** in round robin a task whose slice is [v] is asked to reschedule exactly
    from its [v]-th tick on; when it is put back after [n] ticks, it goes to the
    front with the rest of its slice if it was preempted early, and otherwise
    to the back with a full slice. *)
Theorem rr_quantum (S : Z) s t v n b :
  rr_slices s !! t = Some v → 0 < v < 2 ^ 63 → 0 < S < 2 ^ 63 → Z.of_nat n < 2 ^ 62 →
  ∃ s' s'', rr_ticks n t s = (Ok ((λ i, v <=? Z.of_nat i + 1) <$> seq 0 n), s') ∧
    rr_put_prev_task S t b s' = (Ok tt, s'') ∧
    if ((Z.of_nat n <? v) && b)%bool
    then rr_queue s'' = t :: rr_queue s ∧ rr_slices s'' !! t = Some (v - Z.of_nat n)
    else rr_queue s'' = rr_queue s ++ [t] ∧ rr_slices s'' !! t = Some S.
Proof.
  intros Hv Hvr HS Hn. destruct (rr_ticks_ok n t s v Hv) as (s'&Hs&Hq&Hsl); [lia..|].
  exists s'. unfold rr_put_prev_task.
  erewrite M_bind_ok by (by apply rr_time_slice_ok).
  assert ((0 <? v - Z.of_nat n) = (Z.of_nat n <? v)) as ->
    by (destruct (Z.ltb_spec 0 (v - Z.of_nat n)), (Z.ltb_spec (Z.of_nat n) v); lia || done).
  destruct ((Z.of_nat n <? v) && b)%bool; eexists; split_and!.
  all: try (rewrite Hs; do 2 f_equal; apply list_fmap_ext; intros i x _; simpl;
    destruct (Z.leb_spec (v - Z.of_nat x) 1), (Z.leb_spec v (Z.of_nat x + 1)); lia || done).
  - done.
  - simpl. by rewrite Hq.
  - done.
  - done.
  - simpl. by rewrite Hq.
  - simpl. rewrite lookup_insert_eq. f_equal. apply wrap_i64_small. lia.
Qed.

Lemma rr_quantum_witness :
  let s := {| rr_queue := [2%positive]; rr_slices := {[ 1%positive := 3 ]} |} in
  ∃ s' s'', rr_ticks 3 1 s = (Ok [false; false; true], s') ∧
    rr_put_prev_task 5 1 true s' = (Ok tt, s'') ∧ rr_queue s'' = [2; 1]%positive.
Proof.
  intros s. destruct (rr_quantum 5 s 1 3 3 true) as (s'&s''&H1&H2&H3&_);
    [reflexivity|lia|lia|lia|]. exists s', s''. split; [exact H1|split; [exact H2|exact H3]].
Defined.

(** the fair scheduler picks a task with the least key [(vruntime, id)] of
    the queue and keeps the rest; a task put back is queued under its virtual
    runtime and a fresh identifier. *)
Theorem cfs_pick_least s :
  cfs_inv s →
  match (cfs_pick_next_task s).1 with
  | Ok (Some t) => ∃ v i, ((v, i), t) ∈ cfs_queue s ∧
      (∀ v' i' t', ((v', i'), t') ∈ cfs_queue s → v < v' ∨ (v = v' ∧ i ≤ i')) ∧
      cfs_queue s = ((v, i), t) :: cfs_queue (cfs_pick_next_task s).2
  | Ok None => cfs_queue s = []
  | _ => False
  end ∧
  ∀ t x b, cfs_room 1 s → cfs_tasks s !! t = Some x → cfs_task_ok x →
    ∃ v s', get_vruntime x = Some v ∧ cfs_put_prev_task t b s = (Ok tt, s') ∧
      ((v, id_pool s), t) ∈ cfs_queue s' ∧ ∀ k u, (k, u) ∈ cfs_queue s → (k, u) ∈ cfs_queue s'.
Proof.
  intros [Hs Hnd Hids Hp]. split.
  - unfold cfs_pick_next_task, mbind, M_bind, get_state. simpl.
    destruct (cfs_queue s) as [|[[v i] t] q] eqn:Hq; simpl; [done|].
    exists v, i. split_and!; [by left| |done]. intros v' i' t' Hin.
    destruct (bt_first_least (v, i) t _ _ Hs eq_refl Hin) as [[= -> -> ->]|Hlt]; [lia|].
    simpl in Hlt. unfold pair_cmp in Hlt. simpl in Hlt.
    destruct (Z.compare_spec v v') as [Heq|?|?]; [right|by left|done].
    split; [done|]. change (i < i') in Hlt. lia.
  - intros t x b Hroom Hx Hok. destruct (get_vruntime_some x Hok) as [v Hv].
    exists v. eexists. split; [done|]. split.
    + unfold cfs_put_prev_task. erewrite M_bind_ok by (by apply (next_id_ok s 0)).
      erewrite M_bind_ok by (apply load_task_ok; exact Hx). erewrite M_bind_ok by done.
      erewrite M_bind_ok.
      2:{ unfold cfs_task_vruntime.
          erewrite M_bind_ok by (apply load_task_ok; simpl; apply lookup_insert_eq).
          change (get_vruntime (task_set_id (id_pool s) x)) with (get_vruntime x). by rewrite Hv. }
      erewrite M_bind_ok by done. reflexivity.
    + simpl. split; [apply bt_elem_insert; [done|by left]|].
      intros [k1 k2] u Hin. apply bt_elem_insert; [done|]. right. split; [done|].
      intros [= -> ->]. apply Hids in Hin. lia.
Qed.

Lemma cfs_pick_least_witness :
  let s := {| cfs_queue := [((1, 0), 1%positive); ((4, 1), 2%positive)];
              min_vruntime := Some 1; id_pool := 2; cfs_tasks := ∅ |} in
  (cfs_pick_next_task s).1 = Ok (Some 1%positive) ∧
  ∃ v i, cfs_queue s = ((v, i), 1%positive) :: cfs_queue (cfs_pick_next_task s).2.
Proof.
  intros s. split; [reflexivity|].
  destruct (cfs_pick_least s) as [(v&i&_&_&H) _].
  - split; simpl; [repeat constructor|repeat (constructor; [set_solver|]); constructor| |lia].
    intros k i t Hin. rewrite !elem_of_cons in Hin.
    destruct Hin as [[= -> -> ->]|[[= -> -> ->]|Hin]]; [lia|lia|by apply not_elem_of_nil in Hin].
  - exists v, i. exact H.
Defined.

(** [CFScheduler::remove_task] can miss a queued task: [add_task] queues a
    task under [min_vruntime] without clearing the runtime it has accumulated,
    so the key computed at removal is another one and [None] is returned. *)
Theorem cfs_remove_misses_queued :
  let ran := {| init_vruntime := 0; delta := 3; nice := 0; cfs_id := 0 |} in
  let s := (cfs_add_task 1 (cfs_new {[ 1%positive := ran ]})).2 in
  cfs_ready s {[ 1%positive ]} ∧ (cfs_remove_task 1 s).1 = Ok None.
Proof.
  intros ran s. split; [|reflexivity].
  destruct (cfs_add_ok (cfs_new {[ 1%positive := ran ]}) ∅ 1 0) as (s'&Hs&Hr&_).
  - split; [|done]. split; simpl; [constructor|constructor|set_solver|lia].
  - exists ran. by split.
  - done.
  - set_solver.
  - unfold s. rewrite Hs. simpl. by rewrite (right_id_L ∅ (∪)) in Hr.
Qed.
