(* ===== verification/TimerList.v ===== *)
(** * Timed events ([crates/timer_list])

    [TimerList] over [alloc::collections::BinaryHeap].  The standard library
    specifies a heap only up to the choice among equal elements, so the heap is
    its collection of elements and a choice of the greatest one: [HeapChoice] is
    that choice, with its contract.  A [Duration] is its number of nanoseconds. *)

From stdpp Require Import base decidable numbers list sorting sets.
From Stdlib Require Import ZArith Lia.
From S2P Require Import Prelude.

Local Open Scope Z_scope.

Record TimerEventWrapper (E : Type) : Type := { deadline : Z; event : E }.
Arguments deadline {E}.
Arguments event {E}.
Arguments Build_TimerEventWrapper {E}.

(** [Ord for TimerEventWrapper]: reversed, for a min-heap. *)
Definition wrapper_cmp {E} (self other : TimerEventWrapper E) : comparison :=
  Z.compare (deadline other) (deadline self).

(** The index of the element [peek] returns. *)
Class HeapChoice (E : Type) : Type := {
  heap_choose : list (TimerEventWrapper E) → option nat;
  heap_choose_none h : heap_choose h = None ↔ h = [];
  heap_choose_some h i :
    heap_choose h = Some i →
    ∃ x, h !! i = Some x ∧ ∀ y, y ∈ h → wrapper_cmp y x ≠ Gt;
}.

Section timer_list.
Context {E : Type} `{HeapChoice E}.

(** [BinaryHeap::{peek, pop, push, retain}]. *)
Definition heap_peek (h : list (TimerEventWrapper E)) : option (TimerEventWrapper E) :=
  heap_choose h ≫= λ i, h !! i.
Definition heap_pop (h : list (TimerEventWrapper E))
    : option (TimerEventWrapper E) * list (TimerEventWrapper E) :=
  match heap_choose h with
  | Some i => (h !! i, delete i h)
  | None => (None, h)
  end.
Definition heap_push (h : list (TimerEventWrapper E)) (x : TimerEventWrapper E) :=
  h ++ [x].
Definition heap_retain (keep : TimerEventWrapper E → bool) (h : list (TimerEventWrapper E)) :=
  filter (λ x, keep x = true) h.

Record TimerList : Type := { events : list (TimerEventWrapper E) }.

Definition tl_new : TimerList := {| events := [] |}.

Definition tl_is_empty (self : TimerList) : bool :=
  match events self with [] => true | _ => false end.

Definition tl_set (deadline : Z) (event : E) (self : TimerList) : TimerList :=
  {| events := heap_push (events self) (Build_TimerEventWrapper deadline event) |}.

Definition tl_cancel (condition : E → bool) (self : TimerList) : TimerList :=
  {| events := heap_retain (λ e, negb (condition (event e))) (events self) |}.

Definition tl_next_deadline (self : TimerList) : option Z :=
  deadline <$> heap_peek (events self).

Definition tl_expire_one (now : Z) (self : TimerList) : option (Z * E) * TimerList :=
  match heap_peek (events self) with
  | Some e =>
      if deadline e <=? now then
        let '(r, h) := heap_pop (events self) in
        ((λ e, (deadline e, event e)) <$> r, {| events := h |})
      else (None, self)
  | None => (None, self)
  end.

(** [while let Some(e) = expire_one(now)]: the events in the order they are
    handed out. *)
Fixpoint tl_expire_all (fuel : nat) (now : Z) (self : TimerList)
    : option (list (Z * E)) * TimerList :=
  match tl_expire_one now self with
  | (Some e, self) =>
      match fuel with
      | O => (None, self)
      | S fuel =>
          let '(r, self) := tl_expire_all fuel now self in (cons e <$> r, self)
      end
  | (None, self) => (Some [], self)
  end.

(** ** Lemmas *)

Lemma heap_peek_none h : heap_peek h = None ↔ h = [].
Proof.
  unfold heap_peek. split; [|intros ->].
  - destruct (heap_choose h) as [i|] eqn:Hc; simpl; [|by rewrite <-heap_choose_none].
    destruct (heap_choose_some h i Hc) as (x&Hx&_). by rewrite Hx.
  - by rewrite (proj2 (heap_choose_none [])).
Qed.

(** The element on top has the earliest deadline. *)
Lemma heap_peek_some h x :
  heap_peek h = Some x →
  x ∈ h ∧ (∀ y, y ∈ h → deadline x ≤ deadline y) ∧
  ∃ h', heap_pop h = (Some x, h') ∧ h ≡ₚ x :: h'.
Proof.
  unfold heap_peek, heap_pop. destruct (heap_choose h) as [i|] eqn:Hc; simpl; [|done].
  destruct (heap_choose_some h i Hc) as (x'&Hx&Hmin). rewrite Hx. intros [= <-].
  split_and!.
  - by eapply list_elem_of_lookup_2.
  - intros y Hy. apply Hmin in Hy. unfold wrapper_cmp in Hy.
    destruct (Z.compare_spec (deadline x') (deadline y)); lia || done.
  - exists (delete i h). split; [done|]. by apply delete_Permutation.
Qed.

(** The events due at [now]. *)
Definition due (now : Z) (h : list (TimerEventWrapper E)) : list (TimerEventWrapper E) :=
  filter (λ x, deadline x ≤ now) h.
Definition not_due (now : Z) (h : list (TimerEventWrapper E)) : list (TimerEventWrapper E) :=
  filter (λ x, now < deadline x) h.

Definition as_pair (x : TimerEventWrapper E) : Z * E := (deadline x, event x).

(** One step of the expiration loop. *)
Lemma tl_expire_one_spec now self :
  match tl_expire_one now self with
  | (Some e, self') => ∃ x, e = as_pair x ∧ deadline x ≤ now ∧
      (∀ y, y ∈ events self → deadline x ≤ deadline y) ∧ events self ≡ₚ x :: events self'
  | (None, self') => self' = self ∧ ∀ y, y ∈ events self → now < deadline y
  end.
Proof.
  unfold tl_expire_one. destruct (heap_peek (events self)) as [x|] eqn:Hp.
  - destruct (heap_peek_some _ _ Hp) as (Hin&Hmin&h'&->&Hperm).
    destruct (Z.leb_spec (deadline x) now); simpl.
    + exists x. by split_and!.
    + split; [done|]. intros y Hy. apply Hmin in Hy. lia.
  - apply heap_peek_none in Hp. rewrite Hp. split; [done|]. set_solver.
Qed.

Lemma filter_due_all now (h : list (TimerEventWrapper E)) :
  (∀ y, y ∈ h → now < deadline y) → due now h = [] ∧ not_due now h = h.
Proof.
  unfold due, not_due. induction h as [|x h IH]; intros Hd; [done|].
  destruct IH as [IH1 IH2]; [set_solver|]. assert (now < deadline x) by (apply Hd; set_solver).
  rewrite filter_cons_False by lia. rewrite filter_cons_True by lia. rewrite IH1, IH2. done.
Qed.

(** ** Properties *)

(** the expiration loop ends, and hands out exactly the events whose
    deadline has passed, in the order of their deadlines, whatever the heap
    chooses among equal deadlines; the others stay. *)
Theorem expire_all_in_order now self fuel :
  (length (events self) ≤ fuel)%nat →
  ∃ out self', tl_expire_all fuel now self = (Some out, self') ∧
    out ≡ₚ as_pair <$> due now (events self) ∧
    StronglySorted (λ a b, a.1 ≤ b.1) out ∧
    events self' ≡ₚ not_due now (events self).
Proof.
  revert self. induction fuel as [|fuel IH]; intros self Hf; simpl;
    pose proof (tl_expire_one_spec now self) as Hs;
    destruct (tl_expire_one now self) as [[e|] self'].
  1: { destruct Hs as (x&_&_&_&Hp). apply Permutation_length in Hp. simpl in Hp. lia. }
  2: { destruct Hs as (x&->&Hx&Hmin&Hperm).
    destruct (IH self') as (out&self2&->&Hout&Hsort&Hrest).
    { apply Permutation_length in Hperm. simpl in Hperm. lia. }
    exists (as_pair x :: out), self2. simpl. split_and!; [done|..].
    - unfold due. rewrite Hperm, filter_cons_True by done. simpl. by rewrite Hout.
    - constructor; [done|]. apply Forall_forall. intros [d e] Hin. rewrite Hout in Hin.
      apply list_elem_of_fmap in Hin as (y&[= -> ->]&Hy).
      apply list_elem_of_filter in Hy as [_ Hy]. simpl. apply Hmin. rewrite Hperm. by right.
    - rewrite Hrest. unfold not_due. rewrite Hperm, filter_cons_False by lia. done. }
  all: destruct Hs as [-> Hall]; destruct (filter_due_all now _ Hall) as [Hd Hn];
    exists [], self; rewrite Hd, Hn; split_and!; [done|done|constructor|done].
Qed.

End timer_list.

(** The first of the earliest events. *)
Fixpoint first_min {E} (h : list (TimerEventWrapper E)) : option (nat * Z) :=
  match h with
  | [] => None
  | x :: h =>
      match first_min h with
      | Some (i, d) => if d <? deadline x then Some (S i, d) else Some (O, deadline x)
      | None => Some (O, deadline x)
      end
  end.

Lemma first_min_spec {E} (h : list (TimerEventWrapper E)) i d :
  first_min h = Some (i, d) →
  ∃ x, h !! i = Some x ∧ deadline x = d ∧ ∀ y, y ∈ h → d ≤ deadline y.
Proof.
  revert i d. induction h as [|x h IH]; intros i d; simpl; [done|].
  destruct (first_min h) as [[j d']|] eqn:Hm.
  - destruct (IH j d' eq_refl) as (z&Hz&Hd&Hmin).
    destruct (Z.ltb_spec d' (deadline x)); intros [= <- <-].
    + exists z. split_and!; [done..|]. intros y [->|Hy]%elem_of_cons; [lia|auto].
    + exists x. split_and!; [done..|]. intros y [->|Hy]%elem_of_cons; [lia|].
      apply Hmin in Hy. lia.
  - intros [= <- <-]. exists x. split_and!; [done..|]. intros y [->|Hy]%elem_of_cons; [lia|].
    destruct h as [|z h]; [by apply not_elem_of_nil in Hy|]. simpl in Hm. by repeat case_match.
Qed.

(** A heap that takes the first of equal elements. *)
Definition first_choice (E : Type) : HeapChoice E.
Proof.
  refine {| heap_choose h := fst <$> first_min h |}.
  - intros [|x h]; simpl; [done|]. by repeat case_match.
  - intros h i. destruct (first_min h) as [[j d]|] eqn:Hm; simpl; [|done]. intros [= ->].
    destruct (first_min_spec h i d Hm) as (x&Hx&Hd&Hmin). exists x. split; [done|].
    intros y Hy. apply Hmin in Hy. unfold wrapper_cmp.
    destruct (Z.compare_spec (deadline x) (deadline y)); lia || done.
Defined.

Lemma expire_all_in_order_witness :
  let tl := {| events := [Build_TimerEventWrapper 7 1; Build_TimerEventWrapper 3 2;
                          Build_TimerEventWrapper 9 3] |} in
  ∃ out self', @tl_expire_all Z (first_choice Z) 3 8 tl = (Some out, self') ∧
    out ≡ₚ [(7, 1); (3, 2)].
Proof.
  intros tl.
  destruct (@expire_all_in_order Z (first_choice Z) 8 tl 3) as (out&self'&Ho&Hp&_); [simpl; lia|].
  exists out, self'. split; [exact Ho|exact Hp].
Defined.
