(* ===== verification/RunQueue.v ===== *)
(** * Tasks, run queue, wait queues and timers ([modules/axtask])

    The state shared by the task system and the critical sections that change it,
    for one processor with the features [multitask], [irq] and [preempt].  A task
    is an [Arc]: an address, whose strong count is part of the state and follows
    every [clone] and drop.  An access to a task that has been freed is [Panic].
    A function runs up to the context switch it makes; what a task does when it is
    switched to again is in [TaskSystem]. *)

From stdpp Require Import base decidable numbers list gmap strings countable.
From Stdlib Require Import ZArith Lia.
From S2P Require Import Prelude LinkedList Scheduler TimerList.

Local Open Scope Z_scope.

(** ** Data *)

Inductive TaskState : Set := Running | Ready | Blocked | Exited.
#[export] Instance TaskState_eq_dec : EqDecision TaskState.
Proof. solve_decision. Defined.

Record TaskInner : Type := {
  task_id : Z;
  task_name : string;
  task_is_idle : bool;
  task_is_init : bool;
  task_state : TaskState;
  task_in_wait_queue : bool;
  task_in_timer_list : bool;
  task_need_resched : bool;
  task_preempt_disable_count : Z;
  task_exit_code : Z;
  task_strong : Z;
}.

(** The wait queues of the system: the collector's, the queue each task has for
    its joiners, and those of the applications. *)
Inductive WqId : Set := WAIT_FOR_EXIT | wait_for_exit (t : positive) | user_wq (n : positive).
#[export] Instance WqId_eq_dec : EqDecision WqId.
Proof. solve_decision. Defined.
#[export] Instance WqId_countable : Countable WqId.
Proof.
  refine (inj_countable'
    (λ q, match q with
          | WAIT_FOR_EXIT => inl tt | wait_for_exit t => inr (inl t) | user_wq n => inr (inr n)
          end)
    (λ x, match x with
          | inl _ => WAIT_FOR_EXIT | inr (inl t) => wait_for_exit t | inr (inr n) => user_wq n
          end) _).
  by intros [].
Defined.

(** [new_common] with the flags the two constructors set; the [Arc] that is made
    of it has one owner. *)
Definition new_common (id : Z) (name : string) : TaskInner := {|
  task_id := id; task_name := name; task_is_idle := false; task_is_init := false;
  task_state := Ready; task_in_wait_queue := false; task_in_timer_list := false;
  task_need_resched := false; task_preempt_disable_count := 0; task_exit_code := 0;
  task_strong := 1;
|}.

Definition with_kind (idle init : bool) (x : TaskInner) : TaskInner := {|
  task_id := task_id x; task_name := task_name x; task_is_idle := idle; task_is_init := init;
  task_state := task_state x; task_in_wait_queue := task_in_wait_queue x;
  task_in_timer_list := task_in_timer_list x; task_need_resched := task_need_resched x;
  task_preempt_disable_count := task_preempt_disable_count x;
  task_exit_code := task_exit_code x; task_strong := task_strong x;
|}.

Definition with_state (s : TaskState) (x : TaskInner) : TaskInner := {|
  task_id := task_id x; task_name := task_name x; task_is_idle := task_is_idle x;
  task_is_init := task_is_init x; task_state := s;
  task_in_wait_queue := task_in_wait_queue x; task_in_timer_list := task_in_timer_list x;
  task_need_resched := task_need_resched x;
  task_preempt_disable_count := task_preempt_disable_count x;
  task_exit_code := task_exit_code x; task_strong := task_strong x;
|}.

Definition with_flags (wq tl need : bool) (x : TaskInner) : TaskInner := {|
  task_id := task_id x; task_name := task_name x; task_is_idle := task_is_idle x;
  task_is_init := task_is_init x; task_state := task_state x;
  task_in_wait_queue := wq; task_in_timer_list := tl; task_need_resched := need;
  task_preempt_disable_count := task_preempt_disable_count x;
  task_exit_code := task_exit_code x; task_strong := task_strong x;
|}.

Definition with_counts (disable code strong : Z) (x : TaskInner) : TaskInner := {|
  task_id := task_id x; task_name := task_name x; task_is_idle := task_is_idle x;
  task_is_init := task_is_init x; task_state := task_state x;
  task_in_wait_queue := task_in_wait_queue x; task_in_timer_list := task_in_timer_list x;
  task_need_resched := task_need_resched x; task_preempt_disable_count := disable;
  task_exit_code := code; task_strong := strong;
|}.

Definition is_running (x : TaskInner) : bool := bool_decide (task_state x = Running).
Definition is_ready (x : TaskInner) : bool := bool_decide (task_state x = Ready).
Definition is_blocked (x : TaskInner) : bool := bool_decide (task_state x = Blocked).

(** [can_preempt]. *)
Definition can_preempt (current_disable_count : Z) (x : TaskInner) : bool :=
  task_preempt_disable_count x =? current_disable_count.

(** The statics of the module and the hardware state they use: [RUN_QUEUE], the
    tasks, the current task pointer, the clock; [halted] is set when the machine
    is shut down. *)
Record TaskSys (S : Type) : Type := {
  scheduler : S;
  tasks : gmap positive TaskInner;
  current_ptr : option positive;
  IDLE_TASK : option positive;
  EXITED_TASKS : list positive;
  wqs : gmap WqId (list positive);
  TIMER_LIST : @TimerList positive;
  ID_COUNTER : Z;
  clock : Z;
  halted : bool;
}.
Arguments scheduler {S}.
Arguments tasks {S}.
Arguments current_ptr {S}.
Arguments IDLE_TASK {S}.
Arguments EXITED_TASKS {S}.
Arguments wqs {S}.
Arguments TIMER_LIST {S}.
Arguments ID_COUNTER {S}.
Arguments clock {S}.
Arguments halted {S}.
Arguments Build_TaskSys {S}.

(** The contents of a wait queue. *)
Definition queue_of {S} (q : WqId) (st : TaskSys S) : list positive := default [] (wqs st !! q).

Section run_queue.
Context {S : Type} `{BaseScheduler S} `{HeapChoice positive}.

Local Abbreviation TM := (M (TaskSys S) NoError).

(** ** Access to the state *)

Definition set_scheduler (s : S) (st : TaskSys S) : TaskSys S :=
  Build_TaskSys s (tasks st) (current_ptr st) (IDLE_TASK st) (EXITED_TASKS st) (wqs st)
    (TIMER_LIST st) (ID_COUNTER st) (clock st) (halted st).
Definition set_tasks (ts : gmap positive TaskInner) (st : TaskSys S) : TaskSys S :=
  Build_TaskSys (scheduler st) ts (current_ptr st) (IDLE_TASK st) (EXITED_TASKS st) (wqs st)
    (TIMER_LIST st) (ID_COUNTER st) (clock st) (halted st).
Definition set_current_ptr (c : option positive) (st : TaskSys S) : TaskSys S :=
  Build_TaskSys (scheduler st) (tasks st) c (IDLE_TASK st) (EXITED_TASKS st) (wqs st)
    (TIMER_LIST st) (ID_COUNTER st) (clock st) (halted st).
Definition set_IDLE_TASK (i : option positive) (st : TaskSys S) : TaskSys S :=
  Build_TaskSys (scheduler st) (tasks st) (current_ptr st) i (EXITED_TASKS st) (wqs st)
    (TIMER_LIST st) (ID_COUNTER st) (clock st) (halted st).
Definition set_EXITED_TASKS (l : list positive) (st : TaskSys S) : TaskSys S :=
  Build_TaskSys (scheduler st) (tasks st) (current_ptr st) (IDLE_TASK st) l (wqs st)
    (TIMER_LIST st) (ID_COUNTER st) (clock st) (halted st).
Definition set_wqs (w : gmap WqId (list positive)) (st : TaskSys S) : TaskSys S :=
  Build_TaskSys (scheduler st) (tasks st) (current_ptr st) (IDLE_TASK st) (EXITED_TASKS st) w
    (TIMER_LIST st) (ID_COUNTER st) (clock st) (halted st).
Definition set_TIMER_LIST (l : @TimerList positive) (st : TaskSys S) : TaskSys S :=
  Build_TaskSys (scheduler st) (tasks st) (current_ptr st) (IDLE_TASK st) (EXITED_TASKS st)
    (wqs st) l (ID_COUNTER st) (clock st) (halted st).
Definition set_ID_COUNTER (n : Z) (st : TaskSys S) : TaskSys S :=
  Build_TaskSys (scheduler st) (tasks st) (current_ptr st) (IDLE_TASK st) (EXITED_TASKS st)
    (wqs st) (TIMER_LIST st) n (clock st) (halted st).
Definition set_clock (n : Z) (st : TaskSys S) : TaskSys S :=
  Build_TaskSys (scheduler st) (tasks st) (current_ptr st) (IDLE_TASK st) (EXITED_TASKS st)
    (wqs st) (TIMER_LIST st) (ID_COUNTER st) n (halted st).
Definition set_halted (b : bool) (st : TaskSys S) : TaskSys S :=
  Build_TaskSys (scheduler st) (tasks st) (current_ptr st) (IDLE_TASK st) (EXITED_TASKS st)
    (wqs st) (TIMER_LIST st) (ID_COUNTER st) (clock st) b.
Definition set_queue (q : WqId) (l : list positive) (st : TaskSys S) : TaskSys S :=
  set_wqs (<[q := l]> (wqs st)) st.

(** A scheduler operation on the run queue's scheduler. *)
Definition on_scheduler {A} (m : M S NoError A) : TM A := λ st,
  let '(r, s) := m (scheduler st) in (r, set_scheduler s st).

(** Access through a task reference. *)
Definition get_task (t : positive) : TM TaskInner := st ← get_state; unwrap (tasks st !! t).
Definition update_task (t : positive) (f : TaskInner → TaskInner) : TM unit :=
  x ← get_task t; modify (λ st, set_tasks (<[t := f x]> (tasks st)) st).

Definition set_state (t : positive) (s : TaskState) : TM unit := update_task t (with_state s).
Definition set_in_wait_queue (t : positive) (b : bool) : TM unit :=
  update_task t (λ x, with_flags b (task_in_timer_list x) (task_need_resched x) x).
Definition set_in_timer_list (t : positive) (b : bool) : TM unit :=
  update_task t (λ x, with_flags (task_in_wait_queue x) b (task_need_resched x) x).
Definition set_preempt_pending (t : positive) (b : bool) : TM unit :=
  update_task t (λ x, with_flags (task_in_wait_queue x) (task_in_timer_list x) b x).
Definition store_exit_code (t : positive) (code : Z) : TM unit :=
  update_task t (λ x, with_counts (task_preempt_disable_count x) code (task_strong x) x).
Definition set_disable_count (t : positive) (n : Z) : TM unit :=
  update_task t (λ x, with_counts n (task_exit_code x) (task_strong x) x).
Definition set_strong (t : positive) (n : Z) : TM unit :=
  update_task t (λ x, with_counts (task_preempt_disable_count x) (task_exit_code x) n x).

(** [Arc::clone], and the drop of an [Arc]: the last one frees the task with its
    wait queue.  Freeing a task that still has joiners queued would drop them in
    turn; that case is [Panic] here and is excluded by the invariant. *)
Definition arc_clone (t : positive) : TM unit :=
  x ← get_task t; set_strong t (task_strong x + 1).
Definition arc_drop (t : positive) : TM unit :=
  x ← get_task t;
  if task_strong x =? 1 then
    st ← get_state;
    match queue_of (wait_for_exit t) st with
    | [] => put_state (set_wqs (delete (wait_for_exit t) (wqs st))
                       (set_tasks (delete t (tasks st)) st))
    | _ => panic
    end
  else set_strong t (task_strong x - 1).
Fixpoint arc_drop_all (l : list positive) : TM unit :=
  match l with
  | [] => mret tt
  | t :: l => _ ← arc_drop t; arc_drop_all l
  end.

(** ** Tasks ([task.rs]) *)

Definition TaskId_new : TM Z :=
  st ← get_state;
  _ ← modify (set_ID_COUNTER (add64 (ID_COUNTER st) 1));
  mret (ID_COUNTER st).

(** [TaskInner::new] and [new_init] at the address [t] the [Arc] is allocated at;
    the kernel stack, the entry closure and the machine context are not part of
    the model. *)
Definition TaskInner_alloc (t : positive) (name : string) (init : bool) : TM unit :=
  id ← TaskId_new;
  let x := with_kind (bool_decide (name = "idle"%string)) init (new_common id name) in
  _ ← modify (λ st, set_tasks (<[t := x]> (tasks st)) st);
  on_scheduler (sched_task_new t).
Definition TaskInner_new (t : positive) (name : string) : TM unit := TaskInner_alloc t name false.
Definition new_init (t : positive) (name : string) : TM unit := TaskInner_alloc t name true.

(** [crate::current()]. *)
Definition current : TM positive := st ← get_state; unwrap (current_ptr st).

Definition disable_preempt (t : positive) : TM unit :=
  x ← get_task t; set_disable_count t (add64 (task_preempt_disable_count x) 1).

(** [NoPreempt::acquire] and [NoPreemptIrqSave::acquire], which every [SpinNoIrq]
    lock begins with. *)
Definition guard_acquire : TM unit :=
  st ← get_state;
  match current_ptr st with Some curr => disable_preempt curr | None => mret tt end.

(** ** The reschedule subroutine ([run_queue.rs]) *)

Definition switch_to (prev_task next_task : positive) : TM unit :=
  _ ← set_preempt_pending next_task false;
  _ ← set_state next_task Running;
  if bool_decide (prev_task = next_task) then arc_drop next_task
  else
    p ← get_task prev_task;
    _ ← assert_ (1 <? task_strong p);
    n ← get_task next_task;
    _ ← assert_ (1 <=? task_strong n);
    _ ← arc_drop prev_task;
    modify (set_current_ptr (Some next_task)).

Definition resched (preempt : bool) : TM unit :=
  prev ← current;
  x ← get_task prev;
  _ ← (if is_running x then
         _ ← set_state prev Ready;
         if negb (task_is_idle x) then
           _ ← arc_clone prev; on_scheduler (sched_put_prev_task prev preempt)
         else mret tt
       else mret tt);
  r ← on_scheduler sched_pick_next_task;
  next ← match r with
         | Some next => mret next
         | None => st ← get_state; idle ← unwrap (IDLE_TASK st); _ ← arc_clone idle; mret idle
         end;
  switch_to prev next.

Definition preempt_resched : TM unit :=
  curr ← current;
  x ← get_task curr;
  _ ← assert_ (is_running x);
  if can_preempt 1 x then resched true else set_preempt_pending curr true.

(** [current_check_preempt_pending]; [true] when it took the run queue lock, which
    the task that is current then has to release. *)
Definition current_check_preempt_pending : TM bool :=
  curr ← current;
  x ← get_task curr;
  if (task_need_resched x && can_preempt 0 x)%bool then
    _ ← guard_acquire;
    x ← get_task curr;
    _ ← (if task_need_resched x then preempt_resched else mret tt);
    mret true
  else mret false.

(** [NoPreempt::release] ([enable_preempt(true)]). *)
Definition guard_release : TM bool :=
  st ← get_state;
  match current_ptr st with
  | Some curr =>
      x ← get_task curr;
      _ ← set_disable_count curr (sub64 (task_preempt_disable_count x) 1);
      if task_preempt_disable_count x =? 1 then current_check_preempt_pending else mret false
  | None => mret false
  end.

(** A lock taken while another guard is held: its release never reschedules, which
    the invariant shows. *)
Definition nested {A} (body : TM A) : TM A :=
  _ ← guard_acquire;
  a ← body;
  b ← guard_release;
  if (b : bool) then panic else mret a.

(** ** Operations of the run queue *)

Definition add_task (task : positive) : TM unit :=
  x ← get_task task;
  _ ← assert_ (is_ready x);
  on_scheduler (sched_add_task task).

Definition scheduler_timer_tick : TM unit :=
  curr ← current;
  x ← get_task curr;
  if negb (task_is_idle x) then
    b ← on_scheduler (sched_task_tick curr);
    if (b : bool) then set_preempt_pending curr true else mret tt
  else mret tt.

Definition yield_current : TM unit :=
  curr ← current;
  x ← get_task curr;
  _ ← assert_ (is_running x);
  resched false.

Definition set_current_priority (prio : Z) : TM bool :=
  curr ← current; on_scheduler (sched_set_priority curr prio).

Definition block_current (wait_queue_push : positive → TM unit) : TM unit :=
  curr ← current;
  x ← get_task curr;
  _ ← assert_ (is_running x);
  _ ← assert_ (negb (task_is_idle x));
  _ ← assert_ (can_preempt 1 x);
  _ ← set_state curr Blocked;
  _ ← arc_clone curr;
  _ ← wait_queue_push curr;
  resched false.

(** The [Arc] is moved into the scheduler, or dropped at the end. *)
Definition unblock_task (task : positive) (reschedule : bool) : TM unit :=
  x ← get_task task;
  if is_blocked x then
    _ ← set_state task Ready;
    _ ← on_scheduler (sched_add_task task);
    if reschedule then curr ← current; set_preempt_pending curr true else mret tt
  else arc_drop task.

(** ** Timers ([timers.rs]) *)

Definition set_alarm_wakeup (deadline : Z) (task : positive) : TM unit :=
  _ ← set_in_timer_list task true;
  modify (λ st, set_TIMER_LIST (tl_set deadline task (TIMER_LIST st)) st).

(** The events [cancel] removes drop their [Arc]. *)
Definition cancel_alarm (task : positive) : TM unit :=
  _ ← set_in_timer_list task false;
  st ← get_state;
  let dropped := filter (λ e, event e = task) (events (TIMER_LIST st)) in
  _ ← modify (λ st, set_TIMER_LIST (tl_cancel (λ t, bool_decide (t = task)) (TIMER_LIST st)) st);
  arc_drop_all (event <$> dropped).

(** [TaskWakeupEvent::callback]. *)
Definition wakeup_callback (task : positive) : TM unit :=
  nested (_ ← set_in_timer_list task false; unblock_task task true).

(** [TIMER_LIST.lock().expire_one(now)]. *)
Definition expire_next : TM (option (Z * positive)) :=
  st ← get_state;
  let '(e, l) := tl_expire_one (clock st) (TIMER_LIST st) in
  _ ← put_state (set_TIMER_LIST l st);
  mret e.

(** The loop of [check_events], which runs in the handler of the timer interrupt:
    at most once per event and once more. *)
Fixpoint check_events_loop (fuel : nat) : TM unit :=
  match fuel with
  | O => out_of_fuel
  | Datatypes.S fuel =>
      event ← nested expire_next;
      match event with
      | Some (_, event) => _ ← wakeup_callback event; check_events_loop fuel
      | None => mret tt
      end
  end.
Definition check_events : TM unit :=
  st ← get_state; check_events_loop (Datatypes.S (length (events (TIMER_LIST st)))).

(** [on_timer_tick], and the interrupt handler around it; the result is that of
    the last release. *)
Definition on_timer_tick : TM unit :=
  _ ← check_events; nested scheduler_timer_tick.
Definition handle_irq : TM bool :=
  _ ← guard_acquire; _ ← on_timer_tick; guard_release.

Definition sleep_until (deadline : Z) : TM unit :=
  curr ← current;
  x ← get_task curr;
  _ ← assert_ (is_running x);
  _ ← assert_ (negb (task_is_idle x));
  st ← get_state;
  if clock st <? deadline then
    _ ← arc_clone curr;
    _ ← nested (set_alarm_wakeup deadline curr);
    _ ← set_state curr Blocked;
    resched false
  else mret tt.

(** ** Wait queues ([wait_queue.rs]) *)

(** The closure all the waiting functions pass to [block_current]. *)
Definition wait_queue_push (q : WqId) (task : positive) : TM unit :=
  _ ← set_in_wait_queue task true;
  modify (λ st, set_queue q (queue_of q st ++ [task]) st).

Definition queue_pop_front (q : WqId) : TM (option positive) :=
  st ← get_state;
  match queue_of q st with
  | t :: l => _ ← put_state (set_queue q l st); mret (Some t)
  | [] => mret None
  end.

Definition notify_one_locked (q : WqId) (reschedule : bool) : TM bool :=
  r ← queue_pop_front q;
  match r with
  | Some task =>
      _ ← set_in_wait_queue task false; _ ← unblock_task task reschedule; mret true
  | None => mret false
  end.

Definition notify_one (q : WqId) (reschedule : bool) : TM bool :=
  st ← get_state;
  match queue_of q st with
  | [] => mret false
  | _ => notify_one_locked q reschedule
  end.

(** [while let Some(task) = pop_front()]: once per task and once more. *)
Fixpoint notify_all_loop (fuel : nat) (q : WqId) (reschedule : bool) : TM unit :=
  match fuel with
  | O => out_of_fuel
  | Datatypes.S fuel =>
      b ← notify_one_locked q reschedule;
      if (b : bool) then notify_all_loop fuel q reschedule else mret tt
  end.
Definition notify_all_locked (q : WqId) (reschedule : bool) : TM unit :=
  st ← get_state; notify_all_loop (Datatypes.S (length (queue_of q st))) q reschedule.

Definition notify_task (q : WqId) (reschedule : bool) (task : positive) : TM bool :=
  st ← get_state;
  match list_find (λ t, t = task) (queue_of q st) with
  | Some (index, _) =>
      _ ← set_in_wait_queue task false;
      _ ← modify (λ st, set_queue q (delete index (queue_of q st)) st);
      _ ← unblock_task task reschedule; mret true
  | None => mret false
  end.

(** The two halves of [cancel_events]: each is a critical section of its own. *)
Definition cancel_queue (q : WqId) (curr : positive) : TM unit :=
  x ← get_task curr;
  if task_in_wait_queue x then
    st ← get_state;
    let dropped := filter (λ t, t = curr) (queue_of q st) in
    _ ← modify (λ st, set_queue q (filter (λ t, t ≠ curr) (queue_of q st)) st);
    _ ← arc_drop_all dropped;
    set_in_wait_queue curr false
  else mret tt.
Definition cancel_timer (curr : positive) : TM unit :=
  x ← get_task curr;
  if task_in_timer_list x then cancel_alarm curr else mret tt.

(** ** Exit and collection *)

Definition notify_exit (t : positive) (exit_code : Z) : TM unit :=
  _ ← store_exit_code t exit_code; notify_all_locked (wait_for_exit t) false.

Definition exit_current (exit_code : Z) : TM unit :=
  curr ← current;
  x ← get_task curr;
  _ ← assert_ (is_running x);
  _ ← assert_ (negb (task_is_idle x));
  if task_is_init x then
    _ ← nested (st ← get_state;
                _ ← modify (set_EXITED_TASKS []); arc_drop_all (EXITED_TASKS st));
    modify (set_halted true)
  else
    _ ← set_state curr Exited;
    _ ← notify_exit curr exit_code;
    _ ← nested (_ ← arc_clone curr;
                modify (λ st, set_EXITED_TASKS (EXITED_TASKS st ++ [curr]) st));
    _ ← notify_one_locked WAIT_FOR_EXIT false;
    resched false.

(** The critical sections of [gc_entry]'s loop. *)
Definition gc_pop : TM (option positive) :=
  st ← get_state;
  match EXITED_TASKS st with
  | t :: l => _ ← put_state (set_EXITED_TASKS l st); mret (Some t)
  | [] => mret None
  end.
Definition gc_push (t : positive) : TM unit :=
  modify (λ st, set_EXITED_TASKS (EXITED_TASKS st ++ [t]) st).

(** ** Initialisation *)

Definition AxRunQueue_new (gc_task : positive) : TM unit :=
  _ ← TaskInner_new gc_task "gc"; on_scheduler (sched_add_task gc_task).

(** [init], with the addresses its three tasks are allocated at. *)
Definition init (idle_task main_task gc_task : positive) : TM unit :=
  _ ← TaskInner_new idle_task "idle";
  _ ← arc_clone idle_task;
  _ ← modify (set_IDLE_TASK (Some idle_task));
  _ ← new_init main_task "main";
  _ ← set_state main_task Running;
  _ ← AxRunQueue_new gc_task;
  _ ← modify (set_current_ptr (Some main_task));
  arc_drop idle_task.
End run_queue.
