(* ===== verification/RunQueueInv.v ===== *)
(** * The invariant of the run queue

    Where each task is, in which state, and how many references to it there are;
    every critical section of [RunQueue] keeps it and does not panic.  The
    schedulers are used through [SchedulerSpec] only. *)

From stdpp Require Import base decidable numbers list gmap strings countable sets.
From Stdlib Require Import ZArith Lia.
From S2P Require Import Prelude LinkedList Scheduler TimerList RunQueue.

Local Open Scope Z_scope.

(** ** Counting references *)

(** The occurrences of a task in all wait queues. *)
Definition qocc (t : positive) (w : gmap WqId (list positive)) : Z :=
  map_fold (λ _ l n, occ t l + n) 0 w.

Lemma qocc_insert_fresh t w q l : w !! q = None → qocc t (<[q := l]> w) = occ t l + qocc t w.
Proof.
  intros Hq. unfold qocc. rewrite map_fold_insert_L; [done|intros; lia|done].
Qed.

Lemma qocc_delete t w q : qocc t (delete q w) = qocc t w - occ t (default [] (w !! q)).
Proof.
  destruct (w !! q) as [l|] eqn:Hq; simpl.
  - rewrite <-(insert_delete_id w q l) at 2 by done.
    rewrite qocc_insert_fresh by apply lookup_delete_eq. lia.
  - rewrite delete_id by done. lia.
Qed.

Lemma qocc_insert t w q l :
  qocc t (<[q := l]> w) = qocc t w - occ t (default [] (w !! q)) + occ t l.
Proof.
  rewrite <-insert_delete_eq, qocc_insert_fresh by apply lookup_delete_eq.
  rewrite qocc_delete. lia.
Qed.

Lemma qocc_nonneg t w : 0 ≤ qocc t w.
Proof.
  unfold qocc. apply (map_fold_weak_ind (λ n _, 0 ≤ n)); [lia|].
  intros. pose proof (occ_nonneg t x). lia.
Qed.

Lemma qocc_pos t w : (∃ q, t ∈ default [] (w !! q)) ↔ 0 < qocc t w.
Proof.
  split.
  - intros [q Hq]. pose proof (qocc_delete t w q) as Hd.
    pose proof (qocc_nonneg t (delete q w)). apply occ_pos in Hq. lia.
  - induction w as [|q l w Hq IH] using map_ind; [unfold qocc; rewrite map_fold_empty; lia|].
    rewrite qocc_insert_fresh by done. intros Hp.
    destruct (decide (0 < occ t l)) as [Hl|Hl].
    + exists q. rewrite lookup_insert_eq. by apply occ_pos.
    + destruct IH as [q' Hq']; [pose proof (occ_nonneg t l); lia|].
      exists q'. rewrite lookup_insert_ne; [done|]. intros ->. rewrite Hq in Hq'. set_solver.
Qed.

(** ** The invariant *)

Section inv.
Context {Sch : Type} `{BSch : !BaseScheduler Sch} `{SSpec : !SchedulerSpec Sch}.
Context `{Hch : !HeapChoice positive}.
Implicit Types st : TaskSys Sch.
Implicit Types X : gset positive.
Implicit Types ext G : positive → Z.
Implicit Types E : positive → TaskState → Prop.
Implicit Types D : positive → Prop.

Definition timer_tasks st : list positive := event <$> events (TIMER_LIST st).

(** The references to [t]: of the processor, the idle slot, the scheduler, the
    wait queues, the list of exited tasks, the timers, and [ext] others. *)
Definition holders st X ext (t : positive) : Z :=
  b2z (current_ptr st = Some t) + b2z (IDLE_TASK st = Some t) + b2z (t ∈ X)
  + qocc t (wqs st) + occ t (EXITED_TASKS st) + occ t (timer_tasks st) + ext t.

(** Something will wake [t] up. *)
Definition waker st (t : positive) : Prop :=
  (∃ q, t ∈ queue_of q st) ∨ t ∈ timer_tasks st.

(** A task is where its state says. *)
Definition placed st X (gh : option positive) (t : positive) (x : TaskInner) : Prop :=
  match task_state x with
  | Running => current_ptr st = Some t
  | Ready => task_is_idle x = true ∨ t ∈ X
  | Blocked => waker st t
  | Exited => t ∈ EXITED_TASKS st ∨ gh = Some t
  end.

(** [k] is the scheduler's room, [c] the current task in state [s], [G] the number
    of preemption guards each task holds, [D] the tasks that have exited, [gh] the
    task in the hands of the collector, [E] the tasks exempt from being placed. *)
Record core (k : nat) (c : positive) G D (gh : option positive) (s : TaskState) X ext E st
    : Prop := {
  core_ready : sched_ready (scheduler st) X;
  core_room : sched_room k (scheduler st);
  core_known t x : tasks st !! t = Some x → sched_known (scheduler st) t;
  core_X t : t ∈ X →
    ∃ x, tasks st !! t = Some x ∧ task_state x = Ready ∧ task_is_idle x = false;
  core_cur : current_ptr st = Some c;
  core_cur_state : ∃ x, tasks st !! c = Some x ∧ task_state x = s;
  core_placed t x : tasks st !! t = Some x → placed st X gh t x ∨ E t (task_state x);
  core_strong t x : tasks st !! t = Some x → task_strong x = holders st X ext t;
  core_freed t : tasks st !! t = None → holders st X ext t = 0;
  core_ext t : 0 ≤ ext t;
  core_held t : gh = Some t → 1 ≤ ext t;
  core_count t x : tasks st !! t = Some x → task_preempt_disable_count x = G t;
  core_exit t x : tasks st !! t = Some x → task_state x = Exited ↔ D t;
  core_gone t : tasks st !! t = None → D t;
  core_idle t x : tasks st !! t = Some x → task_is_idle x = true →
    IDLE_TASK st = Some t ∧ (task_state x = Ready ∨ task_state x = Running);
  core_idle_ex : ∃ i x, IDLE_TASK st = Some i ∧ tasks st !! i = Some x ∧ task_is_idle x = true;
  core_exited t : t ∈ EXITED_TASKS st ∨ gh = Some t →
    ∃ x, tasks st !! t = Some x ∧ task_state x = Exited;
  core_joinq t x : tasks st !! t = Some x → task_state x = Exited →
    queue_of (wait_for_exit t) st = [] ∨ E t Exited;
}.

Definition none (_ : positive) (_ : TaskState) : Prop := False.
Definition only (t : positive) (r : TaskState) (u : positive) (r' : TaskState) : Prop :=
  u = t ∧ r' = r.
Definition either E1 E2 (u : positive) (r : TaskState) : Prop := E1 u r ∨ E2 u r.

(** One more reference to [t] in the hands of the code. *)
Definition owe (t : positive) ext (u : positive) : Z := ext u + b2z (t = u).

Lemma holders_nonneg st X ext t : 0 ≤ ext t → 0 ≤ holders st X ext t.
Proof.
  intros. unfold holders. pose proof (b2z_nonneg (current_ptr st = Some t)).
  pose proof (b2z_nonneg (IDLE_TASK st = Some t)). pose proof (b2z_nonneg (t ∈ X)).
  pose proof (qocc_nonneg t (wqs st)). pose proof (occ_nonneg t (EXITED_TASKS st)).
  pose proof (occ_nonneg t (timer_tasks st)). lia.
Qed.

(** A task somebody refers to is alive. *)
Lemma core_alive k c G D gh s X ext E st t :
  core k c G D gh s X ext E st → holders st X ext t ≠ 0 → ∃ x, tasks st !! t = Some x.
Proof.
  intros HI Hh. destruct (tasks st !! t) as [x|] eqn:Hx; [by eauto|].
  by apply (core_freed _ _ _ _ _ _ _ _ _ _ HI) in Hx.
Qed.

Lemma owe_holders st X ext t u : holders st X (owe t ext) u = holders st X ext u + b2z (t = u).
Proof. unfold holders, owe. lia. Qed.

Lemma core_alive_owe k c G D gh s X ext E st t :
  core k c G D gh s X (owe t ext) E st → 0 ≤ ext t → ∃ x, tasks st !! t = Some x.
Proof.
  intros HI He. eapply core_alive; [done|]. rewrite owe_holders, b2z_true by done.
  pose proof (holders_nonneg st X ext t He). lia.
Qed.

(** Only part of the state matters. *)
Lemma holders_tasks st X ext m t : holders (set_tasks m st) X ext t = holders st X ext t.
Proof. done. Qed.

Lemma holders_ext st X ext ext' t :
  holders st X ext' t = holders st X ext t + ext' t - ext t.
Proof. unfold holders. lia. Qed.

(** The parameters that are functions only matter pointwise. *)
Lemma core_conv k c G G' D D' gh s X ext ext' E E' st :
  core k c G D gh s X ext E st →
  (∀ t, G' t = G t) → (∀ t, D' t ↔ D t) → (∀ t, ext' t = ext t) →
  (∀ t x, tasks st !! t = Some x → E t (task_state x) →
     (placed st X gh t x ∨ E' t (task_state x)) ∧
     (task_state x = Exited → queue_of (wait_for_exit t) st = [] ∨ E' t Exited)) →
  core k c G' D' gh s X ext' E' st.
Proof.
  intros [] HG HD Hext HE. split; try done.
  - intros t x Hx. destruct (core_placed0 t x Hx) as [?|He]; [by left|]. by apply HE.
  - intros t x Hx. unfold holders. rewrite Hext. by apply core_strong0.
  - intros t Hx. unfold holders. rewrite Hext. by apply core_freed0.
  - intros t. by rewrite Hext.
  - intros t. rewrite Hext. by apply core_held0.
  - intros t x Hx. rewrite HG. by apply core_count0.
  - intros t x Hx. rewrite HD. by apply core_exit0.
  - intros t Hx. rewrite HD. by apply core_gone0.
  - intros t x Hx Hs. destruct (core_joinq0 t x Hx Hs) as [?|He]; [by left|].
    eapply HE; [done|by rewrite Hs|done].
Qed.

(** Changing a task without its state. *)
Lemma core_upd k c G G' D gh s X ext ext' E st t x y :
  core k c G D gh s X ext E st → tasks st !! t = Some x →
  task_is_idle y = task_is_idle x → task_state y = task_state x →
  (∀ u, ext' u = ext u + if decide (u = t) then task_strong y - task_strong x else 0) →
  0 ≤ ext' t → (gh = Some t → 1 ≤ ext' t) →
  task_preempt_disable_count y = G' t → (∀ u, u ≠ t → G' u = G u) →
  core k c G' D gh s X ext' E (set_tasks (<[t := y]> (tasks st)) st).
Proof.
  intros [] Hx Hidle Hst Hext Hpos Hgh HGt HG.
  assert (∀ u z, <[t := y]> (tasks st) !! u = Some z →
    ∃ z0, tasks st !! u = Some z0 ∧ task_is_idle z = task_is_idle z0 ∧
      task_state z = task_state z0) as Hback.
  { intros u z. rewrite lookup_insert. case_decide; subst; [|by eauto].
    intros [= <-]. eauto. }
  assert (∀ u z0, tasks st !! u = Some z0 → ∃ z, <[t := y]> (tasks st) !! u = Some z ∧
      task_is_idle z = task_is_idle z0 ∧ task_state z = task_state z0) as Hfwd.
  { intros u z0 Hu. rewrite lookup_insert. case_decide; subst; simplify_eq; eauto. }
  assert (∀ u, u ≠ t → ext' u = ext u) as Hext'.
  { intros u Hu. rewrite Hext, decide_False by done. lia. }
  split; simpl; try done.
  - intros u z Hu. apply Hback in Hu as (z0&Hz0&_). eauto.
  - intros u Hu. apply core_X0 in Hu as (z0&Hz0&?&?). apply Hfwd in Hz0 as (z&?&?&?).
    exists z. split_and!; congruence.
  - destruct core_cur_state0 as (z0&Hz0&?). apply Hfwd in Hz0 as (z&?&?&?).
    exists z. split; congruence.
  - intros u z Hu. apply Hback in Hu as (z0&Hz0&Hi&Hs). unfold placed. rewrite Hs, Hi.
    by apply core_placed0.
  - intros u z. rewrite lookup_insert. case_decide as Hd; subst.
    + intros [= <-]. rewrite holders_tasks, (holders_ext _ _ ext).
      rewrite (Hext u), decide_True, <-(core_strong0 u x Hx) by done. lia.
    + intros Hu. rewrite holders_tasks, (holders_ext _ _ ext), Hext' by done.
      rewrite <-(core_strong0 u z Hu). lia.
  - intros u Hu. apply lookup_insert_None in Hu as [Hu Hne].
    rewrite holders_tasks, (holders_ext _ _ ext), Hext', (core_freed0 u Hu) by done. lia.
  - intros u. destruct (decide (u = t)) as [->|]; [done|]. by rewrite Hext' by done.
  - intros u Hu. destruct (decide (u = t)) as [->|]; [by apply Hgh|].
    rewrite Hext' by done. by apply core_held0.
  - intros u z. rewrite lookup_insert. case_decide; subst; [by intros [= <-]|].
    intros Hu. rewrite HG by done. by apply core_count0.
  - intros u z Hu. apply Hback in Hu as (z0&Hz0&Hi&Hs). rewrite Hs. by apply core_exit0.
  - intros u [Hu _]%lookup_insert_None. by apply core_gone0.
  - intros u z Hu. apply Hback in Hu as (z0&Hz0&Hi&Hs). rewrite Hs, Hi. by apply core_idle0.
  - destruct core_idle_ex0 as (i&z0&?&Hz0&?). apply Hfwd in Hz0 as (z&?&?&?).
    exists i, z. split_and!; congruence.
  - intros u Hu. apply core_exited0 in Hu as (z0&Hz0&?). apply Hfwd in Hz0 as (z&?&?&?).
    exists z. split; congruence.
  - intros u z Hu. apply Hback in Hu as (z0&Hz0&Hi&Hs). rewrite Hs. by apply core_joinq0.
Qed.
(** Changing the state of a task. *)
Lemma core_state k c G D D' gh s s' X ext E E' st t x r :
  core k c G D gh s X ext E st → tasks st !! t = Some x →
  (t ∈ X → r = Ready) → (task_is_idle x = true → r = Ready ∨ r = Running) →
  (t ∈ EXITED_TASKS st ∨ gh = Some t → r = Exited) →
  (∀ u, u ≠ t → D' u ↔ D u) → (D' t ↔ r = Exited) →
  placed st X gh t (with_state r x) ∨ E' t r → (∀ u q, u ≠ t → E u q → E' u q) →
  (r = Exited → queue_of (wait_for_exit t) st = [] ∨ E' t Exited) →
  s' = (if decide (t = c) then r else s) →
  core k c G D' gh s' X ext E' (set_tasks (<[t := with_state r x]> (tasks st)) st).
Proof.
  intros [] Hx HX Hidle Hexit HD HDt Hpl HE Hjq ->.
  split; simpl; try done.
  - intros u z Hu. apply lookup_insert_Some in Hu as [[<- _]|[_ Hu]]; eauto.
  - intros u Hu. rewrite lookup_insert. case_decide as Hd; subst; [|by apply core_X0].
    eexists. split; [done|]. simpl. apply core_X0 in Hu as Hu'. destruct Hu' as (z&?&_&?).
    simplify_eq. split; [by apply HX|done].
  - rewrite lookup_insert. case_decide as Hd; subst; eauto.
  - intros u z Hu. apply lookup_insert_Some in Hu as [[<- <-]|[Hne Hu]]; [done|].
    destruct (core_placed0 u z Hu) as [?|He]; [by left|]. right. by apply HE.
  - intros u z Hu. rewrite holders_tasks.
    apply lookup_insert_Some in Hu as [[<- <-]|[Hne Hu]]; [|by apply core_strong0].
    by apply (core_strong0 t x).
  - intros u Hu. rewrite holders_tasks. apply lookup_insert_None in Hu as [? _].
    by apply core_freed0.
  - intros u z Hu. apply lookup_insert_Some in Hu as [[<- <-]|[Hne Hu]];
      [|by apply core_count0]. by apply (core_count0 t x).
  - intros u z Hu. apply lookup_insert_Some in Hu as [[<- <-]|[Hne Hu]]; simpl.
    + by rewrite HDt.
    + rewrite HD by done. by apply core_exit0.
  - intros u [Hu Hne]%lookup_insert_None. rewrite HD by done. by apply core_gone0.
  - intros u z Hu. apply lookup_insert_Some in Hu as [[<- <-]|[Hne Hu]]; simpl.
    + intros Hi. split; [|by apply Hidle]. by eapply core_idle0.
    + by apply core_idle0.
  - destruct core_idle_ex0 as (i&z&?&Hz&?). destruct (decide (i = t)) as [->|].
    + exists t, (with_state r x). rewrite lookup_insert_eq. by simplify_eq.
    + exists i, z. by rewrite lookup_insert_ne by done.
  - intros u Hu. rewrite lookup_insert. case_decide as Hd; subst; [|by apply core_exited0].
    eexists. split; [done|]. by apply Hexit.
  - intros u z Hu. apply lookup_insert_Some in Hu as [[<- <-]|[Hne Hu]]; [done|].
    intros Hz. destruct (core_joinq0 u z Hu Hz) as [?|?]; [by left|right; by apply HE].
Qed.

(** ** Access to tasks *)

Lemma get_task_ok st t x : tasks st !! t = Some x → get_task t st = (Ok x, st).
Proof. intros Hx. unfold get_task. erewrite M_bind_ok by done. by rewrite Hx. Qed.

Lemma update_task_ok st t x f :
  tasks st !! t = Some x →
  update_task t f st = (Ok tt, set_tasks (<[t := f x]> (tasks st)) st).
Proof.
  intros Hx. unfold update_task. by erewrite M_bind_ok by (by apply get_task_ok).
Qed.

Lemma current_ok st c : current_ptr st = Some c → current st = (Ok c, st).
Proof. intros Hc. unfold current. erewrite M_bind_ok by done. by rewrite Hc. Qed.

(** What the operations that do not reschedule leave alone. *)
Record frame st st' : Prop := {
  frame_idle : IDLE_TASK st' = IDLE_TASK st;
  frame_exited : EXITED_TASKS st' = EXITED_TASKS st;
  frame_timers : TIMER_LIST st' = TIMER_LIST st;
  frame_clock : clock st' = clock st;
  frame_halted : halted st' = halted st;
  frame_queues q : queue_of q st' = queue_of q st;
}.

#[export] Instance frame_preorder : PreOrder frame.
Proof.
  split; [done|]. intros st1 st2 st3 [] []. split; congruence.
Qed.

(** Setting a flag or the exit code. *)
Lemma core_flags k c G D gh s X ext E st t x y :
  core k c G D gh s X ext E st → tasks st !! t = Some x →
  task_is_idle y = task_is_idle x → task_state y = task_state x →
  task_strong y = task_strong x →
  task_preempt_disable_count y = task_preempt_disable_count x →
  core k c G D gh s X ext E (set_tasks (<[t := y]> (tasks st)) st).
Proof.
  intros HI Hx ? ? Hs Hn. pose proof HI as []. eapply core_upd; try done.
  - intros u. rewrite Hs. case_decide; lia.
  - intros Hg. by apply core_held0.
  - rewrite Hn. by apply core_count0.
Qed.

Lemma flag_ok k c G D gh s X ext E st t x f :
  core k c G D gh s X ext E st → tasks st !! t = Some x →
  task_is_idle (f x) = task_is_idle x → task_state (f x) = task_state x →
  task_strong (f x) = task_strong x →
  task_preempt_disable_count (f x) = task_preempt_disable_count x →
  ∃ st', update_task t f st = (Ok tt, st') ∧ core k c G D gh s X ext E st' ∧ frame st st' ∧
    tasks st' = <[t := f x]> (tasks st) ∧ current_ptr st' = current_ptr st.
Proof.
  intros HI Hx ? ? Hs Hn. eexists. split; [by apply update_task_ok|].
  split; [by eapply core_flags|]. by split.
Qed.

(** ** References *)

Lemma core_clone k c G D gh s X ext E st t x :
  core k c G D gh s X ext E st → tasks st !! t = Some x →
  core k c G D gh s X (owe t ext) E
    (set_tasks (<[t := with_counts (task_preempt_disable_count x) (task_exit_code x)
                         (task_strong x + 1) x]> (tasks st)) st).
Proof.
  intros HI Hx. pose proof HI as []. unfold owe.
  pose proof (core_ext0 t). eapply core_upd; try done; simpl.
  - intros u. unfold b2z. repeat case_decide; simplify_eq; lia.
  - rewrite b2z_true by done. lia.
  - rewrite b2z_true by done. lia.
  - by apply core_count0.
Qed.

Lemma arc_clone_ok k c G D gh s X ext E st t x :
  core k c G D gh s X ext E st → tasks st !! t = Some x →
  ∃ st' y, arc_clone t st = (Ok tt, st') ∧ core k c G D gh s X (owe t ext) E st' ∧
    frame st st' ∧ tasks st' = <[t := y]> (tasks st) ∧
    task_is_idle y = task_is_idle x ∧ task_state y = task_state x ∧
    task_preempt_disable_count y = task_preempt_disable_count x.
Proof.
  intros HI Hx. do 2 eexists. split.
  { unfold arc_clone. erewrite M_bind_ok by (by apply get_task_ok). by apply update_task_ok. }
  split; [by apply core_clone|]. by split.
Qed.
(** The references [holders] counts. *)
Lemma holders_zero st X ext t :
  0 ≤ ext t → holders st X ext t = 0 →
  current_ptr st ≠ Some t ∧ IDLE_TASK st ≠ Some t ∧ t ∉ X ∧ t ∉ EXITED_TASKS st ∧
  ¬ waker st t ∧ ext t = 0.
Proof.
  intros He Hh. unfold holders in Hh. unfold waker, queue_of. rewrite qocc_pos, !occ_pos.
  pose proof (qocc_nonneg t (wqs st)). pose proof (occ_nonneg t (EXITED_TASKS st)).
  pose proof (occ_nonneg t (timer_tasks st)). unfold b2z in Hh.
  repeat case_decide; split_and!; (done || lia).
Qed.

(** A task that is not running and is in its place has a reference there. *)
Lemma placed_holder st X gh ext t x :
  placed st X gh t x → task_state x ≠ Running → 0 ≤ ext t → (gh = Some t → 1 ≤ ext t) →
  (task_is_idle x = true → IDLE_TASK st = Some t) →
  1 ≤ holders st X ext t - b2z (current_ptr st = Some t).
Proof.
  unfold placed, holders, waker, queue_of. intros Hp Hs He Hgh Hi.
  pose proof (b2z_nonneg (IDLE_TASK st = Some t)). pose proof (b2z_nonneg (t ∈ X)).
  pose proof (qocc_nonneg t (wqs st)). pose proof (occ_nonneg t (EXITED_TASKS st)).
  pose proof (occ_nonneg t (timer_tasks st)).
  destruct (task_state x); [done|..].
  - destruct Hp as [Hp|Hp]; [rewrite (b2z_true (IDLE_TASK st = Some t)) by auto; lia|].
    rewrite (b2z_true (t ∈ X)) by done. lia.
  - rewrite qocc_pos, occ_pos in Hp. lia.
  - rewrite occ_pos in Hp. destruct Hp as [?|?%Hgh]; lia.
Qed.

Lemma queue_of_delete (w : gmap WqId (list positive)) q q' :
  default [] (w !! q) = [] → default [] (delete q w !! q') = default [] (w !! q').
Proof. intros Hq. rewrite lookup_delete. by case_decide; subst. Qed.

(** Freeing a task nothing refers to. *)
Lemma core_free k c G D gh s X ext E st t x :
  core k c G D gh s X (owe t ext) E st → 0 ≤ ext t → (gh = Some t → 1 ≤ ext t) →
  tasks st !! t = Some x → holders st X ext t = 0 → queue_of (wait_for_exit t) st = [] → D t →
  core k c G D gh s X ext E
    (set_wqs (delete (wait_for_exit t) (wqs st)) (set_tasks (delete t (tasks st)) st)).
Proof.
  intros [] He Hgh Hx Hz Hq HDt. destruct (holders_zero _ _ _ _ He Hz) as (Hc&Hi&HX&Hex&Hw&He0).
  set (st' := set_wqs _ _).
  assert (∀ q, queue_of q st' = queue_of q st) as Hqs by (intros q; by apply queue_of_delete).
  assert (∀ u, holders st' X ext u = holders st X (owe t ext) u - b2z (t = u)) as Hh.
  { intros u. rewrite owe_holders. unfold holders. simpl. rewrite qocc_delete.
    unfold queue_of in Hq. rewrite Hq. simpl. change (timer_tasks st') with (timer_tasks st). lia. }
  assert (∀ u z, delete t (tasks st) !! u = Some z → u ≠ t ∧ tasks st !! u = Some z) as Hback.
  { intros u z Hu. apply lookup_delete_Some in Hu as [? ?]. done. }
  assert (∀ u z, u ≠ t → tasks st !! u = Some z → delete t (tasks st) !! u = Some z) as Hfwd.
  { intros u z Hu. by rewrite lookup_delete_ne. }
  split; simpl; try done.
  - intros u z [? Hu]%Hback. eauto.
  - intros u Hu. destruct (core_X0 u Hu) as (z&?&?). exists z. split; [apply Hfwd; set_solver|done].
  - destruct core_cur_state0 as (z&?&?). exists z. split; [apply Hfwd; congruence|done].
  - intros u z [? Hu]%Hback. destruct (core_placed0 u z Hu) as [Hp|]; [left|by right].
    unfold placed, waker in *. destruct (task_state z); [done|done| |done].
    destruct Hp as [[q Hp]|Hp]; [left; exists q; by rewrite Hqs|by right].
  - intros u z [? Hu]%Hback. rewrite Hh, b2z_false by done. rewrite (core_strong0 u z Hu). lia.
  - intros u Hu. rewrite Hh. apply lookup_delete_None in Hu as [<-|Hu].
    + rewrite owe_holders. lia.
    + rewrite (core_freed0 u Hu), b2z_false by congruence. lia.
  - intros u. specialize (core_ext0 u). unfold owe, b2z in core_ext0. case_decide; [congruence|lia].
  - intros u Hu. specialize (core_held0 u Hu). unfold owe, b2z in core_held0.
    case_decide; [subst; auto|lia].
  - intros u z [? Hu]%Hback. eauto.
  - intros u z [? Hu]%Hback. eauto.
  - intros u [<-|Hu]%lookup_delete_None; [done|by apply core_gone0].
  - intros u z [? Hu]%Hback. eauto.
  - destruct core_idle_ex0 as (i&z&?&?&?). exists i, z. split_and!; [done|apply Hfwd; congruence|done].
  - intros u Hu. destruct (core_exited0 u Hu) as (z&?&?). exists z. split; [|done].
    apply Hfwd; [|done]. intros ->. destruct Hu as [?|?%Hgh]; [done|lia].
  - intros u z [? Hu]%Hback Hz'. rewrite Hqs. eauto.
Qed.

Lemma arc_drop_ok k c G D gh s X ext E st t :
  core k c G D gh s X (owe t ext) E st → 0 ≤ ext t → (gh = Some t → 1 ≤ ext t) →
  (∀ x, tasks st !! t = Some x →
     placed st X gh t x ∨ 1 < task_strong x ∨ (queue_of (wait_for_exit t) st = [] ∧ D t)) →
  ∃ st', arc_drop t st = (Ok tt, st') ∧ core k c G D gh s X ext E st' ∧ frame st st' ∧
    current_ptr st' = current_ptr st.
Proof.
  intros HI He Hgh Hpl. destruct (core_alive_owe _ _ _ _ _ _ _ _ _ _ _ HI He) as [x Hx].
  pose proof (core_strong _ _ _ _ _ _ _ _ _ _ HI t x Hx) as Hs.
  rewrite owe_holders, b2z_true in Hs by done.
  unfold arc_drop. erewrite M_bind_ok by (by apply get_task_ok).
  destruct (Z.eqb_spec (task_strong x) 1) as [H1|H1].
  - assert (holders st X ext t = 0) as Hz by lia.
    assert (queue_of (wait_for_exit t) st = [] ∧ D t) as [Hq HDt].
    { destruct (Hpl x Hx) as [Hp|[?|?]]; [|lia|done].
      destruct (holders_zero _ _ _ _ He Hz) as (Hc&_).
      pose proof (placed_holder st X gh ext t x Hp) as Hph.
      rewrite (b2z_false (_ = Some t)) in Hph by done.
      destruct (decide (task_state x = Running)) as [Hr|Hr].
      - unfold placed in Hp. by rewrite Hr in Hp.
      - enough (1 ≤ holders st X ext t - 0) by lia. apply Hph; [done..|].
        intros Hi. by apply (core_idle _ _ _ _ _ _ _ _ _ _ HI t x Hx). }
    eexists. split.
    { erewrite M_bind_ok by done. rewrite Hq. reflexivity. }
    split; [by eapply core_free|]. split; [|done]. split; try done.
    intros q. by apply queue_of_delete.
  - eexists. split; [by apply update_task_ok|]. split; [|by split].
    pose proof HI as []. pose proof (holders_nonneg st X ext t He).
    eapply core_upd; try done; simpl.
    + intros u. unfold owe, b2z. repeat case_decide; simplify_eq; lia.
    + by apply core_count0.
Qed.
(** ** Guards *)

Definition bump (c : positive) G (u : positive) : Z := G u + b2z (u = c).

Lemma guard_acquire_ok k c G D gh s X ext E st :
  core k c G D gh s X ext E st → 0 ≤ G c < 2 ^ 32 →
  ∃ st', guard_acquire st = (Ok tt, st') ∧ core k c (bump c G) D gh s X ext E st' ∧ frame st st'.
Proof.
  intros HI HG. pose proof HI as []. destruct core_cur_state0 as (x&Hx&_).
  eexists. split.
  { unfold guard_acquire. erewrite M_bind_ok by done. rewrite core_cur0.
    unfold disable_preempt. erewrite M_bind_ok by (by apply get_task_ok).
    by apply update_task_ok. }
  split; [|by split]. eapply core_upd; try done; simpl.
  - intros u. case_decide; lia.
  - intros. by apply core_held0.
  - rewrite (core_count0 c x Hx), add64_small by (unfold in_u64; lia).
    unfold bump. by rewrite b2z_true.
  - intros u Hu. unfold bump. rewrite b2z_false by done. lia.
Qed.

(** The release of a guard that is not the last one. *)
Lemma guard_release_nested k c G D gh s X ext E st :
  core k c (bump c G) D gh s X ext E st → 1 ≤ G c < 2 ^ 32 →
  ∃ st', guard_release st = (Ok false, st') ∧ core k c G D gh s X ext E st' ∧ frame st st'.
Proof.
  intros HI HG. pose proof HI as []. destruct core_cur_state0 as (x&Hx&_).
  assert (task_preempt_disable_count x = G c + 1) as Hn.
  { rewrite (core_count0 c x Hx). unfold bump. by rewrite b2z_true. }
  eexists. split.
  { unfold guard_release. erewrite M_bind_ok by done. rewrite core_cur0.
    erewrite M_bind_ok by (by apply get_task_ok).
    erewrite M_bind_ok by (by apply update_task_ok).
    rewrite Hn. destruct (Z.eqb_spec (G c + 1) 1); [lia|reflexivity]. }
  split; [|by split]. eapply core_upd; try done; simpl.
  - intros u. case_decide; lia.
  - intros. by apply core_held0.
  - rewrite sub64_small by (unfold in_u64; lia). lia.
  - intros u Hu. unfold bump. rewrite b2z_false by done. lia.
Qed.

Lemma nested_run {A} st st1 st2 st3 (body : M (TaskSys Sch) NoError A) a :
  guard_acquire st = (Ok tt, st1) → body st1 = (Ok a, st2) →
  guard_release st2 = (Ok false, st3) → nested body st = (Ok a, st3).
Proof.
  intros H1 H2 H3. unfold nested. erewrite M_bind_ok by done. erewrite M_bind_ok by done.
  by erewrite M_bind_ok by done.
Qed.

(** ** Rescheduling *)

Lemma on_scheduler_ok {A} (m : M Sch NoError A) st a s' :
  m (scheduler st) = (Ok a, s') → on_scheduler m st = (Ok a, set_scheduler s' st).
Proof. unfold on_scheduler. by intros ->. Qed.

(** A ready task that is put into the scheduler. *)
Lemma core_enqueue k k' c G D gh s X ext E st t x s' :
  core k c G D gh s X (owe t ext) E st → 0 ≤ ext t → (gh = Some t → 1 ≤ ext t) →
  tasks st !! t = Some x → task_state x = Ready → task_is_idle x = false → t ∉ X →
  sched_ready s' ({[t]} ∪ X) → sched_room k' s' →
  (∀ u, sched_known (scheduler st) u → sched_known s' u) →
  core k' c G D gh s ({[t]} ∪ X) ext E (set_scheduler s' st).
Proof.
  intros [] He Hgh Hx Hr Hi HX Hready Hroom Hk.
  assert (∀ u, holders (set_scheduler s' st) ({[t]} ∪ X) ext u = holders st X (owe t ext) u) as Hh.
  { intros u. rewrite owe_holders. unfold holders. change (timer_tasks (set_scheduler s' st))
      with (timer_tasks st). simpl. unfold b2z.
    destruct (decide (t = u)) as [->|].
    - rewrite (decide_True (P := u ∈ {[u]} ∪ X)), (decide_False (P := u ∈ X)) by set_solver. lia.
    - destruct (decide (u ∈ X)); [rewrite (decide_True (P := u ∈ {[t]} ∪ X)) by set_solver|
        rewrite (decide_False (P := u ∈ {[t]} ∪ X)) by set_solver]; lia. }
  split; simpl; try done.
  - eauto.
  - intros u [->%elem_of_singleton|Hu]%elem_of_union; eauto.
  - intros u z Hu. destruct (core_placed0 u z Hu) as [Hp|]; [left|by right].
    unfold placed in *. destruct (task_state z); try done. set_solver.
  - intros u z Hu. rewrite Hh. by apply core_strong0.
  - intros u Hu. rewrite Hh. by apply core_freed0.
  - intros u. specialize (core_ext0 u). unfold owe, b2z in core_ext0. case_decide; [congruence|lia].
  - intros u Hu. specialize (core_held0 u Hu). unfold owe, b2z in core_held0.
    case_decide; [subst; auto|lia].
Qed.

(** A task that is taken out of the scheduler. *)
Lemma core_dequeue k c G D gh s X ext E st t s' :
  core k c G D gh s X ext E st → t ∈ X → sched_ready s' (X ∖ {[t]}) → sched_room k s' →
  (∀ u, sched_known (scheduler st) u → sched_known s' u) →
  core k c G D gh s (X ∖ {[t]}) (owe t ext) (either E (only t Ready)) (set_scheduler s' st).
Proof.
  intros [] Ht Hready Hroom Hk.
  assert (∀ u, holders (set_scheduler s' st) (X ∖ {[t]}) (owe t ext) u = holders st X ext u) as Hh.
  { intros u. rewrite owe_holders. unfold holders. change (timer_tasks (set_scheduler s' st))
      with (timer_tasks st). simpl. unfold b2z.
    destruct (decide (t = u)) as [->|].
    - rewrite (decide_False (P := u ∈ X ∖ {[u]})), (decide_True (P := u ∈ X)) by set_solver. lia.
    - destruct (decide (u ∈ X)); [rewrite (decide_True (P := u ∈ X ∖ {[t]})) by set_solver|
        rewrite (decide_False (P := u ∈ X ∖ {[t]})) by set_solver]; lia. }
  split; simpl; try done.
  - eauto.
  - intros u Hu. apply core_X0. set_solver.
  - intros u z Hu. destruct (core_placed0 u z Hu) as [Hp|]; [|by right; left].
    destruct (core_X0 t Ht) as (x&Hx&Hr&?).
    destruct (decide (u = t)) as [->|].
    + right. right. simplify_eq. done.
    + left. unfold placed in *. destruct (task_state z); try done. set_solver.
  - intros u z Hu. rewrite Hh. by apply core_strong0.
  - intros u Hu. rewrite Hh. by apply core_freed0.
  - intros u. unfold owe. pose proof (b2z_nonneg (t = u)). specialize (core_ext0 u). lia.
  - intros u Hu. unfold owe. pose proof (b2z_nonneg (t = u)). specialize (core_held0 u Hu). lia.
  - intros u z Hu Hz. destruct (core_joinq0 u z Hu Hz); [by left|by right; left].
Qed.
(** The switch from [c], which has a reference elsewhere, to [n]. *)
Lemma core_switch k c n G D gh s X ext st x :
  core k c G D gh s X (owe n ext) (only n Running) st → n ≠ c → 0 ≤ ext n →
  (gh = Some n → 1 ≤ ext n) → s ≠ Running →
  tasks st !! c = Some x → (∃ y, tasks st !! n = Some y ∧ task_state y = Running) →
  core k n G D gh Running X ext none
    (set_current_ptr (Some n)
       (set_tasks (<[c := with_counts (task_preempt_disable_count x) (task_exit_code x)
                            (task_strong x - 1) x]> (tasks st)) st)).
Proof.
  intros HI Hne He Hgh Hs Hx (y&Hy&Hyr). pose proof HI as [].
  set (st' := set_current_ptr _ _).
  assert (∀ u, holders st' X ext u = holders st X (owe n ext) u - b2z (c = u)) as Hh.
  { intros u. rewrite owe_holders. unfold holders. change (timer_tasks st') with (timer_tasks st).
    simpl. rewrite core_cur0. unfold b2z. repeat case_decide; simplify_eq; lia. }
  assert (∀ u z, tasks st' !! u = Some z → ∃ z0, tasks st !! u = Some z0 ∧
    task_is_idle z = task_is_idle z0 ∧ task_state z = task_state z0 ∧
    task_strong z = task_strong z0 - b2z (c = u) ∧
    task_preempt_disable_count z = task_preempt_disable_count z0) as Hback.
  { intros u z. simpl. rewrite lookup_insert. unfold b2z. case_decide; subst.
    - intros [= <-]. exists x. done.
    - intros Hz. exists z. split_and!; [done..|lia|done]. }
  assert (∀ u z0, tasks st !! u = Some z0 → ∃ z, tasks st' !! u = Some z ∧
    task_is_idle z = task_is_idle z0 ∧ task_state z = task_state z0) as Hfwd.
  { intros u z0 Hu. simpl. rewrite lookup_insert. case_decide; subst; simplify_eq; eauto. }
  split; simpl; try done.
  - intros u z Hu. apply Hback in Hu as (z0&Hz0&_). eauto.
  - intros u Hu. apply core_X0 in Hu as (z0&Hz0&?&?). apply Hfwd in Hz0 as (z&?&?&?).
    exists z. split_and!; [done|congruence..].
  - apply Hfwd in Hy as (z&?&?&?). exists z. split; [done|congruence].
  - intros u z Hu. apply Hback in Hu as (z0&Hz0&Hi&Hst&_). left. unfold placed. rewrite Hst, Hi.
    destruct (core_placed0 u z0 Hz0) as [Hp|[-> Hp]]; [|by rewrite Hp].
    unfold placed in Hp. destruct (task_state z0) eqn:Hz; try done.
    simpl in Hp. destruct core_cur_state0 as (x'&Hx'&Hs'). congruence.
  - intros u z Hu. apply Hback in Hu as (z0&Hz0&_&_&Hst&_). rewrite Hh, Hst.
    by rewrite (core_strong0 u z0 Hz0).
  - intros u Hu. apply lookup_insert_None in Hu as [Hu ?].
    rewrite Hh, (core_freed0 u Hu), b2z_false by done. lia.
  - intros u. specialize (core_ext0 u). unfold owe, b2z in core_ext0. case_decide; [congruence|lia].
  - intros u Hu. specialize (core_held0 u Hu). unfold owe, b2z in core_held0.
    case_decide; [subst; auto|lia].
  - intros u z Hu. apply Hback in Hu as (z0&Hz0&_&_&_&->). by apply core_count0.
  - intros u z Hu. apply Hback in Hu as (z0&Hz0&_&->&_). by apply core_exit0.
  - intros u [Hu _]%lookup_insert_None. by apply core_gone0.
  - intros u z Hu. apply Hback in Hu as (z0&Hz0&->&->&_). by apply core_idle0.
  - destruct core_idle_ex0 as (i&z0&?&Hz0&?). apply Hfwd in Hz0 as (z&?&?&?).
    exists i, z. split_and!; [done|done|congruence].
  - intros u Hu. apply core_exited0 in Hu as (z0&Hz0&?). apply Hfwd in Hz0 as (z&?&?&?).
    exists z. split; [done|congruence].
  - intros u z Hu Hz. apply Hback in Hu as (z0&Hz0&_&Hst&_). rewrite Hst in Hz.
    destruct (core_joinq0 u z0 Hz0 Hz) as [?|[_ ?]]; [by left|done].
Qed.

Lemma switch_to_ok k c n G D gh s X ext st x :
  core k c G D gh s X (owe n ext) (only n Ready) st → (∀ t, 0 ≤ ext t) →
  (∀ t, gh = Some t → 1 ≤ ext t) →
  s ≠ Running → n ∉ X → tasks st !! n = Some x → task_state x = Ready →
  ∃ st' c', switch_to c n st = (Ok tt, st') ∧ core k c' G D gh Running X ext none st' ∧
    frame st st'.
Proof.
  intros HI He Hgh Hs HX Hx Hr. unfold switch_to.
  destruct (flag_ok _ _ _ _ _ _ _ _ _ _ n x
    (λ x, with_flags (task_in_wait_queue x) (task_in_timer_list x) false x) HI Hx)
    as (st1&H1&HI1&F1&Ht1&Hc1); [done..|].
  erewrite M_bind_ok by exact H1. set (x1 := with_flags _ _ _ _) in Ht1.
  assert (tasks st1 !! n = Some x1) as Hx1 by (rewrite Ht1; apply lookup_insert_eq).
  erewrite M_bind_ok by (by apply update_task_ok).
  set (x2 := with_state Running x1). set (st2 := set_tasks _ st1).
  assert (core k c G D gh (if decide (n = c) then Running else s) X (owe n ext)
    (only n Running) st2) as HI2.
  { pose proof HI1 as []. eapply core_state; try done.
    - intros _. by right.
    - intros Hu. apply core_exited0 in Hu as (z&?&Hz). simplify_eq. simpl in Hz. congruence.
    - rewrite <-(core_exit0 n x1 Hx1). simpl. by rewrite Hr.
    - by right.
    - intros u q Hu [-> ?]. done. }
  assert (tasks st2 !! n = Some x2) as Hx2 by apply lookup_insert_eq.
  assert (frame st st2) as F2 by (etrans; [done|by split]).
  case_bool_decide as Hcn.
  - subst n. rewrite decide_True in HI2 by done.
    destruct (arc_drop_ok _ _ _ _ _ _ _ _ _ _ c HI2 (He c) (Hgh c)) as (st3&H3&HI3&F3&Hc3).
    { intros z Hz. left. simplify_eq. apply (core_cur _ _ _ _ _ _ _ _ _ _ HI2). }
    exists st3, c. split; [done|]. split; [|by etrans]. eapply core_conv; [exact HI3|done..|].
    intros u z Hu [-> Hz]. split; [|by rewrite Hz]. left. unfold placed. rewrite Hz.
    apply (core_cur _ _ _ _ _ _ _ _ _ _ HI3).
  - rewrite decide_False in HI2 by done. pose proof HI2 as [].
    destruct core_cur_state0 as (p&Hp&Hps).
    assert (2 ≤ task_strong p) as Hpc.
    { destruct (core_placed0 c p Hp) as [Hpl|[? ?]]; [|done].
      rewrite (core_strong0 c p Hp), owe_holders, b2z_false by done.
      assert (1 ≤ holders st2 X ext c - b2z (current_ptr st2 = Some c)) as Hh.
      { apply (placed_holder st2 X gh ext c p); [done|congruence|done|by apply Hgh|].
        intros Hi. by apply (core_idle0 c p Hp). }
      rewrite b2z_true in Hh by done. lia. }
    assert (1 ≤ task_strong x2) as Hxc.
    { rewrite (core_strong0 n x2 Hx2), owe_holders, b2z_true by done.
      pose proof (holders_nonneg st2 X ext n (He n)). lia. }
    do 2 eexists. split.
    { erewrite M_bind_ok by (by apply get_task_ok).
      erewrite M_bind_ok by (by rewrite (proj2 (Z.ltb_lt _ _)) by lia).
      erewrite M_bind_ok by (by apply get_task_ok).
      erewrite M_bind_ok by (by rewrite (proj2 (Z.leb_le _ _)) by lia).
      erewrite M_bind_ok; [done|]. unfold arc_drop.
      erewrite M_bind_ok by (by apply get_task_ok).
      rewrite (proj2 (Z.eqb_neq _ _)) by lia. by apply update_task_ok. }
    split; [|etrans; [exact F2|by split]].
    eapply core_switch; try done; eauto.
Qed.
End inv.

(** The clauses of the invariant, with fixed names. *)
Ltac open_core H :=
  pose proof H as [Iready Iroom Iknown IX Icur Icurst Iplaced Istrong Ifreed Iext Iheld Icount
                   Iexit Igone Iidle Iidleex Iexited Ijoinq].
