(* ===== verification/RunQueueOps.v ===== *)
(** * The critical sections of the task system keep the invariant

    Every operation of [RunQueue], from a state that satisfies [core]: it does not
    panic and gives a state that satisfies [core] again. *)

From stdpp Require Import base decidable numbers list gmap strings countable sets.
From Stdlib Require Import ZArith Lia.
From S2P Require Import Prelude LinkedList Scheduler TimerList RunQueue RunQueueInv.

Local Open Scope Z_scope.

Section ops.
Context {Sch : Type} `{BSch : !BaseScheduler Sch} `{SSpec : !SchedulerSpec Sch}.
Context `{Hch : !HeapChoice positive}.
Implicit Types st : TaskSys Sch.
Implicit Types X : gset positive.
Implicit Types ext G : positive → Z.
Implicit Types E : positive → TaskState → Prop.
Implicit Types D : positive → Prop.

(** ** Rescheduling *)

Lemma core_owe_ext k c G D gh s X ext E st t u :
  core k c G D gh s X ext E st → 0 ≤ ext u ∧ (gh = Some u → 1 ≤ ext u) ∧ 0 ≤ owe t ext u.
Proof.
  intros HI. open_core HI. unfold owe. pose proof (b2z_nonneg (t = u)). specialize (Iext u).
  split_and!; [lia|by apply Iheld|lia].
Qed.

Lemma core_room_S k c G D gh s X ext E st :
  core (Datatypes.S k) c G D gh s X ext E st → core k c G D gh s X ext E st.
Proof. intros []. split; try done. by apply sched_room_S. Qed.

Lemma core_room_le n k c G D gh s X ext E st :
  core (n + k) c G D gh s X ext E st → core k c G D gh s X ext E st.
Proof. induction n; [done|]. intros HI. apply IHn. by apply core_room_S. Qed.

Lemma core_room_0 k c G D gh s X ext E st :
  core k c G D gh s X ext E st → core 0 c G D gh s X ext E st.
Proof. intros HI. rewrite <-(Nat.add_0_r k) in HI. by eapply core_room_le. Qed.

(** The first half of [resched]: a running task is put back. *)
Lemma put_prev_ok k c G D gh s X ext st x b :
  core (Datatypes.S k) c G D gh s X ext none st → tasks st !! c = Some x →
  ∃ st' s' X',
    (if is_running x then
       _ ← set_state c Ready;
       if negb (task_is_idle x) then
         _ ← arc_clone c; on_scheduler (sched_put_prev_task c b)
       else mret tt
     else mret tt) st = (Ok tt, st') ∧
    core k c G D gh s' X' ext none st' ∧ frame st st' ∧ s' ≠ Running.
Proof.
  intros HI Hx. open_core HI. unfold is_running. case_bool_decide as Hr.
  2:{ exists st, s, X. split; [done|]. split; [by apply core_room_S|split; [done|]].
      destruct Icurst as (z&?&?). congruence. }
  assert (c ∉ X) as HcX.
  { intros HX. apply IX in HX as (z&?&?&?). congruence. }
  erewrite M_bind_ok by (by apply update_task_ok). set (st1 := set_tasks _ st).
  assert (∀ E', (E' c Ready ∨ task_is_idle x = true) →
    core (Datatypes.S k) c G D gh Ready X ext E' st1) as HI1.
  { intros E' HE. eapply core_state; try done.
    - by left.
    - intros Hu. apply Iexited in Hu as (z&?&?). congruence.
    - rewrite <-(Iexit c x Hx). by rewrite Hr.
    - unfold placed. simpl. tauto.
    - by rewrite decide_True. }
  assert (tasks st1 !! c = Some (with_state Ready x)) as Hx1 by apply lookup_insert_eq.
  destruct (task_is_idle x) eqn:Hi; cbn [negb].
  { exists st1, Ready, X. split; [done|]. split; [|done].
    apply core_room_S. exact (HI1 none (or_intror eq_refl)). }
  specialize (HI1 (only c Ready)). ospecialize (HI1 _); [by left|].
  destruct (arc_clone_ok _ _ _ _ _ _ _ _ _ _ c _ HI1 Hx1) as (st2&y&H2&HI2&F2&Ht2&Hy&Hys&_).
  erewrite M_bind_ok by done.
  assert (tasks st2 !! c = Some y) as Hy2 by (rewrite Ht2; apply lookup_insert_eq).
  pose proof HI2 as [Hrd Hrm Hkn _ _ _ _ _ _ _ _ _ _ _ _ _ _].
  destruct (sched_put_ok (scheduler st2) X c b k Hrd (Hkn c y Hy2) Hrm HcX)
    as (s'&Hput&Hrd'&Hkn'&Hrm').
  exists (set_scheduler s' st2), Ready, ({[c]} ∪ X). split; [by apply on_scheduler_ok|].
  split; [|split; [by etrans; [|by etrans; [exact F2|]]|done]].
  eapply core_conv; [eapply (core_enqueue _ _ _ _ _ _ _ _ ext); try done|done..|].
  - by apply Iheld.
  - simpl in Hy; congruence.
  - intros u z Hu [-> Hz]. split; [|by rewrite Hz]. left. unfold placed. rewrite Hz.
    right. set_solver.
Qed.

Lemma resched_ok k c G D gh s X ext st b :
  core (Datatypes.S k) c G D gh s X ext none st →
  ∃ st' c' X', resched b st = (Ok tt, st') ∧ core k c' G D gh Running X' ext none st' ∧
    frame st st'.
Proof.
  intros HI. pose proof (core_cur_state _ _ _ _ _ _ _ _ _ _ HI) as (x&Hx&_).
  unfold resched. erewrite M_bind_ok by (by eapply current_ok, core_cur).
  erewrite M_bind_ok by (by apply get_task_ok).
  destruct (put_prev_ok _ _ _ _ _ _ _ _ _ _ b HI Hx) as (st1&s1&X1&H1&HI1&F1&Hs1).
  erewrite M_bind_ok by exact H1. open_core HI1.
  destruct (sched_pick_ok (scheduler st1) X1 Iready) as (r&s2&Hpick&Hkn&Hrm&Hr).
  erewrite M_bind_ok by (by apply on_scheduler_ok).
  destruct r as [n|].
  - destruct Hr as [Hn Hrd]. erewrite M_bind_ok by done.
    destruct (IX n Hn) as (y&Hy&Hyr&_).
    edestruct (switch_to_ok k c n G D gh s1 (X1 ∖ {[n]}) ext (set_scheduler s2 st1) y)
      as (st'&c'&H2&HI2&F2); try done; [|set_solver|].
    + eapply core_conv; [eapply (core_dequeue _ _ _ _ _ _ _ _ _ _ n); eauto|done..|].
      intros u z Hu [[]|[-> Hz]]. split; [by right|by rewrite Hz].
    + exists st', c', (X1 ∖ {[n]}). split; [done|]. split; [done|]. etrans; [exact F1|].
      etrans; [|exact F2]. done.
  - destruct Hr as [-> ->]. destruct Iidleex as (i&y&Hi&Hy&Hyi).
    assert (task_state y = Ready) as Hyr.
    { destruct (Iidle i y Hy Hyi) as [_ [?|Hrun]]; [done|].
      destruct (Iplaced i y Hy) as [Hp|[]]. unfold placed in Hp. rewrite Hrun in Hp.
      destruct Icurst as (z&?&?). congruence. }
    assert (set_scheduler (scheduler st1) st1 = st1) as -> by (by destruct st1).
    destruct (arc_clone_ok _ _ _ _ _ _ _ _ _ _ i y HI1 Hy) as (st3&z&H3&HI3&F3&Ht3&_&Hz&_).
    erewrite (M_bind_ok _ _ _ i st3).
    2:{ erewrite M_bind_ok by done. rewrite Hi. erewrite M_bind_ok by done.
        by erewrite M_bind_ok by exact H3. }
    edestruct (switch_to_ok k c i G D gh s1 ∅ ext st3 z) as (st'&c'&H4&HI4&F4); try done.
    + by eapply core_conv; [exact HI3|..].
    + rewrite Ht3. apply lookup_insert_eq.
    + congruence.
    + exists st', c', ∅. split; [done|]. split; [done|]. etrans; [exact F1|].
      etrans; [|exact F4]. exact F3.
Qed.
(** ** Changing the lists of references *)

Lemma core_queue k c G D gh s X ext ext' E E' st q l :
  core k c G D gh s X ext E st →
  (∀ u, ext' u = ext u + occ u (queue_of q st) - occ u l) →
  (∀ u, 0 ≤ ext' u) → (∀ u, gh = Some u → 1 ≤ ext' u) →
  (∀ u r, E u r → E' u r) →
  (∀ u, u ∈ queue_of q st → u ∈ l ∨ E' u Blocked) →
  (∀ u x, q = wait_for_exit u → tasks st !! u = Some x → task_state x = Exited →
     l = [] ∨ E' u Exited) →
  core k c G D gh s X ext' E' (set_queue q l st).
Proof.
  intros HI Hext Hpos Hheld HE Hw Hj. open_core HI.
  assert (∀ u, holders (set_queue q l st) X ext' u = holders st X ext u) as Hh.
  { intros u. unfold holders. change (timer_tasks (set_queue q l st)) with (timer_tasks st).
    simpl. rewrite qocc_insert, Hext. unfold queue_of. lia. }
  assert (∀ q', queue_of q' (set_queue q l st) = if decide (q = q') then l else queue_of q' st) as Hq.
  { intros q'. unfold queue_of. simpl. rewrite lookup_insert. by case_decide. }
  split; simpl; try done.
  - intros u z Hu. destruct (Iplaced u z Hu) as [Hp|]; [|right; auto].
    unfold placed, waker in *. destruct (task_state z) eqn:Hz; [by left|by left| |by left].
    destruct Hp as [[q' Hp]|Hp]; [|left; by right].
    destruct (decide (q = q')) as [<-|]; [destruct (Hw u Hp); [|by right]|];
      left; left; [exists q|exists q']; rewrite Hq; [by rewrite decide_True|by rewrite decide_False].
  - intros u z Hu. rewrite Hh. by apply Istrong.
  - intros u Hu. rewrite Hh. by apply Ifreed.
  - intros u z Hu Hz. rewrite Hq. case_decide; [by eapply Hj|].
    destruct (Ijoinq u z Hu Hz); [by left|right; auto].
Qed.

Lemma core_timers k c G D gh s X ext ext' E E' st l :
  core k c G D gh s X ext E st →
  (∀ u, ext' u = ext u + occ u (timer_tasks st) - occ u (event <$> events l)) →
  (∀ u, 0 ≤ ext' u) → (∀ u, gh = Some u → 1 ≤ ext' u) →
  (∀ u r, E u r → E' u r) →
  (∀ u, u ∈ timer_tasks st → u ∈ event <$> events l ∨ E' u Blocked) →
  core k c G D gh s X ext' E' (set_TIMER_LIST l st).
Proof.
  intros HI Hext Hpos Hheld HE Hw. open_core HI.
  assert (∀ u, holders (set_TIMER_LIST l st) X ext' u = holders st X ext u) as Hh.
  { intros u. unfold holders. change (timer_tasks (set_TIMER_LIST l st)) with (event <$> events l).
    simpl. rewrite Hext. lia. }
  split; simpl; try done.
  - intros u z Hu. destruct (Iplaced u z Hu) as [Hp|]; [|right; auto].
    unfold placed, waker in *. destruct (task_state z) eqn:Hz; [by left|by left| |by left].
    destruct Hp as [?|Hp]; [left; by left|].
    destruct (Hw u Hp); [left; by right|by right].
  - intros u z Hu. rewrite Hh. by apply Istrong.
  - intros u Hu. rewrite Hh. by apply Ifreed.
  - intros u z Hu Hz. destruct (Ijoinq u z Hu Hz); [by left|right; auto].
Qed.

(** The list of exited tasks and the one the collector holds. *)
Lemma core_exited_list k c G D gh gh' s X ext ext' E E' st l :
  core k c G D gh s X ext E st →
  (∀ u, ext' u = ext u + occ u (EXITED_TASKS st) - occ u l) →
  (∀ u, 0 ≤ ext' u) → (∀ u, gh' = Some u → 1 ≤ ext' u) →
  (∀ u r, E u r → r ≠ Exited → E' u r) →
  (∀ u x, tasks st !! u = Some x → task_state x = Exited →
     ((u ∈ l ∨ gh' = Some u) ∨ E' u Exited) ∧
     (queue_of (wait_for_exit u) st = [] ∨ E' u Exited)) →
  (∀ u, u ∈ l ∨ gh' = Some u → ∃ x, tasks st !! u = Some x ∧ task_state x = Exited) →
  core k c G D gh' s X ext' E' (set_EXITED_TASKS l st).
Proof.
  intros HI Hext Hpos Hheld HE Hw Hl. open_core HI.
  assert (∀ u, holders (set_EXITED_TASKS l st) X ext' u = holders st X ext u) as Hh.
  { intros u. unfold holders. change (timer_tasks (set_EXITED_TASKS l st)) with (timer_tasks st).
    simpl. rewrite Hext. lia. }
  split; simpl; try done.
  - intros u z Hu. destruct (decide (task_state z = Exited)) as [Hz|Hz].
    + unfold placed. rewrite Hz. by apply (Hw u z).
    + destruct (Iplaced u z Hu) as [Hp|]; [left|right; auto].
      unfold placed, waker in *. by destruct (task_state z).
  - intros u z Hu. rewrite Hh. by apply Istrong.
  - intros u Hu. rewrite Hh. by apply Ifreed.
  - intros u z Hu Hz. by apply (Hw u z).
Qed.

(** ** Waking a task up *)

Lemma unblock_task_ok k c G D gh s X ext E st t b :
  core (Datatypes.S k) c G D gh s X (owe t ext) (either E (only t Blocked)) st →
  (∀ u, 0 ≤ ext u) → (∀ u, gh = Some u → 1 ≤ ext u) → s ≠ Blocked →
  (∀ r, E t r → t = c) →
  ∃ st' X', unblock_task t b st = (Ok tt, st') ∧ core k c G D gh s X' ext E st' ∧
    frame st st'.
Proof.
  intros HI He Hgh Hs HE. destruct (core_alive_owe _ _ _ _ _ _ _ _ _ _ _ HI (He t)) as [x Hx].
  open_core HI. unfold unblock_task. erewrite M_bind_ok by (by apply get_task_ok).
  unfold is_blocked. case_bool_decide as Hb.
  - assert (t ≠ c) as Htc by (destruct Icurst as (?&?&?); congruence).
    erewrite M_bind_ok by (by apply update_task_ok). set (st1 := set_tasks _ st).
    assert (core (Datatypes.S k) c G D gh s X (owe t ext) (either E (only t Ready)) st1) as HI1.
    { eapply core_state; try done.
      - intros. by left.
      - intros Hu. apply Iexited in Hu as (z&?&?). congruence.
      - rewrite <-(Iexit t x Hx). by rewrite Hb.
      - by right; right.
      - intros u r Hu [?|[? ?]]; [by left|done].
      - by rewrite decide_False. }
    assert (t ∉ X) as HtX by (intros HX; apply IX in HX as (?&?&?&?); congruence).
    destruct (sched_add_ok (scheduler st1) X t k Iready (Iknown t x Hx) Iroom HtX)
      as (s'&Hadd&Hrd&Hkn&Hrm).
    erewrite M_bind_ok by (by apply on_scheduler_ok).
    assert (core k c G D gh s ({[t]} ∪ X) ext E (set_scheduler s' st1)) as HI2.
    { eapply core_conv; [eapply (core_enqueue _ _ _ _ _ _ _ _ ext); try done|done..|].
      - apply Hgh.
      - apply lookup_insert_eq.
      - done.
      - simpl. destruct (task_is_idle x) eqn:Hi; [|done].
        destruct (Iidle t x Hx Hi) as [_ [?|?]]; congruence.
      - intros u z Hu [?|[-> Hz]].
        + split; [by right|]. intros Hz. right. by rewrite <-Hz.
        + split; [|by rewrite Hz]. left. unfold placed. rewrite Hz. right. set_solver. }
    assert (frame st (set_scheduler s' st1)) as F2 by done.
    destruct b; [|by eauto].
    erewrite M_bind_ok by (by eapply current_ok, core_cur).
    destruct (core_cur_state _ _ _ _ _ _ _ _ _ _ HI2) as (z&Hz&_).
    edestruct (flag_ok _ _ _ _ _ _ _ _ _ _ c z
      (λ x, with_flags (task_in_wait_queue x) (task_in_timer_list x) true x) HI2 Hz)
      as (st3&H3&HI3&F3&_); [done..|].
    exists st3, ({[t]} ∪ X). split; [done|]. split; [done|]. by etrans.
  - assert (core k c G D gh s X (owe t ext) E st) as HI1.
    { eapply core_conv; [exact (core_room_S _ _ _ _ _ _ _ _ _ _ HI)|done..|].
      intros u z Hu [?|[-> Hz]]; [|congruence]. split; [by right|].
      intros Hz. right. by rewrite <-Hz. }
    destruct (arc_drop_ok _ _ _ _ _ _ _ _ _ _ t HI1 (He t) (Hgh t)) as (st'&H1&HI2&F&_).
    { intros z Hz. destruct (core_placed _ _ _ _ _ _ _ _ _ _ HI1 t z Hz) as [?|Hex]; [by left|].
      right. left. apply HE in Hex as ->. rewrite (Istrong c z Hz), owe_holders.
      rewrite b2z_true by done. unfold holders. rewrite (b2z_true (_ = Some c)) by done.
      pose proof (b2z_nonneg (IDLE_TASK st = Some c)). pose proof (b2z_nonneg (c ∈ X)).
      pose proof (qocc_nonneg c (wqs st)). pose proof (occ_nonneg c (EXITED_TASKS st)).
      pose proof (occ_nonneg c (timer_tasks st)). pose proof (He c). lia. }
    by exists st', X.
Qed.
(** Taking a task out of a wait queue. *)
Lemma core_unqueue k c G D gh s X ext E st q t l :
  core k c G D gh s X ext E st →
  (∀ u, occ u (queue_of q st) = occ u l + b2z (t = u)) →
  core k c G D gh s X (owe t ext) (either E (only t Blocked)) (set_queue q l st).
Proof.
  intros HI Ho. open_core HI. eapply core_queue; try done.
  - intros u. rewrite Ho. unfold owe. lia.
  - intros u. by apply (core_owe_ext _ _ _ _ _ _ _ _ _ _ t u HI).
  - intros u Hu. apply Iheld in Hu. unfold owe. pose proof (b2z_nonneg (t = u)). lia.
  - by left.
  - intros u Hu. rewrite occ_pos, Ho in Hu. rewrite occ_pos. unfold b2z in Hu.
    case_decide; subst; [by right; right|left; lia].
  - intros u x -> Hx Hs. destruct (Ijoinq u x Hx Hs) as [Hq|?]; [left|by right; left].
    destruct l as [|v l]; [done|]. specialize (Ho v). rewrite Hq in Ho. simpl in Ho.
    rewrite (b2z_true (v = v)) in Ho by done. pose proof (occ_nonneg v l).
    pose proof (b2z_nonneg (t = v)). lia.
Qed.

(** A task that was taken out of its queue is flagged and woken up. *)
Lemma wake_ok k c G D gh s X ext E st t b f :
  core (Datatypes.S k) c G D gh s X (owe t ext) (either E (only t Blocked)) st →
  (∀ u, 0 ≤ ext u) → (∀ u, gh = Some u → 1 ≤ ext u) → s ≠ Blocked →
  (∀ r, E t r → t = c) →
  (∀ x, task_is_idle (f x) = task_is_idle x ∧ task_state (f x) = task_state x ∧
    task_strong (f x) = task_strong x ∧
    task_preempt_disable_count (f x) = task_preempt_disable_count x) →
  ∃ st' X', (_ ← update_task t f; unblock_task t b) st = (Ok tt, st') ∧
    core k c G D gh s X' ext E st' ∧ frame st st'.
Proof.
  intros HI He Hgh Hs HE Hf.
  destruct (core_alive_owe _ _ _ _ _ _ _ _ _ _ _ HI (He t)) as [x Hx].
  destruct (Hf x) as (Hf1&Hf2&Hf3&Hf4).
  destruct (flag_ok _ _ _ _ _ _ _ _ _ _ t x f HI Hx) as (st1&H1&HI1&F1&_); [done..|].
  erewrite M_bind_ok by exact H1.
  destruct (unblock_task_ok _ _ _ _ _ _ _ _ _ _ _ b HI1) as (st2&X'&H2&HI2&F2); [done..|].
  exists st2, X'. split; [done|]. split; [done|]. by etrans.
Qed.

Lemma notify_one_empty st q b :
  queue_of q st = [] → notify_one_locked q b st = (Ok false, st).
Proof.
  intros Hq. unfold notify_one_locked, queue_pop_front.
  by erewrite M_bind_ok by (erewrite M_bind_ok by done; by rewrite Hq).
Qed.

Lemma frame_queue_nil st q : queue_of q st = [] → frame (set_queue q [] st) st.
Proof.
  intros Hq. split; try done. intros q'. unfold queue_of in *. simpl. rewrite lookup_insert.
  case_decide; [subst; by rewrite Hq|done].
Qed.

Lemma notify_one_locked_ok k c G D gh s X ext E st q b :
  core (Datatypes.S k) c G D gh s X ext E st → s ≠ Blocked → (∀ t r, E t r → t = c) →
  ∃ st' X', notify_one_locked q b st = (Ok (bool_decide (queue_of q st ≠ [])), st') ∧
    core k c G D gh s X' ext E st' ∧ frame (set_queue q (tail (queue_of q st)) st) st'.
Proof.
  intros HI Hs HE. open_core HI. destruct (queue_of q st) as [|t l] eqn:Hq.
  - exists st, X. split; [by apply notify_one_empty|].
    split; [by apply core_room_S|by apply frame_queue_nil].
  - unfold notify_one_locked, queue_pop_front. erewrite M_bind_ok by (erewrite M_bind_ok by done; rewrite Hq; reflexivity).
    simpl tail.
    edestruct (wake_ok k c G D gh s X ext E (set_queue q l st) t b
      (λ x, with_flags false (task_in_timer_list x) (task_need_resched x) x))
      as (st'&X'&H1&HI1&F1).
    + apply core_unqueue; [done|]. intros u. rewrite Hq. simpl. lia.
    + done.
    + done.
    + done.
    + apply HE.
    + intros x. done.
    + exists st', X'. split; [|done].
      apply M_bind_ok_inv in H1 as ([]&st1&Hf&Hu). erewrite M_bind_ok by exact Hf.
      by erewrite M_bind_ok by exact Hu.
Qed.

Lemma notify_all_loop_ok k c G D gh s ext E q b n : ∀ X st,
  core (n + k) c G D gh s X ext E st → s ≠ Blocked → (∀ t r, E t r → t = c) →
  length (queue_of q st) = n → ∀ fuel, (n < fuel)%nat →
  ∃ st' X', notify_all_loop fuel q b st = (Ok tt, st') ∧
    core k c G D gh s X' ext E st' ∧ frame (set_queue q [] st) st'.
Proof.
  induction n as [|n IH]; intros X st HI Hs HE Hn [|fuel] Hf; [lia| |lia|]; simpl.
  - apply nil_length_inv in Hn. exists st, X.
    erewrite M_bind_ok by (by apply notify_one_empty). split; [done|].
    split; [done|by apply frame_queue_nil].
  - destruct (notify_one_locked_ok (n + k) c G D gh s X ext E st q b) as (st1&X1&H1&HI1&F1); [done..|].
    assert (queue_of q st1 = tail (queue_of q st)) as Hq1.
    { rewrite (frame_queues _ _ F1). unfold queue_of. simpl. by rewrite lookup_insert_eq. }
    destruct (IH X1 st1 HI1 Hs HE) with fuel as (st'&X'&H2&HI2&F2).
    { rewrite Hq1. destruct (queue_of q st); simpl in *; lia. }
    { lia. }
    erewrite M_bind_ok by exact H1. rewrite bool_decide_true by (intros Hq; by rewrite Hq in Hn).
    exists st', X'. split; [done|]. split; [done|]. destruct F1, F2. split; try (simpl in *; congruence).
    intros q'. rewrite frame_queues0. unfold queue_of in *. simpl in *.
    specialize (frame_queues q'). rewrite !lookup_insert in *. case_decide; [done|]. congruence.
Qed.

Lemma notify_all_locked_ok k c G D gh s X ext E st q b :
  core (length (queue_of q st) + k) c G D gh s X ext E st → s ≠ Blocked →
  (∀ t r, E t r → t = c) →
  ∃ st' X', notify_all_locked q b st = (Ok tt, st') ∧
    core k c G D gh s X' ext E st' ∧ frame (set_queue q [] st) st'.
Proof.
  intros. unfold notify_all_locked. erewrite M_bind_ok by done.
  eapply notify_all_loop_ok; [done..|lia].
Qed.

Lemma notify_one_ok k c G D gh s X ext E st q b :
  core (Datatypes.S k) c G D gh s X ext E st → s ≠ Blocked → (∀ t r, E t r → t = c) →
  ∃ st' X', notify_one q b st = (Ok (bool_decide (queue_of q st ≠ [])), st') ∧
    core k c G D gh s X' ext E st' ∧ frame (set_queue q (tail (queue_of q st)) st) st'.
Proof.
  intros HI Hs HE. destruct (notify_one_locked_ok _ _ _ _ _ _ _ _ _ _ q b HI Hs HE)
    as (st'&X'&H1&HI1&F1).
  unfold notify_one. erewrite M_bind_ok by done.
  destruct (queue_of q st) as [|t l] eqn:Hq; [|by exists st', X'].
  exists st, X. split; [done|]. split; [by apply core_room_S|by apply frame_queue_nil].
Qed.

Lemma notify_task_ok k c G D gh s X ext E st q b t :
  core (Datatypes.S k) c G D gh s X ext E st → s ≠ Blocked → (∀ t r, E t r → t = c) →
  ∃ st' X' r, notify_task q b t st = (Ok r, st') ∧ core k c G D gh s X' ext E st' ∧
    (r = true ↔ t ∈ queue_of q st) ∧ IDLE_TASK st' = IDLE_TASK st ∧ halted st' = halted st.
Proof.
  intros HI Hs HE. open_core HI. unfold notify_task. erewrite M_bind_ok by done.
  destruct (list_find (λ u, u = t) (queue_of q st)) as [[i u]|] eqn:Hfind.
  - apply list_find_Some in Hfind as (Hi&->&_).
    assert (t ∈ queue_of q st) as Hin by (by eapply list_elem_of_lookup_2).
    destruct (core_alive _ _ _ _ _ _ _ _ _ _ t HI) as [x Hx].
    { assert (0 < qocc t (wqs st)) by (apply qocc_pos; by exists q).
      intros Hz. apply holders_zero in Hz as (_&_&_&_&Hw&_); [|done]. apply Hw. left. by exists q. }
    destruct (flag_ok _ _ _ _ _ _ _ _ _ _ t x
      (λ x, with_flags false (task_in_timer_list x) (task_need_resched x) x) HI Hx)
      as (st1&H1&HI1&F1&_); [done..|].
    erewrite M_bind_ok by exact H1. erewrite M_bind_ok by done.
    destruct (unblock_task_ok k c G D gh s X ext E (set_queue q (delete i (queue_of q st1)) st1) t b)
      as (st'&X'&H2&HI2&F2); [|done|done|done|apply HE|].
    { apply core_unqueue; [done|]. intros u. rewrite (frame_queues _ _ F1).
      rewrite (occ_delete _ _ _ _ Hi). lia. }
    erewrite M_bind_ok by exact H2. exists st', X', true. split; [done|]. split; [done|].
    split; [by split|]. destruct F1, F2. simpl in *. split; congruence.
  - exists st, X, false. split; [done|]. split; [by apply core_room_S|]. split; [|done].
    split; [done|]. intros Hin. apply list_find_None in Hfind.
    rewrite Forall_forall in Hfind. by apply Hfind in Hin.
Qed.
(** ** Timers *)

(** [frame] but for the timers. *)
Definition tframe st st' : Prop := frame (set_TIMER_LIST (TIMER_LIST st') st) st'.

Lemma frame_tframe st st' : frame st st' → tframe st st'.
Proof. intros []. by split. Qed.

#[export] Instance tframe_preorder : PreOrder tframe.
Proof.
  split; [intros st; by apply frame_tframe|]. intros st1 st2 st3 [] []. split; simpl in *; try congruence.
  intros q. etrans; [apply frame_queues0|]. apply frame_queues.
Qed.

Lemma set_alarm_ok k c G D gh s X ext E st t d :
  core k c G D gh s X (owe t ext) E st → (∀ u, 0 ≤ ext u) → (∀ u, gh = Some u → 1 ≤ ext u) →
  ∃ st', set_alarm_wakeup d t st = (Ok tt, st') ∧ core k c G D gh s X ext E st' ∧
    frame (set_TIMER_LIST (tl_set d t (TIMER_LIST st)) st) st' ∧ t ∈ timer_tasks st'.
Proof.
  intros HI He Hgh. destruct (core_alive_owe _ _ _ _ _ _ _ _ _ _ _ HI (He t)) as [x Hx].
  destruct (flag_ok _ _ _ _ _ _ _ _ _ _ t x
    (λ x, with_flags (task_in_wait_queue x) true (task_need_resched x) x) HI Hx)
    as (st1&H1&HI1&F1&_); [done..|].
  unfold set_alarm_wakeup. erewrite M_bind_ok by exact H1.
  assert (event <$> events (tl_set d t (TIMER_LIST st1)) = timer_tasks st1 ++ [t]) as Hl.
  { unfold tl_set, heap_push, timer_tasks. simpl. by rewrite fmap_app. }
  eexists. split; [done|]. split; [|split].
  - eapply core_timers; [exact HI1|..]; try done.
    + intros u. rewrite Hl, occ_app. unfold owe. simpl. lia.
    + intros u Hu. rewrite Hl. left. set_solver.
  - destruct F1. split; try done. simpl. by rewrite <-frame_timers.
  - change (t ∈ event <$> events (tl_set d t (TIMER_LIST st1))). rewrite Hl. set_solver.
Qed.

Lemma wakeup_callback_ok k c G D gh s X ext st t :
  core (Datatypes.S k) c G D gh s X (owe t ext) (only t Blocked) st →
  (∀ u, 0 ≤ ext u) → (∀ u, gh = Some u → 1 ≤ ext u) → s ≠ Blocked → 1 ≤ G c < 2 ^ 31 →
  ∃ st' X', wakeup_callback t st = (Ok tt, st') ∧ core k c G D gh s X' ext none st' ∧
    frame st st'.
Proof.
  intros HI He Hgh Hs HG.
  destruct (guard_acquire_ok _ _ _ _ _ _ _ _ _ _ HI) as (st1&H1&HI1&F1); [lia|].
  edestruct (wake_ok k c (bump c G) D gh s X ext none st1 t true
      (λ x, with_flags (task_in_wait_queue x) false (task_need_resched x) x))
      as (st2&X'&H2&HI2&F2); try done.
  { eapply core_conv; [exact HI1|done..|]. intros u z Hu [-> Hz].
    split; [right; by right|]. by rewrite Hz. }
  destruct (guard_release_nested _ _ _ _ _ _ _ _ _ _ HI2) as (st3&H3&HI3&F3); [lia|].
  exists st3, X'. split; [by eapply nested_run|]. split; [done|]. etrans; [exact F1|]. by etrans.
Qed.

(** One turn of the loop: either no timer is due, or one fewer is set. *)
Lemma expire_next_ok k c G D gh s X ext st :
  core k c G D gh s X ext none st →
  ∃ r st', expire_next st = (Ok r, st') ∧ tframe st st' ∧
  match r with
  | Some (_, t) =>
      core k c G D gh s X (owe t ext) (only t Blocked) st' ∧
      length (events (TIMER_LIST st)) = Datatypes.S (length (events (TIMER_LIST st')))
  | None => st' = st ∧ ∀ y, y ∈ events (TIMER_LIST st) → clock st < deadline y
  end.
Proof.
  intros HI. open_core HI. unfold expire_next. erewrite M_bind_ok by done.
  pose proof (tl_expire_one_spec (clock st) (TIMER_LIST st)) as Hspec.
  destruct (tl_expire_one (clock st) (TIMER_LIST st)) as [[e|] l].
  - destruct Hspec as (y&->&Hd&_&Hp). do 2 eexists. split; [done|]. split; [by split|].
    simpl. split; [|by rewrite Hp].
    assert (∀ u, occ u (timer_tasks st) = b2z (event y = u) + occ u (event <$> events l)) as Ho.
    { intros u. unfold timer_tasks. by rewrite Hp. }
    eapply core_timers; try done.
    + intros u. rewrite Ho. unfold owe. lia.
    + intros u. by apply (core_owe_ext _ _ _ _ _ _ _ _ _ _ (event y) u HI).
    + intros u Hu. apply Iheld in Hu. unfold owe. pose proof (b2z_nonneg (event y = u)). lia.
    + intros u Hu. rewrite occ_pos, Ho in Hu. rewrite occ_pos. unfold b2z in Hu.
      case_decide; subst; [by right|left; lia].
  - destruct Hspec as [-> Hd]. exists None, st. split_and!; [|by split|done|done].
    by destruct st.
Qed.

Lemma check_events_loop_ok c G D gh s ext k n : ∀ X st,
  core (n + k) c G D gh s X ext none st → s ≠ Blocked → 1 ≤ G c < 2 ^ 31 →
  length (events (TIMER_LIST st)) = n → ∀ fuel, (n < fuel)%nat →
  ∃ st' X', check_events_loop fuel st = (Ok tt, st') ∧ core k c G D gh s X' ext none st' ∧
    tframe st st' ∧
    (∀ y, y ∈ events (TIMER_LIST st') → clock st' < deadline y).
Proof.
  induction n as [|n IH]; intros X st HI Hs HG Hn [|fuel] Hf; try lia; cbn [check_events_loop].
  all: destruct (guard_acquire_ok _ _ _ _ _ _ _ _ _ _ HI) as (st1&H1&HI1&F1); [lia|].
  all: destruct (expire_next_ok _ _ _ _ _ _ _ _ _ HI1) as ([[d t]|]&st2&H2&F2&Hr).
  all: rewrite (frame_timers _ _ F1), ?Hn in Hr.
  1: by destruct Hr as [_ Hr].
  1,3: destruct Hr as [-> Hd];
    destruct (guard_release_nested _ _ _ _ _ _ _ _ _ _ HI1) as (st3&H3&HI3&F3); [lia|];
    erewrite M_bind_ok by (by eapply nested_run); exists st3, X; split; [done|];
    split; [by eapply core_room_le|]; assert (frame st st3) as F by (by etrans);
    split; [by apply frame_tframe|];
    rewrite (frame_timers _ _ F), (frame_clock _ _ F), <-(frame_clock _ _ F1); exact Hd.
  destruct Hr as [HI2 Hl].
  destruct (guard_release_nested _ _ _ _ _ _ _ _ _ _ HI2) as (st3&H3&HI3&F3); [lia|].
  erewrite M_bind_ok by (by eapply nested_run). cbv beta iota.
  open_core HI.
  destruct (wakeup_callback_ok _ _ _ _ _ _ _ _ _ _ HI3) as (st4&X4&H4&HI4&F4); [done..|].
  erewrite M_bind_ok by exact H4.
  destruct (IH X4 st4 HI4 Hs HG) with fuel as (st5&X5&H5&HI5&F5&Hd).
  { rewrite (frame_timers _ _ F4), (frame_timers _ _ F3). lia. }
  { lia. }
  exists st5, X5. split; [done|]. split; [done|]. split; [|done].
  etrans; [apply frame_tframe, F1|]. etrans; [exact F2|].
  etrans; [apply frame_tframe, F3|]. etrans; [apply frame_tframe, F4|done].
Qed.

Lemma check_events_ok k c G D gh s X ext st :
  core (length (events (TIMER_LIST st)) + k) c G D gh s X ext none st → s ≠ Blocked →
  1 ≤ G c < 2 ^ 31 →
  ∃ st' X', check_events st = (Ok tt, st') ∧ core k c G D gh s X' ext none st' ∧
    tframe st st' ∧
    (∀ y, y ∈ events (TIMER_LIST st') → clock st' < deadline y).
Proof.
  intros. unfold check_events. erewrite M_bind_ok by done.
  eapply check_events_loop_ok; [done..|lia].
Qed.

Lemma scheduler_timer_tick_ok k c G D gh s X ext E st :
  core k c G D gh s X ext E st →
  ∃ st', scheduler_timer_tick st = (Ok tt, st') ∧ core k c G D gh s X ext E st' ∧ frame st st'.
Proof.
  intros HI. open_core HI. destruct Icurst as (x&Hx&Hs).
  unfold scheduler_timer_tick. erewrite M_bind_ok by (by apply current_ok).
  erewrite M_bind_ok by (by apply get_task_ok). destruct (task_is_idle x); [by exists st|].
  cbn [negb]. destruct (sched_tick_ok (scheduler st) X c Iready (Iknown c x Hx))
    as (b&s'&Hb&Hrd&Hkn&Hrm).
  erewrite M_bind_ok by (by apply on_scheduler_ok).
  assert (core k c G D gh s X ext E (set_scheduler s' st)) as HI1.
  { split; simpl; try done; [by apply Hrm|by eauto|by eauto]. }
  destruct b; [|by eexists].
  edestruct (flag_ok _ _ _ _ _ _ _ _ _ _ c x
    (λ x, with_flags (task_in_wait_queue x) (task_in_timer_list x) true x) HI1 Hx)
    as (st2&H2&HI2&F2&_); [done..|]. exists st2. split; [done|]. split; [done|].
  by etrans; [|exact F2].
Qed.

Lemma on_timer_tick_ok k c G D gh s X ext st :
  core (length (events (TIMER_LIST st)) + k) c G D gh s X ext none st → s ≠ Blocked →
  1 ≤ G c < 2 ^ 31 →
  ∃ st' X', on_timer_tick st = (Ok tt, st') ∧ core k c G D gh s X' ext none st' ∧
    tframe st st' ∧
    (∀ y, y ∈ events (TIMER_LIST st') → clock st' < deadline y).
Proof.
  intros HI Hs HG. destruct (check_events_ok _ _ _ _ _ _ _ _ _ HI Hs HG) as (st1&X1&H1&HI1&F1&Hd).
  unfold on_timer_tick. erewrite M_bind_ok by exact H1.
  destruct (guard_acquire_ok _ _ _ _ _ _ _ _ _ _ HI1) as (st2&H2&HI2&F2); [lia|].
  destruct (scheduler_timer_tick_ok _ _ _ _ _ _ _ _ _ _ HI2) as (st3&H3&HI3&F3).
  destruct (guard_release_nested _ _ _ _ _ _ _ _ _ _ HI3) as (st4&H4&HI4&F4); [lia|].
  exists st4, X1. split; [by eapply nested_run|]. split; [done|].
  assert (frame st1 st4) as F by (etrans; [exact F2|by etrans]).
  rewrite (frame_timers _ _ F), (frame_clock _ _ F). split; [|done].
  etrans; [exact F1|]. by apply frame_tframe.
Qed.
(** ** Releasing the last guard *)

Lemma preempt_resched_ok k c G D gh X ext st :
  core (Datatypes.S k) c G D gh Running X ext none st → G c = 1 →
  ∃ st' c' X', preempt_resched st = (Ok tt, st') ∧ core k c' G D gh Running X' ext none st' ∧
    frame st st'.
Proof.
  intros HI HG. open_core HI. destruct Icurst as (x&Hx&Hs).
  unfold preempt_resched. erewrite M_bind_ok by (by apply current_ok).
  erewrite M_bind_ok by (by apply get_task_ok).
  unfold is_running. rewrite bool_decide_true by done. erewrite M_bind_ok by done.
  unfold can_preempt. rewrite (Icount c x Hx), HG. by eapply resched_ok.
Qed.

(** Without a pending preemption the task goes on without a guard; otherwise it has
    taken the run queue's, and another task may be current. *)
Lemma guard_release_last k c G D gh X ext st :
  core (Datatypes.S k) c (bump c G) D gh Running X ext none st → G c = 0 →
  ∃ b st' c' X', guard_release st = (Ok b, st') ∧ frame st st' ∧
    core k c' (if b then bump c G else G) D gh Running X' ext none st' ∧ (b = false → c' = c).
Proof.
  intros HI HG. open_core HI. destruct Icurst as (x&Hx&Hs).
  assert (task_preempt_disable_count x = 1) as Hn.
  { rewrite (Icount c x Hx). unfold bump. rewrite b2z_true by done. lia. }
  unfold guard_release. erewrite M_bind_ok by done. rewrite Icur.
  erewrite M_bind_ok by (by apply get_task_ok). rewrite Hn. change (sub64 1 1) with 0.
  erewrite M_bind_ok by (by apply update_task_ok).
  set (st1 := set_tasks _ st). change (1 =? 1) with true. cbv iota.
  assert (core (Datatypes.S k) c G D gh Running X ext none st1) as HI1.
  { eapply core_upd; try done; simpl.
    - intros u. case_decide; lia.
    - intros. by apply Iheld.
    - intros u Hu. unfold bump. rewrite b2z_false by done. lia. }
  set (x1 := with_counts 0 (task_exit_code x) (task_strong x) x).
  assert (tasks st1 !! c = Some x1) as Hx1 by apply lookup_insert_eq.
  assert (frame st st1) as F1 by done.
  unfold current_check_preempt_pending.
  erewrite M_bind_ok by (apply current_ok; exact Icur).
  erewrite M_bind_ok by (by apply get_task_ok).
  destruct (task_need_resched x1) eqn:Hneed; cbn [andb].
  2:{ exists false, st1, c, X. split; [done|]. split; [done|]. split; [by apply core_room_S|done]. }
  change (can_preempt 0 x1) with true. cbv iota.
  destruct (guard_acquire_ok _ _ _ _ _ _ _ _ _ _ HI1) as (st2&H2&HI2&F2); [lia|].
  erewrite M_bind_ok by exact H2.
  destruct (core_cur_state _ _ _ _ _ _ _ _ _ _ HI2) as (x2&Hx2&_).
  erewrite M_bind_ok by (by apply get_task_ok).
  destruct (preempt_resched_ok k c (bump c G) D gh X ext st2 HI2) as (st3&c'&X'&H3&HI3&F3).
  { unfold bump. rewrite b2z_true by done. lia. }
  destruct (task_need_resched x2).
  - erewrite M_bind_ok by exact H3. exists true, st3, c', X'. split; [done|].
    split; [by etrans; [|etrans]|done].
  - erewrite M_bind_ok by done. exists true, st2, c, X. split; [done|].
    split; [by etrans|]. split; [by apply core_room_S|done].
Qed.

(** ** Blocking *)

Lemma core_not_idle k c G D gh s X ext E st t x :
  core k c G D gh s X ext E st → tasks st !! t = Some x → IDLE_TASK st ≠ Some t →
  task_is_idle x = false.
Proof.
  intros HI Hx Ht. destruct (task_is_idle x) eqn:Hi; [|done].
  by destruct (core_idle _ _ _ _ _ _ _ _ _ _ HI t x Hx Hi).
Qed.

Lemma core_block k c G D gh X ext E st x :
  core k c G D gh Running X ext none st → tasks st !! c = Some x → IDLE_TASK st ≠ Some c →
  waker st c ∨ E c Blocked →
  core k c G D gh Blocked X ext E (set_tasks (<[c := with_state Blocked x]> (tasks st)) st).
Proof.
  intros HI Hx Hidle Hw. open_core HI.
  assert (task_state x = Running) as Hr by (destruct Icurst as (?&?&?); congruence).
  eapply core_state; try done.
  - intros HX. apply IX in HX as (?&?&?&?). congruence.
  - by rewrite (core_not_idle _ _ _ _ _ _ _ _ _ _ c x HI).
  - intros Hu. apply Iexited in Hu as (z&?&?). congruence.
  - rewrite <-(Iexit c x Hx). by rewrite Hr.
  - by rewrite decide_True.
Qed.

Lemma block_current_ok k c G D gh X ext st q :
  core (Datatypes.S k) c G D gh Running X ext none st → G c = 1 →
  IDLE_TASK st ≠ Some c → (∀ u, q = wait_for_exit u → ¬ D u) →
  ∃ st' c' X', block_current (wait_queue_push q) st = (Ok tt, st') ∧
    core k c' G D gh Running X' ext none st' ∧
    frame (set_queue q (queue_of q st ++ [c]) st) st'.
Proof.
  intros HI HG Hidle Hq. open_core HI. destruct Icurst as (x&Hx&Hr).
  pose proof (core_not_idle _ _ _ _ _ _ _ _ _ _ c x HI Hx Hidle) as Hi.
  unfold block_current. erewrite M_bind_ok by (by apply current_ok).
  erewrite M_bind_ok by (by apply get_task_ok).
  unfold is_running, can_preempt. rewrite (bool_decide_true (_ = Running)), Hi, (Icount c x Hx), HG by done.
  do 3 erewrite M_bind_ok by done. erewrite M_bind_ok by (by apply update_task_ok).
  set (st1 := set_tasks _ st).
  assert (core (Datatypes.S k) c G D gh Blocked X ext (only c Blocked) st1) as HI1.
  { apply core_block; try done. by right. }
  assert (tasks st1 !! c = Some (with_state Blocked x)) as Hx1 by apply lookup_insert_eq.
  destruct (arc_clone_ok _ _ _ _ _ _ _ _ _ _ c _ HI1 Hx1) as (st2&y&H2&HI2&F2&Ht2&_).
  erewrite M_bind_ok by done.
  assert (tasks st2 !! c = Some y) as Hy by (rewrite Ht2; apply lookup_insert_eq).
  destruct (flag_ok _ _ _ _ _ _ _ _ _ _ c y
    (λ x, with_flags true (task_in_timer_list x) (task_need_resched x) x) HI2 Hy)
    as (st3&H3&HI3&F3&_); [done..|].
  assert (frame st st3) as F by (etrans; [|exact F3]; etrans; [|exact F2]; done).
  erewrite (M_bind_ok _ _ _ tt (set_queue q (queue_of q st3 ++ [c]) st3))
    by (unfold wait_queue_push; by erewrite M_bind_ok by exact H3).
  destruct (resched_ok k c G D gh Blocked X ext (set_queue q (queue_of q st3 ++ [c]) st3) false)
    as (st4&c'&X'&H4&HI4&F4).
  { eapply core_conv; [eapply (core_queue _ _ _ _ _ _ _ _ ext _ (only c Blocked) _ q); try done| done..|].
    - intros u. rewrite occ_app. unfold owe. simpl. lia.
    - intros u Hu. left. set_solver.
    - intros u z -> Hu Hz. exfalso. apply (Hq u); [done|].
      by apply (core_exit _ _ _ _ _ _ _ _ _ _ HI3 u z Hu).
    - intros u z Hu [-> Hz]. split; [|by rewrite Hz]. left. unfold placed. rewrite Hz.
      left. exists q. unfold queue_of at 1. simpl. rewrite lookup_insert_eq. simpl. set_solver. }
  exists st4, c', X'. split; [done|]. split; [done|]. destruct F, F4. split; simpl in *; try congruence.
  intros q'. rewrite frame_queues0. unfold queue_of in *. simpl. rewrite !lookup_insert.
  case_decide; simpl; [by rewrite frame_queues|apply frame_queues].
Qed.
Lemma sleep_until_ok k c G D gh X ext st d :
  core (Datatypes.S k) c G D gh Running X ext none st → G c = 1 → IDLE_TASK st ≠ Some c →
  ∃ st' c' X', sleep_until d st = (Ok tt, st') ∧ core k c' G D gh Running X' ext none st' ∧
    tframe st st' ∧ (d ≤ clock st → st' = st).
Proof.
  intros HI HG Hidle. open_core HI. destruct Icurst as (x&Hx&Hr).
  unfold sleep_until. erewrite M_bind_ok by (by apply current_ok).
  erewrite M_bind_ok by (by apply get_task_ok).
  unfold is_running. rewrite (bool_decide_true (_ = Running)) by done.
  rewrite (core_not_idle _ _ _ _ _ _ _ _ _ _ c x HI) by done.
  do 3 erewrite M_bind_ok by done. destruct (Z.ltb_spec (clock st) d).
  2:{ exists st, c, X. split; [done|]. split; [by apply core_room_S|]. by split. }
  destruct (arc_clone_ok _ _ _ _ _ _ _ _ _ _ c _ HI Hx) as (st1&y&H1&HI1&F1&_).
  erewrite M_bind_ok by done.
  destruct (guard_acquire_ok _ _ _ _ _ _ _ _ _ _ HI1) as (st2&H2&HI2&F2); [lia|].
  destruct (set_alarm_ok _ _ _ _ _ _ _ _ _ _ c d HI2) as (st3&H3&HI3&F3&Hin); [done..|].
  destruct (guard_release_nested _ _ _ _ _ _ _ _ _ _ HI3) as (st4&H4&HI4&F4); [lia|].
  erewrite M_bind_ok by (by eapply nested_run).
  destruct (core_cur_state _ _ _ _ _ _ _ _ _ _ HI4) as (z&Hz&Hzr).
  erewrite M_bind_ok by (by apply update_task_ok).
  assert (tframe st st4) as F.
  { etrans; [apply frame_tframe, F1|]. etrans; [apply frame_tframe, F2|].
    etrans; [|apply frame_tframe, F4]. unfold tframe. by rewrite (frame_timers _ _ F3) in *. }
  edestruct (resched_ok k c G D gh Blocked X ext) as (st6&c'&X'&H6&HI6&F6).
  { apply core_block; [exact HI4|exact Hz| |].
    - by rewrite (frame_idle _ _ F).
    - left. right. unfold timer_tasks. by rewrite (frame_timers _ _ F4). }
  exists st6, c', X'. split; [exact H6|]. split; [done|]. split; [|lia].
  etrans; [exact F|]. by etrans; [|apply frame_tframe, F6].
Qed.

Lemma yield_current_ok k c G D gh X ext st :
  core (Datatypes.S k) c G D gh Running X ext none st →
  ∃ st' c' X', yield_current st = (Ok tt, st') ∧ core k c' G D gh Running X' ext none st' ∧
    frame st st'.
Proof.
  intros HI. open_core HI. destruct Icurst as (x&Hx&Hs).
  unfold yield_current. erewrite M_bind_ok by (by apply current_ok).
  erewrite M_bind_ok by (by apply get_task_ok).
  unfold is_running. rewrite bool_decide_true by done. erewrite M_bind_ok by done.
  by eapply resched_ok.
Qed.

Lemma set_current_priority_ok k c G D gh s X ext E st prio :
  core k c G D gh s X ext E st →
  ∃ b st', set_current_priority prio st = (Ok b, st') ∧ core k c G D gh s X ext E st' ∧
    frame st st'.
Proof.
  intros HI. open_core HI. destruct Icurst as (x&Hx&Hs).
  unfold set_current_priority. erewrite M_bind_ok by (by apply current_ok).
  destruct (sched_prio_ok (scheduler st) X c prio Iready (Iknown c x Hx)) as (b&s'&Hb&Hrd&Hkn&Hrm).
  do 2 eexists. split; [by apply on_scheduler_ok|]. split; [|done].
  split; simpl; try done; [by apply Hrm|by eauto|by eauto].
Qed.
(** ** Cancelling *)

Lemma arc_drop_all_ok k c G D gh s X ext E l : ∀ st,
  core k c G D gh s X (λ u, ext u + occ u l) E st →
  (∀ u, 0 ≤ ext u) → (∀ u, gh = Some u → 1 ≤ ext u) →
  (∀ t, t ∈ l → t = c ∨ (queue_of (wait_for_exit t) st = [] ∧ D t)) →
  ∃ st', arc_drop_all l st = (Ok tt, st') ∧ core k c G D gh s X ext E st' ∧ frame st st'.
Proof.
  induction l as [|t l IH]; intros st HI He Hgh Hl; simpl.
  { exists st. split; [done|]. split; [|done]. eapply core_conv; [exact HI|done|done| |].
    - intros u. simpl. lia.
    - intros u z Hu Hz. split; [by right|]. intros Hs. right. by rewrite <-Hs. }
  set (ext1 u := ext u + occ u l).
  assert (core k c G D gh s X (owe t ext1) E st) as HI1.
  { eapply core_conv; [exact HI|done|done| |].
    - intros u. unfold owe, ext1. simpl. lia.
    - intros u z Hu Hz. split; [by right|]. intros Hs. right. by rewrite <-Hs. }
  assert (∀ u, 0 ≤ ext1 u) as He1.
  { intros u. unfold ext1. pose proof (He u). pose proof (occ_nonneg u l). lia. }
  assert (∀ u, gh = Some u → 1 ≤ ext1 u) as Hgh1.
  { intros u Hu. unfold ext1. pose proof (Hgh u Hu). pose proof (occ_nonneg u l). lia. }
  destruct (arc_drop_ok _ _ _ _ _ _ _ _ _ _ t HI1 (He1 t) (Hgh1 t)) as (st1&H1&HI2&F1&_).
  { intros x Hx. destruct (Hl t) as [->|Hq]; [by left| |by right; right]. right. left.
    open_core HI1. rewrite (Istrong c x Hx), owe_holders, b2z_true by done. unfold holders.
    rewrite (b2z_true (_ = Some c)) by done.
    pose proof (b2z_nonneg (IDLE_TASK st = Some c)). pose proof (b2z_nonneg (c ∈ X)).
    pose proof (qocc_nonneg c (wqs st)). pose proof (occ_nonneg c (EXITED_TASKS st)).
    pose proof (occ_nonneg c (timer_tasks st)). pose proof (He1 c). lia. }
  destruct (IH st1 HI2 He Hgh) as (st2&H2&HI3&F2).
  { intros u Hu. rewrite (frame_queues _ _ F1). apply Hl. by right. }
  exists st2. erewrite M_bind_ok by exact H1. split; [done|]. split; [done|]. by etrans.
Qed.

Lemma occ_split {A} (f : A → positive) (P Q : A → Prop) `{∀ e, Decision (P e)}
    `{∀ e, Decision (Q e)} u l :
  (∀ e, Q e ↔ ¬ P e) → occ u (f <$> l) = occ u (f <$> filter P l) + occ u (f <$> filter Q l).
Proof.
  intros HPQ. induction l as [|e l IH]; [done|]. rewrite !filter_cons. pose proof (HPQ e).
  destruct (decide (P e)), (decide (Q e)); rewrite ?fmap_cons; cbn [occ]; (tauto || lia).
Qed.

(** The exemption of a running task from having a waker is vacuous. *)
Lemma core_running k c G D gh X ext st :
  core k c G D gh Running X ext (only c Blocked) st → core k c G D gh Running X ext none st.
Proof.
  intros HI. open_core HI. eapply core_conv; [exact HI|done..|].
  intros u z Hu [-> Hz]. destruct Icurst as (?&?&?). congruence.
Qed.

Lemma cancel_queue_ok k c G D gh X ext st q :
  core k c G D gh Running X ext none st →
  ∃ st', cancel_queue q c st = (Ok tt, st') ∧ core k c G D gh Running X ext none st' ∧
    IDLE_TASK st' = IDLE_TASK st ∧ halted st' = halted st.
Proof.
  intros HI. open_core HI. destruct Icurst as (x&Hx&Hr). unfold cancel_queue.
  erewrite M_bind_ok by (by apply get_task_ok).
  destruct (task_in_wait_queue x); [|by exists st]. do 2 erewrite M_bind_ok by done.
  set (l := queue_of q st).
  destruct (arc_drop_all_ok k c G D gh Running X ext (only c Blocked) (filter (λ t, t = c) l)
    (set_queue q (filter (λ t, t ≠ c) l) st)) as (st1&H1&HI1&F1); [|done|done| |].
  { eapply core_queue; [exact HI|..]; try done.
    - intros u. fold l. rewrite !occ_filter. repeat case_decide; try done; lia.
    - intros u. simpl. pose proof (Iext u). pose proof (occ_nonneg u (filter (λ t, t = c) l)). lia.
    - intros u Hu. simpl. pose proof (Iheld u Hu).
      pose proof (occ_nonneg u (filter (λ t, t = c) l)). lia.
    - intros u Hu. destruct (decide (u = c)) as [->|]; [by right|left].
      by apply list_elem_of_filter.
    - intros u z -> Hu Hz. left. destruct (Ijoinq u z Hu Hz) as [Hq|[]]. unfold l. by rewrite Hq. }
  { intros t [-> _]%list_elem_of_filter. by left. }
  erewrite M_bind_ok by exact H1. apply core_running in HI1.
  destruct (core_cur_state _ _ _ _ _ _ _ _ _ _ HI1) as (y&Hy&_).
  destruct (flag_ok _ _ _ _ _ _ _ _ _ _ c y
    (λ x, with_flags false (task_in_timer_list x) (task_need_resched x) x) HI1 Hy)
    as (st2&H2&HI2&F2&_); [done..|].
  exists st2. split; [done|]. split; [done|]. destruct F1, F2. simpl in *. split; congruence.
Qed.

Lemma cancel_timer_ok k c G D gh X ext st :
  core k c G D gh Running X ext none st →
  ∃ st', cancel_timer c st = (Ok tt, st') ∧ core k c G D gh Running X ext none st' ∧
    tframe st st'.
Proof.
  intros HI. open_core HI. destruct Icurst as (x&Hx&Hr). unfold cancel_timer.
  erewrite M_bind_ok by (by apply get_task_ok).
  destruct (task_in_timer_list x); [|by exists st]. unfold cancel_alarm.
  destruct (flag_ok _ _ _ _ _ _ _ _ _ _ c x
    (λ x, with_flags (task_in_wait_queue x) false (task_need_resched x) x) HI Hx)
    as (st1&H1&HI1&F1&_); [done..|].
  erewrite M_bind_ok by exact H1. erewrite M_bind_ok by done. cbv zeta.
  erewrite M_bind_ok by done.
  set (l := filter (λ e, event e = c) (events (TIMER_LIST st1))).
  set (l' := tl_cancel (λ t, bool_decide (t = c)) (TIMER_LIST st1)).
  assert (∀ u, occ u (timer_tasks st1) = occ u (event <$> l) + occ u (event <$> events l')) as Ho.
  { intros u. apply occ_split. intros e. by case_bool_decide; simpl; naive_solver. }
  assert (∀ u, u ∈ event <$> l → u = c) as Hl.
  { intros u (e&->&[? _]%list_elem_of_filter)%list_elem_of_fmap. done. }
  destruct (arc_drop_all_ok k c G D gh Running X ext (only c Blocked) (event <$> l)
    (set_TIMER_LIST l' st1)) as (st2&H2&HI2&F2); [|done|done|by left; apply Hl|].
  { eapply core_timers; [exact HI1|..]; try done.
    - intros u. rewrite Ho. lia.
    - intros u. simpl. pose proof (Iext u). pose proof (occ_nonneg u (event <$> l)). lia.
    - intros u Hu. simpl. pose proof (Iheld u Hu). pose proof (occ_nonneg u (event <$> l)). lia.
    - intros u Hu. destruct (decide (u = c)) as [->|Hne]; [by right|left].
      rewrite occ_pos in *. rewrite Ho in Hu.
      destruct (decide (0 < occ u (event <$> l))) as [Hp|]; [|lia].
      apply occ_pos in Hp. by apply Hl in Hp. }
  exists st2. split; [exact H2|]. split; [by apply core_running|].
  etrans; [apply frame_tframe, F1|]. etrans; [|apply frame_tframe, F2]. by split.
Qed.
(** ** Exit *)

(** The task is marked and its joiners are woken up. *)
Lemma mark_exited_ok k c G D gh X ext st x code :
  core (length (queue_of (wait_for_exit c) st) + k) c G D gh Running X ext none st →
  IDLE_TASK st ≠ Some c → tasks st !! c = Some x →
  ∃ st' X', (_ ← set_state c Exited; notify_exit c code) st = (Ok tt, st') ∧
    core k c G (λ u, D u ∨ u = c) gh Exited X' ext (only c Exited) st' ∧
    queue_of (wait_for_exit c) st' = [] ∧ EXITED_TASKS st' = EXITED_TASKS st ∧
    IDLE_TASK st' = IDLE_TASK st ∧ halted st' = halted st.
Proof.
  intros HI Hidle Hx. open_core HI.
  assert (task_state x = Running) as Hr by (destruct Icurst as (?&?&?); congruence).
  erewrite M_bind_ok by (by apply update_task_ok). set (st1 := set_tasks _ st).
  assert (core (length (queue_of (wait_for_exit c) st1) + k) c G (λ u, D u ∨ u = c) gh Exited X ext
    (only c Exited) st1) as HI1.
  { eapply core_state; try done.
    - intros HX. apply IX in HX as (?&?&?&?). congruence.
    - by rewrite (core_not_idle _ _ _ _ _ _ _ _ _ _ c x HI).
    - intros u Hu. simpl. naive_solver.
    - naive_solver.
    - by right.
    - by right.
    - by rewrite decide_True. }
  assert (tasks st1 !! c = Some (with_state Exited x)) as Hx1 by apply lookup_insert_eq.
  unfold notify_exit.
  destruct (flag_ok _ _ _ _ _ _ _ _ _ _ c _
    (λ x, with_counts (task_preempt_disable_count x) code (task_strong x) x) HI1 Hx1)
    as (st2&H2&HI2&F2&_); [done..|].
  erewrite M_bind_ok by exact H2. rewrite <-(frame_queues _ _ F2) in HI2.
  destruct (notify_all_locked_ok _ _ _ _ _ _ _ _ _ _ _ false HI2) as (st3&X3&H3&HI3&F3);
    [done|by intros t r [? ?]|].
  exists st3, X3. split; [done|]. split; [done|]. rewrite (frame_queues _ _ F3).
  split; [unfold queue_of; simpl; by rewrite lookup_insert_eq|].
  destruct F2, F3. simpl in *. split_and!; congruence.
Qed.

(** The task enters the list of exited tasks. *)
Lemma push_exited_ok k c G D gh X ext st :
  core k c G D gh Exited X ext (only c Exited) st → 1 ≤ G c < 2 ^ 31 →
  queue_of (wait_for_exit c) st = [] →
  ∃ st', nested (_ ← arc_clone c;
                 modify (λ st, set_EXITED_TASKS (EXITED_TASKS st ++ [c]) st)) st = (Ok tt, st') ∧
    core k c G D gh Exited X ext none st' ∧ IDLE_TASK st' = IDLE_TASK st ∧ halted st' = halted st.
Proof.
  intros HI HG Hq. destruct (guard_acquire_ok _ _ _ _ _ _ _ _ _ _ HI) as (st1&H1&HI1&F1); [lia|].
  destruct (core_cur_state _ _ _ _ _ _ _ _ _ _ HI1) as (x&Hx&Hxs).
  destruct (arc_clone_ok _ _ _ _ _ _ _ _ _ _ c x HI1 Hx) as (st2&y&H2&HI2&F2&Ht2&_&Hys&_).
  set (st3 := set_EXITED_TASKS (EXITED_TASKS st2 ++ [c]) st2).
  assert (tasks st2 !! c = Some y) as Hy by (rewrite Ht2; apply lookup_insert_eq).
  assert (core k c (bump c G) D gh Exited X ext none st3) as HI3.
  { open_core HI2. pose proof HI as []. eapply core_exited_list; [exact HI2|..]; try done.
    - intros u. rewrite occ_app. unfold owe. simpl. lia.
    - by intros u r [_ ->].
    - intros u z Hu Hz. destruct (Iplaced u z Hu) as [Hp|[-> _]].
      + unfold placed in Hp. rewrite Hz in Hp. split; [left; set_solver|left].
        destruct (Ijoinq u z Hu Hz) as [?|[-> _]]; [done|].
        by rewrite (frame_queues _ _ F2), (frame_queues _ _ F1).
      + split; [left; left; set_solver|left]. by rewrite (frame_queues _ _ F2), (frame_queues _ _ F1).
    - intros u [[?|Hu%list_elem_of_singleton]%elem_of_app|?]; [eauto| |eauto].
      subst u. exists y. split; [done|congruence]. }
  destruct (guard_release_nested _ _ _ _ _ _ _ _ _ _ HI3) as (st4&H4&HI4&F4); [lia|].
  exists st4. split; [eapply nested_run; [exact H1| |exact H4]; by erewrite M_bind_ok by exact H2|].
  split; [done|]. destruct F1, F2, F4. simpl in *. split; congruence.
Qed.

(** Shutting the machine down drops the exited tasks. *)
Lemma clear_exited_ok k c G D gh s X ext st :
  core k c G D gh s X ext none st → 1 ≤ G c < 2 ^ 31 →
  ∃ st', nested (st ← get_state; _ ← modify (set_EXITED_TASKS []);
                 arc_drop_all (EXITED_TASKS st)) st = (Ok tt, st').
Proof.
  intros HI HG. destruct (guard_acquire_ok _ _ _ _ _ _ _ _ _ _ HI) as (st1&H1&HI1&F1); [lia|].
  open_core HI1. set (l := EXITED_TASKS st1).
  assert (∀ u, u ∈ l → queue_of (wait_for_exit u) st1 = [] ∧ D u) as Hq.
  { intros u Hu. destruct (Iexited u) as (z&Hz&Hzs); [by left|].
    split; [by destruct (Ijoinq u z Hz Hzs) as [?|[]]|by apply (Iexit u z Hz)]. }
  destruct (arc_drop_all_ok k c (bump c G) D gh s X ext (λ u r, r = Exited ∧ u ∈ l) l
    (set_EXITED_TASKS [] st1)) as (st2&H2&HI2&F2); [|done|done|by right; apply Hq|].
  { eapply core_exited_list; [exact HI1|..]; try done.
    - intros u. simpl. fold l. lia.
    - intros u. simpl. pose proof (Iext u). pose proof (occ_nonneg u l). lia.
    - intros u Hu. simpl. pose proof (Iheld u Hu). pose proof (occ_nonneg u l). lia.
    - intros u z Hu Hz. destruct (Iplaced u z Hu) as [Hp|[]]. unfold placed in Hp.
      rewrite Hz in Hp. fold l in Hp. destruct (Ijoinq u z Hu Hz) as [?|[]].
      split; [|by left]. destruct Hp; [by right|left; by right].
    - intros u [Hu|Hu]; [by apply not_elem_of_nil in Hu|eauto]. }
  destruct (guard_release_nested _ _ _ _ _ _ _ _ _ _ HI2) as (st3&H3&_); [lia|].
  exists st3. eapply nested_run; [exact H1| |exact H3].
  erewrite M_bind_ok by done. by erewrite M_bind_ok by done.
Qed.

Lemma exit_current_ok k c G D gh X ext st code :
  core (length (queue_of (wait_for_exit c) st) + Datatypes.S (Datatypes.S k)) c G D gh
    Running X ext none st →
  G c = 1 → IDLE_TASK st ≠ Some c →
  ∃ st', exit_current code st = (Ok tt, st') ∧
    (halted st' = true ∨
     ∃ c' X', core k c' G (λ u, D u ∨ u = c) gh Running X' ext none st' ∧
       IDLE_TASK st' = IDLE_TASK st ∧ halted st' = halted st).
Proof.
  intros HI HG Hidle. destruct (core_cur_state _ _ _ _ _ _ _ _ _ _ HI) as (x&Hx&Hr).
  unfold exit_current. erewrite M_bind_ok by (by eapply current_ok, core_cur).
  erewrite M_bind_ok by (by apply get_task_ok). unfold is_running.
  rewrite (bool_decide_true (_ = Running)), (core_not_idle _ _ _ _ _ _ _ _ _ _ c x HI) by done.
  do 2 erewrite M_bind_ok by done. destruct (task_is_init x).
  { destruct (clear_exited_ok _ _ _ _ _ _ _ _ _ HI) as (st1&H1); [lia|].
    erewrite M_bind_ok by exact H1. eexists. split; [done|]. by left. }
  destruct (mark_exited_ok _ _ _ _ _ _ _ _ _ code HI Hidle Hx) as (st1&X1&H1&HI1&Hq&_&Hi1&Hh1).
  apply M_bind_ok_inv in H1 as ([]&st0&H0&H1).
  erewrite M_bind_ok by exact H0. erewrite M_bind_ok by exact H1.
  destruct (push_exited_ok _ _ _ _ _ _ _ _ HI1) as (st2&H2&HI2&Hi2&Hh2); [lia|done|].
  erewrite M_bind_ok by exact H2.
  destruct (notify_one_locked_ok _ _ _ _ _ _ _ _ _ _ WAIT_FOR_EXIT false HI2)
    as (st3&X3&H3&HI3&F3); [done|by intros ? ? []|].
  erewrite M_bind_ok by exact H3.
  destruct (resched_ok _ _ _ _ _ _ _ _ _ false HI3) as (st4&c'&X4&H4&HI4&F4).
  exists st4. split; [done|]. right. exists c', X4. split; [done|].
  destruct F3, F4. simpl in *. split; congruence.
Qed.
(** ** The collector *)

Lemma gc_pop_ok k c G D s X ext st :
  core k c G D None s X ext none st →
  ∃ r st', gc_pop st = (Ok r, st') ∧ IDLE_TASK st' = IDLE_TASK st ∧ halted st' = halted st ∧
  match r with
  | Some t => core k c G D (Some t) s X (owe t ext) none st' ∧
      length (EXITED_TASKS st) = Datatypes.S (length (EXITED_TASKS st'))
  | None => st' = st ∧ EXITED_TASKS st = []
  end.
Proof.
  intros HI. open_core HI. unfold gc_pop. erewrite M_bind_ok by done.
  destruct (EXITED_TASKS st) as [|t l] eqn:Hl; [by exists None, st|].
  exists (Some t), (set_EXITED_TASKS l st). do 3 (split; [done|]). split; [|done].
  eapply core_exited_list; [exact HI|..]; try done.
  - intros u. rewrite Hl. unfold owe. simpl. lia.
  - intros u. by apply (core_owe_ext _ _ _ _ _ _ _ _ _ _ t u HI).
  - intros u [= <-]. unfold owe. rewrite b2z_true by done. pose proof (Iext t). lia.
  - intros u z Hu Hz. split; [|by apply (Ijoinq u z)]. left.
    destruct (Iplaced u z Hu) as [Hp|[]]. unfold placed in Hp. rewrite Hz, Hl in Hp. set_solver.
  - intros u [Hu|[= <-]]; apply Iexited; left; [by right|by left].
Qed.

Lemma gc_push_ok k c G D s X ext st t :
  core k c G D (Some t) s X (owe t ext) none st → (∀ u, 0 ≤ ext u) →
  ∃ st', gc_push t st = (Ok tt, st') ∧ core k c G D None s X ext none st' ∧
    IDLE_TASK st' = IDLE_TASK st ∧ halted st' = halted st.
Proof.
  intros HI He. open_core HI. eexists. split; [done|]. split; [|done].
  eapply core_exited_list; [exact HI|..]; try done.
  - intros u. rewrite occ_app. unfold owe. simpl. lia.
  - intros u z Hu Hz. split; [|by apply (Ijoinq u z)]. left.
    destruct (Iplaced u z Hu) as [Hp|[]]. unfold placed in Hp. rewrite Hz in Hp. set_solver.
  - intros u [[?|Hu%list_elem_of_singleton]%elem_of_app|?]; [eauto| |done]. subst u. eauto.
Qed.

(** The last reference: the task is freed. *)
Lemma gc_drop_ok k c G D s X ext st t x :
  core k c G D (Some t) s X (owe t ext) none st → (∀ u, 0 ≤ ext u) →
  tasks st !! t = Some x → task_strong x = 1 →
  ∃ st', arc_drop t st = (Ok tt, st') ∧ core k c G D None s X ext none st' ∧
    tasks st' = delete t (tasks st) ∧ IDLE_TASK st' = IDLE_TASK st ∧ halted st' = halted st.
Proof.
  intros HI He Hx H1. open_core HI. destruct (Iexited t) as (z&Hz&Hzs); [by right|]. simplify_eq.
  destruct (Ijoinq t x Hx Hzs) as [Hq|[]].
  assert (core k c G D None s X (owe t ext) (only t Exited) st) as HI1.
  { assert (st = set_EXITED_TASKS (EXITED_TASKS st) st) as -> by (by destruct st).
    eapply core_exited_list; [exact HI|..]; try done.
    - intros u. lia.
    - intros u z Hu Hz. destruct (Iplaced u z Hu) as [Hp|[]]. unfold placed in Hp.
      rewrite Hz in Hp. split; [|left; by destruct (Ijoinq u z Hu Hz) as [?|[]]].
      destruct Hp as [?|[= <-]]; [left; by left|by right].
    - intros u [?|?]; [eauto|done]. }
  eexists. split.
  { unfold arc_drop. erewrite M_bind_ok by (by apply get_task_ok). rewrite H1.
    change (1 =? 1) with true. cbv iota. erewrite M_bind_ok by done. rewrite Hq. reflexivity. }
  split; [|done]. eapply core_conv; [eapply core_free; [exact HI1|done|done|done| |done|by apply (Iexit t x Hx)]|done..|].
  - rewrite (Istrong t x Hx), owe_holders, b2z_true in H1 by done. lia.
  - simpl. intros u y Hu [-> _]. by rewrite lookup_delete_eq in Hu.
Qed.

(** ** New tasks *)

Lemma core_new k c G G' D D' gh s X ext st t x s' n :
  core k c G D gh s X ext none st → tasks st !! t = None →
  task_state x = Ready → task_is_idle x = false → task_strong x = 1 →
  task_preempt_disable_count x = G' t → (∀ u, u ≠ t → G' u = G u) →
  ¬ D' t → (∀ u, u ≠ t → D' u ↔ D u) →
  sched_ready s' X → sched_room k s' → sched_known s' t →
  (∀ u, sched_known (scheduler st) u → sched_known s' u) →
  core k c G' D' gh s X (owe t ext) (only t Ready)
    (set_scheduler s' (set_tasks (<[t := x]> (tasks st)) (set_ID_COUNTER n st))).
Proof.
  intros HI Ht Hr Hi Hs HGt HG HDt HD Hrd Hrm Hk Hkn. open_core HI. set (st' := set_scheduler _ _).
  destruct (holders_zero _ _ _ _ (Iext t) (Ifreed t Ht)) as (Hc&Hid&HX&Hex&_&He0).
  assert (∀ u z, tasks st !! u = Some z → u ≠ t) as Hne by congruence.
  assert (∀ u z, tasks st !! u = Some z → tasks st' !! u = Some z) as Hfwd.
  { intros u z Hu. simpl. rewrite lookup_insert_ne; [done|]. apply Hne in Hu. done. }
  assert (∀ u, holders st' X (owe t ext) u = holders st X ext u + b2z (t = u)) as Hh
    by (intros u; by rewrite owe_holders).
  split; simpl; try done.
  - intros u z Hu. apply lookup_insert_Some in Hu as [[<- _]|[_ Hu]]; eauto.
  - intros u Hu. destruct (IX u Hu) as (z&?&?). exists z. split; [by apply Hfwd|done].
  - destruct Icurst as (z&?&?). exists z. split; [by apply Hfwd|done].
  - intros u z Hu. apply lookup_insert_Some in Hu as [[<- <-]|[_ Hu]]; [by right|left].
    by destruct (Iplaced u z Hu) as [Hp|[]].
  - intros u z Hu. rewrite Hh. apply lookup_insert_Some in Hu as [[<- <-]|[? Hu]].
    + rewrite b2z_true, (Ifreed t Ht) by done. lia.
    + rewrite b2z_false, (Istrong u z Hu) by done. lia.
  - intros u Hu. apply lookup_insert_None in Hu as [Hu ?].
    rewrite Hh, (Ifreed u Hu), b2z_false by done. lia.
  - intros u. unfold owe. pose proof (Iext u). pose proof (b2z_nonneg (t = u)). lia.
  - intros u Hu. unfold owe. pose proof (Iheld u Hu). pose proof (b2z_nonneg (t = u)). lia.
  - intros u z Hu. apply lookup_insert_Some in Hu as [[<- <-]|[? Hu]]; [done|].
    rewrite HG by done. by apply Icount.
  - intros u z Hu. apply lookup_insert_Some in Hu as [[<- <-]|[? Hu]].
    + rewrite Hr. naive_solver.
    + rewrite HD by done. by apply Iexit.
  - intros u [Hu ?]%lookup_insert_None. rewrite HD by done. by apply Igone.
  - intros u z Hu. apply lookup_insert_Some in Hu as [[<- <-]|[? Hu]]; [congruence|].
    by apply Iidle.
  - destruct Iidleex as (i&z&?&?&?). exists i, z. split_and!; [done|by apply Hfwd|done].
  - intros u Hu. destruct (Iexited u Hu) as (z&?&?). exists z. split; [by apply Hfwd|done].
  - intros u z Hu Hz. apply lookup_insert_Some in Hu as [[<- <-]|[? Hu]]; [congruence|].
    destruct (Ijoinq u z Hu Hz) as [?|[]]; by left.
Qed.

Lemma TaskInner_alloc_ok st t name i s' :
  sched_task_new t (scheduler st) = (Ok tt, s') →
  TaskInner_alloc t name i st = (Ok tt, set_scheduler s' (set_tasks
    (<[t := with_kind (bool_decide (name = "idle"%string)) i (new_common (ID_COUNTER st) name)]>
       (tasks st)) (set_ID_COUNTER (add64 (ID_COUNTER st) 1) st))).
Proof.
  intros Hs. unfold TaskInner_alloc, TaskId_new. do 2 erewrite M_bind_ok by done. cbv zeta.
  by apply on_scheduler_ok.
Qed.

(** The first half of [spawn_raw]: a new task with two references. *)
Lemma task_new_ok k c G G' D D' gh s X ext st t name :
  core k c G D gh s X ext none st → tasks st !! t = None → name ≠ "idle"%string →
  G' t = 0 → (∀ u, u ≠ t → G' u = G u) → ¬ D' t → (∀ u, u ≠ t → D' u ↔ D u) →
  ∃ st', (_ ← TaskInner_new t name; arc_clone t) st = (Ok tt, st') ∧
    core k c G' D' gh s X (owe t (owe t ext)) (only t Ready) st' ∧ frame st st' ∧ t ∉ X ∧
    ∃ y, tasks st' !! t = Some y ∧ task_state y = Ready ∧ task_is_idle y = false.
Proof.
  intros HI Ht Hn HGt HG HDt HD. open_core HI.
  destruct (holders_zero _ _ _ _ (Iext t) (Ifreed t Ht)) as (Hc&Hid&HX&Hex&_&He0).
  destruct (sched_new_ok (scheduler st) X t Iready HX) as (s1&Hs1&Hrd1&Hk1&Hkn1&Hrm1).
  erewrite M_bind_ok by (apply TaskInner_alloc_ok; exact Hs1).
  set (x := with_kind _ _ _). set (st1 := set_scheduler _ _).
  assert (task_is_idle x = false) as Hxi by (simpl; by rewrite ?bool_decide_false).
  assert (core k c G' D' gh s X (owe t ext) (only t Ready) st1) as HI1
    by (apply (core_new _ _ G _ D _ _ _ _ _ st t x s1 (add64 (ID_COUNTER st) 1));
        [exact HI|done|done|done|done|by rewrite HGt|done|done|done|done|by apply Hrm1|done|done]).
  assert (tasks st1 !! t = Some x) as Hx by apply lookup_insert_eq.
  destruct (arc_clone_ok _ _ _ _ _ _ _ _ _ _ t x HI1 Hx) as (st2&y&H2&HI2&F2&Ht2&Hyi&Hys&_).
  exists st2. split; [done|]. split; [done|]. split; [by transitivity st1|].
  split; [done|]. exists y. rewrite Ht2, lookup_insert_eq, Hyi, Hys. done.
Qed.

(** [add_task] gives one of the references to the scheduler. *)
Lemma add_task_ok k c G D gh s X ext st t y :
  core (Datatypes.S k) c G D gh s X (owe t ext) (only t Ready) st →
  0 ≤ ext t → (gh = Some t → 1 ≤ ext t) →
  tasks st !! t = Some y → task_state y = Ready → task_is_idle y = false → t ∉ X →
  ∃ st' X', add_task t st = (Ok tt, st') ∧ core k c G D gh s X' ext none st' ∧ frame st st'.
Proof.
  intros HI He Hgh Hy Hys Hyi HX. open_core HI.
  destruct (sched_add_ok (scheduler st) X t k Iready (Iknown t y Hy) Iroom HX)
    as (s3&Hs3&Hrd3&Hkn3&Hrm3).
  exists (set_scheduler s3 st), ({[t]} ∪ X). split.
  { unfold add_task. erewrite M_bind_ok by (by apply get_task_ok). unfold is_ready.
    rewrite Hys. erewrite M_bind_ok by done. by apply on_scheduler_ok. }
  split; [|done]. eapply core_conv; [by eapply core_enqueue|done..|].
  intros u z Hu [-> Hz]. split; [|by rewrite Hz]. left. unfold placed. rewrite Hz. right. set_solver.
Qed.

(** ** Initialisation *)

Lemma arc_clone_run st t x :
  tasks st !! t = Some x →
  arc_clone t st = (Ok tt, set_tasks (<[t := with_counts (task_preempt_disable_count x)
    (task_exit_code x) (task_strong x + 1) x]> (tasks st)) st).
Proof.
  intros Hx. unfold arc_clone. erewrite M_bind_ok by (by apply get_task_ok).
  unfold set_strong. by rewrite (update_task_ok _ _ x _ Hx).
Qed.

(** The state before [init]: statics with their initial values. *)
Definition boot (s : Sch) (now : Z) : TaskSys Sch :=
  Build_TaskSys s ∅ None None [] ∅ tl_new 1 now false.

Lemma init_ok k s now ti tm tg :
  sched_ready s ∅ → sched_room (Datatypes.S k) s → ti ≠ tm → ti ≠ tg → tm ≠ tg →
  ∃ st, init ti tm tg (boot s now) = (Ok tt, st) ∧
    core k tm (λ _, 0) (λ t, t ∉ [ti; tm; tg]) None Running {[tg]} (λ _, 0) none st ∧
    IDLE_TASK st = Some ti ∧ halted st = false ∧ dom (tasks st) = {[ti; tm; tg]}.
Proof.
  intros Hrd Hrm Him Hig Hmg.
  destruct (sched_new_ok s ∅ ti) as (s1&Hs1&Hrd1&Hk1&_&Hrm1); [done|set_solver|].
  destruct (sched_new_ok s1 ∅ tm) as (s2&Hs2&Hrd2&Hk2&Hkn2&Hrm2); [done|set_solver|].
  destruct (sched_new_ok s2 ∅ tg) as (s3&Hs3&Hrd3&Hk3&Hkn3&Hrm3); [done|set_solver|].
  destruct (sched_add_ok s3 ∅ tg k) as (s4&Hs4&Hrd4&Hkn4&Hrm4); [done|done|by auto|set_solver|].
  set (xi := with_kind true false (new_common 1 "idle")).
  set (xi' := with_counts 0 0 2 xi).
  set (xm := with_kind false true (new_common 2 "main")).
  set (xm' := with_state Running xm).
  set (xg := with_kind false false (new_common 3 "gc")).
  set (m1 := <[ti := xi]> (∅ : gmap positive TaskInner)).
  set (m2 := <[ti := xi']> m1). set (m3 := <[tm := xm]> m2). set (m4 := <[tm := xm']> m3).
  set (m5 := <[tg := xg]> m4). set (m6 := <[ti := xi]> m5).
  set (B (s : Sch) m c i n := Build_TaskSys s m c i [] ∅ tl_new n now false).
  assert (tasks (B s4 m5 (Some tm) (Some ti) 4) !! ti = Some xi') as Hi5.
  { simpl. unfold m5, m4, m3. rewrite !lookup_insert_ne by done. apply lookup_insert_eq. }
  assert (m6 = <[ti := xi]> (<[tg := xg]> (<[tm := xm']> ∅))) as Hm.
  { apply map_eq. intros t. unfold m6, m5, m4, m3, m2, m1. rewrite !lookup_insert.
    by repeat case_decide. }
  exists (B s4 m6 (Some tm) (Some ti) 4). split; [|split; [|split; [done|split; [done|]]]].
  - unfold init.
    rewrite (M_bind_ok _ _ _ tt (B s1 m1 None None 2)) by (by apply TaskInner_alloc_ok).
    rewrite (M_bind_ok _ _ _ tt (B s1 m2 None None 2)) by (apply arc_clone_run, lookup_insert_eq).
    rewrite (M_bind_ok _ _ _ tt (B s1 m2 None (Some ti) 2)) by done.
    rewrite (M_bind_ok _ _ _ tt (B s2 m3 None (Some ti) 3)) by (by apply TaskInner_alloc_ok).
    rewrite (M_bind_ok _ _ _ tt (B s2 m4 None (Some ti) 3)) by (apply update_task_ok, lookup_insert_eq).
    rewrite (M_bind_ok _ _ _ tt (B s4 m5 None (Some ti) 4)).
    2:{ unfold AxRunQueue_new.
        rewrite (M_bind_ok _ _ _ tt (B s3 m5 None (Some ti) 4)) by (by apply TaskInner_alloc_ok).
        by apply on_scheduler_ok. }
    rewrite (M_bind_ok _ _ _ tt (B s4 m5 (Some tm) (Some ti) 4)) by done.
    unfold arc_drop. erewrite M_bind_ok by (apply get_task_ok; exact Hi5).
    change (task_strong xi' =? 1) with false. cbv iota.
    unfold set_strong. by rewrite (update_task_ok _ _ _ _ Hi5).
  - split; simpl; try done.
    + by rewrite (right_id_L ∅ (∪)) in Hrd4.
    + intros t x Hx. rewrite Hm in Hx. rewrite !lookup_insert in Hx. repeat case_decide; simplify_eq; auto.
    + intros t ->%elem_of_singleton. exists xg. split; [|done]. rewrite Hm.
      rewrite lookup_insert_ne by done. apply lookup_insert_eq.
    + exists xm'. split; [|done]. rewrite Hm. rewrite !lookup_insert_ne by done. apply lookup_insert_eq.
    + intros t x Hx. left. rewrite Hm in Hx. rewrite !lookup_insert in Hx. unfold placed.
      repeat case_decide; simplify_eq; simpl; [by left|right; set_solver|done].
    + intros t x Hx. rewrite Hm in Hx. rewrite !lookup_insert in Hx. unfold holders, b2z, qocc. simpl.
      rewrite map_fold_empty. repeat case_decide; simplify_eq; set_solver.
    + intros t Hx. rewrite Hm in Hx. rewrite !lookup_insert in Hx. unfold holders, b2z, qocc. simpl.
      rewrite map_fold_empty. repeat case_decide; simplify_eq; set_solver.
    + intros t x Hx. rewrite Hm in Hx. rewrite !lookup_insert in Hx.
      by repeat case_decide; simplify_eq.
    + intros t x Hx. rewrite Hm in Hx. rewrite !lookup_insert in Hx.
      repeat case_decide; simplify_eq; simpl; set_solver.
    + intros t Hx. rewrite Hm, !lookup_insert in Hx. repeat case_decide; simplify_eq. set_solver.
    + intros t x Hx. rewrite Hm in Hx. rewrite !lookup_insert in Hx.
      repeat case_decide; simplify_eq; try done. intros _. split; [done|by left].
    + exists ti, xi. split_and!; [done|by apply lookup_insert_eq|done].
    + intros t [Ht|?]; [by apply not_elem_of_nil in Ht|done].
    + intros t x Hx. rewrite Hm, !lookup_insert in Hx. by repeat case_decide; simplify_eq.
  - simpl. rewrite Hm, !dom_insert_L, dom_empty_L. set_solver.
Qed.
End ops.
