(* ===== verification/TaskSystem.v ===== *)
(** * The task system as a transition system ([modules/axtask])

    The critical sections of [RunQueue] composed into the functions of the module,
    for every interleaving of tasks and timer interrupts on one processor.  Each
    task has a point: what it does when it runs next, and whether it is inside a
    guard.  A task that is switched out keeps its point; the task that is switched
    to goes on at its own.  A step runs one critical section of the current task or
    one interrupt. *)

From stdpp Require Import base decidable numbers list gmap strings countable sets functions.
From Stdlib Require Import ZArith Lia.
From S2P Require Import Prelude LinkedList Scheduler TimerList RunQueue RunQueueInv RunQueueOps.

Local Open Scope Z_scope.

Section defs.
Context {Sch : Type} `{BSch : !BaseScheduler Sch} `{Hch : !HeapChoice positive}.

(** The closure a task passes to [wait_until]. *)
Inductive Cond : Type :=
| CExited (t : positive)
| CUser (f : TaskSys Sch → bool).

(** Where a task is: in its own code ([PUser]), at its entry, or in a function of
    the module, before the critical section that comes next. *)
Inductive Point : Type :=
| PEntry
| PUser
| PLoop (q : WqId) (c : Cond) (k : Point)
| PBlock (q : WqId) (k : Point)
| PBlockT (q : WqId)
| PTLoop (q : WqId) (deadline : Z) (c : Cond)
| PTimeoutRet (q : WqId)
| PCancelQ (q : WqId) (k : Point)
| PCancelT (k : Point)
| PNotifyAll (q : WqId) (reschedule : bool)
| PJoinRet (t : positive)
| PGcTop
| PGcIter (n : nat)
| PGcHold (n : nat) (t : positive)
| PDead.

(** The state with the points; [gc_task] runs [gc_entry] and holds [gc_held],
    [handles] are the task references of the applications, [retval] the last
    result of each task. *)
Record Sys : Type := {
  sts : TaskSys Sch;
  points : positive → bool * Point;
  gc_task : positive;
  gc_held : option positive;
  handles : positive → Z;
  retval : positive → Z;
}.

Local Abbreviation TM := (M (TaskSys Sch) NoError).
Local Abbreviation SM := (M Sys NoError).

Definition lift {A} (m : TM A) : SM A := λ s,
  let '(r, st) := m (sts s) in
  (r, {| sts := st; points := points s; gc_task := gc_task s; gc_held := gc_held s;
         handles := handles s; retval := retval s |}).
Definition set_point (t : positive) (g : bool) (p : Point) : SM unit := modify (λ s,
  {| sts := sts s; points := <[t := (g, p)]> (points s); gc_task := gc_task s;
     gc_held := gc_held s; handles := handles s; retval := retval s |}).
Definition set_held (h : option positive) : SM unit := modify (λ s,
  {| sts := sts s; points := points s; gc_task := gc_task s; gc_held := h;
     handles := handles s; retval := retval s |}).
Definition add_handles (t : positive) (n : Z) : SM unit := modify (λ s,
  {| sts := sts s; points := points s; gc_task := gc_task s; gc_held := gc_held s;
     handles := <[t := handles s t + n]> (handles s); retval := retval s |}).
Definition set_retval (t : positive) (r : Z) : SM unit := modify (λ s,
  {| sts := sts s; points := points s; gc_task := gc_task s; gc_held := gc_held s;
     handles := handles s; retval := <[t := r]> (retval s) |}).

(** Taking a lock, to go on at [k] when it is released. *)
Definition enter (k : Point) : SM unit :=
  c ← lift current; _ ← lift guard_acquire; set_point c true k.

(** The end of the scope of a lock guard. *)
Definition release : SM unit :=
  c ← lift current;
  s ← get_state;
  b ← lift guard_release;
  if (b : bool) then mret tt else set_point c false (points s c).2.

Definition holds (c : Cond) : TM bool :=
  match c with
  | CExited t => x ← get_task t; mret (bool_decide (task_state x = Exited))
  | CUser f => gets f
  end.

(** ** The functions of the module, section by section *)

(** [wait]. *)
Definition do_block (q : WqId) (k : Point) : SM unit :=
  _ ← enter (PCancelQ q k); lift (block_current (wait_queue_push q)).

(** One turn of the loop of [wait_until]. *)
Definition do_loop (q : WqId) (cond : Cond) (k : Point) : SM unit :=
  c ← lift current;
  _ ← enter (PLoop q cond k);
  b ← lift (holds cond);
  if (b : bool) then set_point c true (PCancelQ q k)
  else lift (block_current (wait_queue_push q)).

(** The second half of [wait_timeout] and what it returns. *)
Definition do_block_timeout (q : WqId) : SM unit :=
  _ ← enter (PTimeoutRet q); lift (block_current (wait_queue_push q)).
Definition do_timeout_ret (q : WqId) : SM unit :=
  c ← lift current;
  x ← lift (get_task c);
  _ ← set_retval c (if task_in_wait_queue x then 1 else 0);
  set_point c false (PCancelQ q PUser).

(** One turn of the loop of [wait_timeout_until]. *)
Definition do_timeout_loop (q : WqId) (deadline : Z) (cond : Cond) : SM unit :=
  c ← lift current;
  s ← get_state;
  if clock (sts s) <? deadline then
    _ ← enter (PTLoop q deadline cond);
    b ← lift (holds cond);
    if (b : bool) then _ ← set_retval c 0; set_point c true (PCancelQ q PUser)
    else lift (block_current (wait_queue_push q))
  else _ ← set_retval c 1; set_point c false (PCancelQ q PUser).

(** [cancel_events]. *)
Definition do_cancel_queue (q : WqId) (k : Point) : SM unit :=
  c ← lift current; _ ← lift (cancel_queue q c); set_point c false (PCancelT k).
Definition do_cancel_timer (k : Point) : SM unit :=
  c ← lift current;
  x ← lift (get_task c);
  if task_in_timer_list x then _ ← enter k; lift (cancel_timer c) else set_point c false k.

(** One turn of the loop of [notify_all]. *)
Definition do_notify_all (q : WqId) (reschedule : bool) : SM unit :=
  c ← lift current;
  _ ← enter (PNotifyAll q reschedule);
  b ← lift (notify_one_locked q reschedule);
  if (b : bool) then mret tt else set_point c true PUser.

(** The end of [join]. *)
Definition do_join_ret (t : positive) : SM unit :=
  c ← lift current;
  x ← lift (get_task t);
  _ ← set_retval c (task_exit_code x);
  set_point c false PUser.

(** [gc_entry]. *)
Definition do_gc_top : SM unit :=
  c ← lift current;
  _ ← enter PGcTop;
  s ← get_state;
  set_point c true (PGcIter (length (EXITED_TASKS (sts s)))).
Definition do_gc_iter (n : nat) : SM unit :=
  c ← lift current;
  match n with
  | O => set_point c false (PBlock WAIT_FOR_EXIT PGcTop)
  | Datatypes.S n =>
      _ ← enter (PGcIter n);
      r ← lift gc_pop;
      match r with
      | Some t => _ ← set_held (Some t); set_point c true (PGcHold n t)
      | None => mret tt
      end
  end.
Definition do_gc_hold (n : nat) (t : positive) : SM unit :=
  c ← lift current;
  x ← lift (get_task t);
  if task_strong x =? 1 then
    _ ← lift (arc_drop t); _ ← set_held None; set_point c false (PGcIter n)
  else
    _ ← enter (PGcIter n); _ ← lift (gc_push t); set_held None.

(** [task_entry]: the lock of the run queue is forced open, the counter of the new
    task is not touched. *)
Definition do_entry : SM unit :=
  c ← lift current;
  s ← get_state;
  set_point c false (if bool_decide (c = gc_task s) then PGcTop else PUser).

(** The next section of the current task. *)
Definition continue_at (p : Point) : SM unit :=
  match p with
  | PEntry => do_entry
  | PUser => mret tt
  | PLoop q c k => do_loop q c k
  | PBlock q k => do_block q k
  | PBlockT q => do_block_timeout q
  | PTLoop q d c => do_timeout_loop q d c
  | PTimeoutRet q => do_timeout_ret q
  | PCancelQ q k => do_cancel_queue q k
  | PCancelT k => do_cancel_timer k
  | PNotifyAll q r => do_notify_all q r
  | PJoinRet t => do_join_ret t
  | PGcTop => do_gc_top
  | PGcIter n => do_gc_iter n
  | PGcHold n t => do_gc_hold n t
  | PDead => panic
  end.
Definition continue : SM unit :=
  c ← lift current; s ← get_state; continue_at (points s c).2.

(** ** What a task may call *)

Inductive Api : Type :=
| yield_now
| call_sleep (dur : Z)
| call_sleep_until (deadline : Z)
| call_wait (n : positive)
| call_wait_until (n : positive) (f : TaskSys Sch → bool)
| call_wait_timeout (n : positive) (dur : Z)
| call_wait_timeout_until (n : positive) (dur : Z) (f : TaskSys Sch → bool)
| call_notify_one (n : positive) (reschedule : bool)
| call_notify_all (n : positive) (reschedule : bool)
| call_notify_task (n : positive) (reschedule : bool) (t : positive)
| call_exit (code : Z)
| spawn_raw (t : positive) (name : string)
| set_priority (prio : Z)
| join (t : positive)
| clone_ref (t : positive)
| drop_ref (t : positive).

(** The alarm of the two functions with a timeout. *)
Definition start_timeout (dur : Z) (k : Z → Point) : SM unit :=
  c ← lift current;
  s ← get_state;
  deadline ← Duration_add (clock (sts s)) dur;
  _ ← lift (arc_clone c);
  _ ← enter (k deadline);
  lift (set_alarm_wakeup deadline c).

Definition do_spawn (t : positive) (name : string) : SM unit :=
  _ ← lift (_ ← TaskInner_new t name; arc_clone t);
  _ ← set_point t false PEntry;
  _ ← enter PUser;
  _ ← lift (add_task t);
  add_handles t 1.

Definition call (a : Api) : SM unit :=
  c ← lift current;
  match a with
  | yield_now => _ ← enter PUser; lift yield_current
  | call_sleep dur =>
      s ← get_state; d ← Duration_add (clock (sts s)) dur; _ ← enter PUser; lift (sleep_until d)
  | call_sleep_until d => _ ← enter PUser; lift (sleep_until d)
  | call_wait n => set_point c false (PBlock (user_wq n) PUser)
  | call_wait_until n f => set_point c false (PLoop (user_wq n) (CUser f) PUser)
  | call_wait_timeout n dur => start_timeout dur (λ _, PBlockT (user_wq n))
  | call_wait_timeout_until n dur f => start_timeout dur (λ d, PTLoop (user_wq n) d (CUser f))
  | call_notify_one n r =>
      _ ← enter PUser; b ← lift (notify_one (user_wq n) r); set_retval c (if (b : bool) then 1 else 0)
  | call_notify_all n r => set_point c false (PNotifyAll (user_wq n) r)
  | call_notify_task n r t =>
      _ ← enter PUser; b ← lift (notify_task (user_wq n) r t);
      set_retval c (if (b : bool) then 1 else 0)
  | call_exit code => _ ← enter PDead; lift (exit_current code)
  | spawn_raw t name => do_spawn t name
  | set_priority prio =>
      _ ← enter PUser; b ← lift (set_current_priority prio); set_retval c (if (b : bool) then 1 else 0)
  | join t => set_point c false (PLoop (wait_for_exit t) (CExited t) (PJoinRet t))
  | clone_ref t => _ ← lift (arc_clone t); add_handles t 1
  | drop_ref t => _ ← lift (arc_drop t); add_handles t (-1)
  end.

(** A timer interrupt at time [now]. *)
Definition irq (now : Z) : SM unit :=
  c ← lift current;
  s ← get_state;
  _ ← lift (modify (set_clock now));
  _ ← set_point c true (points s c).2;
  b ← lift handle_irq;
  if (b : bool) then mret tt else set_point c false (points s c).2.

(** ** Steps *)

Inductive Action : Type :=
| Release
| Continue
| Call (a : Api)
| Irq (now : Z).

Definition step (a : Action) : SM unit :=
  match a with
  | Release => release
  | Continue => continue
  | Call a => call a
  | Irq now => irq now
  end.

(** The task a task is joining, whose handle it borrows. *)
Fixpoint join_target (p : Point) : option positive :=
  match p with
  | PLoop _ (CExited t) _ => Some t
  | PJoinRet t => Some t
  | PCancelQ _ k | PCancelT k => join_target k
  | _ => None
  end.

(** A task calls what its references allow: [spawn_raw] returns a new address;
    a handle that is borrowed by a joiner is not dropped.  The idle task only
    yields.  No task is spawned under the name "idle", which the code takes for the
    name of the idle task ([spawned_idle_name_lost]). *)
Definition api_ok (s : Sys) (c : positive) (a : Api) : Prop :=
  (IDLE_TASK (sts s) = Some c → a = yield_now) ∧
  match a with
  | spawn_raw t name => tasks (sts s) !! t = None ∧ name ≠ "idle"%string
  | join t | clone_ref t => 1 ≤ handles s t
  | drop_ref t =>
      1 ≤ handles s t ∧ (2 ≤ handles s t ∨ ∀ j, join_target (points s j).2 ≠ Some t)
  | _ => True
  end.

(** The time a call waits until is more than a [Duration] holds. *)
Definition overflows (s : Sys) (a : Action) : Prop :=
  match a with
  | Call (call_sleep dur) | Call (call_wait_timeout _ dur) | Call (call_wait_timeout_until _ dur _) =>
      DURATION_LIMIT ≤ clock (sts s) + dur
  | _ => False
  end.

(** Interrupts are off inside a guard and before [task_entry]. *)
Definition enabled (s : Sys) (a : Action) : Prop :=
  halted (sts s) = false ∧
  ∃ c g p, current_ptr (sts s) = Some c ∧ points s c = (g, p) ∧
  match a with
  | Release => g = true
  | Continue => g = false ∧ p ≠ PUser
  | Call a => g = false ∧ p = PUser ∧ api_ok s c a
  | Irq now => g = false ∧ p ≠ PEntry ∧ clock (sts s) ≤ now
  end.
End defs.
Arguments Cond : clear implicits.
Arguments Point : clear implicits.
Arguments Sys : clear implicits.
Arguments Api : clear implicits.
Arguments Action : clear implicits.
