(* ===== verification/TaskSystemProps.v ===== *)
(** * Properties of the task system

    The invariant of [TaskSystem] holds in every reachable state and no step
    panics; what it says about states, queues and references of the tasks; the
    wake-ups that can be lost. *)

From stdpp Require Import base decidable numbers list gmap strings countable sets functions.
From Stdlib Require Import ZArith Lia.
From S2P Require Import Prelude LinkedList Scheduler TimerList RunQueue RunQueueInv RunQueueOps TaskSystem.

Local Open Scope Z_scope.

Section props.
Context {Sch : Type} `{BSch : !BaseScheduler Sch} `{SSpec : !SchedulerSpec Sch}.
Context `{Hch : !HeapChoice positive}.
Implicit Types s : Sys Sch.
Implicit Types pts : positive → bool * Point Sch.
Implicit Types hs : positive → Z.

(** ** The invariant *)

(** The guards the tasks hold, the tasks that have exited, the references outside
    of the module's lists. *)
Definition Gp pts (t : positive) : Z := if (pts t).1 then 1 else 0.
Definition Dp pts (t : positive) : Prop := (pts t).2 = PDead.
Definition extp s (t : positive) : Z := handles s t + b2z (gc_held s = Some t).

(** The points of the collector, and the points the functions give. *)
Definition gc_point (p : Point Sch) : bool :=
  match p with
  | PGcTop | PGcIter _ | PGcHold _ _ => true
  | PBlock _ PGcTop | PCancelQ _ PGcTop | PCancelT PGcTop => true
  | _ => false
  end.

Definition wf_point (p : Point Sch) : Prop :=
  match p with
  | PLoop (wait_for_exit t) (CExited u) (PJoinRet v) => t = u ∧ u = v
  | PLoop (user_wq _) (CUser _) PUser => True
  | PLoop _ _ _ => False
  | PBlock (user_wq _) PUser | PBlock WAIT_FOR_EXIT PGcTop => True
  | PBlock _ _ => False
  | PBlockT (user_wq _) | PTLoop (user_wq _) _ (CUser _) => True
  | PBlockT _ | PTLoop _ _ _ => False
  | PCancelQ _ k | PCancelT k =>
      match k with PUser | PGcTop | PJoinRet _ => True | _ => False end
  | _ => True
  end.

Definition is_hold (p : Point Sch) : option positive :=
  match p with PGcHold _ t => Some t | _ => None end.

(** The points the task [u] can be at. *)
Record allowed (idle : option positive) (gc : positive) hs (u : positive) (p : Point Sch) : Prop := {
  al_wf : wf_point p;
  al_idle : idle = Some u → p = PEntry ∨ p = PUser;
  al_gc : u = gc → p = PEntry ∨ gc_point p = true;
  al_user : u ≠ gc → gc_point p = false;
  al_join t : join_target p = Some t → 1 ≤ hs t;
}.

Record points_inv pts (idle : option positive) (gc : positive) (held : option positive) hs : Prop := {
  pi_allowed u : allowed idle gc hs u (pts u).2;
  pi_gc : idle ≠ Some gc;
  pi_held : held = is_hold (pts gc).2;
  pi_hs t : 0 ≤ hs t;
}.

Record sys_inv (k : nat) (c : positive) (X : gset positive) s : Prop := {
  si_core : core k c (Gp (points s)) (Dp (points s)) (gc_held s) Running X (extp s) none (sts s);
  si_points : points_inv (points s) (IDLE_TASK (sts s)) (gc_task s) (gc_held s) (handles s);
  si_halted : halted (sts s) = false;
}.

(** ** Changing points *)

Lemma fn_insert_eq {A} (f : positive → A) t a : <[t := a]> f t = a.
Proof. apply fn_lookup_insert. Qed.

Lemma fn_insert_ne {A} (f : positive → A) t a u : u ≠ t → <[t := a]> f u = f u.
Proof. intros. by apply fn_lookup_insert_ne. Qed.

Lemma points_set pts idle gc held hs c g p :
  points_inv pts idle gc held hs → allowed idle gc hs c p →
  is_hold p = is_hold (pts c).2 →
  points_inv (<[c := (g, p)]> pts) idle gc held hs.
Proof.
  intros [Ha Hi Hh Hhs] Hp Hn. split; [|done| |done].
  - intros u. destruct (decide (u = c)) as [->|]; [by rewrite fn_insert_eq|by rewrite fn_insert_ne].
  - destruct (decide (gc = c)) as [->|]; [|by rewrite fn_insert_ne].
    rewrite fn_insert_eq. simpl. congruence.
Qed.

Lemma Gp_set pts c p : (pts c).1 = false → ∀ t, Gp (<[c := (true, p)]> pts) t = bump c (Gp pts) t.
Proof.
  intros Hc t. unfold Gp, bump, b2z. case_decide as Ht.
  - subst. by rewrite fn_insert_eq, Hc.
  - rewrite fn_insert_ne by done. lia.
Qed.

Lemma Gp_same pts c g p : (pts c).1 = g → ∀ t, Gp (<[c := (g, p)]> pts) t = Gp pts t.
Proof.
  intros Hc t. unfold Gp. destruct (decide (t = c)) as [->|];
    [by rewrite fn_insert_eq, Hc|by rewrite fn_insert_ne].
Qed.

Lemma Dp_set pts c g p : p ≠ PDead → (pts c).2 ≠ PDead → ∀ t, Dp (<[c := (g, p)]> pts) t ↔ Dp pts t.
Proof.
  intros Hp Hc t. unfold Dp. destruct (decide (t = c)) as [->|].
  - rewrite fn_insert_eq. simpl. tauto.
  - by rewrite fn_insert_ne.
Qed.

(** The current task has not exited. *)
Lemma cur_not_dead k c G D gh X ext E (st : TaskSys Sch) :
  core k c G D gh Running X ext E st → ¬ D c.
Proof.
  intros HI HD. open_core HI. destruct Icurst as (x&Hx&Hr). apply (Iexit c x Hx) in HD. congruence.
Qed.

Definition with_sts (st : TaskSys Sch) s : Sys Sch :=
  {| sts := st; points := points s; gc_task := gc_task s; gc_held := gc_held s;
     handles := handles s; retval := retval s |}.
Definition with_point (c : positive) (g : bool) (p : Point Sch) s : Sys Sch :=
  {| sts := sts s; points := <[c := (g, p)]> (points s); gc_task := gc_task s;
     gc_held := gc_held s; handles := handles s; retval := retval s |}.

Lemma lift_ok {A} (m : M (TaskSys Sch) NoError A) s a st :
  m (sts s) = (Ok a, st) → lift m s = (Ok a, with_sts st s).
Proof. unfold lift. by intros ->. Qed.

Lemma lift_current s c : current_ptr (sts s) = Some c → lift current s = (Ok c, s).
Proof. intros Hc. unfold lift. rewrite (current_ok _ _ Hc). by destruct s. Qed.

(** Taking a lock. *)
Lemma enter_ok k c D X s p gh ext E :
  core k c (Gp (points s)) D gh Running X ext E (sts s) → (points s c).1 = false →
  ∃ st', enter p s = (Ok tt, with_sts st' (with_point c true p s)) ∧
    core k c (Gp (<[c := (true, p)]> (points s))) D gh Running X ext E st' ∧ frame (sts s) st'.
Proof.
  intros HI Hg. destruct (guard_acquire_ok _ _ _ _ _ _ _ _ _ _ HI) as (st'&H1&HI1&F1).
  { unfold Gp. rewrite Hg. lia. }
  exists st'. split; [|split; [|done]].
  - unfold enter. erewrite M_bind_ok by (by eapply lift_current, core_cur).
    by erewrite M_bind_ok by (by apply lift_ok).
  - eapply core_conv; [exact HI1|by apply Gp_set|done|done|].
    intros t x Hx He. split; [by right|]. intros Hz. right. by rewrite <-Hz.
Qed.

(** Another point for the current task, with the same guard. *)
Lemma repoint_ok k c X s g p :
  sys_inv k c X s → (points s c).1 = g → allowed (IDLE_TASK (sts s)) (gc_task s) (handles s) c p →
  p ≠ PDead → is_hold p = is_hold (points s c).2 →
  sys_inv k c X (with_point c g p s).
Proof.
  intros [HI HP Hh] Hg Ha Hp Hn. pose proof (cur_not_dead _ _ _ _ _ _ _ _ _ HI) as Hd.
  split; [|by apply points_set|done]. simpl.
  eapply core_conv; [exact HI|by apply Gp_same|by apply Dp_set|done|by intros ? ? ? []].
Qed.

(** Taking a lock to go on at [p]. *)
Lemma enter_inv k c X s p :
  sys_inv k c X s → (points s c).1 = false →
  allowed (IDLE_TASK (sts s)) (gc_task s) (handles s) c p → p ≠ PDead →
  is_hold p = is_hold (points s c).2 →
  ∃ st, enter p s = (Ok tt, with_sts st (with_point c true p s)) ∧
    sys_inv k c X (with_sts st (with_point c true p s)) ∧ frame (sts s) st.
Proof.
  intros [HI HP Hh] Hg Ha Hp Hn. pose proof (cur_not_dead _ _ _ _ _ _ _ _ _ HI) as Hd.
  destruct (enter_ok _ _ _ _ _ p _ _ _ HI Hg) as (st1&H1&HI1&F1).
  exists st1. split; [done|]. split; [|done]. split; simpl.
  - eapply core_conv; [exact HI1|done|by apply Dp_set|done|by intros ? ? ? []].
  - rewrite (frame_idle _ _ F1). by apply points_set.
  - by rewrite (frame_halted _ _ F1).
Qed.

(** An operation on the shared state. *)
Lemma op_inv k k' c c' X X' s st :
  sys_inv k c X s →
  core k' c' (Gp (points s)) (Dp (points s)) (gc_held s) Running X' (extp s) none st →
  IDLE_TASK st = IDLE_TASK (sts s) → halted st = halted (sts s) →
  sys_inv k' c' X' (with_sts st s).
Proof. intros [HI HP Hh] HI' Hi Hh'. split; simpl; [done|by rewrite Hi|congruence]. Qed.

Lemma sys_room_le n k c X s : sys_inv (n + k) c X s → sys_inv k c X s.
Proof. intros []. split; [by eapply core_room_le|done|done]. Qed.

(** What a step has to give. *)
Definition steps_ok (r : res NoError unit * Sys Sch) : Prop :=
  ∃ s', r = (Ok tt, s') ∧ (halted (sts s') = true ∨ ∃ c X, sys_inv 0 c X s').

Lemma steps_ok_inv k c X s' : sys_inv k c X s' → steps_ok (Ok tt, s').
Proof.
  intros HI. exists s'. split; [done|]. right. exists c, X.
  rewrite <-(Nat.add_0_r k) in HI. by eapply sys_room_le.
Qed.

(** The results are not part of the invariant. *)
Lemma retval_inv k c X s t r :
  sys_inv k c X s →
  sys_inv k c X {| sts := sts s; points := points s; gc_task := gc_task s; gc_held := gc_held s;
                   handles := handles s; retval := <[t := r]> (retval s) |}.
Proof. intros []. by split. Qed.

(** ** Leaving a guard, interrupts *)

Lemma Gp_unset pts c p : (pts c).1 = true → ∀ t, Gp pts t = bump c (Gp (<[c := (false, p)]> pts)) t.
Proof.
  intros Hc t. unfold Gp, bump, b2z. case_decide as Ht.
  - subst. by rewrite fn_insert_eq, Hc.
  - rewrite fn_insert_ne by done. lia.
Qed.

Lemma release_ok k c X s p :
  sys_inv (Datatypes.S k) c X s → points s c = (true, p) → steps_ok (release s).
Proof.
  intros HS Hp. destruct HS as [HI HP Hh]. pose proof (cur_not_dead _ _ _ _ _ _ _ _ _ HI) as Hd.
  assert ((points s c).1 = true) as Hg by (by rewrite Hp).
  unfold release. erewrite M_bind_ok by (by eapply lift_current, core_cur).
  erewrite M_bind_ok by done. rewrite Hp. simpl.
  destruct (guard_release_last k c (Gp (<[c := (false, p)]> (points s))) (Dp (points s)) (gc_held s) X
    (extp s) (sts s)) as (b&st&c'&X'&H1&F1&HI1&Hc').
  { eapply core_conv; [exact HI|intros t; symmetry; by apply Gp_unset|done|done|by intros ? ? ? []]. }
  { unfold Gp. by rewrite fn_insert_eq. }
  erewrite M_bind_ok by (apply lift_ok; exact H1).
  destruct b.
  - apply (steps_ok_inv k c' X'). eapply op_inv; [by split| |apply F1|apply F1].
    eapply core_conv; [exact HI1|by apply Gp_unset|done|done|by intros ? ? ? []].
  - rewrite (Hc' eq_refl) in *. apply (steps_ok_inv k c X'). split; simpl.
    + unfold Dp in Hd. rewrite Hp in Hd. eapply core_conv; [exact HI1|done| |done|by intros ? ? ? []].
      apply Dp_set; [done|by rewrite Hp].
    + rewrite (frame_idle _ _ F1). apply points_set; [done| |by rewrite Hp].
      pose proof (pi_allowed _ _ _ _ _ HP c) as Ha. by rewrite Hp in Ha.
    + by rewrite (frame_halted _ _ F1).
Qed.
Lemma core_clock k c G D gh r X ext E (st : TaskSys Sch) n :
  core k c G D gh r X ext E st → core k c G D gh r X ext E (set_clock n st).
Proof. intros []. by split. Qed.

Lemma irq_ok k c X s p now :
  sys_inv (length (events (TIMER_LIST (sts s))) + Datatypes.S k) c X s →
  points s c = (false, p) →
  ∃ s' c' X', irq now s = (Ok tt, s') ∧ sys_inv k c' X' s' ∧ clock (sts s') = now ∧
    ∀ y, y ∈ events (TIMER_LIST (sts s')) → now < deadline y.
Proof.
  intros HS Hp. destruct HS as [HI HP Hh]. pose proof (cur_not_dead _ _ _ _ _ _ _ _ _ HI) as Hd.
  unfold Dp in Hd. rewrite Hp in Hd. simpl in Hd.
  assert ((points s c).1 = false) as Hg by (by rewrite Hp).
  assert (∀ g, points_inv (<[c := (g, p)]> (points s)) (IDLE_TASK (sts s)) (gc_task s)
    (gc_held s) (handles s)) as HP'.
  { intros g. apply points_set; [done| |by rewrite Hp].
    pose proof (pi_allowed _ _ _ _ _ HP c) as Ha. by rewrite Hp in Ha. }
  unfold irq. erewrite M_bind_ok by (by eapply lift_current, core_cur).
  erewrite M_bind_ok by done. erewrite M_bind_ok by done. rewrite Hp. cbn [snd].
  erewrite M_bind_ok by done.
  apply (core_clock _ _ _ _ _ _ _ _ _ _ now) in HI.
  destruct (guard_acquire_ok _ _ _ _ _ _ _ _ _ _ HI) as (st1&H1&HI1&F1).
  { unfold Gp. rewrite Hg. lia. }
  assert (TIMER_LIST (sts s) = TIMER_LIST st1) as Ht by (symmetry; apply F1). rewrite Ht in HI1.
  destruct (on_timer_tick_ok _ _ _ _ _ _ _ _ _ HI1) as (st2&X2&H2&HI2&F2&Hdue); [done| |].
  { unfold Gp, bump. rewrite Hg, b2z_true by done. lia. }
  destruct (guard_release_last _ _ _ _ _ _ _ _ HI2) as (b&st3&c'&X'&H3&F3&HI3&Hc').
  { unfold Gp. by rewrite Hg. }
  assert (IDLE_TASK st3 = IDLE_TASK (sts s)) as Hi3.
  { rewrite (frame_idle _ _ F3), (frame_idle _ _ F2). simpl. by rewrite (frame_idle _ _ F1). }
  assert (halted st3 = false) as Hh3.
  { rewrite (frame_halted _ _ F3), (frame_halted _ _ F2). simpl. by rewrite (frame_halted _ _ F1). }
  assert (clock st2 = now) as Hcl2.
  { rewrite (frame_clock _ _ F2). simpl. by rewrite (frame_clock _ _ F1). }
  assert (clock st3 = now ∧ ∀ y, y ∈ events (TIMER_LIST st3) → now < deadline y) as Htm.
  { rewrite (frame_clock _ _ F3), (frame_timers _ _ F3). split; [done|]. by rewrite <-Hcl2. }
  erewrite (M_bind_ok (lift handle_irq)).
  2:{ apply lift_ok. unfold handle_irq. erewrite M_bind_ok by exact H1.
      erewrite M_bind_ok by exact H2. exact H3. }
  destruct b.
  - eexists _, c', X'. split; [done|]. split; [|done]. split; simpl; [|by rewrite Hi3|done].
    eapply core_conv; [exact HI3|by apply Gp_set|by apply Dp_set; [|rewrite Hp]|done|by intros ? ? ? []].
  - rewrite (Hc' eq_refl) in *. eexists _, c, X'. split; [done|]. split; [|done].
    split; simpl; [|rewrite Hi3|done].
    + eapply core_conv; [exact HI3| | |done|by intros ? ? ? []]; intros t.
      * unfold Gp. destruct (decide (t = c)) as [->|]; [by rewrite fn_insert_eq, Hg|].
        by rewrite !fn_insert_ne by done.
      * unfold Dp. destruct (decide (t = c)) as [->|]; [by rewrite fn_insert_eq, Hp|].
        by rewrite !fn_insert_ne by done.
    + destruct (HP' false) as [Ha ? ? ?]. split; [|done| |done].
      * intros u. specialize (Ha u). destruct (decide (u = c)) as [->|];
          [rewrite fn_insert_eq in *; done|by rewrite !fn_insert_ne in * by done].
      * destruct (decide (gc_task s = c)) as [<-|];
          [by rewrite fn_insert_eq in *|by rewrite !fn_insert_ne in * by done].
Qed.
(** ** The sections of the waiting functions *)

(** What the point of the current task says about it. *)
Lemma at_point k c X s g p :
  sys_inv k c X s → points s c = (g, p) →
  (points s c).1 = g ∧ (points s c).2 = p ∧ current_ptr (sts s) = Some c ∧
  allowed (IDLE_TASK (sts s)) (gc_task s) (handles s) c p.
Proof.
  intros [HI HP _] Hp. pose proof (pi_allowed _ _ _ _ _ HP c) as Ha.
  rewrite Hp in *. split_and!; [done|done|by eapply core_cur|done].
Qed.

(** Going on elsewhere: the same kind of point. *)
Lemma allowed_next idle gc hs c p p' :
  allowed idle gc hs c p → p ≠ PEntry → p ≠ PUser → wf_point p' → gc_point p' = gc_point p →
  (∀ t, join_target p' = Some t → 1 ≤ hs t) → allowed idle gc hs c p'.
Proof.
  intros [Hw Hi Hg Hu Hj] He Hus Hw' Hg' Hj'. split; [done| | | |done].
  - intros Hc. by destruct (Hi Hc).
  - intros Hc. destruct (Hg Hc) as [?|?]; [done|]. right. congruence.
  - intros Hc. rewrite Hg'. by apply Hu.
Qed.

Lemma allowed_not_idle idle gc hs c p :
  allowed idle gc hs c p → p ≠ PEntry → p ≠ PUser → idle ≠ Some c.
Proof. intros [_ Hi _ _ _] He Hu Hc. by destruct (Hi Hc). Qed.

(** Blocking inside the guard of the run queue. *)
Lemma block_section k c X s q :
  sys_inv (Datatypes.S k) c X s → (points s c).1 = true → IDLE_TASK (sts s) ≠ Some c →
  (∀ u, q = wait_for_exit u → ¬ Dp (points s) u) →
  steps_ok (lift (block_current (wait_queue_push q)) s).
Proof.
  intros HS Hg Hi Hq. destruct (block_current_ok k c _ _ _ X _ _ q (si_core _ _ _ _ HS))
    as (st&c'&X'&H1&HI1&F1); [|done|done|].
  { unfold Gp. by rewrite Hg. }
  rewrite (lift_ok _ _ _ _ H1). apply (steps_ok_inv k c' X').
  eapply op_inv; [done|done|apply F1|apply F1].
Qed.

Lemma do_block_ok k c X s q k0 :
  sys_inv (Datatypes.S k) c X s → points s c = (false, PBlock q k0) →
  steps_ok (do_block q k0 s).
Proof.
  intros HS Hp. destruct (at_point _ _ _ _ _ _ HS Hp) as (Hg&Hp2&Hc&Ha).
  assert (q ≠ WAIT_FOR_EXIT → ∃ n, q = user_wq n) as Hq
    by (destruct Ha as [Hw _ _ _ _]; destruct q, k0; simpl in Hw; naive_solver).
  destruct (enter_inv _ _ _ _ (PCancelQ q k0) HS Hg) as (st&H1&HS1&F1); [|done|by rewrite Hp2|].
  { eapply allowed_next; [exact Ha|done|done|..]; destruct Ha as [Hw _ _ _ _];
      destruct q, k0; try done. }
  unfold do_block. erewrite M_bind_ok by exact H1. eapply block_section; [exact HS1|..].
  - simpl. by rewrite fn_insert_eq.
  - simpl. rewrite (frame_idle _ _ F1). by eapply allowed_not_idle.
  - intros u ->. destruct Hq as [? ?]; done.
Qed.

Lemma do_block_timeout_ok k c X s q :
  sys_inv (Datatypes.S k) c X s → points s c = (false, PBlockT q) →
  steps_ok (do_block_timeout q s).
Proof.
  intros HS Hp. destruct (at_point _ _ _ _ _ _ HS Hp) as (Hg&Hp2&Hc&Ha).
  pose proof (al_wf _ _ _ _ _ Ha) as Hw.
  destruct (enter_inv _ _ _ _ (PTimeoutRet q) HS Hg) as (st&H1&HS1&F1); [|done|by rewrite Hp2|].
  { by eapply allowed_next. }
  unfold do_block_timeout. erewrite M_bind_ok by exact H1. eapply block_section; [exact HS1|..].
  - simpl. by rewrite fn_insert_eq.
  - simpl. rewrite (frame_idle _ _ F1). by eapply allowed_not_idle.
  - intros u ->. done.
Qed.

Lemma handle_alive k c X s t :
  sys_inv k c X s → 1 ≤ handles s t → ∃ x, tasks (sts s) !! t = Some x.
Proof.
  intros [HI HP Hh] Ht. eapply core_alive; [exact HI|].
  assert (0 ≤ holders (sts s) X (λ _, 0) t) by (by apply holders_nonneg).
  rewrite (holders_ext _ _ (λ _, 0)). unfold extp. pose proof (b2z_nonneg (gc_held s = Some t)). lia.
Qed.

(** The condition of a waiting task can be evaluated. *)
Lemma holds_ok k c X s cond :
  sys_inv k c X s → (∀ t, cond = CExited t → 1 ≤ handles s t) →
  ∃ b, lift (holds cond) s = (Ok b, s) ∧ (b = false → ∀ t, cond = CExited t → ¬ Dp (points s) t).
Proof.
  intros [HI HP Hh] Hc. destruct cond as [t|f]; simpl.
  - destruct (handle_alive k c X s t) as [x Hx]; [done|by apply Hc|].
    eexists. split.
    { unfold lift. erewrite M_bind_ok by (by apply get_task_ok). by destruct s. }
    intros Hb u [= <-] Hd. apply (core_exit _ _ _ _ _ _ _ _ _ _ HI t x Hx) in Hd.
    by apply bool_decide_eq_false in Hb.
  - eexists. split; [unfold lift; simpl; by destruct s|done].
Qed.

Lemma do_loop_ok k c X s q cond k0 :
  sys_inv (Datatypes.S k) c X s → points s c = (false, PLoop q cond k0) →
  steps_ok (do_loop q cond k0 s).
Proof.
  intros HS Hp. destruct (at_point _ _ _ _ _ _ HS Hp) as (Hg&Hp2&Hc&Ha).
  pose proof (al_wf _ _ _ _ _ Ha) as Hw. pose proof (al_join _ _ _ _ _ Ha) as Hj. simpl in Hj.
  unfold do_loop. erewrite M_bind_ok by (by apply lift_current).
  destruct (enter_inv _ _ _ _ (PLoop q cond k0) HS Hg) as (st&H1&HS1&F1); [done|done|by rewrite Hp2|].
  erewrite M_bind_ok by exact H1.
  destruct (holds_ok _ _ _ _ cond HS1) as (b&H2&Hb); [by intros t ->; apply Hj|].
  erewrite M_bind_ok by exact H2. destruct b.
  - apply (steps_ok_inv (Datatypes.S k) c X).
    apply repoint_ok; [exact HS1|simpl; by rewrite fn_insert_eq| |done|simpl; by rewrite fn_insert_eq].
    simpl. rewrite (frame_idle _ _ F1). eapply allowed_next; [exact Ha|done|done|..];
      destruct q, cond, k0; try done; naive_solver.
  - eapply block_section; [exact HS1|simpl; by rewrite fn_insert_eq| |].
    + simpl. rewrite (frame_idle _ _ F1). by eapply allowed_not_idle.
    + intros u ->. destruct cond as [t|]; [|by destruct k0]. destruct k0; try done.
      destruct Hw as [-> ->]. by apply Hb.
Qed.
Lemma do_timeout_ret_ok k c X s q :
  sys_inv k c X s → points s c = (false, PTimeoutRet q) → steps_ok (do_timeout_ret q s).
Proof.
  intros HS Hp. destruct (at_point _ _ _ _ _ _ HS Hp) as (Hg&Hp2&Hc&Ha).
  destruct (core_cur_state _ _ _ _ _ _ _ _ _ _ (si_core _ _ _ _ HS)) as (x&Hx&_).
  unfold do_timeout_ret. erewrite M_bind_ok by (by apply lift_current).
  erewrite M_bind_ok by (apply lift_ok, get_task_ok; exact Hx).
  apply (steps_ok_inv k c X). eapply (repoint_ok _ _ _ _ false (PCancelQ q PUser)); [|done| |done|].
  - apply retval_inv. by destruct s.
  - by eapply allowed_next.
  - simpl. by rewrite Hp2.
Qed.

Lemma do_timeout_loop_ok k c X s q d cond :
  sys_inv (Datatypes.S k) c X s → points s c = (false, PTLoop q d cond) →
  steps_ok (do_timeout_loop q d cond s).
Proof.
  intros HS Hp. destruct (at_point _ _ _ _ _ _ HS Hp) as (Hg&Hp2&Hc&Ha).
  pose proof (al_wf _ _ _ _ _ Ha) as Hw.
  assert (allowed (IDLE_TASK (sts s)) (gc_task s) (handles s) c (PCancelQ q PUser)) as Ha'
    by (by eapply allowed_next).
  unfold do_timeout_loop. erewrite M_bind_ok by (by apply lift_current). erewrite M_bind_ok by done.
  destruct (clock (sts s) <? d).
  2:{ apply (steps_ok_inv (Datatypes.S k) c X).
      apply (repoint_ok _ _ _ _ false (PCancelQ q PUser)); [by apply retval_inv|done|done|done|].
      simpl. by rewrite Hp2. }
  destruct (enter_inv _ _ _ _ (PTLoop q d cond) HS Hg) as (st&H1&HS1&F1); [done|done|by rewrite Hp2|].
  erewrite M_bind_ok by exact H1.
  destruct (holds_ok _ _ _ _ cond HS1) as (b&H2&Hb); [intros t ->; by destruct q|].
  erewrite M_bind_ok by exact H2. destruct b.
  - apply (steps_ok_inv (Datatypes.S k) c X).
    apply (repoint_ok _ _ _ _ true (PCancelQ q PUser)); [by apply retval_inv|..]; simpl;
      rewrite ?fn_insert_eq; try done. by rewrite (frame_idle _ _ F1).
  - eapply block_section; [exact HS1|simpl; by rewrite fn_insert_eq| |].
    + simpl. rewrite (frame_idle _ _ F1). by eapply allowed_not_idle.
    + by intros u ->.
Qed.

Lemma do_cancel_queue_ok k c X s q k0 :
  sys_inv k c X s → points s c = (false, PCancelQ q k0) → steps_ok (do_cancel_queue q k0 s).
Proof.
  intros HS Hp. destruct (at_point _ _ _ _ _ _ HS Hp) as (Hg&Hp2&Hc&Ha).
  unfold do_cancel_queue. erewrite M_bind_ok by (by apply lift_current).
  destruct (cancel_queue_ok _ _ _ _ _ _ _ _ q (si_core _ _ _ _ HS)) as (st&H1&HI1&Hi&Hh).
  erewrite M_bind_ok by (apply lift_ok; exact H1). apply (steps_ok_inv k c X).
  eapply (repoint_ok _ _ _ _ false (PCancelT k0));
    [by eapply op_inv|done| |done|simpl; by rewrite Hp2].
  simpl. rewrite Hi. pose proof (al_wf _ _ _ _ _ Ha) as Hw. simpl in Hw.
  eapply allowed_next; [exact Ha|done|done|done|by destruct k0|by apply (al_join _ _ _ _ _ Ha)].
Qed.

Lemma do_cancel_timer_ok k c X s k0 :
  sys_inv k c X s → points s c = (false, PCancelT k0) → steps_ok (do_cancel_timer k0 s).
Proof.
  intros HS Hp. destruct (at_point _ _ _ _ _ _ HS Hp) as (Hg&Hp2&Hc&Ha).
  pose proof (al_wf _ _ _ _ _ Ha) as Hw. simpl in Hw.
  assert (allowed (IDLE_TASK (sts s)) (gc_task s) (handles s) c k0) as Ha'.
  { eapply allowed_next; [exact Ha|done|done|by destruct k0|by destruct k0|
      by apply (al_join _ _ _ _ _ Ha)]. }
  assert (k0 ≠ PDead ∧ is_hold k0 = None) as [Hd Hn] by (by destruct k0).
  destruct (core_cur_state _ _ _ _ _ _ _ _ _ _ (si_core _ _ _ _ HS)) as (x&Hx&_).
  unfold do_cancel_timer. erewrite M_bind_ok by (by apply lift_current).
  assert (with_sts (sts s) s = s) as Hs by (by destruct s).
  erewrite M_bind_ok by (apply lift_ok, get_task_ok; exact Hx). rewrite Hs.
  destruct (task_in_timer_list x).
  2:{ apply (steps_ok_inv k c X). apply (repoint_ok _ _ _ _ false k0); try done. by rewrite Hp2. }
  destruct (enter_inv _ _ _ _ k0 HS Hg) as (st&H1&HS1&F1); [done|done|by rewrite Hp2|].
  erewrite M_bind_ok by exact H1.
  destruct (cancel_timer_ok _ _ _ _ _ _ _ _ (si_core _ _ _ _ HS1)) as (st2&H2&HI2&F2).
  rewrite (lift_ok _ _ _ _ H2). apply (steps_ok_inv k c X).
  eapply op_inv; [exact HS1|exact HI2|apply F2|apply F2].
Qed.

Lemma do_notify_all_ok k c X s q r :
  sys_inv (Datatypes.S k) c X s → points s c = (false, PNotifyAll q r) →
  steps_ok (do_notify_all q r s).
Proof.
  intros HS Hp. destruct (at_point _ _ _ _ _ _ HS Hp) as (Hg&Hp2&Hc&Ha).
  unfold do_notify_all. erewrite M_bind_ok by (by apply lift_current).
  destruct (enter_inv _ _ _ _ (PNotifyAll q r) HS Hg) as (st&H1&HS1&F1); [done|done|by rewrite Hp2|].
  erewrite M_bind_ok by exact H1.
  destruct (notify_one_locked_ok _ _ _ _ _ _ _ _ _ _ q r (si_core _ _ _ _ HS1))
    as (st2&X2&H2&HI2&F2); [done|by intros ? ? []|].
  erewrite M_bind_ok by (apply lift_ok; exact H2).
  assert (sys_inv k c X2 (with_sts st2 (with_sts st (with_point c true (PNotifyAll q r) s)))) as HS2
    by (eapply op_inv; [exact HS1|exact HI2|apply F2|apply F2]).
  case_bool_decide; apply (steps_ok_inv k c X2); [exact HS2|].
  apply (repoint_ok _ _ _ _ true PUser); [exact HS2|..]; simpl; rewrite ?fn_insert_eq; try done.
  rewrite (frame_idle _ _ F2). simpl. rewrite (frame_idle _ _ F1). by eapply allowed_next.
Qed.

Lemma do_join_ret_ok k c X s t :
  sys_inv k c X s → points s c = (false, PJoinRet t) → steps_ok (do_join_ret t s).
Proof.
  intros HS Hp. destruct (at_point _ _ _ _ _ _ HS Hp) as (Hg&Hp2&Hc&Ha).
  destruct (handle_alive _ _ _ _ t HS) as [x Hx]; [by apply (al_join _ _ _ _ _ Ha)|].
  unfold do_join_ret. erewrite M_bind_ok by (by apply lift_current).
  erewrite M_bind_ok by (apply lift_ok, get_task_ok; exact Hx). apply (steps_ok_inv k c X).
  eapply (repoint_ok _ _ _ _ false PUser); [|done| |done|].
  - apply retval_inv. by destruct s.
  - by eapply allowed_next.
  - simpl. by rewrite Hp2.
Qed.
(** ** The collector, new tasks *)

Lemma do_entry_ok k c X s :
  sys_inv k c X s → points s c = (false, PEntry) → steps_ok (do_entry s).
Proof.
  intros HS Hp. destruct (at_point _ _ _ _ _ _ HS Hp) as (Hg&Hp2&Hc&Ha).
  pose proof (pi_gc _ _ _ _ _ (si_points _ _ _ _ HS)) as Hgi.
  unfold do_entry. erewrite M_bind_ok by (by apply lift_current). erewrite M_bind_ok by done.
  apply (steps_ok_inv k c X). case_bool_decide as Hgc;
    [apply (repoint_ok _ _ _ _ false PGcTop)|apply (repoint_ok _ _ _ _ false PUser)];
    try done; try (by rewrite Hp2); split; try done; [congruence|by right|by right].
Qed.

Lemma gc_is_cur k c X s g p :
  sys_inv k c X s → points s c = (g, p) → gc_point p = true →
  c = gc_task s ∧ gc_held s = is_hold p.
Proof.
  intros HS Hp Hgp. destruct (at_point _ _ _ _ _ _ HS Hp) as (Hg&Hp2&Hc&Ha).
  assert (c = gc_task s) as Hgc.
  { destruct (decide (c = gc_task s)) as [|Hne]; [done|]. apply (al_user _ _ _ _ _ Ha) in Hne. congruence. }
  split; [done|]. rewrite <-Hp2, Hgc. by apply (pi_held _ _ _ _ _ (si_points _ _ _ _ HS)).
Qed.

Lemma do_gc_top_ok k c X s :
  sys_inv k c X s → points s c = (false, PGcTop) → steps_ok (do_gc_top s).
Proof.
  intros HS Hp. destruct (at_point _ _ _ _ _ _ HS Hp) as (Hg&Hp2&Hc&Ha).
  unfold do_gc_top. erewrite M_bind_ok by (by apply lift_current).
  destruct (enter_inv _ _ _ _ PGcTop HS Hg) as (st&H1&HS1&F1); [done|done|by rewrite Hp2|].
  erewrite M_bind_ok by exact H1. erewrite M_bind_ok by done. apply (steps_ok_inv k c X).
  eapply (repoint_ok _ _ _ _ true); [exact HS1|..]; simpl; rewrite ?fn_insert_eq; try done.
  rewrite (frame_idle _ _ F1). by eapply allowed_next.
Qed.

Lemma extp_owe s t u : gc_held s = Some t → extp s u = owe t (handles s) u.
Proof.
  intros Hh. unfold extp, owe. rewrite Hh. f_equal. apply b2z_iff. naive_solver.
Qed.

Lemma do_gc_iter_ok k c X s n :
  sys_inv (Datatypes.S k) c X s → points s c = (false, PGcIter n) → steps_ok (do_gc_iter n s).
Proof.
  intros HS Hp. destruct (at_point _ _ _ _ _ _ HS Hp) as (Hg&Hp2&Hc&Ha).
  destruct (gc_is_cur _ _ _ _ _ _ HS Hp eq_refl) as [Hgc Hheld].
  unfold do_gc_iter. erewrite M_bind_ok by (by apply lift_current). destruct n as [|n].
  { apply (steps_ok_inv (Datatypes.S k) c X).
    apply (repoint_ok _ _ _ _ false (PBlock WAIT_FOR_EXIT PGcTop)); try done;
      [by eapply allowed_next|by rewrite Hp2]. }
  destruct (enter_inv _ _ _ _ (PGcIter n) HS Hg) as (st&H1&HS1&F1);
    [by eapply allowed_next|done|by rewrite Hp2|].
  erewrite M_bind_ok by exact H1. set (s1 := with_sts _ _) in *.
  pose proof (si_core _ _ _ _ HS1) as HI1. change (gc_held s1) with (gc_held s) in HI1.
  rewrite Hheld in HI1. destruct (gc_pop_ok _ _ _ _ _ _ _ _ HI1) as (r&st2&H2&Hi2&Hh2&Hr).
  erewrite M_bind_ok by (apply lift_ok; exact H2). destruct r as [t|].
  2:{ destruct Hr as [-> _]. apply (steps_ok_inv (Datatypes.S k) c X).
      by eapply op_inv; [exact HS1|exact (si_core _ _ _ _ HS1)|..]. }
  destruct Hr as [HI2 _]. erewrite M_bind_ok by done.
  apply (steps_ok_inv (Datatypes.S k) c X). destruct (si_points _ _ _ _ HS1) as [Hal Hgi _ Hhs].
  split; simpl; [| |by rewrite Hh2; apply (si_halted _ _ _ _ HS1)].
  - eapply core_conv; [exact HI2| | | |by intros ? ? ? []].
    + apply Gp_same. simpl. by rewrite fn_insert_eq.
    + apply Dp_set; simpl; rewrite ?fn_insert_eq; done.
    + intros u. unfold extp, owe. simpl. rewrite Hheld. rewrite (b2z_false (None = Some u)) by done.
      rewrite (b2z_iff (Some t = Some u) (t = u)) by naive_solver. lia.
  - rewrite Hi2. split; [|done| |done].
    + intros u. destruct (decide (u = c)) as [->|]; [rewrite fn_insert_eq|].
      * simpl. rewrite (frame_idle _ _ F1). by eapply allowed_next.
      * rewrite fn_insert_ne by done. apply Hal.
    + by rewrite <-Hgc, fn_insert_eq.
Qed.

Lemma do_gc_hold_ok k c X s n t :
  sys_inv k c X s → points s c = (false, PGcHold n t) → steps_ok (do_gc_hold n t s).
Proof.
  intros HS Hp. destruct (at_point _ _ _ _ _ _ HS Hp) as (Hg&Hp2&Hc&Ha).
  destruct (gc_is_cur _ _ _ _ _ _ HS Hp eq_refl) as [Hgc Hheld]. simpl in Hheld.
  pose proof HS as [HI [Hal Hgi _ Hhs] Hh].
  assert (core k c (Gp (points s)) (Dp (points s)) (Some t) Running X (owe t (handles s)) none (sts s))
    as HI0.
  { rewrite <-Hheld. eapply core_conv; [exact HI|done|done| |by intros ? ? ? []].
    intros u. symmetry. by apply extp_owe. }
  destruct (core_alive_owe _ _ _ _ _ _ _ _ _ _ t HI0 (Hhs t)) as [x Hx].
  assert (∀ g, ∀ u, allowed (IDLE_TASK (sts s)) (gc_task s) (handles s) u
    (<[c := (g, PGcIter n)]> (points s) u).2) as Hal'.
  { intros g u. destruct (decide (u = c)) as [->|]; [rewrite fn_insert_eq|].
    - by eapply allowed_next.
    - rewrite fn_insert_ne by done. apply Hal. }
  assert ((points s c).2 ≠ PDead) as Hd by (by rewrite Hp2).
  unfold do_gc_hold. erewrite M_bind_ok by (by apply lift_current).
  assert (with_sts (sts s) s = s) as Hs by (by destruct s).
  erewrite M_bind_ok by (apply lift_ok, get_task_ok; exact Hx). rewrite Hs.
  destruct (Z.eqb_spec (task_strong x) 1) as [H1|H1].
  - destruct (gc_drop_ok _ _ _ _ _ _ _ _ _ _ HI0 Hhs Hx H1) as (st&H2&HI2&_&Hi2&Hh2).
    erewrite M_bind_ok by (apply lift_ok; exact H2). erewrite M_bind_ok by done.
    apply (steps_ok_inv k c X). split; simpl; [| |congruence].
    + eapply core_conv; [exact HI2|by apply Gp_same|by apply Dp_set| |by intros ? ? ? []].
      intros u. unfold extp. simpl. rewrite b2z_false by done. lia.
    + rewrite Hi2. split; [apply Hal'|done| |done]. by rewrite <-Hgc, fn_insert_eq.
  - destruct (enter_ok _ _ _ _ _ (PGcIter n) _ _ _ HI0 Hg) as (st1&H2&HI1&F1).
    erewrite M_bind_ok by exact H2.
    destruct (gc_push_ok _ _ _ _ _ _ _ _ _ HI1 Hhs) as (st2&H3&HI3&Hi3&Hh3).
    erewrite M_bind_ok by (apply lift_ok; exact H3). apply (steps_ok_inv k c X).
    split; simpl; [| |rewrite Hh3, (frame_halted _ _ F1); done].
    + eapply core_conv; [exact HI3|done|by apply Dp_set| |by intros ? ? ? []].
      intros u. unfold extp. simpl. rewrite b2z_false by done. lia.
    + rewrite Hi3, (frame_idle _ _ F1). split; [apply Hal'|done| |done].
      by rewrite <-Hgc, fn_insert_eq.
Qed.

Lemma continue_ok k c X s p :
  sys_inv (Datatypes.S k) c X s → points s c = (false, p) → steps_ok (continue s).
Proof.
  intros HS Hp. destruct (at_point _ _ _ _ _ _ HS Hp) as (Hg&Hp2&Hc&Ha).
  unfold continue. erewrite M_bind_ok by (by apply lift_current). erewrite M_bind_ok by done.
  rewrite Hp. simpl. destruct p; simpl;
    eauto using do_entry_ok, do_loop_ok, do_block_ok, do_block_timeout_ok, do_timeout_loop_ok,
      do_timeout_ret_ok, do_cancel_queue_ok, do_cancel_timer_ok, do_notify_all_ok, do_join_ret_ok,
      do_gc_top_ok, do_gc_iter_ok, do_gc_hold_ok.
  - by apply (steps_ok_inv (Datatypes.S k) c X).
  - by destruct (cur_not_dead _ _ _ _ _ _ _ _ _ (si_core _ _ _ _ HS)).
Qed.
(** ** Calls *)

Lemma allowed_user idle gc hs c p :
  allowed idle gc hs c PUser → idle ≠ Some c → wf_point p → gc_point p = false →
  (∀ t, join_target p = Some t → 1 ≤ hs t) → allowed idle gc hs c p.
Proof.
  intros [_ _ Hg _ _] Hi Hw Hgp Hj. split; try done.
  intros Hc. by destruct (Hg Hc).
Qed.

(** A call that only moves the task on. *)
Lemma call_point_ok k c X s p :
  sys_inv k c X s → points s c = (false, PUser) → IDLE_TASK (sts s) ≠ Some c →
  wf_point p → gc_point p = false → p ≠ PDead → is_hold p = None →
  (∀ t, join_target p = Some t → 1 ≤ handles s t) → steps_ok (set_point c false p s).
Proof.
  intros HS Hp Hi Hw Hgp Hd Hh Hj. destruct (at_point _ _ _ _ _ _ HS Hp) as (Hg&Hp2&Hc&Ha).
  apply (steps_ok_inv k c X). apply (repoint_ok _ _ _ _ false p); try done.
  - by eapply allowed_user.
  - by rewrite Hp2.
Qed.

(** The calls that are one section of the run queue. *)
Lemma call_section_ok {A} k c X s (m : M (TaskSys Sch) NoError A) :
  sys_inv k c X s → points s c = (false, PUser) →
  (∀ s1, sys_inv k c X s1 → (points s1 c).1 = true → frame (sts s) (sts s1) →
     ∃ a st c' X', m (sts s1) = (Ok a, st) ∧ sys_inv 0 c' X' (with_sts st s1)) →
  ∃ a s' c' X', (_ ← enter PUser; lift m) s = (Ok a, s') ∧ sys_inv 0 c' X' s'.
Proof.
  intros HS Hp Hm. destruct (at_point _ _ _ _ _ _ HS Hp) as (Hg&Hp2&Hc&Ha).
  destruct (enter_inv _ _ _ _ PUser HS Hg) as (st&H1&HS1&F1); [done|done|by rewrite Hp2|].
  destruct (Hm _ HS1) as (a&st2&c'&X'&H2&HS2); [simpl; by rewrite fn_insert_eq|done|].
  eexists a, _, c', X'. split; [|exact HS2]. erewrite M_bind_ok by exact H1. by apply lift_ok.
Qed.

Lemma call_yield_ok k c X s :
  sys_inv (Datatypes.S k) c X s → points s c = (false, PUser) → steps_ok (call yield_now s).
Proof.
  intros HS Hp. destruct (at_point _ _ _ _ _ _ HS Hp) as (Hg&Hp2&Hc&Ha).
  unfold call. erewrite M_bind_ok by (by apply lift_current).
  edestruct (call_section_ok _ _ _ _ yield_current HS Hp) as ([]&s'&c'&X'&H1&HS1).
  - intros s1 HS1 _ F. destruct (yield_current_ok _ _ _ _ _ _ _ _ (si_core _ _ _ _ HS1))
      as (st&c'&X'&H1&HI1&F1). exists tt, st, c', X'. split; [done|].
    eapply op_inv; [exact HS1| |apply F1|apply F1].
    by eapply core_room_0.
  - rewrite H1. by apply (steps_ok_inv 0 c' X').
Qed.

Lemma call_sleep_ok k c X s d :
  sys_inv (Datatypes.S k) c X s → points s c = (false, PUser) → IDLE_TASK (sts s) ≠ Some c →
  steps_ok (call (call_sleep_until d) s).
Proof.
  intros HS Hp Hi. destruct (at_point _ _ _ _ _ _ HS Hp) as (Hg&Hp2&Hc&Ha).
  unfold call. erewrite M_bind_ok by (by apply lift_current).
  edestruct (call_section_ok _ _ _ _ (sleep_until d) HS Hp) as ([]&s'&c'&X'&H1&HS1).
  - intros s1 HS1 Hg1 F. destruct (sleep_until_ok _ _ _ _ _ _ _ _ d (si_core _ _ _ _ HS1))
      as (st&c'&X'&H1&HI1&F1&_); [unfold Gp; by rewrite Hg1|by rewrite (frame_idle _ _ F)|].
    exists tt, st, c', X'. split; [done|]. eapply op_inv; [exact HS1| |apply F1|apply F1].
    by eapply core_room_0.
  - rewrite H1. by apply (steps_ok_inv 0 c' X').
Qed.

(** The calls that return a result. *)
Lemma call_result_ok {A} k c X s (m : M (TaskSys Sch) NoError A) (f : A → Z) :
  sys_inv k c X s → points s c = (false, PUser) →
  (∀ s1, sys_inv k c X s1 → (points s1 c).1 = true → frame (sts s) (sts s1) →
     ∃ a st c' X', m (sts s1) = (Ok a, st) ∧ sys_inv 0 c' X' (with_sts st s1)) →
  steps_ok ((_ ← enter PUser; b ← lift m; set_retval c (f b)) s).
Proof.
  intros HS Hp Hm. destruct (call_section_ok _ _ _ _ m HS Hp Hm) as (a&s'&c'&X'&H1&HS1).
  apply M_bind_ok_inv in H1 as ([]&s1&H0&H1). erewrite M_bind_ok by exact H0.
  erewrite M_bind_ok by exact H1. apply (steps_ok_inv 0 c' X'). by apply retval_inv.
Qed.

Lemma call_notify_ok k c X s n r :
  sys_inv (Datatypes.S k) c X s → points s c = (false, PUser) →
  steps_ok (call (call_notify_one n r) s) ∧ ∀ t, steps_ok (call (call_notify_task n r t) s).
Proof.
  intros HS Hp. destruct (at_point _ _ _ _ _ _ HS Hp) as (Hg&Hp2&Hc&Ha).
  unfold call. split; [|intros t]; erewrite M_bind_ok by (by apply lift_current);
    eapply (call_result_ok _ _ _ _ _ (λ b : bool, if b then 1 else 0)); [exact HS|exact Hp| |exact HS|exact Hp|];
    intros s1 HS1 Hg1 F.
  - destruct (notify_one_ok _ _ _ _ _ _ _ _ _ _ (user_wq n) r (si_core _ _ _ _ HS1))
      as (st&X1&H1&HI1&F1); [done|by intros ? ? []|].
    do 4 eexists. split; [exact H1|]. eapply op_inv; [exact HS1| |apply F1|apply F1].
    by eapply core_room_0.
  - destruct (notify_task_ok _ _ _ _ _ _ _ _ _ _ (user_wq n) r t (si_core _ _ _ _ HS1))
      as (st&X1&b&H1&HI1&_&Hi1&Hh1); [done|by intros ? ? []|].
    do 4 eexists. split; [exact H1|]. eapply op_inv; [exact HS1| |exact Hi1|exact Hh1].
    by eapply core_room_0.
Qed.

Lemma call_priority_ok k c X s prio :
  sys_inv k c X s → points s c = (false, PUser) → steps_ok (call (set_priority prio) s).
Proof.
  intros HS Hp. destruct (at_point _ _ _ _ _ _ HS Hp) as (Hg&Hp2&Hc&Ha).
  unfold call. erewrite M_bind_ok by (by apply lift_current).
  eapply (call_result_ok _ _ _ _ _ (λ b : bool, if b then 1 else 0)); [exact HS|exact Hp|].
  intros s1 HS1 Hg1 F.
  destruct (set_current_priority_ok _ _ _ _ _ _ _ _ _ _ prio (si_core _ _ _ _ HS1))
    as (b&st&H1&HI1&F1). do 4 eexists. split; [exact H1|].
  eapply op_inv; [exact HS1| |apply F1|apply F1].
  by eapply core_room_0.
Qed.
Lemma call_sleep_dur_ok k c X s dur :
  sys_inv (Datatypes.S k) c X s → points s c = (false, PUser) → IDLE_TASK (sts s) ≠ Some c →
  clock (sts s) + dur < DURATION_LIMIT → steps_ok (call (call_sleep dur) s).
Proof.
  intros HS Hp Hi Hd. pose proof (call_sleep_ok k c X s (clock (sts s) + dur) HS Hp Hi) as Hok.
  destruct (at_point _ _ _ _ _ _ HS Hp) as (Hg&Hp2&Hc&Ha). unfold call in *.
  erewrite M_bind_ok in Hok |- * by (by apply lift_current). erewrite M_bind_ok by reflexivity.
  erewrite M_bind_ok by (unfold Duration_add; by rewrite (proj2 (Z.ltb_lt _ _) Hd)). exact Hok.
Qed.
Lemma start_timeout_ok k c X s dur (f : Z → Point Sch) :
  sys_inv k c X s → points s c = (false, PUser) → IDLE_TASK (sts s) ≠ Some c →
  clock (sts s) + dur < DURATION_LIMIT →
  (∀ d, wf_point (f d) ∧ gc_point (f d) = false ∧ f d ≠ PDead ∧ is_hold (f d) = None ∧
     join_target (f d) = None) →
  steps_ok (start_timeout dur f s).
Proof.
  intros HS Hp Hi Hlim Hf. destruct (at_point _ _ _ _ _ _ HS Hp) as (Hg&Hp2&Hc&Ha).
  pose proof HS as [HI HP Hh]. pose proof (cur_not_dead _ _ _ _ _ _ _ _ _ HI) as Hd.
  set (d := clock (sts s) + dur). destruct (Hf d) as (Hw&Hgp&Hnd&Hnh&Hnj).
  destruct (core_cur_state _ _ _ _ _ _ _ _ _ _ HI) as (x&Hx&_).
  destruct (arc_clone_ok _ _ _ _ _ _ _ _ _ _ c x HI Hx) as (st1&y&H1&HI1&F1&_).
  unfold start_timeout. erewrite M_bind_ok by (by apply lift_current).
  erewrite M_bind_ok by done.
  erewrite M_bind_ok by (unfold Duration_add; by rewrite (proj2 (Z.ltb_lt _ _) Hlim)). fold d.
  erewrite M_bind_ok by (apply lift_ok; exact H1).
  destruct (enter_ok _ _ _ _ (with_sts st1 s) (f d) _ _ _ HI1 Hg) as (st2&H2&HI2&F2).
  erewrite M_bind_ok by exact H2. open_core HI.
  destruct (set_alarm_ok _ _ _ _ _ _ _ _ _ _ c d HI2) as (st3&H3&HI3&F3&_); [done..|].
  erewrite lift_ok by exact H3. apply (steps_ok_inv k c X).
  assert (IDLE_TASK st3 = IDLE_TASK (sts s)) as Hi3.
  { rewrite (frame_idle _ _ F3). simpl. rewrite (frame_idle _ _ F2). simpl. apply F1. }
  split; simpl.
  - eapply core_conv; [exact HI3|done|by apply Dp_set|done|by intros ? ? ? []].
  - rewrite Hi3. apply points_set; [done| |by rewrite Hp2]. eapply allowed_user; try done.
    by rewrite Hnj.
  - rewrite (frame_halted _ _ F3). simpl. rewrite (frame_halted _ _ F2). simpl.
    by rewrite (frame_halted _ _ F1).
Qed.

Lemma call_exit_ok k c X s code :
  sys_inv (length (queue_of (wait_for_exit c) (sts s)) + Datatypes.S (Datatypes.S k)) c X s →
  points s c = (false, PUser) → IDLE_TASK (sts s) ≠ Some c → steps_ok (call (call_exit code) s).
Proof.
  intros HS Hp Hi. destruct (at_point _ _ _ _ _ _ HS Hp) as (Hg&Hp2&Hc&Ha).
  pose proof HS as [HI HP Hh]. unfold call. erewrite M_bind_ok by (by apply lift_current).
  destruct (enter_ok _ _ _ _ s PDead _ _ _ HI Hg) as (st1&H1&HI1&F1).
  erewrite M_bind_ok by exact H1. rewrite <-(frame_queues _ _ F1) in HI1.
  destruct (exit_current_ok _ _ _ _ _ _ _ _ code HI1) as (st2&H2&Hr).
  { unfold Gp. by rewrite fn_insert_eq. }
  { by rewrite (frame_idle _ _ F1). }
  erewrite lift_ok by exact H2. destruct Hr as [Hr|(c'&X'&HI2&Hi2&Hh2)].
  { eexists. split; [done|]. by left. }
  apply (steps_ok_inv k c' X'). split; simpl.
  - eapply core_conv; [exact HI2|done| |done|by intros ? ? ? []]. intros t. unfold Dp.
    destruct (decide (t = c)) as [->|]; [rewrite fn_insert_eq; simpl; tauto|].
    rewrite fn_insert_ne by done. tauto.
  - rewrite Hi2, (frame_idle _ _ F1). apply points_set; [done| |by rewrite Hp2].
    by eapply allowed_user.
  - rewrite Hh2. by rewrite (frame_halted _ _ F1).
Qed.

(** More or fewer handles. *)
Lemma handles_inv pts idle gc held hs t n :
  points_inv pts idle gc held hs → 0 ≤ hs t + n →
  (0 ≤ n ∨ 1 ≤ hs t + n ∨ ∀ j, join_target (pts j).2 ≠ Some t) →
  points_inv pts idle gc held (<[t := hs t + n]> hs).
Proof.
  intros [Ha Hg Hh Hhs] Hn Hj. split; [|done|done|].
  - intros u. destruct (Ha u) as [? ? ? ? Hju]. split; try done. intros v Hv.
    destruct (decide (v = t)) as [->|]; [|rewrite fn_insert_ne; auto].
    rewrite fn_insert_eq. pose proof (Hju t Hv). destruct Hj as [?|[?|Hj]]; [lia|lia|].
    by apply Hj in Hv.
  - intros u. destruct (decide (u = t)) as [->|]; [by rewrite fn_insert_eq|by rewrite fn_insert_ne].
Qed.

Lemma call_refs_ok k c X s t :
  sys_inv k c X s → 1 ≤ handles s t →
  steps_ok (call (clone_ref t) s) ∧
  ((2 ≤ handles s t ∨ ∀ j, join_target (points s j).2 ≠ Some t) → steps_ok (call (drop_ref t) s)).
Proof.
  intros HS Ht. destruct (handle_alive _ _ _ _ t HS Ht) as [x Hx]. pose proof HS as [HI HP Hh].
  assert (current_ptr (sts s) = Some c) as Hc by (by eapply core_cur).
  unfold call. split; [|intros Hj]; erewrite M_bind_ok by (by apply lift_current).
  - destruct (arc_clone_ok _ _ _ _ _ _ _ _ _ _ t x HI Hx) as (st1&y&H1&HI1&F1&_).
    erewrite M_bind_ok by (apply lift_ok; exact H1). apply (steps_ok_inv k c X).
    split; simpl; [|rewrite (frame_idle _ _ F1); apply handles_inv; [done|lia|lia]|
      by rewrite (frame_halted _ _ F1)].
    eapply core_conv; [exact HI1|done|done| |by intros ? ? ? []]. intros u. unfold extp, owe. simpl.
    unfold b2z. destruct (decide (t = u)) as [->|]; [rewrite fn_insert_eq|rewrite fn_insert_ne by done];
      lia.
  - set (ext u := extp s u - b2z (t = u)). open_core HI.
    assert (∀ u, 0 ≤ ext u) as He.
    { intros u. unfold ext, extp, b2z. pose proof (pi_hs _ _ _ _ _ HP u). repeat case_decide; subst; lia. }
    assert (∀ u, gc_held s = Some u → 1 ≤ ext u) as Hgh.
    { intros u Hu. unfold ext, extp. rewrite (b2z_true (gc_held s = Some u)) by done.
      pose proof (pi_hs _ _ _ _ _ HP u). unfold b2z. case_decide; subst; lia. }
    destruct (arc_drop_ok k c (Gp (points s)) (Dp (points s)) (gc_held s) Running X ext none (sts s) t)
      as (st1&H1&HI1&F1&_); [|done|apply Hgh| |].
    { eapply core_conv; [exact HI|done|done| |by intros ? ? ? []]. intros u. unfold owe, ext. lia. }
    { intros y Hy. left. by destruct (Iplaced t y Hy) as [?|[]]. }
    erewrite M_bind_ok by (apply lift_ok; exact H1). apply (steps_ok_inv k c X).
    split; simpl; [|rewrite (frame_idle _ _ F1); apply handles_inv; [done|lia|]|
      by rewrite (frame_halted _ _ F1)].
    + eapply core_conv; [exact HI1|done|done| |by intros ? ? ? []]. intros u. unfold ext, extp. simpl.
      unfold b2z. destruct (decide (t = u)) as [->|]; [rewrite fn_insert_eq|rewrite fn_insert_ne by done];
        lia.
    + right. destruct Hj; [left; lia|by right].
Qed.
(** Taking a lock touches the current task only. *)
Lemma enter_tasks s s' c p u :
  enter p s = (Ok tt, s') → current_ptr (sts s) = Some c → u ≠ c →
  tasks (sts s') !! u = tasks (sts s) !! u.
Proof.
  intros He Hc Hu. unfold enter in He. erewrite M_bind_ok in He by (by apply lift_current).
  apply M_bind_ok_inv in He as ([]&s1&H1&[= <-]). simpl.
  unfold lift in H1. destruct (guard_acquire (sts s)) as [[[]| | |] st] eqn:Hg; simplify_eq.
  simpl. unfold guard_acquire in Hg. erewrite M_bind_ok in Hg by done. rewrite Hc in Hg.
  destruct (tasks (sts s) !! c) as [x|] eqn:Hx.
  - unfold disable_preempt in Hg. erewrite M_bind_ok in Hg by (by apply get_task_ok).
    unfold set_disable_count in Hg. erewrite update_task_ok in Hg by done. simplify_eq. simpl.
    by rewrite lookup_insert_ne.
  - unfold disable_preempt, get_task, unwrap, mbind, M_bind, get_state in Hg. by rewrite Hx in Hg.
Qed.

Lemma call_spawn_ok k c X s t name :
  sys_inv (Datatypes.S k) c X s → points s c = (false, PUser) →
  tasks (sts s) !! t = None → name ≠ "idle"%string → steps_ok (call (spawn_raw t name) s).
Proof.
  intros HS Hp Ht Hn. destruct (at_point _ _ _ _ _ _ HS Hp) as (Hg&Hp2&Hc&Ha).
  pose proof HS as [HI [Hal Hgi Hheld Hhs] Hh]. open_core HI.
  assert (t ≠ c) as Htc by (destruct Icurst as (?&?&?); congruence).
  assert (Dp (points s) t) as Hdt by (by apply Igone). unfold Dp in Hdt.
  assert (t ≠ gc_task s) as Htg.
  { intros ->. destruct (al_gc _ _ _ _ _ (Hal (gc_task s)) eq_refl) as [?|Hx]; [congruence|].
    by rewrite Hdt in Hx. }
  destruct (holders_zero _ _ _ _ (Iext t) (Ifreed t Ht)) as (_&Hti&_&_&_&_).
  set (pts := <[t := (false, PEntry)]> (points s)).
  assert (pts c = (false, PUser)) as Hpc by (unfold pts; by rewrite fn_insert_ne).
  destruct (task_new_ok _ _ _ (Gp pts) _ (Dp pts) _ _ _ _ _ t name HI Ht Hn)
    as (st1&H1&HI1&F1&HX&y&Hy&Hys&Hyi); [|..].
  { unfold Gp, pts. by rewrite fn_insert_eq. }
  { intros u Hu. unfold Gp, pts. by rewrite fn_insert_ne. }
  { unfold Dp, pts. by rewrite fn_insert_eq. }
  { intros u Hu. unfold Dp, pts. by rewrite fn_insert_ne. }
  unfold call. erewrite M_bind_ok by (by apply lift_current). unfold do_spawn.
  erewrite M_bind_ok by (apply lift_ok; exact H1). erewrite M_bind_ok by done.
  destruct (enter_ok _ _ _ _ (with_sts st1 (with_point t false PEntry s)) PUser _ _ _ HI1)
    as (st2&H2&HI2&F2); [simpl; fold pts; by rewrite Hpc|].
  erewrite M_bind_ok by exact H2.
  assert (tasks st2 !! t = Some y) as Hy2.
  { rewrite <-Hy. apply (enter_tasks _ _ c _ t H2); [|done]. by apply (core_cur _ _ _ _ _ _ _ _ _ _ HI1). }
  destruct (add_task_ok _ _ _ _ _ _ _ _ _ t y HI2) as (st3&X3&H3&HI3&F3); try done.
  { unfold owe. pose proof (Iext t). pose proof (b2z_nonneg (t = t)). lia. }
  { intros Hgh. unfold owe. pose proof (Iheld t Hgh). pose proof (b2z_nonneg (t = t)). lia. }
  erewrite M_bind_ok by (apply lift_ok; exact H3). apply (steps_ok_inv k c X3).
  assert (points_inv (<[c := (true, PUser)]> pts) (IDLE_TASK (sts s)) (gc_task s) (gc_held s)
    (handles s)) as HP.
  { apply points_set; [|done|by rewrite Hpc]. apply points_set; [done| |by rewrite Hdt].
    split; try done; by left. }
  split; simpl.
  - eapply core_conv; [exact HI3|done| | |by intros ? ? ? []].
    + apply (Dp_set pts); [done|by rewrite Hpc].
    + intros u. unfold extp, owe, b2z. simpl. destruct (decide (t = u)) as [->|];
        [rewrite fn_insert_eq|rewrite fn_insert_ne by done]; lia.
  - rewrite (frame_idle _ _ F3), (frame_idle _ _ F2). simpl. rewrite (frame_idle _ _ F1).
    apply handles_inv; [done|pose proof (Hhs t); lia|lia].
  - rewrite (frame_halted _ _ F3), (frame_halted _ _ F2). simpl. by rewrite (frame_halted _ _ F1).
Qed.

(** ** Every step *)

(** The insertions into the scheduler a step may make. *)
Definition needs s : nat :=
  match current_ptr (sts s) with
  | Some c => length (events (TIMER_LIST (sts s))) + length (queue_of (wait_for_exit c) (sts s)) + 2
  | None => 0
  end.

Lemma sys_room k k' c X s : sys_inv k c X s → sched_room k' (scheduler (sts s)) → sys_inv k' c X s.
Proof. intros [[] ? ?] Hr. split; [|done..]. by split. Qed.

Lemma call_ok c X s a :
  sys_inv (length (queue_of (wait_for_exit c) (sts s)) + 2) c X s →
  points s c = (false, PUser) → api_ok s c a → ¬ overflows s (Call a) → steps_ok (call a s).
Proof.
  intros HS Hp [Hidle Hok] Hov. destruct (at_point _ _ _ _ _ _ HS Hp) as (Hg&Hp2&Hc&Ha).
  pose proof (sys_room_le _ _ _ _ _ HS) as HS2.
  destruct (decide (IDLE_TASK (sts s) = Some c)) as [Hi|Hi].
  { rewrite (Hidle Hi). by eapply call_yield_ok. }
  destruct a; simpl in Hov; rewrite ?Z.nle_gt in Hov;
    eauto using call_yield_ok, call_sleep_ok, call_sleep_dur_ok, call_exit_ok, call_priority_ok.
  1,2,6,9: unfold call; erewrite M_bind_ok by (by apply lift_current);
    eapply call_point_ok; try done; simpl; naive_solver.
  1,2: unfold call; erewrite M_bind_ok by (by apply lift_current);
    by eapply start_timeout_ok; [exact HS|..].
  - by eapply call_notify_ok.
  - by eapply call_notify_ok.
  - destruct Hok. by eapply call_spawn_ok.
  - by eapply call_refs_ok.
  - destruct Hok. by eapply call_refs_ok.
Qed.

Lemma step_ok c X s a :
  sys_inv 0 c X s → sched_room (needs s) (scheduler (sts s)) → enabled s a → ¬ overflows s a →
  steps_ok (step a s).
Proof.
  intros HS Hr (Hh&c0&g&p&Hc&Hp&Hen) Hov. assert (current_ptr (sts s) = Some c) as Hc'
    by (by eapply core_cur, si_core). simplify_eq. unfold needs in Hr. rewrite Hc in Hr.
  pose proof (sys_room _ _ _ _ _ HS Hr) as HR. destruct a; simpl.
  - subst g. eapply (release_ok 1); [|done]. by eapply sys_room_le.
  - destruct Hen as [-> _]. eapply (continue_ok 1); [|done]. by eapply sys_room_le.
  - destruct Hen as (->&->&Ha). eapply call_ok; [|done|done|done].
    rewrite <-Nat.add_assoc in HR. by eapply sys_room_le.
  - destruct Hen as (->&_).
    rewrite <-Nat.add_assoc, (Nat.add_comm _ 2), Nat.add_succ_l in HR.
    destruct (irq_ok _ _ _ _ _ now HR Hp) as (s'&c'&X'&->&HS'&_). by eapply steps_ok_inv.
Qed.
(** ** Reachable states *)

(** The state [init] leaves, with the first points of its three tasks. *)
Definition initial s : Prop :=
  ∃ sch now ti tm tg st,
    sched_ready sch ∅ ∧ sched_room 1 sch ∧ ti ≠ tm ∧ ti ≠ tg ∧ tm ≠ tg ∧
    init ti tm tg (boot sch now) = (Ok tt, st) ∧
    s = {| sts := st;
           points t := if decide (t = tm) then (false, PUser)
                       else if decide (t = ti ∨ t = tg) then (false, PEntry) else (false, PDead);
           gc_task := tg; gc_held := None; handles _ := 0; retval _ := 0 |}.

(** A call whose time overflows panics. *)
Lemma step_overflows c X s a :
  sys_inv 0 c X s → enabled s a → overflows s a → ∃ s', step a s = (Panic, s').
Proof.
  intros HS (Hh&c0&g&p&Hc&Hp&Hen) Hov. destruct a as [| |a|]; try done. simpl.
  assert (∀ dur (k : Z → M (Sys Sch) NoError unit), DURATION_LIMIT ≤ clock (sts s) + dur →
    (s ← get_state; d ← Duration_add (clock (sts s)) dur; k d) s = (Panic, s)) as Hpanic.
  { intros dur k Hd. erewrite M_bind_ok by reflexivity.
    by erewrite M_bind_panic by (unfold Duration_add; by rewrite (proj2 (Z.ltb_ge _ _) Hd)). }
  exists s. destruct a; try done; simpl in Hov; unfold call, start_timeout;
    repeat erewrite M_bind_ok by (by apply lift_current); by apply Hpanic.
Qed.

(** The runs in which the scheduler does not run out of identifiers, and no time overflows. *)
Inductive reachable : Sys Sch → Prop :=
| reach_init s : initial s → reachable s
| reach_step s a r s' :
    reachable s → enabled s a → sched_room (needs s) (scheduler (sts s)) → ¬ overflows s a →
    step a s = (r, s') → reachable s'.

Lemma initial_inv s : initial s → ∃ c X, sys_inv 0 c X s.
Proof.
  intros (sch&now&ti&tm&tg&st&Hrd&Hrm&Him&Hig&Hmg&Hst&->).
  destruct (init_ok 0 sch now ti tm tg) as (st'&Hst'&HI&Hi&Hh&_); [done..|].
  rewrite Hst in Hst'. injection Hst' as <-.
  exists tm, {[tg]}. split; simpl; [| |done].
  - eapply core_conv; [exact HI| | | |by intros ? ? ? []]; intros t; simpl.
    + unfold Gp. by repeat case_decide.
    + unfold Dp. repeat case_decide; simpl; set_solver.
    + unfold extp. simpl. rewrite b2z_false by done. lia.
  - rewrite Hi. split; simpl; [|congruence| |done].
    + intros u. split; simpl; intros; subst; repeat case_decide; simpl in *; naive_solver.
    + by rewrite decide_False, decide_True by auto.
Qed.

Lemma reachable_inv s : reachable s → halted (sts s) = true ∨ ∃ c X, sys_inv 0 c X s.
Proof.
  induction 1 as [s Hs|s a r s' Hr IH He Hroom Hov Hst]; [right; by apply initial_inv|].
  destruct IH as [Hh|(c&X&HS)]; [destruct He; congruence|].
  destruct (step_ok c X s a HS Hroom He Hov) as (s2&Hs2&H2).
  rewrite Hst in Hs2. by injection Hs2 as -> ->.
Qed.

(** What the invariant says of the tasks. *)
Record task_inv s : Prop := {
  ti_running t x : tasks (sts s) !! t = Some x →
    task_state x = Running ↔ current_ptr (sts s) = Some t;
  ti_ready : ∃ X, sched_ready (scheduler (sts s)) X ∧ ∀ t, t ∈ X ↔
    ∃ x, tasks (sts s) !! t = Some x ∧ task_state x = Ready ∧ task_is_idle x = false;
  ti_idle : ∃ i x, IDLE_TASK (sts s) = Some i ∧ tasks (sts s) !! i = Some x ∧
    (task_state x = Ready ∨ task_state x = Running) ∧
    ∀ t y, tasks (sts s) !! t = Some y → task_is_idle y = true ↔ t = i;
  ti_blocked t x : tasks (sts s) !! t = Some x → task_state x = Blocked →
    (∃ q, t ∈ queue_of q (sts s)) ∨ t ∈ timer_tasks (sts s);
  ti_exited t x : tasks (sts s) !! t = Some x → task_state x = Exited →
    (t ∈ EXITED_TASKS (sts s) ∨ gc_held s = Some t) ∧ queue_of (wait_for_exit t) (sts s) = [];
  ti_refs : ∃ X, sched_ready (scheduler (sts s)) X ∧ ∀ t,
    let n := holders (sts s) X (λ t, handles s t + b2z (gc_held s = Some t)) t in
    match tasks (sts s) !! t with Some x => task_strong x = n ∧ 1 ≤ n | None => n = 0 end;
}.

Lemma sys_task_inv k c X s : sys_inv k c X s → task_inv s.
Proof.
  intros [HI HP _]. open_core HI. split.
  - intros t x Hx. split.
    + intros Hr. destruct (Iplaced t x Hx) as [Hp|[]]. unfold placed in Hp. by rewrite Hr in Hp.
    + intros Hc. destruct Icurst as (y&Hy&Hr). simplify_eq. congruence.
  - exists X. split; [done|]. intros t. split; [apply IX|]. intros (x&Hx&Hr&Hi).
    destruct (Iplaced t x Hx) as [Hp|[]]. unfold placed in Hp. rewrite Hr, Hi in Hp. by destruct Hp.
  - destruct Iidleex as (i&x&Hi&Hx&Hix). exists i, x. destruct (Iidle i x Hx Hix) as [_ ?]. split_and!; try done.
    intros t y Hy. split; [intros Hiy; destruct (Iidle t y Hy Hiy); congruence|]. intros ->. congruence.
  - intros t x Hx Hb. destruct (Iplaced t x Hx) as [Hp|[]]. unfold placed in Hp. by rewrite Hb in Hp.
  - intros t x Hx Hb. split.
    + destruct (Iplaced t x Hx) as [Hp|[]]. unfold placed in Hp. by rewrite Hb in Hp.
    + by destruct (Ijoinq t x Hx Hb) as [?|[]].
  - exists X. split; [done|]. intros t. simpl. destruct (tasks (sts s) !! t) as [x|] eqn:Hx;
      [|by apply Ifreed]. split; [by apply Istrong|]. change (1 ≤ holders (sts s) X (extp s) t).
    destruct (Iplaced t x Hx) as [Hp|[]]. destruct (decide (task_state x = Running)) as [Hr|Hr].
    + unfold placed in Hp. rewrite Hr in Hp. destruct (decide (holders (sts s) X (extp s) t = 0)) as [Hz|].
      * by destruct (holders_zero _ _ _ _ (Iext t) Hz).
      * pose proof (holders_nonneg (sts s) X (extp s) t (Iext t)). lia.
    + pose proof (b2z_nonneg (current_ptr (sts s) = Some t)).
      pose proof (placed_holder (sts s) X (gc_held s) (extp s) t x Hp Hr (Iext t) (Iheld t)) as Hh.
      ospecialize (Hh _); [intros Hi; by apply (Iidle t x Hx)|]. lia.
Qed.

(** ** Properties *)

(** C4: In every reachable state of the task system, whatever the scheduler, the
    interleaving and the interrupts: exactly the current task is running; the
    scheduler holds exactly the ready tasks other than the idle task, which is one task
    and always ready or running; a blocked task is in a wait queue or has an alarm set;
    an exited task waits for the collector and nobody is queued for it; and the strong
    count of each task is the number of references to it, so that no task in use is
    freed.  The runs are those in which no task is spawned under the name "idle" (the
    code takes such a task for an idle one and loses it, [spawned_idle_name_lost]), the
    scheduler has identifiers left, and no time overflows. *)
Theorem task_system_invariant s :
  reachable s → halted (sts s) = false → task_inv s.
Proof.
  intros Hr Hh. destruct (reachable_inv s Hr) as [?|(c&X&HS)]; [congruence|].
  by eapply sys_task_inv.
Qed.

(** C9: A step of the task system panics exactly when it is a [sleep], [wait_timeout] or
    [wait_timeout_until] whose time, as a [Duration], overflows.  In every other step no
    assertion of the run queue fails, no freed task is accessed, no lock release
    reschedules inside another lock and no loop runs on; and until the machine is shut
    down some step can be made.  The runs are those in which no task is spawned under the
    name "idle" (the code takes such a task for an idle one, and its assertions would
    fail) and the scheduler has identifiers left. *)
Theorem task_system_no_panic s :
  reachable s → halted (sts s) = false →
  (∃ a, enabled s a ∧ ¬ overflows s a) ∧
  ∀ a, enabled s a → sched_room (needs s) (scheduler (sts s)) →
    (¬ overflows s a → ∃ s', step a s = (Ok tt, s')) ∧ (overflows s a → ∃ s', step a s = (Panic, s')).
Proof.
  intros Hr Hh. destruct (reachable_inv s Hr) as [?|(c&X&HS)]; [congruence|]. split.
  - assert (current_ptr (sts s) = Some c) as Hc by (by eapply core_cur, si_core).
    destruct (points s c) as [[] p] eqn:Hp; [exists Release; split; [by repeat (eexists || split)|tauto]|].
    assert (p = PUser ∨ p ≠ PUser) as [->|Hne] by (destruct p; auto).
    + exists (Call yield_now). split; [|tauto]. split; [done|]. exists c, false, PUser. by repeat split.
    + exists Continue. split; [|tauto]. split; [done|]. by exists c, false, p.
  - intros a Ha Hroom. split; [|intros Hov; by apply (step_overflows c X)]. intros Hov.
    destruct (step_ok c X s a HS Hroom Ha Hov) as (s'&->&_). by exists s'.
Qed.

(** A timer interrupt wakes up every task whose time has come: a task that is
    blocked after an interrupt at [now] is in a wait queue or has an alarm set for
    a later time. *)
Theorem timer_interrupt_wakes s s' now t x :
  reachable s → enabled s (Irq now) → sched_room (needs s) (scheduler (sts s)) →
  step (Irq now) s = (Ok tt, s') → tasks (sts s') !! t = Some x → task_state x = Blocked →
  (∃ q, t ∈ queue_of q (sts s')) ∨
  ∃ e, e ∈ events (TIMER_LIST (sts s')) ∧ event e = t ∧ now < deadline e.
Proof.
  intros Hr He Hroom Hst Hx Hb. destruct (reachable_inv s Hr) as [?|(c&X&HS)]; [destruct He; congruence|].
  destruct He as (Hh&c0&g&p&Hc&Hp&->&_&_).
  assert (current_ptr (sts s) = Some c) as Hc' by (by eapply core_cur, si_core). simplify_eq.
  unfold needs in Hroom. rewrite Hc in Hroom. pose proof (sys_room _ _ _ _ _ HS Hroom) as HR.
  rewrite <-Nat.add_assoc, (Nat.add_comm _ 2), Nat.add_succ_l in HR.
  destruct (irq_ok _ _ _ _ _ now HR Hp) as (s2&c'&X'&Hs2&HS'&_&Hd). simpl in Hst. rewrite Hst in Hs2.
  injection Hs2 as <-.
  destruct (ti_blocked _ (sys_task_inv _ _ _ _ HS') t x Hx Hb) as [?|Ht]; [by left|right].
  apply list_elem_of_fmap in Ht as (e&->&He). eauto.
Qed.
End props.

(** ** Runs with the FIFO scheduler *)

Section fifo_runs.
#[local] Instance fifo_sched : BaseScheduler FifoScheduler := Fifo.
#[local] Instance fifo_heap : HeapChoice positive := first_choice positive.

Local Abbreviation FSys := (Sys FifoScheduler).

(** A decidable condition for [enabled]. *)
Definition api_okb (s : FSys) (c : positive) (a : Api FifoScheduler) : bool :=
  (if bool_decide (IDLE_TASK (sts s) = Some c)
   then match a with yield_now => true | _ => false end else true) &&
  match a with
  | spawn_raw t name =>
      match tasks (sts s) !! t with None => negb (bool_decide (name = "idle"%string)) | _ => false end
  | join t | clone_ref t => 1 <=? handles s t
  | drop_ref t => 2 <=? handles s t
  | _ => true
  end.
Definition overflowsb (s : FSys) (a : Action FifoScheduler) : bool :=
  match a with
  | Call (call_sleep dur) | Call (call_wait_timeout _ dur) | Call (call_wait_timeout_until _ dur _) =>
      DURATION_LIMIT <=? clock (sts s) + dur
  | _ => false
  end.

Definition enabledb (s : FSys) (a : Action FifoScheduler) : bool :=
  negb (halted (sts s)) &&
  match current_ptr (sts s) with
  | Some c =>
      match a, points s c with
      | Release, (true, _) => true
      | Continue, (false, PUser) => false
      | Continue, (false, _) => true
      | Call a, (false, PUser) => api_okb s c a
      | Irq now, (false, PEntry) => false
      | Irq now, (false, _) => clock (sts s) <=? now
      | _, _ => false
      end
  | None => false
  end.

Lemma enabledb_ok s a : enabledb s a = true → enabled s a.
Proof.
  unfold enabledb, enabled. intros [Hh Hc]%andb_true_iff. apply negb_true_iff in Hh.
  split; [done|]. destruct (current_ptr (sts s)) as [c|]; [|done].
  destruct (points s c) as [g p] eqn:Hp. exists c, g, p. split; [done|]. split; [done|].
  destruct a as [| |a|now]; [by destruct g|by destruct g, p| |].
  - destruct g, p; try done. split; [done|]. split; [done|]. unfold api_okb, api_ok in *.
    apply andb_true_iff in Hc as [Hi Ha]. split.
    + intros Hidle. rewrite bool_decide_true in Hi by done. by destruct a.
    + destruct a; try done; try by apply Z.leb_le.
      * destruct (tasks (sts s) !! t); [done|]. split; [done|].
        apply negb_true_iff, bool_decide_eq_false in Ha. done.
      * apply Z.leb_le in Ha. split; [lia|by left].
  - destruct g, p; try done; (split; [done|]; split; [done|]; by apply Z.leb_le).
Qed.

Lemma overflowsb_ok s a : overflowsb s a = false → ¬ overflows s a.
Proof.
  unfold overflowsb, overflows. intros H. destruct a as [| |a|]; try tauto. destruct a; try tauto; apply Z.leb_gt in H; lia.
Qed.

Fixpoint run_actions (l : list (Action FifoScheduler)) (s : FSys) : option FSys :=
  match l with
  | [] => Some s
  | a :: l =>
      if enabledb s a && negb (overflowsb s a) then
        match step a s with (Ok _, s') => run_actions l s' | _ => None end
      else None
  end.

Lemma run_reachable l s s' : reachable s → run_actions l s = Some s' → reachable s'.
Proof.
  revert s. induction l as [|a l IH]; intros s Hr; simpl; [by intros [= <-]|].
  destruct (enabledb s a && negb (overflowsb s a))%bool eqn:He; [|done]. apply andb_true_iff in He as [He Hov%negb_true_iff].
  destruct (step a s) as [[[]| | |] s1] eqn:Hst; try done. apply IH.
  eapply reach_step; [exact Hr|by apply enabledb_ok|done|by apply overflowsb_ok|exact Hst].
Qed.

(** The system after [init], with the idle task at 1, main at 2, gc at 3. *)
Definition fifo_booted : FSys := {|
  sts := (init 1 2 3 (boot (fifo_new ∅) 0)).2;
  points t := if decide (t = 2%positive) then (false, PUser)
              else if decide (t = 1%positive ∨ t = 3%positive) then (false, PEntry)
              else (false, PDead);
  gc_task := 3; gc_held := None; handles _ := 0; retval _ := 0;
|}.

Lemma fifo_booted_reachable : reachable fifo_booted.
Proof.
  apply reach_init. exists (fifo_new ∅), 0, 1%positive, 2%positive, 3%positive.
  eexists. split; [|split; [done|]].
  - exists []. split; [|done]. split; [done|constructor|done].
  - do 3 (split; [done|]). split; [|reflexivity].
    destruct (init_ok 0 (fifo_new ∅) 0 1 2 3) as (st&Hst&_); [|done..|by rewrite Hst].
    exists []. split; [|done]. split; [done|constructor|done].
Qed.

(** Main spawns a task that sleeps, and yields. *)
Definition sleep_run : list (Action FifoScheduler) :=
  [Call (spawn_raw 4 "worker"); Release; Call yield_now; Continue; Continue; Release; Continue;
   Continue; Continue; Call (call_sleep_until 10); Release].

Lemma task_system_invariant_witness :
  ∃ s, run_actions sleep_run fifo_booted = Some s ∧ task_inv s ∧
    task_state <$> tasks (sts s) !! 4%positive = Some Blocked.
Proof.
  destruct (run_actions sleep_run fifo_booted) as [s|] eqn:Hs; [|by vm_compute in Hs].
  exists s. split; [reflexivity|]. split.
  - apply (task_system_invariant s).
    + exact (run_reachable _ _ _ fifo_booted_reachable Hs).
    + assert (halted ∘ sts <$> run_actions sleep_run fifo_booted = Some false) as Hh
        by (vm_compute; reflexivity). rewrite Hs in Hh. by injection Hh.
  - assert ((λ s, task_state <$> tasks (sts s) !! 4%positive) <$> run_actions sleep_run fifo_booted
      = Some (Some Blocked)) as Hh by (vm_compute; reflexivity).
    rewrite Hs in Hh. by injection Hh.
Defined.
Lemma task_system_no_panic_witness :
  ∃ s s', run_actions sleep_run fifo_booted = Some s ∧ step (Irq 10) s = (Ok tt, s').
Proof.
  destruct (run_actions sleep_run fifo_booted) as [s|] eqn:Hs; [|by vm_compute in Hs].
  assert ((λ s, (halted (sts s), enabledb s (Irq 10))) <$> run_actions sleep_run fifo_booted
    = Some (false, true)) as Hh by (vm_compute; reflexivity).
  rewrite Hs in Hh. injection Hh as Hh He. exists s.
  destruct (task_system_no_panic s) as [_ Hn];
    [exact (run_reachable _ _ _ fifo_booted_reachable Hs)|exact Hh|].
  destruct (proj1 (Hn (Irq 10) ltac:(by apply enabledb_ok) I)) as [s' Hs']; [tauto|].
  exists s'. split; [reflexivity|exact Hs'].
Defined.

Lemma timer_interrupt_wakes_witness :
  ∃ s s', run_actions sleep_run fifo_booted = Some s ∧ step (Irq 5) s = (Ok tt, s') ∧
    ((∃ q, 4%positive ∈ queue_of q (sts s')) ∨
     ∃ e, e ∈ events (TIMER_LIST (sts s')) ∧ event e = 4%positive ∧ 5 < deadline e).
Proof.
  destruct (run_actions sleep_run fifo_booted) as [s|] eqn:Hs; [|by vm_compute in Hs].
  destruct (step (Irq 5) s) as [r s'] eqn:Hst. exists s, s'. split; [reflexivity|].
  assert ((λ s, (enabledb s (Irq 5), (step (Irq 5) s).1,
    task_state <$> tasks (sts (step (Irq 5) s).2) !! 4%positive))
    <$> run_actions sleep_run fifo_booted = Some (true, Ok tt, Some Blocked)) as Hh
    by (vm_compute; reflexivity).
  rewrite Hs in Hh. cbn [fmap option_fmap option_map] in Hh. rewrite Hst in Hh.
  injection Hh as He -> Hx. split; [exact Hst|]. cbn [snd] in Hx.
  destruct (tasks (sts s') !! 4%positive) as [x|] eqn:Hx4; [|done]. injection Hx as Hx.
  apply (timer_interrupt_wakes s s' 5 4 x); [|by apply enabledb_ok|exact I|exact Hst|exact Hx4|exact Hx].
  exact (run_reachable _ _ _ fifo_booted_reachable Hs).
Defined.

(** C37: [wait_timeout] can miss its alarm.  It sets the alarm before it blocks; if
    the timer interrupt comes in between, the alarm finds a running task and is
    used up, and the task then blocks with no alarm set although its deadline has
    passed. *)
Theorem wait_timeout_misses_alarm :
  ∃ s x, reachable s ∧
    run_actions [Call (call_wait_timeout 1 10); Release; Irq 10; Continue] fifo_booted = Some s ∧
    clock (sts s) = 10 ∧ tasks (sts s) !! 2%positive = Some x ∧ task_state x = Blocked ∧
    points s 2%positive = (true, PTimeoutRet (user_wq 1)) ∧ timer_tasks (sts s) = [].
Proof.
  destruct (run_actions [Call (call_wait_timeout 1 10); Release; Irq 10; Continue] fifo_booted)
    as [s|] eqn:Hs; [|by vm_compute in Hs].
  assert ((λ s, (clock (sts s), task_state <$> tasks (sts s) !! 2%positive, points s 2%positive,
      timer_tasks (sts s)))
    <$> run_actions [Call (call_wait_timeout 1 10); Release; Irq 10; Continue] fifo_booted
    = Some (10, Some Blocked, (true, PTimeoutRet (user_wq 1)), [])) as Hh
    by (vm_compute; reflexivity).
  rewrite Hs in Hh. injection Hh as Hc Hx Hp Ht.
  destruct (tasks (sts s) !! 2%positive) as [x|] eqn:Hx2; [|done]. injection Hx as Hx.
  exists s, x. split; [exact (run_reachable _ _ _ fifo_booted_reachable Hs)|].
  split_and!; [reflexivity|exact Hc|exact Hx2|exact Hx|exact Hp|exact Ht].
Qed.

(** A task an application spawns under the name "idle" is lost when it is
    switched out: [TaskInner::new] takes every task of that name for an idle task,
    so [resched] does not put it back; it is ready, and neither the scheduler nor
    the idle slot refers to it. *)
Theorem spawned_idle_name_lost :
  let s := foldl (λ s a, (step a s).2) fifo_booted
    [Call (spawn_raw 4 "idle"); Release; Call yield_now; Continue; Continue; Release; Continue;
     Continue; Continue; Call yield_now] in
  task_state <$> tasks (sts s) !! 4%positive = Some Ready ∧
  task_strong <$> tasks (sts s) !! 4%positive = Some (handles s 4%positive) ∧
  IDLE_TASK (sts s) = Some 1%positive ∧
  (ulist_iter 10 (scheduler (sts s))).1 = Ok [].
Proof. vm_compute. split_and!; reflexivity. Qed.
End fifo_runs.
