(* ===== verification/Mutex.v ===== *)
(** * The sleeping mutex ([modules/axsync/src/mutex.rs])

    One mutex and any number of tasks, at the granularity of its atomic actions:
    the exchanges on [owner_id], and the sections of [WaitQueue] under the run
    queue lock (check and block, notify).  Each task is at a point of [lock] or
    of the release. *)

From stdpp Require Import base decidable numbers list gmap functions sets.
From Stdlib Require Import ZArith Lia.
From S2P Require Import Prelude LinkedList.

Local Open Scope Z_scope.

(** Where a task is: outside, before the exchange of [lock], before the check of
    [wait_until], blocked, in the critical section, before [notify_one]. *)
Inductive MPoint : Set := MOut | MLocking | MWaiting | MSleeping | MHolding | MNotifying.
#[export] Instance MPoint_eq_dec : EqDecision MPoint.
Proof. solve_decision. Defined.

(** The mutex, with the points of the tasks; a task is its identifier, which is
    not 0. *)
Record Mutex : Type := {
  owner_id : Z;
  mutex_wq : list positive;
  mpoint : positive → MPoint;
}.

Local Abbreviation MM := (M Mutex NoError).

Definition mutex_new : Mutex := {| owner_id := 0; mutex_wq := []; mpoint _ := MOut |}.

Definition mutex_is_locked (m : Mutex) : bool := negb (owner_id m =? 0).

Definition set_owner (o : Z) : MM unit :=
  modify (λ m, {| owner_id := o; mutex_wq := mutex_wq m; mpoint := mpoint m |}).
Definition set_mwq (q : list positive) : MM unit :=
  modify (λ m, {| owner_id := owner_id m; mutex_wq := q; mpoint := mpoint m |}).
Definition set_mpoint (t : positive) (p : MPoint) : MM unit :=
  modify (λ m, {| owner_id := owner_id m; mutex_wq := mutex_wq m; mpoint := <[t := p]> (mpoint m) |}).

(** [compare_exchange_weak] of [lock]; it may fail on an unlocked mutex.  The
    assertion is that the task does not own the mutex. *)
Definition mutex_lock_cas (t : positive) (spurious : bool) : MM unit :=
  m ← get_state;
  if ((owner_id m =? 0) && negb spurious)%bool then
    _ ← set_owner (Zpos t); set_mpoint t MHolding
  else
    _ ← assert_ (negb (owner_id m =? Zpos t)); set_mpoint t MWaiting.

(** One turn of [wait_until(|| !self.is_locked())]. *)
Definition mutex_wait (t : positive) : MM unit :=
  m ← get_state;
  if negb (mutex_is_locked m) then set_mpoint t MLocking
  else _ ← set_mwq (mutex_wq m ++ [t]); set_mpoint t MSleeping.

Definition mutex_try_lock (t : positive) : MM bool :=
  m ← get_state;
  if owner_id m =? 0 then _ ← set_owner (Zpos t); _ ← set_mpoint t MHolding; mret true
  else mret false.

(** [force_unlock], which the drop of the guard calls: the swap and the assertion,
    then [notify_one]. *)
Definition mutex_force_unlock (t : positive) : MM unit :=
  m ← get_state;
  _ ← set_owner 0;
  _ ← assert_ (owner_id m =? Zpos t);
  set_mpoint t MNotifying.
Definition mutex_notify (t : positive) : MM unit :=
  m ← get_state;
  _ ← match mutex_wq m with
      | w :: q => _ ← set_mwq q; set_mpoint w MWaiting
      | [] => mret tt
      end;
  set_mpoint t MOut.

(** ** Steps *)

Inductive MAction : Set :=
| MLock (t : positive)
| MCas (t : positive) (spurious : bool)
| MWait (t : positive)
| MTryLock (t : positive)
| MUnlock (t : positive)
| MNotify (t : positive).

(** A task unlocks the mutex through the guard it got from locking it, and it does
    not lock it again meanwhile. *)
Definition mutex_enabled (m : Mutex) (a : MAction) : bool :=
  match a with
  | MLock t | MTryLock t => bool_decide (mpoint m t = MOut)
  | MCas t _ => bool_decide (mpoint m t = MLocking)
  | MWait t => bool_decide (mpoint m t = MWaiting)
  | MUnlock t => bool_decide (mpoint m t = MHolding)
  | MNotify t => bool_decide (mpoint m t = MNotifying)
  end.

Definition mutex_step (a : MAction) : MM unit :=
  match a with
  | MLock t => set_mpoint t MLocking
  | MCas t b => mutex_lock_cas t b
  | MWait t => mutex_wait t
  | MTryLock t => _ ← mutex_try_lock t; mret tt
  | MUnlock t => mutex_force_unlock t
  | MNotify t => mutex_notify t
  end.

Inductive mutex_reach : Mutex → Prop :=
| mutex_reach_new : mutex_reach mutex_new
| mutex_reach_step m a r m' :
    mutex_reach m → mutex_enabled m a = true → mutex_step a m = (r, m') → mutex_reach m'.

(** ** The invariant *)

Definition mactive (p : MPoint) : bool :=
  match p with MLocking | MWaiting | MNotifying => true | _ => false end.

Record mutex_inv (m : Mutex) : Prop := {
  mi_owner t : mpoint m t = MHolding ↔ owner_id m = Zpos t;
  mi_range : 0 ≤ owner_id m;
  mi_sleep t : t ∈ mutex_wq m ↔ mpoint m t = MSleeping;
  mi_nodup : NoDup (mutex_wq m);
  mi_active : owner_id m = 0 → mutex_wq m ≠ [] → ∃ t, mactive (mpoint m t) = true;
}.

Lemma mpoint_eq (f : positive → MPoint) t p : <[t := p]> f t = p.
Proof. apply fn_lookup_insert. Qed.
Lemma mpoint_ne (f : positive → MPoint) t p u : u ≠ t → <[t := p]> f u = f u.
Proof. intros. by apply fn_lookup_insert_ne. Qed.

(** A task moves on, the rest of the mutex being as it is. *)
Lemma mutex_move m t p :
  mutex_inv m → mpoint m t ≠ MHolding → mpoint m t ≠ MSleeping → p ≠ MHolding → p ≠ MSleeping →
  mactive p = true → mutex_inv {| owner_id := owner_id m; mutex_wq := mutex_wq m;
                                  mpoint := <[t := p]> (mpoint m) |}.
Proof.
  intros [Ho Hr Hs Hn Ha] H1 H2 H3 H4 H5. split; simpl; [|done| |done|].
  - intros u. destruct (decide (u = t)) as [->|]; [rewrite mpoint_eq, <-Ho; naive_solver|by rewrite mpoint_ne].
  - intros u. destruct (decide (u = t)) as [->|]; [rewrite mpoint_eq, Hs; naive_solver|by rewrite mpoint_ne].
  - intros _ _. exists t. by rewrite mpoint_eq.
Qed.

(** A free mutex is taken. *)
Lemma mutex_take m t :
  mutex_inv m → mpoint m t ≠ MSleeping → owner_id m = 0 →
  mutex_inv {| owner_id := Zpos t; mutex_wq := mutex_wq m; mpoint := <[t := MHolding]> (mpoint m) |}.
Proof.
  intros [Ho Hr Hs Hn Ha] H1 H0. split; simpl; [|lia| |done|lia].
  - intros u. destruct (decide (u = t)) as [->|]; [by rewrite mpoint_eq|].
    rewrite mpoint_ne, Ho by done. split; [lia|congruence].
  - intros u. destruct (decide (u = t)) as [->|]; [rewrite mpoint_eq, Hs; naive_solver|by rewrite mpoint_ne].
Qed.

Lemma mutex_step_ok m a :
  mutex_inv m → mutex_enabled m a = true → ∃ m', mutex_step a m = (Ok tt, m') ∧ mutex_inv m'.
Proof.
  intros HI He. pose proof HI as [Ho Hr Hs Hn Ha]. destruct a as [t|t b|t|t|t|t]; simpl in *;
    apply bool_decide_eq_true in He.
  - eexists. split; [done|]. apply (mutex_move m t); rewrite ?He; done.
  - unfold mutex_lock_cas. erewrite M_bind_ok by done.
    destruct ((owner_id m =? 0) && negb b)%bool eqn:Hc.
    + bool_to_prop. eexists. split; [done|]. apply (mutex_take m t); [done|by rewrite He|done].
    + assert ((owner_id m =? Zpos t) = false) as Hne.
      { apply Z.eqb_neq. intros Heq. apply Ho in Heq. congruence. }
      rewrite Hne. erewrite M_bind_ok by done. eexists. split; [done|].
      apply (mutex_move m t); rewrite ?He; done.
  - unfold mutex_wait, mutex_is_locked. erewrite M_bind_ok by done.
    destruct (Z.eqb_spec (owner_id m) 0) as [H0|H0]; eexists; (split; [done|]).
    + apply (mutex_move m t); rewrite ?He; done.
    + simpl. split; simpl; [|done| | |done].
      * intros u. destruct (decide (u = t)) as [->|]; [|by rewrite mpoint_ne].
        rewrite mpoint_eq, <-Ho, He. done.
      * intros u. rewrite elem_of_app, list_elem_of_singleton.
        destruct (decide (u = t)) as [->|]; [rewrite mpoint_eq; tauto|].
        rewrite mpoint_ne, Hs by done. tauto.
      * apply NoDup_app. split; [done|]. split; [|apply NoDup_singleton].
        intros u Hu ->%list_elem_of_singleton. apply Hs in Hu. congruence.
  - unfold mutex_try_lock. destruct (Z.eqb_spec (owner_id m) 0) as [H0|H0].
    + eexists. split; [erewrite M_bind_ok; [done|]; erewrite M_bind_ok by done;
        by rewrite (proj2 (Z.eqb_eq _ _) H0)|]. apply (mutex_take m t); [done|by rewrite He|done].
    + eexists. split; [erewrite M_bind_ok; [done|]; erewrite M_bind_ok by done;
        by rewrite (proj2 (Z.eqb_neq _ _) H0)|done].
  - unfold mutex_force_unlock. erewrite M_bind_ok by done. erewrite M_bind_ok by done.
    rewrite (proj2 (Z.eqb_eq _ _)) by (by apply Ho). erewrite M_bind_ok by done.
    eexists. split; [done|]. simpl. apply Ho in He. split; simpl; [|done| |done|].
    + intros u. destruct (decide (u = t)) as [->|]; [by rewrite mpoint_eq|].
      rewrite mpoint_ne, Ho by done. split; [congruence|lia].
    + intros u. destruct (decide (u = t)) as [->|]; [|by rewrite mpoint_ne].
      rewrite mpoint_eq, Hs. apply Ho in He. by rewrite He.
    + intros _ _. exists t. by rewrite mpoint_eq.
  - unfold mutex_notify. erewrite M_bind_ok by done. destruct (mutex_wq m) as [|w q] eqn:Hq.
    + eexists. split; [done|]. simpl. rewrite Hq. split; simpl; [|done| |constructor|done].
      * intros u. destruct (decide (u = t)) as [->|]; [|by rewrite mpoint_ne].
        rewrite mpoint_eq, <-Ho, He. done.
      * intros u. destruct (decide (u = t)) as [->|]; [rewrite mpoint_eq; set_solver|].
        rewrite mpoint_ne by done. apply Hs.
    + assert (mpoint m w = MSleeping) as Hw by (apply Hs; by left).
      assert (w ≠ t) as Hwt by congruence. apply NoDup_cons in Hn as [Hwq Hnq].
      eexists. split; [done|]. simpl. split; simpl; [|done| |done|].
      * intros u. destruct (decide (u = t)) as [->|]; [rewrite mpoint_eq, <-Ho, He; done|].
        rewrite mpoint_ne by done. destruct (decide (u = w)) as [->|]; [|by rewrite mpoint_ne].
        rewrite mpoint_eq, <-Ho, Hw. done.
      * intros u. destruct (decide (u = t)) as [->|].
        { rewrite mpoint_eq. split; [|done]. intros Hu. assert (mpoint m t = MSleeping); [|congruence].
          apply Hs. by right. }
        rewrite mpoint_ne by done. destruct (decide (u = w)) as [->|]; [rewrite mpoint_eq; naive_solver|].
        rewrite mpoint_ne, <-Hs, elem_of_cons by done. tauto.
      * intros _ _. exists w. by rewrite mpoint_ne, mpoint_eq.
Qed.

Lemma mutex_reach_inv m : mutex_reach m → mutex_inv m.
Proof.
  induction 1 as [|m a r m' Hr IH He Hst].
  - split; simpl; [done|done|set_solver|constructor|done].
  - destruct (mutex_step_ok m a IH He) as (m2&H2&HI2). rewrite Hst in H2. by injection H2 as -> ->.
Qed.

(** ** Properties *)

(** C13: The mutex excludes: in every interleaving at most one task is in the
    critical section, it is the one [owner_id] names, and no assertion of [lock]
    or of the release fails. *)
Theorem mutex_mutual_exclusion m :
  mutex_reach m →
  (∀ t u, mpoint m t = MHolding → mpoint m u = MHolding → t = u) ∧
  (∀ t, mpoint m t = MHolding ↔ owner_id m = Zpos t) ∧
  ∀ a, mutex_enabled m a = true → ∃ m', mutex_step a m = (Ok tt, m').
Proof.
  intros Hr. apply mutex_reach_inv in Hr as HI. split_and!.
  - intros t u Ht Hu. apply (mi_owner _ HI) in Ht, Hu. congruence.
  - apply HI.
  - intros a Ha. destruct (mutex_step_ok m a HI Ha) as (m'&?&_). eauto.
Qed.

(** C17: No wake-up is lost: a task sleeps on the mutex only while another task
    holds it, is about to notify, or is awake in [lock]. *)
Theorem mutex_no_lost_wakeup m t :
  mutex_reach m → mpoint m t = MSleeping →
  t ∈ mutex_wq m ∧
  ∃ u, u ≠ t ∧ (mpoint m u = MHolding ∨ mpoint m u = MNotifying ∨ mpoint m u = MLocking ∨
                mpoint m u = MWaiting).
Proof.
  intros Hr Ht. apply mutex_reach_inv in Hr as [Ho Hrg Hs Hn Ha]. apply Hs in Ht as Hin.
  split; [done|]. destruct (Z.eq_dec (owner_id m) 0) as [H0|H0].
  - destruct (Ha H0) as [u Hu]; [by destruct (mutex_wq m); [apply not_elem_of_nil in Hin|]|].
    exists u. split; [intros ->; by rewrite Ht in Hu|]. destruct (mpoint m u); naive_solver.
  - destruct (owner_id m) as [|p|p] eqn:Hp; [done| |lia]. exists p.
    assert (mpoint m p = MHolding) as Hh by (by apply Ho). split; [congruence|by left].
Qed.

(** Runs. *)
Definition mutex_run (l : list MAction) (m : Mutex) : Mutex :=
  foldl (λ m a, (mutex_step a m).2) m l.
Fixpoint mutex_run_ok (l : list MAction) (m : Mutex) : bool :=
  match l with
  | [] => true
  | a :: l => mutex_enabled m a && mutex_run_ok l (mutex_step a m).2
  end.

Lemma mutex_run_reach l m :
  mutex_reach m → mutex_run_ok l m = true → mutex_reach (mutex_run l m).
Proof.
  revert m. induction l as [|a l IH]; intros m Hr; simpl; [done|]. intros [He Hl]%andb_true_iff.
  apply IH; [|done]. by eapply mutex_reach_step; [| |apply surjective_pairing].
Qed.

(** Task 1 holds the mutex, tasks 2 and 3 sleep on it. *)
Definition contended : Mutex := mutex_run
  [MLock 1; MCas 1 false; MLock 2; MCas 2 false; MWait 2; MLock 3; MCas 3 true; MWait 3] mutex_new.

Lemma contended_reach : mutex_reach contended.
Proof. apply mutex_run_reach; [constructor|vm_compute; reflexivity]. Qed.

Lemma mutex_mutual_exclusion_witness :
  mpoint contended 1 = MHolding ∧ ∃ m', mutex_step (MUnlock 1) contended = (Ok tt, m').
Proof.
  split; [reflexivity|].
  apply (proj2 (proj2 (mutex_mutual_exclusion contended contended_reach))). reflexivity.
Defined.

Lemma mutex_no_lost_wakeup_witness :
  3%positive ∈ mutex_wq contended ∧ ∃ u, u ≠ 3%positive ∧
    (mpoint contended u = MHolding ∨ mpoint contended u = MNotifying ∨
     mpoint contended u = MLocking ∨ mpoint contended u = MWaiting).
Proof. apply (mutex_no_lost_wakeup contended 3 contended_reach). reflexivity. Defined.
