(* ===== verification/SpinLock.v ===== *)
(** * Guards and spin locks ([crates/kernel_guard], [crates/spinlock])

    A guard switches interrupts and preemption off on its processor and puts back what it
    found.  A spin lock takes its guard, then an atomic flag that all processors share.
    The interrupt state of a processor is a register, which each architecture saves and
    restores in its own way; the model has the feature [smp]. *)

From Stdlib Require Import ZArith Lia.
From stdpp Require Import base decidable numbers gmap functions list.
From S2P Require Import Prelude.

Local Open Scope Z_scope.

(** ** Interrupts of a processor ([arch/*.rs])

    [irq_save] is [local_irq_save_and_disable]: the value it returns, and the register. *)

Class IrqArch : Type := {
  irq_enabled : Z → bool;
  irq_save : Z → Z * Z;
  irq_restore : Z → Z → Z;
}.

(** What the guards rely on.  Interrupts stay off between the two calls. *)
Class IrqArchSpec `{IrqArch} : Type := {
  irq_save_off r : irq_enabled (irq_save r).2 = false;
  irq_restore_saved r r' :
    irq_enabled r' = false → irq_enabled (irq_restore (irq_save r).1 r') = irq_enabled r;
}.

(** x86: the flag [IF] of [rflags], with [cli] and [sti]. *)
Definition IF_BIT : Z := Z.shiftl 1 9.
Definition x86_irq : IrqArch := {|
  irq_enabled r := Z.testbit r 9;
  irq_save r := (Z.land r IF_BIT, Z.clearbit r 9);
  irq_restore flags r := if negb (flags =? 0) then Z.setbit r 9 else Z.clearbit r 9;
|}.

(** RISC-V: the bit [SIE] of [sstatus], with [csrrc] and [csrrs]. *)
Definition SIE_BIT : Z := Z.shiftl 1 1.
Definition riscv_irq : IrqArch := {|
  irq_enabled r := Z.testbit r 1;
  irq_save r := (Z.land r SIE_BIT, Z.ldiff r SIE_BIT);
  irq_restore flags r := Z.lor r flags;
|}.

(** AArch64: the bit [I] of [daif] masks interrupts. *)
Definition aarch64_irq : IrqArch := {|
  irq_enabled r := negb (Z.testbit r 7);
  irq_save r := (r, Z.setbit r 7);
  irq_restore flags r := flags;
|}.

Lemma x86_irq_spec : @IrqArchSpec x86_irq.
Proof.
  split; cbn [irq_enabled irq_save irq_restore x86_irq fst snd].
  - intros r. by rewrite Z.clearbit_eq.
  - intros r r' _. unfold IF_BIT. rewrite land_bit_zero, negb_involutive by lia. destruct (Z.testbit r 9).
    + by rewrite Z.setbit_eq by lia.
    + by rewrite Z.clearbit_eq.
Qed.

Lemma riscv_irq_spec : @IrqArchSpec riscv_irq.
Proof.
  split; cbn [irq_enabled irq_save irq_restore riscv_irq fst snd].
  - intros r. rewrite Z.ldiff_spec. apply andb_false_r.
  - intros r r' Hr. by rewrite Z.lor_spec, Hr, Z.land_spec, andb_true_r.
Qed.

Lemma aarch64_irq_spec : @IrqArchSpec aarch64_irq.
Proof.
  split; cbn [irq_enabled irq_save irq_restore aarch64_irq fst snd]; [|done].
  intros r. by rewrite Z.setbit_eq by lia.
Qed.

(** ** Guards *)

(** The registers of a processor, and the preemption count of its current task. *)
Record Cpu : Type := { irq_reg : Z; preempt_count : Z }.

(** [KernelGuardIf]; enabling may also reschedule, which is part of the task system. *)
Definition guard_disable_preempt (c : Cpu) : Cpu :=
  {| irq_reg := irq_reg c; preempt_count := add64 (preempt_count c) 1 |}.
Definition guard_enable_preempt (c : Cpu) : Cpu :=
  {| irq_reg := irq_reg c; preempt_count := sub64 (preempt_count c) 1 |}.

Section guards.
Context `{HI : IrqArch}.

Definition cpu_irq_save (c : Cpu) : Z * Cpu :=
  let '(s, r) := irq_save (irq_reg c) in (s, {| irq_reg := r; preempt_count := preempt_count c |}).
Definition cpu_irq_restore (s : Z) (c : Cpu) : Cpu :=
  {| irq_reg := irq_restore s (irq_reg c); preempt_count := preempt_count c |}.

(** [BaseGuard]: the types that implement it, what they save, [base_acquire] and [base_release]. *)
Inductive Guard : Set := NoOp | IrqSave | NoPreempt | NoPreemptIrqSave.
#[export] Instance Guard_eq_dec : EqDecision Guard.
Proof. solve_decision. Defined.
Definition GState (g : Guard) : Set :=
  match g with NoOp | NoPreempt => unit | IrqSave | NoPreemptIrqSave => Z end.
Definition base_acquire (g : Guard) : Cpu → GState g * Cpu :=
  match g with
  | NoOp => λ c, (tt, c)
  | IrqSave => λ c, cpu_irq_save c
  | NoPreempt => λ c, (tt, guard_disable_preempt c)
  | NoPreemptIrqSave => λ c, cpu_irq_save (guard_disable_preempt c)
  end.
Definition base_release (g : Guard) : GState g → Cpu → Cpu :=
  match g with
  | NoOp => λ _ c, c
  | IrqSave => λ s c, cpu_irq_restore s c
  | NoPreempt => λ _ c, guard_enable_preempt c
  | NoPreemptIrqSave => λ s c, guard_enable_preempt (cpu_irq_restore s c)
  end.

Definition saves_irq (g : Guard) : bool := match g with IrqSave | NoPreemptIrqSave => true | _ => false end.
Definition stops_preempt (g : Guard) : bool := match g with NoPreempt | NoPreemptIrqSave => true | _ => false end.

Context `{HS : !IrqArchSpec}.

Definition cpu_irq (c : Cpu) : bool := irq_enabled (irq_reg c).

Lemma acquire_irq g c : cpu_irq (base_acquire g c).2 = (cpu_irq c && negb (saves_irq g))%bool.
Proof.
  destruct g; cbn [base_acquire saves_irq negb]; rewrite ?andb_true_r, ?andb_false_r; try done; unfold cpu_irq_save;
    cbn [irq_reg preempt_count guard_disable_preempt].
  - pose proof (irq_save_off (irq_reg c)) as Ho. by destruct (irq_save (irq_reg c)).
  - pose proof (irq_save_off (irq_reg c)) as Ho. by destruct (irq_save (irq_reg c)).
Qed.

Lemma acquire_count g c :
  preempt_count (base_acquire g c).2 = if stops_preempt g then add64 (preempt_count c) 1 else preempt_count c.
Proof. destruct g; cbn; try done; unfold cpu_irq_save; by destruct (irq_save _). Qed.

(** Interrupts are as they were at [base_acquire], if they are off at [base_release] where the guard
    switched them off. *)
Lemma release_irq g c c' :
  cpu_irq c' = cpu_irq (base_acquire g c).2 → cpu_irq (base_release g (base_acquire g c).1 c') = cpu_irq c.
Proof.
  intros Hc. rewrite acquire_irq in Hc. destruct g; cbn [saves_irq negb] in Hc;
    rewrite ?andb_true_r, ?andb_false_r in Hc; cbn [base_acquire base_release]; try done; unfold cpu_irq_save, cpu_irq in *;
    cbn [irq_reg guard_disable_preempt].
  - pose proof (irq_restore_saved (irq_reg c) (irq_reg c') Hc). by destruct (irq_save (irq_reg c)).
  - pose proof (irq_restore_saved (irq_reg c) (irq_reg c') Hc). by destruct (irq_save (irq_reg c)).
Qed.

Lemma release_count g s c :
  preempt_count (base_release g s c) = if stops_preempt g then sub64 (preempt_count c) 1 else preempt_count c.
Proof. by destruct g. Qed.

(** ** Nested guards

    The guards that are alive on a processor, the last one first, each with what it saved.
    They are dropped in the opposite order of their creation. *)

Definition Held : Type := {g : Guard & GState g}.

Inductive guards_reach (c0 : Cpu) : Cpu → list Held → Prop :=
| guards_none : guards_reach c0 c0 []
| guards_new c st g : guards_reach c0 c st → guards_reach c0 (base_acquire g c).2 (existT g (base_acquire g c).1 :: st)
| guards_drop c st g s : guards_reach c0 c (existT g s :: st) → guards_reach c0 (base_release g s c) st.

(** What the guards on the stack make of the initial state. *)
Definition kind (h : Held) : Guard := projT1 h.
Definition irq_under (on : bool) (st : list Held) : bool := (on && negb (existsb (λ h, saves_irq (kind h)) st))%bool.
Definition count_under (n : Z) (st : list Held) : Z :=
  wrap 64 (n + Z.of_nat (length (filter (λ h, stops_preempt (kind h) = true) st))).

(** Every guard on the stack saved the state that the guards below it left. *)
Fixpoint stack_ok (c0 : Cpu) (st : list Held) : Prop :=
  match st with
  | [] => True
  | existT g s :: st => stack_ok c0 st ∧ ∃ c, cpu_irq c = irq_under (cpu_irq c0) st ∧ s = (base_acquire g c).1
  end.

Lemma irq_under_cons on g s st :
  irq_under on (existT g s :: st) = (irq_under on st && negb (saves_irq g))%bool.
Proof. unfold irq_under. cbn. rewrite negb_orb, <-andb_assoc. f_equal. apply andb_comm. Qed.

Lemma count_under_cons n g s st :
  count_under n (existT g s :: st) = if stops_preempt g then add64 (count_under n st) 1 else count_under n st.
Proof.
  unfold count_under. destruct (stops_preempt g) eqn:Hg.
  - rewrite filter_cons_True by done. unfold add64, wrap. rewrite Z.add_mod_idemp_l by done. f_equal. cbn [length]. lia.
  - rewrite filter_cons_False; [done|]. unfold kind. cbn. by rewrite Hg.
Qed.

Lemma guards_reach_inv c0 c st :
  in_u64 (preempt_count c0) → guards_reach c0 c st →
  stack_ok c0 st ∧ cpu_irq c = irq_under (cpu_irq c0) st ∧ preempt_count c = count_under (preempt_count c0) st.
Proof.
  intros H0. induction 1 as [|c st g _ (Hs&Hi&Hc)|c st g s _ (Hs&Hi&Hc)].
  - split_and!; [done|unfold irq_under; cbn; by rewrite andb_true_r|].
    unfold count_under. cbn. rewrite Z.add_0_r. symmetry. by apply wrap_small.
  - split_and!; [split; [done|by exists c]|by rewrite acquire_irq, irq_under_cons, Hi|].
    by rewrite acquire_count, count_under_cons, Hc.
  - rewrite irq_under_cons in Hi. rewrite count_under_cons in Hc. destruct Hs as (Hs&d&Hd&->). split_and!; [done| |].
    + rewrite <-Hd. apply release_irq. by rewrite acquire_irq, Hi, Hd.
    + rewrite release_count, Hc. destruct (stops_preempt g); [|done].
      unfold count_under, add64, sub64, wrap. rewrite Z.add_mod_idemp_l, Zminus_mod_idemp_l by done. f_equal. lia.
Qed.

(** Guards nest.  Whatever guards are alive, interrupts are on exactly when they were on
    at first and no guard that saves them is alive, and the preemption count has one more
    for each guard that stops preemption; so when all guards are gone, both are as they
    were. *)
Theorem guards_nest c0 c st :
  in_u64 (preempt_count c0) → guards_reach c0 c st →
  cpu_irq c = (cpu_irq c0 && negb (existsb (λ h, saves_irq (kind h)) st))%bool ∧
  preempt_count c =
    wrap 64 (preempt_count c0 + Z.of_nat (length (filter (λ h, stops_preempt (kind h) = true) st))) ∧
  (st = [] → cpu_irq c = cpu_irq c0 ∧ preempt_count c = preempt_count c0).
Proof.
  intros H0 Hr. destruct (guards_reach_inv c0 c st H0 Hr) as (_&Hi&Hc). split_and!; [done..|]. intros ->.
  rewrite Hi, Hc. unfold irq_under, count_under. cbn. rewrite andb_true_r, Z.add_0_r. split; [done|]. by apply wrap_small.
Qed.
End guards.

(** ** [BaseSpinLock]

    One lock and the processors that use it, at the granularity of its atomic actions. *)

Section lock.
Context `{HI : IrqArch} (G : Guard).

(** Where a processor is: outside, before the exchange of [lock], in the loop that waits
    for the lock to look free, holding the lock, or between the store of the drop and
    [base_release]. *)
Inductive SPoint : Set :=
| SOut
| STrying (s : GState G)
| SWaiting (s : GState G)
| SHolding (s : GState G)
| SReleasing (s : GState G).

Record SpinLock : Type := { sl_lock : bool; sl_cpu : positive → Cpu; sl_point : positive → SPoint }.


Definition spin_new (cpus : positive → Cpu) : SpinLock := {| sl_lock := false; sl_cpu := cpus; sl_point _ := SOut |}.
Definition spin_is_locked (l : SpinLock) : bool := sl_lock l.

(** The processor [p] moves on. *)
Definition spin_set (l : SpinLock) (p : positive) (flag : bool) (c : Cpu) (at_ : SPoint) : SpinLock :=
  {| sl_lock := flag; sl_cpu := <[p := c]> (sl_cpu l); sl_point := <[p := at_]> (sl_point l) |}.

(** [lock]: the guard, the weak exchange, which can fail spuriously, and the inner loop. *)
Definition spin_lock_enter (p : positive) (l : SpinLock) : SpinLock :=
  let '(s, c) := base_acquire G (sl_cpu l p) in spin_set l p (sl_lock l) c (STrying s).
Definition spin_lock_cas (p : positive) (spurious : bool) (s : GState G) (l : SpinLock) : SpinLock :=
  if (negb (sl_lock l) && negb spurious)%bool then spin_set l p true (sl_cpu l p) (SHolding s)
  else spin_set l p (sl_lock l) (sl_cpu l p) (SWaiting s).
Definition spin_lock_wait (p : positive) (s : GState G) (l : SpinLock) : SpinLock :=
  if spin_is_locked l then l else spin_set l p (sl_lock l) (sl_cpu l p) (STrying s).

(** [try_lock] returns without [base_release] when the lock is taken. *)
Definition spin_try_lock (p : positive) (l : SpinLock) : bool * SpinLock :=
  let '(s, c) := base_acquire G (sl_cpu l p) in
  let is_unlocked := negb (sl_lock l) in
  if is_unlocked then (true, spin_set l p true c (SHolding s))
  else (false, spin_set l p (sl_lock l) c SOut).

Definition spin_force_unlock (l : SpinLock) : SpinLock :=
  {| sl_lock := false; sl_cpu := sl_cpu l; sl_point := sl_point l |}.

(** The drop of [BaseSpinLockGuard]. *)
Definition spin_drop_store (p : positive) (s : GState G) (l : SpinLock) : SpinLock :=
  spin_set l p false (sl_cpu l p) (SReleasing s).
Definition spin_drop_release (p : positive) (s : GState G) (l : SpinLock) : SpinLock :=
  spin_set l p (sl_lock l) (base_release G s (sl_cpu l p)) SOut.

(** A step of a processor.  Outside the lock it may change its own state. *)
Inductive spin_step (l : SpinLock) : SpinLock → Prop :=
| spin_step_enter p : sl_point l p = SOut → spin_step l (spin_lock_enter p l)
| spin_step_cas p b s : sl_point l p = STrying s → spin_step l (spin_lock_cas p b s l)
| spin_step_wait p s : sl_point l p = SWaiting s → spin_step l (spin_lock_wait p s l)
| spin_step_try p : sl_point l p = SOut → spin_step l (spin_try_lock p l).2
| spin_step_store p s : sl_point l p = SHolding s → spin_step l (spin_drop_store p s l)
| spin_step_release p s : sl_point l p = SReleasing s → spin_step l (spin_drop_release p s l)
| spin_step_cpu p c : sl_point l p = SOut → spin_step l (spin_set l p (sl_lock l) c SOut).

Inductive spin_reach : SpinLock → Prop :=
| spin_reach_new cpus : spin_reach (spin_new cpus)
| spin_reach_step l l' : spin_reach l → spin_step l l' → spin_reach l'.
End lock.

Section lock_props.
Context `{HI : IrqArch} `{HS : !IrqArchSpec} (G : Guard).
Implicit Types (l : SpinLock G) (p q : positive) (s : GState G).

Definition holding l p : Prop := ∃ s, sl_point G l p = SHolding G s.

(** A processor inside the lock's functions has the interrupts its guard leaves it. *)
Definition inside (at_ : SPoint G) : bool := match at_ with SOut _ => false | _ => true end.

Record spin_inv l : Prop := {
  si_flag : sl_lock G l = true ↔ ∃ p, holding l p;
  si_one p q : holding l p → holding l q → p = q;
  si_irq p : inside (sl_point G l p) = true → saves_irq G = true → cpu_irq (sl_cpu G l p) = false;
}.

Lemma holding_set l p flag c at_ q :
  holding (spin_set G l p flag c at_) q ↔ (q = p ∧ ∃ s, at_ = SHolding G s) ∨ (q ≠ p ∧ holding l q).
Proof.
  unfold holding, spin_set. cbn. destruct (decide (q = p)) as [->|Hne].
  - rewrite fn_lookup_insert. naive_solver.
  - rewrite fn_lookup_insert_ne by done. naive_solver.
Qed.

Lemma irq_set l p flag c at_ :
  (∀ q, inside (sl_point G l q) = true → saves_irq G = true → cpu_irq (sl_cpu G l q) = false) →
  (inside at_ = true → saves_irq G = true → cpu_irq c = false) →
  ∀ q, inside (sl_point G (spin_set G l p flag c at_) q) = true → saves_irq G = true →
    cpu_irq (sl_cpu G (spin_set G l p flag c at_) q) = false.
Proof.
  intros Hl Hc q. unfold spin_set. cbn. destruct (decide (q = p)) as [->|Hne].
  - by rewrite !fn_lookup_insert.
  - rewrite !fn_lookup_insert_ne by done. apply Hl.
Qed.

(** A processor moves on without taking or giving up the lock. *)
Lemma spin_inv_move l p c at_ :
  spin_inv l → ¬ holding l p → (∀ s, at_ ≠ SHolding G s) →
  (inside at_ = true → saves_irq G = true → cpu_irq c = false) →
  spin_inv (spin_set G l p (sl_lock G l) c at_).
Proof.
  intros [Hf H1 Hi] Hp Hat Hc. split; [| |by apply irq_set].
  - cbn. rewrite Hf. split.
    + intros [q Hq]. exists q. rewrite holding_set. right. split; [|done]. by intros ->.
    + intros [q [[-> [s ?]]|[_ Hq]]%holding_set]; [naive_solver|eauto].
  - intros q q' [[-> [s ?]]|[_ Hq]]%holding_set; [naive_solver|].
    intros [[-> [s ?]]|[_ Hq']]%holding_set; [naive_solver|eauto].
Qed.

(** A processor takes the lock while it is free. *)
Lemma spin_inv_take l p c s :
  spin_inv l → sl_lock G l = false → (saves_irq G = true → cpu_irq c = false) →
  spin_inv (spin_set G l p true c (SHolding G s)).
Proof.
  intros [Hf H1 Hi] Hl Hc. assert (∀ q, ¬ holding l q) as Hno.
  { intros q Hq. assert (sl_lock G l = true) by (apply Hf; eauto). congruence. }
  split; [| |by apply irq_set].
  - cbn. split; [|done]. intros _. exists p. rewrite holding_set. left. eauto.
  - intros q q' [[-> _]|[_ Hq]]%holding_set [[-> _]|[_ Hq']]%holding_set; naive_solver.
Qed.

Lemma acquire_off c : saves_irq G = true → cpu_irq (base_acquire G c).2 = false.
Proof. intros Hs. rewrite acquire_irq, Hs. apply andb_false_r. Qed.

Lemma spin_step_inv l l' : spin_inv l → spin_step G l l' → spin_inv l'.
Proof.
  intros HI0 Hst. pose proof (si_irq l HI0) as Hirq.
  destruct Hst as [p Hp|p b s Hp|p s Hp|p Hp|p s Hp|p s Hp|p c Hp]; pose proof (Hirq p) as Hip; rewrite Hp in Hip.
  - unfold spin_lock_enter. pose proof (acquire_off (sl_cpu G l p)) as Ho. destruct (base_acquire G (sl_cpu G l p)) as [s c].
    apply spin_inv_move; [done|intros [? ?]; congruence|done|done].
  - unfold spin_lock_cas. destruct (sl_lock G l) eqn:Hl; [|destruct b]; cbn [negb andb].
    + rewrite <-Hl. apply spin_inv_move; [done|intros [? ?]; congruence|done|naive_solver].
    + rewrite <-Hl. apply spin_inv_move; [done|intros [? ?]; congruence|done|naive_solver].
    + apply spin_inv_take; [done..|naive_solver].
  - unfold spin_lock_wait. destruct (spin_is_locked G l); [done|].
    apply spin_inv_move; [done|intros [? ?]; congruence|done|naive_solver].
  - unfold spin_try_lock. pose proof (acquire_off (sl_cpu G l p)) as Ho. destruct (base_acquire G (sl_cpu G l p)) as [s c].
    destruct (sl_lock G l) eqn:Hl; cbn [negb snd].
    + rewrite <-Hl. apply spin_inv_move; [done|intros [? ?]; congruence|done|done].
    + by apply spin_inv_take.
  - destruct HI0 as [Hf H1 Hi]. assert (∀ q, holding l q → q = p) as Hq by (intros q Hq; apply H1; [done|by exists s]).
    unfold spin_drop_store. split; [| |apply irq_set; [done|naive_solver]].
    + cbn. split; [done|]. intros [q [[-> [? ?]]|[Hne Hh]]%holding_set]; [done|naive_solver].
    + intros q q' [[-> [? ?]]|[Hne Hh]]%holding_set; naive_solver.
  - apply spin_inv_move; [done|intros [? ?]; congruence|done|done].
  - apply spin_inv_move; [done|intros [? ?]; congruence|done|done].
Qed.

Lemma spin_reach_inv l : spin_reach G l → spin_inv l.
Proof.
  induction 1 as [cpus|l l' _ IH Hst]; [|by eapply spin_step_inv]. split; cbn; [|by intros p q [? ?]|done].
  split; [done|]. by intros [p [? ?]].
Qed.

(** C30: The spin lock excludes.  In every interleaving of any number of processors at most
    one holds the lock, and the flag is set exactly while one does; with a guard that saves
    interrupts, they are off on every processor that waits for the lock or holds it; and
    when the flag is clear, a processor in [lock] gets the lock with its next exchange,
    unless that fails spuriously. *)
Theorem spin_lock_excludes l :
  spin_reach G l →
  (sl_lock G l = true ↔ ∃ p, holding l p) ∧ (∀ p q, holding l p → holding l q → p = q) ∧
  (∀ p, inside (sl_point G l p) = true → saves_irq G = true → cpu_irq (sl_cpu G l p) = false) ∧
  (∀ p s, sl_point G l p = STrying G s → sl_lock G l = false → holding (spin_lock_cas G p false s l) p).
Proof.
  intros HI0%spin_reach_inv. destruct HI0 as [Hf H1 Hi]. split_and!; [done..|].
  intros p s Hp Hl. unfold spin_lock_cas. rewrite Hl. cbn [negb andb]. rewrite holding_set. left. eauto.
Qed.

(** A [try_lock] that fails leaves its guard in force: the interrupts it switched off
    stay off and the preemption count it raised stays raised. *)
Theorem try_lock_leaks_guard l p :
  sl_lock G l = true → saves_irq G = true →
  (spin_try_lock G p l).1 = false ∧ cpu_irq (sl_cpu G (spin_try_lock G p l).2 p) = false ∧
  preempt_count (sl_cpu G (spin_try_lock G p l).2 p) =
    if stops_preempt G then add64 (preempt_count (sl_cpu G l p)) 1 else preempt_count (sl_cpu G l p).
Proof.
  intros Hl Hs. unfold spin_try_lock. pose proof (acquire_off (sl_cpu G l p) Hs) as Ho.
  pose proof (acquire_count G (sl_cpu G l p)) as Hc. destruct (base_acquire G (sl_cpu G l p)) as [s c]. rewrite Hl. cbn.
  by rewrite fn_lookup_insert.
Qed.
End lock_props.

(** ** Example runs *)

Section spin_examples.
Local Existing Instance x86_irq.
Local Existing Instance x86_irq_spec.

(** A processor with interrupts on. *)
Definition example_cpu : Cpu := {| irq_reg := 0x202; preempt_count := 0 |}.

(** Two guards, one in the other, and the inner one dropped. *)
Lemma guards_nest_witness :
  ∃ c st, guards_reach example_cpu c st ∧ map kind st = [NoPreemptIrqSave] ∧ cpu_irq c = false ∧ preempt_count c = 1.
Proof.
  pose (c1 := (base_acquire NoPreemptIrqSave example_cpu)). pose (c2 := base_acquire IrqSave c1.2).
  assert (guards_reach example_cpu (base_release IrqSave c2.1 c2.2) [existT NoPreemptIrqSave c1.1]) as Hr.
  { apply guards_drop, guards_new, guards_new, guards_none. }
  destruct (guards_nest example_cpu _ _ ltac:(done) Hr) as (Hi&Hc&_).
  eexists _, _. split; [exact Hr|]. rewrite Hi, Hc. split; [done|]. split; reflexivity.
Defined.

(** Two processors; the first holds the lock, the second waits for it. *)
Definition example_lock : SpinLock NoPreemptIrqSave :=
  let l := spin_lock_enter NoPreemptIrqSave 1 (spin_new NoPreemptIrqSave (λ _, example_cpu)) in
  let l := spin_lock_cas NoPreemptIrqSave 1 false 0x200 l in
  spin_lock_enter _ 2 l.

Lemma spin_lock_excludes_witness :
  sl_lock _ example_lock = true ∧ holding _ example_lock 1 ∧ ¬ holding _ example_lock 2 ∧
  cpu_irq (sl_cpu _ example_lock 2) = false.
Proof.
  assert (spin_reach NoPreemptIrqSave example_lock) as Hr.
  { apply (spin_reach_step _ (spin_lock_cas NoPreemptIrqSave 1 false 0x200 (spin_lock_enter NoPreemptIrqSave 1 (spin_new NoPreemptIrqSave (λ _, example_cpu))))).
    - apply (spin_reach_step _ (spin_lock_enter NoPreemptIrqSave 1 (spin_new NoPreemptIrqSave (λ _, example_cpu)))).
      + apply (spin_reach_step _ (spin_new NoPreemptIrqSave (λ _, example_cpu))); [constructor|by constructor].
      + by apply spin_step_cas.
    - by apply spin_step_enter. }
  destruct (spin_lock_excludes _ _ Hr) as (_&H1&Hi&_). assert (holding _ example_lock 1) as Hh by (by eexists).
  split_and!; [done|done|intros H2; by specialize (H1 1%positive 2%positive Hh H2)|by apply Hi].
Defined.

(** The second processor gives up, with interrupts and preemption off. *)
Lemma try_lock_leaks_guard_witness :
  cpu_irq (sl_cpu _ example_lock 3) = true ∧ (spin_try_lock _ 3 example_lock).1 = false ∧
  cpu_irq (sl_cpu _ (spin_try_lock _ 3 example_lock).2 3) = false.
Proof.
  destruct (try_lock_leaks_guard NoPreemptIrqSave example_lock 3 ltac:(done) ltac:(done)) as (Hf&Hi&_).
  split_and!; [reflexivity|done|done].
Defined.
End spin_examples.
