(* ===== verification/Ratio.v ===== *)
(** * Ratios ([crates/ratio])

    A ratio of two 32-bit numbers as a multiplier and a shift, with which clock ticks are
    converted without a division.  The multiplier is rounded, so the products are only
    approximate; how far off they can be is what is proved. *)

From Stdlib Require Import ZArith Lia.
From stdpp Require Import base decidable numbers list.
From S2P Require Import Prelude.

Local Open Scope Z_scope.

Record Ratio : Type := { numerator : Z; denominator : Z; mult : Z; shift : nat }.

Definition U32_MAX : Z := 2 ^ 32 - 1.

Definition Ratio_zero : Ratio := {| numerator := 0; denominator := 0; mult := 0; shift := 0 |}.

(** The multiplier for a shift. *)
Definition mult_for (n d : Z) (s : nat) : Z := add64 (shl64 n (Z.of_nat s)) (d / 2) / d.
(** The first loop: the greatest shift for which the multiplier fits. *)
Fixpoint find_shift (n d : Z) (s : nat) : Z * nat :=
  let m := mult_for n d s in
  match s with
  | O => (m, O)
  | S s' => if m <=? U32_MAX then (m, s) else find_shift n d s'
  end.
(** The second loop: cancel factors of two. *)
Fixpoint reduce (m : Z) (s : nat) : Z * nat :=
  match s with
  | O => (m, O)
  | S s' => if m mod 2 =? 0 then reduce (m / 2) s' else (m, s)
  end.
(** [None] is the panic. *)
Definition Ratio_new (n d : Z) : option Ratio :=
  if ((d =? 0) && negb (n =? 0))%bool then None
  else if n =? 0 then Some {| numerator := n; denominator := d; mult := 0; shift := 0 |}
  else
    let '(m, s) := find_shift n d 32 in
    let '(m, s) := reduce m s in
    Some {| numerator := n; denominator := d; mult := wrap 32 m; shift := s |}.
Definition inverse (r : Ratio) : option Ratio := Ratio_new (denominator r) (numerator r).

(** The products are computed in 128 bits. *)
Definition mul_trunc (r : Ratio) (v : Z) : Z :=
  wrap 64 (Z.shiftr (wrap 128 (v * mult r)) (Z.of_nat (shift r))).
Definition mul_round (r : Ratio) (v : Z) : Z :=
  wrap 64 (Z.shiftr (wrap 128 (v * mult r + Z.shiftr (Z.shiftl 1 (Z.of_nat (shift r))) 1)) (Z.of_nat (shift r))).

(** ** The multiplier *)

Definition in_u32 (x : Z) : Prop := 0 ≤ x < 2 ^ 32.

(** The error of [m / 2^s] as an approximation of [n / d] is at most half a unit of the
    last place. *)
Definition approximates (n d m : Z) (s : nat) : Prop := 2 * Z.abs (m * d - n * 2 ^ Z.of_nat s) ≤ d.

Lemma round_div a d : 0 < d → 2 * Z.abs ((a + d / 2) / d * d - a) ≤ d.
Proof. intros Hd. pose proof (Z.div_mod (a + d / 2) d). pose proof (Z.mod_pos_bound (a + d / 2) d). Z.div_mod_to_equations. lia. Qed.

Lemma mult_for_eq n d s :
  in_u32 n → in_u32 d → (s ≤ 32)%nat → mult_for n d s = (n * 2 ^ Z.of_nat s + d / 2) / d.
Proof.
  intros Hn Hd Hs. unfold mult_for, shl64, in_u32 in *. rewrite Z.shiftl_mul_pow2 by lia.
  assert (0 < 2 ^ Z.of_nat s ≤ 2 ^ 32) by (split; [lia|apply Z.pow_le_mono_r; lia]).
  assert (0 ≤ d / 2 < 2 ^ 31) by (split; [|]; Z.div_mod_to_equations; lia).
  rewrite wrap_small by nia. by rewrite add64_small by (unfold in_u64; nia).
Qed.

Lemma find_shift_ok n d s m s' :
  in_u32 n → in_u32 d → 0 < d → (s ≤ 32)%nat → find_shift n d s = (m, s') →
  (s' ≤ s)%nat ∧ in_u32 m ∧ approximates n d m s'.
Proof.
  intros Hn Hd H0. assert (∀ k, (k ≤ 32)%nat → 0 ≤ mult_for n d k ∧ approximates n d (mult_for n d k) k) as Hm.
  { intros k Hk. rewrite mult_for_eq by done. split; [|by apply round_div].
    unfold in_u32 in *. apply Z.div_pos; [|done]. Z.div_mod_to_equations. nia. }
  induction s as [|s IH]; intros Hs; cbn [find_shift].
  - intros [= <- <-]. destruct (Hm 0%nat) as [Hp Ha]; [lia|]. split_and!; [done| |done]. split; [done|].
    unfold approximates in Ha. change (Z.of_nat 0) with 0 in Ha. unfold in_u32 in *. nia.
  - destruct (_ <=? _) eqn:E; [|intros He; destruct IH as (?&?&?); [lia|done|]; split_and!; [lia|done|done]].
    intros [= <- <-]. bool_to_prop. destruct (Hm (S s)) as [Hp Ha]; [done|]. split_and!; [done| |done].
    split; [done|]. unfold U32_MAX in *. lia.
Qed.

Lemma reduce_ok n d m s m' s' :
  in_u32 m → approximates n d m s → reduce m s = (m', s') → (s' ≤ s)%nat ∧ in_u32 m' ∧ approximates n d m' s'.
Proof.
  revert m. induction s as [|s IH]; intros m Hm Ha; cbn [reduce]; [by intros [= <- <-]|].
  destruct (_ =? _) eqn:E; [|by intros [= <- <-]]. bool_to_prop. intros He.
  destruct (IH (m / 2)) as (?&?&?); [| |done|split_and!; [lia|done|done]].
  - unfold in_u32 in *. Z.div_mod_to_equations. lia.
  - unfold approximates in *. rewrite Nat2Z.inj_succ, Z.pow_succ_r in Ha by lia. Z.div_mod_to_equations. lia.
Qed.

Lemma Ratio_new_ok n d :
  in_u32 n → in_u32 d → d ≠ 0 →
  ∃ r, Ratio_new n d = Some r ∧ numerator r = n ∧ denominator r = d ∧ in_u32 (mult r) ∧ (shift r ≤ 32)%nat ∧
    approximates n d (mult r) (shift r).
Proof.
  intros Hn Hd H0. unfold Ratio_new. rewrite (proj2 (Z.eqb_neq d 0)) by done. cbn [andb].
  destruct (n =? 0) eqn:E; bool_to_prop.
  - eexists. split; [reflexivity|]. cbn. subst. unfold approximates, in_u32 in *.
    split_and!; try done; lia.
  - destruct (find_shift n d 32) as [m s] eqn:Ef. destruct (find_shift_ok n d 32 m s) as (Hs&Hm&Ha); [done..|unfold in_u32 in *; lia|done|done|].
    destruct (reduce m s) as [m' s'] eqn:Er. destruct (reduce_ok n d m s m' s' Hm Ha Er) as (Hs'&Hm'&Ha').
    eexists. split; [reflexivity|]. cbn. rewrite wrap_small by (unfold in_u32 in *; lia). split_and!; try done. lia.
Qed.

(** ** The products *)

Lemma mul_trunc_eq r v : in_u64 v → in_u32 (mult r) → mul_trunc r v = wrap 64 (v * mult r / 2 ^ Z.of_nat (shift r)).
Proof.
  intros Hv Hm. unfold mul_trunc, in_u64, in_u32 in *. rewrite (wrap_small 128) by nia. by rewrite Z.shiftr_div_pow2 by lia.
Qed.

Lemma mul_round_eq r v :
  in_u64 v → in_u32 (mult r) → (shift r ≤ 32)%nat →
  mul_round r v = wrap 64 ((v * mult r + 2 ^ Z.of_nat (shift r) / 2) / 2 ^ Z.of_nat (shift r)).
Proof.
  intros Hv Hm Hs. unfold mul_round, in_u64, in_u32 in *.
  rewrite Z.shiftl_1_l, (Z.shiftr_div_pow2 (2 ^ _) 1) by lia. change (2 ^ 1) with 2.
  assert (0 < 2 ^ Z.of_nat (shift r) ≤ 2 ^ 32) by (split; [lia|apply Z.pow_le_mono_r; lia]).
  rewrite (wrap_small 128); [by rewrite Z.shiftr_div_pow2 by lia|]. Z.div_mod_to_equations. nia.
Qed.

(** The product with the approximation is off by at most [v / 2^(s+1)]. *)
Lemma product_error n d m s v :
  0 ≤ v → approximates n d m s → 2 * Z.abs (v * m * d - v * n * 2 ^ Z.of_nat s) ≤ v * d.
Proof.
  unfold approximates. intros Hv Ha. replace (v * m * d - v * n * 2 ^ Z.of_nat s) with (v * (m * d - n * 2 ^ Z.of_nat s)) by lia.
  rewrite Z.abs_mul, (Z.abs_eq v) by done. nia.
Qed.

(** How far rounding moves a quotient. *)
Lemma trunc_bounds a q : 0 < q → a - q < a / q * q ≤ a.
Proof. intros. Z.div_mod_to_equations. lia. Qed.

Lemma trunc_close n d m s v :
  0 ≤ v → 0 < d → approximates n d m s → let t := 2 ^ (Z.of_nat s + 1) in
  v * n * t - v * d - d * t < v * m / 2 ^ Z.of_nat s * d * t ≤ v * n * t + v * d.
Proof.
  intros Hv Hd Ha. pose proof (product_error n d m s v Hv Ha) as He. cbv zeta.
  rewrite Z.pow_add_r by lia. change (2 ^ 1) with 2. set (q := 2 ^ Z.of_nat s) in *.
  assert (0 < q) as Hq by (unfold q; lia). pose proof (trunc_bounds (v * m) q Hq) as Ht.
  set (k := v * m / q) in *. assert (v * m * d - q * d < k * q * d ≤ v * m * d) by nia.
  replace (v * n * (q * 2)) with (2 * (v * n * q)) by lia. replace (k * d * (q * 2)) with (2 * (k * q * d)) by lia. lia.
Qed.

Lemma round_close n d m s v :
  0 ≤ v → 0 < d → approximates n d m s → let t := 2 ^ (Z.of_nat s + 1) in
  2 * Z.abs ((v * m + 2 ^ Z.of_nat s / 2) / 2 ^ Z.of_nat s * d * t - v * n * t) ≤ 2 * v * d + d * t.
Proof.
  intros Hv Hd Ha. pose proof (product_error n d m s v Hv Ha) as He. cbv zeta.
  rewrite Z.pow_add_r by lia. change (2 ^ 1) with 2. set (q := 2 ^ Z.of_nat s) in *.
  assert (0 < q) as Hq by (unfold q; lia). pose proof (round_div (v * m) q Hq) as Ht.
  set (k := (v * m + q / 2) / q) in *.
  assert (2 * Z.abs (k * q * d - v * m * d) ≤ q * d) as Hk.
  { replace (k * q * d - v * m * d) with ((k * q - v * m) * d) by lia. rewrite Z.abs_mul, (Z.abs_eq d) by lia. nia. }
  replace (v * n * (q * 2)) with (2 * (v * n * q)) by lia. replace (k * d * (q * 2)) with (2 * (k * q * d)) by lia. lia.
Qed.

(** C35: A ratio is accurate to the last place.  For 32-bit numbers with a denominator, [new]
    does not panic; its multiplier fits 32 bits and approximates the quotient to half a
    unit of [2^-shift]; as long as they fit 64 bits, [mul_trunc] is below the true product
    by less than one plus [v / 2^(shift+1)] and above it by at most [v / 2^(shift+1)], and
    [mul_round] is within a half plus [v / 2^(shift+1)] of it; [mul_trunc] is the exact
    floor when the multiplier is exact. *)
Theorem ratio_accuracy n d v :
  in_u32 n → in_u32 d → d ≠ 0 → in_u64 v →
  ∃ r, Ratio_new n d = Some r ∧ in_u32 (mult r) ∧ (shift r ≤ 32)%nat ∧ approximates n d (mult r) (shift r) ∧
    let t := 2 ^ (Z.of_nat (shift r) + 1) in
    (v * mult r / 2 ^ Z.of_nat (shift r) < 2 ^ 64 →
       v * n * t - v * d - d * t < mul_trunc r v * d * t ≤ v * n * t + v * d ∧
       (mult r * d = n * 2 ^ Z.of_nat (shift r) → mul_trunc r v = v * n / d)) ∧
    ((v * mult r + 2 ^ Z.of_nat (shift r) / 2) / 2 ^ Z.of_nat (shift r) < 2 ^ 64 →
       2 * Z.abs (mul_round r v * d * t - v * n * t) ≤ 2 * v * d + d * t).
Proof.
  intros Hn Hd H0 Hv. destruct (Ratio_new_ok n d Hn Hd H0) as (r&Hr&_&_&Hm&Hs&Ha). exists r.
  assert (0 < d) by (unfold in_u32 in Hd; lia). assert (0 ≤ v) by (unfold in_u64 in Hv; lia).
  do 4 (split; [done|]). rewrite mul_trunc_eq, mul_round_eq by done. cbv zeta.
  assert (0 < 2 ^ Z.of_nat (shift r)) as Hq by lia. assert (0 ≤ v * mult r) by (unfold in_u32 in Hm; nia). split.
  - intros Hlt. rewrite wrap_small by (split; [apply Z.div_pos; lia|done]). split; [by apply trunc_close|].
    intros Hex. rewrite <-(Z.div_mul_cancel_r (v * mult r) _ d), <-(Z.div_mul_cancel_r (v * n) d (2 ^ Z.of_nat (shift r))) by lia.
    f_equal; [|lia]. rewrite <-!Z.mul_assoc, Hex. lia.
  - intros Hlt. rewrite wrap_small; [by apply round_close|]. split; [|done]. apply Z.div_pos; [|done].
    Z.div_mod_to_equations. lia.
Qed.

(** The ratio of nanoseconds to ticks of a timer of 62.5 MHz, which is exact; and a third
    of three, which is not. *)
Lemma ratio_accuracy_witness :
  (∃ r, Ratio_new 1000000000 62500000 = Some r ∧ mul_trunc r 12345 = 197520) ∧
  ∃ r, Ratio_new 1 3 = Some r ∧ mul_trunc r 3 = 0 ∧ mul_round r 3 = 1.
Proof.
  split.
  - destruct (ratio_accuracy 1000000000 62500000 12345) as (r&Hr&_&_&_&Ht&_); [done..|].
    exists r. split; [done|]. vm_compute in Hr. injection Hr as <-. apply Ht; reflexivity.
  - eexists. split; [reflexivity|]. split; reflexivity.
Defined.
