(* ===== verification/FlattenObjects.v ===== *)
(** * Numbered objects and file descriptors
      ([crates/flatten_objects], [api/arceos_posix_api/src/imp/fd_ops.rs])

    The container keeps objects in an array, with a bitmap of the numbers in use.
    The bitmap is third-party code, given by its operations and their documented
    behaviour.  The file descriptor table is such a container of references to open
    files.  The container refines a finite map from numbers to objects. *)

From Stdlib Require Import ZArith Lia.
From stdpp Require Import base decidable numbers gmap list.
From S2P Require Import Prelude LinkedList.

Local Open Scope Z_scope.

(** ** The bitmap ([bitmaps::Bitmap<1024>]) *)

Class Bitmap (B : Type) : Type := {
  bm_zero : B;
  bm_get : Z → B → bool;
  bm_set : Z → bool → B → B;
  bm_first_false_index : B → option Z;
}.

Class BitmapSpec (B : Type) `{Bitmap B} : Prop := {
  bm_zero_spec i : 0 ≤ i < 1024 → bm_get i bm_zero = false;
  bm_set_eq i v b : 0 ≤ i < 1024 → bm_get i (bm_set i v b) = v;
  bm_set_ne i j v b : 0 ≤ i < 1024 → 0 ≤ j < 1024 → i ≠ j → bm_get j (bm_set i v b) = bm_get j b;
  bm_first_false_some b i :
    bm_first_false_index b = Some i →
    0 ≤ i < 1024 ∧ bm_get i b = false ∧ ∀ j, 0 ≤ j < i → bm_get j b = true;
  bm_first_false_none b : bm_first_false_index b = None → ∀ j, 0 ≤ j < 1024 → bm_get j b = true;
}.

(** ** [FlattenObjects] *)

(** An entry of the array that was never written is [None]. *)
Record FlattenObjects (T B : Type) : Type := { objects : list (option T); id_bitmap : B; count : Z }.
Arguments objects {T B}.
Arguments id_bitmap {T B}.
Arguments count {T B}.

Section flatten.
Context {T B : Type} `{Bitmap B} (CAP : Z).
Local Abbreviation FO := (FlattenObjects T B).
Local Abbreviation OM := (M FO NoError).

(** [new]; the assertion fails when the container is too large. *)
Definition fo_new : res NoError FO :=
  if CAP <=? 1024 then Ok {| objects := replicate (Z.to_nat CAP) None; id_bitmap := bm_zero; count := 0 |}
  else Panic.

Definition is_assigned (id : Z) (s : FO) : bool := ((id <? CAP) && bm_get id (id_bitmap s))%bool.

(** Access to the array: an index out of range panics, and so does the model where the
    code would read an entry that was never written. *)
Definition read_object (id : Z) : OM T :=
  s ← get_state; x ← unwrap (objects s !! Z.to_nat id); unwrap x.
Definition write_object (id : Z) (value : T) : OM unit :=
  s ← get_state;
  _ ← unwrap (objects s !! Z.to_nat id);
  put_state {| objects := <[Z.to_nat id := Some value]> (objects s); id_bitmap := id_bitmap s;
               count := count s |}.
Definition set_bit (id : Z) (v : bool) : OM unit :=
  modify (λ s, {| objects := objects s; id_bitmap := bm_set id v (id_bitmap s); count := count s |}).
Definition set_count (f : Z → Z) : OM unit :=
  modify (λ s, {| objects := objects s; id_bitmap := id_bitmap s; count := f (count s) |}).

Definition fo_get (id : Z) : OM (option T) :=
  s ← get_state; if is_assigned id s then v ← read_object id; mret (Some v) else mret None.
(** [get_mut], with what is done to the object. *)
Definition fo_get_mut (id : Z) (f : T → T) : OM bool :=
  s ← get_state;
  if is_assigned id s then v ← read_object id; _ ← write_object id (f v); mret true else mret false.
Definition fo_add (value : T) : OM (option Z) :=
  s ← get_state;
  match bm_first_false_index (id_bitmap s) with
  | None => mret None
  | Some id =>
      if id <? CAP then
        _ ← set_count (λ c, add64 c 1); _ ← set_bit id true; _ ← write_object id value; mret (Some id)
      else mret None
  end.
Definition fo_add_at (id : Z) (value : T) : OM (option Z) :=
  s ← get_state;
  if is_assigned id s then mret None
  else
    _ ← set_count (λ c, add64 c 1); _ ← set_bit id true; _ ← write_object id value; mret (Some id).
Definition fo_remove (id : Z) : OM (option T) :=
  s ← get_state;
  if is_assigned id s then
    _ ← set_bit id false; _ ← set_count (λ c, sub64 c 1); v ← read_object id; mret (Some v)
  else mret None.
End flatten.

(** ** File descriptors ([fd_ops.rs]) *)

(** An error is its number. *)
Definition EPERM : Z := 1.
Definition EBADF : Z := 9.
Definition EFAULT : Z := 14.
Definition EMFILE : Z := 24.

Definition AX_FILE_LIMIT : Z := 1024.
Definition F_DUPFD : Z := 0.
Definition F_SETFL : Z := 4.
Definition F_DUPFD_CLOEXEC : Z := 1030.
Definition O_NONBLOCK : Z := 0x800.

Section fd_ops.
Context {F B : Type} `{Bitmap B}.
(** [FileLike::set_nonblocking] of an open file. *)
Context (set_nonblocking : F → bool → res Z unit).
Local Abbreviation FdTable := (FlattenObjects F B).
Local Abbreviation FdM := (M FdTable Z).

(** The operations of the container do not fail; [fd as usize] extends the sign. *)
Definition on_table {A} (m : M FdTable NoError A) : FdM A := λ s,
  match m s with
  | (Ok a, s') => (Ok a, s')
  | (Err e, s') => match e with end
  | (Panic, s') => (Panic, s')
  | (OutOfFuel, s') => (OutOfFuel, s')
  end.
Definition as_usize (fd : Z) : Z := wrap 64 fd.
Definition ok_or_errno {A} (e : Z) (o : option A) : FdM A :=
  match o with Some a => mret a | None => throw e end.

(** [FD_TABLE] with the standard files. *)
Definition fd_table_new (stdin stdout stderr : F) : res Z FdTable :=
  match fo_new AX_FILE_LIMIT with
  | Ok t =>
      ((r ← on_table (fo_add_at AX_FILE_LIMIT 0 stdin); _ ← unwrap r;
        r ← on_table (fo_add_at AX_FILE_LIMIT 1 stdout); _ ← unwrap r;
        r ← on_table (fo_add_at AX_FILE_LIMIT 2 stderr); _ ← unwrap r;
        get_state) t).1
  | _ => Panic
  end.

Definition get_file_like (fd : Z) : FdM F :=
  r ← on_table (fo_get AX_FILE_LIMIT (as_usize fd)); ok_or_errno EBADF r.
Definition add_file_like (f : F) : FdM Z :=
  r ← on_table (fo_add AX_FILE_LIMIT f); ok_or_errno EMFILE r.
Definition close_file_like (fd : Z) : FdM unit :=
  r ← on_table (fo_remove AX_FILE_LIMIT (as_usize fd)); _ ← ok_or_errno EBADF r; mret tt.

(** [syscall_body!]: an error is returned as a negative number. *)
Definition syscall_body (m : FdM Z) : M FdTable NoError Z := λ s,
  match m s with
  | (Ok v, s') => (Ok v, s')
  | (Err e, s') => (Ok (- e), s')
  | (Panic, s') => (Panic, s')
  | (OutOfFuel, s') => (OutOfFuel, s')
  end.

Definition sys_close (fd : Z) : M FdTable NoError Z :=
  if ((0 <=? fd) && (fd <=? 2))%bool then mret 0
  else syscall_body (_ ← close_file_like fd; mret 0).
Definition dup_fd (old_fd : Z) : FdM Z := f ← get_file_like old_fd; add_file_like f.
Definition sys_dup (old_fd : Z) : M FdTable NoError Z := syscall_body (dup_fd old_fd).
Definition sys_fcntl (fd cmd arg : Z) : M FdTable NoError Z :=
  syscall_body
    (let cmd := wrap 32 cmd in
     if ((cmd =? F_DUPFD) || (cmd =? F_DUPFD_CLOEXEC))%bool then dup_fd fd
     else if cmd =? F_SETFL then
       if ((fd =? 0) || (fd =? 1) || (fd =? 2))%bool then mret 0
       else
         f ← get_file_like fd;
         match set_nonblocking f (0 <? Z.land arg O_NONBLOCK) with
         | Ok _ => mret 0
         | Err e => throw e
         | Panic => panic
         | OutOfFuel => out_of_fuel
         end
     else mret 0).
Definition F_GETFD : Z := 1.
Definition sys_dup2 (old_fd new_fd : Z) : M FdTable NoError Z :=
  syscall_body
    (if old_fd =? new_fd then
       r ← on_table (sys_fcntl old_fd F_GETFD 0); if 0 <=? r then mret old_fd else mret r
     else if AX_FILE_LIMIT <=? as_usize new_fd then throw EBADF
     else
       f ← get_file_like old_fd;
       r ← on_table (fo_add_at AX_FILE_LIMIT (as_usize new_fd) f);
       _ ← ok_or_errno EMFILE r;
       mret new_fd).
End fd_ops.

(** ** Refinement of a finite map *)

Section refinement.
Context {T B : Type} `{BM : Bitmap B} `{BMS : !BitmapSpec B} (CAP : Z).
Local Abbreviation FO := (FlattenObjects T B).

(** The container holds the objects of the map. *)
Record fo_rep (s : FO) (m : gmap Z T) : Prop := {
  fr_cap : 0 ≤ CAP ≤ 1024;
  fr_length : Z.of_nat (length (objects s)) = CAP;
  fr_count : count s = Z.of_nat (size m);
  fr_bits id : 0 ≤ id < 1024 → bm_get id (id_bitmap s) = true ↔ is_Some (m !! id);
  fr_object id v : m !! id = Some v → 0 ≤ id < CAP ∧ objects s !! Z.to_nat id = Some (Some v);
}.

Lemma fo_rep_new s : 0 ≤ CAP → fo_new CAP = Ok s → fo_rep s ∅.
Proof.
  unfold fo_new. intros H0. destruct (CAP <=? 1024) eqn:E; bool_to_prop; [|done]. intros [= <-].
  split; cbn; [lia|rewrite length_replicate; lia|done| |by intros id v ?%lookup_empty_Some].
  intros id Hid. rewrite bm_zero_spec by done. rewrite lookup_empty. split; [done|by intros []].
Qed.

Lemma is_assigned_spec s m id : fo_rep s m → 0 ≤ id → is_assigned CAP id s = bool_decide (is_Some (m !! id)).
Proof.
  intros HR Hid. unfold is_assigned. pose proof (fr_cap _ _ HR). destruct (id <? CAP) eqn:E; bool_to_prop; cbn [andb].
  - apply eq_bool_prop_intro. rewrite !Is_true_true, bool_decide_eq_true. apply (fr_bits _ _ HR). lia.
  - symmetry. apply bool_decide_eq_false. intros [v Hv]. destruct (fr_object _ _ HR id v Hv). lia.
Qed.

Lemma rep_size s m : fo_rep s m → Z.of_nat (size m) ≤ CAP.
Proof.
  intros HR. pose proof (fr_cap _ _ HR). rewrite <- size_dom.
  assert (dom m ⊆ list_to_set (C:=gset Z) (seqZ 0 CAP)) as Hs.
  { intros id [v Hv]%elem_of_dom. apply elem_of_list_to_set, elem_of_seqZ.
    destruct (fr_object _ _ HR id v Hv). lia. }
  apply subseteq_size in Hs. rewrite size_list_to_set in Hs by apply NoDup_seqZ. rewrite length_seqZ in Hs. lia.
Qed.

Lemma read_object_ok (s : FO) id v : objects s !! Z.to_nat id = Some (Some v) → read_object id s = (Ok v, s).
Proof. intros Hv. unfold read_object, mbind, M_bind, get_state. by rewrite Hv. Qed.

(** The state after an object was added. *)
Definition inserted (s : FO) (id : Z) (v : T) : FO := {|
  objects := <[Z.to_nat id := Some v]> (objects s); id_bitmap := bm_set id true (id_bitmap s);
  count := add64 (count s) 1;
|}.

Lemma insert_run s m id v :
  fo_rep s m → 0 ≤ id < CAP →
  (_ ← set_count (λ c, add64 c 1); _ ← set_bit id true; _ ← write_object id v; mret (Some id)) s =
    (Ok (Some id), inserted s id v).
Proof.
  intros HR Hid. pose proof (fr_length _ _ HR).
  destruct (lookup_lt_is_Some_2 (objects s) (Z.to_nat id)) as [x Hx]; [lia|].
  unfold write_object, mbind, M_bind, get_state. cbn. by rewrite Hx.
Qed.

Lemma insert_rep s m id v :
  fo_rep s m → 0 ≤ id < CAP → m !! id = None → fo_rep (inserted s id v) (<[id := v]> m).
Proof.
  intros HR Hid Hm. pose proof (fr_cap _ _ HR). pose proof (fr_length _ _ HR). pose proof (rep_size _ _ HR).
  split; cbn; [done|by rewrite length_insert| | |].
  - rewrite (fr_count _ _ HR), map_size_insert_None by done. rewrite add64_small; unfold in_u64; lia.
  - intros j Hj. destruct (decide (id = j)) as [<-|Hne].
    + rewrite bm_set_eq, lookup_insert_eq by lia. by split.
    + rewrite bm_set_ne, lookup_insert_ne by (done || lia). by apply (fr_bits _ _ HR).
  - intros j w. destruct (decide (id = j)) as [<-|Hne].
    + rewrite lookup_insert_eq. intros [= <-]. split; [done|]. apply list_lookup_insert_eq. lia.
    + rewrite lookup_insert_ne by done. intros Hw. destruct (fr_object _ _ HR j w Hw) as [Hj Ho].
      split; [done|]. by rewrite list_lookup_insert_ne by lia.
Qed.

Lemma remove_rep s m id v :
  fo_rep s m → m !! id = Some v →
  fo_rep {| objects := objects s; id_bitmap := bm_set id false (id_bitmap s); count := sub64 (count s) 1 |}
    (delete id m).
Proof.
  intros HR Hm. pose proof (fr_cap _ _ HR). pose proof (rep_size _ _ HR) as Hs.
  destruct (fr_object _ _ HR id v Hm) as [Hid Ho].
  assert (size m = S (size (delete id m))) as Hsz.
  { rewrite <- (insert_delete_id m id v Hm) at 1. by rewrite map_size_insert_None by apply lookup_delete_eq. }
  split; cbn; [done|by apply (fr_length _ _ HR)| | |].
  - rewrite (fr_count _ _ HR). rewrite sub64_small; unfold in_u64; lia.
  - intros j Hj. destruct (decide (id = j)) as [<-|Hne].
    + rewrite bm_set_eq, lookup_delete_eq by lia. split; [done|by intros []].
    + rewrite bm_set_ne, lookup_delete_ne by (done || lia). by apply (fr_bits _ _ HR).
  - intros j w. destruct (decide (id = j)) as [<-|Hne]; [by rewrite lookup_delete_eq|].
    rewrite lookup_delete_ne by done. apply (fr_object _ _ HR).
Qed.

(** Every number below is in use. *)
Definition used_below (m : gmap Z T) (n : Z) : Prop := ∀ j, 0 ≤ j < n → is_Some (m !! j).

Lemma fo_get_ok s m id : fo_rep s m → 0 ≤ id → fo_get CAP id s = (Ok (m !! id), s).
Proof.
  intros HR Hid. unfold fo_get. erewrite M_bind_ok by reflexivity. rewrite (is_assigned_spec s m id HR Hid).
  destruct (m !! id) as [v|] eqn:Hm; [|done]. rewrite bool_decide_eq_true_2 by done.
  erewrite M_bind_ok; [reflexivity|]. apply read_object_ok. by apply (fr_object _ _ HR).
Qed.

Lemma fo_add_ok s m v :
  fo_rep s m →
  (∃ id s', fo_add CAP v s = (Ok (Some id), s') ∧ 0 ≤ id < CAP ∧ m !! id = None ∧ used_below m id ∧
     fo_rep s' (<[id := v]> m)) ∨
  fo_add CAP v s = (Ok None, s) ∧ used_below m CAP.
Proof.
  intros HR. pose proof (fr_cap _ _ HR). unfold fo_add. erewrite M_bind_ok by reflexivity.
  destruct (bm_first_false_index (id_bitmap s)) as [id|] eqn:Hb.
  - apply bm_first_false_some in Hb as (Hid&Hg&Hlt).
    assert (used_below m id) as Hu by (intros j Hj; apply (fr_bits _ _ HR); [lia|by apply Hlt]).
    destruct (id <? CAP) eqn:E; bool_to_prop.
    + assert (m !! id = None) as Hm.
      { apply eq_None_not_Some. rewrite <- (fr_bits _ _ HR id Hid). by rewrite Hg. }
      left. exists id, (inserted s id v). rewrite (insert_run s m id v HR ltac:(lia)).
      split_and!; try done; try lia. apply insert_rep; [done|lia|done].
    + right. split; [done|]. intros j Hj. apply Hu. lia.
  - right. split; [done|]. intros j Hj. apply (fr_bits _ _ HR); [lia|]. apply (bm_first_false_none _ Hb). lia.
Qed.

Lemma fo_add_at_ok s m id v :
  fo_rep s m → 0 ≤ id < CAP →
  match m !! id with
  | Some _ => fo_add_at CAP id v s = (Ok None, s)
  | None => ∃ s', fo_add_at CAP id v s = (Ok (Some id), s') ∧ fo_rep s' (<[id := v]> m)
  end.
Proof.
  intros HR Hid. unfold fo_add_at. erewrite M_bind_ok by reflexivity.
  rewrite (is_assigned_spec s m id HR) by lia. destruct (m !! id) eqn:Hm; [done|].
  rewrite bool_decide_eq_false_2 by (by intros []). exists (inserted s id v).
  rewrite (insert_run s m id v HR Hid). split; [done|]. by apply insert_rep.
Qed.

Lemma fo_remove_ok s m id :
  fo_rep s m → 0 ≤ id → ∃ s', fo_remove CAP id s = (Ok (m !! id), s') ∧ fo_rep s' (delete id m).
Proof.
  intros HR Hid. unfold fo_remove. erewrite M_bind_ok by reflexivity. rewrite (is_assigned_spec s m id HR Hid).
  destruct (m !! id) as [v|] eqn:Hm.
  - rewrite bool_decide_eq_true_2 by done. eexists. split; [|by apply (remove_rep s m id v)].
    do 2 (erewrite M_bind_ok by reflexivity). erewrite M_bind_ok; [reflexivity|].
    apply read_object_ok. by apply (fr_object _ _ HR).
  - rewrite bool_decide_eq_false_2 by (by intros []). exists s. split; [done|]. by rewrite delete_id.
Qed.

Lemma fo_get_mut_ok s m id f :
  fo_rep s m → 0 ≤ id →
  ∃ s', fo_get_mut CAP id f s = (Ok (bool_decide (is_Some (m !! id))), s') ∧ fo_rep s' (alter f id m).
Proof.
  intros HR Hid. unfold fo_get_mut. erewrite M_bind_ok by reflexivity. rewrite (is_assigned_spec s m id HR Hid).
  destruct (m !! id) as [v|] eqn:Hm.
  - rewrite bool_decide_eq_true_2 by done. destruct (fr_object _ _ HR id v Hm) as [Hi Ho].
    erewrite M_bind_ok by (by apply read_object_ok). eexists. split.
    { unfold write_object, mbind, M_bind, get_state. rewrite Ho. reflexivity. }
    pose proof (fr_length _ _ HR). split; cbn; [apply (fr_cap _ _ HR)|by rewrite length_insert| | |].
    + by rewrite (fr_count _ _ HR), <- !size_dom, dom_alter_L.
    + intros j Hj. rewrite (fr_bits _ _ HR j Hj). by rewrite lookup_alter_is_Some.
    + intros j w. destruct (decide (id = j)) as [<-|Hne].
      * rewrite lookup_alter_eq, Hm. intros [= <-]. split; [done|]. apply list_lookup_insert_eq. lia.
      * rewrite lookup_alter_ne by done. intros Hw. destruct (fr_object _ _ HR j w Hw).
        split; [done|]. by rewrite list_lookup_insert_ne by lia.
  - rewrite bool_decide_eq_false_2 by (by intros []). exists s. split; [done|].
    by rewrite alter_id by (by rewrite Hm).
Qed.

(** The container of numbered objects is a finite map.  Every operation on a
    container that holds the objects of a map returns what the map says and leaves one
    that holds the map after the operation; [add] takes the least number that is not
    in use and fails only when all are; [count] is the number of objects; no operation
    panics or reads an entry that was never written. *)
Theorem flatten_objects_refines s m :
  fo_rep s m →
  count s = Z.of_nat (size m) ∧
  (∀ id, 0 ≤ id → fo_get CAP id s = (Ok (m !! id), s)) ∧
  (∀ v, (∃ id s', fo_add CAP v s = (Ok (Some id), s') ∧ 0 ≤ id < CAP ∧ m !! id = None ∧ used_below m id ∧
           fo_rep s' (<[id := v]> m)) ∨
        fo_add CAP v s = (Ok None, s) ∧ used_below m CAP) ∧
  (∀ id v, 0 ≤ id < CAP →
     match m !! id with
     | Some _ => fo_add_at CAP id v s = (Ok None, s)
     | None => ∃ s', fo_add_at CAP id v s = (Ok (Some id), s') ∧ fo_rep s' (<[id := v]> m)
     end) ∧
  (∀ id f, 0 ≤ id → ∃ s', fo_get_mut CAP id f s = (Ok (bool_decide (is_Some (m !! id))), s') ∧
     fo_rep s' (alter f id m)) ∧
  (∀ id, 0 ≤ id → ∃ s', fo_remove CAP id s = (Ok (m !! id), s') ∧ fo_rep s' (delete id m)).
Proof.
  intros HR. split; [apply (fr_count _ _ HR)|]. split; [intros; by apply fo_get_ok|].
  split; [intros; by apply fo_add_ok|]. split; [intros; by apply fo_add_at_ok|].
  split; [intros; by apply fo_get_mut_ok|]. intros; by apply fo_remove_ok.
Qed.
End refinement.

(** ** The file descriptor table *)

Section fd_table.
Context {F B : Type} `{BM : Bitmap B} `{BMS : !BitmapSpec B} (set_nonblocking : F → bool → res Z unit).
Local Abbreviation fd_rep := (fo_rep (T:=F) AX_FILE_LIMIT).

(** The range of a [c_int]. *)
Definition c_int (fd : Z) : Prop := - 2 ^ 31 ≤ fd < 2 ^ 31.

Lemma as_usize_nonneg fd : c_int fd → 0 ≤ fd → as_usize fd = fd.
Proof. intros Hc H0. unfold as_usize, c_int in *. apply wrap_small. lia. Qed.

Lemma as_usize_neg (s : FlattenObjects F B) m fd : fd_rep s m → c_int fd → fd < 0 → m !! as_usize fd = None ∧ AX_FILE_LIMIT ≤ as_usize fd.
Proof.
  intros HR Hc Hn. assert (2 ^ 63 ≤ as_usize fd) as Hb.
  { unfold as_usize, wrap, c_int in *. rewrite <- (Z.mod_unique fd (2 ^ 64) (-1) (fd + 2 ^ 64)); lia. }
  split; [|unfold AX_FILE_LIMIT; lia]. destruct (m !! as_usize fd) as [v|] eqn:Hm; [|done].
  destruct (fr_object _ _ _ HR _ _ Hm). unfold AX_FILE_LIMIT in *. lia.
Qed.

Lemma fr_none (s : FlattenObjects F B) m fd : fd_rep s m → fd < 0 → m !! fd = None.
Proof.
  intros HR Hn. destruct (m !! fd) as [v|] eqn:Hm; [|done]. destruct (fr_object _ _ _ HR _ _ Hm). lia.
Qed.

(** A descriptor stands for the file the table has under it, whatever its sign. *)
Lemma fd_lookup (s : FlattenObjects F B) m fd : fd_rep s m → c_int fd → m !! as_usize fd = m !! fd.
Proof.
  intros HR Hc. destruct (decide (0 ≤ fd)); [by rewrite as_usize_nonneg|].
  rewrite (fr_none s m fd HR) by lia. apply (as_usize_neg s m fd HR Hc). lia.
Qed.

Lemma as_usize_range fd : 0 ≤ as_usize fd.
Proof. unfold as_usize. by apply wrap_range. Qed.

Lemma get_file_like_ok s m fd :
  fd_rep s m → c_int fd →
  get_file_like fd s = (match m !! fd with Some f => Ok f | None => Err EBADF end, s).
Proof.
  intros HR Hc. unfold get_file_like, on_table, mbind, M_bind.
  rewrite (fo_get_ok AX_FILE_LIMIT s m _ HR) by apply as_usize_range. rewrite (fd_lookup s m fd HR Hc).
  by destruct (m !! fd).
Qed.

Lemma add_file_like_ok s m f :
  fd_rep s m →
  (∃ fd s', add_file_like f s = (Ok fd, s') ∧ 0 ≤ fd < AX_FILE_LIMIT ∧ m !! fd = None ∧ used_below m fd ∧
     fd_rep s' (<[fd := f]> m)) ∨
  add_file_like f s = (Err EMFILE, s) ∧ used_below m AX_FILE_LIMIT.
Proof.
  intros HR. unfold add_file_like, on_table, mbind, M_bind.
  destruct (fo_add_ok AX_FILE_LIMIT s m f HR) as [(id&s'&->&?&?&?&?)|[-> ?]]; [left|by right].
  by exists id, s'.
Qed.

Lemma syscall_ok (m : M (FlattenObjects F B) Z Z) s v s' : m s = (Ok v, s') → syscall_body m s = (Ok v, s').
Proof. unfold syscall_body. by intros ->. Qed.
Lemma syscall_err (m : M (FlattenObjects F B) Z Z) s e s' : m s = (Err e, s') → syscall_body m s = (Ok (- e), s').
Proof. unfold syscall_body. by intros ->. Qed.

Lemma close_file_like_ok s m fd :
  fd_rep s m → c_int fd →
  ∃ s', close_file_like fd s = (match m !! fd with Some _ => Ok tt | None => Err EBADF end, s') ∧
    fd_rep s' (delete fd m).
Proof.
  intros HR Hc. unfold close_file_like, on_table, mbind, M_bind.
  destruct (fo_remove_ok AX_FILE_LIMIT s m _ HR (as_usize_range fd)) as (s'&->&HR').
  rewrite (fd_lookup s m fd HR Hc). exists s'. split; [by destruct (m !! fd)|].
  destruct (decide (0 ≤ fd)); [by rewrite as_usize_nonneg in HR'|].
  rewrite delete_id in HR' by (apply (as_usize_neg s); [done..|lia]).
  by rewrite delete_id by (apply (fr_none s); [done|lia]).
Qed.

Lemma sys_dup_ok s m fd f :
  fd_rep s m → c_int fd → m !! fd = Some f →
  (∃ new s', sys_dup fd s = (Ok new, s') ∧ 0 ≤ new ∧ m !! new = None ∧ used_below m new ∧
     fd_rep s' (<[new := f]> m)) ∨
  sys_dup fd s = (Ok (- EMFILE), s) ∧ used_below m AX_FILE_LIMIT.
Proof.
  intros HR Hc Hf. unfold sys_dup, dup_fd.
  assert ((f ← get_file_like fd; add_file_like f) s = add_file_like f s) as Hd.
  { erewrite M_bind_ok; [reflexivity|]. rewrite (get_file_like_ok s m fd HR Hc). by rewrite Hf. }
  destruct (add_file_like_ok s m f HR) as [(new&s'&Ha&?&?&?&?)|[Ha ?]]; rewrite <- Hd in Ha.
  - left. exists new, s'. rewrite (syscall_ok _ _ _ _ Ha). split_and!; try done. lia.
  - right. by rewrite (syscall_err _ _ _ _ Ha).
Qed.

Lemma sys_dup2_ok s m fd new f :
  fd_rep s m → c_int fd → c_int new → fd ≠ new → m !! fd = Some f →
  if decide (0 ≤ new < AX_FILE_LIMIT) then
    match m !! new with
    | Some _ => sys_dup2 set_nonblocking fd new s = (Ok (- EMFILE), s)
    | None => ∃ s', sys_dup2 set_nonblocking fd new s = (Ok new, s') ∧ fd_rep s' (<[new := f]> m)
    end
  else sys_dup2 set_nonblocking fd new s = (Ok (- EBADF), s).
Proof.
  intros HR Hc Hcn Hne Hf. unfold sys_dup2. rewrite (proj2 (Z.eqb_neq fd new)) by done.
  destruct (decide (0 ≤ new < AX_FILE_LIMIT)) as [Hn|Hn].
  - rewrite (as_usize_nonneg new Hcn) by lia. rewrite (proj2 (Z.leb_gt AX_FILE_LIMIT new)) by lia.
    pose proof (fo_add_at_ok AX_FILE_LIMIT s m new f HR Hn) as Ha.
    assert (get_file_like fd s = (Ok f, s)) as Hg by (rewrite (get_file_like_ok s m fd HR Hc); by rewrite Hf).
    destruct (m !! new).
    + apply syscall_err. erewrite M_bind_ok by exact Hg. erewrite M_bind_ok by (unfold on_table; by rewrite Ha).
      by erewrite M_bind_err.
    + destruct Ha as (s'&Ha&HR'). exists s'. split; [|done]. apply syscall_ok.
      erewrite M_bind_ok by exact Hg. erewrite M_bind_ok by (unfold on_table; by rewrite Ha).
      by erewrite M_bind_ok.
  - apply syscall_err. assert (AX_FILE_LIMIT ≤ as_usize new).
    { destruct (decide (0 ≤ new)); [rewrite as_usize_nonneg by done; lia|].
      by apply (as_usize_neg s m new HR Hcn); lia. }
    by rewrite (proj2 (Z.leb_le AX_FILE_LIMIT _)) by done.
Qed.

(** File descriptors name open files.  [dup] gives the file of an open descriptor
    a second one, the least that is free; [dup2] gives it the one asked for, when that
    is in range and free; [close] frees the descriptor and no other, except that the
    standard descriptors stay open; a descriptor that is not open, a negative one
    included, is refused with [EBADF], and a full table with [EMFILE]. *)
Theorem fd_table_spec s m fd :
  fd_rep s m → c_int fd →
  match m !! fd with
  | None => get_file_like fd s = (Err EBADF, s) ∧ sys_dup fd s = (Ok (- EBADF), s) ∧
            (2 < fd ∨ fd < 0 → ∃ s', sys_close fd s = (Ok (- EBADF), s') ∧ fd_rep s' m)
  | Some f =>
      get_file_like fd s = (Ok f, s) ∧
      ((∃ new s', sys_dup fd s = (Ok new, s') ∧ 0 ≤ new ∧ m !! new = None ∧ used_below m new ∧
          fd_rep s' (<[new := f]> m)) ∨
       sys_dup fd s = (Ok (- EMFILE), s) ∧ used_below m AX_FILE_LIMIT) ∧
      (∀ new, c_int new → fd ≠ new →
         if decide (0 ≤ new < AX_FILE_LIMIT) then
           match m !! new with
           | Some _ => sys_dup2 set_nonblocking fd new s = (Ok (- EMFILE), s)
           | None => ∃ s', sys_dup2 set_nonblocking fd new s = (Ok new, s') ∧ fd_rep s' (<[new := f]> m)
           end
         else sys_dup2 set_nonblocking fd new s = (Ok (- EBADF), s)) ∧
      ∃ s', sys_close fd s = (Ok 0, s') ∧ fd_rep s' (if decide (fd ≤ 2) then m else delete fd m)
  end.
Proof.
  intros HR Hc. pose proof (get_file_like_ok s m fd HR Hc) as Hg.
  destruct (close_file_like_ok s m fd HR Hc) as (s'&Hcl&HR'). unfold sys_close.
  destruct (m !! fd) as [f|] eqn:Hf.
  - split; [done|]. split; [by apply sys_dup_ok|]. split; [intros; by apply sys_dup2_ok|].
    destruct (fr_object _ _ _ HR fd f Hf) as [Hr _].
    rewrite (proj2 (Z.leb_le 0 fd)) by lia. cbn [andb]. destruct (decide (fd ≤ 2)).
    + rewrite (proj2 (Z.leb_le fd 2)) by done. by exists s.
    + rewrite (proj2 (Z.leb_gt fd 2)) by lia. exists s'. split; [|done]. apply syscall_ok. by erewrite M_bind_ok.
  - split; [done|]. split.
    + apply syscall_err. unfold dup_fd. by erewrite M_bind_err.
    + intros Hr. assert ((0 <=? fd) && (fd <=? 2) = false)%bool as ->.
      { destruct Hr; [rewrite (proj2 (Z.leb_gt fd 2)) by lia|rewrite (proj2 (Z.leb_gt 0 fd)) by lia]; by destruct (0 <=? fd). }
      exists s'. rewrite delete_id in HR' by done. split; [|done]. apply syscall_err. by erewrite M_bind_err.
Qed.

Lemma fd_table_new_ok (a b c : F) :
  ∃ t, fd_table_new a b c = Ok t ∧ fd_rep t (<[2 := c]> (<[1 := b]> (<[0 := a]> ∅))).
Proof.
  unfold fd_table_new. destruct (fo_new AX_FILE_LIMIT) as [t| | |] eqn:Hn; [|done..].
  pose proof (fo_rep_new AX_FILE_LIMIT t ltac:(done) Hn) as H0.
  pose proof (fo_add_at_ok AX_FILE_LIMIT t _ 0 a H0 ltac:(done)) as Ha. rewrite lookup_empty in Ha.
  destruct Ha as (t1&Ha&H1).
  pose proof (fo_add_at_ok AX_FILE_LIMIT t1 _ 1 b H1 ltac:(done)) as Hb.
  rewrite lookup_insert_ne, lookup_empty in Hb by done. destruct Hb as (t2&Hb&H2).
  pose proof (fo_add_at_ok AX_FILE_LIMIT t2 _ 2 c H2 ltac:(done)) as Hc.
  rewrite !lookup_insert_ne, lookup_empty in Hc by done. destruct Hc as (t3&Hc&H3).
  exists t3. split; [|done].
  erewrite M_bind_ok by (unfold on_table; by rewrite Ha). erewrite M_bind_ok by reflexivity.
  erewrite M_bind_ok by (unfold on_table; by rewrite Hb). erewrite M_bind_ok by reflexivity.
  erewrite M_bind_ok by (unfold on_table; by rewrite Hc). by erewrite M_bind_ok by reflexivity.
Qed.
End fd_table.

(** ** Concrete instances *)

(** The bitmap as a set of numbers. *)
#[export] Instance set_bitmap : Bitmap (gset Z) := {|
  bm_zero := ∅;
  bm_get i b := bool_decide (i ∈ b);
  bm_set i v b := if (v : bool) then {[i]} ∪ b else b ∖ {[i]};
  bm_first_false_index b := snd <$> list_find (λ i, i ∉ b) (seqZ 0 1024);
|}.

#[export] Instance set_bitmap_spec : BitmapSpec (gset Z).
Proof.
  split; cbn [bm_zero bm_get bm_set bm_first_false_index set_bitmap].
  - intros i Hi. apply bool_decide_eq_false_2. set_solver.
  - intros i [] b Hi; [apply bool_decide_eq_true_2|apply bool_decide_eq_false_2]; set_solver.
  - intros i j [] b Hi Hj Hne; apply bool_decide_ext; set_solver.
  - intros b i. destruct (list_find _ _) as [[k j]|] eqn:E; [|done]. cbn. intros [= <-].
    apply list_find_Some in E as (Hk&Hn&Hlt). apply lookup_seqZ in Hk as [Hk Hk2].
    split_and!; [lia|lia|by apply bool_decide_eq_false_2|]. intros l Hl. apply bool_decide_eq_true_2.
    destruct (decide (l ∈ b)) as [|Hnb]; [done|]. exfalso.
    apply (Hlt (Z.to_nat l) l); [|lia|done]. apply lookup_seqZ. lia.
  - intros b. destruct (list_find _ _) eqn:E; [done|]. intros _ j Hj. apply list_find_None in E.
    rewrite Forall_forall in E. apply bool_decide_eq_true_2. destruct (decide (j ∈ b)); [done|].
    exfalso. apply (E j); [|done]. apply elem_of_seqZ. lia.
Qed.

Definition example_objects : FlattenObjects Z (gset Z) :=
  {| objects := [Some 7; None; None; None]; id_bitmap := {[0]}; count := 1 |}.

Lemma example_objects_rep : fo_rep 4 example_objects {[0 := 7]}.
Proof.
  split; [lia|done|done| |].
  - intros id Hid. cbn. rewrite bool_decide_eq_true, elem_of_singleton, lookup_singleton_is_Some. by split.
  - intros id v [<- <-]%lookup_singleton_Some. by split.
Qed.

Lemma flatten_objects_refines_witness :
  ∃ s', fo_add 4 9 example_objects = (Ok (Some 1), s') ∧ fo_rep 4 s' {[1 := 9; 0 := 7]}.
Proof.
  destruct (flatten_objects_refines 4 example_objects {[0 := 7]} example_objects_rep) as (_&_&Ha&_).
  destruct (Ha 9) as [(id&s'&Hr&_&_&_&Hs)|[Hr _]]; [|vm_compute in Hr; discriminate].
  assert (id = 1) as -> by (apply (f_equal fst) in Hr; vm_compute in Hr; congruence).
  exists s'. split; [exact Hr|exact Hs].
Defined.

Definition example_table : FlattenObjects Z (gset Z) :=
  match fd_table_new 0 1 2 with Ok t => t | _ => {| objects := []; id_bitmap := ∅; count := 0 |} end.

Lemma fd_table_spec_witness : ∃ s', sys_dup 1 example_table = (Ok 3, s') ∧ get_file_like 3 s' = (Ok 1, s').
Proof.
  destruct (fd_table_new_ok (B:=gset Z) 0 1 2) as (t&Ht&HR).
  assert (example_table = t) as Hex by (unfold example_table; rewrite Ht; reflexivity).
  pose proof (fd_table_spec (λ _ _, Ok tt) t _ 1 HR ltac:(unfold c_int; lia)) as Hs.
  change (<[2:=2]> (<[1:=1]> (<[0:=0]> ∅)) !! 1) with (Some 1) in Hs.
  destruct Hs as (_&[(new&s'&Hd&_&_&_&HR')|[Hd _]]&_).
  - rewrite <- Hex in Hd. assert (new = 3) as -> by (apply (f_equal fst) in Hd; vm_compute in Hd; congruence).
    exists s'. split; [exact Hd|]. pose proof (get_file_like_ok s' _ 3 HR' ltac:(unfold c_int; lia)) as Hg.
    rewrite lookup_insert_eq in Hg. exact Hg.
  - rewrite <- Hex in Hd. apply (f_equal fst) in Hd. vm_compute in Hd. discriminate.
Defined.
