(* ===== verification/Pipe.v ===== *)
(** * Pipes ([api/arceos_posix_api/src/imp/pipe.rs])

    A ring buffer of 256 bytes behind a mutex, shared by a read end and a write end.
    The sections under the lock are the atomic steps; between them the tasks that
    read and write run in any order.  The ring refines a queue, and the pipe delivers
    the bytes written to it in order. *)

From Stdlib Require Import ZArith Lia.
From stdpp Require Import base decidable numbers gmap list.
From S2P Require Import Prelude LinkedList FlattenObjects.

Local Open Scope Z_scope.

(** ** The ring buffer *)

Inductive RingBufferStatus : Set := Full | Empty | Normal.
#[export] Instance RingBufferStatus_eq_dec : EqDecision RingBufferStatus.
Proof. solve_decision. Defined.

Definition RING_BUFFER_SIZE : Z := 256.

Record PipeRingBuffer : Type := { arr : list Z; head_ : Z; tail_ : Z; status : RingBufferStatus }.

Definition ring_new : PipeRingBuffer :=
  {| arr := replicate (Z.to_nat RING_BUFFER_SIZE) 0; head_ := 0; tail_ := 0; status := Empty |}.

Local Abbreviation RM := (M PipeRingBuffer NoError).

Definition write_byte (byte : Z) : RM unit :=
  s ← get_state;
  _ ← unwrap (arr s !! Z.to_nat (tail_ s));
  let tail := (tail_ s + 1) mod RING_BUFFER_SIZE in
  put_state {| arr := <[Z.to_nat (tail_ s) := byte]> (arr s); head_ := head_ s; tail_ := tail;
               status := if tail =? head_ s then Full else Normal |}.
Definition read_byte : RM Z :=
  s ← get_state;
  c ← unwrap (arr s !! Z.to_nat (head_ s));
  let head := (head_ s + 1) mod RING_BUFFER_SIZE in
  _ ← put_state {| arr := arr s; head_ := head; tail_ := tail_ s;
                   status := if head =? tail_ s then Empty else Normal |};
  mret c.
Definition available_read (s : PipeRingBuffer) : Z :=
  if bool_decide (status s = Empty) then 0
  else if head_ s <? tail_ s then tail_ s - head_ s
  else tail_ s + RING_BUFFER_SIZE - head_ s.
Definition available_write (s : PipeRingBuffer) : Z :=
  if bool_decide (status s = Full) then 0 else RING_BUFFER_SIZE - available_read s.

(** ** The sections of [read] and [write]

    A section ends the call or starts the loop again. *)

Inductive After (A : Type) : Type := Return (a : A) | Again (a : A).
Arguments Return {A}.
Arguments Again {A}.

Fixpoint read_for (n : nat) (max_len : Z) (got : list Z) : RM (After (list Z)) :=
  match n with
  | O => mret (Again got)
  | S n =>
      if Z.of_nat (length got) =? max_len then mret (Return got)
      else c ← read_byte; read_for n max_len (got ++ [c])
  end.
Definition read_section (write_end_close : bool) (max_len : Z) (got : list Z) : RM (After (list Z)) :=
  s ← get_state;
  let loop_read := available_read s in
  if loop_read =? 0 then mret (if write_end_close then Return got else Again got)
  else read_for (Z.to_nat loop_read) max_len got.

Fixpoint write_for (n : nat) (buf : list Z) (write_size : nat) : RM (After nat) :=
  match n with
  | O => mret (Again write_size)
  | S n =>
      match buf !! write_size with
      | None => mret (Return write_size)
      | Some byte => _ ← write_byte byte; write_for n buf (S write_size)
      end
  end.
Definition write_section (buf : list Z) (write_size : nat) : RM (After nat) :=
  s ← get_state;
  let loop_write := available_write s in
  if loop_write =? 0 then mret (Again write_size)
  else write_for (Z.to_nat loop_write) buf write_size.

(** ** The pipe and the tasks that use it

    [refs] is the strong count of the shared buffer, one for each end that is open.
    [sent] and [received] record the bytes that went in and out. *)

Inductive PipePoint : Type :=
| PReading (max_len : Z) (got : list Z)
| PWriting (buf : list Z) (write_size : nat).

Definition is_reading (p : PipePoint) : bool := match p with PReading _ _ => true | _ => false end.

Record PipeState : Type := {
  ring : PipeRingBuffer;
  refs : Z;
  at_ : gmap nat PipePoint;
  sent : list Z;
  received : list Z;
}.

Definition pipe_new : PipeState :=
  {| ring := ring_new; refs := 2; at_ := ∅; sent := []; received := [] |}.
Definition write_end_close (s : PipeState) : bool := refs s =? 1.

(** What a task does next. *)
Inductive PipeAct : Type :=
| ARead (t : nat) (max_len : Z)
| AWrite (t : nat) (buf : list Z)
| ASection (t : nat)
| ACloseWrite.

Definition set_point (t : nat) (p : option PipePoint) (s : PipeState) : PipeState :=
  {| ring := ring s; refs := refs s; at_ := partial_alter (λ _, p) t (at_ s); sent := sent s;
     received := received s |}.

(** The action of a task; [None] when it cannot do it.  A call of [write] needs the
    write end, which is open while the count is two. *)
Definition pipe_act (a : PipeAct) (s : PipeState) : option (res NoError PipeState) :=
  match a with
  | ARead t max_len =>
      if decide (at_ s !! t = None ∧ 0 ≤ max_len) then Some (Ok (set_point t (Some (PReading max_len [])) s))
      else None
  | AWrite t buf =>
      if decide (at_ s !! t = None ∧ refs s = 2) then Some (Ok (set_point t (Some (PWriting buf 0)) s)) else None
  | ASection t =>
      match at_ s !! t with
      | Some (PReading max_len got) =>
          Some match read_section (write_end_close s) max_len got (ring s) with
               | (Ok r, ring') =>
                   let '(got', p) := match r with
                                     | Return got' => (got', None)
                                     | Again got' => (got', Some (PReading max_len got'))
                                     end in
                   Ok {| ring := ring'; refs := refs s; at_ := partial_alter (λ _, p) t (at_ s);
                         sent := sent s; received := received s ++ drop (length got) got' |}
               | (Panic, _) => Panic
               | (OutOfFuel, _) => OutOfFuel
               | (Err e, _) => Err e
               end
      | Some (PWriting buf k) =>
          Some match write_section buf k (ring s) with
               | (Ok r, ring') =>
                   let '(k', p) := match r with
                                   | Return k' => (k', None)
                                   | Again k' => (k', Some (PWriting buf k'))
                                   end in
                   Ok {| ring := ring'; refs := refs s; at_ := partial_alter (λ _, p) t (at_ s);
                         sent := sent s ++ take (k' - k) (drop k buf); received := received s |}
               | (Panic, _) => Panic
               | (OutOfFuel, _) => OutOfFuel
               | (Err e, _) => Err e
               end
      | None => None
      end
  | ACloseWrite =>
      if decide (refs s = 2 ∧ map_Forall (λ _ p, is_reading p = true) (at_ s))
      then Some (Ok {| ring := ring s; refs := 1; at_ := at_ s; sent := sent s; received := received s |})
      else None
  end.

Inductive pipe_reach : PipeState → Prop :=
| pr_new : pipe_reach pipe_new
| pr_act s a s' : pipe_reach s → pipe_act a s = Some (Ok s') → pipe_reach s'.

(** ** [sys_pipe] *)

Section sys_pipe.
Context {F B : Type} `{Bitmap B}.

(** [inspect_err(|_| close_file_like(fd).ok())]. *)
Definition or_close (fd : Z) (m : M (FlattenObjects F B) Z Z) : M (FlattenObjects F B) Z Z := λ s,
  match m s with
  | (Err e, s') =>
      match close_file_like fd s' with
      | (Panic, s'') => (Panic, s'')
      | (OutOfFuel, s'') => (OutOfFuel, s'')
      | (_, s'') => (Err e, s'')
      end
  | x => x
  end.

(** The two descriptors; when the second cannot be had, the first is closed again. *)
Definition sys_pipe (fds_len : nat) (read_end write_end : F) : M (FlattenObjects F B) Z (Z * Z) :=
  if negb (fds_len =? 2)%nat then throw EFAULT
  else
    read_fd ← add_file_like read_end;
    write_fd ← or_close read_fd (add_file_like write_end);
    mret (read_fd, write_fd).
End sys_pipe.

(** ** The ring refines a queue *)

Local Abbreviation slot h i := (Z.to_nat ((h + i) mod RING_BUFFER_SIZE)).

Record ring_rep (s : PipeRingBuffer) (q : list Z) : Prop := {
  rr_arr : Z.of_nat (length (arr s)) = RING_BUFFER_SIZE;
  rr_len : Z.of_nat (length q) ≤ RING_BUFFER_SIZE;
  rr_head : 0 ≤ head_ s < RING_BUFFER_SIZE;
  rr_tail : tail_ s = (head_ s + Z.of_nat (length q)) mod RING_BUFFER_SIZE;
  rr_status : status s = if decide (q = []) then Empty
                         else if decide (Z.of_nat (length q) = RING_BUFFER_SIZE) then Full else Normal;
  rr_data i x : q !! i = Some x → arr s !! slot (head_ s) (Z.of_nat i) = Some x;
}.

Lemma ring_new_rep : ring_rep ring_new [].
Proof. by split. Qed.

Lemma tail_range s q : ring_rep s q → 0 ≤ tail_ s < RING_BUFFER_SIZE.
Proof. intros HR. rewrite (rr_tail _ _ HR). by apply Z.mod_pos_bound. Qed.

(** The tail is before or behind the head. *)
Lemma tail_cases s q :
  ring_rep s q →
  tail_ s = head_ s + Z.of_nat (length q) ∧ head_ s + Z.of_nat (length q) < RING_BUFFER_SIZE ∨
  tail_ s = head_ s + Z.of_nat (length q) - RING_BUFFER_SIZE ∧ RING_BUFFER_SIZE ≤ head_ s + Z.of_nat (length q).
Proof.
  intros HR. pose proof (rr_head _ _ HR). pose proof (rr_len _ _ HR). rewrite (rr_tail _ _ HR).
  unfold RING_BUFFER_SIZE in *. Z.div_mod_to_equations. lia.
Qed.

Lemma available_read_ok s q : ring_rep s q → available_read s = Z.of_nat (length q).
Proof.
  intros HR. pose proof (rr_head _ _ HR). pose proof (tail_cases s q HR). pose proof (rr_len _ _ HR).
  unfold available_read. rewrite (rr_status _ _ HR). destruct (decide (q = [])) as [->|Hq]; [done|].
  assert (0 < length q)%nat by (destruct q; [done|cbn; lia]).
  rewrite bool_decide_eq_false_2 by (by destruct (decide _)).
  destruct (head_ s <? tail_ s) eqn:E; bool_to_prop; unfold RING_BUFFER_SIZE in *; lia.
Qed.

Lemma available_write_ok s q : ring_rep s q → available_write s = RING_BUFFER_SIZE - Z.of_nat (length q).
Proof.
  intros HR. unfold available_write. rewrite (available_read_ok s q HR), (rr_status _ _ HR).
  destruct (decide (q = [])) as [->|]; [done|]. destruct (decide _) as [->|]; [by rewrite Z.sub_diag|done].
Qed.

Lemma write_byte_ok s q x :
  ring_rep s q → Z.of_nat (length q) < RING_BUFFER_SIZE →
  ∃ s', write_byte x s = (Ok tt, s') ∧ ring_rep s' (q ++ [x]).
Proof.
  intros HR Hl. pose proof (rr_head _ _ HR). pose proof (rr_arr _ _ HR) as Ha. pose proof (tail_range s q HR).
  pose proof (tail_cases s q HR) as Htc. pose proof (rr_tail _ _ HR) as Ht.
  destruct (lookup_lt_is_Some_2 (arr s) (Z.to_nat (tail_ s))) as [y Hy]; [lia|].
  unfold write_byte, mbind, M_bind, get_state, put_state. rewrite Hy. cbn. eexists. split; [reflexivity|].
  split; cbn; rewrite ?length_app, ?length_insert; cbn [length]; try lia.
  - rewrite Ht, Z.add_mod_idemp_l by done. f_equal. lia.
  - rewrite decide_False by (by destruct q). unfold RING_BUFFER_SIZE in *.
    destruct (_ =? _) eqn:E; bool_to_prop; case_decide; try done; exfalso; Z.div_mod_to_equations; lia.
  - intros i y' Hi. destruct (decide (i = length q)) as [->|Hne].
    + rewrite list_lookup_middle in Hi by done. injection Hi as <-.
      rewrite <- Ht. apply list_lookup_insert_eq. lia.
    + apply lookup_lt_Some in Hi as Hlt. rewrite length_app in Hlt. cbn in Hlt.
      rewrite lookup_app_l in Hi by lia. rewrite list_lookup_insert_ne; [by apply (rr_data _ _ HR)|].
      unfold RING_BUFFER_SIZE in *. intros He%Z2Nat.inj; [|lia|by apply Z.mod_pos_bound].
      Z.div_mod_to_equations; lia.
Qed.

Lemma read_byte_ok s x q :
  ring_rep s (x :: q) → ∃ s', read_byte s = (Ok x, s') ∧ ring_rep s' q.
Proof.
  intros HR. pose proof (rr_head _ _ HR). pose proof (rr_arr _ _ HR) as Ha. pose proof (rr_len _ _ HR) as Hl.
  pose proof (tail_cases s _ HR) as Htc. pose proof (rr_data _ _ HR 0 x eq_refl) as H0. cbn [length] in *.
  rewrite Z.add_0_r, Z.mod_small in H0 by done.
  unfold read_byte, mbind, M_bind, get_state, put_state. rewrite H0. cbn. eexists. split; [reflexivity|].
  split; cbn; try done; try lia.
  - by apply Z.mod_pos_bound.
  - rewrite (rr_tail _ _ HR), Z.add_mod_idemp_l by done. f_equal. cbn [length]. lia.
  - unfold RING_BUFFER_SIZE in *. destruct (_ =? _) eqn:E; bool_to_prop.
    + rewrite decide_True; [done|]. apply nil_length_inv. Z.div_mod_to_equations; lia.
    + rewrite decide_False by (intros ->; cbn in *; Z.div_mod_to_equations; lia).
      rewrite decide_False by lia. done.
  - intros i y Hi. rewrite Z.add_mod_idemp_l by done.
    replace (head_ s + 1 + Z.of_nat i) with (head_ s + Z.of_nat (S i)) by lia. by apply (rr_data _ _ HR).
Qed.

(** ** The sections *)

Lemma read_for_ok n max_len got s q :
  ring_rep s q → (n ≤ length q)%nat → Z.of_nat (length got) ≤ max_len →
  let k := Nat.min n (Z.to_nat max_len - length got) in
  ∃ s', read_for n max_len got s =
      (Ok (if decide (k < n)%nat then Return (got ++ take k q) else Again (got ++ take k q)), s') ∧
    ring_rep s' (drop k q).
Proof.
  revert got s q. induction n as [|n IH]; intros got s q HR Hn Hg; cbn [read_for].
  { exists s. rewrite decide_False by lia. cbn. by rewrite app_nil_r. }
  destruct (Z.of_nat (length got) =? max_len) eqn:E; bool_to_prop.
  { exists s. replace (Z.to_nat max_len - length got)%nat with 0%nat by lia. rewrite Nat.min_0_r. cbn zeta.
    rewrite decide_True by lia. cbn. by rewrite app_nil_r. }
  destruct q as [|x q]; [cbn in Hn; lia|]. destruct (read_byte_ok s x q HR) as (s1&Hr&HR1).
  erewrite M_bind_ok by exact Hr. cbn [length] in Hn.
  destruct (IH (got ++ [x]) s1 q HR1 ltac:(lia)) as (s'&Hl&HR').
  { rewrite length_app. cbn [length]. lia. }
  rewrite length_app in *. cbn [length] in *. exists s'. cbn zeta.
  replace (Nat.min (S n) (Z.to_nat max_len - length got)) with
    (S (Nat.min n (Z.to_nat max_len - (length got + 1)))) by lia.
  rewrite Hl. split; [|exact HR']. cbn [take]. rewrite <- !app_assoc. cbn [app].
  do 2 f_equal. destruct (decide _), (decide _); try done; lia.
Qed.

Lemma write_for_ok n buf w s q :
  ring_rep s q → Z.of_nat (length q + n) ≤ RING_BUFFER_SIZE → (w ≤ length buf)%nat →
  let k := Nat.min n (length buf - w) in
  ∃ s', write_for n buf w s = (Ok (if decide (k < n)%nat then Return (w + k)%nat else Again (w + k)%nat), s') ∧
    ring_rep s' (q ++ take k (drop w buf)).
Proof.
  revert w s q. induction n as [|n IH]; intros w s q HR Hn Hw; cbn [write_for].
  { exists s. rewrite decide_False by lia. cbn. by rewrite app_nil_r, Nat.add_0_r. }
  destruct (buf !! w) as [x|] eqn:Hx.
  2: { apply lookup_ge_None in Hx. exists s. replace (length buf - w)%nat with 0%nat by lia. cbn zeta.
       rewrite Nat.min_0_r, decide_True by lia. cbn. by rewrite app_nil_r, Nat.add_0_r. }
  apply lookup_lt_Some in Hx as Hlt. destruct (write_byte_ok s q x HR ltac:(lia)) as (s1&Hb&HR1).
  erewrite M_bind_ok by exact Hb.
  destruct (IH (S w) s1 (q ++ [x]) HR1) as (s'&Hl&HR'); [rewrite length_app; cbn [length]; lia|lia|].
  exists s'. cbn zeta. replace (Nat.min (S n) (length buf - w)) with (S (Nat.min n (length buf - S w))) by lia.
  rewrite Hl. split.
  - do 2 f_equal. destruct (decide _), (decide _); try lia; f_equal; lia.
  - rewrite (drop_S _ _ _ Hx). cbn [take]. by rewrite <- app_assoc in HR'.
Qed.

(** ** The invariant of the pipe *)

Definition point_ok (s : PipeState) (p : PipePoint) : Prop :=
  match p with
  | PReading max_len got => Z.of_nat (length got) ≤ max_len
  | PWriting buf k => (k ≤ length buf)%nat ∧ refs s = 2
  end.

Record pipe_inv (s : PipeState) (q : list Z) : Prop := {
  pi_ring : ring_rep (ring s) q;
  pi_sent : sent s = received s ++ q;
  pi_refs : refs s = 1 ∨ refs s = 2;
  pi_point t p : at_ s !! t = Some p → point_ok s p;
}.

(** A section of [read]: the bytes it takes, and when it ends the call. *)
Lemma read_section_ok s q closed max_len got :
  ring_rep s q → Z.of_nat (length got) ≤ max_len →
  let k := Nat.min (length q) (Z.to_nat max_len - length got) in
  ∃ r s', read_section closed max_len got s = (Ok r, s') ∧ ring_rep s' (drop k q) ∧
    match r with
    | Return got' => got' = got ++ take k q ∧
        (Z.of_nat (length got') = max_len ∧ (k < length q)%nat ∨ q = [] ∧ closed = true)
    | Again got' => got' = got ++ take k q ∧ k = length q ∧ (q = [] → closed = false)
    end.
Proof.
  intros HR Hg k. unfold read_section. erewrite M_bind_ok by reflexivity. rewrite (available_read_ok s q HR).
  destruct q as [|x q'].
  - exists (if closed then Return got else Again got), s. cbn. subst k. cbn.
    split; [done|]. split; [done|]. rewrite app_nil_r. destruct closed; naive_solver.
  - set (q := x :: q') in *. rewrite (proj2 (Z.eqb_neq _ 0)) by (unfold q; cbn; lia). rewrite Nat2Z.id.
    destruct (read_for_ok (length q) max_len got s q HR ltac:(lia) Hg) as (s'&Hr&HR'). fold k in Hr, HR'.
    eexists _, s'. split; [exact Hr|]. split; [done|]. case_decide as Hk.
    + split; [done|]. left. split; [|done]. rewrite length_app, length_take. lia.
    + split; [done|]. split; [lia|]. done.
Qed.

Lemma write_section_ok s q buf w :
  ring_rep s q → (w ≤ length buf)%nat →
  ∃ r s' k, write_section buf w s = (Ok r, s') ∧ (w + k ≤ length buf)%nat ∧
    ring_rep s' (q ++ take k (drop w buf)) ∧
    match r with Return w' => w' = (w + k)%nat ∧ w' = length buf | Again w' => w' = (w + k)%nat end.
Proof.
  intros HR Hw. pose proof (rr_len _ _ HR). unfold write_section. erewrite M_bind_ok by reflexivity.
  rewrite (available_write_ok s q HR). destruct (_ =? 0) eqn:E; bool_to_prop.
  - exists (Again w), s, 0%nat. cbn. rewrite app_nil_r. split_and!; [done|lia|done|lia].
  - destruct (write_for_ok (Z.to_nat (RING_BUFFER_SIZE - Z.of_nat (length q))) buf w s q HR) as (s'&Hr&HR');
      [lia|done|].
    eexists _, s', _. split; [exact Hr|]. split; [|split; [exact HR'|]]; [lia|].
    case_decide; [split; [done|]; lia|done].
Qed.

Lemma points_alter s t p :
  (∀ t' p', at_ s !! t' = Some p' → point_ok s p') → (∀ p', p = Some p' → point_ok s p') →
  ∀ t' p', partial_alter (λ _, p) t (at_ s) !! t' = Some p' → point_ok s p'.
Proof.
  intros Hp Hn t' p'. destruct (decide (t = t')) as [<-|Hne].
  - rewrite lookup_partial_alter_eq. apply Hn.
  - rewrite lookup_partial_alter_ne by done. apply Hp.
Qed.

Lemma read_act_inv s q t max_len got :
  pipe_inv s q → at_ s !! t = Some (PReading max_len got) →
  let k := Nat.min (length q) (Z.to_nat max_len - length got) in
  ∃ s', pipe_act (ASection t) s = Some (Ok s') ∧ pipe_inv s' (drop k q) ∧ sent s' = sent s ∧
    refs s' = refs s ∧ received s' = received s ++ take k q ∧
    match at_ s' !! t with
    | Some p => p = PReading max_len (got ++ take k q) ∧ k = length q ∧ (q = [] → refs s = 2)
    | None => (length got + k)%nat = Z.to_nat max_len ∧ (k < length q)%nat ∨ q = [] ∧ refs s = 1
    end.
Proof.
  intros HI Ht k. destruct HI as [HR Hs Hrf Hp]. pose proof (Hp t _ Ht) as Hg. cbn in Hg.
  destruct (read_section_ok (ring s) q (write_end_close s) max_len got HR Hg) as (r&ring'&Hr&HR'&Hres).
  fold k in HR', Hres. cbn [pipe_act]. rewrite Ht, Hr.
  assert (∃ got', r = Return got' ∨ r = Again got') as [got' Hr'] by (destruct r; eauto).
  assert (got' = got ++ take k q) as -> by (destruct Hr' as [->| ->]; naive_solver).
  exists {| ring := ring'; refs := refs s;
    at_ := partial_alter (λ _, match r with Return _ => None | Again g => Some (PReading max_len g) end) t (at_ s);
    sent := sent s; received := received s ++ take k q |}.
  split; [by destruct Hr' as [->| ->]; rewrite drop_app_length|].
  assert (Z.of_nat (length (got ++ take k q)) ≤ max_len) as Hl' by (rewrite length_app, length_take; lia).
  split; [split; cbn; try done|split_and!; try done].
  - by rewrite Hs, <- app_assoc, take_drop.
  - apply points_alter; [done|]. destruct Hr' as [->| ->]; [done|]. by intros p' [= <-].
  - cbn. rewrite lookup_partial_alter_eq. unfold write_end_close in Hres. destruct Hr' as [->| ->].
    + destruct Hres as [_ [[Hl Hk]|[-> Hc]]]; [left|right; by bool_to_prop].
      rewrite length_app, length_take in Hl. split; [lia|done].
    + destruct Hres as (_&Hk&Hc). split_and!; try done. intros Hq. specialize (Hc Hq). bool_to_prop. lia.
Qed.

Lemma write_act_inv s q t buf w :
  pipe_inv s q → at_ s !! t = Some (PWriting buf w) →
  ∃ s' k, pipe_act (ASection t) s = Some (Ok s') ∧ pipe_inv s' (q ++ take k (drop w buf)) ∧
    sent s' = sent s ++ take k (drop w buf) ∧ received s' = received s ∧
    (at_ s' !! t = None → (w + k)%nat = length buf).
Proof.
  intros HI Ht. destruct HI as [HR Hs Hrf Hp]. pose proof (Hp t _ Ht) as [Hw Href].
  destruct (write_section_ok (ring s) q buf w HR Hw) as (r&ring'&k&Hr&Hk&HR'&Hres).
  cbn [pipe_act]. rewrite Ht, Hr. exists {| ring := ring'; refs := refs s;
    at_ := partial_alter (λ _, match r with Return _ => None | Again w' => Some (PWriting buf w') end) t (at_ s);
    sent := sent s ++ take k (drop w buf); received := received s |}, k.
  assert (r = Return (w + k)%nat ∨ r = Again (w + k)%nat) as Hr' by (destruct r; [left|right]; naive_solver).
  split; [by destruct Hr' as [->| ->]; replace (w + k - w)%nat with k by lia|].
  split; [split; cbn; try done|split_and!; try done].
  - by rewrite Hs, app_assoc.
  - apply points_alter; [done|]. destruct Hr' as [->| ->]; [done|]. by intros p' [= <-].
  - cbn. rewrite lookup_partial_alter_eq. destruct Hr' as [->| ->]; [|done]. naive_solver.
Qed.

Lemma pipe_act_inv a s q r :
  pipe_inv s q → pipe_act a s = Some r → ∃ s' q', r = Ok s' ∧ pipe_inv s' q'.
Proof.
  intros HI Ha. destruct a as [t n|t buf|t|].
  - cbn [pipe_act] in Ha. case_decide as Hd; [|done]. injection Ha as <-. eexists _, q. split; [done|].
    destruct HI as [? ? ? Hp]. split; try done. apply points_alter; [done|]. intros p' [= <-]. cbn. lia.
  - cbn [pipe_act] in Ha. case_decide as Hd; [|done]. injection Ha as <-. eexists _, q. split; [done|].
    destruct HI as [? ? ? Hp]. split; try done. apply points_alter; [done|]. intros p' [= <-]. cbn.
    split; [lia|apply Hd].
  - destruct (at_ s !! t) as [[max_len got|buf w]|] eqn:Ht; [| |cbn in Ha; by rewrite Ht in Ha].
    + destruct (read_act_inv s q t max_len got HI Ht) as (s'&Hs&HI'&_). simplify_eq. by eexists _, _.
    + destruct (write_act_inv s q t buf w HI Ht) as (s'&k&Hs&HI'&_). simplify_eq. by eexists _, _.
  - cbn [pipe_act] in Ha. case_decide as Hd; [|done]. injection Ha as <-. eexists _, q. split; [done|].
    destruct HI as [? ? ? Hp]. split; try done; [by left|]. intros t' p Ht. cbn in Ht. pose proof (Hp t' p Ht).
    destruct Hd as [_ Hr]. specialize (Hr t' p Ht). by destruct p.
Qed.

Lemma pipe_reach_inv s : pipe_reach s → ∃ q, pipe_inv s q.
Proof.
  induction 1 as [|s a s' Hr [q HI] Ha].
  - exists []. split; [apply ring_new_rep|done|by right|intros t p; cbn; by rewrite lookup_empty].
  - destruct (pipe_act_inv a s q _ HI Ha) as (s2&q'&[= <-]&HI'). by exists q'.
Qed.

(** C14: A pipe delivers what is written to it.  In every interleaving of the tasks that
    read and write: the bytes received are a prefix of the bytes sent, in order, and at
    most 256 bytes are in between; no section panics; a call of [read] returns only
    when its buffer is full, or when the pipe is empty and its write end is closed. *)
Theorem pipe_delivers s :
  pipe_reach s →
  (∃ q, sent s = received s ++ q ∧ Z.of_nat (length q) ≤ RING_BUFFER_SIZE) ∧
  (∀ a r, pipe_act a s = Some r → ∃ s', r = Ok s') ∧
  (∀ t max_len got s', at_ s !! t = Some (PReading max_len got) → pipe_act (ASection t) s = Some (Ok s') →
     ∃ l, received s' = received s ++ l ∧
       match at_ s' !! t with
       | Some p => p = PReading max_len (got ++ l)
       | None => Z.of_nat (length (got ++ l)) = max_len ∨ refs s = 1 ∧ received s' = sent s'
       end).
Proof.
  intros [q HI]%pipe_reach_inv. split; [|split].
  - exists q. split; [apply (pi_sent _ _ HI)|apply (rr_len _ _ (pi_ring _ _ HI))].
  - intros a r Ha. destruct (pipe_act_inv a s q r HI Ha) as (s'&_&->&_). by exists s'.
  - intros t max_len got s' Ht Ha. pose proof (pi_point _ _ HI t _ Ht) as Hg. cbn in Hg.
    destruct (read_act_inv s q t max_len got HI Ht) as (s2&Ha2&HI'&Hse&_&Hrc&Hres). simplify_eq.
    eexists. split; [done|]. destruct (at_ s' !! t) as [p|]; [apply Hres|].
    destruct Hres as [[Hl Hk]|[-> Hrf]]; [left|right].
    + rewrite length_app, length_take. lia.
    + split; [done|]. rewrite Hse, Hrc, (pi_sent _ _ HI). by rewrite take_nil, !app_nil_r.
Qed.

(** A read that has filled its buffer need not return.  When the bytes in the pipe
    are just as many as it needs, it takes them and goes on; while the pipe is empty
    and its write end is open, every further turn leaves the state as it is. *)
Theorem pipe_read_waits_for_more s t max_len got :
  pipe_reach s → at_ s !! t = Some (PReading max_len got) → Z.of_nat (length got) = max_len →
  sent s = received s → refs s = 2 →
  pipe_act (ASection t) s = Some (Ok s).
Proof.
  intros [q HI]%pipe_reach_inv Ht Hl Hs Hr.
  assert (q = []) as ->.
  { pose proof (f_equal length (pi_sent _ _ HI)) as Hq. rewrite Hs, length_app in Hq. apply nil_length_inv. lia. }
  destruct HI as [HR _ _ _].
  assert (read_section false max_len got (ring s) = (Ok (Again got), ring s)) as Hrs.
  { unfold read_section. erewrite M_bind_ok by reflexivity. by rewrite (available_read_ok _ _ HR). }
  cbn [pipe_act]. rewrite Ht. unfold write_end_close. rewrite Hr. change (2 =? 1) with false. rewrite Hrs.
  rewrite drop_all, app_nil_r, partial_alter_id by done. rewrite <- Hr. by destruct s.
Qed.

Fixpoint pipe_run (l : list PipeAct) (s : PipeState) : option PipeState :=
  match l with
  | [] => Some s
  | a :: l => match pipe_act a s with Some (Ok s') => pipe_run l s' | _ => None end
  end.

Lemma pipe_run_reach l s s' : pipe_reach s → pipe_run l s = Some s' → pipe_reach s'.
Proof.
  revert s. induction l as [|a l IH]; intros s Hr; cbn; [by intros [= <-]|].
  destruct (pipe_act a s) as [[s1| | |]|] eqn:E; try done. apply IH. by apply (pr_act s a).
Qed.

(** Task 1 writes three bytes and task 2 reads three. *)
Definition example_acts : list PipeAct := [AWrite 1 [5; 6; 7]; ASection 1; ARead 2 3; ASection 2].
Definition example_pipe : PipeState := default pipe_new (pipe_run example_acts pipe_new).

Lemma example_pipe_reach : pipe_reach example_pipe.
Proof. apply (pipe_run_reach example_acts pipe_new); [apply pr_new|reflexivity]. Qed.

Lemma pipe_delivers_witness : sent example_pipe = [5; 6; 7] ∧ received example_pipe = [5; 6; 7] ∧
  ∃ q, sent example_pipe = received example_pipe ++ q ∧ Z.of_nat (length q) ≤ RING_BUFFER_SIZE.
Proof.
  split; [reflexivity|]. split; [reflexivity|].
  exact (proj1 (pipe_delivers example_pipe example_pipe_reach)).
Defined.

Lemma pipe_read_waits_for_more_witness :
  at_ example_pipe !! 2%nat = Some (PReading 3 [5; 6; 7]) ∧ pipe_act (ASection 2) example_pipe = Some (Ok example_pipe).
Proof.
  split; [reflexivity|].
  exact (pipe_read_waits_for_more example_pipe 2 3 [5; 6; 7] example_pipe_reach eq_refl eq_refl eq_refl eq_refl).
Defined.
