(* ===== verification/Disk.v ===== *)
(** * Block devices and the disk cursor
      ([crates/driver_block], [modules/axfs/src/dev.rs], the disk in [fs/fatfs.rs])

    A block device reads and writes whole blocks of 512 bytes.  [Disk] turns it into a
    stream of bytes with a cursor, which the FAT file system works on.  The RAM disk
    is a block device. *)

From Stdlib Require Import ZArith Lia.
From stdpp Require Import base decidable numbers list.
From S2P Require Import Prelude LinkedList.

Local Open Scope Z_scope.

Inductive DevError : Set :=
| DevAlreadyExists | DevAgain | DevBadState | DevInvalidParam | DevIo | DevNoMemory | DevResourceBusy
| DevUnsupported.

Definition BLOCK_SIZE : Z := 512.

(** ** Block devices *)

Class BlockDriverOps (D : Type) : Type := {
  num_blocks : D → Z;
  block_size : D → Z;
  read_block : Z → Z → M D DevError (list Z);
  write_block : Z → list Z → M D DevError unit;
}.

(** The RAM disk. *)
Record RamDisk : Type := { rd_size : Z; rd_data : list Z }.

Definition rd_align_up (val : Z) : Z := Z.land (sub64 (add64 val BLOCK_SIZE) 1) (not64 (BLOCK_SIZE - 1)).
Definition RamDisk_new (size_hint : Z) : RamDisk :=
  let size := rd_align_up size_hint in {| rd_size := size; rd_data := replicate (Z.to_nat size) 0 |}.

(** [data[..buf.len()].copy_from_slice(buf)] panics when the sizes do not fit. *)
Definition RamDisk_from (buf : list Z) : res DevError RamDisk :=
  let size := rd_align_up (Z.of_nat (length buf)) in
  if size <? Z.of_nat (length buf) then Panic
  else Ok {| rd_size := size; rd_data := buf ++ replicate (Z.to_nat size - length buf) 0 |}.

(** A slice of the data panics outside of it. *)
Definition rd_range (offset len : Z) (data : list Z) : bool :=
  ((offset <=? add64 offset len) && (add64 offset len <=? Z.of_nat (length data)))%bool.
Definition rd_read_block (block_id len : Z) : M RamDisk DevError (list Z) :=
  d ← get_state;
  let offset := mul64 block_id BLOCK_SIZE in
  if rd_size d <? add64 offset len then throw DevIo
  else if negb (len mod BLOCK_SIZE =? 0) then throw DevInvalidParam
  else if negb (rd_range offset len (rd_data d)) then panic
  else mret (take (Z.to_nat len) (drop (Z.to_nat offset) (rd_data d))).
Definition rd_write_block (block_id : Z) (buf : list Z) : M RamDisk DevError unit :=
  d ← get_state;
  let offset := mul64 block_id BLOCK_SIZE in
  let len := Z.of_nat (length buf) in
  if rd_size d <? add64 offset len then throw DevIo
  else if negb (len mod BLOCK_SIZE =? 0) then throw DevInvalidParam
  else if negb (rd_range offset len (rd_data d)) then panic
  else put_state {| rd_size := rd_size d;
                    rd_data := take (Z.to_nat offset) (rd_data d) ++ buf ++
                               drop (Z.to_nat offset + length buf) (rd_data d) |}.

#[export] Instance RamDisk_ops : BlockDriverOps RamDisk := {|
  num_blocks d := rd_size d / BLOCK_SIZE;
  block_size _ := BLOCK_SIZE;
  read_block := rd_read_block;
  write_block := rd_write_block;
|}.

(** ** [Disk] *)

Record Disk (D : Type) : Type := { block_id : Z; offset_ : Z; dev : D }.
Arguments block_id {D}.
Arguments offset_ {D}.
Arguments dev {D}.

Section disk.
Context {D : Type} `{BlockDriverOps D}.
Local Abbreviation DM := (M (Disk D)).

Definition Disk_new (d : D) : res DevError (Disk D) :=
  if BLOCK_SIZE =? block_size d then Ok {| block_id := 0; offset_ := 0; dev := d |} else Panic.
Definition disk_size (s : Disk D) : Z := mul64 (num_blocks (dev s)) BLOCK_SIZE.
Definition disk_position (s : Disk D) : Z := add64 (mul64 (block_id s) BLOCK_SIZE) (offset_ s).
Definition set_position {E} (pos : Z) : DM E unit :=
  modify (λ s, {| block_id := pos / BLOCK_SIZE; offset_ := pos mod BLOCK_SIZE; dev := dev s |}).

Definition on_dev {A} (m : M D DevError A) : DM DevError A := λ s,
  let '(r, d) := m (dev s) in (r, {| block_id := block_id s; offset_ := offset_ s; dev := d |}).
Definition next_block : DM DevError unit :=
  modify (λ s, {| block_id := add64 (block_id s) 1; offset_ := offset_ s; dev := dev s |}).
(** The cursor moves within a block. *)
Definition advance (count : Z) : DM DevError unit :=
  modify (λ s, let offset := add64 (offset_ s) count in
               if BLOCK_SIZE <=? offset
               then {| block_id := add64 (block_id s) 1; offset_ := sub64 offset BLOCK_SIZE; dev := dev s |}
               else {| block_id := block_id s; offset_ := offset; dev := dev s |}).

Definition read_one (len : Z) : DM DevError (list Z) :=
  s ← get_state;
  if ((offset_ s =? 0) && (BLOCK_SIZE <=? len))%bool then
    data ← on_dev (read_block (block_id s) BLOCK_SIZE); _ ← next_block; mret data
  else
    let start := offset_ s in
    let count := Z.min len (sub64 BLOCK_SIZE (offset_ s)) in
    data ← on_dev (read_block (block_id s) BLOCK_SIZE);
    _ ← advance count;
    mret (take (Z.to_nat count) (drop (Z.to_nat start) data)).
Definition write_one (buf : list Z) : DM DevError Z :=
  s ← get_state;
  let len := Z.of_nat (length buf) in
  if ((offset_ s =? 0) && (BLOCK_SIZE <=? len))%bool then
    _ ← on_dev (write_block (block_id s) (take (Z.to_nat BLOCK_SIZE) buf)); _ ← next_block; mret BLOCK_SIZE
  else
    let start := offset_ s in
    let count := Z.min len (sub64 BLOCK_SIZE (offset_ s)) in
    data ← on_dev (read_block (block_id s) BLOCK_SIZE);
    let data := take (Z.to_nat start) data ++ take (Z.to_nat count) buf ++ drop (Z.to_nat (start + count)) data in
    _ ← on_dev (write_block (block_id s) data);
    _ ← advance count;
    mret count.

(** ** The stream ([impl Read], [Write] and [Seek] for [Disk])

    An error of the device is the error [()]; every turn of a loop moves a byte or
    more. *)

Definition ignore_err {A} (m : DM DevError A) : DM unit A := λ s,
  match m s with
  | (Ok a, s') => (Ok a, s')
  | (Err _, s') => (Err tt, s')
  | (Panic, s') => (Panic, s')
  | (OutOfFuel, s') => (OutOfFuel, s')
  end.
Fixpoint disk_read_loop (fuel : nat) (n : Z) (read : list Z) : DM unit (list Z) :=
  match fuel with
  | O => out_of_fuel
  | S fuel =>
      if n =? 0 then mret read
      else
        l ← ignore_err (read_one n);
        if bool_decide (l = []) then mret read
        else disk_read_loop fuel (n - Z.of_nat (length l)) (read ++ l)
  end.
Definition disk_read (n : Z) : DM unit (list Z) := disk_read_loop (S (Z.to_nat n)) n [].
Fixpoint disk_write_loop (fuel : nat) (buf : list Z) (write_len : Z) : DM unit Z :=
  match fuel with
  | O => out_of_fuel
  | S fuel =>
      if bool_decide (buf = []) then mret write_len
      else
        n ← ignore_err (write_one buf);
        if n =? 0 then mret write_len
        else disk_write_loop fuel (drop (Z.to_nat n) buf) (add64 write_len n)
  end.
Definition disk_write (buf : list Z) : DM unit Z := disk_write_loop (S (length buf)) buf 0.

Inductive DiskSeek : Set := DStart (pos : Z) | DCurrent (off : Z) | DEnd (off : Z).
(** [u64::checked_add_signed]. *)
Definition checked_add (a b : Z) : option Z :=
  if ((0 <=? a + b) && (a + b <? 2 ^ 64))%bool then Some (a + b) else None.
Definition disk_seek (pos : DiskSeek) : DM unit Z :=
  s ← get_state;
  match match pos with
        | DStart pos => Some pos
        | DCurrent off => checked_add (disk_position s) off
        | DEnd off => checked_add (disk_size s) off
        end with
  | Some new_pos => _ ← set_position new_pos; mret new_pos
  | None => throw tt
  end.
End disk.

(** ** The specification of a block device

    [bytes] is its content; a block is read and written whole. *)

Definition slice (p n : Z) (l : list Z) : list Z := take (Z.to_nat n) (drop (Z.to_nat p) l).
Definition splice (p : Z) (x l : list Z) : list Z :=
  take (Z.to_nat p) l ++ x ++ drop (Z.to_nat p + length x) l.

Class BlockSpec (D : Type) `{BlockDriverOps D} : Type := {
  bytes : D → list Z;
  dev_ok : D → Prop;
  bs_size d : dev_ok d → block_size d = BLOCK_SIZE ∧
    Z.of_nat (length (bytes d)) = num_blocks d * BLOCK_SIZE ∧ num_blocks d * BLOCK_SIZE < 2 ^ 63;
  bs_read d i : dev_ok d → 0 ≤ i < num_blocks d →
    ∃ d', read_block i BLOCK_SIZE d = (Ok (slice (i * BLOCK_SIZE) BLOCK_SIZE (bytes d)), d') ∧ dev_ok d' ∧
      bytes d' = bytes d ∧ num_blocks d' = num_blocks d;
  bs_write d i x : dev_ok d → 0 ≤ i < num_blocks d → Z.of_nat (length x) = BLOCK_SIZE →
    ∃ d', write_block i x d = (Ok tt, d') ∧ dev_ok d' ∧ bytes d' = splice (i * BLOCK_SIZE) x (bytes d) ∧
      num_blocks d' = num_blocks d;
}.

(** *** Slices and splices *)

Lemma splice_length p x l :
  0 ≤ p → p + Z.of_nat (length x) ≤ Z.of_nat (length l) → length (splice p x l) = length l.
Proof. intros. unfold splice. rewrite !length_app, length_take, length_drop. lia. Qed.

Lemma lookup_splice p x l i :
  0 ≤ p → p + Z.of_nat (length x) ≤ Z.of_nat (length l) →
  splice p x l !! i =
    if decide (Z.to_nat p ≤ i < Z.to_nat p + length x)%nat then x !! (i - Z.to_nat p)%nat else l !! i.
Proof.
  intros H0 Hl. unfold splice. case_decide as Hi.
  - rewrite lookup_app_r by (rewrite length_take; lia). rewrite length_take, Nat.min_l by lia.
    by rewrite lookup_app_l by lia.
  - destruct (decide (i < Z.to_nat p)%nat).
    + rewrite lookup_app_l by (rewrite length_take; lia). by rewrite lookup_take_lt by lia.
    + rewrite lookup_app_r by (rewrite length_take; lia). rewrite length_take, Nat.min_l by lia.
      rewrite lookup_app_r, lookup_drop by lia. f_equal. lia.
Qed.

Lemma lookup_slice p n l i : slice p n l !! i = if decide (i < Z.to_nat n)%nat then l !! (Z.to_nat p + i)%nat else None.
Proof.
  unfold slice. case_decide; [by rewrite lookup_take_lt, lookup_drop by lia|by rewrite lookup_take_ge by lia].
Qed.

Lemma slice_length p n l :
  0 ≤ p → 0 ≤ n → p + n ≤ Z.of_nat (length l) → Z.of_nat (length (slice p n l)) = n.
Proof. intros. unfold slice. rewrite length_take, length_drop. lia. Qed.

(** Two writes one after the other; a write inside of a block; what was written. *)
Lemma splice_app p x y l :
  0 ≤ p → p + Z.of_nat (length x + length y) ≤ Z.of_nat (length l) →
  splice (p + Z.of_nat (length x)) y (splice p x l) = splice p (x ++ y) l.
Proof.
  intros H0 Hl. apply list_eq. intros i. rewrite !lookup_splice by (rewrite ?splice_length, ?length_app; lia).
  rewrite length_app. repeat case_decide; try lia; try done.
  - rewrite lookup_app_r by lia. f_equal. lia.
  - by rewrite lookup_app_l by lia.
Qed.

Lemma splice_in_block b n s x l :
  0 ≤ b → 0 ≤ s → 0 ≤ n → s + Z.of_nat (length x) ≤ n → b + n ≤ Z.of_nat (length l) →
  splice b (splice s x (slice b n l)) l = splice (b + s) x l.
Proof.
  intros Hb Hs Hn Hx Hl. pose proof (slice_length b n l Hb Hn Hl) as Hsl.
  assert (Z.of_nat (length (splice s x (slice b n l))) = n) as Hsp by (rewrite splice_length; lia).
  apply list_eq. intros i. rewrite !lookup_splice by lia. rewrite lookup_slice.
  repeat case_decide; try lia; try done; f_equal; lia.
Qed.

Lemma slice_splice p x l :
  0 ≤ p → p + Z.of_nat (length x) ≤ Z.of_nat (length l) → slice p (Z.of_nat (length x)) (splice p x l) = x.
Proof.
  intros. unfold slice, splice. rewrite drop_app_length' by (rewrite length_take; lia).
  by rewrite Nat2Z.id, take_app_length.
Qed.

Lemma slice_app p n m l :
  0 ≤ p → 0 ≤ n → 0 ≤ m → slice p (n + m) l = slice p n l ++ slice (p + n) m l.
Proof.
  intros. unfold slice. rewrite !Z2Nat.inj_add by lia. rewrite <- drop_drop. by rewrite take_take_drop.
Qed.

Lemma slice_slice p n s m l :
  0 ≤ p → 0 ≤ s → 0 ≤ m → s + m ≤ n → slice s m (slice p n l) = slice (p + s) m l.
Proof.
  intros. apply list_eq. intros i. rewrite !lookup_slice.
  repeat case_decide; try lia; try done. f_equal. lia.
Qed.

(** ** The disk is a stream of the bytes of its device *)

Section stream.
Context {D : Type} `{BD : BlockDriverOps D} `{BS : !BlockSpec D}.

Definition content (s : Disk D) : list Z := bytes (dev s).
Definition disk_len (s : Disk D) : Z := Z.of_nat (length (content s)).
Definition pos (s : Disk D) : Z := block_id s * BLOCK_SIZE + offset_ s.
Record disk_ok (s : Disk D) : Prop := {
  do_dev : dev_ok (dev s);
  do_offset : 0 ≤ offset_ s < BLOCK_SIZE;
  do_block : 0 ≤ block_id s;
  do_pos : pos s < 2 ^ 63;
}.

(** The block of the cursor is on the device. *)
Lemma block_in_range s :
  disk_ok s → pos s < disk_len s →
  block_id s < num_blocks (dev s) ∧ block_id s * BLOCK_SIZE + BLOCK_SIZE ≤ disk_len s ∧ disk_len s < 2 ^ 63.
Proof.
  intros [Hd Ho Hb _] Hp. destruct (bs_size _ Hd) as (_&Hs&Hl). unfold pos, disk_len, content, BLOCK_SIZE in *. lia.
Qed.

(** The state with the cursor moved on and another device state. *)
Definition moved (s : Disk D) (d : D) (p : Z) : Disk D :=
  {| block_id := p / BLOCK_SIZE; offset_ := p mod BLOCK_SIZE; dev := d |}.

Lemma moved_ok s d p : dev_ok d → 0 ≤ p < 2 ^ 63 → disk_ok (moved s d p) ∧ pos (moved s d p) = p.
Proof.
  intros Hd Hp. unfold moved, BLOCK_SIZE.
  assert (pos {| block_id := p / 512; offset_ := p mod 512; dev := d |} = p) as Hpos.
  { unfold pos, BLOCK_SIZE. cbn. Z.div_mod_to_equations. lia. }
  split; [|done]. split; cbn; [done|by apply Z.mod_pos_bound|apply Z.div_pos; lia|lia].
Qed.

Lemma next_block_ok s d :
  disk_ok s → offset_ s = 0 → pos s + BLOCK_SIZE < 2 ^ 63 →
  next_block {| block_id := block_id s; offset_ := offset_ s; dev := d |} = (Ok tt, moved s d (pos s + BLOCK_SIZE)).
Proof.
  intros [_ _ Hb _] Ho Hp. unfold next_block, modify, moved, pos, BLOCK_SIZE in *. cbn.
  rewrite add64_small by (unfold in_u64; lia). do 3 f_equal; Z.div_mod_to_equations; lia.
Qed.

Lemma advance_ok s d k :
  disk_ok s → 0 ≤ k → offset_ s + k ≤ BLOCK_SIZE → pos s + k < 2 ^ 63 →
  advance k {| block_id := block_id s; offset_ := offset_ s; dev := d |} = (Ok tt, moved s d (pos s + k)).
Proof.
  intros [_ Ho Hb _] Hk Hle Hp. unfold advance, modify, moved, pos, BLOCK_SIZE in *. cbn.
  rewrite add64_small by (unfold in_u64; lia). destruct (512 <=? _) eqn:E; bool_to_prop.
  - rewrite add64_small, sub64_small by (unfold in_u64; lia). do 3 f_equal; Z.div_mod_to_equations; lia.
  - do 3 f_equal; Z.div_mod_to_equations; lia.
Qed.

(** How far one turn goes. *)
Definition step_len (s : Disk D) (n : Z) : Z := Z.min n (BLOCK_SIZE - offset_ s).

Lemma read_one_ok s n :
  disk_ok s → 0 < n → pos s < disk_len s →
  ∃ d', read_one n s = (Ok (slice (pos s) (step_len s n) (content s)), moved s d' (pos s + step_len s n)) ∧
    dev_ok d' ∧ bytes d' = content s ∧ num_blocks d' = num_blocks (dev s).
Proof.
  intros Hok Hn Hp. destruct (block_in_range s Hok Hp) as (Hb&Hbl&Hlt). pose proof (do_offset _ Hok) as Ho.
  pose proof (do_block _ Hok). destruct (bs_read (dev s) (block_id s) (do_dev _ Hok) ltac:(lia)) as (d'&Hr&Hd&Hby&Hnb).
  exists d'. split; [|done]. unfold read_one. erewrite M_bind_ok by reflexivity.
  assert (on_dev (read_block (block_id s) BLOCK_SIZE) s = (Ok (slice (block_id s * BLOCK_SIZE) BLOCK_SIZE (content s)),
    {| block_id := block_id s; offset_ := offset_ s; dev := d' |})) as Hrd by (unfold on_dev; by rewrite Hr).
  unfold step_len in *. destruct (_ && _)%bool eqn:E.
  - apply andb_true_iff in E as [E1 E2]. bool_to_prop.
    erewrite M_bind_ok by exact Hrd. unfold pos in *.
    erewrite M_bind_ok by (apply next_block_ok; [done..|unfold pos, disk_len, BLOCK_SIZE in *; lia]).
    unfold mret, M_ret, pos. rewrite E1, Z.add_0_r, Z.sub_0_r, Z.min_r by lia. done.
  - clear E. erewrite M_bind_ok by exact Hrd. rewrite sub64_small by (unfold in_u64, BLOCK_SIZE in *; lia).
    erewrite M_bind_ok by (apply advance_ok; [done|lia|lia|unfold pos, disk_len, BLOCK_SIZE in *; lia]).
    unfold mret, M_ret. do 2 f_equal.
    change (take _ (drop _ ?l)) with (slice (offset_ s) (Z.min n (BLOCK_SIZE - offset_ s)) l).
    apply slice_slice; unfold BLOCK_SIZE in *; lia.
Qed.

Lemma write_one_ok s buf :
  disk_ok s → buf ≠ [] → pos s + Z.of_nat (length buf) ≤ disk_len s →
  let k := step_len s (Z.of_nat (length buf)) in
  ∃ d', write_one buf s = (Ok k, moved s d' (pos s + k)) ∧ dev_ok d' ∧
    bytes d' = splice (pos s) (take (Z.to_nat k) buf) (content s) ∧ num_blocks d' = num_blocks (dev s).
Proof.
  intros Hok Hne Hp k. assert (0 < Z.of_nat (length buf)) as Hn by (destruct buf; [done|cbn; lia]).
  destruct (block_in_range s Hok ltac:(lia)) as (Hb&Hbl&Hlt). pose proof (do_offset _ Hok) as Ho.
  pose proof (do_block _ Hok). pose proof (do_dev _ Hok) as Hdev. unfold write_one. erewrite M_bind_ok by reflexivity.
  destruct (_ && _)%bool eqn:E.
  - apply andb_true_iff in E as [E1 E2]. bool_to_prop.
    assert (k = BLOCK_SIZE) as -> by (unfold k, step_len; rewrite E1; lia).
    destruct (bs_write (dev s) (block_id s) (take (Z.to_nat BLOCK_SIZE) buf) Hdev ltac:(lia)) as (d'&Hw&Hd&Hby&Hnb).
    { rewrite length_take. unfold BLOCK_SIZE in *. lia. }
    exists d'. erewrite M_bind_ok by (unfold on_dev; by rewrite Hw).
    erewrite M_bind_ok by (apply next_block_ok; [done..|unfold pos, disk_len, BLOCK_SIZE in *; lia]).
    split; [done|]. split; [done|]. split; [|done]. unfold pos. by rewrite E1, Z.add_0_r.
  - clear E. destruct (bs_read (dev s) (block_id s) Hdev ltac:(lia)) as (d1&Hr&Hd1&Hby1&Hnb1).
    erewrite M_bind_ok by (unfold on_dev; by rewrite Hr).
    rewrite sub64_small by (unfold in_u64, BLOCK_SIZE in *; lia). fold (step_len s (Z.of_nat (length buf))). fold k.
    assert (0 < k ≤ Z.of_nat (length buf) ∧ k ≤ BLOCK_SIZE - offset_ s) as Hk by (unfold k, step_len in *; lia).
    assert (Z.of_nat (length (take (Z.to_nat k) buf)) = k) as Hlk by (rewrite length_take; lia).
    set (data := slice (block_id s * BLOCK_SIZE) BLOCK_SIZE (bytes (dev s))).
    assert (Z.of_nat (length data) = BLOCK_SIZE) as Hld
      by (apply slice_length; unfold disk_len, content, BLOCK_SIZE in *; lia).
    assert (take (Z.to_nat (offset_ s)) data ++ take (Z.to_nat k) buf ++ drop (Z.to_nat (offset_ s + k)) data =
      splice (offset_ s) (take (Z.to_nat k) buf) data) as -> by (unfold splice; do 3 f_equal; lia).
    destruct (bs_write d1 (block_id s) (splice (offset_ s) (take (Z.to_nat k) buf) data) Hd1 ltac:(lia))
      as (d2&Hw&Hd2&Hby2&Hnb2); [rewrite splice_length; lia|].
    exists d2. erewrite M_bind_ok by (unfold on_dev; cbn [dev block_id offset_]; by rewrite Hw).
    erewrite M_bind_ok by (apply advance_ok; [done|lia|lia|unfold pos, disk_len, BLOCK_SIZE in *; lia]).
    split; [done|]. split; [done|]. split; [|lia]. rewrite Hby2, Hby1. unfold data, pos.
    apply splice_in_block; unfold disk_len, content, BLOCK_SIZE in *; lia.
Qed.

Lemma disk_len_bound s : disk_ok s → disk_len s < 2 ^ 63.
Proof. intros Hok. destruct (bs_size _ (do_dev _ Hok)) as (_&Hs&Hl). unfold disk_len, content. lia. Qed.

Lemma disk_read_loop_ok fuel s n acc :
  disk_ok s → 0 ≤ n → pos s + n ≤ disk_len s → (Z.to_nat n < fuel)%nat →
  ∃ s', disk_read_loop fuel n acc s = (Ok (acc ++ slice (pos s) n (content s)), s') ∧ disk_ok s' ∧
    content s' = content s ∧ pos s' = pos s + n.
Proof.
  revert s n acc. induction fuel as [|fuel IH]; intros s n acc Hok Hn Hp Hf; [lia|]. cbn [disk_read_loop].
  pose proof (disk_len_bound s Hok). pose proof (do_offset _ Hok). pose proof (do_block _ Hok).
  destruct (n =? 0) eqn:E; bool_to_prop.
  { subst n. exists s. rewrite Z.add_0_r. unfold slice. cbn. by rewrite app_nil_r. }
  assert (0 ≤ pos s) by (unfold pos, BLOCK_SIZE; lia).
  destruct (read_one_ok s n Hok ltac:(lia) ltac:(lia)) as (d'&Hr&Hd&Hby&Hnb).
  assert (0 < step_len s n ≤ n) as Hk by (unfold step_len, BLOCK_SIZE in *; lia).
  pose proof (slice_length (pos s) (step_len s n) (content s) ltac:(lia) ltac:(lia)
    ltac:(unfold disk_len in *; lia)) as Hsl.
  erewrite M_bind_ok by (unfold ignore_err; by rewrite Hr). rewrite bool_decide_eq_false_2 by (intros He; rewrite He in Hsl; cbn in Hsl; lia).
  destruct (moved_ok s d' (pos s + step_len s n) Hd ltac:(lia)) as [Hok1 Hp1].
  assert (content (moved s d' (pos s + step_len s n)) = content s) as Hc1 by exact Hby.
  rewrite Hsl. destruct (IH _ (n - step_len s n) (acc ++ slice (pos s) (step_len s n) (content s)) Hok1)
    as (s'&Hl&Hok'&Hc'&Hp'); [lia|unfold disk_len in *; rewrite Hc1, Hp1; lia|lia|].
  exists s'. rewrite Hl, Hc1, Hp1, <- app_assoc, <- slice_app by lia.
  replace (step_len s n + (n - step_len s n)) with n by lia. split_and!; [done..|by rewrite Hc', Hc1|lia].
Qed.

Lemma disk_write_loop_ok fuel s buf w :
  disk_ok s → pos s + Z.of_nat (length buf) ≤ disk_len s → (length buf < fuel)%nat →
  0 ≤ w → w + Z.of_nat (length buf) < 2 ^ 64 →
  ∃ s', disk_write_loop fuel buf w s = (Ok (w + Z.of_nat (length buf)), s') ∧ disk_ok s' ∧
    content s' = splice (pos s) buf (content s) ∧ pos s' = pos s + Z.of_nat (length buf).
Proof.
  revert s buf w. induction fuel as [|fuel IH]; intros s buf w Hok Hp Hf Hw Hwl; [lia|]. cbn [disk_write_loop].
  pose proof (disk_len_bound s Hok). pose proof (do_offset _ Hok). pose proof (do_block _ Hok).
  assert (0 ≤ pos s) by (unfold pos, BLOCK_SIZE; lia).
  case_bool_decide as Hb.
  { subst buf. exists s. cbn. rewrite !Z.add_0_r. split_and!; try done. unfold splice. cbn.
    by rewrite Nat.add_0_r, take_drop. }
  assert (0 < length buf)%nat by (destruct buf; [done|cbn; lia]).
  destruct (write_one_ok s buf Hok Hb Hp) as (d'&Hr&Hd&Hby&Hnb). set (k := step_len s _) in *.
  assert (0 < k ≤ Z.of_nat (length buf)) as Hk by (unfold k, step_len, BLOCK_SIZE in *; lia).
  erewrite M_bind_ok by (unfold ignore_err; by rewrite Hr). rewrite (proj2 (Z.eqb_neq k 0)) by lia.
  destruct (moved_ok s d' (pos s + k) Hd ltac:(lia)) as [Hok1 Hp1].
  assert (Z.of_nat (length (take (Z.to_nat k) buf)) = k) as Hlk by (rewrite length_take; lia).
  assert (disk_len (moved s d' (pos s + k)) = disk_len s) as Hl1.
  { unfold disk_len, content in *. cbn. rewrite Hby, splice_length; lia. }
  rewrite add64_small by (unfold in_u64; lia).
  destruct (IH (moved s d' (pos s + k)) (drop (Z.to_nat k) buf) (w + k) Hok1) as (s'&Hl&Hok'&Hc'&Hp');
    [rewrite Hp1, Hl1, length_drop; lia|rewrite length_drop; lia|lia|rewrite length_drop; lia|].
  rewrite length_drop in Hl, Hp'. exists s'. rewrite Hl, Hc', Hp', Hp1. split_and!; [do 2 f_equal; lia|done| |lia].
  change (content (moved s d' (pos s + k))) with (bytes d'). rewrite Hby. rewrite <- Hlk at 1.
  rewrite splice_app by (rewrite ?length_take, ?length_drop; unfold disk_len in *; lia). by rewrite take_drop.
Qed.

(** C27: The disk is a stream of bytes over its blocks.  From any position, a read within
    the device returns the bytes there, and a write replaces just the bytes there, over
    any number of blocks and parts of blocks, and moves the cursor behind them; after a
    write and a seek back a read returns what was written. *)
Theorem disk_stream s data n :
  disk_ok s → pos s + Z.of_nat (length data) ≤ disk_len s → 0 ≤ n → pos s + n ≤ disk_len s →
  disk_position s = pos s ∧
  (∃ s', disk_read n s = (Ok (slice (pos s) n (content s)), s') ∧ content s' = content s ∧ pos s' = pos s + n ∧
     disk_ok s') ∧
  ∃ s1, disk_write data s = (Ok (Z.of_nat (length data)), s1) ∧
    content s1 = splice (pos s) data (content s) ∧ pos s1 = pos s + Z.of_nat (length data) ∧ disk_ok s1 ∧
    ∃ s2, (_ ← disk_seek (DStart (pos s)); disk_read (Z.of_nat (length data))) s1 = (Ok data, s2) ∧
      content s2 = content s1 ∧ disk_ok s2.
Proof.
  intros Hok Hp Hn Hpn. pose proof (disk_len_bound s Hok). pose proof (do_offset _ Hok). pose proof (do_block _ Hok).
  assert (0 ≤ pos s) by (unfold pos, BLOCK_SIZE; lia). split; [|split].
  - unfold disk_position, mul64, pos, BLOCK_SIZE in *. rewrite wrap_small by lia. rewrite add64_small; unfold in_u64; lia.
  - destruct (disk_read_loop_ok (S (Z.to_nat n)) s n [] Hok Hn Hpn ltac:(lia)) as (s'&Hr&?&?&?). by exists s'.
  - destruct (disk_write_loop_ok (S (length data)) s data 0 Hok Hp ltac:(lia) ltac:(lia) ltac:(lia))
      as (s1&Hw&Hok1&Hc1&Hp1).
    exists s1. split_and!; try done.
    destruct (moved_ok s1 (dev s1) (pos s) (do_dev _ Hok1) ltac:(lia)) as [Hok2 Hp2].
    assert (disk_len (moved s1 (dev s1) (pos s)) = disk_len s) as Hl2.
    { unfold disk_len. change (content (moved s1 (dev s1) (pos s))) with (content s1).
      rewrite Hc1, splice_length; unfold disk_len in *; lia. }
    destruct (disk_read_loop_ok (S (Z.to_nat (Z.of_nat (length data)))) (moved s1 (dev s1) (pos s))
      (Z.of_nat (length data)) [] Hok2 ltac:(lia) ltac:(rewrite Hp2, Hl2; lia) ltac:(lia)) as (s2&Hr&?&?&?).
    exists s2. split_and!; try done. erewrite M_bind_ok by reflexivity.
    change (disk_read (Z.of_nat (length data)) (moved s1 (dev s1) (pos s)) = (Ok data, s2)).
    unfold disk_read. rewrite Hr, Hp2. change (content (moved s1 (dev s1) (pos s))) with (content s1).
    rewrite Hc1, slice_splice; [done|lia|unfold disk_len in *; lia].
Qed.
End stream.

(** ** The RAM disk is a block device *)

Definition ramdisk_ok (d : RamDisk) : Prop :=
  rd_size d = Z.of_nat (length (rd_data d)) ∧ rd_size d mod BLOCK_SIZE = 0 ∧ rd_size d < 2 ^ 63.

Lemma rd_block_range d i :
  ramdisk_ok d → 0 ≤ i < rd_size d / BLOCK_SIZE →
  mul64 i BLOCK_SIZE = i * BLOCK_SIZE ∧ add64 (i * BLOCK_SIZE) BLOCK_SIZE = i * BLOCK_SIZE + BLOCK_SIZE ∧
  i * BLOCK_SIZE + BLOCK_SIZE ≤ rd_size d ∧ rd_range (i * BLOCK_SIZE) BLOCK_SIZE (rd_data d) = true.
Proof.
  intros (Hs&Hm&Hl) Hi. assert (i * BLOCK_SIZE + BLOCK_SIZE ≤ rd_size d) as Hle
    by (unfold BLOCK_SIZE in *; Z.div_mod_to_equations; lia).
  assert (add64 (i * BLOCK_SIZE) BLOCK_SIZE = i * BLOCK_SIZE + BLOCK_SIZE) as Ha
    by (apply add64_small; unfold in_u64, BLOCK_SIZE in *; lia).
  split_and!; try done; [apply wrap_small; unfold BLOCK_SIZE in *; lia|].
  unfold rd_range. rewrite Ha, (proj2 (Z.leb_le _ _)), (proj2 (Z.leb_le _ _)) by (unfold BLOCK_SIZE in *; lia). done.
Qed.

#[export] Program Instance RamDisk_spec : BlockSpec RamDisk := {| bytes := rd_data; dev_ok := ramdisk_ok |}.
Next Obligation.
  intros d (Hs&Hm&Hl). cbn. split; [done|]. unfold BLOCK_SIZE in *. Z.div_mod_to_equations. lia.
Qed.
Next Obligation.
  intros d i Hd Hi. destruct (rd_block_range d i Hd Hi) as (Hm&Ha&Hle&Hr). exists d. split_and!; try done.
  cbn. unfold rd_read_block, mbind, M_bind, get_state. rewrite Hm, Ha.
  rewrite (proj2 (Z.ltb_ge _ _)) by lia. cbn. by rewrite Hr.
Qed.
Next Obligation.
  intros d i x Hd Hi Hx. destruct (rd_block_range d i Hd Hi) as (Hm&Ha&Hle&Hr).
  exists {| rd_size := rd_size d; rd_data := splice (i * BLOCK_SIZE) x (rd_data d) |}. split_and!; try done.
  - cbn. unfold rd_write_block, mbind, M_bind, get_state, put_state. rewrite Hm, Hx, Ha.
    rewrite (proj2 (Z.ltb_ge _ _)) by lia. cbn. by rewrite Hr.
  - destruct Hd as (Hs&?&?). split; [|done]. cbn. rewrite splice_length; unfold BLOCK_SIZE in *; lia.
Qed.

Definition example_disk : Disk RamDisk := {| block_id := 0; offset_ := 510; dev := RamDisk_new 1000 |}.

Lemma disk_stream_witness :
  ∃ s1 s2, disk_write [1; 2; 3; 4] example_disk = (Ok 4, s1) ∧
    (_ ← disk_seek (DStart 510); disk_read 4) s1 = (Ok [1; 2; 3; 4], s2).
Proof.
  destruct (disk_stream example_disk [1; 2; 3; 4] 0) as (_&_&s1&Hw&_&_&_&s2&Hr&_).
  - split; [|vm_compute; split; [discriminate|reflexivity]|vm_compute; discriminate|vm_compute; reflexivity].
    split; [vm_compute; reflexivity|split; vm_compute; reflexivity].
  - vm_compute. discriminate.
  - lia.
  - vm_compute. discriminate.
  - exists s1, s2. split; [exact Hw|exact Hr].
Defined.
