(* ===== verification/SlabHeap.v ===== *)
(** * The slab heap ([crates/slab_allocator])

    Seven slabs of fixed-size blocks over a buddy allocator.  The free blocks of a
    slab form a list whose links are stored in the blocks themselves, so the
    operations run on a memory of links.  The buddy allocator is a third-party
    crate: an interface with the documented behaviour as its laws. *)

From stdpp Require Import base decidable numbers list gmap sets functions.
From Stdlib Require Import ZArith Lia.
From S2P Require Import Prelude LinkedList.

Local Open Scope Z_scope.

(** ** Data *)

(** [core::alloc::Layout], and what the type guarantees of its values. *)
Record Layout : Type := { lsize : Z; lalign : Z }.
Definition layout_ok (l : Layout) : Prop :=
  0 ≤ lsize l ∧ (∃ k, 0 ≤ k < 63 ∧ lalign l = 2 ^ k) ∧ lsize l < 2 ^ 63.

#[export] Instance Layout_eq_dec : EqDecision Layout.
Proof. solve_decision. Defined.

(** [core::alloc::AllocError]. *)
Inductive CoreAllocError : Set := CoreAllocErr.

Definition SET_SIZE : Z := 64.
Definition MIN_HEAP_SIZE : Z := 0x8000.

Inductive HeapAllocator : Set :=
| Slab64Bytes | Slab128Bytes | Slab256Bytes | Slab512Bytes | Slab1024Bytes | Slab2048Bytes
| Slab4096Bytes | BuddyAllocator.

(** The slabs by their block size. *)
Inductive SlabIx : Set := S64 | S128 | S256 | S512 | S1024 | S2048 | S4096.
#[export] Instance SlabIx_eq_dec : EqDecision SlabIx.
Proof. solve_decision. Defined.

(** The memory: the field [next] of the [FreeBlock] at an address. *)
Abbreviation Links := (gmap Z (option Z)).

Record FreeBlockList : Type := { fbl_len : Z; fbl_head : option Z }.
Record Slab : Type := { free_block_list : FreeBlockList; total_blocks : Z }.

(** [buddy_system_allocator::Heap<32>]. *)
Class Buddy (B : Type) : Type := {
  buddy_new : B;
  buddy_init : Z → Z → B → B;
  buddy_add_to_heap : Z → Z → B → B;
  buddy_alloc : Layout → B → option Z * B;
  buddy_dealloc : Z → Layout → B → B;
  buddy_stats_total_bytes : B → Z;
  buddy_stats_alloc_actual : B → Z;
}.

Record Heap (B : Type) : Type := {
  slab_64_bytes : Slab;
  slab_128_bytes : Slab;
  slab_256_bytes : Slab;
  slab_512_bytes : Slab;
  slab_1024_bytes : Slab;
  slab_2048_bytes : Slab;
  slab_4096_bytes : Slab;
  buddy_allocator : B;
}.
Arguments Build_Heap {B}.
Arguments slab_64_bytes {B}.
Arguments slab_128_bytes {B}.
Arguments slab_256_bytes {B}.
Arguments slab_512_bytes {B}.
Arguments slab_1024_bytes {B}.
Arguments slab_2048_bytes {B}.
Arguments slab_4096_bytes {B}.
Arguments buddy_allocator {B}.

(** ** Free block lists ([slab.rs]) *)

Local Abbreviation LkM := (M Links NoError).

Definition fbl_new_empty : FreeBlockList := {| fbl_len := 0; fbl_head := None |}.
Definition fbl_is_empty (l : FreeBlockList) : bool := negb (bool_decide (is_Some (fbl_head l))).

Definition fbl_pop (l : FreeBlockList) : LkM (option Z * FreeBlockList) :=
  match fbl_head l with
  | Some node =>
      m ← get_state;
      next ← unwrap (m !! node);
      _ ← put_state (<[node := None]> m);
      mret (Some node, {| fbl_len := sub64 (fbl_len l) 1; fbl_head := next |})
  | None => mret (None, l)
  end.

Definition fbl_push (free_block : Z) (l : FreeBlockList) : LkM FreeBlockList :=
  _ ← modify (<[free_block := fbl_head l]>);
  mret {| fbl_len := add64 (fbl_len l) 1; fbl_head := Some free_block |}.

(** [for i in (0..n).rev()]. *)
Fixpoint fbl_fill (n : nat) (start_addr block_size : Z) (l : FreeBlockList) : LkM FreeBlockList :=
  match n with
  | O => mret l
  | S i =>
      l ← fbl_push (add64 start_addr (mul64 (Z.of_nat i) block_size)) l;
      fbl_fill i start_addr block_size l
  end.
Definition fbl_new (start_addr block_size num_of_blocks : Z) : LkM FreeBlockList :=
  fbl_fill (Z.to_nat num_of_blocks) start_addr block_size fbl_new_empty.

(** ** Slabs *)

Definition slab_new (BLK_SIZE start_addr slab_size : Z) : LkM Slab :=
  let num_of_blocks := slab_size / BLK_SIZE in
  l ← fbl_new start_addr BLK_SIZE num_of_blocks;
  mret {| free_block_list := l; total_blocks := num_of_blocks |}.

Definition used_blocks (s : Slab) : Z := sub64 (total_blocks s) (fbl_len (free_block_list s)).

(** [while let Some(block) = block_list.pop()]: once per block and once more. *)
Fixpoint slab_grow_loop (fuel : nat) (block_list l : FreeBlockList) : LkM FreeBlockList :=
  match fuel with
  | O => out_of_fuel
  | S fuel =>
      '(block, block_list) ← fbl_pop block_list;
      match block with
      | Some block => l ← fbl_push block l; slab_grow_loop fuel block_list l
      | None => mret l
      end
  end.
Definition slab_grow (BLK_SIZE start_addr slab_size : Z) (s : Slab) : LkM Slab :=
  let num_of_blocks := slab_size / BLK_SIZE in
  block_list ← fbl_new start_addr BLK_SIZE num_of_blocks;
  l ← slab_grow_loop (S (Z.to_nat num_of_blocks)) block_list (free_block_list s);
  mret {| free_block_list := l; total_blocks := add64 (total_blocks s) num_of_blocks |}.

Section heap.
Context {B : Type} `{Buddy B}.

(** A slab with the memory and the buddy allocator it is given. *)
Record SlabSt : Type := { ss_mem : Links; ss_slab : Slab; ss_buddy : B }.

(** The part of a state an operation of the lists or of the slab runs on. *)
Definition on_links {E A} (m : LkM A) : M SlabSt E A := λ st,
  let '(r, lk) := m (ss_mem st) in
  (match r with Ok a => Ok a | Err e => match e with end | Panic => Panic | OutOfFuel => OutOfFuel end,
   {| ss_mem := lk; ss_slab := ss_slab st; ss_buddy := ss_buddy st |}).
Definition set_ss_slab {E} (s : Slab) : M SlabSt E unit :=
  modify (λ st, {| ss_mem := ss_mem st; ss_slab := s; ss_buddy := ss_buddy st |}).
Definition set_free_list {E} (l : FreeBlockList) : M SlabSt E unit :=
  modify (λ st, {| ss_mem := ss_mem st;
                   ss_slab := {| free_block_list := l; total_blocks := total_blocks (ss_slab st) |};
                   ss_buddy := ss_buddy st |}).

Definition slab_pop : M SlabSt CoreAllocError (option Z) :=
  st ← get_state;
  '(b, l) ← on_links (fbl_pop (free_block_list (ss_slab st)));
  _ ← set_free_list l;
  mret b.

Definition slab_allocate (BLK_SIZE : Z) (_layout : Layout) : M SlabSt CoreAllocError Z :=
  b ← slab_pop;
  match b with
  | Some block => mret block
  | None =>
      let layout := {| lsize := mul64 SET_SIZE BLK_SIZE; lalign := 4096 |} in
      st ← get_state;
      let '(ptr, buddy) := buddy_alloc layout (ss_buddy st) in
      _ ← put_state {| ss_mem := ss_mem st; ss_slab := ss_slab st; ss_buddy := buddy |};
      match ptr with
      | Some ptr =>
          s ← on_links (slab_grow BLK_SIZE ptr (mul64 SET_SIZE BLK_SIZE) (ss_slab st));
          _ ← set_ss_slab s;
          b ← slab_pop;
          unwrap b
      | None => throw CoreAllocErr
      end
  end.

Definition slab_deallocate {E} (ptr : Z) : M SlabSt E unit :=
  st ← get_state;
  l ← on_links (fbl_push ptr (free_block_list (ss_slab st)));
  set_free_list l.

(** ** The heap ([lib.rs]) *)

(** The heap with the memory its blocks are in. *)
Record HeapSt : Type := { h_mem : Links; h_heap : Heap B }.

Definition slab_of (k : SlabIx) (h : Heap B) : Slab :=
  match k with
  | S64 => slab_64_bytes h | S128 => slab_128_bytes h | S256 => slab_256_bytes h
  | S512 => slab_512_bytes h | S1024 => slab_1024_bytes h | S2048 => slab_2048_bytes h
  | S4096 => slab_4096_bytes h
  end.
Definition set_slab (k : SlabIx) (s : Slab) (b : B) (h : Heap B) : Heap B :=
  let other j := if decide (j = k) then s else slab_of j h in
  Build_Heap (other S64) (other S128) (other S256) (other S512) (other S1024) (other S2048)
    (other S4096) b.
(** An operation of one slab of the heap, with the heap's buddy allocator. *)
Definition on_slab {A} (k : SlabIx) (m : M SlabSt CoreAllocError A) : M HeapSt CoreAllocError A :=
  λ st,
    let '(r, s) := m {| ss_mem := h_mem st; ss_slab := slab_of k (h_heap st);
                        ss_buddy := buddy_allocator (h_heap st) |} in
    (r, {| h_mem := ss_mem s; h_heap := set_slab k (ss_slab s) (ss_buddy s) (h_heap st) |}).
Definition on_buddy {E A} (f : B → A * B) : M HeapSt E A := λ st,
  let h := h_heap st in
  let '(r, b) := f (buddy_allocator h) in
  (Ok r, {| h_mem := h_mem st;
            h_heap := Build_Heap (slab_64_bytes h) (slab_128_bytes h) (slab_256_bytes h)
                        (slab_512_bytes h) (slab_1024_bytes h) (slab_2048_bytes h)
                        (slab_4096_bytes h) b |}).

(** [Heap::new] on the memory it is given. *)
Definition Heap_new (heap_start_addr heap_size : Z) : LkM (Heap B) :=
  _ ← assert_ (heap_start_addr mod 4096 =? 0);
  _ ← assert_ (MIN_HEAP_SIZE <=? heap_size);
  _ ← assert_ (heap_size mod MIN_HEAP_SIZE =? 0);
  s64 ← slab_new 64 0 0;
  s128 ← slab_new 128 0 0;
  s256 ← slab_new 256 0 0;
  s512 ← slab_new 512 0 0;
  s1024 ← slab_new 1024 0 0;
  s2048 ← slab_new 2048 0 0;
  s4096 ← slab_new 4096 0 0;
  mret (Build_Heap s64 s128 s256 s512 s1024 s2048 s4096
          (buddy_init heap_start_addr heap_size buddy_new)).

Definition Heap_add_memory (heap_start_addr heap_size : Z) : M HeapSt CoreAllocError unit :=
  _ ← assert_ (heap_start_addr mod 4096 =? 0);
  _ ← assert_ (heap_size mod 4096 =? 0);
  on_buddy (λ b, (tt, buddy_add_to_heap heap_start_addr (add64 heap_start_addr heap_size) b)).

(** [layout_to_allocator]. *)
Definition layout_to_allocator (layout : Layout) : HeapAllocator :=
  let fits n := ((lsize layout <=? n) && (lalign layout <=? n))%bool in
  if 4096 <? lsize layout then BuddyAllocator
  else if fits 64 then Slab64Bytes
  else if fits 128 then Slab128Bytes
  else if fits 256 then Slab256Bytes
  else if fits 512 then Slab512Bytes
  else if fits 1024 then Slab1024Bytes
  else if fits 2048 then Slab2048Bytes
  else Slab4096Bytes.

Definition Heap_allocate (layout : Layout) : M HeapSt CoreAllocError Z :=
  match layout_to_allocator layout with
  | Slab64Bytes => on_slab S64 (slab_allocate 64 layout)
  | Slab128Bytes => on_slab S128 (slab_allocate 128 layout)
  | Slab256Bytes => on_slab S256 (slab_allocate 256 layout)
  | Slab512Bytes => on_slab S512 (slab_allocate 512 layout)
  | Slab1024Bytes => on_slab S1024 (slab_allocate 1024 layout)
  | Slab2048Bytes => on_slab S2048 (slab_allocate 2048 layout)
  | Slab4096Bytes => on_slab S4096 (slab_allocate 4096 layout)
  | BuddyAllocator =>
      ptr ← on_buddy (buddy_alloc layout);
      match ptr with Some ptr => mret ptr | None => throw CoreAllocErr end
  end.

(** [NonNull::new(ptr).unwrap()] panics on the null pointer. *)
Definition Heap_deallocate (ptr : Z) (layout : Layout) : M HeapSt CoreAllocError unit :=
  match layout_to_allocator layout with
  | Slab64Bytes => on_slab S64 (slab_deallocate ptr)
  | Slab128Bytes => on_slab S128 (slab_deallocate ptr)
  | Slab256Bytes => on_slab S256 (slab_deallocate ptr)
  | Slab512Bytes => on_slab S512 (slab_deallocate ptr)
  | Slab1024Bytes => on_slab S1024 (slab_deallocate ptr)
  | Slab2048Bytes => on_slab S2048 (slab_deallocate ptr)
  | Slab4096Bytes => on_slab S4096 (slab_deallocate ptr)
  | BuddyAllocator =>
      _ ← assert_ (negb (ptr =? 0));
      on_buddy (λ b, (tt, buddy_dealloc ptr layout b))
  end.

Definition usable_size (layout : Layout) : Z * Z :=
  (lsize layout,
   match layout_to_allocator layout with
   | Slab64Bytes => 64 | Slab128Bytes => 128 | Slab256Bytes => 256 | Slab512Bytes => 512
   | Slab1024Bytes => 1024 | Slab2048Bytes => 2048 | Slab4096Bytes => 4096
   | BuddyAllocator => lsize layout
   end).

(** The statistics. *)
Definition heap_bytes (blocks : Slab → Z) (buddy : B → Z) (h : Heap B) : Z :=
  add64 (add64 (add64 (add64 (add64 (add64 (add64
    (mul64 (blocks (slab_64_bytes h)) 64)
    (mul64 (blocks (slab_128_bytes h)) 128))
    (mul64 (blocks (slab_256_bytes h)) 256))
    (mul64 (blocks (slab_512_bytes h)) 512))
    (mul64 (blocks (slab_1024_bytes h)) 1024))
    (mul64 (blocks (slab_2048_bytes h)) 2048))
    (mul64 (blocks (slab_4096_bytes h)) 4096))
    (buddy (buddy_allocator h)).
Definition heap_total_bytes (h : Heap B) : Z := heap_bytes total_blocks buddy_stats_total_bytes h.
Definition heap_used_bytes (h : Heap B) : Z := heap_bytes used_blocks buddy_stats_alloc_actual h.
Definition heap_available_bytes (h : Heap B) : Z := sub64 (heap_total_bytes h) (heap_used_bytes h).
End heap.
