(* ===== verification/SlabHeapProps.v ===== *)
(** * Correctness of the slab heap

    Whatever sequence of allocations, deallocations, memory additions and writes
    into allocated blocks the clients make, live allocations are aligned, lie in
    memory the heap was given and do not overlap; no operation panics. *)

From Stdlib Require Import ZArith Lia.
From stdpp Require Import base decidable numbers gmap sets functions list.
From S2P Require Import Prelude LinkedList SlabHeap.

Local Open Scope Z_scope.

(** ** Regions: a start and a size *)

Definition disj (x y : Z * Z) : Prop := x.1 + x.2 ≤ y.1 ∨ y.1 + y.2 ≤ x.1.
Definition subregion (x y : Z * Z) : Prop := y.1 ≤ x.1 ∧ x.1 + x.2 ≤ y.1 + y.2.
Definition contains (x : Z * Z) (a : Z) : Prop := x.1 ≤ a < x.1 + x.2.

Fixpoint disjoint_list (l : list (Z * Z)) : Prop :=
  match l with
  | [] => True
  | x :: l => Forall (disj x) l ∧ disjoint_list l
  end.

Lemma disj_sym x y : disj x y → disj y x.
Proof. unfold disj. lia. Qed.

Lemma disj_sub x x' y y' : subregion x x' → subregion y y' → disj x' y' → disj x y.
Proof. unfold disj, subregion. lia. Qed.

Lemma disjoint_list_app l1 l2 :
  disjoint_list (l1 ++ l2) ↔
  disjoint_list l1 ∧ disjoint_list l2 ∧ ∀ x y, x ∈ l1 → y ∈ l2 → disj x y.
Proof.
  induction l1 as [|x l1 IH]; simpl.
  - split; [|tauto]. intros. split_and!; auto. by intros ?? ?%not_elem_of_nil.
  - rewrite Forall_app, IH, (Forall_forall _ l2). setoid_rewrite elem_of_cons. split.
    + intros [[??] (?&?&?)]. split_and!; [done..|]. intros ? y [->|?]; auto.
    + intros ([??]&?&?). split_and!; auto.
Qed.

Lemma disjoint_list_perm l1 l2 : l1 ≡ₚ l2 → disjoint_list l1 → disjoint_list l2.
Proof.
  induction 1 as [|x l1 l2 Hl IH|x y l|]; simpl; [done| | |auto].
  - intros [Hf Hd]. split; [by rewrite <-Hl|auto].
  - rewrite !Forall_cons. intuition. by apply disj_sym.
Qed.

Lemma disjoint_list_submseteq l1 l2 : l1 ⊆+ l2 → disjoint_list l2 → disjoint_list l1.
Proof.
  intros [k Hk]%submseteq_Permutation Hd. apply (disjoint_list_perm _ _ Hk) in Hd.
  by apply disjoint_list_app in Hd as [? _].
Qed.

Lemma disjoint_list_shrink l1 l2 : Forall2 subregion l1 l2 → disjoint_list l2 → disjoint_list l1.
Proof.
  induction 1 as [|x y l1 l2 Hxy Hl IH]; simpl; [done|]. intros [Hf Hd]. split; [|auto].
  apply Forall_forall. intros z Hz.
  apply list_elem_of_lookup in Hz as [i Hi].
  destruct (Forall2_lookup_l _ _ _ _ _ Hl Hi) as (z'&Hz'&?). rewrite Forall_forall in Hf.
  by eapply disj_sub, Hf, list_elem_of_lookup_2.
Qed.

(** Regions that are cut into disjoint pieces. *)
Lemma disjoint_list_bind {A} (reg : A → Z * Z) (f : A → list (Z * Z)) (l : list A) :
  (∀ x, disjoint_list (f x)) → (∀ x y, y ∈ f x → subregion y (reg x)) →
  disjoint_list (reg <$> l) → disjoint_list (l ≫= f).
Proof.
  intros Hf Hs. induction l as [|x l IH]; simpl; [done|]. intros [Hx Hd].
  apply disjoint_list_app. split_and!; auto. intros y z Hy Hz.
  apply list_elem_of_bind in Hz as (w&Hz&Hw). eapply disj_sub; [by apply Hs..|].
  rewrite Forall_forall in Hx. apply Hx, list_elem_of_fmap. eauto.
Qed.

(** ** The blocks of a slab *)

Definition blk (k : SlabIx) : Z :=
  match k with
  | S64 => 64 | S128 => 128 | S256 => 256 | S512 => 512 | S1024 => 1024 | S2048 => 2048
  | S4096 => 4096
  end.
Definition all_ix : list SlabIx := [S64; S128; S256; S512; S1024; S2048; S4096].

Lemma blk_pos k : 64 ≤ blk k ≤ 4096.
Proof. destruct k; simpl; lia. Qed.

(** A block of a slab and the region it is. *)
Abbreviation Block := (SlabIx * Z)%type.
Definition block_region (x : Block) : Z * Z := (x.2, blk x.1).

(** The chunk a slab takes from the buddy allocator, and its blocks. *)
Definition chunk_layout (k : SlabIx) : Layout := {| lsize := 64 * blk k; lalign := 4096 |}.
Definition chunk_region (x : Block) : Z * Z := (x.2, 64 * blk x.1).
Definition cut (n : nat) (k : SlabIx) (c : Z) : list Z :=
  (λ i : nat, c + Z.of_nat i * blk k) <$> seq 0 n.
Definition chunk_blocks (x : Block) : list Block := pair x.1 <$> cut 64 x.1 x.2.

Arguments cut : simpl never.
Arguments chunk_blocks : simpl never.

Lemma chunk_layout_ok k : layout_ok (chunk_layout k).
Proof.
  pose proof (blk_pos k). split; [simpl; lia|]. split; [by exists 12|]. simpl. lia.
Qed.

Lemma cut_S n k c : cut (S n) k c = cut n k c ++ [c + Z.of_nat n * blk k].
Proof. unfold cut. by rewrite seq_S, fmap_app. Qed.

Lemma elem_of_cut n k c p :
  p ∈ cut n k c ↔ ∃ i : Z, 0 ≤ i < Z.of_nat n ∧ p = c + i * blk k.
Proof.
  unfold cut. rewrite list_elem_of_fmap. setoid_rewrite elem_of_seq. split.
  - intros (i&->&?). exists (Z.of_nat i). lia.
  - intros (i&?&->). exists (Z.to_nat i). rewrite Z2Nat.id by lia. split; [done|lia].
Qed.

Lemma cut_disjoint n k c : disjoint_list ((λ p, (p, blk k)) <$> cut n k c).
Proof.
  induction n as [|n IH]; [done|]. rewrite cut_S, fmap_app. apply disjoint_list_app.
  split_and!; [done|by simpl|]. intros x y Hx Hy.
  apply list_elem_of_fmap in Hx as (p&->&(i&Hi&->)%elem_of_cut).
  apply list_elem_of_singleton in Hy as ->. pose proof (blk_pos k). left. simpl. nia.
Qed.

Lemma chunk_blocks_disjoint x : disjoint_list (block_region <$> chunk_blocks x).
Proof.
  unfold chunk_blocks. rewrite <-list_fmap_compose. apply (cut_disjoint 64 x.1 x.2).
Qed.

Lemma chunk_blocks_sub x y : y ∈ block_region <$> chunk_blocks x → subregion y (chunk_region x).
Proof.
  intros (z&->&(p&->&(i&Hi&->)%elem_of_cut)%list_elem_of_fmap)%list_elem_of_fmap.
  pose proof (blk_pos x.1). split; simpl; nia.
Qed.

(** ** Free lists in memory *)

Fixpoint chain (m : Links) (h : option Z) (l : list Z) : Prop :=
  match l with
  | [] => h = None
  | b :: l => ∃ next, h = Some b ∧ m !! b = Some next ∧ chain m next l
  end.

Lemma link_chain_frame m m' h l : (∀ b, b ∈ l → m' !! b = m !! b) → chain m h l → chain m' h l.
Proof.
  revert h. induction l as [|b l IH]; intros h Hf; simpl; [done|].
  intros (nx&->&Hb&Hc). exists nx. split_and!; [done| |].
  - rewrite Hf; [done|set_solver].
  - apply IH; [set_solver|done].
Qed.

(** A list in memory with its length. *)
Definition repr (m : Links) (f : FreeBlockList) (l : list Z) : Prop :=
  chain m (fbl_head f) l ∧ fbl_len f = wrap 64 (Z.of_nat (length l)).

Lemma wrap_add w x y : 0 ≤ w → wrap w (wrap w x + y) = wrap w (x + y).
Proof. intros. unfold wrap. by rewrite Z.add_mod_idemp_l by lia. Qed.

Lemma repr_frame m m' f l : (∀ b, b ∈ l → m' !! b = m !! b) → repr m f l → repr m' f l.
Proof. intros Hf [??]. split; [by eapply link_chain_frame|done]. Qed.

Lemma repr_empty m : repr m fbl_new_empty [].
Proof. done. Qed.

Lemma fbl_push_ok m f l b :
  repr m f l → b ∉ l →
  ∃ f', fbl_push b f m = (Ok f', <[b := fbl_head f]> m) ∧ repr (<[b := fbl_head f]> m) f' (b :: l).
Proof.
  intros [Hc Hl] Hb. eexists. split; [reflexivity|]. split; simpl.
  - exists (fbl_head f). rewrite lookup_insert_eq. split_and!; [done..|].
    eapply link_chain_frame, Hc. intros b' Hb'. rewrite lookup_insert_ne; [done|]. by intros <-.
  - rewrite Hl. unfold add64. rewrite wrap_add by lia. f_equal. lia.
Qed.

Lemma fbl_pop_nil m f : repr m f [] → fbl_pop f m = (Ok (None, f), m).
Proof. intros [Hc _]. unfold fbl_pop. simpl in Hc. by rewrite Hc. Qed.

Lemma fbl_pop_cons m f b l :
  repr m f (b :: l) → b ∉ l →
  ∃ f', fbl_pop f m = (Ok (Some b, f'), <[b := None]> m) ∧ repr (<[b := None]> m) f' l.
Proof.
  intros [(nx&Hh&Hb&Hc) Hl] Hn. eexists. split.
  - unfold fbl_pop. rewrite Hh. unfold mbind, M_bind, get_state. by rewrite Hb.
  - split; simpl.
    + eapply link_chain_frame, Hc. intros b' Hb'. rewrite lookup_insert_ne; [done|]. by intros <-.
    + rewrite Hl. unfold sub64. replace (wrap 64 (Z.of_nat (length (b :: l))) - 1) with
        (wrap 64 (Z.of_nat (length (b :: l))) + -1) by lia.
      rewrite wrap_add by lia. f_equal. simpl. lia.
Qed.

Lemma cut_fresh n k c : c + Z.of_nat n * blk k ∉ cut n k c.
Proof. intros (i&?&?)%elem_of_cut. pose proof (blk_pos k). nia. Qed.

Lemma cut_NoDup n k c : NoDup (cut n k c).
Proof.
  induction n as [|n IH]; [constructor|]. rewrite cut_S. apply NoDup_app.
  split_and!; [done| |apply NoDup_singleton].
  intros x Hx ->%list_elem_of_singleton. by eapply cut_fresh.
Qed.

Lemma fbl_fill_ok n k c m f l :
  repr m f l → (∀ b, b ∈ cut n k c → b ∉ l) → 0 ≤ c → c + Z.of_nat n * blk k ≤ 2 ^ 64 →
  ∃ f' m', fbl_fill n c (blk k) f m = (Ok f', m') ∧ repr m' f' (cut n k c ++ l) ∧
    ∀ b, b ∉ cut n k c → m' !! b = m !! b.
Proof.
  pose proof (blk_pos k) as Hk. revert m f l.
  induction n as [|n IH]; intros m f l Hr Hd H0 Hc; [by exists f, m|].
  assert (add64 c (mul64 (Z.of_nat n) (blk k)) = c + Z.of_nat n * blk k) as Ha.
  { unfold mul64. rewrite (wrap_small 64 (_ * _)) by nia. apply add64_small. unfold in_u64. nia. }
  rewrite cut_S in Hd |- *.
  destruct (fbl_push_ok m f l (c + Z.of_nat n * blk k) Hr) as (f1&Hp&Hr1); [apply Hd; set_solver|].
  destruct (IH _ _ _ Hr1) as (f2&m2&Hf&Hr2&Hm2).
  { intros b Hb [->|Hbl]%elem_of_cons; [by eapply cut_fresh|].
    eapply Hd, Hbl. set_solver. }
  { done. }
  { lia. }
  exists f2, m2. split_and!.
  - simpl. rewrite Ha. erewrite M_bind_ok by exact Hp. done.
  - by rewrite <-app_assoc.
  - intros b Hb. rewrite Hm2 by set_solver. apply lookup_insert_ne. set_solver.
Qed.

Lemma slab_grow_loop_ok fuel xs m bl f l :
  repr m bl xs → repr m f l → NoDup xs → (∀ b, b ∈ xs → b ∉ l) → (length xs < fuel)%nat →
  ∃ f' m', slab_grow_loop fuel bl f m = (Ok f', m') ∧ repr m' f' (reverse xs ++ l) ∧
    ∀ b, b ∉ xs → m' !! b = m !! b.
Proof.
  revert xs m bl f l. induction fuel as [|fuel IH]; intros xs m bl f l Hbl Hf Hn Hd Hl; [lia|].
  destruct xs as [|x xs].
  { exists f, m. split_and!; [|done..]. simpl. by erewrite M_bind_ok by (by apply fbl_pop_nil). }
  apply NoDup_cons in Hn as [Hx Hn].
  destruct (fbl_pop_cons _ _ _ _ Hbl Hx) as (bl1&Hpop&Hbl1).
  destruct (fbl_push_ok (<[x := None]> m) f l x) as (f1&Hpush&Hf1); [|apply Hd; set_solver|].
  { eapply repr_frame, Hf. intros b Hb. apply lookup_insert_ne. intros <-.
    eapply Hd, Hb. set_solver. }
  destruct (IH xs (<[x := fbl_head f]> (<[x := None]> m)) bl1 f1 (x :: l))
    as (f2&m2&Hg&Hf2&Hm2); [|done..|set_solver|simpl in Hl; lia|].
  { eapply repr_frame, Hbl1. intros b Hb. apply lookup_insert_ne. by intros <-. }
  exists f2, m2. split_and!.
  - simpl. erewrite M_bind_ok by exact Hpop. simpl. erewrite M_bind_ok by exact Hpush. done.
  - by rewrite reverse_cons, <-app_assoc.
  - intros b Hb. rewrite Hm2 by set_solver. rewrite !lookup_insert_ne by set_solver. done.
Qed.

Lemma set_size_blk k : mul64 SET_SIZE (blk k) = 64 * blk k.
Proof. by destruct k. Qed.

Lemma blocks_of_set k : 64 * blk k / blk k = 64.
Proof. by destruct k. Qed.

Lemma cut_length n k c : length (cut n k c) = n.
Proof. unfold cut. by rewrite length_fmap, length_seq. Qed.

Lemma slab_grow_ok k c m s l :
  repr m (free_block_list s) l → (∀ b, b ∈ cut 64 k c → b ∉ l) →
  0 ≤ c → c + 64 * blk k ≤ 2 ^ 64 →
  ∃ s' m', slab_grow (blk k) c (64 * blk k) s m = (Ok s', m') ∧
    repr m' (free_block_list s') (reverse (cut 64 k c) ++ l) ∧
    total_blocks s' = add64 (total_blocks s) 64 ∧ ∀ b, b ∉ cut 64 k c → m' !! b = m !! b.
Proof.
  intros Hr Hd H0 Hc.
  destruct (fbl_fill_ok 64 k c m fbl_new_empty [] (repr_empty m)) as (bl&m1&Hfill&Hbl&Hm1);
    [set_solver|done|done|]. rewrite app_nil_r in Hbl.
  destruct (slab_grow_loop_ok 65 _ m1 bl (free_block_list s) l Hbl) as (f&m2&Hg&Hf&Hm2).
  { eapply repr_frame, Hr. intros b Hb. apply Hm1. intros ?. by eapply Hd. }
  { apply cut_NoDup. }
  { done. }
  { rewrite cut_length. lia. }
  eexists _, m2. split_and!.
  - unfold slab_grow. rewrite blocks_of_set.
    erewrite M_bind_ok by exact Hfill. erewrite M_bind_ok by exact Hg. done.
  - done.
  - done.
  - intros b Hb. by rewrite Hm2, Hm1.
Qed.

(** ** The buddy allocator's contract *)

(** The region of an allocation. *)
Definition region (x : Z * Layout) : Z * Z := (x.1, lsize x.2).

(** [buddy_mem] is the memory it manages, [buddy_live] the allocations that were
    not given back. *)
Class BuddySpec (B : Type) `{Buddy B} : Type := {
  buddy_wf : B → Prop;
  buddy_mem : B → Z → Prop;
  buddy_live : B → list (Z * Layout);
  buddy_new_ok : buddy_wf buddy_new ∧ buddy_live buddy_new = [] ∧ ∀ a, ¬ buddy_mem buddy_new a;
  buddy_init_ok b s n :
    buddy_wf b → 0 < s → 0 ≤ n → s + n ≤ 2 ^ 64 → (∀ a, contains (s, n) a → ¬ buddy_mem b a) →
    buddy_wf (buddy_init s n b) ∧ buddy_live (buddy_init s n b) = buddy_live b ∧
    ∀ a, buddy_mem b a → buddy_mem (buddy_init s n b) a;
  buddy_init_mem b s n a : buddy_mem (buddy_init s n b) a → buddy_mem b a ∨ contains (s, n) a;
  buddy_add_ok b s e :
    buddy_wf b → 0 < s → s ≤ e < 2 ^ 64 → (∀ a, contains (s, e - s) a → ¬ buddy_mem b a) →
    buddy_wf (buddy_add_to_heap s e b) ∧ buddy_live (buddy_add_to_heap s e b) = buddy_live b ∧
    ∀ a, buddy_mem b a → buddy_mem (buddy_add_to_heap s e b) a;
  buddy_add_mem b s e a :
    buddy_mem (buddy_add_to_heap s e b) a → buddy_mem b a ∨ contains (s, e - s) a;
  buddy_alloc_some b l p b' :
    buddy_wf b → layout_ok l → buddy_alloc l b = (Some p, b') →
    buddy_wf b' ∧ buddy_live b' = (p, l) :: buddy_live b ∧
    (∀ a, buddy_mem b' a ↔ buddy_mem b a) ∧
    0 < p ∧ p + lsize l ≤ 2 ^ 64 ∧ (lalign l | p) ∧ (∀ a, contains (region (p, l)) a → buddy_mem b a) ∧
    Forall (λ x, disj (p, lsize l) (region x)) (buddy_live b);
  buddy_alloc_none b l b' :
    buddy_wf b → layout_ok l → buddy_alloc l b = (None, b') →
    buddy_wf b' ∧ buddy_live b' = buddy_live b ∧ ∀ a, buddy_mem b' a ↔ buddy_mem b a;
  buddy_dealloc_ok b p l :
    buddy_wf b → (p, l) ∈ buddy_live b →
    buddy_wf (buddy_dealloc p l b) ∧
    buddy_live b ≡ₚ (p, l) :: buddy_live (buddy_dealloc p l b) ∧
    ∀ a, buddy_mem (buddy_dealloc p l b) a ↔ buddy_mem b a;
}.

(** ** The invariant of the heap *)

Definition slab_ix (l : Layout) : option SlabIx :=
  match layout_to_allocator l with
  | Slab64Bytes => Some S64 | Slab128Bytes => Some S128 | Slab256Bytes => Some S256
  | Slab512Bytes => Some S512 | Slab1024Bytes => Some S1024 | Slab2048Bytes => Some S2048
  | Slab4096Bytes => Some S4096 | BuddyAllocator => None
  end.

(** The live allocations that are blocks of slabs, and the others. *)
Definition small_of (x : Z * Layout) : option Block := (λ k, (k, x.1)) <$> slab_ix x.2.
Abbreviation small := (omap small_of).
Abbreviation big := (filter (λ x : Z * Layout, slab_ix x.2 = None)).

(** The free blocks of all slabs. *)
Definition frees (free : SlabIx → list Z) : list Block := all_ix ≫= λ k, pair k <$> free k.
Definition others (k : SlabIx) (free : SlabIx → list Z) : list Block :=
  all_ix ≫= λ j, if decide (j = k) then [] else pair j <$> free j.

Lemma frees_split free k : frees free ≡ₚ (pair k <$> free k) ++ others k free.
Proof. unfold frees, others. destruct k; simpl; rewrite ?app_nil_r; solve_Permutation. Qed.

Lemma others_ext k f g : (∀ j, j ≠ k → f j = g j) → others k f = others k g.
Proof.
  intros Hfg. unfold others. apply list_bind_ext; [|done]. intros j.
  destruct (decide (j = k)); [done|]. by rewrite Hfg.
Qed.

Lemma elem_of_frees k p free : (k, p) ∈ frees free ↔ p ∈ free k.
Proof.
  unfold frees. rewrite list_elem_of_bind. split.
  - by intros (j&(q&[= <- <-]&?)%list_elem_of_fmap&_).
  - intros Hp. exists k. split; [by apply list_elem_of_fmap_2|]. destruct k; set_solver.
Qed.

Section invariant.
Context {B : Type} `{HB : Buddy B} `{HS : !BuddySpec B}.
Implicit Types (st : HeapSt (B:=B)) (live : list (Z * Layout)) (gl : list Block).

(** An allocation is in the allocator's memory and aligned. *)
Definition buddy_holds (b : B) (x : Z * Layout) : Prop :=
  0 < x.1 ∧ (lalign x.2 | x.1) ∧ ∀ a, contains (region x) a → buddy_mem b a.

Lemma buddy_holds_mono b b' l :
  (∀ a, buddy_mem b a → buddy_mem b' a) → Forall (buddy_holds b) l → Forall (buddy_holds b') l.
Proof. intros Hm Hf. eapply Forall_impl; [exact Hf|]. intros x (?&?&?). split_and!; eauto. Qed.

(** The heap with memory [rs], live allocations [live], chunks [gl] and free blocks
    [free]: the buddy allocator's allocations are the chunks and the big
    allocations; the blocks of the chunks are the free and the small live ones. *)
Record heap_inv (rs : list (Z * Z)) st live gl (free : SlabIx → list Z) : Prop := {
  hi_wf : buddy_wf (buddy_allocator (h_heap st));
  hi_mem a : buddy_mem (buddy_allocator (h_heap st)) a → ∃ r, r ∈ rs ∧ contains r a;
  hi_live : buddy_live (buddy_allocator (h_heap st)) ≡ₚ
              ((λ x, (x.2, chunk_layout x.1)) <$> gl) ++ big live;
  hi_disj : disjoint_list (region <$> buddy_live (buddy_allocator (h_heap st)));
  hi_in : Forall (buddy_holds (buddy_allocator (h_heap st)))
            (buddy_live (buddy_allocator (h_heap st)));
  hi_repr k : repr (h_mem st) (free_block_list (slab_of k (h_heap st))) (free k);
  hi_total k : total_blocks (slab_of k (h_heap st)) =
                 wrap 64 (64 * Z.of_nat (length (filter (λ x, x.1 = k) gl)));
  hi_blocks : frees free ++ small live ≡ₚ gl ≫= chunk_blocks;
  hi_ok : Forall (λ x, layout_ok x.2) live;
}.

Arguments hi_wf {rs st live gl free}.
Arguments hi_mem {rs st live gl free}.
Arguments hi_live {rs st live gl free}.
Arguments hi_disj {rs st live gl free}.
Arguments hi_in {rs st live gl free}.
Arguments hi_repr {rs st live gl free}.
Arguments hi_total {rs st live gl free}.
Arguments hi_blocks {rs st live gl free}.
Arguments hi_ok {rs st live gl free}.

Lemma fmap_bind_blocks gl :
  block_region <$> (gl ≫= chunk_blocks) = gl ≫= λ x, block_region <$> chunk_blocks x.
Proof. induction gl as [|x gl IH]; [done|]. rewrite !bind_cons, fmap_app. by f_equal. Qed.

(** All blocks and big allocations are disjoint. *)
Lemma heap_inv_disjoint rs st live gl free :
  heap_inv rs st live gl free →
  disjoint_list ((block_region <$> frees free ++ small live) ++ (region <$> big live)).
Proof.
  intros HI. pose proof (hi_disj HI) as Hd.
  eapply disjoint_list_perm in Hd; [|by apply fmap_Permutation, HI].
  rewrite fmap_app, <-list_fmap_compose in Hd.
  apply (disjoint_list_perm ((block_region <$> (gl ≫= chunk_blocks)) ++ (region <$> big live))).
  { apply Permutation_app_tail, fmap_Permutation. symmetry. apply HI. }
  apply disjoint_list_app in Hd as (Hc&Hb&Hx). apply disjoint_list_app. split_and!; [|done|].
  - rewrite fmap_bind_blocks. apply (disjoint_list_bind chunk_region); [|by apply chunk_blocks_sub|done].
    apply chunk_blocks_disjoint.
  - intros x y Hin Hy. rewrite fmap_bind_blocks in Hin.
    apply list_elem_of_bind in Hin as (z&Hz&Hgl).
    eapply disj_sub; [by apply chunk_blocks_sub|split; [reflexivity|reflexivity]|].
    apply Hx; [|done]. apply list_elem_of_fmap. by exists z.
Qed.

Lemma layout_fits l k : layout_ok l → slab_ix l = Some k → 0 ≤ lsize l ≤ blk k ∧ (lalign l ≤ 4096 → lalign l ≤ blk k).
Proof.
  intros (H0&_&_). unfold slab_ix, layout_to_allocator. split_ifs; intros [= <-]; bool_to_prop; simpl; lia.
Qed.

Lemma layout_big l : slab_ix l = None → 4096 < lsize l.
Proof. unfold slab_ix, layout_to_allocator. split_ifs; intros; bool_to_prop; done. Qed.

Lemma elem_of_small x k live : x ∈ live → slab_ix x.2 = Some k → (k, x.1) ∈ small live.
Proof. intros Hx Hk. apply list_elem_of_omap. exists x. split; [done|]. unfold small_of. by rewrite Hk. Qed.

(** Free blocks do not overlap live allocations. *)
Lemma free_not_live rs st live gl free k p x a :
  heap_inv rs st live gl free → p ∈ free k → x ∈ live → contains (region x) a → a ≠ p.
Proof.
  intros HI Hp Hx Ha ->. pose proof (heap_inv_disjoint _ _ _ _ _ HI) as Hd.
  apply disjoint_list_app in Hd as (Hs&_&Hb). pose proof (blk_pos k) as Hk.
  assert (block_region (k, p) ∈ block_region <$> frees free) as Hf.
  { by apply list_elem_of_fmap_2, elem_of_frees. }
  destruct (slab_ix x.2) as [j|] eqn:Hj.
  - rewrite fmap_app in Hs. apply disjoint_list_app in Hs as (_&_&Hs).
    assert (disj (block_region (k, p)) (block_region (j, x.1))) as Hdj.
    { apply Hs; [done|]. by apply list_elem_of_fmap_2, elem_of_small. }
    pose proof (hi_ok HI) as Hok. rewrite Forall_forall in Hok.
    destruct (layout_fits _ _ (Hok _ Hx) Hj) as [? _]. pose proof (blk_pos j).
    unfold disj, contains, region in *. simpl in *. lia.
  - assert (disj (block_region (k, p)) (region x)) as Hdj.
    { apply Hb; [rewrite fmap_app; apply elem_of_app; by left|]. apply list_elem_of_fmap_2, list_elem_of_filter. done. }
    unfold disj, contains, region in *. simpl in *. lia.
Qed.

(** No address is a block twice. *)
Lemma disjoint_blocks_NoDup (L : list Block) : disjoint_list (block_region <$> L) → NoDup (L.*2).
Proof.
  induction L as [|x L IH]; [constructor|]. rewrite fmap_cons. intros [Hx Hd].
  apply NoDup_cons. split; [|auto]. intros (y&Hy&Hin)%list_elem_of_fmap.
  rewrite Forall_fmap, Forall_forall in Hx. specialize (Hx y Hin).
  pose proof (blk_pos x.1). pose proof (blk_pos y.1). unfold disj, block_region in Hx. simpl in Hx. lia.
Qed.

Lemma heap_inv_NoDup rs st live gl free :
  heap_inv rs st live gl free → NoDup ((frees free ++ small live).*2).
Proof.
  intros [Hd _]%heap_inv_disjoint%disjoint_list_app. by apply disjoint_blocks_NoDup.
Qed.

Lemma free_unique rs st live gl free k p fr :
  heap_inv rs st live gl free → free k = p :: fr → (p ∉ fr) ∧ ∀ j, j ≠ k → p ∉ free j.
Proof.
  intros HI Hk. pose proof (heap_inv_NoDup _ _ _ _ _ HI) as Hn.
  rewrite (frees_split free k), Hk in Hn. simpl in Hn. apply NoDup_cons in Hn as [Hn _].
  rewrite !fmap_app, !elem_of_app in Hn. split.
  - intros Hin. apply Hn. left. left. apply list_elem_of_fmap. exists (k, p).
    split; [done|]. by apply list_elem_of_fmap_2.
  - intros j Hj Hin. apply Hn. left. right. apply list_elem_of_fmap. exists (j, p). split; [done|].
    apply list_elem_of_bind. exists j. rewrite decide_False by done.
    split; [by apply list_elem_of_fmap_2|]. destruct j; set_solver.
Qed.

Lemma live_not_free rs st live gl free k p l j :
  heap_inv rs st live gl free → (p, l) ∈ live → slab_ix l = Some k → p ∉ free j.
Proof.
  intros HI Hin Hk Hp. pose proof (heap_inv_NoDup _ _ _ _ _ HI) as Hn.
  rewrite fmap_app in Hn. apply NoDup_app in Hn as (_&Hn&_). apply (Hn p).
  - apply list_elem_of_fmap. exists (j, p). split; [done|]. by apply elem_of_frees.
  - apply list_elem_of_fmap. exists (k, p). split; [done|]. by apply (elem_of_small (p, l)).
Qed.

(** ** Operations of one slab *)

Lemma slab_pop_nil (st : SlabSt (B:=B)) :
  repr (ss_mem st) (free_block_list (ss_slab st)) [] → slab_pop st = (Ok None, st).
Proof.
  destruct st as [m [f t] b]. simpl. intros Hr. unfold slab_pop, mbind, M_bind, get_state, on_links.
  simpl. by rewrite (fbl_pop_nil _ _ Hr).
Qed.

Lemma slab_pop_cons (st : SlabSt (B:=B)) p fr :
  repr (ss_mem st) (free_block_list (ss_slab st)) (p :: fr) → p ∉ fr →
  ∃ f', slab_pop st = (Ok (Some p),
      {| ss_mem := <[p := None]> (ss_mem st);
         ss_slab := {| free_block_list := f'; total_blocks := total_blocks (ss_slab st) |};
         ss_buddy := ss_buddy st |}) ∧ repr (<[p := None]> (ss_mem st)) f' fr.
Proof.
  intros Hr Hp. destruct (fbl_pop_cons _ _ _ _ Hr Hp) as (f'&Hpop&Hr'). exists f'.
  split; [|done]. unfold slab_pop, mbind, M_bind, get_state, on_links. by rewrite Hpop.
Qed.

Lemma slab_allocate_free k l (st : SlabSt (B:=B)) p fr :
  repr (ss_mem st) (free_block_list (ss_slab st)) (p :: fr) → p ∉ fr →
  ∃ f', slab_allocate (blk k) l st = (Ok p,
      {| ss_mem := <[p := None]> (ss_mem st);
         ss_slab := {| free_block_list := f'; total_blocks := total_blocks (ss_slab st) |};
         ss_buddy := ss_buddy st |}) ∧ repr (<[p := None]> (ss_mem st)) f' fr.
Proof.
  intros Hr Hp. destruct (slab_pop_cons st p fr Hr Hp) as (f'&Hpop&Hr'). exists f'. split; [|done].
  unfold slab_allocate. by erewrite M_bind_ok by exact Hpop.
Qed.

Lemma slab_allocate_none k l (st : SlabSt (B:=B)) b' :
  repr (ss_mem st) (free_block_list (ss_slab st)) [] →
  buddy_alloc (chunk_layout k) (ss_buddy st) = (None, b') →
  slab_allocate (blk k) l st =
    (Err CoreAllocErr, {| ss_mem := ss_mem st; ss_slab := ss_slab st; ss_buddy := b' |}).
Proof.
  intros Hr Hb. unfold slab_allocate. erewrite M_bind_ok by (by apply slab_pop_nil).
  cbv beta iota zeta. erewrite M_bind_ok by reflexivity. rewrite set_size_blk. unfold chunk_layout in Hb. by rewrite Hb.
Qed.

Lemma slab_allocate_grow k l (st : SlabSt (B:=B)) c b' :
  repr (ss_mem st) (free_block_list (ss_slab st)) [] →
  buddy_alloc (chunk_layout k) (ss_buddy st) = (Some c, b') → 0 ≤ c → c + 64 * blk k ≤ 2 ^ 64 →
  ∃ p fr s' m', slab_allocate (blk k) l st =
      (Ok p, {| ss_mem := m'; ss_slab := s'; ss_buddy := b' |}) ∧
    cut 64 k c ≡ₚ p :: fr ∧ repr m' (free_block_list s') fr ∧
    total_blocks s' = add64 (total_blocks (ss_slab st)) 64 ∧
    ∀ b, b ∉ cut 64 k c → m' !! b = ss_mem st !! b.
Proof.
  intros Hr Hb H0 Hc.
  destruct (slab_grow_ok k c _ _ _ Hr) as (s1&m1&Hg&Hr1&Ht&Hm); [set_solver|done..|].
  rewrite app_nil_r in Hr1. pose proof (cut_NoDup 64 k c) as Hn.
  rewrite <-(reverse_Permutation (cut 64 k c)) in Hn.
  pose proof (reverse_Permutation (cut 64 k c)) as Hp.
  destruct (reverse (cut 64 k c)) as [|p fr] eqn:Hrev.
  { exfalso. apply Permutation_length in Hp. by rewrite cut_length in Hp. }
  apply NoDup_cons in Hn as [Hn _].
  destruct (slab_pop_cons {| ss_mem := m1; ss_slab := s1; ss_buddy := b' |} p fr Hr1 Hn) as (f'&Hpop&Hf').
  exists p, fr, {| free_block_list := f'; total_blocks := total_blocks s1 |}, (<[p := None]> m1).
  split_and!; [|done|exact Hf'|done|].
  - unfold slab_allocate. erewrite M_bind_ok by (by apply slab_pop_nil).
    cbv beta iota zeta. erewrite M_bind_ok by reflexivity. rewrite set_size_blk. unfold chunk_layout in Hb. rewrite Hb.
    erewrite M_bind_ok by reflexivity.
    erewrite M_bind_ok by (unfold on_links; cbn [ss_mem ss_slab]; by rewrite Hg).
    erewrite M_bind_ok by reflexivity. by erewrite M_bind_ok by exact Hpop.
  - intros b Hbn. rewrite lookup_insert_ne; [by apply Hm|]. intros <-. apply Hbn. rewrite <-Hp. set_solver.
Qed.

(** ** Operations of the heap *)

Lemma Heap_allocate_small l k :
  slab_ix l = Some k → Heap_allocate (B:=B) l = on_slab k (slab_allocate (blk k) l).
Proof. unfold slab_ix, Heap_allocate. by destruct (layout_to_allocator l); intros [= <-]. Qed.

Lemma Heap_deallocate_small p l k :
  slab_ix l = Some k → Heap_deallocate (B:=B) p l = on_slab k (slab_deallocate p).
Proof. unfold slab_ix, Heap_deallocate. by destruct (layout_to_allocator l); intros [= <-]. Qed.

Lemma slab_ix_big l : slab_ix l = None → layout_to_allocator l = BuddyAllocator.
Proof. unfold slab_ix. by destruct (layout_to_allocator l). Qed.

Lemma slab_of_set j k s b (h : Heap B) :
  slab_of j (set_slab k s b h) = if decide (j = k) then s else slab_of j h.
Proof. by destruct j. Qed.

Lemma small_cons p l k live : slab_ix l = Some k → small ((p, l) :: live) = (k, p) :: small live.
Proof. intros Hk. simpl. unfold small_of. simpl. by rewrite Hk. Qed.

Lemma small_cons_big p l live : slab_ix l = None → small ((p, l) :: live) = small live.
Proof. intros Hk. simpl. unfold small_of. simpl. by rewrite Hk. Qed.

(** The free lists when one of them changes. *)
Lemma frees_pop free k p fr :
  free k = p :: fr → frees free ≡ₚ (k, p) :: frees (<[k := fr]> free).
Proof.
  intros Hk. rewrite (frees_split free k), (frees_split (<[k := fr]> free) k), fn_lookup_insert, Hk.
  by rewrite (others_ext k (<[k := fr]> free) free) by (intros; by rewrite fn_lookup_insert_ne).
Qed.

(** The lists of the slabs that an operation on one slab leaves alone. *)
Lemma repr_others rs st live gl free k fr s b m' j :
  heap_inv rs st live gl free → (∀ i x, i ≠ k → x ∈ free i → m' !! x = h_mem st !! x) →
  repr m' (free_block_list s) fr →
  repr m' (free_block_list (slab_of j (set_slab k s b (h_heap st)))) (<[k := fr]> free j).
Proof.
  intros HI Hm Hr. rewrite slab_of_set. destruct (decide (j = k)) as [->|Hj].
  - by rewrite fn_lookup_insert.
  - rewrite fn_lookup_insert_ne by done. eapply repr_frame, HI. eauto.
Qed.

Lemma alloc_free_ok rs st live gl free k l p fr :
  heap_inv rs st live gl free → layout_ok l → slab_ix l = Some k → free k = p :: fr →
  ∃ st', Heap_allocate l st = (Ok p, st') ∧
    heap_inv rs st' ((p, l) :: live) gl (<[k := fr]> free).
Proof.
  intros HI Hl Hk Hfk. destruct (free_unique _ _ _ _ _ _ _ _ HI Hfk) as [Hp Hj].
  pose proof (hi_repr HI k) as Hr. rewrite Hfk in Hr.
  destruct (slab_allocate_free k l {| ss_mem := h_mem st; ss_slab := slab_of k (h_heap st);
    ss_buddy := buddy_allocator (h_heap st) |} p fr Hr Hp) as (f'&Ha&Hr').
  eexists. split.
  { rewrite (Heap_allocate_small _ _ Hk). unfold on_slab. by rewrite Ha. }
  split; simpl; try apply HI.
  - rewrite filter_cons_False by (simpl; congruence). apply HI.
  - intros j. eapply repr_others; [done| |done]. intros i x Hi Hx.
    apply lookup_insert_ne. intros <-. by eapply Hj.
  - intros j. rewrite slab_of_set. destruct (decide (j = k)) as [->|]; simpl; apply HI.
  - rewrite <-(hi_blocks HI), (frees_pop _ _ _ _ Hfk).
    unfold small_of. simpl. rewrite Hk. solve_Permutation.
  - constructor; [done|apply HI].
Qed.

Lemma alloc_none_ok rs st live gl free k l b' :
  heap_inv rs st live gl free → slab_ix l = Some k → free k = [] →
  buddy_alloc (chunk_layout k) (buddy_allocator (h_heap st)) = (None, b') →
  ∃ st', Heap_allocate l st = (Err CoreAllocErr, st') ∧ heap_inv rs st' live gl free.
Proof.
  intros HI Hk Hfk Hb. pose proof (hi_repr HI k) as Hr. rewrite Hfk in Hr.
  pose proof (slab_allocate_none k l {| ss_mem := h_mem st; ss_slab := slab_of k (h_heap st);
    ss_buddy := buddy_allocator (h_heap st) |} b' Hr Hb) as Ha.
  eexists. split.
  { rewrite (Heap_allocate_small _ _ Hk). unfold on_slab. by rewrite Ha. }
  destruct (buddy_alloc_none _ _ _ (hi_wf HI) (chunk_layout_ok k) Hb) as (Hw&Hlv&Hm).
  assert (∀ j, slab_of j (set_slab k (slab_of k (h_heap st)) b' (h_heap st)) = slab_of j (h_heap st))
    as Hs by (intros j; rewrite slab_of_set; by destruct (decide (j = k)) as [->|]).
  split; simpl; try apply HI; try done.
  - intros a Ha'. by apply (hi_mem HI), Hm.
  - rewrite Hlv. apply HI.
  - rewrite Hlv. apply HI.
  - rewrite Hlv. eapply buddy_holds_mono, HI. intros a. apply Hm.
  - intros j. rewrite Hs. apply HI.
  - intros j. rewrite Hs. apply HI.
Qed.

(** A region the buddy allocator finds free has no block in it. *)
Lemma free_not_fresh rs st live gl free k c i x :
  heap_inv rs st live gl free →
  Forall (λ y, disj (c, 64 * blk k) (region y)) (buddy_live (buddy_allocator (h_heap st))) →
  x ∈ free i → x ∉ cut 64 k c.
Proof.
  intros HI Hd Hx (n&Hn&->)%elem_of_cut.
  assert ((i, c + n * blk k) ∈ gl ≫= chunk_blocks) as Hin.
  { rewrite <-(hi_blocks HI). apply elem_of_app. left. by apply elem_of_frees. }
  apply list_elem_of_bind in Hin as (g&Hg&Hgl).
  assert (subregion (c + n * blk k, blk i) (chunk_region g)) as Hs.
  { apply chunk_blocks_sub. by apply (list_elem_of_fmap_2 block_region) in Hg. }
  rewrite Forall_forall in Hd. specialize (Hd (g.2, chunk_layout g.1)).
  unfold disj, subregion in *. simpl in *. pose proof (blk_pos i). pose proof (blk_pos k).
  destruct Hd; [|nia..]. rewrite (hi_live HI). apply elem_of_app. left.
  apply list_elem_of_fmap. by exists g.
Qed.

Lemma blocks_grow live free k p l c fr (R : list Block) :
  slab_ix l = Some k → free k = [] → cut 64 k c ≡ₚ p :: fr → frees free ++ small live ≡ₚ R →
  frees (<[k := fr]> free) ++ small ((p, l) :: live) ≡ₚ chunk_blocks (k, c) ++ R.
Proof.
  intros Hk Hfk Hcut <-. rewrite (small_cons _ _ _ _ Hk).
  change (chunk_blocks (k, c)) with (pair k <$> cut 64 k c). rewrite Hcut.
  rewrite (frees_split (<[k := fr]> free) k), (frees_split free k), fn_lookup_insert, Hfk.
  rewrite (others_ext k (<[k := fr]> free) free) by (intros; by rewrite fn_lookup_insert_ne).
  rewrite fmap_cons. simpl. solve_Permutation.
Qed.

Lemma alloc_grow_ok rs st live gl free k l c b' :
  heap_inv rs st live gl free → layout_ok l → slab_ix l = Some k → free k = [] →
  buddy_alloc (chunk_layout k) (buddy_allocator (h_heap st)) = (Some c, b') →
  ∃ p fr st', Heap_allocate l st = (Ok p, st') ∧
    heap_inv rs st' ((p, l) :: live) ((k, c) :: gl) (<[k := fr]> free).
Proof.
  intros HI Hl Hk Hfk Hb.
  destruct (buddy_alloc_some _ _ _ _ (hi_wf HI) (chunk_layout_ok k) Hb)
    as (Hw&Hlv&Hm&Hc0&Hc&Hal&Hin&Hdj).
  pose proof (hi_repr HI k) as Hr. rewrite Hfk in Hr.
  destruct (slab_allocate_grow k l {| ss_mem := h_mem st; ss_slab := slab_of k (h_heap st);
    ss_buddy := buddy_allocator (h_heap st) |} c b' Hr Hb) as (p&fr&s'&m'&Ha&Hcut&Hr'&Ht&Hm');
    [lia|done|].
  exists p, fr. eexists. split.
  { rewrite (Heap_allocate_small _ _ Hk). unfold on_slab. by rewrite Ha. }
  pose proof (blocks_grow _ _ _ p l _ _ _ Hk Hfk Hcut (hi_blocks HI)) as Hblk.
  split; simpl; try done.
  - intros a Ha'. by apply (hi_mem HI), Hm.
  - rewrite filter_cons_False by (simpl; congruence). rewrite Hlv. f_equiv. apply HI.
  - rewrite Hlv. split; [|apply HI]. by rewrite Forall_fmap.
  - rewrite Hlv. constructor; [split_and!; [done..|]; intros; by apply Hm, Hin|].
    eapply buddy_holds_mono, HI. intros a. apply Hm.
  - intros j. eapply repr_others; [done| |done]. intros i x Hi Hx. apply Hm'.
    by eapply free_not_fresh.
  - intros j. rewrite slab_of_set, filter_cons. destruct (decide (j = k)) as [->|]; simpl.
    + rewrite decide_True by done. rewrite Ht. simpl. rewrite (hi_total HI). unfold add64.
      rewrite wrap_add by lia. f_equal. simpl. lia.
    + rewrite decide_False by (simpl; congruence). apply HI.
  - constructor; [done|apply HI].
Qed.

Lemma on_buddy_slab {E A} (f : B → A * B) st r b' :
  f (buddy_allocator (h_heap st)) = (r, b') →
  ∃ st', on_buddy (E:=E) f st = (Ok r, st') ∧ h_mem st' = h_mem st ∧
    buddy_allocator (h_heap st') = b' ∧ ∀ j, slab_of j (h_heap st') = slab_of j (h_heap st).
Proof. intros Hf. unfold on_buddy. rewrite Hf. eexists. split; [done|]. split_and!; [done..|]. by intros []. Qed.

Lemma alloc_big_ok rs st live gl free l :
  heap_inv rs st live gl free → layout_ok l → slab_ix l = None →
  ∃ r st', Heap_allocate l st = (r, st') ∧
    ((∃ p, r = Ok p ∧ heap_inv rs st' ((p, l) :: live) gl free) ∨
     (r = Err CoreAllocErr ∧ heap_inv rs st' live gl free)).
Proof.
  intros HI Hl Hk. unfold Heap_allocate. rewrite (slab_ix_big _ Hk).
  destruct (buddy_alloc l (buddy_allocator (h_heap st))) as [o b'] eqn:Hb.
  destruct (on_buddy_slab (E:=CoreAllocError) (buddy_alloc l) st o b' Hb) as (st'&Ho&Hmm&Hbb&Hss).
  erewrite M_bind_ok by exact Ho. destruct o as [p|].
  - destruct (buddy_alloc_some _ _ _ _ (hi_wf HI) Hl Hb) as (Hw&Hlv&Hm&Hc0&Hc&Hal&Hin&Hdj).
    exists (Ok p), st'. split; [done|]. left. exists p. split; [done|].
    split; rewrite ?Hbb, ?Hmm; try done.
    + intros a Ha'. by apply (hi_mem HI), Hm.
    + rewrite filter_cons_True by done. rewrite Hlv, (hi_live HI). solve_Permutation.
    + rewrite Hlv. split; [|apply HI]. by rewrite Forall_fmap.
    + rewrite Hlv. constructor; [split_and!; [done..|]; intros; by apply Hm, Hin|].
      eapply buddy_holds_mono, HI. intros a. apply Hm.
    + intros j. rewrite Hss. apply HI.
    + intros j. rewrite Hss. apply HI.
    + rewrite (small_cons_big _ _ _ Hk). apply HI.
    + constructor; [done|apply HI].
  - destruct (buddy_alloc_none _ _ _ (hi_wf HI) Hl Hb) as (Hw&Hlv&Hm).
    exists (Err CoreAllocErr), st'. split; [done|]. right. split; [done|].
    split; rewrite ?Hbb, ?Hmm, ?Hlv; try done; try apply HI.
    + intros a Ha'. by apply (hi_mem HI), Hm.
    + eapply buddy_holds_mono, HI. intros a. apply Hm.
    + intros j. rewrite Hss. apply HI.
    + intros j. rewrite Hss. apply HI.
Qed.

Lemma Heap_allocate_ok rs st live gl free l :
  heap_inv rs st live gl free → layout_ok l →
  ∃ r st', Heap_allocate l st = (r, st') ∧
    ((∃ p gl' free', r = Ok p ∧ heap_inv rs st' ((p, l) :: live) gl' free') ∨
     (r = Err CoreAllocErr ∧ heap_inv rs st' live gl free)).
Proof.
  intros HI Hl. destruct (slab_ix l) as [k|] eqn:Hk.
  - destruct (free k) as [|p fr] eqn:Hfk.
    + destruct (buddy_alloc (chunk_layout k) (buddy_allocator (h_heap st))) as [[c|] b'] eqn:Hb.
      * destruct (alloc_grow_ok _ _ _ _ _ _ _ _ _ HI Hl Hk Hfk Hb) as (p&fr&st'&?&?). naive_solver.
      * destruct (alloc_none_ok _ _ _ _ _ _ _ _ HI Hk Hfk Hb) as (st'&?&?). naive_solver.
    + destruct (alloc_free_ok _ _ _ _ _ _ _ _ _ HI Hl Hk Hfk) as (st'&?&?). naive_solver.
  - destruct (alloc_big_ok _ _ _ _ _ _ HI Hl Hk) as (r&st'&?&?). naive_solver.
Qed.

Lemma heap_inv_perm rs st live live' gl free :
  live ≡ₚ live' → heap_inv rs st live gl free → heap_inv rs st live' gl free.
Proof.
  intros Hp HI. split; try apply HI.
  - rewrite <-Hp. apply HI.
  - rewrite <-Hp. apply HI.
  - rewrite <-Hp. apply HI.
Qed.

Lemma dealloc_small_ok rs st live gl free k p l :
  heap_inv rs st ((p, l) :: live) gl free → slab_ix l = Some k →
  ∃ st', Heap_deallocate p l st = (Ok tt, st') ∧
    heap_inv rs st' live gl (<[k := p :: free k]> free).
Proof.
  intros HI Hk.
  assert (∀ j, p ∉ free j) as Hp by (intros j; eapply live_not_free; [done| |done]; set_solver).
  destruct (fbl_push_ok _ _ _ p (hi_repr HI k) (Hp k)) as (f'&Ha&Hr').
  eexists. split.
  { rewrite (Heap_deallocate_small _ _ _ Hk). unfold on_slab, slab_deallocate, mbind, M_bind.
    unfold get_state, on_links. cbn [ss_mem ss_slab]. by rewrite Ha. }
  split; simpl; try apply HI.
  - rewrite (hi_live HI), filter_cons_False by (simpl; congruence). done.
  - intros j. eapply repr_others; [done| |done]. intros i x _ Hx.
    apply lookup_insert_ne. intros <-. by eapply Hp.
  - intros j. rewrite slab_of_set. destruct (decide (j = k)) as [->|]; simpl; apply HI.
  - rewrite <-(hi_blocks HI), (small_cons _ _ _ _ Hk).
    rewrite (frees_split (<[k := p :: free k]> free) k), (frees_split free k), fn_lookup_insert.
    rewrite (others_ext k (<[k := p :: free k]> free) free) by (intros; by rewrite fn_lookup_insert_ne).
    simpl. solve_Permutation.
  - pose proof (hi_ok HI) as Hok. by apply Forall_cons in Hok as [_ ?].
Qed.

Lemma dealloc_big_ok rs st live gl free p l :
  heap_inv rs st ((p, l) :: live) gl free → slab_ix l = None →
  ∃ st', Heap_deallocate p l st = (Ok tt, st') ∧ heap_inv rs st' live gl free.
Proof.
  intros HI Hk. unfold Heap_deallocate. rewrite (slab_ix_big _ Hk).
  assert ((p, l) ∈ buddy_live (buddy_allocator (h_heap st))) as Hin.
  { rewrite (hi_live HI), filter_cons_True by done. apply elem_of_app. right. apply list_elem_of_here. }
  pose proof (hi_in HI) as Hh. rewrite Forall_forall in Hh. destruct (Hh _ Hin) as (H0&_&_).
  simpl in H0. destruct (buddy_dealloc_ok _ _ _ (hi_wf HI) Hin) as (Hw&Hlv&Hm).
  destruct (on_buddy_slab (E:=CoreAllocError) (λ b, (tt, buddy_dealloc p l b)) st tt _ eq_refl)
    as (st'&Ho&Hmm&Hbb&Hss).
  exists st'. split.
  { erewrite M_bind_ok; [exact Ho|]. unfold assert_. destruct (p =? 0) eqn:E; [bool_to_prop; lia|done]. }
  split; rewrite ?Hbb, ?Hmm; try done.
  - intros a Ha'. by apply (hi_mem HI), Hm.
  - apply (Permutation_cons_inv (a := (p, l))). rewrite <-Hlv, (hi_live HI).
    rewrite filter_cons_True by done. solve_Permutation.
  - eapply disjoint_list_submseteq, (hi_disj HI). rewrite Hlv. simpl. by apply submseteq_cons.
  - pose proof (hi_in HI) as Hf. rewrite Hlv in Hf. apply Forall_cons in Hf as [_ Hf].
    eapply buddy_holds_mono, Hf. intros a. apply Hm.
  - intros j. rewrite Hss. apply HI.
  - intros j. rewrite Hss. apply HI.
  - rewrite <-(hi_blocks HI), (small_cons_big _ _ _ Hk). done.
  - pose proof (hi_ok HI) as Hok. by apply Forall_cons in Hok as [_ ?].
Qed.

Lemma Heap_deallocate_ok rs st live gl free p l :
  heap_inv rs st ((p, l) :: live) gl free →
  ∃ st' free', Heap_deallocate p l st = (Ok tt, st') ∧ heap_inv rs st' live gl free'.
Proof.
  intros HI. destruct (slab_ix l) as [k|] eqn:Hk.
  - destruct (dealloc_small_ok _ _ _ _ _ _ _ _ HI Hk) as (st'&?&?). eauto.
  - destruct (dealloc_big_ok _ _ _ _ _ _ _ HI Hk) as (st'&?&?). eauto.
Qed.

Lemma Heap_add_memory_ok rs st live gl free s n :
  heap_inv rs st live gl free → 0 < s → 0 ≤ n → s + n < 2 ^ 64 → s mod 4096 = 0 → n mod 4096 = 0 →
  Forall (disj (s, n)) rs →
  ∃ st', Heap_add_memory s n st = (Ok tt, st') ∧ heap_inv ((s, n) :: rs) st' live gl free.
Proof.
  intros HI Hs Hn Hsn Hsm Hnm Hd.
  assert (add64 s n = s + n) as Hadd by (apply add64_small; unfold in_u64; lia).
  destruct (on_buddy_slab (E:=CoreAllocError) (λ b, (tt, buddy_add_to_heap s (add64 s n) b)) st tt _ eq_refl)
    as (st'&Ho&Hmm&Hbb&Hss).
  exists st'. split.
  { unfold Heap_add_memory. rewrite Hsm, Hnm. exact Ho. }
  rewrite Hadd in Hbb. destruct (buddy_add_ok _ s (s + n) (hi_wf HI)) as (Hw&Hlv&Hm); [lia|lia| |].
  { intros a Ha Hin. destruct (hi_mem HI _ Hin) as (r&Hr&?). rewrite Forall_forall in Hd.
    specialize (Hd r Hr). unfold disj, contains in *. simpl in *. lia. }
  split; rewrite ?Hbb, ?Hmm, ?Hlv; try done; try apply HI.
  - intros a [?|?]%buddy_add_mem.
    + destruct (hi_mem HI a) as (r&?&?); [done|]. exists r. split; [set_solver|done].
    + exists (s, n). split; [set_solver|]. unfold contains in *. simpl in *. lia.
  - by eapply buddy_holds_mono, HI.
  - intros j. rewrite Hss. apply HI.
  - intros j. rewrite Hss. apply HI.
Qed.

(** Clients write what they like into their allocations. *)
Lemma heap_write_ok rs st live gl free m' :
  heap_inv rs st live gl free →
  (∀ a, (∀ x, x ∈ live → ¬ contains (region x) a) → m' !! a = h_mem st !! a) →
  heap_inv rs {| h_mem := m'; h_heap := h_heap st |} live gl free.
Proof.
  intros HI Hw. split; simpl; try apply HI. intros k. eapply repr_frame, HI.
  intros b Hb. apply Hw. intros x Hx Hc. by eapply (free_not_live rs st live gl free k b x b).
Qed.

Lemma Heap_new_ok s n m :
  0 < s → s + n ≤ 2 ^ 64 → s mod 4096 = 0 → MIN_HEAP_SIZE ≤ n → n mod MIN_HEAP_SIZE = 0 →
  ∃ h, Heap_new s n m = (Ok h, m) ∧
    heap_inv [(s, n)] {| h_mem := m; h_heap := h |} [] [] (λ _, []).
Proof.
  intros Hs Hsn Hsm Hn Hnm. destruct (buddy_new_ok) as (Hw&Hlv&Hm).
  destruct (buddy_init_ok buddy_new s n) as (Hw'&Hlv'&_); [done|lia|unfold MIN_HEAP_SIZE in *; lia|done|naive_solver|].
  eexists. split.
  { unfold Heap_new. rewrite Hsm, Hnm, (proj2 (Z.leb_le _ _) Hn). reflexivity. }
  split; simpl; rewrite ?Hlv', ?Hlv; try done.
  - intros a [?|?]%buddy_init_mem; [naive_solver|]. exists (s, n). split; [set_solver|done].
  - by intros [].
  - by intros [].
Qed.
End invariant.

(** ** Reachable heaps *)

Section reach.
Context {B : Type} `{HB : Buddy B} `{HS : !BuddySpec B}.

(** A heap that was made with [Heap::new] and used as its documentation demands:
    memory that is added is not in use, what is deallocated was allocated with the
    same layout and not deallocated since, and the clients write only into their
    allocations.  [rs] is the memory given, [live] the current allocations. *)
Inductive heap_reach : list (Z * Z) → HeapSt (B:=B) → list (Z * Layout) → Prop :=
| reach_new s n m h :
    0 < s → s + n ≤ 2 ^ 64 → Heap_new s n m = (Ok h, m) →
    heap_reach [(s, n)] {| h_mem := m; h_heap := h |} []
| reach_add rs st live s n st' :
    heap_reach rs st live → 0 < s → 0 ≤ n → s + n < 2 ^ 64 → Forall (disj (s, n)) rs →
    Heap_add_memory s n st = (Ok tt, st') → heap_reach ((s, n) :: rs) st' live
| reach_alloc rs st live l p st' :
    heap_reach rs st live → layout_ok l → Heap_allocate l st = (Ok p, st') →
    heap_reach rs st' ((p, l) :: live)
| reach_alloc_err rs st live l e st' :
    heap_reach rs st live → layout_ok l → Heap_allocate l st = (Err e, st') →
    heap_reach rs st' live
| reach_dealloc rs st live live' p l st' :
    heap_reach rs st live → live ≡ₚ (p, l) :: live' → Heap_deallocate p l st = (Ok tt, st') →
    heap_reach rs st' live'
| reach_write rs st live m' :
    heap_reach rs st live →
    (∀ a, (∀ x, x ∈ live → ¬ contains (region x) a) → m' !! a = h_mem st !! a) →
    heap_reach rs {| h_mem := m'; h_heap := h_heap st |} live.

Lemma Heap_new_inv s n m (h : Heap B) m' :
  Heap_new s n m = (Ok h, m') → s mod 4096 = 0 ∧ MIN_HEAP_SIZE ≤ n ∧ n mod MIN_HEAP_SIZE = 0.
Proof.
  unfold Heap_new. intros (?&?&Ha&Hk)%M_bind_ok_inv. unfold assert_ in Ha.
  destruct (_ =? _) eqn:E1 in Ha; [|done]. apply M_bind_ok_inv in Hk as (?&?&Hb&Hk).
  unfold assert_ in Hb. destruct (_ <=? _) eqn:E2 in Hb; [|done].
  apply M_bind_ok_inv in Hk as (?&?&Hc&_). unfold assert_ in Hc.
  destruct (_ =? _) eqn:E3 in Hc; [|done]. bool_to_prop. done.
Qed.

Lemma Heap_add_memory_inv s n st (st' : HeapSt (B:=B)) :
  Heap_add_memory s n st = (Ok tt, st') → s mod 4096 = 0 ∧ n mod 4096 = 0.
Proof.
  unfold Heap_add_memory. intros (?&?&Ha&Hk)%M_bind_ok_inv. unfold assert_ in Ha.
  destruct (_ =? _) eqn:E1 in Ha; [|done]. apply M_bind_ok_inv in Hk as (?&?&Hb&Hk).
  unfold assert_ in Hb. destruct (_ =? _) eqn:E2 in Hb; [|done]. bool_to_prop. done.
Qed.

Lemma heap_reach_inv rs st live :
  heap_reach rs st live → ∃ gl free, heap_inv rs st live gl free.
Proof.
  induction 1 as [s n m h Hs Hsn Hn|rs st live s n st' _ (gl&free&HI) Hs Hn Hsn Hd Ha
    |rs st live l p st' _ (gl&free&HI) Hl Ha|rs st live l e st' _ (gl&free&HI) Hl Ha
    |rs st live live' p l st' _ (gl&free&HI) Hp Hd|rs st live m' _ (gl&free&HI) Hm].
  - apply Heap_new_inv in Hn as Hi. destruct Hi as (?&?&?).
    destruct (Heap_new_ok s n m) as (h'&Hn'&HI); [done..|]. rewrite Hn in Hn'. simplify_eq. eauto.
  - apply Heap_add_memory_inv in Ha as Hi. destruct Hi as [??].
    destruct (Heap_add_memory_ok _ _ _ _ _ s n HI) as (st2&Ha'&HI'); [done..|].
    rewrite Ha in Ha'. simplify_eq. eauto.
  - destruct (Heap_allocate_ok _ _ _ _ _ _ HI Hl) as (r&st2&Ha'&HI'). rewrite Ha in Ha'.
    simplify_eq. destruct HI' as [(?&?&?&[= <-]&?)|[??]]; [eauto|done].
  - destruct (Heap_allocate_ok _ _ _ _ _ _ HI Hl) as (r&st2&Ha'&HI'). rewrite Ha in Ha'.
    simplify_eq. destruct HI' as [(?&?&?&?&?)|[??]]; [done|eauto].
  - apply (heap_inv_perm _ _ _ _ _ _ Hp) in HI.
    destruct (Heap_deallocate_ok _ _ _ _ _ _ _ HI) as (st2&free2&Hd'&HI').
    rewrite Hd in Hd'. simplify_eq. eauto.
  - exists gl, free. by apply heap_write_ok.
Qed.

Lemma pow2_le_divide a b : 0 ≤ a → 2 ^ a ≤ 2 ^ b → (2 ^ a | 2 ^ b).
Proof.
  intros Ha Hle. apply pow2_divide. split; [done|]. apply Z.le_ngt. intros Hlt.
  destruct (Z.neg_nonneg_cases b) as [Hb|Hb].
  - rewrite (Z.pow_neg_r 2 b) in Hle by done. pose proof (Z.pow_pos_nonneg 2 a). lia.
  - apply (Z.pow_lt_mono_r 2) in Hlt; lia.
Qed.

(** A block of a slab is aligned to the slab's block size. *)
Lemma block_aligned k p c i : (4096 | c) → p = c + i * blk k → (blk k | p).
Proof.
  intros Hc ->. apply Z.divide_add_r; [|apply Z.divide_factor_r].
  etransitivity; [|exact Hc]. destruct k; [by exists 64|by exists 32|by exists 16|by exists 8|by exists 4|by exists 2|by exists 1].
Qed.

Lemma align_divides_blk l k :
  layout_ok l → slab_ix l = Some k → lalign l ≤ 4096 → (lalign l | blk k).
Proof.
  intros Hok Hk Ha. destruct (layout_fits _ _ Hok Hk) as [_ Hle]. specialize (Hle Ha).
  destruct Hok as (_&(j&Hj&Hal)&_). rewrite Hal in *.
  assert (∃ e, 0 ≤ e ∧ blk k = 2 ^ e) as (e&?&He).
  { destruct k; [by exists 6|by exists 7|by exists 8|by exists 9|by exists 10|by exists 11|by exists 12]. }
  rewrite He in *. apply pow2_le_divide; lia.
Qed.

Lemma live_regions live :
  Forall (λ x, layout_ok x.2) live →
  ∃ L, L ≡ₚ (block_region <$> small live) ++ (region <$> big live) ∧
    Forall2 subregion (region <$> live) L.
Proof.
  induction 1 as [|[p l] live Hl Hf (L&HL&HF)]; [by exists []|].
  destruct (slab_ix l) as [k|] eqn:Hk.
  - exists (block_region (k, p) :: L). rewrite (small_cons _ _ _ _ Hk).
    rewrite filter_cons_False by (simpl; congruence). split; [by rewrite HL|].
    constructor; [|done]. destruct (layout_fits _ _ Hl Hk). unfold subregion, region. simpl in *. lia.
  - exists (region (p, l) :: L). rewrite (small_cons_big _ _ _ Hk), filter_cons_True by done.
    split; [rewrite HL, fmap_cons; solve_Permutation|].
    constructor; [|done]. unfold subregion. lia.
Qed.

Lemma live_disjoint rs (st : HeapSt (B:=B)) live gl free :
  heap_inv rs st live gl free → disjoint_list (region <$> live).
Proof.
  intros HI. pose proof (heap_inv_disjoint _ _ _ _ _ HI) as Hd.
  destruct (live_regions live (hi_ok _ _ _ _ _ HI)) as (L&HL&HF).
  eapply disjoint_list_shrink; [done|]. eapply disjoint_list_perm; [symmetry; exact HL|].
  rewrite fmap_app, <-app_assoc in Hd. by apply disjoint_list_app in Hd as (_&?&_).
Qed.

Lemma live_placed rs (st : HeapSt (B:=B)) live gl free p l :
  heap_inv rs st live gl free → (p, l) ∈ live →
  0 < p ∧ (∀ a, contains (region (p, l)) a → ∃ r, r ∈ rs ∧ contains r a) ∧
  (lalign l ≤ 4096 ∨ 4096 < lsize l → (lalign l | p)).
Proof.
  intros HI Hin. pose proof (hi_in _ _ _ _ _ HI) as Hh. rewrite Forall_forall in Hh.
  pose proof (hi_ok _ _ _ _ _ HI) as Hok. rewrite Forall_forall in Hok.
  specialize (Hok _ Hin). simpl in Hok. setoid_rewrite (hi_live _ _ _ _ _ HI) in Hh.
  destruct (slab_ix l) as [k|] eqn:Hk.
  - assert ((k, p) ∈ gl ≫= chunk_blocks) as Hb.
    { rewrite <-(hi_blocks _ _ _ _ _ HI). apply elem_of_app. right. by apply (elem_of_small (p, l)). }
    apply list_elem_of_bind in Hb as ([k' c]&(q&[= <- <-]&(i&Hi&Hp)%elem_of_cut)%list_elem_of_fmap&Hgl).
    destruct (Hh (c, chunk_layout k)) as (H0&Hal&Hm).
    { apply elem_of_app. left. apply list_elem_of_fmap. by exists (k, c). }
    destruct (layout_fits _ _ Hok Hk) as [Hsz _]. pose proof (blk_pos k). simpl in *.
    assert (0 ≤ i * blk k ≤ 63 * blk k) by nia. split_and!.
    + lia.
    + intros a Ha. apply (hi_mem _ _ _ _ _ HI), Hm. unfold contains, region in *. cbn in *. lia.
    + intros Hor. etransitivity; [|by eapply block_aligned]. apply align_divides_blk; [done..|].
      destruct Hor; lia.
  - destruct (Hh (p, l)) as (H0&Hal&Hm).
    { apply elem_of_app. right. by apply list_elem_of_filter. }
    split_and!; [done| |done]. intros a Ha. by apply (hi_mem _ _ _ _ _ HI), Hm.
Qed.

Lemma frees_count free k : length (filter (λ x, x.1 = k) (frees free)) = length (free k).
Proof.
  rewrite (frees_split free k), filter_app, length_app.
  assert (filter (λ x : Block, x.1 = k) (others k free) = []) as ->.
  { apply filter_none, Forall_forall. intros x (j&Hx&_)%list_elem_of_bind.
    destruct (decide (j = k)); [by apply not_elem_of_nil in Hx|].
    by apply list_elem_of_fmap in Hx as (?&->&_). }
  rewrite filter_all; [by rewrite length_fmap, Nat.add_0_r|].
  apply Forall_forall. by intros x (?&->&_)%list_elem_of_fmap.
Qed.

Lemma blocks_count (gl : list Block) k :
  length (filter (λ x, x.1 = k) (gl ≫= chunk_blocks)) = (64 * length (filter (λ x, x.1 = k) gl))%nat.
Proof.
  induction gl as [|[j c] gl IH]; [done|]. rewrite bind_cons, filter_app, length_app, IH, filter_cons.
  destruct (decide (j = k)) as [->|Hj]; simpl.
  - rewrite decide_True by done. rewrite filter_all.
    + unfold chunk_blocks. rewrite length_fmap, cut_length. simpl. lia.
    + apply Forall_forall. by intros x (?&->&_)%list_elem_of_fmap.
  - rewrite decide_False by done. rewrite filter_none; [done|].
    apply Forall_forall. by intros x (?&->&_)%list_elem_of_fmap.
Qed.

Lemma small_count live k :
  length (filter (λ x, x.1 = k) (small live)) = length (filter (λ x, slab_ix x.2 = Some k) live).
Proof.
  induction live as [|[p l] live IH]; [done|]. rewrite (filter_cons _ (p, l)). destruct (slab_ix l) as [j|] eqn:Hj.
  - rewrite (small_cons _ _ _ _ Hj), filter_cons. simpl. rewrite Hj.
    destruct (decide (j = k)) as [->|]; [rewrite decide_True by done|rewrite decide_False by congruence];
      simpl; lia.
  - rewrite (small_cons_big _ _ _ Hj), decide_False by (simpl; congruence). done.
Qed.

Lemma used_blocks_count rs (st : HeapSt (B:=B)) live gl free k :
  heap_inv rs st live gl free →
  used_blocks (slab_of k (h_heap st)) =
    wrap 64 (Z.of_nat (length (filter (λ x, slab_ix x.2 = Some k) live))).
Proof.
  intros HI. destruct (hi_repr _ _ _ _ _ HI k) as [_ Hlen]. unfold used_blocks.
  rewrite Hlen, (hi_total _ _ _ _ _ HI).
  assert (length (filter (λ x, x.1 = k) (frees free ++ small live)) =
    length (filter (λ x, x.1 = k) (gl ≫= chunk_blocks))) as Hc.
  { apply Permutation_length, filter_Permutation. apply HI. }
  rewrite filter_app, length_app, frees_count, small_count, blocks_count in Hc.
  unfold sub64, wrap. rewrite <-Zminus_mod. f_equal. lia.
Qed.

(** C3: The slab heap is safe.  Over any sequence of calls and client writes: live
    allocations do not overlap, lie in the memory given to the heap, and are
    aligned as their layout asks unless they are small with an alignment above
    4096; each slab counts its live blocks; no call of [allocate] and no
    deallocation of a live allocation panics or runs on. *)
Theorem slab_heap_safe rs st live :
  heap_reach rs st live →
  disjoint_list (region <$> live) ∧
  (∀ p l, (p, l) ∈ live →
     0 < p ∧ (∀ a, contains (region (p, l)) a → ∃ r, r ∈ rs ∧ contains r a) ∧
     (lalign l ≤ 4096 ∨ 4096 < lsize l → (lalign l | p))) ∧
  (∀ k, used_blocks (slab_of k (h_heap st)) =
          wrap 64 (Z.of_nat (length (filter (λ x, slab_ix x.2 = Some k) live)))) ∧
  (∀ l, layout_ok l → ∃ r st', Heap_allocate l st = (r, st') ∧
          (r = Err CoreAllocErr ∨ ∃ p, r = Ok p)) ∧
  (∀ p l, (p, l) ∈ live → ∃ st', Heap_deallocate p l st = (Ok tt, st')).
Proof.
  intros (gl&free&HI)%heap_reach_inv. split_and!.
  - by eapply live_disjoint.
  - intros p l. by eapply live_placed.
  - intros k. by eapply used_blocks_count.
  - intros l Hl. destruct (Heap_allocate_ok _ _ _ _ _ _ HI Hl) as (r&st'&?&?). naive_solver.
  - intros p l [live' Hp]%elem_of_Permutation. apply (heap_inv_perm _ _ _ _ _ _ Hp) in HI.
    destruct (Heap_deallocate_ok _ _ _ _ _ _ _ HI) as (st'&?&?&_). eauto.
Qed.
End reach.

(** ** A concrete buddy allocator: it hands out memory in ascending order *)

Record Bump : Type := { bp_base : Z; bp_next : Z; bp_end : Z; bp_live : list (Z * Layout) }.

Fixpoint remove_one {A} `{EqDecision A} (x : A) (l : list A) : list A :=
  match l with
  | [] => []
  | y :: l => if decide (x = y) then l else y :: remove_one x l
  end.

Lemma remove_one_perm {A} `{EqDecision A} (x : A) l : x ∈ l → l ≡ₚ x :: remove_one x l.
Proof.
  induction l as [|y l IH]; [by intros ?%not_elem_of_nil|]. simpl.
  destruct (decide (x = y)) as [->|Hne]; [done|]. intros [->|?]%elem_of_cons; [done|].
  rewrite IH at 1 by done. solve_Permutation.
Qed.

Definition bump_align (n a : Z) : Z := (n + a - 1) / a * a.

#[export] Instance bump_buddy : Buddy Bump := {|
  buddy_new := {| bp_base := 0; bp_next := 0; bp_end := 0; bp_live := [] |};
  buddy_init s n b :=
    if bp_end b =? 0 then {| bp_base := s; bp_next := s; bp_end := s + n; bp_live := bp_live b |}
    else b;
  buddy_add_to_heap s e b := b;
  buddy_alloc l b :=
    let p := bump_align (bp_next b) (lalign l) in
    if ((0 <? bp_next b) && (p + lsize l <=? bp_end b))%bool then
      (Some p, {| bp_base := bp_base b; bp_next := p + lsize l; bp_end := bp_end b;
                  bp_live := (p, l) :: bp_live b |})
    else (None, b);
  buddy_dealloc p l b :=
    {| bp_base := bp_base b; bp_next := bp_next b; bp_end := bp_end b;
       bp_live := remove_one (p, l) (bp_live b) |};
  buddy_stats_total_bytes b := bp_end b - bp_base b;
  buddy_stats_alloc_actual b := bp_next b - bp_base b;
|}.

Definition bump_wf (b : Bump) : Prop :=
  0 ≤ bp_base b ≤ bp_next b ∧ bp_next b ≤ bp_end b ≤ 2 ^ 64 ∧
  Forall (λ x, x.1 + lsize x.2 ≤ bp_next b) (bp_live b).

Lemma bump_align_ok n a : 0 < a → n ≤ bump_align n a ∧ (a | bump_align n a).
Proof.
  intros Ha. unfold bump_align. split; [|apply Z.divide_factor_r].
  pose proof (Z.div_mod (n + a - 1) a). pose proof (Z.mod_pos_bound (n + a - 1) a). nia.
Qed.

Lemma bump_init_ok b s n :
  bump_wf b → 0 < s → 0 ≤ n → s + n ≤ 2 ^ 64 →
  bump_wf (buddy_init s n b) ∧ bp_live (buddy_init s n b) = bp_live b ∧
  ∀ a, bp_base b ≤ a < bp_end b → bp_base (buddy_init s n b) ≤ a < bp_end (buddy_init s n b).
Proof.
  intros ([??]&[??]&Hf) Hs Hn Hsn. simpl. destruct (bp_end b =? 0) eqn:E; bool_to_prop; [|done].
  split; [|simpl; split; [done|lia]]. split_and!; simpl; [lia..|].
  eapply Forall_impl; [exact Hf|]. simpl. lia.
Qed.

Lemma bump_alloc_some b l p b' :
  bump_wf b → layout_ok l → buddy_alloc l b = (Some p, b') →
  bump_wf b' ∧ bp_live b' = (p, l) :: bp_live b ∧
  (∀ a, bp_base b' ≤ a < bp_end b' ↔ bp_base b ≤ a < bp_end b) ∧
  0 < p ∧ p + lsize l ≤ 2 ^ 64 ∧ (lalign l | p) ∧
  (∀ a, contains (region (p, l)) a → bp_base b ≤ a < bp_end b) ∧
  Forall (λ x, disj (p, lsize l) (region x)) (bp_live b).
Proof.
  intros ([??]&[??]&Hf) (Hl&(k&Hk&Ha)&_). simpl.
  destruct (bump_align_ok (bp_next b) (lalign l)) as [Hle Hdv]; [rewrite Ha; lia|].
  set (q := bump_align _ _) in *. split_ifs; [|done]. intros [= <- <-]. bool_to_prop.
  split_and!; simpl; try done; try lia.
  - split_and!; simpl; [lia..|]. constructor; [simpl; lia|].
    eapply Forall_impl; [exact Hf|]. simpl. lia.
  - intros a. unfold contains, region. simpl. lia.
  - eapply Forall_impl; [exact Hf|]. unfold disj, region. simpl. lia.
Qed.

Lemma bump_dealloc_ok b p l :
  bump_wf b → (p, l) ∈ bp_live b →
  bump_wf (buddy_dealloc p l b) ∧ bp_live b ≡ₚ (p, l) :: bp_live (buddy_dealloc p l b) ∧
  ∀ a : Z, (bp_base b ≤ a < bp_end b) ↔ (bp_base b ≤ a < bp_end b).
Proof.
  intros ([??]&[??]&Hf) Hin. apply remove_one_perm in Hin as Hp. split_and!; [|done|done].
  split_and!; simpl; [lia..|]. rewrite Hp in Hf. by apply Forall_cons in Hf as [_ ?].
Qed.

#[export] Instance bump_spec : BuddySpec Bump.
Proof.
  refine {| buddy_wf := bump_wf; buddy_mem b a := bp_base b ≤ a < bp_end b; buddy_live := bp_live |}.
  - split_and!; [split_and!; simpl; try lia; constructor|done|simpl; lia].
  - intros b s n Hw Hs Hn Hsn _. by apply bump_init_ok.
  - intros b s n a. simpl. destruct (bp_end b =? 0); simpl; unfold contains; simpl; lia.
  - done.
  - simpl. tauto.
  - apply bump_alloc_some.
  - intros b l b' Hw _. simpl. split_ifs; [done|]. by intros [= <-].
  - apply bump_dealloc_ok.
Defined.

(** ** Example runs *)

Section examples.
Local Abbreviation layout n a := {| lsize := n; lalign := a |}.

(** A heap of 512 KiB, with an allocation of 100 bytes and one of 5000. *)
Lemma slab_heap_safe_witness :
  ∃ (st : HeapSt (B:=Bump)) live,
    heap_reach [(0x2000, 0x80000)] st live ∧ live.*2 = [layout 5000 16; layout 100 8] ∧
    disjoint_list (region <$> live).
Proof.
  assert (∃ (st : HeapSt (B:=Bump)) live, heap_reach [(0x2000, 0x80000)] st live ∧
    live.*2 = [layout 5000 16; layout 100 8]) as (st&live&Hr&Hl).
  { pose (st0 := (Heap_new (B:=Bump) 0x2000 0x80000 ∅)).
    assert (∃ h, st0 = (Ok h, ∅)) as (h&Hh) by (eexists; vm_compute; reflexivity).
    pose (r1 := Heap_allocate (layout 100 8) {| h_mem := ∅; h_heap := h |}).
    pose (r2 := Heap_allocate (layout 5000 16) r1.2).
    assert (∃ p, r1.1 = Ok p) as [p Hp].
    { unfold r1. vm_compute in Hh. injection Hh as <-. eexists. vm_compute. reflexivity. }
    assert (∃ q, r2.1 = Ok q) as [q Hq].
    { unfold r2, r1. vm_compute in Hh. injection Hh as <-. eexists. vm_compute. reflexivity. }
    exists r2.2, [(q, layout 5000 16); (p, layout 100 8)]. split; [|done].
    apply (reach_alloc _ r1.2); [|by repeat split; try exists 4|by rewrite <-Hq, <-surjective_pairing].
    apply (reach_alloc _ {| h_mem := ∅; h_heap := h |});
      [|by repeat split; try exists 3|by rewrite <-Hp, <-surjective_pairing].
    by apply reach_new. }
  exists st, live. split_and!; [done..|]. apply (slab_heap_safe _ _ _ Hr).
Defined.

(** A small allocation with an alignment above 4096 is served from a slab of
    4096-byte blocks, and need not be aligned as the layout asks. *)
Theorem over_aligned_allocation :
  ∃ (h : Heap Bump) m st' p,
    Heap_new 0x2000 0x80000 ∅ = (Ok h, m) ∧
    Heap_allocate (layout 64 8192) {| h_mem := m; h_heap := h |} = (Ok p, st') ∧
    p mod 8192 ≠ 0.
Proof.
  destruct (Heap_new (B:=Bump) 0x2000 0x80000 ∅) as [[h| | |] m] eqn:Hh; [|by vm_compute in Hh..].
  destruct (Heap_allocate (layout 64 8192) {| h_mem := m; h_heap := h |}) as [r st'] eqn:Ha.
  assert (r = Ok 266240) as ->.
  { apply (f_equal fst) in Ha. vm_compute in Hh. injection Hh as <- <-. vm_compute in Ha. by subst. }
  by exists h, m, st', 266240.
Qed.
End examples.
