(* ===== verification/PageAlloc.v ===== *)
(** * The page allocator ([crates/allocator/src/bitmap.rs])

    Pages are numbered from the base of the memory; a third-party bitmap allocator,
    given by its operations and their documented behaviour, says which are free. *)

From Stdlib Require Import ZArith Lia.
From stdpp Require Import base decidable numbers gmap list.
From S2P Require Import Prelude LinkedList MemoryAddr SlabHeap SlabHeapProps.

Local Open Scope Z_scope.

(** ** [bitmap_allocator::BitAlloc1M] *)

Class BitAlloc (A : Type) : Type := {
  bit_default : A;
  bit_insert : Z → Z → A → A;
  bit_alloc : A → option Z * A;
  bit_alloc_contiguous : Z → Z → A → option Z * A;
  bit_dealloc : Z → A → A;
}.

Definition BIT_CAP : Z := 2 ^ 20.

(** [bit_free] are the free numbers. *)
Class BitAllocSpec (A : Type) `{BitAlloc A} : Type := {
  bit_free : A → gset Z;
  bit_default_free : bit_free bit_default = ∅;
  bit_insert_free lo hi a i : 0 ≤ lo → hi ≤ BIT_CAP →
    i ∈ bit_free (bit_insert lo hi a) ↔ lo ≤ i < hi ∨ i ∈ bit_free a;
  bit_alloc_some a i a' : bit_alloc a = (Some i, a') →
    i ∈ bit_free a ∧ bit_free a' = bit_free a ∖ {[i]};
  bit_alloc_none a a' : bit_alloc a = (None, a') → bit_free a' = bit_free a ∧ bit_free a = ∅;
  bit_contiguous_some n k a i a' : 0 < n → bit_alloc_contiguous n k a = (Some i, a') →
    (2 ^ k | i) ∧ (∀ j, i ≤ j < i + n → j ∈ bit_free a) ∧
    ∀ j, j ∈ bit_free a' ↔ j ∈ bit_free a ∧ ¬ i ≤ j < i + n;
  bit_contiguous_none n k a a' : bit_alloc_contiguous n k a = (None, a') → bit_free a' = bit_free a;
  bit_dealloc_free i a : 0 ≤ i < BIT_CAP → i ∉ bit_free a → bit_free (bit_dealloc i a) = {[i]} ∪ bit_free a;
}.

(** ** [BitmapPageAllocator] *)

Inductive AllocError : Set := AllocInvalidParam | AllocMemoryOverlap | AllocNoMemory | AllocNotAllocated.

Record BitmapPageAllocator (A : Type) : Type :=
  { pa_base : Z; pa_total_pages : Z; pa_used_pages : Z; pa_inner : A }.
Arguments pa_base {A}.
Arguments pa_total_pages {A}.
Arguments pa_used_pages {A}.
Arguments pa_inner {A}.

(** [align_down] and [align_up] of the crate. *)
Definition pa_align_down (p align : Z) : Z := Z.land p (not64 (sub64 align 1)).
Definition pa_align_up (p align : Z) : Z := Z.land (sub64 (add64 p align) 1) (not64 (sub64 align 1)).

(** [usize::is_power_of_two], and [trailing_zeros] of a power of two. *)
Definition is_power_of_two (x : Z) : bool := ((0 <? x) && (Z.land x (x - 1) =? 0))%bool.
Definition trailing_zeros (x : Z) : Z := Z.log2 x.

Definition PAGE_SIZE : Z := 0x1000.

Section ops.
Context {A : Type} `{BitAlloc A}.
Local Abbreviation PM := (M (BitmapPageAllocator A) AllocError).

Definition pa_new : BitmapPageAllocator A :=
  {| pa_base := 0; pa_total_pages := 0; pa_used_pages := 0; pa_inner := bit_default |}.

Definition pa_init (start size : Z) : PM unit :=
  _ ← assert_ (is_power_of_two PAGE_SIZE);
  let end_ := pa_align_down (add64 start size) PAGE_SIZE in
  let start := pa_align_up start PAGE_SIZE in
  let total_pages := sub64 end_ start / PAGE_SIZE in
  modify (λ s, {| pa_base := start; pa_total_pages := total_pages; pa_used_pages := pa_used_pages s;
                  pa_inner := bit_insert 0 total_pages (pa_inner s) |}).

Definition set_inner (a : A) : PM unit :=
  modify (λ s, {| pa_base := pa_base s; pa_total_pages := pa_total_pages s; pa_used_pages := pa_used_pages s;
                  pa_inner := a |}).
Definition set_used (f : Z → Z) : PM unit :=
  modify (λ s, {| pa_base := pa_base s; pa_total_pages := pa_total_pages s;
                  pa_used_pages := f (pa_used_pages s); pa_inner := pa_inner s |}).

Definition pa_alloc_pages (num_pages align_pow2 : Z) : PM Z :=
  if negb (align_pow2 mod PAGE_SIZE =? 0) then throw AllocInvalidParam
  else
    let align_pow2 := align_pow2 / PAGE_SIZE in
    if negb (is_power_of_two align_pow2) then throw AllocInvalidParam
    else
      let align_log2 := trailing_zeros align_pow2 in
      s ← get_state;
      idx ← (if num_pages =? 1 then
               let '(i, a) := bit_alloc (pa_inner s) in _ ← set_inner a; mret i
             else if 1 <? num_pages then
               let '(i, a) := bit_alloc_contiguous num_pages align_log2 (pa_inner s) in _ ← set_inner a; mret i
             else throw AllocInvalidParam);
      match idx with
      | Some idx =>
          _ ← set_used (λ u, add64 u num_pages);
          mret (add64 (mul64 idx PAGE_SIZE) (pa_base s))
      | None => throw AllocNoMemory
      end.

Definition pa_dealloc_pages (p num_pages : Z) : PM unit :=
  _ ← set_used (λ u, sub64 u num_pages);
  s ← get_state;
  set_inner (bit_dealloc (sub64 p (pa_base s) / PAGE_SIZE) (pa_inner s)).

Definition pa_available_pages (s : BitmapPageAllocator A) : Z := sub64 (pa_total_pages s) (pa_used_pages s).
End ops.

(** ** The invariant

    [pages] are the allocations that were not given back: an address and a number of
    pages. *)

Definition pages_total (l : list (Z * Z)) : Z := foldr (λ x n, x.2 + n) 0 l.

Lemma pages_total_perm l k : l ≡ₚ k → pages_total l = pages_total k.
Proof. unfold pages_total. induction 1; cbn; lia. Qed.

Definition page_region (x : Z * Z) : Z * Z := (x.1, x.2 * PAGE_SIZE).

Section invariant.
Context {A : Type} `{BA : BitAlloc A} `{BAS : !BitAllocSpec A}.
Implicit Types (s : BitmapPageAllocator A) (pages : list (Z * Z)).

(** A live allocation: its pages are in range and not free. *)
Definition page_live s (x : Z * Z) : Prop :=
  0 < x.2 ∧ ∃ i, x.1 = i * PAGE_SIZE + pa_base s ∧ 0 ≤ i ∧ i + x.2 ≤ pa_total_pages s ∧
    ∀ j, i ≤ j < i + x.2 → j ∉ bit_free (pa_inner s).

Record pa_inv s pages : Prop := {
  pv_base : 0 < pa_base s ∧ pa_base s mod PAGE_SIZE = 0;
  pv_end : pa_base s + pa_total_pages s * PAGE_SIZE < 2 ^ 64;
  pv_total : 0 ≤ pa_total_pages s ≤ BIT_CAP;
  pv_free i : i ∈ bit_free (pa_inner s) → 0 ≤ i < pa_total_pages s;
  pv_live : Forall (page_live s) pages;
  pv_disj : disjoint_list (page_region <$> pages);
  pv_used : pa_used_pages s = wrap 64 (pages_total pages);
}.

Lemma wrap_add_l a b : add64 (wrap 64 a) b = wrap 64 (b + a).
Proof. unfold add64, wrap. rewrite Z.add_mod_idemp_l by done. f_equal. lia. Qed.
Lemma wrap_sub_l a b : sub64 (wrap 64 (b + a)) b = wrap 64 a.
Proof. unfold sub64, wrap. rewrite Zminus_mod_idemp_l. f_equal. lia. Qed.

Lemma pa_align_down_4k a : in_u64 a → pa_align_down a PAGE_SIZE = a - a mod PAGE_SIZE.
Proof. intros Ha. apply (align_down_mod a 12); [done|lia]. Qed.

Lemma pa_align_up_4k a :
  0 ≤ a → a + PAGE_SIZE ≤ 2 ^ 64 →
  a ≤ pa_align_up a PAGE_SIZE < a + PAGE_SIZE ∧ pa_align_up a PAGE_SIZE mod PAGE_SIZE = 0.
Proof.
  intros Ha Hb. assert (pa_align_up a PAGE_SIZE = pa_align_down (a + (PAGE_SIZE - 1)) PAGE_SIZE) as ->.
  { change (pa_align_up a PAGE_SIZE) with (align_up a (2 ^ 12)). unfold PAGE_SIZE in *.
    rewrite align_up_eq by (unfold in_u64; lia). rewrite wrap_small by lia. done. }
  rewrite pa_align_down_4k by (unfold in_u64, PAGE_SIZE in *; lia).
  unfold PAGE_SIZE in *. split; Z.div_mod_to_equations; lia.
Qed.

Lemma pa_init_ok start size :
  0 < start → PAGE_SIZE ≤ size → start + size < 2 ^ 64 → size ≤ BIT_CAP * PAGE_SIZE →
  ∃ s, pa_init start size pa_new = (Ok tt, s) ∧ pa_inv s [] ∧ start ≤ pa_base s ∧
    pa_base s + pa_total_pages s * PAGE_SIZE ≤ start + size ∧ size < (pa_total_pages s + 3) * PAGE_SIZE.
Proof.
  intros Hs Hp Hlt Hcap. unfold pa_init. erewrite M_bind_ok by reflexivity. eexists. split; [reflexivity|].
  cbn [pa_base pa_total_pages pa_used_pages pa_inner pa_new].
  pose proof (pa_align_up_4k start ltac:(lia) ltac:(unfold PAGE_SIZE in *; lia)) as [Hup Hmod].
  rewrite add64_small by (unfold in_u64, PAGE_SIZE in *; lia).
  rewrite pa_align_down_4k by (unfold in_u64, PAGE_SIZE in *; lia).
  set (b := pa_align_up start PAGE_SIZE) in *. set (e := start + size - (start + size) mod PAGE_SIZE) in *.
  assert (b ≤ e ∧ e ≤ start + size < e + PAGE_SIZE) as [Hbe He].
  { unfold e, PAGE_SIZE in *. Z.div_mod_to_equations. lia. }
  rewrite sub64_small by (unfold in_u64, PAGE_SIZE in *; lia). set (t := (e - b) / PAGE_SIZE).
  assert (t * PAGE_SIZE ≤ e - b < (t + 1) * PAGE_SIZE) as Ht by (unfold t, PAGE_SIZE; Z.div_mod_to_equations; lia).
  split; [|unfold PAGE_SIZE in *; lia]. split; cbn; try done; try (unfold PAGE_SIZE, BIT_CAP in *; lia).
  intros i. rewrite bit_insert_free by (unfold PAGE_SIZE, BIT_CAP in *; lia).
  rewrite bit_default_free. intros [?|?%elem_of_empty]; [done|done].
Qed.

Lemma page_live_mono s s' x :
  pa_base s' = pa_base s → pa_total_pages s' = pa_total_pages s →
  (∀ i j, x.1 = i * PAGE_SIZE + pa_base s → i ≤ j < i + x.2 → j ∉ bit_free (pa_inner s) →
     j ∉ bit_free (pa_inner s')) →
  page_live s x → page_live s' x.
Proof.
  intros Hb Ht Hf (Hn&i&Hi&H0&Hl&Hj). split; [done|]. exists i. rewrite Hb, Ht. split_and!; try done.
  intros j Hij. apply (Hf i); auto.
Qed.

(** Pages that were free are not part of a live allocation. *)
Lemma live_disj s x i n :
  page_live s x → 0 < n → (∀ j, i ≤ j < i + n → j ∈ bit_free (pa_inner s)) →
  disj (page_region (i * PAGE_SIZE + pa_base s, n)) (page_region x).
Proof.
  intros (Hx&k&Hk&_&_&Hj) Hn Hf. unfold disj, page_region. cbn. rewrite Hk.
  assert (i + n ≤ k ∨ k + x.2 ≤ i) as Hd.
  { destruct (decide (i + n ≤ k)); [by left|]. destruct (decide (k + x.2 ≤ i)); [by right|].
    exfalso. apply (Hj (Z.max i k)); [lia|]. apply Hf. lia. }
  unfold PAGE_SIZE. lia.
Qed.

(** The state after pages were taken. *)
Lemma taken_inv s pages i n a :
  pa_inv s pages → 0 < n → (∀ j, i ≤ j < i + n → j ∈ bit_free (pa_inner s)) →
  (∀ j, j ∈ bit_free a ↔ j ∈ bit_free (pa_inner s) ∧ ¬ i ≤ j < i + n) →
  add64 (mul64 i PAGE_SIZE) (pa_base s) = i * PAGE_SIZE + pa_base s ∧
  pa_inv {| pa_base := pa_base s; pa_total_pages := pa_total_pages s;
            pa_used_pages := add64 (pa_used_pages s) n; pa_inner := a |}
    ((i * PAGE_SIZE + pa_base s, n) :: pages).
Proof.
  intros HI Hn Hf Ha. destruct HI as [Hb He Ht Hfr Hl Hd Hu].
  pose proof (Hfr i ltac:(apply Hf; lia)). pose proof (Hfr (i + n - 1) ltac:(apply Hf; lia)). split.
  { unfold mul64. rewrite wrap_small by (unfold PAGE_SIZE in *; lia). apply add64_small. unfold in_u64, PAGE_SIZE in *. lia. }
  split; cbn; try done.
  - intros j [Hj _]%Ha. by apply Hfr.
  - apply Forall_cons. split.
    + split; [done|]. exists i. cbn. split_and!; try done; try lia. intros j Hj. rewrite Ha. tauto.
    + eapply Forall_impl; [exact Hl|]. intros x. apply page_live_mono; try done.
      intros k j _ _ Hj. cbn. rewrite Ha. tauto.
  - split; [|done]. apply Forall_fmap. eapply Forall_impl; [exact Hl|]. intros x Hx. by apply (live_disj s).
  - rewrite Hu. apply wrap_add_l.
Qed.

Lemma failed_inv s pages a :
  pa_inv s pages → bit_free a = bit_free (pa_inner s) →
  pa_inv {| pa_base := pa_base s; pa_total_pages := pa_total_pages s; pa_used_pages := pa_used_pages s;
            pa_inner := a |} pages.
Proof.
  intros [Hb He Ht Hfr Hl Hd Hu] Ha. split; cbn; try done; [by rewrite Ha|].
  eapply Forall_impl; [exact Hl|]. intros x. apply page_live_mono; try done. intros i j _ _. cbn. by rewrite Ha.
Qed.

Lemma power_of_two_log2 x : is_power_of_two x = true → x = 2 ^ Z.log2 x.
Proof.
  unfold is_power_of_two. intros [H0 Hl]%andb_true_iff. bool_to_prop.
  pose proof (Z.log2_spec x H0) as [Hlo Hhi]. destruct (decide (x = 2 ^ Z.log2 x)) as [|Hne]; [done|exfalso].
  assert (Z.testbit (Z.land x (x - 1)) (Z.log2 x) = true) as Hb; [|by rewrite Hl, Z.testbit_0_l in Hb].
  pose proof (Z.log2_nonneg x). rewrite Z.land_spec, Z.bit_log2 by done.
  assert (Z.log2 (x - 1) = Z.log2 x) as <- by (apply Z.log2_unique; lia). apply Z.bit_log2.
  pose proof (Z.pow_pos_nonneg 2 (Z.log2 x)). lia.
Qed.

(** What [alloc_pages] does; [Err] leaves the free pages as they are. *)
Lemma pa_alloc_pages_ok s pages num align :
  pa_inv s pages →
  ∃ r s', pa_alloc_pages num align s = (r, s') ∧ pa_base s' = pa_base s ∧ pa_total_pages s' = pa_total_pages s ∧
    match r with
    | Ok a => pa_inv s' ((a, num) :: pages) ∧ (1 < num → (align | a - pa_base s)) ∧ pa_base s ≤ a ∧
        a + num * PAGE_SIZE ≤ pa_base s + pa_total_pages s * PAGE_SIZE ∧
        (size (bit_free (pa_inner s')) < size (bit_free (pa_inner s)))%nat
    | Err e => pa_inv s' pages ∧ bit_free (pa_inner s') = bit_free (pa_inner s)
    | _ => False
    end.
Proof.
  intros HI. unfold pa_alloc_pages.
  destruct (align mod PAGE_SIZE =? 0) eqn:Ea; cbn [negb]; [|by eexists _, _]. bool_to_prop.
  destruct (is_power_of_two (align / PAGE_SIZE)) eqn:Ep; cbn [negb]; [|by eexists _, _].
  apply power_of_two_log2 in Ep. unfold trailing_zeros. set (k := Z.log2 (align / PAGE_SIZE)) in *.
  erewrite M_bind_ok by reflexivity.
  assert (∀ i a, 0 < num → (∀ j, i ≤ j < i + num → j ∈ bit_free (pa_inner s)) →
    (∀ j, j ∈ bit_free a ↔ j ∈ bit_free (pa_inner s) ∧ ¬ i ≤ j < i + num) → (1 < num → (2 ^ k | i)) →
    let s' := {| pa_base := pa_base s; pa_total_pages := pa_total_pages s;
                 pa_used_pages := add64 (pa_used_pages s) num; pa_inner := a |} in
    let p := add64 (mul64 i PAGE_SIZE) (pa_base s) in
    pa_inv s' ((p, num) :: pages) ∧ (1 < num → (align | p - pa_base s)) ∧ pa_base s ≤ p ∧
    p + num * PAGE_SIZE ≤ pa_base s + pa_total_pages s * PAGE_SIZE ∧
    (size (bit_free a) < size (bit_free (pa_inner s)))%nat) as Hok.
  { intros i a Hn Hf Ha Hk s' p. destruct (taken_inv s pages i num a HI Hn Hf Ha) as [Hp HI'].
    pose proof (pv_free _ _ HI i ltac:(apply Hf; lia)). pose proof (pv_free _ _ HI (i + num - 1) ltac:(apply Hf; lia)).
    unfold p. rewrite Hp. split_and!; try done; try (unfold PAGE_SIZE; lia).
    - intros H1. destruct (Hk H1) as [c Hc]. exists c.
      rewrite (Z.div_mod align PAGE_SIZE), Ea, Ep by done. lia.
    - apply subset_size. split; [intros j [? _]%Ha; done|]. intros Hs. specialize (Hs i ltac:(apply Hf; lia)).
      apply Ha in Hs as [_ Hs]. lia. }
  destruct (num =? 1) eqn:E1; bool_to_prop; [|destruct (1 <? num) eqn:E2; bool_to_prop; [|by eexists _, _]].
  - subst num. destruct (bit_alloc (pa_inner s)) as [[i|] a] eqn:Eb.
    + apply bit_alloc_some in Eb as [Hi Ha]. eexists _, _. split; [reflexivity|]. split; [done|]. split; [done|].
      apply (Hok i a); [lia|intros j Hj; by replace j with i by lia| |lia]. intros j. rewrite Ha. set_solver by lia.
    + apply bit_alloc_none in Eb as [Ha _]. eexists _, _. split; [reflexivity|]. do 2 (split; [done|]).
      split; [by apply failed_inv|done].
  - destruct (bit_alloc_contiguous num k (pa_inner s)) as [[i|] a] eqn:Eb.
    + apply bit_contiguous_some in Eb as (Hk&Hf&Ha); [|lia]. eexists _, _. split; [reflexivity|].
      split; [done|]. split; [done|]. apply (Hok i a); [lia|done..].
    + apply bit_contiguous_none in Eb. eexists _, _. split; [reflexivity|]. do 2 (split; [done|]).
      split; [by apply failed_inv|done].
Qed.

(** Only the first page of an allocation becomes free again. *)
Lemma pa_dealloc_pages_ok s pages pages' p n :
  pa_inv s pages → pages ≡ₚ (p, n) :: pages' →
  ∃ s', pa_dealloc_pages p n s = (Ok tt, s') ∧ pa_base s' = pa_base s ∧ pa_total_pages s' = pa_total_pages s ∧
    pa_inv s' pages' ∧ ∃ i, p = i * PAGE_SIZE + pa_base s ∧ i ∉ bit_free (pa_inner s) ∧
      bit_free (pa_inner s') = {[i]} ∪ bit_free (pa_inner s).
Proof.
  intros [Hb He Ht Hfr Hl Hd Hu] Hp.
  assert (page_live s (p, n)) as (Hn&i&Hi&H0&Hle&Hj) by (rewrite Hp in Hl; by apply Forall_cons in Hl as [? _]).
  cbn in Hi, Hn, Hle, Hj. assert (sub64 p (pa_base s) / PAGE_SIZE = i) as Hdiv.
  { rewrite sub64_small by (unfold in_u64, PAGE_SIZE in *; lia). rewrite Hi.
    replace (i * PAGE_SIZE + pa_base s - pa_base s) with (i * PAGE_SIZE) by lia. by apply Z.div_mul. }
  pose proof (bit_dealloc_free i (pa_inner s) ltac:(lia) ltac:(apply Hj; lia)) as Hf.
  eexists. split; [reflexivity|]. cbn [pa_base pa_total_pages pa_inner pa_used_pages].
  do 2 (split; [done|]). rewrite Hdiv. split; [|exists i; split_and!; [done|apply Hj; lia|done]].
  apply (disjoint_list_perm _ _ (fmap_Permutation page_region _ _ Hp)) in Hd. cbn in Hd. destruct Hd as [Hdp Hd].
  rewrite Hp in Hl. apply Forall_cons in Hl as [_ Hl].
  split; cbn; try done; [| |rewrite Hu].
  - intros j. rewrite Hf. intros [->%elem_of_singleton|?]%elem_of_union; [lia|by apply Hfr].
  - apply Forall_forall. intros x Hx. rewrite Forall_forall in Hl. specialize (Hl x Hx).
    apply (page_live_mono s); [done..| |exact Hl]. intros k j Hk Hkj Hnf. cbn. rewrite Hf. intros [->%elem_of_singleton|?]%elem_of_union; [|done].
    rewrite Forall_forall in Hdp. specialize (Hdp (page_region x) ltac:(by apply list_elem_of_fmap_2)).
    unfold disj, page_region, PAGE_SIZE in *. cbn in Hdp. lia.
  - rewrite (pages_total_perm _ _ Hp). apply wrap_sub_l.
Qed.

(** The page at the address [a] is free. *)
Definition page_free s (a : Z) : Prop := (a - pa_base s) / PAGE_SIZE ∈ bit_free (pa_inner s).

(** [dealloc_pages] gives back only the first page of an allocation.  The others stay
    taken, although none of them is counted as used any more. *)
Theorem dealloc_leaks_pages s pages pages' p n :
  pa_inv s pages → pages ≡ₚ (p, n) :: pages' →
  ∃ s', pa_dealloc_pages p n s = (Ok tt, s') ∧ pa_used_pages s' = wrap 64 (pages_total pages') ∧
    page_free s' p ∧ ∀ k, 1 ≤ k < n → ¬ page_free s' (p + k * PAGE_SIZE).
Proof.
  intros HI Hp. pose proof (pv_live _ _ HI) as Hl. rewrite Hp in Hl. apply Forall_cons in Hl as [Hl _].
  destruct Hl as (Hn&i&Hi&_&_&Hj). cbn in *.
  destruct (pa_dealloc_pages_ok s pages pages' p n HI Hp) as (s'&Hd&Hb&_&HI'&i'&Hi'&_&Hf).
  assert (i' = i) as -> by (unfold PAGE_SIZE in *; lia).
  assert (∀ k, (p + k * PAGE_SIZE - pa_base s') / PAGE_SIZE = i + k) as Hk.
  { intros k. rewrite Hb, Hi. replace (_ - _) with ((i + k) * PAGE_SIZE) by lia. by apply Z.div_mul. }
  exists s'. split_and!; [done|apply HI'| |].
  - unfold page_free. replace p with (p + 0 * PAGE_SIZE) by lia. rewrite Hk, Z.add_0_r, Hf. set_solver.
  - intros k Hk1. unfold page_free. rewrite Hk, Hf, elem_of_union, elem_of_singleton.
    intros [?|?]; [lia|]. apply (Hj (i + k)); [lia|done].
Qed.
End invariant.

(** ** A concrete bitmap *)

Section set_bits.
Local Abbreviation Bits := (gset Z).

(** The run of [n] free numbers at [i], aligned. *)
Definition is_run (n k : Z) (a : Bits) (i : Z) : Prop := i mod 2 ^ k = 0 ∧ Forall (.∈ a) (seqZ i n).
#[export] Instance is_run_dec n k a i : Decision (is_run n k a i).
Proof. unfold is_run. apply _. Defined.

#[export] Instance set_BitAlloc : BitAlloc Bits := {|
  bit_default := ∅;
  bit_insert lo hi a := list_to_set (seqZ lo (hi - lo)) ∪ a;
  bit_alloc a := match elements a with [] => (None, a) | i :: _ => (Some i, a ∖ {[i]}) end;
  bit_alloc_contiguous n k a :=
    match filter (is_run n k a) (elements a) with
    | [] => (None, a)
    | i :: _ => (Some i, a ∖ list_to_set (seqZ i n))
    end;
  bit_dealloc i a := {[i]} ∪ a;
|}.

Lemma set_contiguous_some n k (a a' : Bits) i :
  bit_alloc_contiguous n k a = (Some i, a') →
  (2 ^ k | i) ∧ (∀ j, i ≤ j < i + n → j ∈ a) ∧ ∀ j, j ∈ a' ↔ j ∈ a ∧ ¬ i ≤ j < i + n.
Proof.
  cbn. destruct (filter _ _) as [|x l] eqn:E; [done|]. intros [= -> <-].
  assert (i ∈ filter (is_run n k a) (elements a)) as [[Hm Hr] _]%list_elem_of_filter by (rewrite E; by left).
  rewrite Forall_forall in Hr. setoid_rewrite elem_of_seqZ in Hr. split_and!; [|done|].
  - destruct (decide (2 ^ k = 0)) as [Hk|Hk]; [|by apply Z.mod_divide]. rewrite Hk, Z.mod_0_r in Hm. rewrite Hm; apply Z.divide_0_r.
  - intros j. rewrite elem_of_difference, elem_of_list_to_set, elem_of_seqZ. done.
Qed.

#[export] Instance set_BitAllocSpec : BitAllocSpec Bits.
Proof.
  refine {| bit_free a := a |}.
  - done.
  - intros lo hi a i _ _. cbn. rewrite elem_of_union, elem_of_list_to_set, elem_of_seqZ.
    replace (lo + (hi - lo)) with hi by lia. done.
  - intros a i a'. cbn. destruct (elements a) as [|x l] eqn:E; [done|]. intros [= -> <-].
    split; [|done]. apply elem_of_elements. rewrite E. by left.
  - intros a a'. cbn. destruct (elements a) eqn:E; [|done]. intros [= <-]. split; [done|].
    apply leibniz_equiv. by apply elements_empty_iff.
  - intros n k a i a' _. apply set_contiguous_some.
  - intros n k a a'. cbn. destruct (filter _ _); [|done]. by intros [= <-].
  - done.
Defined.
End set_bits.

(** Of eight pages at 0x2000, three are taken and given back; two of them are lost. *)
Lemma dealloc_leaks_pages_witness :
  ∃ s s' : BitmapPageAllocator (gset Z),
    pa_alloc_pages 3 PAGE_SIZE (pa_init 0x2000 0x8000 pa_new).2 = (Ok 0x7000, s) ∧
    pa_dealloc_pages 0x7000 3 s = (Ok tt, s') ∧ pa_available_pages s' = 8 ∧
    ¬ page_free s' 0x8000 ∧ ¬ page_free s' 0x9000.
Proof.
  destruct (pa_init_ok (A:=gset Z) 0x2000 0x8000) as (s0&H0&HI&_); [done..|].
  destruct (pa_alloc_pages_ok s0 [] 3 PAGE_SIZE HI) as (r&s&Hs&_&_&Hr).
  assert (r = Ok 0x7000) as ->.
  { apply (f_equal fst) in Hs. cbn [fst] in Hs. rewrite <-Hs. apply (f_equal snd) in H0. cbn [snd] in H0.
    rewrite <-H0. vm_compute. reflexivity. }
  destruct Hr as [Hr _]. destruct (dealloc_leaks_pages s _ [] 0x7000 3 Hr (reflexivity _)) as (s'&Hd&Hu&_&Hf).
  exists s, s'. rewrite H0. cbn [snd]. split_and!; [done|done| |by apply (Hf 1)|by apply (Hf 2)].
  unfold pa_available_pages. rewrite Hu. apply (f_equal snd) in H0, Hs, Hd. cbn [snd] in *. subst.
  vm_compute. reflexivity.
Defined.
