(* ===== verification/ByteAlloc.v ===== *)
(** * Byte allocators ([crates/allocator/src/{lib,slab,buddy,tlsf}.rs])

    The interface of the byte allocators with what it promises, and the three allocators
    behind it.  The slab heap is part of the system; the buddy system and TLSF are
    third-party allocators, given by their operations and documented behaviour. *)

From Stdlib Require Import ZArith Lia.
From stdpp Require Import base decidable numbers gmap list.
From S2P Require Import Prelude LinkedList MemoryAddr SlabHeap SlabHeapProps PageAlloc.

Local Open Scope Z_scope.

(** ** The interface *)

Class ByteAllocator (S : Type) : Type := {
  byte_new : S;
  byte_init : Z → Z → M S AllocError unit;
  byte_add_memory : Z → Z → M S AllocError unit;
  byte_alloc : Layout → M S AllocError Z;
  byte_dealloc : Z → Layout → M S AllocError unit;
  byte_total_bytes : M S AllocError Z;
  byte_used_bytes : M S AllocError Z;
  byte_available_bytes : M S AllocError Z;
}.

Definition in_regions (rs : list (Z * Z)) (a : Z) : Prop := ∃ r, r ∈ rs ∧ contains r a.

(** An allocation is where the memory is, and aligned; the slab allocator does not align
    small allocations to more than 4096 bytes. *)
Definition well_placed (rs : list (Z * Z)) (x : Z * Layout) : Prop :=
  0 < x.1 ∧ (∀ a, contains (region x) a → in_regions rs a) ∧
  (lalign x.2 ≤ 4096 ∨ 4096 < lsize x.2 → (lalign x.2 | x.1)).

(** [byte_reach rs s live]: a state of proper use, with the memory [rs] given to the
    allocator and the allocations [live].  [byte_write P s s']: the memory was written,
    but only at addresses of [P]. *)
Class ByteAllocatorSpec (S : Type) `{ByteAllocator S} : Type := {
  byte_reach : list (Z * Z) → S → list (Z * Layout) → Prop;
  byte_write : (Z → Prop) → S → S → Prop;
  byte_init_ok a n : 0 < a → a mod 4096 = 0 → n = 0x8000 → a + n < 2 ^ 64 →
    ∃ s', byte_init a n byte_new = (Ok tt, s') ∧ byte_reach [(a, n)] s' [];
  byte_add_ok rs s live a n :
    byte_reach rs s live → 0 < a → a mod 4096 = 0 → 4096 ≤ n → n mod 4096 = 0 → a + n < 2 ^ 64 →
    Forall (disj (a, n)) rs →
    ∃ s', byte_add_memory a n s = (Ok tt, s') ∧ byte_reach ((a, n) :: rs) s' live;
  byte_alloc_ok rs s live l :
    byte_reach rs s live → layout_ok l →
    (∃ p s', byte_alloc l s = (Ok p, s') ∧ byte_reach rs s' ((p, l) :: live)) ∨
    ∃ s', byte_alloc l s = (Err AllocNoMemory, s') ∧ byte_reach rs s' live;
  byte_dealloc_ok rs s live live' p l :
    byte_reach rs s live → live ≡ₚ (p, l) :: live' →
    ∃ s', byte_dealloc p l s = (Ok tt, s') ∧ byte_reach rs s' live';
  byte_total_ok rs s live : byte_reach rs s live → ∃ n, byte_total_bytes s = (Ok n, s);
  byte_write_ok rs s live P s' :
    byte_reach rs s live → byte_write P s s' →
    (∀ a, P a → (∃ x, x ∈ live ∧ contains (region x) a) ∨ ¬ in_regions rs a) → byte_reach rs s' live;
  byte_live rs s live :
    byte_reach rs s live → disjoint_list (region <$> live) ∧ Forall (well_placed rs) live;
}.

(** ** [SlabByteAllocator] *)

Section slab.
Context {B : Type} `{HB : Buddy B}.

(** The memory and the heap, which exists after [init]. *)
Record SlabByteAllocator : Type := { sba_mem : Links; sba_inner : option (Heap B) }.
Local Abbreviation SM := (M SlabByteAllocator AllocError).

(** [inner_mut]: panics before [init].  An error is [NoMemory] for the caller. *)
Definition inner_mut {A} (m : M (HeapSt (B:=B)) CoreAllocError A) : SM A := λ s,
  match sba_inner s with
  | None => (Panic, s)
  | Some h =>
      let '(r, st) := m {| h_mem := sba_mem s; h_heap := h |} in
      (match r with Ok a => Ok a | Err _ => Err AllocNoMemory | Panic => Panic | OutOfFuel => OutOfFuel end,
       {| sba_mem := h_mem st; sba_inner := Some (h_heap st) |})
  end.
(** [inner]. *)
Definition sba_get {A} (f : Heap B → A) : SM A := λ s,
  (match sba_inner s with Some h => Ok (f h) | None => Panic end, s).

Definition sba_init (start size : Z) : SM unit := λ s,
  let '(r, m) := Heap_new start size (sba_mem s) in
  match r with
  | Ok h => (Ok tt, {| sba_mem := m; sba_inner := Some h |})
  | Err e => match e with end
  | Panic => (Panic, s)
  | OutOfFuel => (OutOfFuel, s)
  end.
Definition sba_add_memory (start size : Z) : SM unit := inner_mut (Heap_add_memory start size).
Definition sba_alloc (l : Layout) : SM Z := inner_mut (Heap_allocate l).
Definition sba_dealloc (p : Z) (l : Layout) : SM unit := inner_mut (Heap_deallocate p l).

#[export] Instance slab_ByteAllocator : ByteAllocator SlabByteAllocator := {|
  byte_new := {| sba_mem := ∅; sba_inner := None |};
  byte_init := sba_init;
  byte_add_memory := sba_add_memory;
  byte_alloc := sba_alloc;
  byte_dealloc := sba_dealloc;
  byte_total_bytes := sba_get heap_total_bytes;
  byte_used_bytes := sba_get heap_used_bytes;
  byte_available_bytes := sba_get heap_available_bytes;
|}.
End slab.
Arguments SlabByteAllocator : clear implicits.

(** ** [BuddyByteAllocator] *)

Section buddy.
Context {B : Type} `{HB : Buddy B}.

Record BuddyByteAllocator : Type := { bba_inner : B }.
Local Abbreviation BM := (M BuddyByteAllocator AllocError).

Definition bba_init (start size : Z) : BM unit :=
  modify (λ s, {| bba_inner := buddy_init start size (bba_inner s) |}).
Definition bba_add_memory (start size : Z) : BM unit :=
  modify (λ s, {| bba_inner := buddy_add_to_heap start (add64 start size) (bba_inner s) |}).
Definition bba_alloc (l : Layout) : BM Z := λ s,
  let '(p, b) := buddy_alloc l (bba_inner s) in
  (match p with Some p => Ok p | None => Err AllocNoMemory end, {| bba_inner := b |}).
Definition bba_dealloc (p : Z) (l : Layout) : BM unit :=
  modify (λ s, {| bba_inner := buddy_dealloc p l (bba_inner s) |}).
Definition bba_total_bytes : BM Z := gets (λ s, buddy_stats_total_bytes (bba_inner s)).
Definition bba_used_bytes : BM Z := gets (λ s, buddy_stats_alloc_actual (bba_inner s)).
Definition bba_available_bytes : BM Z :=
  gets (λ s, sub64 (buddy_stats_total_bytes (bba_inner s)) (buddy_stats_alloc_actual (bba_inner s))).

#[export] Instance buddy_ByteAllocator : ByteAllocator BuddyByteAllocator := {|
  byte_new := {| bba_inner := buddy_new |};
  byte_init := bba_init;
  byte_add_memory := bba_add_memory;
  byte_alloc := bba_alloc;
  byte_dealloc := bba_dealloc;
  byte_total_bytes := bba_total_bytes;
  byte_used_bytes := bba_used_bytes;
  byte_available_bytes := bba_available_bytes;
|}.
End buddy.
Arguments BuddyByteAllocator : clear implicits.

(** ** [TlsfByteAllocator] *)

(** [rlsf::Tlsf]. *)
Class Tlsf (T : Type) : Type := {
  tlsf_new : T;
  tlsf_insert_free_block : Z → Z → T → option Z * T;
  tlsf_allocate : Layout → T → option Z * T;
  tlsf_deallocate : Z → Z → T → T;
}.

Section tlsf.
Context {T : Type} `{HT : Tlsf T}.

Record TlsfByteAllocator : Type := { tba_inner : T; tba_total : Z; tba_used : Z }.
Local Abbreviation TM := (M TlsfByteAllocator AllocError).

(** The pool; [NonNull::new] fails on the null pointer. *)
Definition tba_insert (start size : Z) : TM (option Z) :=
  _ ← assert_ (negb (start =? 0));
  s ← get_state;
  let '(r, t) := tlsf_insert_free_block start size (tba_inner s) in
  _ ← put_state {| tba_inner := t; tba_total := tba_total s; tba_used := tba_used s |};
  mret r.
Definition set_tba_total (f : Z → Z) : TM unit :=
  modify (λ s, {| tba_inner := tba_inner s; tba_total := f (tba_total s); tba_used := tba_used s |}).

Definition tba_init (start size : Z) : TM unit :=
  r ← tba_insert start size;
  match r with Some _ => set_tba_total (λ _, size) | None => panic end.
Definition tba_add_memory (start size : Z) : TM unit :=
  r ← tba_insert start size;
  match r with Some _ => set_tba_total (λ t, add64 t size) | None => throw AllocInvalidParam end.
Definition tba_alloc (l : Layout) : TM Z := λ s,
  let '(p, t) := tlsf_allocate l (tba_inner s) in
  match p with
  | Some p => (Ok p, {| tba_inner := t; tba_total := tba_total s; tba_used := add64 (tba_used s) (lsize l) |})
  | None => (Err AllocNoMemory, {| tba_inner := t; tba_total := tba_total s; tba_used := tba_used s |})
  end.
Definition tba_dealloc (p : Z) (l : Layout) : TM unit :=
  modify (λ s, {| tba_inner := tlsf_deallocate p (lalign l) (tba_inner s); tba_total := tba_total s;
                  tba_used := sub64 (tba_used s) (lsize l) |}).
Definition tba_available_bytes : TM Z := gets (λ s, sub64 (tba_total s) (tba_used s)).

#[export] Instance tlsf_ByteAllocator : ByteAllocator TlsfByteAllocator := {|
  byte_new := {| tba_inner := tlsf_new; tba_total := 0; tba_used := 0 |};
  byte_init := tba_init;
  byte_add_memory := tba_add_memory;
  byte_alloc := tba_alloc;
  byte_dealloc := tba_dealloc;
  byte_total_bytes := gets tba_total;
  byte_used_bytes := gets tba_used;
  byte_available_bytes := tba_available_bytes;
|}.
End tlsf.
Arguments TlsfByteAllocator : clear implicits.

(** ** The third-party allocators keep the promise *)

(** The allocations of an allocator of the memory [mem], part of what was given. *)
Record placed_in (mem : Z → Prop) (rs : list (Z * Z)) (live : list (Z * Layout)) : Prop := {
  pl_mem a : mem a → in_regions rs a;
  pl_disj : disjoint_list (region <$> live);
  pl_live : Forall (λ x, 0 < x.1 ∧ (lalign x.2 | x.1) ∧ ∀ a, contains (region x) a → mem a) live;
}.

Lemma placed_in_well mem rs live :
  placed_in mem rs live → disjoint_list (region <$> live) ∧ Forall (well_placed rs) live.
Proof.
  intros [Hm Hd Hl]. split; [done|]. eapply Forall_impl; [exact Hl|]. intros x (?&?&Hc).
  split_and!; auto.
Qed.

Lemma placed_in_grow mem mem' rs rs' live :
  placed_in mem rs live → (∀ a, mem a → mem' a) → (∀ a, mem' a → in_regions rs' a) → placed_in mem' rs' live.
Proof.
  intros [Hm Hd Hl] Hmm Hr. split; [done..|]. eapply Forall_impl; [exact Hl|]. intros x (?&?&?). split_and!; auto.
Qed.

Lemma placed_in_alloc mem rs live p l :
  placed_in mem rs live → 0 < p → (lalign l | p) → (∀ a, contains (region (p, l)) a → mem a) →
  Forall (λ x, disj (p, lsize l) (region x)) live → placed_in mem rs ((p, l) :: live).
Proof.
  intros [Hm Hd Hl] Hp Ha Hc Hf. split; [done|split; [by apply Forall_fmap|done]|].
  apply Forall_cons. done.
Qed.

Lemma placed_in_dealloc mem rs live live' x :
  placed_in mem rs live → live ≡ₚ x :: live' → placed_in mem rs live'.
Proof.
  intros [Hm Hd Hl] Hp. split; [done| |].
  - apply (disjoint_list_perm _ _ (fmap_Permutation region _ _ Hp)) in Hd. apply Hd.
  - rewrite Hp in Hl. by apply Forall_cons in Hl as [_ ?].
Qed.

Lemma fresh_region rs (mem : Z → Prop) r a :
  (∀ a, mem a → in_regions rs a) → Forall (disj r) rs → contains r a → ¬ mem a.
Proof.
  intros Hm Hf Hc (r'&Hr'&Hc')%Hm. rewrite Forall_forall in Hf. specialize (Hf _ Hr').
  unfold disj, contains in *. lia.
Qed.

Lemma in_regions_cons r rs a : in_regions (r :: rs) a ↔ contains r a ∨ in_regions rs a.
Proof. unfold in_regions. setoid_rewrite elem_of_cons. naive_solver. Qed.
Lemma in_regions_one r a : in_regions [r] a ↔ contains r a.
Proof. rewrite in_regions_cons. split; [|by left]. intros [?|(?&?%not_elem_of_nil&_)]; done. Qed.

Section buddy_spec.
Context {B : Type} `{HB : Buddy B} `{HS : !BuddySpec B}.

Definition bba_reach (rs : list (Z * Z)) (s : BuddyByteAllocator B) (live : list (Z * Layout)) : Prop :=
  buddy_wf (bba_inner s) ∧ buddy_live (bba_inner s) ≡ₚ live ∧ placed_in (buddy_mem (bba_inner s)) rs live.

Lemma bba_init_ok a n :
  0 < a → 0 ≤ n → a + n < 2 ^ 64 →
  ∃ s', byte_init a n byte_new = (Ok tt, s') ∧ bba_reach [(a, n)] s' [].
Proof.
  intros Ha Hn Hlt. destruct buddy_new_ok as (Hw&Hl&Hm). eexists. split; [reflexivity|].
  destruct (buddy_init_ok buddy_new a n) as (Hw'&Hl'&_); [done..|lia|naive_solver|].
  split_and!; cbn; [done|by rewrite Hl', Hl|]. split; [|done|constructor].
  intros x [?|?]%buddy_init_mem; [naive_solver|]. by apply in_regions_one.
Qed.

Lemma bba_add_ok rs s live a n :
  bba_reach rs s live → 0 < a → 0 ≤ n → a + n < 2 ^ 64 → Forall (disj (a, n)) rs →
  ∃ s', byte_add_memory a n s = (Ok tt, s') ∧ bba_reach ((a, n) :: rs) s' live.
Proof.
  intros (Hw&Hl&Hp) Ha Hn Hlt Hd. eexists. split; [reflexivity|]. unfold bba_reach. cbn [bba_inner].
  rewrite add64_small by (unfold in_u64; lia).
  destruct (buddy_add_ok (bba_inner s) a (a + n)) as (Hw'&Hl'&Hm'); [done..|lia| |].
  { intros x Hx. replace (a + n - a) with n in Hx by lia. eapply fresh_region; [apply Hp|done..]. }
  split_and!; [done|by rewrite Hl'|]. eapply placed_in_grow; [done..|]. intros x Hx%buddy_add_mem.
  replace (a + n - a) with n in Hx by lia. rewrite in_regions_cons. destruct Hx; [right; by apply Hp|by left].
Qed.

Lemma bba_alloc_ok rs s live l :
  bba_reach rs s live → layout_ok l →
  (∃ p s', byte_alloc l s = (Ok p, s') ∧ bba_reach rs s' ((p, l) :: live)) ∨
  ∃ s', byte_alloc l s = (Err AllocNoMemory, s') ∧ bba_reach rs s' live.
Proof.
  intros (Hw&Hl&Hp) Hok. cbn. unfold bba_alloc. destruct (buddy_alloc l (bba_inner s)) as [[p|] b] eqn:E.
  - destruct (buddy_alloc_some _ _ _ _ Hw Hok E) as (Hw'&Hl'&Hm&H0&_&Ha&Hc&Hd). left.
    eexists _, _. split; [reflexivity|]. split_and!; cbn; [done|by rewrite Hl', Hl|].
    eapply placed_in_grow; [|intros a; apply Hm|intros a ?%Hm; by apply Hp].
    apply placed_in_alloc; [done..|]. by rewrite <-Hl.
  - destruct (buddy_alloc_none _ _ _ Hw Hok E) as (Hw'&Hl'&Hm). right. eexists. split; [reflexivity|].
    split_and!; cbn; [done|by rewrite Hl'|].
    eapply placed_in_grow; [done|intros a; apply Hm|intros a ?%Hm; by apply Hp].
Qed.

Lemma bba_dealloc_ok rs s live live' p l :
  bba_reach rs s live → live ≡ₚ (p, l) :: live' →
  ∃ s', byte_dealloc p l s = (Ok tt, s') ∧ bba_reach rs s' live'.
Proof.
  intros (Hw&Hl&Hp) Hperm. destruct (buddy_dealloc_ok (bba_inner s) p l Hw) as (Hw'&Hl'&Hm).
  { rewrite Hl, Hperm. by left. }
  eexists. split; [reflexivity|]. split_and!; cbn; [done| |].
  - apply (Permutation_cons_inv (a:=(p, l))). by rewrite <-Hl', Hl.
  - eapply placed_in_grow; [by eapply placed_in_dealloc|intros a; apply Hm|intros a ?%Hm; by apply Hp].
Qed.

#[export] Instance buddy_ByteAllocatorSpec : ByteAllocatorSpec (BuddyByteAllocator B).
Proof.
  refine {| byte_reach := bba_reach; byte_write P s s' := s' = s |}.
  - intros a n Ha _ -> Hlt. by apply bba_init_ok.
  - intros rs s live a n Hr Ha _ Hn _ Hlt Hd. apply bba_add_ok; [done..|lia|done|done].
  - apply bba_alloc_ok.
  - apply bba_dealloc_ok.
  - intros. by eexists.
  - by intros rs s live P s' Hr -> _.
  - intros rs s live (_&_&Hp). by eapply placed_in_well.
Defined.
End buddy_spec.

(** [insert_free_block_ptr] takes a block that is not too small, and uses some of it. *)
Class TlsfSpec (T : Type) `{Tlsf T} : Type := {
  tlsf_wf : T → Prop;
  tlsf_mem : T → Z → Prop;
  tlsf_live : T → list (Z * Layout);
  tlsf_new_ok : tlsf_wf tlsf_new ∧ tlsf_live tlsf_new = [] ∧ ∀ a, ¬ tlsf_mem tlsf_new a;
  tlsf_insert_ok t s n :
    tlsf_wf t → 0 < s → s mod 4096 = 0 → 4096 ≤ n → s + n < 2 ^ 64 → (∀ a, contains (s, n) a → ¬ tlsf_mem t a) →
    ∃ k t', tlsf_insert_free_block s n t = (Some k, t') ∧ tlsf_wf t' ∧ tlsf_live t' = tlsf_live t ∧
      (∀ a, tlsf_mem t a → tlsf_mem t' a) ∧ ∀ a, tlsf_mem t' a → tlsf_mem t a ∨ contains (s, n) a;
  tlsf_allocate_some t l p t' :
    tlsf_wf t → layout_ok l → tlsf_allocate l t = (Some p, t') →
    tlsf_wf t' ∧ tlsf_live t' = (p, l) :: tlsf_live t ∧ (∀ a, tlsf_mem t' a ↔ tlsf_mem t a) ∧
    0 < p ∧ (lalign l | p) ∧ (∀ a, contains (region (p, l)) a → tlsf_mem t a) ∧
    Forall (λ x, disj (p, lsize l) (region x)) (tlsf_live t);
  tlsf_allocate_none t l t' :
    tlsf_wf t → layout_ok l → tlsf_allocate l t = (None, t') →
    tlsf_wf t' ∧ tlsf_live t' = tlsf_live t ∧ ∀ a, tlsf_mem t' a ↔ tlsf_mem t a;
  tlsf_deallocate_ok t p l :
    tlsf_wf t → (p, l) ∈ tlsf_live t →
    tlsf_wf (tlsf_deallocate p (lalign l) t) ∧
    tlsf_live t ≡ₚ (p, l) :: tlsf_live (tlsf_deallocate p (lalign l) t) ∧
    ∀ a, tlsf_mem (tlsf_deallocate p (lalign l) t) a ↔ tlsf_mem t a;
}.

Section tlsf_spec.
Context {T : Type} `{HT : Tlsf T} `{HS : !TlsfSpec T}.

(** The counter of the used bytes is the sum of the sizes. *)
Definition sizes_total (live : list (Z * Layout)) : Z := foldr (λ x n, lsize x.2 + n) 0 live.
Lemma sizes_total_perm l k : l ≡ₚ k → sizes_total l = sizes_total k.
Proof. unfold sizes_total. induction 1; cbn; lia. Qed.

Record tba_reach (rs : list (Z * Z)) (s : TlsfByteAllocator T) (live : list (Z * Layout)) : Prop := {
  tr_wf : tlsf_wf (tba_inner s);
  tr_live : tlsf_live (tba_inner s) ≡ₚ live;
  tr_placed : placed_in (tlsf_mem (tba_inner s)) rs live;
  tr_used : tba_used s = wrap 64 (sizes_total live);
}.

(** The insertion of memory that is not in use. *)
Lemma tba_insert_ok rs (s : TlsfByteAllocator T) live a n :
  tlsf_wf (tba_inner s) → tlsf_live (tba_inner s) ≡ₚ live → placed_in (tlsf_mem (tba_inner s)) rs live →
  tba_used s = wrap 64 (sizes_total live) →
  0 < a → a mod 4096 = 0 → 4096 ≤ n → a + n < 2 ^ 64 → Forall (disj (a, n)) rs →
  ∃ k t, tba_insert a n s = (Ok (Some k), {| tba_inner := t; tba_total := tba_total s; tba_used := tba_used s |}) ∧
    ∀ z, tba_reach ((a, n) :: rs) {| tba_inner := t; tba_total := z; tba_used := tba_used s |} live.
Proof.
  intros Hw Hl Hp Hu Ha Ham Hn Hlt Hd.
  destruct (tlsf_insert_ok (tba_inner s) a n) as (k&t&He&Hw'&Hl'&Hm&Hm'); [done..| |].
  { intros x. eapply fresh_region; [apply Hp|done]. }
  exists k, t. split.
  { unfold tba_insert. rewrite (proj2 (Z.eqb_neq a 0)) by lia. erewrite M_bind_ok by reflexivity.
    erewrite M_bind_ok by reflexivity. rewrite He. reflexivity. }
  intros z. split; cbn; [done|by rewrite Hl'| |done].
  eapply placed_in_grow; [done..|]. intros x Hx%Hm'. rewrite in_regions_cons. destruct Hx; [right; by apply Hp|by left].
Qed.

Lemma tba_alloc_ok rs (s : TlsfByteAllocator T) live l :
  tba_reach rs s live → layout_ok l →
  (∃ p s', byte_alloc l s = (Ok p, s') ∧ tba_reach rs s' ((p, l) :: live)) ∨
  ∃ s', byte_alloc l s = (Err AllocNoMemory, s') ∧ tba_reach rs s' live.
Proof.
  intros [Hw Hl Hp Hu] Hok. cbn. unfold tba_alloc. destruct (tlsf_allocate l (tba_inner s)) as [[p|] t] eqn:E.
  - destruct (tlsf_allocate_some _ _ _ _ Hw Hok E) as (Hw'&Hl'&Hm&H0&Ha&Hc&Hd). left.
    eexists _, _. split; [reflexivity|]. split; cbn; [done|by rewrite Hl', Hl| |rewrite Hu; apply wrap_add_l].
    eapply placed_in_grow; [|intros a; apply Hm|intros a ?%Hm; by apply Hp].
    apply placed_in_alloc; [done..|]. by rewrite <-Hl.
  - destruct (tlsf_allocate_none _ _ _ Hw Hok E) as (Hw'&Hl'&Hm). right. eexists. split; [reflexivity|].
    split; cbn; [done|by rewrite Hl'| |done].
    eapply placed_in_grow; [done|intros a; apply Hm|intros a ?%Hm; by apply Hp].
Qed.

Lemma tba_dealloc_ok rs (s : TlsfByteAllocator T) live live' p l :
  tba_reach rs s live → live ≡ₚ (p, l) :: live' →
  ∃ s', byte_dealloc p l s = (Ok tt, s') ∧ tba_reach rs s' live'.
Proof.
  intros [Hw Hl Hp Hu] Hperm. destruct (tlsf_deallocate_ok (tba_inner s) p l Hw) as (Hw'&Hl'&Hm).
  { rewrite Hl, Hperm. by left. }
  eexists. split; [reflexivity|]. split; cbn; [done| | |].
  - apply (Permutation_cons_inv (a:=(p, l))). by rewrite <-Hl', Hl.
  - eapply placed_in_grow; [by eapply placed_in_dealloc|intros a; apply Hm|intros a ?%Hm; by apply Hp].
  - rewrite Hu, (sizes_total_perm _ _ Hperm). apply wrap_sub_l.
Qed.

#[export] Instance tlsf_ByteAllocatorSpec : ByteAllocatorSpec (TlsfByteAllocator T).
Proof.
  destruct tlsf_new_ok as (Hw&Hl&Hm).
  refine {| byte_reach := tba_reach; byte_write P s s' := s' = s |}.
  - intros a n Ha Ham -> Hlt. destruct (tba_insert_ok [] (byte_new (S:=TlsfByteAllocator T)) [] a 0x8000)
      as (k&t&He&Hr); try done; [cbn; by rewrite Hl|split; [cbn; naive_solver|done|constructor]|].
    eexists. split; [|apply (Hr 0x8000)]. cbn. unfold tba_init. erewrite M_bind_ok by exact He. reflexivity.
  - intros rs s live a n [Hw' Hl' Hp Hu] Ha Ham Hn _ Hlt Hd.
    destruct (tba_insert_ok rs s live a n) as (k&t&He&Hr); [done..|].
    eexists. split; [|apply (Hr (add64 (tba_total s) n))]. cbn. unfold tba_add_memory.
    erewrite M_bind_ok by exact He. reflexivity.
  - apply tba_alloc_ok.
  - apply tba_dealloc_ok.
  - intros. by eexists.
  - by intros rs s live P s' Hr -> _.
  - intros rs s live [_ _ Hp _]. by eapply placed_in_well.
Defined.
End tlsf_spec.

(** ** The slab allocator keeps the promise *)

Section slab_spec.
Context {B : Type} `{HB : Buddy B} `{HS : !BuddySpec B}.

Definition sba_reach (rs : list (Z * Z)) (s : SlabByteAllocator B) (live : list (Z * Layout)) : Prop :=
  ∃ h gl free, sba_inner s = Some h ∧ heap_inv rs {| h_mem := sba_mem s; h_heap := h |} live gl free.

(** A free block is in the memory of the heap. *)
Lemma free_in_regions rs (st : HeapSt (B:=B)) live gl free k b :
  heap_inv rs st live gl free → b ∈ free k → in_regions rs b.
Proof.
  intros HI Hb. pose proof (hi_in _ _ _ _ _ HI) as Hh. rewrite Forall_forall in Hh.
  setoid_rewrite (hi_live _ _ _ _ _ HI) in Hh.
  assert ((k, b) ∈ gl ≫= chunk_blocks) as Hg.
  { rewrite <-(hi_blocks _ _ _ _ _ HI). apply elem_of_app. left. by apply elem_of_frees. }
  apply list_elem_of_bind in Hg as ([k' c]&(q&[= <- <-]&(i&Hi&Hp)%elem_of_cut)%list_elem_of_fmap&Hgl).
  destruct (Hh (c, chunk_layout k)) as (_&_&Hm).
  { apply elem_of_app. left. apply list_elem_of_fmap. by exists (k, c). }
  apply (hi_mem _ _ _ _ _ HI), Hm. pose proof (blk_pos k). unfold contains, region. cbn in *. nia.
Qed.

(** An operation of the heap, lifted. *)
Lemma inner_mut_eq {A} (m : M (HeapSt (B:=B)) CoreAllocError A) s h r st :
  sba_inner s = Some h → m {| h_mem := sba_mem s; h_heap := h |} = (r, st) →
  inner_mut m s =
    (match r with Ok a => Ok a | Err _ => Err AllocNoMemory | Panic => Panic | OutOfFuel => OutOfFuel end,
     {| sba_mem := h_mem st; sba_inner := Some (h_heap st) |}).
Proof. intros Hs Hm. unfold inner_mut. by rewrite Hs, Hm. Qed.

Lemma sba_reach_st rs (st : HeapSt (B:=B)) live gl free :
  heap_inv rs st live gl free → sba_reach rs {| sba_mem := h_mem st; sba_inner := Some (h_heap st) |} live.
Proof. intros HI. exists (h_heap st), gl, free. by destruct st. Qed.

Lemma sba_write_ok rs s live (P : Z → Prop) s' :
  sba_reach rs s live → sba_inner s' = sba_inner s → (∀ a, ¬ P a → sba_mem s' !! a = sba_mem s !! a) →
  (∀ a, P a → (∃ x, x ∈ live ∧ contains (region x) a) ∨ ¬ in_regions rs a) → sba_reach rs s' live.
Proof.
  intros (h&gl&free&Hh&HI) Hi Hm HP. exists h, gl, free. split; [by rewrite Hi|].
  destruct HI as [? ? ? ? ? Hr ? ? ?] eqn:E; clear E. split; try done. intros k.
  eapply repr_frame, Hr. intros b Hb. cbn. apply Hm. intros [(x&Hx&Hc)|Hn]%HP.
  - by apply (free_not_live rs {| h_mem := sba_mem s; h_heap := h |} live gl free k b x b HI).
  - eapply Hn, (free_in_regions rs {| h_mem := sba_mem s; h_heap := h |}); done.
Qed.

#[export] Instance slab_ByteAllocatorSpec : ByteAllocatorSpec (SlabByteAllocator B).
Proof.
  refine {| byte_reach := sba_reach;
            byte_write P s s' := sba_inner s' = sba_inner s ∧ ∀ a, ¬ P a → sba_mem s' !! a = sba_mem s !! a |}.
  - intros a n Ha Ham -> Hlt. destruct (Heap_new_ok a 0x8000 ∅) as (h&Hn&HI); [done|lia|done..|].
    eexists. split; [cbn; unfold sba_init; cbn [sba_mem]; by rewrite Hn|]. by eexists h, _, _.
  - intros rs s live a n (h&gl&free&Hh&HI) Ha Ham Hn Hnm Hlt Hd.
    destruct (Heap_add_memory_ok _ _ _ _ _ a n HI) as (st&Hs&HI'); [done|lia|done..|].
    eexists. split; [exact (inner_mut_eq _ _ _ _ _ Hh Hs)|]. by eapply sba_reach_st.
  - intros rs s live l (h&gl&free&Hh&HI) Hok.
    destruct (Heap_allocate_ok _ _ _ _ _ l HI Hok) as (r&st&Hs&[(p&gl'&free'&->&HI')|[-> HI']]).
    + left. eexists _, _. split; [exact (inner_mut_eq _ _ _ _ _ Hh Hs)|]. by eapply sba_reach_st.
    + right. eexists. split; [exact (inner_mut_eq _ _ _ _ _ Hh Hs)|]. by eapply sba_reach_st.
  - intros rs s live live' p l (h&gl&free&Hh&HI) Hp. apply (heap_inv_perm _ _ _ _ _ _ Hp) in HI.
    destruct (Heap_deallocate_ok _ _ _ _ _ _ _ HI) as (st&free'&Hs&HI').
    eexists. split; [exact (inner_mut_eq _ _ _ _ _ Hh Hs)|]. by eapply sba_reach_st.
  - intros rs s live (h&?&?&Hh&_). exists (heap_total_bytes h). cbn. unfold sba_get. by rewrite Hh.
  - intros rs s live P s' Hr [Hi Hm] HP. by eapply sba_write_ok.
  - intros rs s live (h&gl&free&Hh&HI). split; [by eapply live_disjoint|]. apply Forall_forall.
    intros [p l] Hin. by apply (live_placed _ _ _ _ _ _ _ HI).
Defined.
End slab_spec.
