(* ===== verification/NetBuf.v ===== *)
(** * Ranges for PCI devices and network buffers ([crates/driver_pci], [crates/driver_net])

    The allocator of address ranges for PCI devices, and the pool that network buffers are
    taken from.  A pool is one block of memory; a buffer is a part of it, with a header and
    a packet, that returns to the pool when it is dropped. *)

From Stdlib Require Import ZArith Lia.
From stdpp Require Import base decidable numbers gmap list.
From S2P Require Import Prelude LinkedList MemoryAddr Disk SlabHeap SlabHeapProps PageAlloc.

Local Open Scope Z_scope.

(** ** [PciRangeAllocator] *)

Record PciRangeAllocator : Type := { pci_start : Z; pci_end : Z; pci_current : Z }.

Definition pci_new (base size : Z) : PciRangeAllocator :=
  {| pci_start := base; pci_end := add64 base size; pci_current := base |}.
Definition pci_align_up (addr align : Z) : Z := Z.land (sub64 (add64 addr align) 1) (not64 (sub64 align 1)).
Definition pci_alloc (size : Z) (a : PciRangeAllocator) : option Z * PciRangeAllocator :=
  if negb (is_power_of_two size) then (None, a)
  else
    let ret := pci_align_up (pci_current a) size in
    if pci_end a <? add64 ret size then (None, a)
    else (Some ret, {| pci_start := pci_start a; pci_end := pci_end a; pci_current := add64 ret size |}).

(** The regions a sequence of requests gets. *)
Fixpoint pci_run (sizes : list Z) (a : PciRangeAllocator) : list (Z * Z) * PciRangeAllocator :=
  match sizes with
  | [] => ([], a)
  | size :: sizes =>
      let '(r, a) := pci_alloc size a in
      let '(rs, a) := pci_run sizes a in
      (match r with Some p => (p, size) :: rs | None => rs end, a)
  end.

(** Ranges below the middle of the address space. *)
Definition pci_ok (a : PciRangeAllocator) : Prop := 0 ≤ pci_start a ≤ pci_current a ∧ pci_current a ≤ pci_end a < 2 ^ 63.

Lemma pci_align_up_ok x k :
  0 ≤ x < 2 ^ 63 → 0 ≤ k < 64 →
  let r := pci_align_up x (2 ^ k) in (2 ^ k | r) ∧ ((x ≤ r < x + 2 ^ k ∧ r ≤ 2 ^ 63)).
Proof.
  intros Hx Hk r. assert (0 < 2 ^ k ≤ 2 ^ 63) as Hp by (split; [lia|apply Z.pow_le_mono_r; lia]).
  assert (r = align_down (x + (2 ^ k - 1)) (2 ^ k)) as Hr.
  { unfold r. change (pci_align_up x (2 ^ k)) with (align_up x (2 ^ k)).
    rewrite align_up_eq by (unfold in_u64; lia). rewrite wrap_small by lia. done. }
  rewrite Hr, align_down_mod by (unfold in_u64; lia). set (y := x + (2 ^ k - 1)).
  pose proof (Z.div_mod y (2 ^ k) ltac:(lia)). pose proof (Z.mod_pos_bound y (2 ^ k) ltac:(lia)).
  assert ((2 ^ k | y - y mod 2 ^ k)) as Hd by (exists (y / 2 ^ k); lia).
  split; [done|]. split; [unfold y in *; lia|].
  destruct (pow2_divide k 63 ltac:(lia)) as [c Hc]. destruct Hd as [c' Hc'].
  rewrite Hc'. assert (c' * 2 ^ k < (c + 1) * 2 ^ k) by (unfold y in *; lia). assert (c' ≤ c) by nia. nia.
Qed.

Lemma pci_alloc_ok size a r a' :
  pci_ok a → 0 ≤ size < 2 ^ 63 → pci_alloc size a = (r, a') →
  pci_ok a' ∧ pci_start a' = pci_start a ∧ pci_end a' = pci_end a ∧
  match r with
  | Some p => (size | p) ∧ 0 < size ∧ pci_current a ≤ p ∧ pci_current a' = p + size
  | None => a' = a ∧ (is_power_of_two size = false ∨
              ∀ p, (size | p) → pci_current a ≤ p → pci_end a < p + size)
  end.
Proof.
  intros Hok Hs. unfold pci_alloc. destruct (is_power_of_two size) eqn:Ep; cbn [negb]; [|intros [= <- <-]; naive_solver].
  apply power_of_two_log2 in Ep. set (k := Z.log2 size) in *. pose proof (Z.log2_nonneg size).
  assert (0 ≤ k < 64) as Hk.
  { split; [done|]. destruct (decide (k < 64)) as [|Hge]; [done|].
    assert (2 ^ 64 ≤ 2 ^ k) by (apply Z.pow_le_mono_r; lia). lia. }
  destruct Hok as [[H0 H1] [H2 H3]].
  destruct (pci_align_up_ok (pci_current a) k) as [Hd [Hr Hr']]; [lia|done|]. rewrite <-Ep in *.
  set (p := pci_align_up (pci_current a) size) in *.
  rewrite (add64_small p size) by (unfold in_u64; lia). destruct (_ <? _) eqn:E; bool_to_prop; intros [= <- <-].
  - split_and!; try done. right. intros q [c Hc] Hq. destruct Hd as [c' Hc'].
    assert ((c' - 1) * size < c * size) by lia. assert (c' ≤ c) by nia. nia.
  - unfold pci_ok. cbn. split_and!; try done; lia.
Qed.

Lemma pci_run_ok sizes a rs a' :
  pci_ok a → Forall (λ s, 0 ≤ s < 2 ^ 63) sizes → pci_run sizes a = (rs, a') →
  disjoint_list rs ∧
  Forall (λ r, (r.2 | r.1) ∧ 0 < r.2 ∧ pci_current a ≤ r.1 ∧ r.1 + r.2 ≤ pci_end a) rs.
Proof.
  revert a rs a'. induction sizes as [|size sizes IH]; intros a rs a' Ha Hf; cbn; [by intros [= <- <-]|].
  apply Forall_cons in Hf as [Hs Hf]. destruct (pci_alloc size a) as [r a1] eqn:E1.
  destruct (pci_run sizes a1) as [rs1 a2] eqn:E2. intros [= <- <-].
  destruct (pci_alloc_ok _ _ _ _ Ha Hs E1) as (Ha1&Hst&Hen&Hr). destruct (IH _ _ _ Ha1 Hf E2) as [Hd Hfo].
  destruct r as [p|]; [|destruct Hr as [-> _]; done]. destruct Hr as (Hdv&Hpos&Hp&Hc). split; [split; [|done]|].
  - eapply Forall_impl; [exact Hfo|]. intros [q n] (_&_&Hq&_). left. cbn in *. lia.
  - apply Forall_cons. cbn. split; [split_and!; try done; destruct Ha1; lia|].
    eapply Forall_impl; [exact Hfo|]. cbn. intros x (?&?&?&?). split_and!; try done; lia.
Qed.

(** ** Network buffers *)

Definition MIN_BUFFER_LEN : Z := 1526.
Definition MAX_BUFFER_LEN : Z := 65535.

(** The pool: its memory and the stack of free offsets, the last one on top. *)
Record NetBufPool : Type := { np_capacity : Z; np_buf_len : Z; np_pool : list Z; np_free : list Z }.
(** A buffer; [nb_ptr] points into the memory of its pool. *)
Record NetBuf : Type := { nb_header_len : Z; nb_packet_len : Z; nb_capacity : Z; nb_ptr : Z; nb_offset : Z }.
Local Abbreviation NM := (M NetBufPool DevError).

Definition vec_pop {A} (v : list A) : option (A * list A) :=
  match reverse v with [] => None | x :: r => Some (x, reverse r) end.

Definition NetBufPool_new (capacity buf_len : Z) : res DevError NetBufPool :=
  if capacity =? 0 then Err DevInvalidParam
  else if negb ((MIN_BUFFER_LEN <=? buf_len) && (buf_len <=? MAX_BUFFER_LEN))%bool then Err DevInvalidParam
  else
    Ok {| np_capacity := capacity; np_buf_len := buf_len;
          np_pool := replicate (Z.to_nat (mul64 capacity buf_len)) 0;
          np_free := (λ i, mul64 i buf_len) <$> seqZ 0 capacity |}.
Definition set_free (f : list Z) (p : NetBufPool) : NetBufPool :=
  {| np_capacity := np_capacity p; np_buf_len := np_buf_len p; np_pool := np_pool p; np_free := f |}.
Definition set_pool (m : list Z) (p : NetBufPool) : NetBufPool :=
  {| np_capacity := np_capacity p; np_buf_len := np_buf_len p; np_pool := m; np_free := np_free p |}.
Definition pool_alloc : NM (option NetBuf) :=
  p ← get_state;
  match vec_pop (np_free p) with
  | None => mret None
  | Some (off, free) =>
      _ ← put_state (set_free free p);
      mret (Some {| nb_header_len := 0; nb_packet_len := 0; nb_capacity := np_buf_len p; nb_ptr := off; nb_offset := off |})
  end.
Definition pool_dealloc (off : Z) : NM unit := modify (λ p, set_free (np_free p ++ [off]) p).
Definition NetBuf_drop (b : NetBuf) : NM unit := pool_dealloc (nb_offset b).

(** Access outside the memory of the pool is undefined. *)
Definition get_slice (b : NetBuf) (start n : Z) : NM (list Z) :=
  p ← get_state;
  _ ← assert_ (nb_ptr b + start + n <=? Z.of_nat (length (np_pool p)));
  mret (slice (nb_ptr b + start) n (np_pool p)).
Definition write_slice (b : NetBuf) (start : Z) (bytes : list Z) : NM unit :=
  p ← get_state;
  _ ← assert_ (nb_ptr b + start + Z.of_nat (length bytes) <=? Z.of_nat (length (np_pool p)));
  put_state (set_pool (splice (nb_ptr b + start) bytes (np_pool p)) p).

Definition nb_header (b : NetBuf) : NM (list Z) := get_slice b 0 (nb_header_len b).
Definition nb_packet (b : NetBuf) : NM (list Z) := get_slice b (nb_header_len b) (nb_packet_len b).
Definition packet_with_header (b : NetBuf) : NM (list Z) := get_slice b 0 (add64 (nb_header_len b) (nb_packet_len b)).
Definition raw_buf (b : NetBuf) : NM (list Z) := get_slice b 0 (nb_capacity b).
(** What the caller writes through [packet_mut] and [raw_buf_mut]. *)
Definition write_packet (b : NetBuf) (bytes : list Z) : NM unit := write_slice b (nb_header_len b) bytes.
Definition write_raw (b : NetBuf) (bytes : list Z) : NM unit := write_slice b 0 bytes.
Definition set_header_len (n : Z) (b : NetBuf) : NetBuf :=
  {| nb_header_len := n; nb_packet_len := nb_packet_len b; nb_capacity := nb_capacity b; nb_ptr := nb_ptr b;
     nb_offset := nb_offset b |}.
Definition set_packet_len (n : Z) (b : NetBuf) : NetBuf :=
  {| nb_header_len := nb_header_len b; nb_packet_len := n; nb_capacity := nb_capacity b; nb_ptr := nb_ptr b;
     nb_offset := nb_offset b |}.

(** [NetBufPtr]: the raw pointer is the box of the buffer. *)
Record NetBufPtr : Type := { nbp_raw : NetBuf; nbp_buf : Z; nbp_len : Z }.
Definition into_buf_ptr (b : NetBuf) : NetBufPtr :=
  {| nbp_raw := b; nbp_buf := nb_ptr b + nb_header_len b; nbp_len := nb_packet_len b |}.
Definition from_buf_ptr (p : NetBufPtr) : NetBuf := nbp_raw p.

(** PCI ranges do not overlap.  Whatever is requested, the ranges an allocator gives out
    below [2^63] are disjoint, lie in its memory and are aligned to their size; a request
    fails only when its size is not a power of two or no aligned range is left. *)
Theorem pci_ranges_disjoint base size sizes rs a :
  0 ≤ base → 0 ≤ size → base + size < 2 ^ 63 → Forall (λ s, 0 ≤ s < 2 ^ 63) sizes →
  pci_run sizes (pci_new base size) = (rs, a) →
  disjoint_list rs ∧ Forall (λ r, (r.2 | r.1) ∧ 0 < r.2 ∧ subregion r (base, size)) rs ∧
  ∀ n a', 0 ≤ n < 2 ^ 63 → pci_ok a → pci_alloc n a = (None, a') →
    a' = a ∧ (is_power_of_two n = false ∨ ∀ p, (n | p) → pci_current a ≤ p → pci_end a < p + n).
Proof.
  intros Hb Hs Hlt Hf Hr. assert (pci_end (pci_new base size) = base + size) as He
    by (apply add64_small; unfold in_u64; lia).
  assert (pci_ok (pci_new base size)) as Hok by (unfold pci_ok; rewrite He; cbn; lia).
  destruct (pci_run_ok _ _ _ _ Hok Hf Hr) as [Hd Hfo]. split; [done|]. split.
  - eapply Forall_impl; [exact Hfo|]. intros r (?&?&H1&H2). rewrite He in H2. cbn in H1.
    split_and!; [done..|]. unfold subregion. cbn. lia.
  - intros n a' Hn Hoka Ha. by apply (pci_alloc_ok _ _ _ _ Hoka Hn) in Ha as (_&_&_&?).
Qed.

Lemma pci_ranges_disjoint_witness :
  ∃ rs a, pci_run [0x1000; 3; 0x4000; 0x100000] (pci_new 0x40001000 0x10000) = (rs, a) ∧
    rs = [(0x40001000, 0x1000); (0x40004000, 0x4000)] ∧ disjoint_list rs.
Proof.
  eexists _, _. split; [vm_compute; reflexivity|]. split; [reflexivity|].
  eapply (pci_ranges_disjoint 0x40001000 0x10000 [0x1000; 3; 0x4000; 0x100000]); [done..| |vm_compute; reflexivity].
  repeat constructor; done.
Defined.

(** ** Buffers in use *)

Definition buf_region (b : NetBuf) : Z * Z := (nb_ptr b, nb_capacity b).

(** A pool with the buffers [live] in use; their owners set the lengths within the
    capacity and write the packet or the whole buffer. *)
Inductive pool_reach : NetBufPool → list NetBuf → Prop :=
| pool_reach_new capacity buf_len p :
    0 ≤ capacity → capacity * buf_len < 2 ^ 64 → NetBufPool_new capacity buf_len = Ok p → pool_reach p []
| pool_reach_alloc p live b p' :
    pool_reach p live → pool_alloc p = (Ok (Some b), p') → pool_reach p' (b :: live)
| pool_reach_drop p live live' b p' :
    pool_reach p live → live ≡ₚ b :: live' → NetBuf_drop b p = (Ok tt, p') → pool_reach p' live'
| pool_reach_lens p live live' b h n :
    pool_reach p live → live ≡ₚ b :: live' → 0 ≤ h → 0 ≤ n → h + n ≤ nb_capacity b →
    pool_reach p (set_packet_len n (set_header_len h b) :: live')
| pool_reach_packet p live b bytes p' :
    pool_reach p live → b ∈ live → Z.of_nat (length bytes) = nb_packet_len b →
    write_packet b bytes p = (Ok tt, p') → pool_reach p' live
| pool_reach_raw p live b bytes p' :
    pool_reach p live → b ∈ live → Z.of_nat (length bytes) = nb_capacity b →
    write_raw b bytes p = (Ok tt, p') → pool_reach p' live.

Definition buf_ok (p : NetBufPool) (b : NetBuf) : Prop :=
  nb_ptr b = nb_offset b ∧ nb_capacity b = np_buf_len p ∧ 0 ≤ nb_header_len b ∧ 0 ≤ nb_packet_len b ∧
  nb_header_len b + nb_packet_len b ≤ nb_capacity b.

Record pool_inv (p : NetBufPool) (live : list NetBuf) : Prop := {
  pi_len : 0 < np_buf_len p;
  pi_cap : 0 ≤ np_capacity p;
  pi_small : np_capacity p * np_buf_len p < 2 ^ 64;
  pi_mem : Z.of_nat (length (np_pool p)) = np_capacity p * np_buf_len p;
  pi_parts : np_free p ++ (nb_offset <$> live) ≡ₚ (λ i, i * np_buf_len p) <$> seqZ 0 (np_capacity p);
  pi_bufs : Forall (buf_ok p) live;
}.

Lemma vec_pop_some {A} (v : list A) x v' : vec_pop v = Some (x, v') → v = v' ++ [x].
Proof.
  unfold vec_pop. destruct (reverse v) as [|y r] eqn:E; [done|]. intros [= -> <-].
  apply (f_equal reverse) in E. by rewrite reverse_involutive, reverse_cons in E.
Qed.
Lemma vec_pop_none {A} (v : list A) : vec_pop v = None ↔ v = [].
Proof.
  unfold vec_pop. split; [|by intros ->]. destruct (reverse v) as [|y r] eqn:E; [|done]. intros _.
  apply (f_equal reverse) in E. by rewrite reverse_involutive in E.
Qed.

(** The offset of a buffer in use is the start of one part of the memory. *)
Lemma live_offset p live b :
  pool_inv p live → b ∈ live → ∃ i, 0 ≤ i < np_capacity p ∧ nb_ptr b = i * np_buf_len p.
Proof.
  intros HI Hb. pose proof (pi_bufs _ _ HI) as Hf. rewrite Forall_forall in Hf. destruct (Hf b Hb) as [-> _].
  assert (nb_offset b ∈ (λ i, i * np_buf_len p) <$> seqZ 0 (np_capacity p)) as (i&->&Hi%elem_of_seqZ)%list_elem_of_fmap.
  { rewrite <-(pi_parts _ _ HI). apply elem_of_app. right. by apply list_elem_of_fmap_2. }
  exists i. split; [lia|done].
Qed.

Lemma live_in_pool p live b :
  pool_inv p live → b ∈ live → 0 ≤ nb_ptr b ∧ nb_ptr b + nb_capacity b ≤ Z.of_nat (length (np_pool p)) ∧
    Z.of_nat (length (np_pool p)) < 2 ^ 64.
Proof.
  intros HI Hb. destruct (live_offset _ _ _ HI Hb) as (i&Hi&->). pose proof (pi_len _ _ HI). rewrite (pi_mem _ _ HI).
  pose proof (pi_small _ _ HI). pose proof (pi_bufs _ _ HI) as Hf. rewrite Forall_forall in Hf. destruct (Hf b Hb) as (_&->&_). nia.
Qed.

Lemma parts_NoDup p live : pool_inv p live → NoDup (np_free p ++ (nb_offset <$> live)).
Proof.
  intros HI. rewrite (pi_parts _ _ HI). pose proof (pi_len _ _ HI). apply NoDup_fmap_2_strong; [|apply NoDup_seqZ].
  intros i j _ _ Hij. nia.
Qed.

Lemma live_distinct p live b b' :
  pool_inv p live → b ∈ live → b' ∈ live → nb_offset b ≠ nb_offset b' → disj (buf_region b) (buf_region b').
Proof.
  intros HI Hb Hb' Hne. pose proof (pi_bufs _ _ HI) as Hf. rewrite Forall_forall in Hf.
  destruct (live_offset _ _ _ HI Hb) as (i&Hi&Ei), (live_offset _ _ _ HI Hb') as (j&Hj&Ej).
  destruct (Hf b Hb) as (E1&E2&_), (Hf b' Hb') as (E3&E4&_). unfold disj, buf_region. cbn. rewrite E2, E4, Ei, Ej.
  pose proof (pi_len _ _ HI). destruct (Z.lt_total i j) as [?|[->|?]]; [left; nia|congruence|right; nia].
Qed.

Lemma live_regions_disjoint p live : pool_inv p live → disjoint_list (buf_region <$> live).
Proof.
  intros HI. pose proof (parts_NoDup _ _ HI) as Hn. apply NoDup_app in Hn as (_&_&Hn).
  assert (∀ l, NoDup (nb_offset <$> l) → (∀ x, x ∈ l → x ∈ live) → disjoint_list (buf_region <$> l)) as H; [|by apply H].
  induction l as [|b l IH]; cbn; [done|]. intros [Hb Hl]%NoDup_cons Hin. split; [|apply IH; set_solver].
  apply Forall_fmap, Forall_forall. intros x Hx. eapply live_distinct; [done|apply Hin; by left|apply Hin; by right|].
  intros He. apply Hb. rewrite He. by apply list_elem_of_fmap_2.
Qed.

Lemma pool_new_ok capacity buf_len p :
  0 ≤ capacity → capacity * buf_len < 2 ^ 64 → NetBufPool_new capacity buf_len = Ok p → pool_inv p [].
Proof.
  intros Hc Hlt. unfold NetBufPool_new. destruct (capacity =? 0) eqn:E0; [done|]. destruct (negb _) eqn:E1; [done|].
  intros [= <-]. apply negb_false_iff, andb_true_iff in E1 as [Hmin _]. bool_to_prop. unfold MIN_BUFFER_LEN in Hmin.
  split; cbn; try done; try lia.
  - unfold mul64. rewrite wrap_small by nia. rewrite length_replicate. lia.
  - rewrite app_nil_r. apply Permutation_refl'. apply list_fmap_ext. intros i x Hx.
    apply list_elem_of_lookup_2, elem_of_seqZ in Hx. unfold mul64. rewrite wrap_small by nia. done.
Qed.

Lemma pool_alloc_ok p live :
  pool_inv p live →
  (pool_alloc p = (Ok None, p) ∧ Z.of_nat (length live) = np_capacity p) ∨
  ∃ b p', pool_alloc p = (Ok (Some b), p') ∧ pool_inv p' (b :: live) ∧ Z.of_nat (length live) < np_capacity p.
Proof.
  intros HI. pose proof (Permutation_length (pi_parts _ _ HI)) as Hlen.
  rewrite length_app, !length_fmap, length_seqZ in Hlen. pose proof (pi_cap _ _ HI). unfold pool_alloc.
  erewrite M_bind_ok by reflexivity. destruct (vec_pop (np_free p)) as [[off free]|] eqn:E.
  - right. apply vec_pop_some in E. eexists _, _. split; [reflexivity|]. rewrite E, length_app in Hlen. cbn in Hlen. split; [|lia].
    destruct HI as [? ? ? ? Hp Hf]. split; cbn; try done.
    + rewrite <-Hp, E. cbn. by rewrite <-app_assoc.
    + apply Forall_cons. split; [by unfold buf_ok; cbn; lia|exact Hf].
  - left. split; [done|]. apply vec_pop_none in E. rewrite E in Hlen. cbn in Hlen. lia.
Qed.

Lemma pool_drop_ok p live live' b :
  pool_inv p live → live ≡ₚ b :: live' →
  NetBuf_drop b p = (Ok tt, set_free (np_free p ++ [nb_offset b]) p) ∧
  pool_inv (set_free (np_free p ++ [nb_offset b]) p) live'.
Proof.
  intros [? ? ? ? Hp Hf] Hl. split; [done|]. rewrite Hl in Hf. apply Forall_cons in Hf as [_ Hf].
  split; cbn; try done. rewrite <-Hp, Hl. cbn. by rewrite <-app_assoc.
Qed.

Lemma pool_lens_ok p live live' b h n :
  pool_inv p live → live ≡ₚ b :: live' → 0 ≤ h → 0 ≤ n → h + n ≤ nb_capacity b →
  pool_inv p (set_packet_len n (set_header_len h b) :: live').
Proof.
  intros [? ? ? ? Hp Hf] Hl Hh Hn Hle. rewrite Hl in Hf. apply Forall_cons in Hf as [Hb Hf].
  split; cbn; try done; [by rewrite <-Hp, Hl|]. apply Forall_cons. split; [|done]. by destruct Hb as (?&?&_).
Qed.

(** Writing inside a buffer. *)
Lemma write_slice_ok p live b start bytes :
  pool_inv p live → b ∈ live → 0 ≤ start → start + Z.of_nat (length bytes) ≤ nb_capacity b →
  let p' := set_pool (splice (nb_ptr b + start) bytes (np_pool p)) p in
  write_slice b start bytes p = (Ok tt, p') ∧ pool_inv p' live.
Proof.
  intros HI Hb Hs Hle p'. destruct (live_in_pool _ _ _ HI Hb) as (H0&H1&_). split.
  - unfold write_slice. erewrite M_bind_ok by reflexivity. rewrite (proj2 (Z.leb_le _ _)) by lia. reflexivity.
  - destruct HI as [? ? ? Hm ? ?]. split; try done. unfold p'. cbn. by rewrite splice_length by lia.
Qed.

Lemma get_slice_ok p live b start n :
  pool_inv p live → b ∈ live → 0 ≤ start → start + n ≤ nb_capacity b →
  get_slice b start n p = (Ok (slice (nb_ptr b + start) n (np_pool p)), p).
Proof.
  intros HI Hb Hs Hle. destruct (live_in_pool _ _ _ HI Hb) as (H0&H1&_).
  unfold get_slice. erewrite M_bind_ok by reflexivity. rewrite (proj2 (Z.leb_le _ _)) by lia. reflexivity.
Qed.

Lemma buf_ok_live p live b : pool_inv p live → b ∈ live → buf_ok p b.
Proof. intros HI Hb. pose proof (pi_bufs _ _ HI) as Hf. rewrite Forall_forall in Hf. auto. Qed.

Lemma pool_reach_inv p live : pool_reach p live → pool_inv p live.
Proof.
  induction 1 as [cap len p Hc Hlt Hn|p live b p' _ HI Ha|p live live' b p' _ HI Hl Hd|p live live' b h n _ HI Hl Hh Hn Hle
    |p live b bytes p' _ HI Hb Hlen Hw|p live b bytes p' _ HI Hb Hlen Hw].
  - by eapply pool_new_ok.
  - destruct (pool_alloc_ok _ _ HI) as [[He _]|(b'&p2&He&HI'&_)]; rewrite Ha in He; by simplify_eq.
  - destruct (pool_drop_ok _ _ _ _ HI Hl) as [He HI']. rewrite Hd in He. by simplify_eq.
  - by eapply pool_lens_ok.
  - destruct (buf_ok_live _ _ _ HI Hb) as (_&_&?&?&?).
    destruct (write_slice_ok p live b (nb_header_len b) bytes HI Hb) as [He HI']; [lia..|].
    unfold write_packet in Hw. rewrite Hw in He. by simplify_eq.
  - destruct (write_slice_ok p live b 0 bytes HI Hb) as [He HI']; [lia..|].
    unfold write_raw in Hw. rewrite Hw in He. by simplify_eq.
Qed.

(** A write to one buffer leaves another as it is. *)
Lemma slice_splice_other a n s x l :
  0 ≤ a → 0 ≤ s → s + Z.of_nat (length x) ≤ Z.of_nat (length l) → a + n ≤ s ∨ s + Z.of_nat (length x) ≤ a →
  slice a n (splice s x l) = slice a n l.
Proof.
  intros Ha Hs Hle Hd. apply list_eq. intros i. rewrite !lookup_slice. case_decide; [|done].
  rewrite lookup_splice by done. case_decide; [lia|done].
Qed.

(** Network buffers do not share memory.  Whatever buffers are taken from a pool, sized,
    written and dropped: the buffers in use are disjoint parts of the pool's memory; [alloc]
    fails exactly when all are in use; reading a buffer never leaves the pool, and the
    packet with its header is the header followed by the packet; a packet that is written is
    read back, and the other buffers keep their contents. *)
Theorem net_buf_pool_safe p live :
  pool_reach p live →
  disjoint_list (buf_region <$> live) ∧
  Forall (λ b, subregion (buf_region b) (0, Z.of_nat (length (np_pool p)))) live ∧
  (∃ r p', pool_alloc p = (Ok r, p') ∧ (r = None ↔ Z.of_nat (length live) = np_capacity p)) ∧
  ∀ b, b ∈ live →
    (∃ hd pk, nb_header b p = (Ok hd, p) ∧ nb_packet b p = (Ok pk, p) ∧ packet_with_header b p = (Ok (hd ++ pk), p)) ∧
    (∀ bytes, Z.of_nat (length bytes) = nb_packet_len b →
       ∃ p', write_packet b bytes p = (Ok tt, p') ∧ nb_packet b p' = (Ok bytes, p') ∧
         ∀ b', b' ∈ live → nb_offset b' ≠ nb_offset b → (raw_buf b' p').1 = (raw_buf b' p).1) ∧
    ∃ p', NetBuf_drop b p = (Ok tt, p').
Proof.
  intros HI%pool_reach_inv. split; [by eapply live_regions_disjoint|]. split.
  { apply Forall_forall. intros b Hb. destruct (live_in_pool _ _ _ HI Hb) as (?&?&_). unfold subregion, buf_region. cbn. lia. }
  split.
  { destruct (pool_alloc_ok _ _ HI) as [[He Hl]|(b&p'&He&_&Hl)]; eexists _, _; (split; [exact He|]); [done|].
    split; [done|]. lia. }
  intros b Hb. destruct (buf_ok_live _ _ _ HI Hb) as (_&_&H1&H2&H3). destruct (live_in_pool _ _ _ HI Hb) as (H4&H5&H6).
  split_and!; [| |by eexists].
  - unfold nb_header, nb_packet, packet_with_header. rewrite add64_small by (unfold in_u64; lia).
    eexists _, _. split; [eapply get_slice_ok; [done..|lia|lia]|]. split; [eapply get_slice_ok; [done..|lia]|].
    erewrite get_slice_ok by (done || lia). by rewrite slice_app, !Z.add_0_r by lia.
  - intros bytes Hlen. destruct (write_slice_ok p live b (nb_header_len b) bytes HI Hb) as [He HI']; [lia..|].
    eexists. split; [exact He|]. split.
    + unfold nb_packet. erewrite get_slice_ok by (done || lia). cbn [np_pool set_pool]. by rewrite <-Hlen, slice_splice by lia.
    + intros b' Hb' Hne. unfold raw_buf. erewrite !get_slice_ok by (done || lia). cbn [fst np_pool set_pool].
      destruct (live_in_pool _ _ _ HI Hb') as (?&?&_). pose proof (live_distinct _ _ _ _ HI Hb' Hb Hne) as Hd.
      unfold disj, buf_region in Hd. cbn in Hd. rewrite slice_splice_other; [done|lia|lia|lia|lia].
Qed.

(** A pool of two buffers, both in use; the first carries a packet of four bytes. *)
Lemma net_buf_pool_safe_witness :
  ∃ p b1 b2, pool_reach p [b1; b2] ∧ (pool_alloc p).1 = Ok None ∧ nb_packet_len b1 = 4 ∧
    disjoint_list [buf_region b1; buf_region b2] ∧ ∃ p', write_packet b1 [1; 2; 3; 4] p = (Ok tt, p') ∧ nb_packet b1 p' = (Ok [1; 2; 3; 4], p').
Proof.
  destruct (NetBufPool_new 2 1526) as [p0| | |] eqn:E0; [|done..].
  destruct (pool_alloc p0) as [r1 p1] eqn:E1. assert (∃ b, r1 = Ok (Some b)) as [b1 ->].
  { apply (f_equal fst) in E1. injection E0 as <-. eexists. symmetry. exact E1. }
  destruct (pool_alloc p1) as [r2 p2] eqn:E2. assert (∃ b, r2 = Ok (Some b)) as [b2 ->].
  { apply (f_equal snd) in E1. cbn [snd] in E1. subst p1. apply (f_equal fst) in E2. injection E0 as <-. eexists. symmetry. exact E2. }
  assert (pool_reach p2 [b2; b1]) as Hr.
  { eapply pool_reach_alloc; [|exact E2]. eapply pool_reach_alloc; [|exact E1]. by apply (pool_reach_new 2 1526). }
  assert (nb_capacity b1 = 1526) as Hc by (injection E0 as <-; by injection E1 as <- _).
  assert (pool_reach p2 [set_packet_len 4 (set_header_len 10 b1); b2]) as Hr'.
  { eapply pool_reach_lens; [exact Hr|solve_Permutation|done..|lia]. }
  destruct (net_buf_pool_safe _ _ Hr') as (Hd&_&(r&p'&Ha&Hn)&Hb).
  eexists p2, _, b2. split; [exact Hr'|]. split_and!; [|done|done|].
  - rewrite Ha. cbn. f_equal. apply Hn. cbn. injection E0 as <-. injection E1 as _ <-. by injection E2 as _ <-.
  - destruct (Hb (set_packet_len 4 (set_header_len 10 b1))) as (_&Hw&_); [by left|].
    destruct (Hw [1; 2; 3; 4]) as (p3&H1&H2&_); [done|]. by exists p3.
Defined.
