(* ===== verification/Path.v ===== *)
(** * Paths ([crates/axfs_vfs/src/path.rs])

    A string is the list of its characters; the byte length of a character
    matters only where the source slices a string by bytes.  [canonicalize] edits
    a buffer in place; it is compared with a resolution of the components on a
    stack. *)

From Stdlib Require Import ZArith Lia.
From stdpp Require Import base decidable numbers gmap list.
From S2P Require Import Prelude LinkedList.

Local Open Scope Z_scope.

(** ** Strings *)

Abbreviation Str := (list Z).
Definition SLASH : Z := 47.
Definition DOT : Z := 46.

(** [str::split] on a character. *)
Fixpoint str_split (c : Z) (s : Str) : list Str :=
  match s with
  | [] => [[]]
  | x :: s =>
      if x =? c then [] :: str_split c s
      else match str_split c s with
           | p :: ps => (x :: p) :: ps
           | [] => [[x]]
           end
  end.

Definition starts_with_slash (s : Str) : bool := bool_decide (head s = Some SLASH).

(** [&s[s.len() - 1..]]: the slice panics inside a character of several bytes. *)
Definition last_byte_slice (s : Str) : M Str NoError Str :=
  match last s with
  | Some c => if c <? 128 then mret [c] else panic
  | None => panic
  end.

(** ** [canonicalize] *)

Local Abbreviation BufM := (M Str NoError).

(** [String::push], [String::push_str], [String::pop]. *)
Definition buf_push_str (s : Str) : BufM unit := modify (λ buf, buf ++ s).
Definition buf_pop : BufM (option Z) :=
  buf ← get_state; _ ← put_state (removelast buf); mret (last buf).

(** The loop that removes the last component: once per character and once more. *)
Fixpoint pop_component (fuel : nat) : BufM unit :=
  match fuel with
  | O => out_of_fuel
  | S fuel =>
      buf ← get_state;
      if bool_decide (buf = []) then mret tt
      else if bool_decide (buf = [SLASH]) then mret tt
      else
        c ← buf_pop;
        c ← unwrap c;
        if c =? SLASH then mret tt else pop_component fuel
  end.

Definition canonicalize_part (is_absolute : bool) (part : Str) : BufM unit :=
  if (bool_decide (part = []) || bool_decide (part = [DOT]))%bool then mret tt
  else if bool_decide (part = [DOT; DOT]) then
    buf ← get_state; pop_component (S (length buf))
  else
    buf ← get_state;
    _ ← (if bool_decide (buf = []) then
           if is_absolute then buf_push_str [SLASH] else mret tt
         else
           t ← last_byte_slice buf;
           if bool_decide (t ≠ [SLASH]) then buf_push_str [SLASH] else mret tt);
    buf_push_str part.

Fixpoint canonicalize_parts (is_absolute : bool) (parts : list Str) : BufM unit :=
  match parts with
  | [] => mret tt
  | part :: parts => _ ← canonicalize_part is_absolute part; canonicalize_parts is_absolute parts
  end.

Definition canonicalize (path : Str) : res NoError Str :=
  let is_absolute := starts_with_slash path in
  ((_ ← canonicalize_parts is_absolute (str_split SLASH path);
    buf ← get_state;
    _ ← (if (is_absolute && bool_decide (buf = []))%bool then buf_push_str [SLASH] else mret tt);
    get_state) ([] : Str)).1.

(** ** Resolution on a stack of components *)

Definition resolve_part (st : list Str) (part : Str) : list Str :=
  if (bool_decide (part = []) || bool_decide (part = [DOT]))%bool then st
  else if bool_decide (part = [DOT; DOT]) then removelast st
  else st ++ [part].
Definition resolve (parts : list Str) : list Str := foldl resolve_part [] parts.

Fixpoint join (st : list Str) : Str :=
  match st with
  | [] => []
  | [p] => p
  | p :: st => p ++ SLASH :: join st
  end.
Definition render (is_absolute : bool) (st : list Str) : Str :=
  (if is_absolute then [SLASH] else []) ++ join st.

(** A component that stays on the stack. *)
Definition normal (p : Str) : Prop :=
  p ≠ [] ∧ p ≠ [DOT] ∧ p ≠ [DOT; DOT] ∧ SLASH ∉ p.
(** Its last character is a single byte. *)
Definition ascii_end (p : Str) : Prop := ∀ c, last p = Some c → c < 128.

(** A name is added behind a component whose last character is not a single byte. *)
Definition is_name (part : Str) : bool :=
  negb (bool_decide (part = []) || bool_decide (part = [DOT])) && negb (bool_decide (part = [DOT; DOT])).
Definition top_ascii (st : list Str) : Prop := ∀ p, last st = Some p → ascii_end p.
Definition stuck (st : list Str) (parts : list Str) : Prop :=
  ∃ before p after, parts = before ++ p :: after ∧ is_name p = true ∧ ¬ top_ascii (foldl resolve_part st before).

(** ** Lemmas *)

Lemma str_split_cons c s : ∃ p ps, str_split c s = p :: ps.
Proof. destruct s as [|x s]; simpl; [eauto|]. split_ifs; [eauto|]. case_match; eauto. Qed.

Lemma str_split_no_sep c s p : p ∈ str_split c s → c ∉ p.
Proof.
  revert p. induction s as [|x s IH]; simpl; intros p.
  - intros ->%list_elem_of_singleton. apply not_elem_of_nil.
  - destruct (x =? c) eqn:E.
    + intros [->|?]%elem_of_cons; [apply not_elem_of_nil|auto].
    + bool_to_prop. destruct (str_split_cons c s) as (q&ps&Hq). rewrite Hq in IH |- *.
      intros [->|?]%elem_of_cons; [|apply IH; set_solver].
      intros [->|?]%elem_of_cons; [done|]. by apply (IH q); [set_solver|].
Qed.

Lemma str_split_app c s t :
  c ∉ s → str_split c (s ++ c :: t) = s :: str_split c t.
Proof.
  induction s as [|x s IH]; simpl; intros Hs; [by rewrite Z.eqb_refl|].
  apply not_elem_of_cons in Hs as [Hx Hs]. rewrite (proj2 (Z.eqb_neq x c)) by done. by rewrite IH.
Qed.

Lemma str_split_single c s : c ∉ s → str_split c s = [s].
Proof.
  induction s as [|x s IH]; simpl; intros Hs; [done|].
  apply not_elem_of_cons in Hs as [Hx Hs]. rewrite (proj2 (Z.eqb_neq x c)) by done. by rewrite IH.
Qed.

Lemma str_split_join st : st ≠ [] → Forall (λ p, SLASH ∉ p) st → str_split SLASH (join st) = st.
Proof.
  induction st as [|p st IH]; [done|]. intros _ [Hp Hst]%Forall_cons.
  destruct st as [|q st]; [by apply str_split_single|].
  change (join (p :: q :: st)) with (p ++ SLASH :: join (q :: st)).
  rewrite str_split_app by done. f_equal. by apply IH.
Qed.

Lemma join_snoc st p : st ≠ [] → join (st ++ [p]) = join st ++ SLASH :: p.
Proof.
  induction st as [|q st IH]; [done|]. intros _. destruct st as [|r st]; [done|].
  change (join ((q :: r :: st) ++ [p])) with (q ++ SLASH :: join ((r :: st) ++ [p])).
  rewrite IH by done. change (join (q :: r :: st)) with (q ++ SLASH :: join (r :: st)).
  by rewrite <-app_assoc.
Qed.

Lemma join_nil st : Forall normal st → join st = [] → st = [].
Proof.
  destruct st as [|p [|q st]]; [done| |].
  - intros [[Hp _] _]%Forall_cons Hj. by simpl in Hj.
  - intros _ Hj. change (p ++ SLASH :: join (q :: st) = []) in Hj. by apply app_nil in Hj as [_ ?].
Qed.

(** A name without separator, popped from the end of the buffer. *)
Lemma pop_component_name fuel b p :
  SLASH ∉ p → (length p < fuel)%nat → (b = [] ∨ last b = Some SLASH) →
  pop_component fuel (b ++ p) = pop_component (fuel - length p) b.
Proof.
  revert fuel. induction p as [|c p IH] using rev_ind; intros fuel Hp Hl Hb.
  { by rewrite app_nil_r, Nat.sub_0_r. }
  destruct fuel as [|fuel]; [lia|]. rewrite length_app in *. simpl length in *.
  replace (S fuel - (length p + 1))%nat with (fuel - length p)%nat by lia.
  rewrite <-(IH fuel) by (set_solver || lia || done). rewrite app_assoc.
  simpl pop_component. unfold mbind, M_bind, get_state.
  rewrite bool_decide_eq_false_2 by (by destruct (b ++ p)).
  assert (c ≠ SLASH) as Hc by set_solver.
  rewrite bool_decide_eq_false_2.
  - unfold buf_pop, mbind, M_bind, get_state, put_state. simpl.
    rewrite last_snoc, removelast_last. simpl. by rewrite (proj2 (Z.eqb_neq c SLASH)).
  - intros Heq. apply (f_equal last) in Heq. rewrite last_snoc in Heq. simpl in Heq. congruence.
Qed.

(** The buffer that stands for a stack. *)
Definition reps (abs : bool) (st : list Str) (buf : Str) : Prop :=
  match st with
  | [] => buf = [] ∨ (abs = true ∧ buf = [SLASH])
  | _ => buf = render abs st
  end.

(** What comes before the next component. *)
Definition stem (abs : bool) (st : list Str) : Str :=
  match st with
  | [] => if abs then [SLASH] else []
  | _ => render abs st ++ [SLASH]
  end.

Lemma reps_snoc abs st p buf : reps abs (st ++ [p]) buf ↔ buf = stem abs st ++ p.
Proof.
  unfold reps, stem. destruct st as [|q st]; [done|]. unfold render.
  rewrite join_snoc by done. simpl app. by rewrite <-!app_assoc.
Qed.

Lemma stem_last abs st : stem abs st = [] ∨ last (stem abs st) = Some SLASH.
Proof. unfold stem. destruct st, abs; auto; right; apply last_snoc. Qed.

Lemma render_nonempty abs st : Forall normal st → st ≠ [] → render abs st ≠ [].
Proof.
  intros Hn Hst. unfold render. intros [_ Hj]%app_nil. by apply join_nil in Hj.
Qed.

Lemma pop_component_stem fuel abs st :
  Forall normal st → (0 < fuel)%nat →
  ∃ buf, pop_component fuel (stem abs st) = (Ok tt, buf) ∧ reps abs st buf.
Proof.
  intros Hn Hf. destruct fuel as [|fuel]; [lia|].
  destruct st as [|q st].
  { exists (stem abs []). destruct abs; (split; [done|]); [right|left]; done. }
  exists (render abs (q :: st)). split; [|done]. simpl pop_component. unfold stem.
  unfold mbind, M_bind, get_state.
  pose proof (render_nonempty abs (q :: st) Hn) as Hne. specialize (Hne ltac:(done)).
  rewrite bool_decide_eq_false_2 by (by destruct (render abs (q :: st))).
  rewrite bool_decide_eq_false_2.
  - unfold buf_pop, mbind, M_bind, get_state, put_state. simpl.
    by rewrite last_snoc, removelast_last.
  - intros Heq. apply (f_equal length) in Heq. rewrite length_app in Heq. simpl in Heq.
    destruct (render abs (q :: st)); [done|simpl in Heq; lia].
Qed.

Lemma pop_part_ok abs st buf :
  reps abs st buf → Forall normal st →
  ∃ buf', pop_component (S (length buf)) buf = (Ok tt, buf') ∧ reps abs (removelast st) buf'.
Proof.
  intros Hr Hn. destruct st as [|p st _] using rev_ind.
  { exists buf. split; [|done]. destruct Hr as [->|[-> ->]]; done. }
  apply reps_snoc in Hr as ->. apply Forall_app in Hn as [Hn [(_&_&_&Hp) _]%Forall_cons].
  rewrite removelast_last. rewrite pop_component_name; [|done| |apply stem_last].
  - apply pop_component_stem; [done|]. rewrite length_app. lia.
  - rewrite length_app. lia.
Qed.

Lemma last_render abs st p :
  normal p → last (stem abs st ++ p) = last p ∧ ∃ c, last p = Some c ∧ c ≠ SLASH.
Proof.
  intros (Hp&_&_&Hs). destruct p as [|c p _] using rev_ind; [done|].
  rewrite last_app, last_snoc. split; [done|]. exists c. split; [done|]. set_solver.
Qed.

Lemma push_part_ok abs st buf part :
  reps abs st buf → Forall normal st → top_ascii st →
  ∃ buf', (_ ← (if bool_decide (buf = []) then
             if abs then buf_push_str [SLASH] else mret tt
           else
             t ← last_byte_slice buf;
             if bool_decide (t ≠ [SLASH]) then buf_push_str [SLASH] else mret tt);
           buf_push_str part) buf = (Ok tt, buf') ∧ reps abs (st ++ [part]) buf'.
Proof.
  intros Hr Hn Ha. exists (stem abs st ++ part). rewrite reps_snoc. split; [|done].
  destruct st as [|p st _] using rev_ind.
  { destruct Hr as [->|[-> ->]]; [by destruct abs|done]. }
  apply Forall_app in Hn as [Hn [Hp _]%Forall_cons]. pose proof (Ha p (last_snoc _ _)) as Hap.
  apply reps_snoc in Hr as Hb.
  assert (stem abs (st ++ [p]) = buf ++ [SLASH]) as ->.
  { unfold stem. destruct (st ++ [p]) eqn:E; [by destruct st|]. rewrite <-E in *.
    unfold reps in Hr. rewrite E in Hr |- *. by rewrite Hr. }
  destruct (last_render abs st p Hp) as (Hl&c&Hc&Hcs). rewrite <-Hb in Hl.
  assert (buf ≠ []) as Hne by (intros ->; simpl in Hl; congruence).
  rewrite bool_decide_eq_false_2 by done.
  unfold mbind, M_bind, last_byte_slice. rewrite Hl, Hc, (proj2 (Z.ltb_lt c 128)) by (by apply Hap).
  simpl. rewrite bool_decide_eq_true_2 by congruence. simpl. done.
Qed.

Lemma push_part_panics abs st buf part :
  reps abs st buf → Forall normal st → ¬ top_ascii st →
  (_ ← (if bool_decide (buf = []) then
      if abs then buf_push_str [SLASH] else mret tt
    else
      t ← last_byte_slice buf;
      if bool_decide (t ≠ [SLASH]) then buf_push_str [SLASH] else mret tt);
   buf_push_str part) buf = (Panic, buf).
Proof.
  intros Hr Hn Ha. destruct st as [|p st _] using rev_ind; [by destruct Ha|].
  apply Forall_app in Hn as [Hn [Hp _]%Forall_cons]. apply reps_snoc in Hr as Hb.
  destruct (last_render abs st p Hp) as (Hl&c&Hc&Hcs). rewrite <-Hb in Hl.
  assert (buf ≠ []) as Hne by (intros ->; simpl in Hl; congruence).
  rewrite bool_decide_eq_false_2 by done. unfold mbind, M_bind, last_byte_slice. rewrite Hl, Hc.
  rewrite (proj2 (Z.ltb_ge c 128)); [done|]. apply Z.nlt_ge. intros Hlt. apply Ha. intros p'. rewrite last_snoc. intros [= <-].
  intros c' Hc'. congruence.
Qed.

Lemma resolve_part_name st part : is_name part = true → resolve_part st part = st ++ [part].
Proof.
  unfold is_name, resolve_part. intros [H1%negb_true_iff H2%negb_true_iff]%andb_true_iff. by rewrite H1, H2.
Qed.
Lemma canonicalize_part_exact abs st buf part :
  reps abs st buf → Forall normal st →
  (is_name part = true ∧ ¬ top_ascii st → canonicalize_part abs part buf = (Panic, buf)) ∧
  (is_name part = false ∨ top_ascii st →
     ∃ buf', canonicalize_part abs part buf = (Ok tt, buf') ∧ reps abs (resolve_part st part) buf').
Proof.
  intros Hr Hn. unfold is_name, canonicalize_part, resolve_part. split.
  - intros [[H1%negb_true_iff H2%negb_true_iff]%andb_true_iff Ha]. rewrite H1, H2. erewrite M_bind_ok by reflexivity.
    by apply (push_part_panics abs st).
  - intros Ha. destruct (_ || _)%bool eqn:E1; [by exists buf|]. destruct (bool_decide (part = [DOT; DOT])) eqn:E2;
      erewrite M_bind_ok by reflexivity; [by apply pop_part_ok|]. apply push_part_ok; [done..|]. by destruct Ha.
Qed.
#[export] Instance top_ascii_dec st : Decision (top_ascii st).
Proof.
  unfold top_ascii, ascii_end. destruct (last st) as [p|]; [|by left]. destruct (last p) as [c|] eqn:E.
  - destruct (decide (c < 128)); [left; intros ? [= <-] ?; rewrite E; by intros [= <-]|right]. intros H. by apply (H p eq_refl) in E.
  - left. intros ? [= <-] ?. by rewrite E.
Defined.
Lemma stuck_cons st p parts :
  stuck st (p :: parts) ↔ (is_name p = true ∧ ¬ top_ascii st) ∨ stuck (resolve_part st p) parts.
Proof.
  split.
  - intros ([|q ps]&p'&qs&E&Hn&Ha); injection E as -> ->; [by left|right]. by exists ps, p', qs.
  - intros [[Hn Ha]|(ps&p'&qs&->&Hn&Ha)]; [by exists [], p, parts|by exists (p :: ps), p', qs].
Qed.

Lemma removelast_Forall {A} (P : A → Prop) l : Forall P l → Forall P (removelast l).
Proof.
  destruct l as [|x l _] using rev_ind; [done|]. rewrite removelast_last. by intros [? _]%Forall_app.
Qed.

Lemma resolve_part_normal st part :
  Forall normal st → SLASH ∉ part → Forall normal (resolve_part st part).
Proof.
  intros Hn Hs. unfold resolve_part. destruct (_ || _)%bool eqn:E; [done|].
  apply orb_false_iff in E as [?%bool_decide_eq_false ?%bool_decide_eq_false].
  destruct (bool_decide (part = [DOT; DOT])) eqn:E; [by apply removelast_Forall|].
  apply bool_decide_eq_false in E. apply Forall_app. split; [done|]. by repeat constructor.
Qed.

Lemma canonicalize_parts_exact abs parts st buf :
  reps abs st buf → Forall normal st → Forall (λ p, SLASH ∉ p) parts →
  (stuck st parts → (canonicalize_parts abs parts buf).1 = Panic) ∧
  (¬ stuck st parts →
     ∃ buf', canonicalize_parts abs parts buf = (Ok tt, buf') ∧ reps abs (foldl resolve_part st parts) buf').
Proof.
  revert st buf. induction parts as [|p parts IH]; intros st buf Hr Hn Hs.
  { split; [|by exists buf]. intros (ps&p&qs&E&_). by destruct ps. }
  apply Forall_cons in Hs as [Hs1 Hs]. rewrite stuck_cons. cbn [canonicalize_parts foldl].
  destruct (canonicalize_part_exact abs st buf p Hr Hn) as [Hpanic Hok].
  destruct (decide (is_name p = true ∧ ¬ top_ascii st)) as [Hst|Hst].
  { split; [intros _; by erewrite M_bind_panic by (by apply Hpanic)|tauto]. }
  destruct Hok as (b1&H1&Hr1). { destruct (is_name p); [right|by left]. destruct (decide (top_ascii st)); tauto. }
  destruct (IH (resolve_part st p) b1 Hr1) as [IH1 IH2]; [by apply resolve_part_normal|done|].
  erewrite M_bind_ok by exact H1. split; [intros [?|?]; [done|by apply IH1]|]. intros Hns. apply IH2. tauto.
Qed.

(** What is below the top of the stack ends in a single byte, unless the run is stuck. *)
Lemma removelast_snoc_cases {A} (P : A → Prop) st :
  Forall P (removelast st) → (∀ p, last st = Some p → P p) → Forall P st.
Proof.
  destruct st as [|p st _] using rev_ind; [done|]. rewrite removelast_last, last_snoc. intros Hst Hp.
  apply Forall_app. split; [done|]. repeat constructor. by apply Hp.
Qed.
Lemma resolve_below parts st :
  ¬ stuck st parts → Forall ascii_end (removelast st) → Forall ascii_end (removelast (foldl resolve_part st parts)).
Proof.
  revert st. induction parts as [|p parts IH]; intros st Hns Hb; [done|]. rewrite stuck_cons in Hns. cbn [foldl].
  apply IH; [tauto|]. destruct (is_name p) eqn:E.
  - rewrite resolve_part_name, removelast_last by done. apply removelast_snoc_cases; [done|].
    destruct (decide (top_ascii st)); [done|]. exfalso. tauto.
  - unfold is_name in E. unfold resolve_part. destruct (_ || _)%bool; [done|]. destruct (bool_decide (p = [DOT; DOT])); [|done].
    by apply removelast_Forall.
Qed.
Lemma not_stuck_normal st2 : ∀ st1,
  Forall normal st2 → Forall ascii_end (removelast (st1 ++ st2)) → ¬ stuck st1 st2.
Proof.
  induction st2 as [|p st2 IH]; intros st1 Hn Hb; [intros (ps&?&?&E&_); by destruct ps|].
  apply Forall_cons in Hn as [Hp Hn]. rewrite stuck_cons. intros [[_ Ha]|Hs].
  - apply Ha. intros q Hq. revert Hb. rewrite removelast_app by done. intros [Hf _]%Forall_app.
    rewrite Forall_forall in Hf. apply Hf. by apply last_Some_elem_of.
  - revert Hs. assert (resolve_part st1 p = st1 ++ [p]) as ->.
    { destruct Hp as (?&?&?&?). unfold resolve_part. by rewrite !bool_decide_eq_false_2. }
    apply IH; [done|]. by rewrite <-app_assoc.
Qed.

Lemma resolve_normal parts st :
  Forall normal st → Forall (λ p, SLASH ∉ p) parts → Forall normal (foldl resolve_part st parts).
Proof.
  revert st. induction parts as [|p parts IH]; intros st Hn Hs; [done|].
  apply Forall_cons in Hs as [??]. simpl. apply IH; [|done]. by apply resolve_part_normal.
Qed.

Lemma split_normal path : Forall (λ p, SLASH ∉ p) (str_split SLASH path).
Proof. apply Forall_forall. intros p. apply str_split_no_sep. Qed.
Lemma canonicalize_resolves path :
  (stuck [] (str_split SLASH path) → canonicalize path = Panic) ∧
  (¬ stuck [] (str_split SLASH path) →
     canonicalize path = Ok (render (starts_with_slash path) (resolve (str_split SLASH path)))).
Proof.
  unfold canonicalize. set (abs := starts_with_slash path).
  destruct (canonicalize_parts_exact abs (str_split SLASH path) [] []) as [Hp Hok]; [by left|done|apply split_normal|]. split.
  { intros Hs. specialize (Hp Hs). destruct (canonicalize_parts abs _ []) as [r b] eqn:E. cbn in Hp. subst r.
    by erewrite M_bind_panic by exact E. }
  intros Hs. destruct (Hok Hs) as (buf&Hb&Hr).
  erewrite M_bind_ok by exact Hb. erewrite M_bind_ok by reflexivity.
  fold (resolve (str_split SLASH path)) in Hr.
  assert (Forall normal (resolve (str_split SLASH path))) as Hn by (apply resolve_normal; [done|apply split_normal]).
  destruct (resolve (str_split SLASH path)) as [|p st] eqn:E.
  - destruct Hr as [->|[-> ->]]; [by destruct abs|done].
  - unfold reps in Hr. subst buf. rewrite bool_decide_eq_false_2, andb_false_r; [done|].
    by apply render_nonempty.
Qed.

(** Resolving a canonical path again. *)
Lemma resolve_part_keep st p : normal p → resolve_part st p = st ++ [p].
Proof.
  intros (?&?&?&?). unfold resolve_part. by rewrite !bool_decide_eq_false_2.
Qed.

Lemma resolve_keep st st' : Forall normal st' → foldl resolve_part st st' = st ++ st'.
Proof.
  revert st. induction st' as [|p st' IH]; intros st; [by rewrite app_nil_r|].
  intros [Hp Hs]%Forall_cons. simpl. rewrite IH, resolve_part_keep by done. by rewrite <-app_assoc.
Qed.

Lemma starts_with_join st : Forall normal st → starts_with_slash (join st) = false.
Proof.
  intros Hn. unfold starts_with_slash. apply bool_decide_eq_false. destruct st as [|p st]; [done|].
  apply Forall_cons in Hn as [(Hp&_&_&Hs) _]. destruct p as [|c p]; [done|].
  destruct st; simpl; set_solver.
Qed.

Lemma render_split abs st :
  Forall normal st →
  starts_with_slash (render abs st) = abs ∧ resolve (str_split SLASH (render abs st)) = st ∧
  (Forall ascii_end (removelast st) → ¬ stuck [] (str_split SLASH (render abs st))).
Proof.
  intros Hn. assert (Forall (λ p, SLASH ∉ p) st) as Hs by (eapply Forall_impl; [done|]; by intros ? (?&?&?&?)).
  assert (resolve (str_split SLASH (join st)) = st ∧
    (Forall ascii_end (removelast st) → ¬ stuck [] (str_split SLASH (join st)))) as [Hr He].
  { destruct st as [|p st].
    - split; [done|]. intros _ ([|? ps]&?&?&E&Hp&_); [by injection E as <- <-|by destruct ps].
    - rewrite str_split_join by done. split; [by apply resolve_keep|]. intros Hb. by apply not_stuck_normal. }
  unfold render. destruct abs; simpl app.
  - split_and!; [done|exact Hr|]. intros Hb. change (str_split SLASH (SLASH :: join st)) with ([] :: str_split SLASH (join st)).
    rewrite stuck_cons. intros [[? _]|Hst]; [done|]. by apply He.
  - split_and!; [by apply starts_with_join|done..].
Qed.

(** C12: [canonicalize] computes the resolution of the path: empty and dot
    components are dropped, a double dot removes the component before it, the rest
    is joined again, and an absolute path stays absolute.  The result is canonical:
    canonicalizing it again changes nothing.  The exception, exactly: it panics when a
    name follows, in the path as resolved so far, a component whose last character has
    several bytes. *)
Theorem canonicalize_spec path :
  let parts := str_split SLASH path in
  let q := render (starts_with_slash path) (resolve parts) in
  (stuck [] parts → canonicalize path = Panic) ∧
  (¬ stuck [] parts → canonicalize path = Ok q ∧ canonicalize q = Ok q ∧ Forall normal (resolve parts)).
Proof.
  intros parts q. split; [apply canonicalize_resolves|]. intros Hst.
  assert (Forall normal (resolve parts)) as Hn by (apply resolve_normal; [done|apply split_normal]).
  split; [by apply canonicalize_resolves|]. split; [|done].
  destruct (render_split (starts_with_slash path) _ Hn) as (Hs&Hr&He). fold q in Hs, Hr, He.
  rewrite (proj2 (canonicalize_resolves q)); [by rewrite Hs, Hr|]. apply He. by apply (resolve_below parts []).
Qed.

Lemma canonicalize_spec_witness :
  canonicalize [SLASH; 97; SLASH; DOT; DOT; SLASH; 98; SLASH; SLASH; DOT; SLASH; 99] = Ok [SLASH; 98; SLASH; 99] ∧
  canonicalize [233; SLASH; 97] = Panic.
Proof.
  split.
  - apply (canonicalize_spec [SLASH; 97; SLASH; DOT; DOT; SLASH; 98; SLASH; SLASH; DOT; SLASH; 99]).
    vm_compute str_split. repeat rewrite stuck_cons.
    assert (∀ st : list Str, (∀ p, p ∈ st → ascii_end p) → top_ascii st) as Ht.
    { intros st Hst p Hp. apply Hst. by apply last_Some_elem_of. }
    intros H. repeat destruct H as [[Hx Ha]|H]; try done;
      try (apply Ha, Ht; vm_compute; intros p Hp; repeat (apply elem_of_cons in Hp as [->|Hp]; [intros c [= <-]; done|]); by apply not_elem_of_nil in Hp).
    destruct H as (ps&?&?&E&_). by destruct ps.
  - apply (canonicalize_spec [233; SLASH; 97]). exists [[233]], [97], []. split_and!; [done..|].
    intros H. discriminate (H [233] eq_refl 233 eq_refl).
Defined.

(** A component that ends in a character of several bytes and is followed by
    another one makes [canonicalize] panic: it looks at the last byte of the buffer
    with a slice that is not on a character boundary. *)
Theorem canonicalize_panics_non_ascii x y c :
  normal x → normal y → last x = Some c → 128 ≤ c → canonicalize (x ++ SLASH :: y) = Panic.
Proof.
  intros Hx Hy Hl Hc. destruct Hx as (Hx0&Hx1&Hx2&Hxs), Hy as (Hy0&Hy1&Hy2&Hys).
  assert (starts_with_slash (x ++ SLASH :: y) = false) as Hst.
  { apply bool_decide_eq_false. destruct x; [done|]. simpl. set_solver. }
  unfold canonicalize. rewrite Hst, str_split_app, str_split_single by done. simpl.
  unfold canonicalize_part. rewrite !bool_decide_eq_false_2 by done. simpl.
  unfold mbind, M_bind. simpl. rewrite bool_decide_eq_false_2 by done.
  unfold last_byte_slice. by rewrite Hl, (proj2 (Z.ltb_ge c 128)).
Qed.

Lemma canonicalize_panics_non_ascii_witness : canonicalize ([233] ++ SLASH :: [97]) = Panic.
Proof.
  assert (∀ d : Z, d ≠ DOT → d ≠ SLASH → normal [d]) as H.
  { intros d ??. repeat split; [done|congruence|done|]. by intros ?%list_elem_of_singleton. }
  apply (canonicalize_panics_non_ascii [233] [97] 233); [by apply H..|reflexivity|lia].
Defined.
