(* ===== verification/Vfs.v ===== *)
(** * Nodes of the virtual file system ([crates/axfs_vfs], [axfs_ramfs], [axfs_devfs])

    The nodes are shared objects ([Arc<dyn VfsNodeOps>]): a store of nodes with
    their strong counts, in which a dynamic call is a case analysis on the kind of
    the node.  A weak pointer to a parent can be upgraded as long as the parent is
    in the store.  Paths and names are lists of characters, contents are lists of
    bytes. *)

From Stdlib Require Import ZArith Lia.
From stdpp Require Import base decidable numbers gmap list.
From S2P Require Import Prelude Containers LinkedList Path.

Local Open Scope Z_scope.

(** ** Errors ([crates/axerrno]) *)

Inductive AxError : Set :=
| AddrInUse | AlreadyExists | BadAddress | BadState | ConnectionRefused | ConnectionReset
| DirectoryNotEmpty | InvalidData | InvalidInput | Io | IsADirectory | NoMemory | NotADirectory
| NotConnected | NotFound | PermissionDenied | ResourceBusy | StorageFull | UnexpectedEof
| Unsupported | WouldBlock | WriteZero.
#[export] Instance AxError_eq_dec : EqDecision AxError.
Proof. solve_decision. Defined.

(** ** Attributes and directory entries ([structs.rs]) *)

Inductive VfsNodeType : Set := Fifo | CharDevice | Dir | BlockDevice | File_ | SymLink | Socket.
#[export] Instance VfsNodeType_eq_dec : EqDecision VfsNodeType.
Proof. solve_decision. Defined.

Record VfsNodeAttr : Type := { attr_mode : Z; attr_ty : VfsNodeType; attr_size : Z; attr_blocks : Z }.

Definition OWNER_READ : Z := 0x100.
Definition OWNER_WRITE : Z := 0x80.
Definition OWNER_EXEC : Z := 0x40.

Section perm.
Context `{Bitflags}.
Definition perm_default_file : Z := bf_truncate 0x1ff 0x1b6.
Definition perm_default_dir : Z := bf_truncate 0x1ff 0x1ed.
Definition owner_readable (perm : Z) : bool := bf_contains perm OWNER_READ.
Definition owner_writable (perm : Z) : bool := bf_contains perm OWNER_WRITE.
Definition owner_executable (perm : Z) : bool := bf_contains perm OWNER_EXEC.

Definition attr_new_file (size blocks : Z) : VfsNodeAttr :=
  {| attr_mode := perm_default_file; attr_ty := File_; attr_size := size; attr_blocks := blocks |}.
Definition attr_new_dir (size blocks : Z) : VfsNodeAttr :=
  {| attr_mode := perm_default_dir; attr_ty := Dir; attr_size := size; attr_blocks := blocks |}.
End perm.
Definition attr_is_dir (a : VfsNodeAttr) : bool := bool_decide (attr_ty a = Dir).

(** The bytes of a character and of a string. *)
Definition utf8_char (c : Z) : list Z :=
  if c <? 0x80 then [c]
  else if c <? 0x800 then [0xC0 + c / 0x40; 0x80 + c mod 0x40]
  else if c <? 0x10000 then [0xE0 + c / 0x1000; 0x80 + c / 0x40 mod 0x40; 0x80 + c mod 0x40]
  else [0xF0 + c / 0x40000; 0x80 + c / 0x1000 mod 0x40; 0x80 + c / 0x40 mod 0x40; 0x80 + c mod 0x40].
Definition as_bytes (s : Str) : list Z := s ≫= utf8_char.

Record VfsDirEntry : Type := { d_type : VfsNodeType; d_name : list Z }.

(** [VfsDirEntry::new]: the slice panics when the name does not fit. *)
Definition VfsDirEntry_new {S E} (name : Str) (ty : VfsNodeType) : M S E VfsDirEntry :=
  let b := as_bytes name in
  if (63 <? length b)%nat then panic
  else mret {| d_type := ty; d_name := b ++ replicate (63 - length b) 0 |}.

Definition name_as_bytes (e : VfsDirEntry) : list Z :=
  match list_find (λ c, c = 0) (d_name e) with
  | Some (len, _) => take len (d_name e)
  | None => d_name e
  end.

(** ** Nodes *)

(** Names are compared by their bytes, which is the order of their characters. *)
Fixpoint str_cmp (a b : Str) : comparison :=
  match a, b with
  | [], [] => Eq
  | [], _ => Lt
  | _, [] => Gt
  | x :: a, y :: b => match x ?= y with Eq => str_cmp a b | c => c end
  end.

Lemma str_cmp_trans a b c : str_cmp a b = Lt → str_cmp b c = Lt → str_cmp a c = Lt.
Proof.
  revert b c. induction a as [|x a IH]; intros [|y b] [|z c]; simpl; try done.
  destruct (Z.compare_spec x y), (Z.compare_spec y z), (Z.compare_spec x z); subst; try done; try lia.
  apply IH.
Qed.

#[export] Instance str_key_ord : KeyOrd Str.
Proof.
  refine {| kcmp := str_cmp; kcmp_trans := str_cmp_trans |}.
  - induction a as [|x a IH]; intros [|y b]; simpl; try done.
    destruct (Z.compare_spec x y); [subst; rewrite IH; split; congruence|split; [done|]; intros [=]; lia..].
  - induction a as [|x a IH]; intros [|y b]; simpl; try done.
    rewrite (Z.compare_antisym x y). destruct (x ?= y); simpl; auto.
Defined.

Abbreviation nid := positive.
Abbreviation Children := (list (Str * nid)).

Inductive Node : Type :=
| RamDir (parent : option nid) (children : Children)
| RamFile (content : list Z)
| DevDir (parent : option nid) (children : Children)
| NullDev
| ZeroDev.

Record Inode : Type := { ino : Node; strong : Z }.

Abbreviation Store := (gmap nid Inode).

(** The strong references a node holds. *)
Definition children_of (x : Node) : Children :=
  match x with RamDir _ ch | DevDir _ ch => ch | _ => [] end.

Section ops.
Context `{Bitflags}.
Local Abbreviation FM := (M Store AxError).

Definition get_inode (n : nid) : FM Inode := st ← get_state; unwrap (st !! n).
Definition get_node (n : nid) : FM Node := i ← get_inode n; mret (ino i).
Definition set_node (n : nid) (x : Node) : FM unit :=
  i ← get_inode n; modify (<[n := {| ino := x; strong := strong i |}]>).

Definition ok_or {A} (e : AxError) (o : option A) : FM A :=
  match o with Some a => mret a | None => throw e end.

(** [Arc::clone], and the drop of references: a node whose last reference goes is
    freed and drops what it refers to. *)
Definition node_clone (n : nid) : FM unit :=
  i ← get_inode n; modify (<[n := {| ino := ino i; strong := strong i + 1 |}]>).
Fixpoint drop_loop (fuel : nat) (l : list nid) : FM unit :=
  match l with
  | [] => mret tt
  | n :: l =>
      match fuel with
      | O => out_of_fuel
      | S fuel =>
          i ← get_inode n;
          if strong i =? 1 then
            _ ← modify (delete n); drop_loop fuel ((children_of (ino i)).*2 ++ l)
          else
            _ ← modify (<[n := {| ino := ino i; strong := strong i - 1 |}]>); drop_loop fuel l
      end
  end.
(** Every turn uses up one reference. *)
Definition all_children (st : Store) : list nid :=
  map_to_list st ≫= λ x, (children_of (ino x.2)).*2.
Definition node_drop (n : nid) : FM unit :=
  st ← get_state; drop_loop (S (length (all_children st))) [n].

(** [Weak::upgrade], without the reference it returns. *)
Definition upgrade (w : option nid) : FM (option nid) :=
  st ← get_state;
  mret (match w with
        | Some n => if decide (is_Some (st !! n)) then Some n else None
        | None => None
        end).

(** [parent]. *)
Definition node_parent (n : nid) : FM (option nid) :=
  x ← get_node n;
  match x with RamDir p _ | DevDir p _ => upgrade p | _ => mret None end.

Definition get_attr (n : nid) : FM VfsNodeAttr :=
  x ← get_node n;
  mret match x with
       | RamDir _ _ | DevDir _ _ => attr_new_dir 4096 0
       | RamFile content => attr_new_file (Z.of_nat (length content)) 0
       | NullDev | ZeroDev =>
           {| attr_mode := perm_default_file; attr_ty := CharDevice; attr_size := 0; attr_blocks := 0 |}
       end.

(** ** Paths in a directory ([dir.rs] of both file systems) *)

Fixpoint trim_start (s : Str) : Str :=
  match s with
  | c :: s' => if c =? SLASH then trim_start s' else s
  | [] => []
  end.
(** [find('/')] with the two parts of the string. *)
Fixpoint find_slash (s : Str) : option (Str * Str) :=
  match s with
  | [] => None
  | c :: s =>
      if c =? SLASH then Some ([], s)
      else match find_slash s with Some (a, b) => Some (c :: a, b) | None => None end
  end.
Definition split_path (path : Str) : Str * option Str :=
  let trimmed_path := trim_start path in
  match find_slash trimmed_path with
  | Some (name, rest) => (name, Some rest)
  | None => (trimmed_path, None)
  end.

Definition is_dot (name : Str) : bool := (bool_decide (name = []) || bool_decide (name = [DOT]))%bool.
Definition is_dotdot (name : Str) : bool := bool_decide (name = [DOT; DOT]).

(** The node a name stands for in a directory: the first step of [lookup], and of
    [create] and [remove] on a longer path. *)
Definition dir_step (n : nid) (parent : option nid) (children : Children) (name : Str) : FM nid :=
  if is_dot name then mret n
  else if is_dotdot name then p ← upgrade parent; ok_or NotFound p
  else ok_or NotFound (bt_get name children).

(** [lookup], without the reference it returns.  The rest of the path gets shorter. *)
Fixpoint lookup_loop (fuel : nat) (n : nid) (path : Str) : FM nid :=
  match fuel with
  | O => out_of_fuel
  | S fuel =>
      x ← get_node n;
      match x with
      | RamDir parent children | DevDir parent children =>
          let '(name, rest) := split_path path in
          node ← dir_step n parent children name;
          match rest with Some rest => lookup_loop fuel node rest | None => mret node end
      | _ => throw NotADirectory
      end
  end.
Definition vfs_lookup (n : nid) (path : Str) : FM nid :=
  node ← lookup_loop (S (length path)) n path; _ ← node_clone node; mret node.

(** ** The RAM file system: [create_node], [remove_node] *)

Definition DirNode_exist (children : Children) (name : Str) : bool := bt_contains name children.

(** [create_node] at the address [new] the node is allocated at. *)
Definition create_node (n : nid) (parent : option nid) (children : Children) (name : Str)
    (ty : VfsNodeType) (new : nid) : FM unit :=
  if DirNode_exist children name then throw AlreadyExists
  else
    node ← match ty with
           | File_ => mret (RamFile [])
           | Dir => mret (RamDir (Some n) [])
           | _ => throw Unsupported
           end;
    _ ← modify (<[new := {| ino := node; strong := 1 |}]>);
    set_node n (RamDir parent (bt_insert name new children)).

Definition remove_node (n : nid) (parent : option nid) (children : Children) (name : Str) : FM unit :=
  node ← ok_or NotFound (bt_get name children);
  x ← get_node node;
  _ ← match x with
      | RamDir _ (_ :: _) => throw DirectoryNotEmpty
      | _ => mret tt
      end;
  _ ← set_node n (RamDir parent (bt_remove name children));
  node_drop node.

(** ** [create] and [remove] *)

Fixpoint create_loop (fuel : nat) (n : nid) (path : Str) (ty : VfsNodeType) (new : nid) : FM unit :=
  match fuel with
  | O => out_of_fuel
  | S fuel =>
      x ← get_node n;
      match x with
      | RamDir parent children =>
          let '(name, rest) := split_path path in
          match rest with
          | Some rest => node ← dir_step n parent children name; create_loop fuel node rest ty new
          | None =>
              if (is_dot name || is_dotdot name)%bool then mret tt
              else create_node n parent children name ty new
          end
      | DevDir parent children =>
          let '(name, rest) := split_path path in
          match rest with
          | Some rest => node ← dir_step n parent children name; create_loop fuel node rest ty new
          | None =>
              if (is_dot name || is_dotdot name)%bool then mret tt else throw PermissionDenied
          end
      | _ => throw NotADirectory
      end
  end.
Definition vfs_create (n : nid) (path : Str) (ty : VfsNodeType) (new : nid) : FM unit :=
  create_loop (S (length path)) n path ty new.

Fixpoint remove_loop (fuel : nat) (n : nid) (path : Str) : FM unit :=
  match fuel with
  | O => out_of_fuel
  | S fuel =>
      x ← get_node n;
      match x with
      | RamDir parent children =>
          let '(name, rest) := split_path path in
          match rest with
          | Some rest => node ← dir_step n parent children name; remove_loop fuel node rest
          | None =>
              if (is_dot name || is_dotdot name)%bool then throw InvalidInput
              else remove_node n parent children name
          end
      | DevDir parent children =>
          let '(name, rest) := split_path path in
          match rest with
          | Some rest => node ← dir_step n parent children name; remove_loop fuel node rest
          | None => throw PermissionDenied
          end
      | _ => throw NotADirectory
      end
  end.
Definition vfs_remove (n : nid) (path : Str) : FM unit := remove_loop (S (length path)) n path.

(** ** [read_dir]: the entries it writes, at most [len] *)

Fixpoint read_dir_loop (len : nat) (idx : Z) (children : Children) : FM (list VfsDirEntry) :=
  match len with
  | O => mret []
  | S len =>
      if idx =? 0 then
        e ← VfsDirEntry_new [DOT] Dir; l ← read_dir_loop len (add64 idx 1) children; mret (e :: l)
      else if idx =? 1 then
        e ← VfsDirEntry_new [DOT; DOT] Dir; l ← read_dir_loop len (add64 idx 1) children; mret (e :: l)
      else
        match children with
        | (name, node) :: children =>
            a ← get_attr node;
            e ← VfsDirEntry_new name (attr_ty a);
            l ← read_dir_loop len (add64 idx 1) children;
            mret (e :: l)
        | [] => mret []
        end
  end.
Definition vfs_read_dir (n : nid) (start_idx : Z) (len : nat) : FM (list VfsDirEntry) :=
  x ← get_node n;
  match x with
  | RamDir _ children | DevDir _ children =>
      read_dir_loop len start_idx (drop (Z.to_nat (Z.max start_idx 2 - 2)) children)
  | _ => throw NotADirectory
  end.

(** ** File contents ([file.rs], [null.rs], [zero.rs]) *)

(** [Vec::resize]; the capacity of a vector is at most [isize::MAX] bytes. *)
Definition vec_resize (n : Z) (v : list Z) : FM (list Z) :=
  if 2 ^ 63 <=? n then panic
  else mret (take (Z.to_nat n) v ++ replicate (Z.to_nat n - length v) 0).

Definition vfs_truncate (n : nid) (size : Z) : FM unit :=
  x ← get_node n;
  match x with
  | RamFile content =>
      v ← (if size <? Z.of_nat (length content) then mret (take (Z.to_nat size) content)
           else vec_resize size content);
      set_node n (RamFile v)
  | NullDev | ZeroDev => mret tt
  | _ => throw IsADirectory
  end.

(** [read_at] into a buffer of [len] bytes: the bytes it writes. *)
Definition vfs_read_at (n : nid) (offset len : Z) : FM (list Z) :=
  x ← get_node n;
  match x with
  | RamFile content =>
      let start := Z.min (Z.of_nat (length content)) offset in
      let stop := Z.min (Z.of_nat (length content)) (add64 offset len) in
      if stop <? start then panic
      else mret (take (Z.to_nat (stop - start)) (drop (Z.to_nat start) content))
  | NullDev => mret []
  | ZeroDev => mret (replicate (Z.to_nat len) 0)
  | _ => throw IsADirectory
  end.

(** [write_at]; it panics when the end of the slice is before its start. *)
Definition vfs_write_at (n : nid) (offset : Z) (buf : list Z) : FM Z :=
  x ← get_node n;
  let len := Z.of_nat (length buf) in
  match x with
  | RamFile content =>
      let stop := add64 offset len in
      v ← (if Z.of_nat (length content) <? stop then vec_resize stop content else mret content);
      if stop <? offset then panic
      else
        _ ← set_node n (RamFile (take (Z.to_nat offset) v ++ buf ++ drop (Z.to_nat stop) v));
        mret len
  | NullDev | ZeroDev => mret len
  | _ => throw IsADirectory
  end.

(** [fsync]: the RAM and device files have the trait's default. *)
Definition vfs_fsync (n : nid) : FM unit :=
  x ← get_node n;
  match x with RamDir _ _ | DevDir _ _ => throw IsADirectory | _ => throw InvalidInput end.

(** ** File systems ([lib.rs] of both) *)

Definition RamFileSystem_new (root : nid) : FM unit :=
  modify (<[root := {| ino := RamDir None []; strong := 1 |}]>).
Definition DeviceFileSystem_new (root : nid) : FM unit :=
  modify (<[root := {| ino := DevDir None []; strong := 1 |}]>).

Definition set_parent (root : nid) (parent : option nid) : FM unit :=
  x ← get_node root;
  match x with
  | RamDir _ ch => set_node root (RamDir parent ch)
  | DevDir _ ch => set_node root (DevDir parent ch)
  | _ => panic
  end.

(** [DirNode::mkdir] and [DirNode::add] of the device file system. *)
Definition dev_insert (n : nid) (name : Str) (node : nid) : FM unit :=
  x ← get_node n;
  match x with
  | DevDir p ch =>
      _ ← set_node n (DevDir p (bt_insert name node ch));
      match bt_get name ch with Some old => node_drop old | None => mret tt end
  | _ => panic
  end.
Definition dev_mkdir (n : nid) (name : Str) (new : nid) : FM nid :=
  _ ← modify (<[new := {| ino := DevDir (Some n) []; strong := 2 |}]>);
  _ ← dev_insert n name new;
  mret new.
Definition dev_add (n : nid) (name : Str) (node : nid) : FM unit := dev_insert n name node.
End ops.
