(* ===== verification/GlobalAlloc.v ===== *)
(** * The global allocator ([modules/axalloc])

    Two levels: a byte allocator serves the allocations, and gets more memory from the
    page allocator when it has none left. *)

From Stdlib Require Import ZArith Lia.
From stdpp Require Import base decidable numbers gmap list.
From S2P Require Import Prelude LinkedList MemoryAddr SlabHeap SlabHeapProps PageAlloc ByteAlloc Vfs.

Local Open Scope Z_scope.

(** ** [GlobalAllocator] ([lib.rs]) *)

Definition ALLOC_MIN_HEAP_SIZE : Z := 0x8000.

(** [usize::next_power_of_two], which wraps to 0. *)
Definition next_power_of_two (x : Z) : Z := if 2 ^ 63 <? x then 0 else 2 ^ Z.log2_up x.

Section global.
Context {S A : Type} `{HBA : ByteAllocator S} `{HA : BitAlloc A}.

Record GlobalAllocator : Type := { balloc : S; palloc : BitmapPageAllocator A }.
Local Abbreviation GM := (M GlobalAllocator AllocError).

Definition global_new : GlobalAllocator := {| balloc := byte_new; palloc := pa_new |}.

(** The two locks. *)
Definition on_balloc {T} (m : M S AllocError T) : GM T := λ g,
  let '(r, b) := m (balloc g) in (r, {| balloc := b; palloc := palloc g |}).
Definition on_palloc {T} (m : M (BitmapPageAllocator A) AllocError T) : GM T := λ g,
  let '(r, p) := m (palloc g) in (r, {| balloc := balloc g; palloc := p |}).

Definition global_alloc_pages (num_pages align_pow2 : Z) : GM Z := on_palloc (pa_alloc_pages num_pages align_pow2).
Definition global_dealloc_pages (p num_pages : Z) : GM unit := on_palloc (pa_dealloc_pages p num_pages).

Definition unwrap_alloc {T} (m : GM T) : GM T := λ g, match m g with (Err _, g') => (Panic, g') | x => x end.
Definition global_init (start_vaddr size : Z) : GM unit :=
  _ ← assert_ (ALLOC_MIN_HEAP_SIZE <? size);
  let init_heap_size := ALLOC_MIN_HEAP_SIZE in
  _ ← on_palloc (pa_init start_vaddr size);
  heap_ptr ← unwrap_alloc (global_alloc_pages (init_heap_size / PAGE_SIZE) PAGE_SIZE);
  on_balloc (byte_init heap_ptr init_heap_size).
Definition global_add_memory (start_vaddr size : Z) : GM unit := on_balloc (byte_add_memory start_vaddr size).

(** [if let Ok(ptr) = balloc.alloc(layout)]. *)
Definition try_balloc (l : Layout) : GM (option Z) := λ g,
  match on_balloc (byte_alloc l) g with
  | (Ok p, g') => (Ok (Some p), g')
  | (Err _, g') => (Ok None, g')
  | (Panic, g') => (Panic, g')
  | (OutOfFuel, g') => (OutOfFuel, g')
  end.
Definition expand_size (old_size : Z) (l : Layout) : Z :=
  Z.max (next_power_of_two (Z.max old_size (lsize l))) PAGE_SIZE.
(** One turn of the loop without memory left. *)
Definition expand_heap (l : Layout) : GM unit :=
  old_size ← on_balloc byte_total_bytes;
  let size := expand_size old_size l in
  heap_ptr ← global_alloc_pages (size / PAGE_SIZE) PAGE_SIZE;
  on_balloc (byte_add_memory heap_ptr size).
Fixpoint global_alloc (fuel : nat) (l : Layout) : GM Z :=
  match fuel with
  | O => out_of_fuel
  | Datatypes.S fuel =>
      r ← try_balloc l;
      match r with
      | Some p => mret p
      | None => _ ← expand_heap l; global_alloc fuel l
      end
  end.
Definition global_dealloc (p : Z) (l : Layout) : GM unit := on_balloc (byte_dealloc p l).

(** The [GlobalAlloc] trait: [handle_alloc_error] does not return. *)
Definition GlobalAlloc_alloc (fuel : nat) (l : Layout) : GM Z := unwrap_alloc (global_alloc fuel l).
Definition GlobalAlloc_dealloc (p : Z) (l : Layout) : GM unit :=
  _ ← assert_ (negb (p =? 0)); global_dealloc p l.

(** ** [GlobalPage] ([page.rs]) *)

Record GlobalPage : Type := { page_start : Z; page_count : Z }.
(** The allocator and the bytes of the memory. *)
Record PageSt : Type := { ps_alloc : GlobalAllocator; ps_mem : gmap Z Z }.
Local Abbreviation PSM := (M PageSt AxError).

Definition alloc_err_to_ax_err (e : AllocError) : AxError :=
  match e with
  | AllocInvalidParam | AllocMemoryOverlap | AllocNotAllocated => InvalidInput
  | AllocNoMemory => NoMemory
  end.
Definition on_global {T} (m : GM T) : PSM T := λ s,
  let '(r, g) := m (ps_alloc s) in
  (match r with Ok x => Ok x | Err e => Err (alloc_err_to_ax_err e) | Panic => Panic | OutOfFuel => OutOfFuel end,
   {| ps_alloc := g; ps_mem := ps_mem s |}).

Definition GlobalPage_alloc : PSM GlobalPage :=
  vaddr ← on_global (global_alloc_pages 1 PAGE_SIZE); mret {| page_start := vaddr; page_count := 1 |}.
Definition GlobalPage_alloc_contiguous (num_pages align_pow2 : Z) : PSM GlobalPage :=
  vaddr ← on_global (global_alloc_pages num_pages align_pow2);
  mret {| page_start := vaddr; page_count := num_pages |}.
Definition GlobalPage_size (p : GlobalPage) : Z := mul64 (page_count p) PAGE_SIZE.
(** [core::ptr::write_bytes]. *)
Definition write_bytes (a byte n : Z) (m : gmap Z Z) : gmap Z Z :=
  foldr (λ i, <[i := byte]>) m (seqZ a n).
Definition GlobalPage_fill (p : GlobalPage) (byte : Z) : PSM unit :=
  modify (λ s, {| ps_alloc := ps_alloc s; ps_mem := write_bytes (page_start p) byte (GlobalPage_size p) (ps_mem s) |}).
Definition GlobalPage_zero (p : GlobalPage) : PSM unit := GlobalPage_fill p 0.
Definition GlobalPage_alloc_zero : PSM GlobalPage :=
  p ← GlobalPage_alloc; _ ← GlobalPage_zero p; mret p.
Definition GlobalPage_as_slice (p : GlobalPage) (m : gmap Z Z) : list (option Z) :=
  (m !!.) <$> seqZ (page_start p) (GlobalPage_size p).
Definition GlobalPage_drop (p : GlobalPage) : PSM unit :=
  on_global (global_dealloc_pages (page_start p) (page_count p)).
End global.
Arguments GlobalAllocator : clear implicits.
Arguments PageSt : clear implicits.

(** ** The size of an expansion *)

Lemma next_power_of_two_cases x :
  next_power_of_two x = 0 ∨ ∃ k, 0 ≤ k ∧ next_power_of_two x = 2 ^ k.
Proof. unfold next_power_of_two. split_ifs; [by left|right]. eexists. split; [apply Z.log2_up_nonneg|done]. Qed.

Lemma expand_size_ok old l : PAGE_SIZE ≤ expand_size old l ∧ expand_size old l mod PAGE_SIZE = 0.
Proof.
  unfold expand_size. split; [lia|]. destruct (next_power_of_two_cases (Z.max old (lsize l))) as [->|(k&Hk&->)]; [done|].
  destruct (decide (k ≤ 12)) as [Hle|Hgt].
  - rewrite Z.max_r; [done|]. change PAGE_SIZE with (2 ^ 12). apply Z.pow_le_mono_r; lia.
  - rewrite Z.max_l by (change PAGE_SIZE with (2 ^ 12); apply Z.pow_le_mono_r; lia).
    apply Z.mod_divide; [done|]. change PAGE_SIZE with (2 ^ 12). apply pow2_divide. lia.
Qed.

(** ** The invariant

    [lo] and [sz] are the memory of [init], [added] the regions of [add_memory], [live]
    the byte allocations and [pages] the page allocations of the clients.  The pages the
    byte allocator got are kept apart. *)

Section invariant.
Context {S A : Type} `{HBA : ByteAllocator S} `{HBS : !ByteAllocatorSpec S}.
Context `{HA : BitAlloc A} `{HAS : !BitAllocSpec A}.
Implicit Types (g : GlobalAllocator S A) (added pages : list (Z * Z)) (live : list (Z * Layout)).

Definition free_pages g : nat := size (bit_free (pa_inner (palloc g))).
Definition managed g : Z * Z := (pa_base (palloc g), pa_total_pages (palloc g) * PAGE_SIZE).

Record global_inv (lo sz : Z) g added live pages : Prop := {
  gi_split : ∃ bpages rs, pa_inv (palloc g) (bpages ++ pages) ∧ byte_reach rs (balloc g) live ∧
               rs ≡ₚ (page_region <$> bpages) ++ added;
  gi_added : Forall (disj (lo, sz)) added;
  gi_managed : subregion (managed g) (lo, sz);
}.

Lemma page_live_sub (s : BitmapPageAllocator A) x :
  page_live s x → subregion (page_region x) (pa_base s, pa_total_pages s * PAGE_SIZE).
Proof. intros (?&i&Hi&?&?&_). unfold subregion, page_region, PAGE_SIZE in *. cbn. lia. Qed.

Lemma page_live_aligned (s : BitmapPageAllocator A) pages x : pa_inv s pages → x ∈ pages → 0 < x.1 ∧ x.1 mod PAGE_SIZE = 0 ∧ 0 < x.2 ∧ x.1 + x.2 * PAGE_SIZE < 2 ^ 64.
Proof.
  intros HI Hx. pose proof (pv_live _ _ HI) as Hl. rewrite Forall_forall in Hl. destruct (Hl _ Hx) as (Hn&i&Hi&H0&Ht&_).
  pose proof (pv_base _ _ HI) as [Hb Hm]. pose proof (pv_end _ _ HI). rewrite Hi. split_and!; try done.
  - unfold PAGE_SIZE. lia.
  - rewrite Z.add_comm, Z.mod_add by done. done.
  - unfold PAGE_SIZE in *. lia.
Qed.

Lemma pa_inv_perm (s : BitmapPageAllocator A) pages pages' : pages ≡ₚ pages' → pa_inv s pages → pa_inv s pages'.
Proof.
  intros Hp [? ? ? ? Hl Hd Hu]. split; try done.
  - by rewrite <-Hp.
  - by apply (disjoint_list_perm _ _ (fmap_Permutation page_region _ _ Hp)).
  - by rewrite <-(pages_total_perm _ _ Hp).
Qed.

Lemma global_alloc_pages_ok lo sz g added live pages n align :
  global_inv lo sz g added live pages →
  ∃ r g', global_alloc_pages n align g = (r, g') ∧
    match r with
    | Ok a => global_inv lo sz g' added live ((a, n) :: pages) ∧ (free_pages g' < free_pages g)%nat
    | Err e => global_inv lo sz g' added live pages
    | _ => False
    end.
Proof.
  intros [(bp&rs&HI&Hb&Hrs) Ha Hm].
  destruct (pa_alloc_pages_ok (palloc g) (bp ++ pages) n align HI) as (r&s'&He&Hbase&Htot&Hr).
  exists r, {| balloc := balloc g; palloc := s' |}. split; [unfold global_alloc_pages, on_palloc; by rewrite He|].
  assert (subregion (managed {| balloc := balloc g; palloc := s' |}) (lo, sz)) as Hm'
    by (unfold managed in *; cbn; by rewrite Hbase, Htot).
  destruct r as [a|e| |]; [|destruct Hr as [Hr _]|done..].
  - destruct Hr as (HI'&_&_&_&Hlt). split; [|exact Hlt]. split; [|done..]. exists bp, rs. split_and!; [|done..].
    eapply pa_inv_perm; [|exact HI']. apply Permutation_middle.
  - split; [|done..]. by exists bp, rs.
Qed.

(** Pages that a client holds become memory of the byte allocator. *)
Lemma give_pages_ok lo sz g added live pages a n :
  global_inv lo sz g added live ((a, n) :: pages) →
  ∃ g', on_balloc (byte_add_memory a (n * PAGE_SIZE)) g = (Ok tt, g') ∧ palloc g' = palloc g ∧
    global_inv lo sz g' added live pages.
Proof.
  intros [(bp&rs&HI&Hb&Hrs) Ha Hm].
  destruct (page_live_aligned _ _ (a, n) HI) as (H0&Hal&Hn&Hlt); [set_solver|]. cbn in *.
  assert (Forall (disj (a, n * PAGE_SIZE)) rs) as Hd.
  { rewrite Hrs. apply Forall_app. split.
    - pose proof (pv_disj _ _ HI) as Hdj. rewrite fmap_app in Hdj. apply disjoint_list_app in Hdj as (_&_&Hdj).
      apply Forall_forall. intros x Hx. apply disj_sym. apply Hdj; [done|]. cbn. by left.
    - eapply Forall_impl; [exact Ha|]. intros x. eapply (disj_sub (page_region (a, n)) (lo, sz)); [|by unfold subregion].
      pose proof (pv_live _ _ HI) as Hl. rewrite Forall_forall in Hl.
      pose proof (page_live_sub _ (a, n) (Hl (a, n) ltac:(set_solver))).
      unfold subregion, managed in *. cbn in *. lia. }
  destruct (byte_add_ok rs (balloc g) live a (n * PAGE_SIZE) Hb) as (b'&He&Hb'); try done.
  { unfold PAGE_SIZE in *. lia. }
  { by apply Z.mod_mul. }
  eexists. split; [unfold on_balloc; rewrite He; reflexivity|]. split; [done|]. split; [|done..].
  exists (bp ++ [(a, n)]), ((a, n * PAGE_SIZE) :: rs). split_and!; [|done|].
  - by rewrite <-app_assoc.
  - rewrite Hrs, fmap_app. cbn. unfold page_region at 3. cbn. solve_Permutation.
Qed.

Lemma expand_heap_ok lo sz g added live pages l :
  global_inv lo sz g added live pages →
  ∃ r g', expand_heap l g = (r, g') ∧ global_inv lo sz g' added live pages ∧
    ((r = Ok tt ∧ (free_pages g' < free_pages g)%nat) ∨ ∃ e, r = Err e).
Proof.
  intros HI. destruct (gi_split _ _ _ _ _ _ HI) as (bp&rs&_&Hb&_). destruct (byte_total_ok _ _ _ Hb) as (old&Ho).
  unfold expand_heap. erewrite M_bind_ok by (unfold on_balloc; rewrite Ho; by destruct g).
  destruct (expand_size_ok old l) as [_ Hmod]. cbv zeta. set (e := expand_size old l) in *.
  assert (e / PAGE_SIZE * PAGE_SIZE = e) as Hdiv by (unfold PAGE_SIZE in *; Z.div_mod_to_equations; lia).
  destruct (global_alloc_pages_ok _ _ _ _ _ _ (e / PAGE_SIZE) PAGE_SIZE HI) as (r&g1&Hr&Hc).
  destruct r as [a|er| |]; [|erewrite M_bind_err by exact Hr; by eauto 10|done..].
  erewrite M_bind_ok by exact Hr. destruct Hc as [HI1 Hlt].
  destruct (give_pages_ok _ _ _ _ _ _ _ _ HI1) as (g2&Hg&Hp&HI2). rewrite Hdiv in Hg.
  exists (Ok tt), g2. split_and!; [done..|]. left. split; [done|]. unfold free_pages in *. by rewrite Hp.
Qed.

(** The loop ends: each turn takes a page. *)
Lemma global_alloc_ok lo sz added live pages l fuel :
  layout_ok l → ∀ g, global_inv lo sz g added live pages → (free_pages g < fuel)%nat →
  ∃ r g', global_alloc fuel l g = (r, g') ∧
    ((∃ p, r = Ok p ∧ global_inv lo sz g' added ((p, l) :: live) pages) ∨
     (∃ e, r = Err e) ∧ global_inv lo sz g' added live pages).
Proof.
  intros Hl. induction fuel as [|fuel IH]; [lia|]. intros g HI Hf. cbn [global_alloc].
  destruct HI as [(bp&rs&HP&Hb&Hrs) Ha Hm].
  assert (∀ b' live', byte_reach rs b' live' →
    global_inv lo sz {| balloc := b'; palloc := palloc g |} added live' pages) as Hinv.
  { intros b' live' Hb'. split; [|done..]. by exists bp, rs. }
  destruct (byte_alloc_ok rs (balloc g) live l Hb Hl) as [(p&b'&He&Hb')|(b'&He&Hb')].
  - erewrite M_bind_ok by (unfold try_balloc, on_balloc; rewrite He; reflexivity).
    eexists _, _. split; [reflexivity|]. left. eauto.
  - erewrite M_bind_ok by (unfold try_balloc, on_balloc; rewrite He; reflexivity). cbv iota.
    destruct (expand_heap_ok lo sz _ added live pages l (Hinv _ _ Hb')) as (r&g'&Hx&HI'&[[-> Hlt]|[e ->]]).
    + erewrite M_bind_ok by exact Hx. apply IH; [done|]. unfold free_pages in *. cbn in *. lia.
    + erewrite M_bind_err by exact Hx. eexists _, _. split; [reflexivity|]. right. eauto.
Qed.

Lemma global_dealloc_ok lo sz g added live live' pages p l :
  global_inv lo sz g added live pages → live ≡ₚ (p, l) :: live' →
  ∃ g', global_dealloc p l g = (Ok tt, g') ∧ global_inv lo sz g' added live' pages.
Proof.
  intros [(bp&rs&HP&Hb&Hrs) Ha Hm] Hp. destruct (byte_dealloc_ok _ _ _ _ _ _ Hb Hp) as (b'&He&Hb').
  eexists. split; [unfold global_dealloc, on_balloc; rewrite He; reflexivity|]. split; [|done..]. by exists bp, rs.
Qed.

Lemma global_dealloc_pages_ok lo sz g added live pages pages' p n :
  global_inv lo sz g added live pages → pages ≡ₚ (p, n) :: pages' →
  ∃ g', global_dealloc_pages p n g = (Ok tt, g') ∧ global_inv lo sz g' added live pages'.
Proof.
  intros [(bp&rs&HP&Hb&Hrs) Ha Hm] Hp.
  destruct (pa_dealloc_pages_ok (palloc g) (bp ++ pages) (bp ++ pages') p n HP) as (s'&He&Hbase&Htot&HP'&_).
  { rewrite Hp. symmetry. apply Permutation_middle. }
  eexists. split; [unfold global_dealloc_pages, on_palloc; rewrite He; reflexivity|].
  split; [by exists bp, rs|done|]. unfold managed in *. cbn. by rewrite Hbase, Htot.
Qed.

Lemma global_add_memory_ok lo sz g added live pages a n :
  global_inv lo sz g added live pages → 0 < a → a mod 4096 = 0 → 4096 ≤ n → n mod 4096 = 0 → a + n < 2 ^ 64 →
  Forall (disj (a, n)) ((lo, sz) :: added) →
  ∃ g', global_add_memory a n g = (Ok tt, g') ∧ global_inv lo sz g' ((a, n) :: added) live pages.
Proof.
  intros [(bp&rs&HP&Hb&Hrs) Ha Hm] H0 Ham Hn Hnm Hlt [Hd1 Hd]%Forall_cons.
  assert (Forall (disj (a, n)) rs) as Hdr.
  { rewrite Hrs. apply Forall_app. split; [|done]. apply Forall_fmap. pose proof (pv_live _ _ HP) as Hl.
    apply Forall_app in Hl as [Hl _]. eapply Forall_impl; [exact Hl|]. intros x Hx%page_live_sub.
    apply (disj_sub _ (a, n) _ (lo, sz)); [by unfold subregion| |done].
    unfold subregion, managed in *; cbn in *; lia. }
  destruct (byte_add_ok rs (balloc g) live a n Hb) as (b'&He&Hb'); [done..|].
  eexists. split; [unfold global_add_memory, on_balloc; rewrite He; reflexivity|].
  split; [|by apply Forall_cons; split; [apply disj_sym|]|done]. exists bp, ((a, n) :: rs). split_and!; [done..|].
  rewrite Hrs. apply Permutation_middle.
Qed.

(** [init], when there are eight pages in a row. *)
Lemma global_init_ok lo sz g :
  0 < lo → lo + sz < 2 ^ 64 → sz ≤ BIT_CAP * PAGE_SIZE → global_init lo sz global_new = (Ok tt, g) →
  global_inv lo sz g [] [] [].
Proof.
  intros Hlo Hlt Hcap. unfold global_init. intros (?&?&Ha&Hk)%M_bind_ok_inv. unfold assert_ in Ha.
  destruct (_ <? _) eqn:E in Ha; [|done]. bool_to_prop. injection Ha as _ <-.
  destruct (pa_init_ok (A:=A) lo sz) as (s&Hs&HI&Hb&He&_); [done|unfold ALLOC_MIN_HEAP_SIZE, PAGE_SIZE in *; lia|done..|].
  erewrite M_bind_ok in Hk by (unfold on_palloc; cbn [palloc global_new]; rewrite Hs; reflexivity).
  apply M_bind_ok_inv in Hk as (hp&g1&Hp&Hk).
  destruct (pa_alloc_pages_ok s [] (ALLOC_MIN_HEAP_SIZE / PAGE_SIZE) PAGE_SIZE HI) as (r&s'&Hr&Hbase&Htot&Hc).
  unfold unwrap_alloc, global_alloc_pages, on_palloc in Hp. cbn [palloc balloc global_new] in Hp. rewrite Hr in Hp.
  destruct r as [a| | |]; [|done..]. injection Hp as <- <-. destruct Hc as [HI' _].
  destruct (page_live_aligned _ _ (a, 8) HI') as (Ha0&Ham&_&Hal); [by left|]. cbn in *.
  destruct (byte_init_ok a 0x8000) as (b&Hbi&Hreach); [done..|].
  unfold on_balloc in Hk. cbn in Hk. unfold ALLOC_MIN_HEAP_SIZE in Hk. rewrite Hbi in Hk. injection Hk as <-.
  split; [by exists [(a, 8)], [(a, 0x8000)]|done|]. unfold subregion, managed. cbn. rewrite Hbase, Htot. lia.
Qed.

(** The memory of the byte allocator was given to [init] or added, and no client holds it
    as pages. *)
Lemma byte_regions lo sz g added live pages :
  global_inv lo sz g added live pages →
  ∃ bpages rs, pa_inv (palloc g) (bpages ++ pages) ∧ byte_reach rs (balloc g) live ∧
    rs ≡ₚ (page_region <$> bpages) ++ added ∧ ∀ a, in_regions rs a → in_regions ((lo, sz) :: added) a ∧ ∀ y, y ∈ pages → ¬ contains (page_region y) a.
Proof.
  intros [(bp&rs&HP&Hb&Hrs) Ha Hm]. exists bp, rs. do 3 (split; [done|]). intros a (r&Hr&Hra). rewrite Hrs in Hr.
  pose proof (pv_live _ _ HP) as Hl. rewrite Forall_forall in Hl.
  assert (∀ y, y ∈ bp ++ pages → subregion (page_region y) (lo, sz)) as Hsub.
  { intros y Hy. pose proof (page_live_sub _ y (Hl y Hy)). unfold subregion, managed in *. cbn in *. lia. }
  rewrite in_regions_cons. apply elem_of_app in Hr as [Hr|Hr].
  - pose proof (pv_disj _ _ HP) as Hdj. rewrite fmap_app in Hdj. apply disjoint_list_app in Hdj as (_&_&Hdj). split.
    + left. apply list_elem_of_fmap in Hr as (y&->&Hy). specialize (Hsub y ltac:(set_solver)).
      unfold subregion, contains in *. lia.
    + intros y Hy. specialize (Hdj r (page_region y) Hr ltac:(by apply list_elem_of_fmap_2)).
      unfold disj, contains in *. lia.
  - split; [right; by exists r|]. intros y Hy. rewrite Forall_forall in Ha. specialize (Ha r Hr).
    specialize (Hsub y ltac:(set_solver)). unfold disj, subregion, contains in *. cbn in *. lia.
Qed.

Lemma global_write_ok lo sz g added live pages P b' :
  global_inv lo sz g added live pages → byte_write P (balloc g) b' →
  (∀ a, P a → (∃ x, x ∈ live ∧ contains (region x) a) ∨ (∃ y, y ∈ pages ∧ contains (page_region y) a) ∨
     ¬ in_regions ((lo, sz) :: added) a) →
  global_inv lo sz {| balloc := b'; palloc := palloc g |} added live pages.
Proof.
  intros HI Hw HP. destruct (byte_regions _ _ _ _ _ _ HI) as (bp&rs&Hp&Hb&Hrs&Hreg).
  split; [|apply HI|apply HI]. exists bp, rs. split_and!; try done.
  eapply byte_write_ok; [done..|]. intros a [?|[(y&Hy&Hc)|Hn]]%HP; [by left|right..].
  - intros [_ Hno]%Hreg. by eapply Hno.
  - by intros [? _]%Hreg.
Qed.
End invariant.

(** ** Reachable allocators *)

Section reach.
Context {S A : Type} `{HBA : ByteAllocator S} `{HBS : !ByteAllocatorSpec S}.
Context `{HA : BitAlloc A} `{HAS : !BitAllocSpec A}.
Implicit Types (g : GlobalAllocator S A) (added pages : list (Z * Z)) (live : list (Z * Layout)).

(** An allocator that was initialized and used as its documentation demands; clients
    write their allocations, their pages, and memory that was never given to it. *)
Inductive global_reach (lo sz : Z) :
  GlobalAllocator S A → list (Z * Z) → list (Z * Layout) → list (Z * Z) → Prop :=
| greach_init g :
    0 < lo → lo + sz < 2 ^ 64 → sz ≤ BIT_CAP * PAGE_SIZE → global_init lo sz global_new = (Ok tt, g) →
    global_reach lo sz g [] [] []
| greach_add g added live pages a n g' :
    global_reach lo sz g added live pages →
    0 < a → a mod 4096 = 0 → 4096 ≤ n → n mod 4096 = 0 → a + n < 2 ^ 64 →
    Forall (disj (a, n)) ((lo, sz) :: added) → global_add_memory a n g = (Ok tt, g') →
    global_reach lo sz g' ((a, n) :: added) live pages
| greach_alloc g added live pages fuel l p g' :
    global_reach lo sz g added live pages → layout_ok l → global_alloc fuel l g = (Ok p, g') →
    global_reach lo sz g' added ((p, l) :: live) pages
| greach_alloc_err g added live pages fuel l e g' :
    global_reach lo sz g added live pages → layout_ok l → global_alloc fuel l g = (Err e, g') →
    global_reach lo sz g' added live pages
| greach_dealloc g added live live' pages p l g' :
    global_reach lo sz g added live pages → live ≡ₚ (p, l) :: live' → global_dealloc p l g = (Ok tt, g') →
    global_reach lo sz g' added live' pages
| greach_alloc_pages g added live pages n align a g' :
    global_reach lo sz g added live pages → global_alloc_pages n align g = (Ok a, g') →
    global_reach lo sz g' added live ((a, n) :: pages)
| greach_alloc_pages_err g added live pages n align e g' :
    global_reach lo sz g added live pages → global_alloc_pages n align g = (Err e, g') →
    global_reach lo sz g' added live pages
| greach_dealloc_pages g added live pages pages' p n g' :
    global_reach lo sz g added live pages → pages ≡ₚ (p, n) :: pages' → global_dealloc_pages p n g = (Ok tt, g') →
    global_reach lo sz g' added live pages'
| greach_write g added live pages P b' :
    global_reach lo sz g added live pages → byte_write P (balloc g) b' →
    (∀ a, P a → (∃ x, x ∈ live ∧ contains (region x) a) ∨ (∃ y, y ∈ pages ∧ contains (page_region y) a) ∨
       ¬ in_regions ((lo, sz) :: added) a) →
    global_reach lo sz {| balloc := b'; palloc := palloc g |} added live pages.

(** The outcome of [alloc] does not depend on the fuel when there is one. *)
Lemma global_alloc_fuel fuel fuel' l g r g' :
  (fuel ≤ fuel')%nat → global_alloc fuel l g = (r, g') → r ≠ OutOfFuel → global_alloc fuel' l g = (r, g').
Proof.
  revert fuel' g. induction fuel as [|fuel IH]; intros fuel' g Hle; cbn; [by intros [= <- _]|].
  destruct fuel' as [|fuel']; [lia|]. cbn. unfold mbind, M_bind.
  destruct (try_balloc l g) as [[[p|]| | |] g1]; try done.
  destruct (expand_heap l g1) as [[[]| | |] g2]; try done. intros. apply IH; [lia|done..].
Qed.

Lemma global_alloc_result lo sz g added live pages fuel l r g' :
  global_inv lo sz g added live pages → layout_ok l → global_alloc fuel l g = (r, g') → r ≠ OutOfFuel →
  (∃ p, r = Ok p ∧ global_inv lo sz g' added ((p, l) :: live) pages) ∨
  (∃ e, r = Err e) ∧ global_inv lo sz g' added live pages.
Proof.
  intros HI Hl He Hr. set (n := Datatypes.S (Nat.max fuel (free_pages g))).
  destruct (global_alloc_ok lo sz added live pages l n Hl g HI) as (r'&g2&He'&Hc); [lia|].
  apply (global_alloc_fuel _ n) in He; [|lia|done]. rewrite He in He'. by injection He' as <- <-.
Qed.

Lemma global_reach_inv lo sz g added live pages :
  global_reach lo sz g added live pages → global_inv lo sz g added live pages.
Proof.
  induction 1 as [g H0 Hlt Hcap Hi|g added live pages a n g' _ HI H0 Ham Hn Hnm Hlt Hd He
    |g added live pages fuel l p g' _ HI Hl He|g added live pages fuel l e g' _ HI Hl He
    |g added live live' pages p l g' _ HI Hp He|g added live pages n align a g' _ HI He
    |g added live pages n align e g' _ HI He|g added live pages pages' p n g' _ HI Hp He
    |g added live pages P b' _ HI Hw HP].
  - by apply global_init_ok.
  - destruct (global_add_memory_ok _ _ _ _ _ _ a n HI) as (?&He'&?); [done..|].
    rewrite He in He'. by simplify_eq.
  - destruct (global_alloc_result _ _ _ _ _ _ _ _ _ _ HI Hl He) as [(?&[= <-]&?)|[[??]?]]; done.
  - destruct (global_alloc_result _ _ _ _ _ _ _ _ _ _ HI Hl He) as [(?&?&?)|[[??]?]]; done.
  - destruct (global_dealloc_ok _ _ _ _ _ _ _ _ _ HI Hp) as (?&He'&?). rewrite He in He'. by simplify_eq.
  - destruct (global_alloc_pages_ok _ _ _ _ _ _ n align HI) as (?&?&He'&?). rewrite He in He'. simplify_eq. tauto.
  - destruct (global_alloc_pages_ok _ _ _ _ _ _ n align HI) as (?&?&He'&?). rewrite He in He'. by simplify_eq.
  - destruct (global_dealloc_pages_ok _ _ _ _ _ _ _ _ _ HI Hp) as (?&He'&?). rewrite He in He'. by simplify_eq.
  - by eapply global_write_ok.
Qed.

Lemma free_pages_bound lo sz g added live pages :
  global_inv lo sz g added live pages → Z.of_nat (free_pages g) ≤ BIT_CAP.
Proof.
  intros [(bp&rs&HP&_&_) _ _]. pose proof (pv_total _ _ HP) as Ht. unfold free_pages.
  assert (bit_free (pa_inner (palloc g)) ⊆ list_to_set (seqZ 0 (pa_total_pages (palloc g)))) as Hs%subseteq_size.
  { intros i Hi%(pv_free _ _ HP). apply elem_of_list_to_set, elem_of_seqZ. lia. }
  rewrite size_list_to_set, length_seqZ in Hs by apply NoDup_seqZ. lia.
Qed.

(** C2: The global allocator is safe, whichever byte allocator it uses.  Over any sequence
    of calls and client writes: live byte allocations do not overlap, lie in the memory
    given to the allocator, are not null and are aligned, where only an allocation of at most
    4096 bytes that asks for an alignment above 4096 may not be (the slab allocator ignores the
    alignment there, [well_placed]); page allocations do not overlap,
    are page-aligned and lie in the memory of [init]; no address belongs to a byte
    allocation and to a page allocation.  Every [alloc] ends, after at most one turn for
    each page of the bitmap, with an allocation or an error; deallocations and page
    operations never panic. *)
Theorem global_allocator_safe lo sz g added live pages :
  global_reach lo sz g added live pages →
  disjoint_list (region <$> live) ∧ Forall (well_placed ((lo, sz) :: added)) live ∧
  disjoint_list (page_region <$> pages) ∧
  Forall (λ y, subregion (page_region y) (lo, sz) ∧ y.1 mod PAGE_SIZE = 0 ∧ 0 < y.2) pages ∧
  (∀ x y a, x ∈ live → y ∈ pages → contains (region x) a → ¬ contains (page_region y) a) ∧
  (∀ l fuel, layout_ok l → BIT_CAP < Z.of_nat fuel →
     ∃ r g', global_alloc fuel l g = (r, g') ∧ ((∃ p, r = Ok p) ∨ ∃ e, r = Err e)) ∧
  (∀ p l, (p, l) ∈ live → ∃ g', global_dealloc p l g = (Ok tt, g')) ∧
  (∀ n align, ∃ r g', global_alloc_pages n align g = (r, g') ∧ ((∃ a, r = Ok a) ∨ ∃ e, r = Err e)) ∧
  (∀ p n, (p, n) ∈ pages → ∃ g', global_dealloc_pages p n g = (Ok tt, g')).
Proof.
  intros HI%global_reach_inv. destruct (byte_regions _ _ _ _ _ _ HI) as (bp&rs&HP&Hb&Hrs&Hreg).
  destruct (byte_live _ _ _ Hb) as [Hd Hw]. rewrite Forall_forall in Hw. split_and!; try done.
  - apply Forall_forall. intros x Hx. destruct (Hw x Hx) as (H0&Hin&Hal). split_and!; try done.
    intros a Ha. by apply Hreg, Hin.
  - pose proof (pv_disj _ _ HP) as Hdj. rewrite fmap_app in Hdj. by apply disjoint_list_app in Hdj as (_&?&_).
  - pose proof (pv_live _ _ HP) as Hl. rewrite Forall_forall in Hl. apply Forall_forall. intros y Hy.
    destruct (page_live_aligned _ _ y HP) as (_&Hm&Hn&_); [set_solver|]. split_and!; [|done..].
    pose proof (page_live_sub _ y (Hl y ltac:(set_solver))). pose proof (gi_managed _ _ _ _ _ _ HI).
    unfold subregion, managed in *. cbn in *. lia.
  - intros x y a Hx Hy Hc. destruct (Hw x Hx) as (_&Hin&_). by apply Hreg; [apply Hin|].
  - intros l fuel Hl Hf. pose proof (free_pages_bound _ _ _ _ _ _ HI).
    destruct (global_alloc_ok lo sz added live pages l fuel Hl g HI) as (r&g'&He&Hc); [lia|].
    exists r, g'. split; [done|]. destruct Hc as [(p&->&_)|[? _]]; eauto.
  - intros p l [live' Hp]%elem_of_Permutation. destruct (global_dealloc_ok _ _ _ _ _ _ _ _ _ HI Hp) as (?&?&_). eauto.
  - intros n align. destruct (global_alloc_pages_ok _ _ _ _ _ _ n align HI) as (r&g'&He&Hc).
    exists r, g'. split; [done|]. destruct r; [|eauto|done..]. eauto.
  - intros p n [pages' Hp]%elem_of_Permutation.
    destruct (global_dealloc_pages_ok _ _ _ _ _ _ _ _ _ HI Hp) as (?&?&_). eauto.
Qed.
End reach.

(** ** Pages filled with zero *)

Section pages.
Context {S A : Type} `{HBA : ByteAllocator S} `{HBS : !ByteAllocatorSpec S}.
Context `{HA : BitAlloc A} `{HAS : !BitAllocSpec A}.

Lemma write_bytes_lookup a b n m i :
  write_bytes a b n m !! i = if decide (a ≤ i < a + n) then Some b else m !! i.
Proof.
  unfold write_bytes. case_decide as Hi.
  - apply elem_of_seqZ in Hi. induction (seqZ a n) as [|x l IH]; [by apply not_elem_of_nil in Hi|]. cbn.
    destruct (decide (x = i)) as [->|Hne]; [by rewrite lookup_insert_eq|]. rewrite lookup_insert_ne by done.
    apply IH. apply elem_of_cons in Hi as [?|?]; [congruence|done].
  - rewrite <-elem_of_seqZ in Hi. induction (seqZ a n) as [|x l IH]; [done|]. cbn.
    apply not_elem_of_cons in Hi as [Hx Hi]. rewrite lookup_insert_ne by done. by apply IH.
Qed.

Lemma filled_slice a b n m :
  (λ i, write_bytes a b n m !! i) <$> seqZ a n = replicate (Z.to_nat n) (Some b).
Proof.
  apply list_eq. intros i. rewrite list_lookup_fmap. destruct (decide (Z.of_nat i < n)) as [Hi|Hi].
  - rewrite lookup_seqZ_lt, lookup_replicate_2 by lia. cbn [fmap option_fmap option_map]. f_equal.
    rewrite write_bytes_lookup, decide_True by lia. done.
  - rewrite lookup_seqZ_ge by lia. symmetry. apply lookup_ge_None_2. rewrite length_replicate. lia.
Qed.

(** A page from [alloc_zero] reads as zero, and the rest of the memory is as before. *)
Lemma alloc_zero_ok (s : PageSt S A) lo sz added live pages :
  global_inv lo sz (ps_alloc s) added live pages →
  ∃ r s', GlobalPage_alloc_zero s = (r, s') ∧
    match r with
    | Ok p => global_inv lo sz (ps_alloc s') added live ((page_start p, 1) :: pages) ∧
        GlobalPage_as_slice p (ps_mem s') = replicate (Z.to_nat PAGE_SIZE) (Some 0) ∧
        ∀ a, ¬ contains (page_region (page_start p, 1)) a → ps_mem s' !! a = ps_mem s !! a
    | Err e => global_inv lo sz (ps_alloc s') added live pages ∧ ps_mem s' = ps_mem s
    | _ => False
    end.
Proof.
  intros HI. unfold GlobalPage_alloc_zero, GlobalPage_alloc.
  destruct (global_alloc_pages_ok _ _ _ _ _ _ 1 PAGE_SIZE HI) as (r&g&He&Hc).
  destruct r as [a|e| |]; [| |done..].
  - eexists _, _. split.
    { erewrite M_bind_ok; [|erewrite M_bind_ok by (unfold on_global; rewrite He; reflexivity); reflexivity].
      reflexivity. }
    cbn [ps_alloc ps_mem page_start page_count]. split_and!; [apply Hc| |].
    + apply (filled_slice a 0 PAGE_SIZE).
    + intros i Hi. rewrite write_bytes_lookup, decide_False; [done|exact Hi].
  - exists (Err (alloc_err_to_ax_err e)), {| ps_alloc := g; ps_mem := ps_mem s |}. split; [|done].
    erewrite M_bind_err; [reflexivity|]. erewrite M_bind_err; [reflexivity|]. unfold on_global. by rewrite He.
Qed.
End pages.

(** ** Example run *)

Lemma layout_100_ok : layout_ok {| lsize := 100; lalign := 8 |}.
Proof. split; [done|]. split; [by exists 3|done]. Qed.

(** The slab allocator on 16 pages: an allocation of 100 bytes, and two pages. *)
Lemma global_allocator_safe_witness :
  ∃ (g : GlobalAllocator (SlabByteAllocator Bump) (gset Z)) p q,
    global_reach 0x10000 0x10000 g [] [(p, {| lsize := 100; lalign := 8 |})] [(q, 2)] ∧
    ∀ a, contains (p, 100) a → ¬ contains (q, 0x2000) a.
Proof.
  assert (∃ g0 g1 g2 p q,
    global_init (S:=SlabByteAllocator Bump) (A:=gset Z) 0x10000 0x10000 global_new = (Ok tt, g0) ∧
    global_alloc 3 {| lsize := 100; lalign := 8 |} g0 = (Ok p, g1) ∧
    global_alloc_pages 2 PAGE_SIZE g1 = (Ok q, g2)) as (g0&g1&g2&p&q&H0&H1&H2).
  { do 5 eexists. split; [vm_compute; reflexivity|]. split; [vm_compute; reflexivity|]. vm_compute. reflexivity. }
  assert (global_reach 0x10000 0x10000 g2 [] [(p, {| lsize := 100; lalign := 8 |})] [(q, 2)]) as Hr.
  { refine (greach_alloc_pages _ _ g1 _ _ _ _ _ _ _ _ H2).
    refine (greach_alloc _ _ g0 _ _ _ _ _ _ _ _ layout_100_ok H1).
    refine (greach_init _ _ _ _ _ _ H0); done. }
  exists g2, p, q. split; [done|]. intros a. destruct (global_allocator_safe _ _ _ _ _ _ Hr) as (_&_&_&_&Hd&_).
  apply (Hd (p, {| lsize := 100; lalign := 8 |}) (q, 2)); by left.
Defined.
