(* ===== verification/VfsProps.v ===== *)
(** * Correctness of the node store

    Every operation of the file systems keeps the store well formed: each node's
    strong count is the number of references to it, every reference is to a node in
    the store, and directories are ordered maps.  The path operations are compared
    with a walk over the components of the path. *)

From Stdlib Require Import ZArith Lia.
From stdpp Require Import base decidable numbers gmap functions sets list.
From S2P Require Import Prelude Containers LinkedList Path Vfs.

Local Open Scope Z_scope.

(** ** References in the store *)

Definition refs (i : Inode) : list nid := (children_of (ino i)).*2.

Lemma all_children_insert (st : Store) n i :
  st !! n = None → all_children (<[n := i]> st) ≡ₚ refs i ++ all_children st.
Proof. intros Hn. unfold all_children. by rewrite map_to_list_insert. Qed.

Lemma all_children_delete (st : Store) n i :
  st !! n = Some i → all_children st ≡ₚ refs i ++ all_children (delete n st).
Proof.
  intros Hn. rewrite <-(insert_delete_id st n i Hn) at 1.
  by rewrite all_children_insert by apply lookup_delete_eq.
Qed.

Lemma all_children_update (st : Store) n i :
  all_children (<[n := i]> st) ≡ₚ refs i ++ all_children (delete n st).
Proof. rewrite <-insert_delete_eq. by rewrite all_children_insert by apply lookup_delete_eq. Qed.

Lemma elem_of_all_children (st : Store) n i c : st !! n = Some i → c ∈ refs i → c ∈ all_children st.
Proof. intros Hn Hc. rewrite (all_children_delete _ _ _ Hn). set_solver. Qed.

(** ** Well-formed stores

    [H] counts the references held outside of the store. *)

Record fs_wf (st : Store) (H : nid → Z) : Prop := {
  fw_count n i : st !! n = Some i → strong i = occ n (all_children st) + H n ∧ 1 ≤ strong i;
  fw_child n : n ∈ all_children st → is_Some (st !! n);
  fw_handle n : 0 ≤ H n ∧ (1 ≤ H n → is_Some (st !! n));
  fw_sorted n i : st !! n = Some i → bt_sorted (children_of (ino i));
  fw_ram n s p ch c : st !! n = Some {| ino := RamDir p ch; strong := s |} → c ∈ ch.*2 →
    ∃ i, st !! c = Some i ∧ match ino i with RamFile _ | RamDir _ _ => True | _ => False end;
}.

(** One more reference to a node. *)
Definition plus (n : nid) (k : Z) (H : nid → Z) : nid → Z := λ m, H m + k * b2z (n = m).

(** What a directory may refer to. *)
Definition may_hold (st : Store) (x : Node) (c : nid) : Prop :=
  match x with
  | RamDir _ _ =>
      ∃ j, st !! c = Some j ∧ match ino j with RamFile _ | RamDir _ _ => True | _ => False end
  | _ => is_Some (st !! c)
  end.
Definition same_kind (x y : Node) : Prop :=
  match x, y with
  | RamDir _ _, RamDir _ _ | RamFile _, RamFile _ | DevDir _ _, DevDir _ _ => True
  | _, _ => False
  end.

Lemma may_hold_is_Some st x c : may_hold st x c → is_Some (st !! c).
Proof. destruct x; [intros (j&->&_); eauto|auto..]. Qed.

(** A node is replaced by one of its kind; references move between it and the
    outside. *)
Lemma fs_wf_set st H H' n i x :
  fs_wf st H → st !! n = Some i → same_kind (ino i) x → bt_sorted (children_of x) →
  (∀ c, c ∈ (children_of x).*2 → may_hold st x c) →
  (∀ m, occ m (children_of x).*2 + H' m = occ m (refs i) + H m) →
  (∀ m, 0 ≤ H' m ∧ (1 ≤ H' m → is_Some (st !! m))) →
  fs_wf (<[n := {| ino := x; strong := strong i |}]> st) H'.
Proof.
  intros HW Hn Hk Hs Hc Ho HH. set (i' := {| ino := x; strong := strong i |}).
  pose proof (all_children_update st n i') as HA. pose proof (all_children_delete st n i Hn) as HB.
  assert (∀ m, is_Some (st !! m) → is_Some (<[n := i']> st !! m)) as Hin.
  { intros m Hm. destruct (decide (n = m)) as [<-|Hne]; simplify_map_eq; eauto. }
  assert (∀ m, occ m (all_children (<[n := i']> st)) + H' m = occ m (all_children st) + H m) as Hocc.
  { intros m. rewrite HA, HB, !occ_app. specialize (Ho m). unfold refs at 1. simpl. lia. }
  split.
  - intros m j Hj. rewrite Hocc. apply lookup_insert_Some in Hj as [[<- <-]|[Hne Hj]]; [exact (fw_count _ _ HW n i Hn)|by apply HW].
  - intros m Hm. rewrite HA in Hm. apply Hin. apply elem_of_app in Hm as [Hm|Hm].
    + by eapply may_hold_is_Some, Hc.
    + apply HW. rewrite HB. set_solver.
  - intros m. destruct (HH m). auto.
  - intros m j Hj. apply lookup_insert_Some in Hj as [[<- <-]|[Hne Hj]]; [done|by eapply HW].
  - intros m s p ch c Hm Hch.
    assert (∃ j, st !! c = Some j ∧ match ino j with RamFile _ | RamDir _ _ => True | _ => False end)
      as (j&Hj&Hr).
    { apply lookup_insert_Some in Hm as [[<- Hi]|[Hne Hm]]; [|by eapply (fw_ram _ _ HW)].
      injection Hi as -> _. by apply Hc. }
    destruct (decide (n = c)) as [<-|Hne]; simplify_map_eq; [|eauto].
    eexists. split; [done|]. simpl. destruct (ino i), x; done.
Qed.

(** A change of a node that keeps its references. *)
Lemma fs_wf_update st H n i x :
  fs_wf st H → st !! n = Some i → children_of x = children_of (ino i) → same_kind (ino i) x →
  fs_wf (<[n := {| ino := x; strong := strong i |}]> st) H.
Proof.
  intros HW Hn Hx Hk. apply (fs_wf_set _ H); try done.
  - rewrite Hx. by eapply HW.
  - intros c Hc. rewrite Hx in Hc. destruct x; simpl; try (apply HW; by eapply elem_of_all_children).
    destruct i as [[] si]; try done. simpl in *. by eapply (fw_ram _ _ HW).
  - intros m. unfold refs. by rewrite Hx.
  - apply HW.
Qed.

(** A new node. *)
Lemma fs_wf_new st H n x k :
  fs_wf st H → st !! n = None → children_of x = [] → 1 ≤ k →
  fs_wf (<[n := {| ino := x; strong := k |}]> st) (plus n k H).
Proof.
  intros HW Hn Hx Hk. unfold plus.
  assert (all_children (<[n := {| ino := x; strong := k |}]> st) ≡ₚ all_children st) as HA.
  { rewrite all_children_insert by done. unfold refs. simpl. by rewrite Hx. }
  assert (occ n (all_children st) = 0) as Hon.
  { pose proof (occ_nonneg n (all_children st)). destruct (decide (n ∈ all_children st)) as [Hin|Hin].
    - destruct (fw_child _ _ HW n Hin). congruence.
    - rewrite occ_pos in Hin. lia. }
  assert (H n = 0) as HHn.
  { destruct (fw_handle _ _ HW n) as [? Hh]. destruct (decide (1 ≤ H n)); [|lia].
    destruct Hh; [done|congruence]. }
  assert (∀ m, is_Some (st !! m) → is_Some (<[n := {| ino := x; strong := k |}]> st !! m)) as Hin.
  { intros m Hm. destruct (decide (n = m)) as [<-|Hne]; simplify_map_eq; eauto. }
  split.
  - intros m j Hj. rewrite HA. apply lookup_insert_Some in Hj as [[<- <-]|[Hne Hj]]; simpl.
    + rewrite b2z_true by done. lia.
    + rewrite b2z_false by done. destruct (fw_count _ _ HW m j Hj). lia.
  - intros m Hm. rewrite HA in Hm. by apply Hin, HW.
  - intros m. destruct (fw_handle _ _ HW m). destruct (decide (n = m)) as [<-|Hne].
    + rewrite b2z_true by done. split; [lia|]. intros _. simplify_map_eq. eauto.
    + rewrite b2z_false by done. split; [lia|]. intros ?. apply Hin. auto with lia.
  - intros m j Hj. apply lookup_insert_Some in Hj as [[<- <-]|[Hne Hj]]; simpl; [rewrite Hx; constructor|].
    by eapply HW.
  - intros m s p ch c Hm Hc. apply lookup_insert_Some in Hm as [[<- Hi]|[Hne Hm]].
    + injection Hi as -> _. simpl in Hx. subst. by apply not_elem_of_nil in Hc.
    + destruct (fw_ram _ _ HW _ _ _ _ _ Hm Hc) as (j&Hj&Hr). exists j. split; [|done].
      rewrite lookup_insert_ne; [done|]. congruence.
Qed.

Lemma fs_wf_ext st H H' : (∀ n, H n = H' n) → fs_wf st H → fs_wf st H'.
Proof.
  intros He HW. split; intros; rewrite <-?He in *; try by eapply HW.
Qed.

(** A change of the references held outside. *)
Lemma fs_wf_strong st H n i k :
  fs_wf st H → st !! n = Some i → 1 ≤ strong i + k → 0 ≤ H n + k →
  fs_wf (<[n := {| ino := ino i; strong := strong i + k |}]> st) (plus n k H).
Proof.
  intros HW Hn Hs Hk.
  assert (all_children (<[n := {| ino := ino i; strong := strong i + k |}]> st) ≡ₚ all_children st) as HA.
  { by rewrite all_children_update, (all_children_delete st n i Hn). }
  assert (∀ m, is_Some (st !! m) → is_Some (<[n := {| ino := ino i; strong := strong i + k |}]> st !! m)) as Hin.
  { intros m Hm. destruct (decide (n = m)) as [<-|Hne]; simplify_map_eq; eauto. }
  unfold plus. split.
  - intros m j Hj. rewrite HA. apply lookup_insert_Some in Hj as [[<- <-]|[Hne Hj]]; simpl.
    + rewrite b2z_true by done. destruct (fw_count _ _ HW n i Hn). lia.
    + rewrite b2z_false by done. destruct (fw_count _ _ HW m j Hj). lia.
  - intros m Hm. rewrite HA in Hm. by apply Hin, HW.
  - intros m. destruct (fw_handle _ _ HW m). destruct (decide (n = m)) as [<-|Hne].
    + rewrite b2z_true by done. split; [lia|]. intros _. apply Hin. eauto.
    + rewrite b2z_false by done. split; [lia|]. intros ?. apply Hin. auto with lia.
  - intros m j Hj. apply lookup_insert_Some in Hj as [[<- <-]|[Hne Hj]]; simpl; by eapply HW.
  - intros m s p ch c Hm Hc.
    assert (∃ m s p, st !! m = Some {| ino := RamDir p ch; strong := s |}) as (m'&s'&p'&Hm').
    { apply lookup_insert_Some in Hm as [[<- Hi]|[Hne Hm]]; [|eauto].
      destruct i as [x si]. simpl in *. injection Hi as -> _. eauto. }
    destruct (fw_ram _ _ HW _ _ _ _ _ Hm' Hc) as (j&Hj&Hr).
    destruct (decide (n = c)) as [<-|Hne]; simplify_map_eq; eauto.
Qed.

(** References in flight. *)
Definition flight (l : list nid) (H : nid → Z) : nid → Z := λ m, H m + occ m l.

(** The last reference to a node goes: the node is freed, and what it referred to
    is in flight. *)
Lemma fs_wf_free st H n l i :
  fs_wf st (flight (n :: l) H) → (∀ m, 0 ≤ H m) → st !! n = Some i → strong i = 1 →
  fs_wf (delete n st) (flight (refs i ++ l) H).
Proof.
  intros HW HH Hn Hs. pose proof (all_children_delete _ _ _ Hn) as HA.
  destruct (fw_count _ _ HW n i Hn) as [Hc _]. unfold flight in *. simpl in Hc.
  rewrite Hs, b2z_true in Hc by done. pose proof (occ_nonneg n (all_children st)).
  pose proof (occ_nonneg n l). pose proof (HH n).
  assert (n ∉ all_children st) as Hna by (rewrite occ_pos; lia).
  assert (n ∉ refs i) as Hnr by (rewrite HA in Hna; set_solver).
  assert (∀ m, m ∈ all_children st → is_Some (delete n st !! m)) as Hin.
  { intros m Hm. rewrite lookup_delete_ne by congruence. by apply HW. }
  split.
  - intros m j [Hne Hj]%lookup_delete_Some. destruct (fw_count _ _ HW m j Hj) as [Hm ?].
    rewrite HA, occ_app in Hm. simpl in Hm. rewrite b2z_false in Hm by done. rewrite occ_app. lia.
  - intros m Hm. apply Hin. rewrite HA. set_solver.
  - intros m. rewrite occ_app. pose proof (occ_nonneg m (refs i)). pose proof (occ_nonneg m l).
    pose proof (HH m). split; [lia|]. intros Hm. destruct (decide (m ∈ refs i)) as [Hr|Hr].
    { apply Hin. rewrite HA. set_solver. }
    assert (occ m (refs i) = 0) by (rewrite occ_pos in Hr; lia).
    destruct (decide (n = m)) as [<-|Hne]; [lia|]. rewrite lookup_delete_ne by done.
    apply (fw_handle _ _ HW m). simpl. rewrite b2z_false by done. lia.
  - intros m j [Hne Hj]%lookup_delete_Some. by eapply HW.
  - intros m s p ch c [Hne Hm]%lookup_delete_Some Hch.
    destruct (fw_ram _ _ HW _ _ _ _ _ Hm Hch) as (j&Hj&Hr). exists j. split; [|done].
    rewrite lookup_delete_ne; [done|]. intros <-. apply Hna. by apply (elem_of_all_children st m _ n Hm).
Qed.

(** Nodes are freed or lose references, and nothing else changes. *)
Definition shrinks (st st' : Store) : Prop :=
  ∀ n j, st' !! n = Some j → ∃ i, st !! n = Some i ∧ ino j = ino i.

Lemma drop_loop_ok fuel l st H :
  fs_wf st (flight l H) → (∀ m, 0 ≤ H m) → (length (all_children st) + length l ≤ fuel)%nat →
  ∃ st', drop_loop fuel l st = (Ok tt, st') ∧ fs_wf st' H ∧ shrinks st st'.
Proof.
  revert l st. induction fuel as [|fuel IH]; intros l st HW HH Hf.
  { destruct l; [|simpl in Hf; lia]. exists st. split; [done|]. split; [|by intros n j; eauto].
    eapply fs_wf_ext, HW. intros n. unfold flight. simpl. lia. }
  destruct l as [|n l].
  { exists st. split; [done|]. split; [|by intros n j; eauto].
    eapply fs_wf_ext, HW. intros n. unfold flight. simpl. lia. }
  destruct (fw_handle _ _ HW n) as [_ Hn]. destruct Hn as [i Hi].
  { unfold flight. simpl. rewrite b2z_true by done. pose proof (occ_nonneg n l). pose proof (HH n). lia. }
  simpl drop_loop. erewrite M_bind_ok by (unfold get_inode, mbind, M_bind, get_state; by rewrite Hi).
  destruct (fw_count _ _ HW n i Hi) as [_ Hpos]. destruct (strong i =? 1) eqn:Hs; bool_to_prop.
  - destruct (IH (refs i ++ l) (delete n st)) as (st'&Hd&HW'&Hsh); [by apply fs_wf_free|done| |].
    { pose proof (all_children_delete _ _ _ Hi) as HA%Permutation_length.
      rewrite length_app in *. simpl in Hf. lia. }
    exists st'. split; [by erewrite M_bind_ok by reflexivity|]. split; [done|].
    intros m j Hj. destruct (Hsh m j Hj) as (i'&Hi'&?). apply lookup_delete_Some in Hi' as [_ ?]. eauto.
  - destruct (IH l (<[n := {| ino := ino i; strong := strong i + -1 |}]> st)) as (st'&Hd&HW'&Hsh).
    { eapply fs_wf_ext; [|apply (fs_wf_strong _ _ _ _ (-1) HW Hi)]; [|lia|].
      - intros m. unfold plus, flight. simpl. lia.
      - unfold flight. simpl. rewrite b2z_true by done. pose proof (occ_nonneg n l). pose proof (HH n). lia. }
    { done. }
    { assert (length (all_children (<[n := {| ino := ino i; strong := strong i + -1 |}]> st)) =
        length (all_children st)) as ->; [|simpl in Hf; lia].
      apply Permutation_length. by rewrite all_children_update, (all_children_delete st n i Hi). }
    exists st'. split; [erewrite M_bind_ok by reflexivity; exact Hd|]. split; [done|].
    intros m j Hj. destruct (Hsh m j Hj) as (i'&Hi'&He).
    apply lookup_insert_Some in Hi' as [[<- <-]|[_ ?]]; eauto.
Qed.

Lemma node_drop_ok st H n :
  fs_wf st (plus n 1 H) → (∀ m, 0 ≤ H m) →
  ∃ st', node_drop n st = (Ok tt, st') ∧ fs_wf st' H ∧ shrinks st st'.
Proof.
  intros HW HH. unfold node_drop. erewrite M_bind_ok by reflexivity.
  apply drop_loop_ok; [|done|simpl; lia].
  eapply fs_wf_ext, HW. intros m. unfold plus, flight. simpl. lia.
Qed.

(** ** Walking along the components of a path *)

Fixpoint components_loop (fuel : nat) (path : Str) : list Str :=
  match fuel with
  | O => []
  | S fuel =>
      let '(name, rest) := split_path path in
      name :: match rest with Some rest => components_loop fuel rest | None => [] end
  end.
Definition components (path : Str) : list Str := components_loop (S (length path)) path.

Definition dir_of (x : Node) : option (option nid * Children) :=
  match x with RamDir p ch | DevDir p ch => Some (p, ch) | _ => None end.

Definition step_to (st : Store) (n : nid) (p : option nid) (ch : Children) (name : Str) : option nid :=
  if is_dot name then Some n
  else if is_dotdot name then
    match p with Some q => if decide (is_Some (st !! q)) then Some q else None | None => None end
  else bt_get name ch.

Fixpoint path_walk (st : Store) (n : nid) (l : list Str) : res AxError nid :=
  match l with
  | [] => Ok n
  | name :: l =>
      match st !! n with
      | Some i =>
          match dir_of (ino i) with
          | Some (p, ch) =>
              match step_to st n p ch name with Some m => path_walk st m l | None => Err NotFound end
          | None => Err NotADirectory
          end
      | None => Panic
      end
  end.

Lemma trim_start_length s : (length (trim_start s) ≤ length s)%nat.
Proof. induction s as [|c s IH]; simpl; [done|]. split_ifs; simpl; lia. Qed.

Lemma find_slash_length s a b : find_slash s = Some (a, b) → (length b < length s)%nat.
Proof.
  revert a. induction s as [|c s IH]; intros a; simpl; [done|]. split_ifs.
  - intros [= <- <-]. lia.
  - destruct (find_slash s) as [[a' b']|] eqn:E; [|done]. intros [= <- <-].
    specialize (IH _ eq_refl). lia.
Qed.

Lemma split_path_shorter path name rest :
  split_path path = (name, Some rest) → (length rest < length path)%nat.
Proof.
  unfold split_path. destruct (find_slash (trim_start path)) as [[a b]|] eqn:E; [|done].
  intros [= <- <-]. apply find_slash_length in E. pose proof (trim_start_length path). lia.
Qed.

Section paths.
Context `{BF : Bitflags}.

Lemma get_node_ok st n i : st !! n = Some i → get_node n st = (Ok (ino i), st).
Proof.
  intros Hn. unfold get_node, get_inode, mbind, M_bind, get_state. by rewrite Hn.
Qed.

Lemma get_node_none st n : st !! n = None → get_node n st = (Panic, st).
Proof.
  intros Hn. unfold get_node, get_inode, mbind, M_bind, get_state. by rewrite Hn.
Qed.

Lemma set_node_ok st n x i :
  st !! n = Some i →
  set_node n x st = (Ok tt, <[n := {| ino := x; strong := strong i |}]> st).
Proof. intros Hn. unfold set_node, get_inode, mbind, M_bind, get_state. by rewrite Hn. Qed.

Lemma dir_step_eq st n p ch name :
  dir_step n p ch name st =
    (match step_to st n p ch name with Some m => Ok m | None => Err NotFound end, st).
Proof.
  unfold dir_step, step_to, upgrade, ok_or, mbind, M_bind, get_state.
  destruct (is_dot name); [done|]. destruct (is_dotdot name).
  - destruct p as [q|]; [|done]. simpl. by destruct (decide (is_Some (st !! q))).
  - by destruct (bt_get name ch).
Qed.

Lemma lookup_loop_walk fuel n path st :
  (length path < fuel)%nat →
  lookup_loop fuel n path st = (path_walk st n (components_loop fuel path), st).
Proof.
  revert n path. induction fuel as [|fuel IH]; intros n path Hf; [lia|].
  simpl. destruct (split_path path) as [name rest] eqn:Hsp.
  cbn [path_walk]. destruct (st !! n) as [i|] eqn:Hn.
  2: { by erewrite M_bind_panic by (by apply get_node_none). }
  erewrite M_bind_ok by (by apply get_node_ok).
  destruct (ino i) as [p ch|c|p ch| |]; simpl; try done.
  all: unfold mbind, M_bind; rewrite dir_step_eq; destruct (step_to st n p ch name) as [m|]; [|done].
  all: destruct rest as [rest|]; [|done]; apply IH; apply split_path_shorter in Hsp; lia.
Qed.

(** What [create] and [remove] do with the last component. *)
Definition create_at (n : nid) (name : Str) (ty : VfsNodeType) (new : nid) : M Store AxError unit :=
  x ← get_node n;
  match x with
  | RamDir parent children =>
      if (is_dot name || is_dotdot name)%bool then mret tt
      else create_node n parent children name ty new
  | DevDir _ _ => if (is_dot name || is_dotdot name)%bool then mret tt else throw PermissionDenied
  | _ => throw NotADirectory
  end.
Definition remove_at (n : nid) (name : Str) : M Store AxError unit :=
  x ← get_node n;
  match x with
  | RamDir parent children =>
      if (is_dot name || is_dotdot name)%bool then throw InvalidInput
      else remove_node n parent children name
  | DevDir _ _ => throw PermissionDenied
  | _ => throw NotADirectory
  end.

(** The result of a walk, followed by an operation on the node found. *)
Definition at_end {A} (r : res AxError nid) (k : nid → M Store AxError A) : M Store AxError A := λ st,
  match r with
  | Ok d => k d st
  | Err e => (Err e, st)
  | Panic => (Panic, st)
  | OutOfFuel => (OutOfFuel, st)
  end.

Lemma create_loop_walk fuel n path ty new st :
  (length path < fuel)%nat →
  ∃ ds name, components_loop fuel path = ds ++ [name] ∧
    create_loop fuel n path ty new st = at_end (path_walk st n ds) (λ d, create_at d name ty new) st.
Proof.
  revert n path. induction fuel as [|fuel IH]; intros n path Hf; [lia|].
  simpl. destruct (split_path path) as [name rest] eqn:Hsp. destruct rest as [rest|].
  - assert (length rest < fuel)%nat as Hl by (apply split_path_shorter in Hsp; lia).
    destruct (IH n rest Hl) as (ds&nm&Hc&_). exists (name :: ds), nm. split; [by rewrite Hc|].
    simpl. destruct (st !! n) as [i|] eqn:Hn.
    2: { by erewrite M_bind_panic by (by apply get_node_none). }
    erewrite M_bind_ok by (by apply get_node_ok).
    destruct (ino i) as [p ch|c|p ch| |]; simpl; try done.
    all: unfold mbind, M_bind; rewrite dir_step_eq; destruct (step_to st n p ch name) as [m|]; [|done].
    all: destruct (IH m rest Hl) as (ds'&nm'&Hc'&->); rewrite Hc in Hc';
      by apply app_inj_tail in Hc' as [-> ->].
  - exists [], name. split; [done|]. unfold at_end, create_at. simpl.
    destruct (st !! n) as [i|] eqn:Hn.
    2: { by erewrite !M_bind_panic by (by apply get_node_none). }
    erewrite !M_bind_ok by (by apply get_node_ok). by destruct (ino i).
Qed.

Lemma remove_loop_walk fuel n path st :
  (length path < fuel)%nat →
  ∃ ds name, components_loop fuel path = ds ++ [name] ∧
    remove_loop fuel n path st = at_end (path_walk st n ds) (λ d, remove_at d name) st.
Proof.
  revert n path. induction fuel as [|fuel IH]; intros n path Hf; [lia|].
  simpl. destruct (split_path path) as [name rest] eqn:Hsp. destruct rest as [rest|].
  - assert (length rest < fuel)%nat as Hl by (apply split_path_shorter in Hsp; lia).
    destruct (IH n rest Hl) as (ds&nm&Hc&_). exists (name :: ds), nm. split; [by rewrite Hc|].
    simpl. destruct (st !! n) as [i|] eqn:Hn.
    2: { by erewrite M_bind_panic by (by apply get_node_none). }
    erewrite M_bind_ok by (by apply get_node_ok).
    destruct (ino i) as [p ch|c|p ch| |]; simpl; try done.
    all: unfold mbind, M_bind; rewrite dir_step_eq; destruct (step_to st n p ch name) as [m|]; [|done].
    all: destruct (IH m rest Hl) as (ds'&nm'&Hc'&->); rewrite Hc in Hc';
      by apply app_inj_tail in Hc' as [-> ->].
  - exists [], name. split; [done|]. unfold at_end, remove_at. simpl.
    destruct (st !! n) as [i|] eqn:Hn.
    2: { by erewrite !M_bind_panic by (by apply get_node_none). }
    erewrite !M_bind_ok by (by apply get_node_ok). by destruct (ino i).
Qed.

(** ** Creating and removing a node in a directory *)

Definition new_node (ty : VfsNodeType) (d : nid) : option Node :=
  match ty with File_ => Some (RamFile []) | Dir => Some (RamDir (Some d) []) | _ => None end.

(** The node [new] was created under [name] in [d]. *)
Definition created (st st' : Store) (d : nid) (name : Str) (ty : VfsNodeType) (new : nid) : Prop :=
  ∃ p ch s x, st !! d = Some {| ino := RamDir p ch; strong := s |} ∧
    (is_dot name || is_dotdot name)%bool = false ∧ bt_get name ch = None ∧
    new_node ty d = Some x ∧ st !! new = None ∧
    st' = <[d := {| ino := RamDir p (bt_insert name new ch); strong := s |}]>
            (<[new := {| ino := x; strong := 1 |}]> st).

Lemma created_wf st st' H d name ty new : fs_wf st H → created st st' d name ty new → fs_wf st' H.
Proof.
  intros HW (p&ch&s&x&Hd&Hnm&Hg&Hx&Hnew&->).
  assert (d ≠ new) as Hne by congruence.
  assert (children_of x = []) as Hcx by (destruct ty; naive_solver).
  pose proof (fw_sorted _ _ HW _ _ Hd) as Hs. simpl in Hs.
  pose proof (bt_insert_fresh name new ch Hs Hg) as Hp.
  pose proof (fs_wf_new _ _ new x 1 HW Hnew Hcx ltac:(lia)) as HW1.
  assert (<[new := {| ino := x; strong := 1 |}]> st !! d = Some {| ino := RamDir p ch; strong := s |}) as Hd1
    by (by rewrite lookup_insert_ne).
  eapply (fs_wf_set _ _ H d {| ino := RamDir p ch; strong := s |} (RamDir p (bt_insert name new ch)) HW1 Hd1);
    simpl; [done|by apply bt_insert_sorted| | |].
  - intros c Hc. rewrite Hp in Hc. simpl in Hc. apply elem_of_cons in Hc as [->|Hc].
    + exists {| ino := x; strong := 1 |}. rewrite lookup_insert_eq. split; [done|].
      simpl. destruct ty; naive_solver.
    + destruct (fw_ram _ _ HW _ _ _ _ _ Hd Hc) as (j&Hj&?). exists j. split; [|done].
      rewrite lookup_insert_ne; [done|congruence].
  - intros m. rewrite Hp, fmap_cons. unfold refs, plus. cbn [occ snd children_of ino]. lia.
  - intros m. destruct (fw_handle _ _ HW m) as [? Hh]. split; [done|]. intros Hm.
    destruct (Hh Hm) as [j Hj]. rewrite lookup_insert_ne by congruence. eauto.
Qed.

Lemma create_at_ok st H d i name ty new :
  fs_wf st H → st !! d = Some i → st !! new = None →
  (∃ e, create_at d name ty new st = (Err e, st)) ∨
  (create_at d name ty new st = (Ok tt, st) ∧ (is_dot name || is_dotdot name)%bool = true) ∨
  ∃ st', create_at d name ty new st = (Ok tt, st') ∧ created st st' d name ty new.
Proof.
  intros HW Hd Hnew. unfold create_at. erewrite M_bind_ok by (by apply get_node_ok).
  destruct i as [[p ch|c|p ch| |] s]; simpl.
  2: left; eauto.
  2: destruct (is_dot name || is_dotdot name)%bool; [by right; left|left; eauto].
  2,3: left; eauto.
  destruct (is_dot name || is_dotdot name)%bool eqn:Hdot; [by right; left|].
  unfold create_node, DirNode_exist, bt_contains. destruct (bt_get name ch) eqn:Hg; [left; eauto|].
  assert (d ≠ new) as Hne by congruence.
  destruct (new_node ty d) as [x|] eqn:Hx.
  - right. right. eexists. split; [|exists p, ch, s, x; done].
    unfold mbind, M_bind, set_node, get_inode, mbind, M_bind, get_state. destruct ty; try done; simpl in *.
    all: injection Hx as <-; by rewrite lookup_insert_ne, Hd.
  - left. destruct ty; eauto; done.
Qed.

(** The node under [name] in [d] was removed, and freed if nothing else refers to it. *)
Definition removed (st st' : Store) (d : nid) (name : Str) : Prop :=
  ∃ p ch s c i, st !! d = Some {| ino := RamDir p ch; strong := s |} ∧
    (is_dot name || is_dotdot name)%bool = false ∧ bt_get name ch = Some c ∧
    st !! c = Some i ∧ children_of (ino i) = [] ∧ c ≠ d ∧
    let st1 := <[d := {| ino := RamDir p (bt_remove name ch); strong := s |}]> st in
    st' = if strong i =? 1 then delete c st1
          else <[c := {| ino := ino i; strong := strong i - 1 |}]> st1.

Lemma detach_wf st H d p ch s name c :
  fs_wf st H → st !! d = Some {| ino := RamDir p ch; strong := s |} → bt_get name ch = Some c →
  fs_wf (<[d := {| ino := RamDir p (bt_remove name ch); strong := s |}]> st) (plus c 1 H).
Proof.
  intros HW Hd Hg. pose proof (fw_sorted _ _ HW _ _ Hd) as Hs. simpl in Hs.
  pose proof (bt_remove_perm name c ch Hs Hg) as Hp.
  eapply (fs_wf_set _ _ _ d {| ino := RamDir p ch; strong := s |} (RamDir p (bt_remove name ch)) HW Hd);
    simpl; [done|by apply bt_remove_sorted| | |].
  - intros x Hx. eapply (fw_ram _ _ HW); [done|]. rewrite Hp. simpl. set_solver.
  - intros m. unfold refs, plus. cbn [children_of ino]. rewrite Hp at 2. rewrite fmap_cons.
    cbn [occ snd]. lia.
  - intros m. unfold plus. destruct (fw_handle _ _ HW m) as [? Hh]. pose proof (b2z_nonneg (c = m)).
    split; [lia|]. intros Hm. destruct (decide (c = m)) as [<-|Hne].
    + destruct (fw_ram _ _ HW _ _ _ _ c Hd) as (j&Hj&_); [rewrite Hp; set_solver|eauto].
    + rewrite b2z_false in Hm by done. apply Hh. lia.
Qed.

Lemma removed_wf st st' H d name : fs_wf st H → removed st st' d name → fs_wf st' H.
Proof.
  intros HW (p&ch&s&c&i&Hd&Hdot&Hg&Hc&Hch&Hne&->).
  pose proof (detach_wf _ _ _ _ _ _ _ _ HW Hd Hg) as HW1.
  set (st1 := <[d := _]> st) in *.
  assert (st1 !! c = Some i) as Hc1 by (subst st1; by rewrite lookup_insert_ne).
  destruct (fw_count _ _ HW1 c i Hc1) as [Hcnt ?].
  destruct (strong i =? 1) eqn:Hs; bool_to_prop.
  - eapply fs_wf_ext; [|eapply (fs_wf_free _ H c [] i)]; [..|done|done].
    + intros m. unfold flight, refs. rewrite Hch. simpl. lia.
    + eapply fs_wf_ext, HW1. intros m. unfold flight, plus. simpl. lia.
    + apply HW.
  - eapply fs_wf_ext; [|apply (fs_wf_strong _ _ c i (-1) HW1 Hc1)]; [|lia|].
    + intros m. unfold plus. lia.
    + unfold plus. rewrite b2z_true by done. pose proof (fw_handle _ _ HW c). lia.
Qed.

Lemma remove_at_ok st H d i name :
  fs_wf st H → st !! d = Some i →
  (∃ e, remove_at d name st = (Err e, st)) ∨
  ∃ st', remove_at d name st = (Ok tt, st') ∧ removed st st' d name.
Proof.
  intros HW Hd. unfold remove_at. erewrite M_bind_ok by (by apply get_node_ok).
  destruct i as [[p ch|c|p ch| |] s]; simpl; [|left; eauto..].
  destruct (is_dot name || is_dotdot name)%bool eqn:Hdot; [left; eauto|].
  unfold remove_node. destruct (bt_get name ch) as [c|] eqn:Hg; [|left; eauto].
  erewrite M_bind_ok by reflexivity.
  pose proof (fw_sorted _ _ HW _ _ Hd) as Hs. simpl in Hs.
  destruct (fw_ram _ _ HW _ _ _ _ c Hd) as (j&Hj&Hr).
  { rewrite (bt_remove_perm name c ch Hs Hg). set_solver. }
  erewrite M_bind_ok by (by apply get_node_ok).
  destruct (children_of (ino j)) as [|y ys] eqn:Hch.
  2: { left. destruct (ino j) as [pj chj|?|?|?|?]; try done. simpl in Hch. subst chj. eauto. }
  right. assert (c ≠ d) as Hne.
  { intros ->. rewrite Hd in Hj. injection Hj as <-. simpl in Hch. by subst ch. }
  set (st1 := <[d := {| ino := RamDir p (bt_remove name ch); strong := s |}]> st).
  assert (st1 !! c = Some j) as Hc1 by (subst st1; by rewrite lookup_insert_ne).
  exists (if strong j =? 1 then delete c st1 else <[c := {| ino := ino j; strong := strong j - 1 |}]> st1).
  split; [|exists p, ch, s, c, j; done].
  assert ((match ino j with RamDir _ (_ :: _) => throw DirectoryNotEmpty | _ => mret tt end
    : M Store AxError unit) = mret tt) as ->.
  { destruct (ino j) as [pj chj|?|?|?|?]; try done. simpl in Hch. by subst chj. }
  erewrite M_bind_ok by reflexivity.
  erewrite M_bind_ok by exact (set_node_ok _ _ (RamDir p (bt_remove name ch)) _ Hd).
  cbn [strong]. fold st1. unfold node_drop. erewrite M_bind_ok by reflexivity. simpl drop_loop.
  erewrite M_bind_ok by (unfold get_inode, mbind, M_bind, get_state; by rewrite Hc1).
  destruct (strong j =? 1); erewrite M_bind_ok by reflexivity; [rewrite Hch|]; by destruct (length _).
Qed.

(** ** Walks in a well-formed store *)

Lemma walk_app st n l1 l2 :
  path_walk st n (l1 ++ l2) = match path_walk st n l1 with Ok d => path_walk st d l2 | r => r end.
Proof.
  revert n. induction l1 as [|name l1 IH]; intros n; [done|]. simpl.
  destruct (st !! n) as [i|]; [|done]. destruct (dir_of (ino i)) as [[p ch]|]; [|done].
  destruct (step_to st n p ch name); auto.
Qed.

Lemma dir_of_children x p ch : dir_of x = Some (p, ch) → children_of x = ch.
Proof. destruct x; naive_solver. Qed.

Lemma step_to_in st H n i p ch name m :
  fs_wf st H → st !! n = Some i → dir_of (ino i) = Some (p, ch) →
  step_to st n p ch name = Some m → is_Some (st !! m).
Proof.
  intros HW Hn Hd. pose proof (fw_sorted _ _ HW _ _ Hn) as Hs.
  rewrite (dir_of_children _ _ _ Hd) in Hs. unfold step_to.
  destruct (is_dot name); [intros [= <-]; eauto|]. destruct (is_dotdot name).
  - destruct p as [q|]; [|done]. case_decide; [|done]. by intros [= <-].
  - intros Hg. apply HW. eapply elem_of_all_children; [done|]. unfold refs.
    rewrite (dir_of_children _ _ _ Hd). apply list_elem_of_fmap. exists (name, m). split; [done|].
    by apply bt_elem_get.
Qed.

Lemma walk_in st H n l :
  fs_wf st H → is_Some (st !! n) →
  (∃ k, path_walk st n l = Ok k ∧ is_Some (st !! k)) ∨ ∃ e, path_walk st n l = Err e.
Proof.
  intros HW. revert n. induction l as [|name l IH]; intros n [i Hi]; simpl; [eauto|].
  rewrite Hi. destruct (dir_of (ino i)) as [[p ch]|] eqn:Hd; [|eauto].
  destruct (step_to st n p ch name) as [m|] eqn:Hm; [|eauto]. by eapply IH, step_to_in.
Qed.

(** Creating a node keeps every path_walk and adds the new one. *)
Lemma walk_created st st' H d name ty new l m k :
  fs_wf st H → created st st' d name ty new → path_walk st m l = Ok k → path_walk st' m l = Ok k.
Proof.
  intros HW (p&ch&s&x&Hd&Hdot&Hg&Hx&Hnew&->). revert m.
  pose proof (fw_sorted _ _ HW _ _ Hd) as Hs. simpl in Hs.
  set (st' := <[d := _]> _).
  assert (∀ q, is_Some (st !! q) → is_Some (st' !! q)) as Hin.
  { intros q [j Hj]. subst st'. destruct (decide (d = q)) as [<-|]; [rewrite lookup_insert_eq; eauto|].
    rewrite !lookup_insert_ne by congruence. eauto. }
  induction l as [|nm l IH]; intros m; simpl; [done|].
  destruct (st !! m) as [i|] eqn:Hm; [|done].
  destruct (dir_of (ino i)) as [[pm cm]|] eqn:Hdm; [|done].
  destruct (step_to st m pm cm nm) as [m'|] eqn:Hst; [|done]. intros Hw.
  assert (∃ i' cm', st' !! m = Some i' ∧ dir_of (ino i') = Some (pm, cm') ∧
    ∀ z, z ≠ name → bt_get z cm' = bt_get z cm) as (i'&cm'&Hm'&Hdm'&Hcm).
  { subst st'. destruct (decide (d = m)) as [<-|Hne].
    - rewrite Hd in Hm. injection Hm as <-. simpl in Hdm. injection Hdm as <- <-.
      rewrite lookup_insert_eq. eexists _, _. split_and!; [done..|]. intros. by apply bt_get_insert_ne.
    - rewrite !lookup_insert_ne by congruence. eexists _, _. split_and!; [done..|done]. }
  rewrite Hm', Hdm'. assert (step_to st' m pm cm' nm = Some m') as ->; [|auto].
  revert Hst. unfold step_to. destruct (is_dot nm); [done|]. destruct (is_dotdot nm).
  - destruct pm as [q|]; [|done]. case_decide; [|done]. rewrite decide_True by auto. done.
  - destruct (decide (nm = name)) as [->|]; [|by rewrite Hcm].
    subst st'. destruct (decide (d = m)) as [<-|Hne].
    + rewrite Hd in Hm. injection Hm as <-. simpl in Hdm. injection Hdm as <- <-. congruence.
    + rewrite !lookup_insert_ne, Hm in Hm' by congruence. simplify_eq. done.
Qed.

Lemma walk_created_new st st' H d name ty new n ds :
  fs_wf st H → created st st' d name ty new → path_walk st n ds = Ok d →
  path_walk st' n (ds ++ [name]) = Ok new ∧
  ∃ x, new_node ty d = Some x ∧ st' !! new = Some {| ino := x; strong := 1 |}.
Proof.
  intros HW Hc Hw. pose proof (walk_created _ _ _ _ _ _ _ _ _ _ HW Hc Hw) as Hw'.
  destruct Hc as (p&ch&s&x&Hd&Hdot&Hg&Hx&Hnew&->). split.
  - rewrite walk_app, Hw'. simpl. rewrite lookup_insert_eq. simpl. unfold step_to.
    apply orb_false_iff in Hdot as [-> ->]. by rewrite bt_get_insert_eq.
  - exists x. split; [done|]. rewrite lookup_insert_ne by congruence. by rewrite lookup_insert_eq.
Qed.

(** Removing a node only makes walks fail. *)
Lemma removed_nodes st st' d name q j :
  removed st st' d name → st' !! q = Some j →
  ∃ i, st !! q = Some i ∧
    (ino j = ino i ∨ q = d ∧ ∃ p ch, ino i = RamDir p ch ∧ ino j = RamDir p (bt_remove name ch)).
Proof.
  intros (p&ch&s&c&i&Hd&Hdot&Hg&Hc&Hch&Hne&->) Hq. case_match.
  - apply lookup_delete_Some in Hq as [Hqc Hq]. apply lookup_insert_Some in Hq as [[<- <-]|[? ?]]; [|eauto].
    eexists. split; [done|]. right. eauto.
  - apply lookup_insert_Some in Hq as [[<- <-]|[? Hq]]; [eauto|].
    apply lookup_insert_Some in Hq as [[<- <-]|[? ?]]; [|eauto].
    eexists. split; [done|]. right. eauto.
Qed.

Lemma walk_removed st st' H d name l m k :
  fs_wf st H → removed st st' d name → is_Some (st' !! m) → path_walk st m l = Ok k →
  (path_walk st' m l = Ok k ∧ is_Some (st' !! k)) ∨ path_walk st' m l = Err NotFound.
Proof.
  intros HW Hrm. pose proof (removed_wf _ _ _ _ _ HW Hrm) as HW'. revert m.
  induction l as [|nm l IH]; intros m [j Hj]; simpl.
  { intros [= <-]. eauto. }
  destruct (removed_nodes _ _ _ _ _ _ Hrm Hj) as (i&Hi&Hk). rewrite Hi, Hj.
  destruct (dir_of (ino i)) as [[pm cm]|] eqn:Hdm; [|done].
  destruct (step_to st m pm cm nm) as [m'|] eqn:Hst; [|done]. intros Hw.
  assert (∃ cm', dir_of (ino j) = Some (pm, cm') ∧
    (bt_get nm cm' = bt_get nm cm ∨ bt_get nm cm' = None)) as (cm'&Hdj&Hcm).
  { destruct Hk as [Hk|(->&p&ch&Hki&Hkj)]; [rewrite Hk; eauto|].
    rewrite Hki in Hdm. rewrite Hkj. simpl in *. injection Hdm as <- <-.
    eexists. split; [done|]. pose proof (fw_sorted _ _ HW _ _ Hi) as Hs. rewrite Hki in Hs.
    destruct (decide (nm = name)) as [->|]; [right; by apply bt_get_remove_eq|left; by apply bt_get_remove_ne]. }
  rewrite Hdj. destruct (step_to st' m pm cm' nm) as [m2|] eqn:Hst'; [|by right].
  assert (m2 = m') as ->.
  { revert Hst Hst'. unfold step_to. destruct (is_dot nm); [congruence|]. destruct (is_dotdot nm).
    - destruct pm; [|done]. repeat case_decide; naive_solver.
    - destruct Hcm as [->| ->]; congruence. }
  apply IH; [|done]. by eapply (step_to_in st').
Qed.

(** ** The operations on paths *)

Lemma node_clone_ok st H n :
  fs_wf st H → is_Some (st !! n) →
  ∃ st', node_clone n st = (Ok tt, st') ∧ fs_wf st' (plus n 1 H).
Proof.
  intros HW [i Hi]. eexists. split.
  - unfold node_clone, get_inode, mbind, M_bind, get_state. by rewrite Hi.
  - destruct (fw_count _ _ HW n i Hi). destruct (fw_handle _ _ HW n).
    apply fs_wf_strong; [done..|lia|lia].
Qed.

Lemma vfs_lookup_ok st H n path :
  fs_wf st H → is_Some (st !! n) →
  (∃ k st', path_walk st n (components path) = Ok k ∧ vfs_lookup n path st = (Ok k, st') ∧
     fs_wf st' (plus k 1 H)) ∨
  ∃ e, path_walk st n (components path) = Err e ∧ vfs_lookup n path st = (Err e, st).
Proof.
  intros HW Hn. pose proof (lookup_loop_walk (S (length path)) n path st (Nat.lt_succ_diag_r _)) as Hl.
  fold (components path) in Hl. unfold vfs_lookup.
  destruct (walk_in st H n (components path) HW Hn) as [(k&Hk&Hin)|(e&He)].
  - left. destruct (node_clone_ok st H k HW Hin) as (st'&Hc&HW'). exists k, st'.
    split; [done|]. split; [|done]. rewrite Hk in Hl. erewrite M_bind_ok by exact Hl.
    by erewrite M_bind_ok by exact Hc.
  - right. exists e. split; [done|]. rewrite He in Hl. by erewrite M_bind_err by exact Hl.
Qed.

Lemma vfs_create_ok st H n path ty new :
  fs_wf st H → is_Some (st !! n) → st !! new = None →
  ∃ ds name, components path = ds ++ [name] ∧
    ((∃ e, vfs_create n path ty new st = (Err e, st)) ∨
     (vfs_create n path ty new st = (Ok tt, st) ∧ (is_dot name || is_dotdot name)%bool = true) ∨
     ∃ d st', path_walk st n ds = Ok d ∧ vfs_create n path ty new st = (Ok tt, st') ∧
       created st st' d name ty new).
Proof.
  intros HW Hn Hnew.
  destruct (create_loop_walk (S (length path)) n path ty new st (Nat.lt_succ_diag_r _)) as (ds&name&Hc&Hl).
  exists ds, name. split; [done|]. unfold vfs_create. rewrite Hl. unfold at_end.
  destruct (walk_in st H n ds HW Hn) as [(d&Hd&[i Hi])|(e&He)]; [|left; rewrite He; eauto].
  rewrite Hd. destruct (create_at_ok st H d i name ty new HW Hi Hnew) as [?|[?|(st'&?&?)]]; eauto 8.
Qed.

Lemma vfs_remove_ok st H n path :
  fs_wf st H → is_Some (st !! n) →
  ∃ ds name, components path = ds ++ [name] ∧
    ((∃ e, vfs_remove n path st = (Err e, st)) ∨
     ∃ d st', path_walk st n ds = Ok d ∧ vfs_remove n path st = (Ok tt, st') ∧ removed st st' d name).
Proof.
  intros HW Hn.
  destruct (remove_loop_walk (S (length path)) n path st (Nat.lt_succ_diag_r _)) as (ds&name&Hc&Hl).
  exists ds, name. split; [done|]. unfold vfs_remove. rewrite Hl. unfold at_end.
  destruct (walk_in st H n ds HW Hn) as [(d&Hd&[i Hi])|(e&He)]; [|left; rewrite He; eauto].
  rewrite Hd. destruct (remove_at_ok st H d i name HW Hi) as [?|(st'&?&?)]; eauto 8.
Qed.

(** The node a removed name stood for. *)
Lemma walk_removed_last st st' H n ds d name :
  fs_wf st H → is_Some (st' !! n) → path_walk st n ds = Ok d → removed st st' d name →
  (∃ c, path_walk st n (ds ++ [name]) = Ok c) ∧ path_walk st' n (ds ++ [name]) = Err NotFound.
Proof.
  intros HW Hn Hw Hrm. pose proof Hrm as (p&ch&s&c&i&Hd&Hdot&Hg&Hc&Hch&Hne&_).
  apply orb_false_iff in Hdot as [Hd1 Hd2]. split.
  - exists c. rewrite walk_app, Hw. simpl. rewrite Hd. simpl. unfold step_to. by rewrite Hd1, Hd2, Hg.
  - destruct (walk_removed _ _ _ _ _ _ _ _ HW Hrm Hn Hw) as [[Hw' [j Hj]]|Hw'];
      rewrite walk_app, Hw'; [|done]. simpl. rewrite Hj.
    destruct (removed_nodes _ _ _ _ _ _ Hrm Hj) as (i'&Hi'&Hk). rewrite Hd in Hi'. injection Hi' as <-.
    pose proof (fw_sorted _ _ HW _ _ Hd) as Hs. simpl in Hs.
    assert (ino j = RamDir p (bt_remove name ch)) as ->.
    { destruct Hk as [Hk|(_&p'&ch'&Hk&->)]; [|by injection Hk as <- <-].
      exfalso. destruct Hrm as (p2&ch2&s2&c2&i2&Hd2'&_&_&_&_&Hne2&->). rewrite Hd in Hd2'.
      injection Hd2' as <- <- <-. assert (j = {| ino := RamDir p (bt_remove name ch); strong := s |}) as ->.
      { case_match; [rewrite lookup_delete_ne, lookup_insert_eq in Hj by done
                    |rewrite lookup_insert_ne, lookup_insert_eq in Hj by done]; congruence. }
      simpl in Hk. injection Hk as Hk. pose proof (bt_get_remove_eq name ch Hs) as Hr. congruence. }
    simpl. unfold step_to. by rewrite Hd1, Hd2, bt_get_remove_eq.
Qed.

(** ** Which paths an operation changes *)

(** A walk that takes [name] in the directory [d], and one that comes to the node [c]. *)
Definition through (st : Store) (m : nid) (l : list Str) (d : nid) (name : Str) : Prop :=
  ∃ l1 l2, l = l1 ++ name :: l2 ∧ path_walk st m l1 = Ok d.
Definition visits (st : Store) (m : nid) (l : list Str) (c : nid) : Prop :=
  ∃ l1 l2, l = l1 ++ l2 ∧ path_walk st m l1 = Ok c.
(** No directory has a weak pointer to the address: [Weak] keeps the allocation, so that a new
    node never has the address of one it points to. *)
Definition no_weak (st : Store) (new : nid) : Prop :=
  ∀ m i ch, st !! m = Some i → dir_of (ino i) ≠ Some (Some new, ch).

Lemma through_cons st m l d name nm i p ch k :
  st !! m = Some i → dir_of (ino i) = Some (p, ch) → step_to st m p ch nm = Some k →
  through st k l d name → through st m (nm :: l) d name.
Proof.
  intros Hi Hd Hs (l1&l2&->&Hw). exists (nm :: l1), l2. split; [done|]. simpl. by rewrite Hi, Hd, Hs.
Qed.
Lemma visits_cons st m l c nm i p ch k :
  st !! m = Some i → dir_of (ino i) = Some (p, ch) → step_to st m p ch nm = Some k →
  visits st k l c → visits st m (nm :: l) c.
Proof.
  intros Hi Hd Hs (l1&l2&->&Hw). exists (nm :: l1), l2. split; [done|]. simpl. by rewrite Hi, Hd, Hs.
Qed.

(** A step that does not take the changed name, and whose target, a parent included, is in both
    stores or in none, is the same step. *)
Lemma step_to_same st st' m p ch ch' nm :
  (is_dot nm || is_dotdot nm)%bool = true ∨ bt_get nm ch' = bt_get nm ch →
  (∀ q, p = Some q → is_dotdot nm → is_Some (st' !! q) ↔ is_Some (st !! q)) →
  step_to st' m p ch' nm = step_to st m p ch nm.
Proof.
  intros Hg Hq. unfold step_to. destruct (is_dot nm); [done|]. destruct (is_dotdot nm) eqn:Hdd.
  - destruct p as [q|]; [|done]. specialize (Hq q eq_refl I). repeat case_decide; naive_solver.
  - by destruct Hg.
Qed.

Lemma created_nodes st st' d name ty new q :
  created st st' d name ty new → q ≠ d → q ≠ new → st' !! q = st !! q.
Proof. intros (p&ch&s&x&Hd&_&_&_&_&->) ??. by rewrite !lookup_insert_ne by done. Qed.
Lemma created_in st st' d name ty new q :
  created st st' d name ty new → q ≠ new → is_Some (st' !! q) ↔ is_Some (st !! q).
Proof.
  intros Hc Hq. destruct (decide (q = d)) as [->|]; [|by erewrite created_nodes].
  destruct Hc as (p&ch&s&x&Hd&_&_&_&_&->). rewrite lookup_insert_eq, Hd. split; eauto.
Qed.
Lemma walk_created_other st st' H d name ty new l m :
  fs_wf st H → created st st' d name ty new → no_weak st new → is_Some (st !! m) → ¬ through st m l d name →
  path_walk st' m l = path_walk st m l.
Proof.
  intros HW Hc Hnw. revert m. induction l as [|nm l IH]; intros m [i Hi] Ht; [done|]. simpl.
  pose proof Hc as (p&ch&s&x&Hd&Hdot&Hg&Hx&Hnew&Est).
  assert (m ≠ new) as Hmn by congruence. destruct (decide (m = d)) as [->|Hmd].
  - rewrite Hd in Hi. injection Hi as <-. rewrite Est at 1. rewrite lookup_insert_eq, Hd. cbn [dir_of ino].
    assert (nm ≠ name) as Hne. { intros ->. apply Ht. by exists [], l. }
    pose proof (fw_sorted _ _ HW _ _ Hd) as Hs. simpl in Hs.
    rewrite (step_to_same st st' d p ch); [|right; by apply bt_get_insert_ne|].
    2: { intros q -> _. eapply created_in; [done|]. intros ->. exact (Hnw d _ ch Hd eq_refl). }
    destruct (step_to st d p ch nm) as [k|] eqn:Hk; [|done]. apply IH; [exact (step_to_in st H d _ p ch nm k HW Hd eq_refl Hk)|].
    intros Ht'. apply Ht. exact (through_cons st d l d name nm _ p ch k Hd eq_refl Hk Ht').
  - rewrite (created_nodes st st' d name ty new m Hc Hmd Hmn), Hi.
    destruct (dir_of (ino i)) as [[pm cm]|] eqn:Hdm; [|done].
    rewrite (step_to_same st st' m pm cm cm nm); [|by right|].
    2: { intros q -> _. eapply created_in; [done|]. intros ->. exact (Hnw m _ cm Hi Hdm). }
    destruct (step_to st m pm cm nm) as [k|] eqn:Hk; [|done]. apply IH; [exact (step_to_in st H m i pm cm nm k HW Hi Hdm Hk)|].
    intros Ht'. apply Ht. exact (through_cons st m l d name nm i pm cm k Hi Hdm Hk Ht').
Qed.
Lemma walk_created_through st st' H d name ty new l1 l2 m :
  fs_wf st H → created st st' d name ty new → path_walk st m l1 = Ok d →
  path_walk st' m (l1 ++ name :: l2) = path_walk st' new l2.
Proof.
  intros HW Hc Hw. destruct (walk_created_new _ _ _ _ _ _ _ _ _ HW Hc Hw) as [Hw' _].
  rewrite cons_middle, app_assoc, walk_app, Hw'. done.
Qed.

(** The node the removed name stood for. *)
Definition removed_node (st st' : Store) (d : nid) (name : Str) (c : nid) : Prop :=
  removed st st' d name ∧ path_walk st d [name] = Ok c.
Lemma removed_in st st' d name c q :
  removed_node st st' d name c → q ≠ c ∨ is_Some (st' !! c) → is_Some (st' !! q) ↔ is_Some (st !! q).
Proof.
  intros [(p&ch&s&c'&i&Hd&Hdot&Hg&Hc&Hch&Hne&->) Hw] Hq. simpl in Hw. rewrite Hd in Hw. simpl in Hw. unfold step_to in Hw.
  apply orb_false_iff in Hdot as [Hd1 Hd2]. rewrite Hd1, Hd2, Hg in Hw. injection Hw as ->.
  destruct (strong i =? 1).
  - destruct Hq as [Hq|[? Hq]]; [|by rewrite lookup_delete_eq in Hq]. rewrite lookup_delete_ne by done.
    destruct (decide (q = d)) as [->|]; [rewrite lookup_insert_eq, Hd; split; eauto|by rewrite lookup_insert_ne].
  - destruct (decide (q = c)) as [->|]; [rewrite lookup_insert_eq, Hc; split; eauto|]. rewrite lookup_insert_ne by done.
    destruct (decide (q = d)) as [->|]; [rewrite lookup_insert_eq, Hd; split; eauto|by rewrite lookup_insert_ne].
Qed.
Lemma removed_others st st' d name c q :
  removed_node st st' d name c → q ≠ d → q ≠ c → st' !! q = st !! q.
Proof.
  intros [(p&ch&s&c'&i&Hd&Hdot&Hg&Hc&Hch&Hne&->) Hw] Hqd Hqc. simpl in Hw. rewrite Hd in Hw. simpl in Hw. unfold step_to in Hw.
  apply orb_false_iff in Hdot as [Hd1 Hd2]. rewrite Hd1, Hd2, Hg in Hw. injection Hw as ->.
  destruct (strong i =? 1); [rewrite lookup_delete_ne by done|rewrite lookup_insert_ne by done]; by rewrite lookup_insert_ne.
Qed.
Lemma walk_removed_other st st' H d name c l m :
  fs_wf st H → removed_node st st' d name c → is_Some (st' !! m) → ¬ through st m l d name →
  (visits st m l c → is_Some (st' !! c)) → path_walk st' m l = path_walk st m l.
Proof.
  intros HW Hc. pose proof (proj1 Hc) as Hrm. revert m. induction l as [|nm l IH]; intros m [j Hj] Ht Hv; [done|]. simpl.
  destruct (removed_nodes _ _ _ _ _ _ Hrm Hj) as (i&Hi&Hk). rewrite Hj, Hi.
  assert (∀ k p ch, dir_of (ino i) = Some (p, ch) → step_to st m p ch nm = Some k → k ≠ c ∨ is_Some (st' !! c)) as Hkc.
  { intros k p ch Hd Hs. destruct (decide (k = c)) as [->|]; [|by left]. right. apply Hv.
    exists [nm], l. split; [done|]. simpl. by rewrite Hi, Hd, Hs. }
  assert (∀ p ch ch', dir_of (ino i) = Some (p, ch) → bt_get nm ch' = bt_get nm ch ∨ (is_dot nm || is_dotdot nm)%bool = true →
    step_to st' m p ch' nm = step_to st m p ch nm) as Hsame.
  { intros p ch ch' Hd Hg. apply step_to_same; [tauto|]. intros q -> Hdd.
    destruct (decide (is_Some (st !! q))) as [Hq|Hq].
    - eapply removed_in; [done|]. apply (Hkc q (Some q) ch Hd). unfold step_to. destruct (is_dot nm) eqn:Ed; [|rewrite decide_True by done; by destruct (is_dotdot nm)].
      unfold is_dot, is_dotdot in *. apply Is_true_true, bool_decide_eq_true in Hdd. subst nm. discriminate Ed.
    - split; [|done]. intros [x Hx]. destruct (removed_nodes _ _ _ _ _ _ Hrm Hx) as (?&?&_). eauto. }
  assert (∃ ch ch' p, dir_of (ino i) = Some (p, ch) ∧ dir_of (ino j) = Some (p, ch') ∧ bt_get nm ch' = bt_get nm ch ∨
    dir_of (ino i) = None ∧ dir_of (ino j) = None) as (ch&ch'&p&[(Ei&Ej&Eg)|[-> ->]]); [| |done].
  { destruct Hk as [->|(->&p&ch&Hki&Hkj)]; [destruct (dir_of (ino i)) as [[p ch]|]; [exists ch, ch, p; by left|exists [], [], None; by right]|].
    exists ch, (bt_remove name ch), p. left. rewrite Hki, Hkj. split_and!; [done..|].
    assert (nm ≠ name) as Hne by (intros ->; apply Ht; by exists [], l).
    pose proof (fw_sorted _ _ HW _ _ Hi) as Hs. rewrite Hki in Hs. by apply bt_get_remove_ne. }
  rewrite Ei, Ej, (Hsame p ch ch' Ei (or_introl Eg)). destruct (step_to st m p ch nm) as [k|] eqn:Hs; [|done].
  apply IH.
  - eapply removed_in; [done|by eapply Hkc|by eapply step_to_in].
  - intros Ht'. apply Ht. by eapply through_cons.
  - intros Hv'. apply Hv. by eapply visits_cons.
Qed.
Lemma walk_removed_through st st' H d name l m :
  fs_wf st H → removed st st' d name → is_Some (st' !! m) → through st m l d name → path_walk st' m l = Err NotFound.
Proof.
  intros HW Hrm Hm (l1&l2&->&Hw). destruct (walk_removed_last _ _ _ _ _ _ _ HW Hm Hw Hrm) as [_ Hn].
  by rewrite cons_middle, app_assoc, walk_app, Hn.
Qed.
Lemma walk_removed_freed st st' H d name l m c :
  fs_wf st H → removed st st' d name → is_Some (st' !! m) → visits st m l c → st' !! c = None → path_walk st' m l = Err NotFound.
Proof.
  intros HW Hrm Hm (l1&l2&->&Hw) Hc. destruct (walk_removed _ _ _ _ _ _ _ _ HW Hrm Hm Hw) as [[_ [? Hx]]|Hn]; [congruence|].
  by rewrite walk_app, Hn.
Qed.

(** C7: The operations on paths do what the path says.  [lookup] returns what the
    walk along the components of the path finds.  A successful [create] whose last
    component is a name (it does nothing for an empty one, [.] and [..]) makes the
    path, which did not exist, lead to a new empty node of the given type: a walk that
    takes the new name in its directory goes on from the new node, every other walk,
    from any node, has the result it had, found or not, and no other node changes.
    After a successful [remove] the path, which existed, is not found: a walk that
    takes the removed name in its directory fails with [NotFound], and so does one that
    comes to the removed node by the [..] of a directory that outlives it; every other
    walk has the result it had, and no other node changes. *)
Theorem path_operations st H n path :
  fs_wf st H → 1 ≤ H n →
  (vfs_lookup n path st).1 = path_walk st n (components path) ∧
  (∀ ty new st', st !! new = None → vfs_create n path ty new st = (Ok tt, st') →
     st' = st ∧ (∃ name, last (components path) = Some name ∧ is_dot name || is_dotdot name) ∨
     ∃ ds name d x, components path = ds ++ [name] ∧ path_walk st n ds = Ok d ∧
       path_walk st n (components path) = Err NotFound ∧ path_walk st' n (components path) = Ok new ∧
       new_node ty d = Some x ∧ st' !! new = Some {| ino := x; strong := 1 |} ∧
       (∀ m l k, path_walk st m l = Ok k → path_walk st' m l = Ok k) ∧
       (∀ m l1 l2, path_walk st m l1 = Ok d → path_walk st' m (l1 ++ name :: l2) = path_walk st' new l2) ∧
       (∀ m l, no_weak st new → is_Some (st !! m) → ¬ through st m l d name → path_walk st' m l = path_walk st m l) ∧
       ∀ k, k ≠ d → k ≠ new → st' !! k = st !! k) ∧
  (∀ st', vfs_remove n path st = (Ok tt, st') →
     ∃ ds name d c, components path = ds ++ [name] ∧ path_walk st n ds = Ok d ∧
       path_walk st n (components path) = Ok c ∧ path_walk st' n (components path) = Err NotFound ∧
       (∀ m l, is_Some (st' !! m) → through st m l d name ∨ (visits st m l c ∧ st' !! c = None) →
          path_walk st' m l = Err NotFound) ∧
       (∀ m l, is_Some (st' !! m) → ¬ through st m l d name → (visits st m l c → is_Some (st' !! c)) →
          path_walk st' m l = path_walk st m l) ∧
       ∀ k, k ≠ d → k ≠ c → st' !! k = st !! k).
Proof.
  intros HW Hn. assert (is_Some (st !! n)) as Hin by (by apply (fw_handle _ _ HW)). split_and!.
  - destruct (vfs_lookup_ok st H n path HW Hin) as [(k&st'&->&->&_)|(e&->&->)]; done.
  - intros ty new st' Hnew Hc.
    destruct (vfs_create_ok st H n path ty new HW Hin Hnew) as (ds&name&Hp&[(e&He)|[[He Hdot]|(d&st2&Hw&He&Hcr)]]);
      rewrite Hc in He; simplify_eq.
    + left. split; [done|]. exists name. rewrite Hp, last_snoc. split; [done|]. by rewrite Hdot.
    + right. destruct (walk_created_new _ _ _ _ _ _ _ _ _ HW Hcr Hw) as (Hw'&x&Hx&Hst). exists ds, name, d, x. rewrite Hp.
      split_and!; try done.
      * destruct Hcr as (p&ch&s&x'&Hd&Hdot&Hg&_). rewrite walk_app, Hw. simpl. rewrite Hd. simpl.
        unfold step_to. apply orb_false_iff in Hdot as [-> ->]. by rewrite Hg.
      * intros m l k. by apply (walk_created _ _ _ _ _ _ _ _ _ _ HW Hcr).
      * intros m l1 l2. by apply (walk_created_through st st2 H d name ty new l1 l2 m HW Hcr).
      * intros m l. by apply (walk_created_other st st2 H d name ty new l m HW Hcr).
      * intros k. by apply (created_nodes st st2 d name ty new k Hcr).
  - intros st' Hr. destruct (vfs_remove_ok st H n path HW Hin) as (ds&name&Hp&[(e&He)|(d&st2&Hw&He&Hrm)]);
      rewrite Hr in He; simplify_eq.
    pose proof (removed_wf _ _ _ _ _ HW Hrm) as HW'.
    assert (is_Some (st2 !! n)) as Hin' by (by apply (fw_handle _ _ HW')). rewrite Hp.
    destruct (walk_removed_last _ _ _ _ _ _ _ HW Hin' Hw Hrm) as [[c Hc] Hx].
    assert (removed_node st st2 d name c) as Hrn. { split; [done|]. by rewrite walk_app, Hw in Hc. }
    exists ds, name, d, c. split_and!; try done.
    + intros m l Hm [Ht|[Hv Hf]].
      * by apply (walk_removed_through st st2 H d name l m HW Hrm).
      * by apply (walk_removed_freed st st2 H d name l m c HW Hrm).
    + intros m l. by apply (walk_removed_other st st2 H d name c l m HW Hrn).
    + intros k. by apply (removed_others st st2 d name c k Hrn).
Qed.

(** ** All operations of the store *)

Inductive FsOp : Type :=
| OpLookup (n : nid) (path : Str)
| OpCreate (n : nid) (path : Str) (ty : VfsNodeType) (new : nid)
| OpRemove (n : nid) (path : Str)
| OpReadDir (n : nid) (start_idx : Z) (len : nat)
| OpRead (n : nid) (offset len : Z)
| OpWrite (n : nid) (offset : Z) (buf : list Z)
| OpTruncate (n : nid) (size : Z)
| OpMkdir (n : nid) (name : Str) (new : nid)
| OpAdd (n : nid) (name : Str) (node : nid)
| OpDrop (n : nid).

(** An operation, with the reference it returns. *)
Definition fs_run (op : FsOp) : M Store AxError (option nid) :=
  match op with
  | OpLookup n path => k ← vfs_lookup n path; mret (Some k)
  | OpCreate n path ty new => _ ← vfs_create n path ty new; mret None
  | OpRemove n path => _ ← vfs_remove n path; mret None
  | OpReadDir n start_idx len => _ ← vfs_read_dir n start_idx len; mret None
  | OpRead n offset len => _ ← vfs_read_at n offset len; mret None
  | OpWrite n offset buf => _ ← vfs_write_at n offset buf; mret None
  | OpTruncate n size => _ ← vfs_truncate n size; mret None
  | OpMkdir n name new => k ← dev_mkdir n name new; mret (Some k)
  | OpAdd n name node => _ ← dev_add n name node; mret None
  | OpDrop n => _ ← node_drop n; mret None
  end.

(** Nodes are used through references that are held; new nodes get unused addresses; offsets, sizes and
    lengths are machine numbers, and a buffer or a directory fits the address space. *)
Definition op_ok (st : Store) (H : nid → Z) (op : FsOp) : Prop :=
  match op with
  | OpLookup n _ | OpRemove n _ | OpDrop n => 1 ≤ H n
  | OpCreate n _ _ new => 1 ≤ H n ∧ st !! new = None
  | OpReadDir n idx _ => 1 ≤ H n ∧ 0 ≤ idx < 2 ^ 64 ∧
      ∀ i, st !! n = Some i → Z.of_nat (length (children_of (ino i))) < 2 ^ 63
  | OpRead n offset len => 1 ≤ H n ∧ 0 ≤ offset < 2 ^ 64 ∧ 0 ≤ len < 2 ^ 63
  | OpWrite n offset buf => 1 ≤ H n ∧ 0 ≤ offset < 2 ^ 64 ∧ Z.of_nat (length buf) < 2 ^ 63
  | OpTruncate n size => 1 ≤ H n ∧ 0 ≤ size < 2 ^ 64
  | OpMkdir n _ new =>
      1 ≤ H n ∧ st !! new = None ∧ ∃ s p ch, st !! n = Some {| ino := DevDir p ch; strong := s |}
  | OpAdd n _ node =>
      1 ≤ H n ∧ 1 ≤ plus n (-1) H node ∧ ∃ s p ch, st !! n = Some {| ino := DevDir p ch; strong := s |}
  end.

(** When an operation panics: an entry that [read_dir] lists has a name of more than 63 bytes; the end of a
    read wraps around to a place in the file; the end of a write wraps around, or the file would need
    more bytes than a vector can have; so would a file that is made longer. *)
Definition short_name (x : Str * nid) : Prop := (length (as_bytes x.1) ≤ 63)%nat.
Definition listed (idx : Z) (len : nat) (ch : Children) : Children :=
  take (len - Z.to_nat (2 - Z.min idx 2)) (drop (Z.to_nat (Z.max idx 2 - 2)) ch).
Definition op_panics (st : Store) (op : FsOp) : Prop :=
  match op with
  | OpReadDir n idx len => ∃ i, st !! n = Some i ∧ ¬ Forall short_name (listed idx len (children_of (ino i)))
  | OpRead n offset len => ∃ c s, st !! n = Some {| ino := RamFile c; strong := s |} ∧
      2 ^ 64 ≤ offset + len < 2 ^ 64 + Z.of_nat (length c)
  | OpWrite n offset buf => ∃ c s, st !! n = Some {| ino := RamFile c; strong := s |} ∧
      let stop := offset + Z.of_nat (length buf) in 2 ^ 64 ≤ stop ∨ (2 ^ 63 ≤ stop ∧ Z.of_nat (length c) < stop)
  | OpTruncate n size => ∃ c s, st !! n = Some {| ino := RamFile c; strong := s |} ∧
      2 ^ 63 ≤ size ∧ Z.of_nat (length c) ≤ size
  | _ => False
  end.

(** The references held after an operation that succeeded. *)
Definition held (op : FsOp) (r : option nid) (H : nid → Z) : nid → Z :=
  let H := match r with Some k => plus k 1 H | None => H end in
  match op with
  | OpDrop n => plus n (-1) H
  | OpAdd _ _ node => plus node (-1) H
  | _ => H
  end.

(** An operation succeeds in a well-formed store, or fails and changes nothing, or panics exactly under [P]. *)
Definition good {A} (st : Store) (m : M Store AxError A) (P : Prop) (H' : A → nid → Z) : Prop :=
  ∃ r st', m st = (r, st') ∧ (P → r = Panic) ∧
    match r with Ok a => fs_wf st' (H' a) | Err _ => st' = st | Panic => P | OutOfFuel => False end.

Lemma good_ok {A} st (m : M Store AxError A) (P : Prop) H' a st' :
  m st = (Ok a, st') → fs_wf st' (H' a) → ¬ P → good st m P H'.
Proof. intros Hm HW HP. exists (Ok a), st'. by split_and!. Qed.

Lemma good_err {A} st (m : M Store AxError A) (P : Prop) H' e : m st = (Err e, st) → ¬ P → good st m P H'.
Proof. intros Hm HP. exists (Err e), st. by split_and!. Qed.
Lemma good_panic {A} st (m : M Store AxError A) (P : Prop) H' st' : m st = (Panic, st') → P → good st m P H'.
Proof. intros Hm HP. exists Panic, st'. by split_and!. Qed.

Lemma good_map {A B} st (m : M Store AxError A) (f : A → B) P H' :
  good st m P (λ a, H' (f a)) → good st (a ← m; mret (f a)) P H'.
Proof.
  intros ([a|e| |]&st'&Hm&HP&HW); try done.
  - eapply good_ok; [by erewrite M_bind_ok by exact Hm|done|]. intros Hp. discriminate (HP Hp).
  - subst. eapply good_err; [by erewrite M_bind_err by exact Hm|]. intros Hp. discriminate (HP Hp).
  - eapply good_panic; [by erewrite M_bind_panic by exact Hm|done].
Qed.

Lemma vec_resize_ok (st : Store) n v :
  n < 2 ^ 63 → ∃ v', vec_resize n v st = (Ok v', st).
Proof. intros Hn. unfold vec_resize. rewrite (proj2 (Z.leb_gt _ _)) by lia. by eexists. Qed.
Lemma vec_resize_panics (st : Store) n v : 2 ^ 63 ≤ n → vec_resize n v st = (Panic, st).
Proof. intros Hn. unfold vec_resize. by rewrite (proj2 (Z.leb_le _ _)) by lia. Qed.

(** A file operation on another node does not panic. *)
Ltac other_node := intros (?&?&?&_); simplify_eq.

Lemma write_good st H n offset buf :
  fs_wf st H → op_ok st H (OpWrite n offset buf) →
  good st (vfs_write_at n offset buf) (op_panics st (OpWrite n offset buf)) (λ _, H).
Proof.
  intros HW (Hn&H0&Hlen). destruct (fw_handle _ _ HW n) as [_ Hin]. destruct (Hin Hn) as [i Hi]. cbn [op_panics].
  destruct i as [[p ch|c|p ch| |] s].
  1,3: eapply good_err; [unfold vfs_write_at; by erewrite M_bind_ok by (by apply get_node_ok)|other_node].
  2,3: eapply good_ok; [unfold vfs_write_at; by erewrite M_bind_ok by (by apply get_node_ok)|exact HW|other_node].
  set (stop := offset + Z.of_nat (length buf)).
  assert (vfs_write_at n offset buf st =
    (v ← (if Z.of_nat (length c) <? wrap 64 stop then vec_resize (wrap 64 stop) c else mret c);
     if wrap 64 stop <? offset then panic
     else _ ← set_node n (RamFile (take (Z.to_nat offset) v ++ buf ++ drop (Z.to_nat (wrap 64 stop)) v)); mret (Z.of_nat (length buf))) st) as E.
  { unfold vfs_write_at. by erewrite M_bind_ok by (by apply get_node_ok). }
  destruct (Z.le_gt_cases (2 ^ 64) stop) as [Hw|Hw].
  - assert (wrap 64 stop < offset) as Ho.
    { unfold wrap. replace stop with ((stop - 2 ^ 64) + 1 * 2 ^ 64) by lia. rewrite Z.mod_add, Z.mod_small by lia. lia. }
    eapply good_panic; [|exists c, s; split; [done|by left]]. rewrite E.
    destruct (Z.ltb_spec (Z.of_nat (length c)) (wrap 64 stop)) as [_|_].
    + destruct (Z.le_gt_cases (2 ^ 63) (wrap 64 stop)); [by erewrite M_bind_panic by (by apply vec_resize_panics)|].
      destruct (vec_resize_ok st (wrap 64 stop) c) as [v Hv]; [done|]. erewrite M_bind_ok by exact Hv.
      by rewrite (proj2 (Z.ltb_lt _ _) Ho).
    + erewrite M_bind_ok by reflexivity. by rewrite (proj2 (Z.ltb_lt _ _) Ho).
  - rewrite wrap_small in E by lia. destruct (decide (2 ^ 63 ≤ stop ∧ Z.of_nat (length c) < stop)) as [[Hp Hc]|Hp].
    + eapply good_panic; [|exists c, s; split; [done|by right]]. rewrite E, (proj2 (Z.ltb_lt _ _) Hc).
      by erewrite M_bind_panic by (by apply vec_resize_panics).
    + assert (∃ v, (if Z.of_nat (length c) <? stop then vec_resize stop c else mret c) st = (Ok v, st)) as [v Hv].
      { destruct (Z.ltb_spec (Z.of_nat (length c)) stop); [apply vec_resize_ok; lia|by eexists]. }
      eapply good_ok; [rewrite E; erewrite M_bind_ok by exact Hv; rewrite (proj2 (Z.ltb_ge stop offset)) by lia;
        by erewrite M_bind_ok by (by apply set_node_ok)|by apply (fs_wf_update _ _ _ _ _ HW Hi)|].
      intros (c'&s'&Hc'&[Hx|Hx]); simplify_eq; [lia|done].
Qed.

Lemma truncate_good st H n size :
  fs_wf st H → op_ok st H (OpTruncate n size) →
  good st (vfs_truncate n size) (op_panics st (OpTruncate n size)) (λ _, H).
Proof.
  intros HW (Hn&H0). destruct (fw_handle _ _ HW n) as [_ Hin]. destruct (Hin Hn) as [i Hi]. cbn [op_panics].
  destruct i as [[p ch|c|p ch| |] s].
  1,3: eapply good_err; [unfold vfs_truncate; by erewrite M_bind_ok by (by apply get_node_ok)|other_node].
  2,3: eapply good_ok; [unfold vfs_truncate; by erewrite M_bind_ok by (by apply get_node_ok)|exact HW|other_node].
  assert (vfs_truncate n size st = (v ← (if size <? Z.of_nat (length c) then mret (take (Z.to_nat size) c) else vec_resize size c);
    set_node n (RamFile v)) st) as E by (unfold vfs_truncate; by erewrite M_bind_ok by (by apply get_node_ok)).
  destruct (decide (2 ^ 63 ≤ size ∧ Z.of_nat (length c) ≤ size)) as [[Hp Hc]|Hp].
  - eapply good_panic; [|by exists c, s]. rewrite E, (proj2 (Z.ltb_ge _ _) Hc). by erewrite M_bind_panic by (by apply vec_resize_panics).
  - assert (∃ v, (if size <? Z.of_nat (length c) then mret (take (Z.to_nat size) c) else vec_resize size c) st = (Ok v, st)) as [v Hv].
    { destruct (Z.ltb_spec size (Z.of_nat (length c))); [by eexists|apply vec_resize_ok; lia]. }
    eapply good_ok; [rewrite E; erewrite M_bind_ok by exact Hv; by apply set_node_ok|by apply (fs_wf_update _ _ _ _ _ HW Hi)|].
    intros (c'&s'&Hc'&Hx); by simplify_eq.
Qed.

Lemma read_good st H n offset len :
  fs_wf st H → op_ok st H (OpRead n offset len) →
  good st (vfs_read_at n offset len) (op_panics st (OpRead n offset len)) (λ _, H).
Proof.
  intros HW (Hn&H0&Hl). destruct (fw_handle _ _ HW n) as [_ Hin]. destruct (Hin Hn) as [i Hi]. cbn [op_panics].
  destruct i as [[p ch|c|p ch| |] s].
  1,3: eapply good_err; [unfold vfs_read_at; by erewrite M_bind_ok by (by apply get_node_ok)|other_node].
  2,3: eapply good_ok; [unfold vfs_read_at; by erewrite M_bind_ok by (by apply get_node_ok)|exact HW|other_node].
  assert (wrap 64 (offset + len) = offset + len - (if decide (2 ^ 64 ≤ offset + len) then 2 ^ 64 else 0)) as Hw.
  { case_decide; [|rewrite wrap_small; lia]. unfold wrap.
    replace (offset + len) with ((offset + len - 2 ^ 64) + 1 * 2 ^ 64) at 1 by lia. rewrite Z.mod_add, Z.mod_small by lia. lia. }
  unfold vfs_read_at. destruct (decide (2 ^ 64 ≤ offset + len < 2 ^ 64 + Z.of_nat (length c))) as [Hp|Hp].
  - eapply good_panic; [|by exists c, s]. erewrite M_bind_ok by (by apply get_node_ok). cbn [ino]. unfold add64. rewrite Hw, decide_True by lia.
    by rewrite (proj2 (Z.ltb_lt _ _)) by lia.
  - eapply good_ok; [|exact HW|intros (c'&s'&Hc'&Hx); by simplify_eq]. erewrite M_bind_ok by (by apply get_node_ok). cbn [ino]. unfold add64.
    rewrite Hw, (proj2 (Z.ltb_ge _ _)); [reflexivity|]. case_decide; lia.
Qed.

Lemma read_dir_loop_exact st len idx ch :
  Forall (λ x, is_Some (st !! x.2)) ch → 0 ≤ idx → Z.max idx 2 + Z.of_nat (length ch) < 2 ^ 64 →
  if decide (Forall short_name (take (len - Z.to_nat (2 - Z.min idx 2)) ch)) then ∃ l, read_dir_loop len idx ch st = (Ok l, st)
  else read_dir_loop len idx ch st = (Panic, st).
Proof.
  revert idx ch. induction len as [|len IH]; intros idx ch Hf H0 Hb; [by eexists|]. cbn [read_dir_loop].
  assert (∀ nm ty, (length (as_bytes nm) ≤ 63)%nat → ∃ e, VfsDirEntry_new (E:=AxError) nm ty st = (Ok e, st)) as Hnew.
  { intros nm ty Hle. unfold VfsDirEntry_new. rewrite (proj2 (Nat.ltb_ge _ _)) by done. by eexists. }
  assert (∀ nm ty ch' l, (length (as_bytes nm) ≤ 63)%nat → Forall (λ x, is_Some (st !! x.2)) ch' →
    Z.max (idx + 1) 2 + Z.of_nat (length ch') < 2 ^ 64 → take (len - Z.to_nat (2 - Z.min (idx + 1) 2)) ch' = l →
    if decide (Forall short_name l)
    then ∃ l, (e ← VfsDirEntry_new nm ty; l ← read_dir_loop len (add64 idx 1) ch'; mret (e :: l)) st = (Ok l, st)
    else (e ← VfsDirEntry_new nm ty; l ← read_dir_loop len (add64 idx 1) ch'; mret (e :: l)) st = (Panic, st)) as Hgo.
  { intros nm ty ch' l Hle Hch' Hb' <-. destruct (Hnew nm ty Hle) as [e He]. specialize (IH (idx + 1) ch' Hch' ltac:(lia) Hb').
    rewrite (add64_small idx 1) by (unfold in_u64; lia). case_decide.
    - destruct IH as [l Hl]. exists (e :: l). erewrite M_bind_ok by exact He. by erewrite M_bind_ok by exact Hl.
    - erewrite M_bind_ok by exact He. by erewrite M_bind_panic by exact IH. }
  destruct (Z.eqb_spec idx 0) as [->|]; [apply Hgo; [simpl; lia|done|lia|f_equal; lia]|].
  destruct (Z.eqb_spec idx 1) as [->|]; [apply Hgo; [simpl; lia|done|lia|f_equal; lia]|].
  replace (S len - Z.to_nat (2 - Z.min idx 2))%nat with (S len) by lia. destruct ch as [|[nm c] ch]; [by eexists|].
  cbn [take length] in *. apply Forall_cons in Hf as [[i Hi] Hf].
  assert (∃ a, get_attr c st = (Ok a, st)) as [a Ha] by (eexists; unfold get_attr; by erewrite M_bind_ok by (by apply get_node_ok)).
  destruct (decide (short_name (nm, c))) as [Hs|Hs].
  - erewrite M_bind_ok by exact Ha. specialize (Hgo nm (attr_ty a) ch (take len ch) Hs Hf ltac:(lia)).
    ospecialize (Hgo _); [f_equal; lia|]. repeat case_decide; try done; exfalso; rewrite Forall_cons in *; naive_solver.
  - rewrite decide_False by (rewrite Forall_cons; tauto). erewrite M_bind_ok by exact Ha. unfold VfsDirEntry_new.
    rewrite (proj2 (Nat.ltb_lt _ _)); [done|]. unfold short_name in Hs. cbn [fst] in Hs. lia.
Qed.

Lemma read_dir_good st H n start_idx len :
  fs_wf st H → op_ok st H (OpReadDir n start_idx len) →
  good st (vfs_read_dir n start_idx len) (op_panics st (OpReadDir n start_idx len)) (λ _, H).
Proof.
  intros HW (Hn&H0&Hs). destruct (fw_handle _ _ HW n) as [_ Hin]. destruct (Hin Hn) as [i Hi]. cbn [op_panics].
  specialize (Hs i Hi). set (l := drop (Z.to_nat (Z.max start_idx 2 - 2)) (children_of (ino i))).
  assert (Forall (λ x, is_Some (st !! x.2)) l) as Hl.
  { apply Forall_drop, Forall_forall. intros [nm c] Hx. apply HW. eapply elem_of_all_children; [done|].
    apply list_elem_of_fmap. by exists (nm, c). }
  pose proof (read_dir_loop_exact st len start_idx l Hl ltac:(lia) ltac:(unfold l; rewrite length_drop; lia)) as Hr.
  assert (∀ i', st !! n = Some i' → listed start_idx len (children_of (ino i')) = take (len - Z.to_nat (2 - Z.min start_idx 2)) l) as He.
  { intros i' Hi'. rewrite Hi in Hi'. by injection Hi' as <-. }
  destruct i as [[p ch|c|p ch| |] s].
  2,4,5: eapply good_err; [unfold vfs_read_dir; by erewrite M_bind_ok by (by apply get_node_ok)|];
    intros (i'&Hi'&Hx); apply Hx; rewrite (He i' Hi'); subst l; cbn [children_of ino]; by rewrite drop_nil, take_nil.
  all: unfold vfs_read_dir; case_decide as Hd.
  1,3: destruct Hr as [es Hes]; eapply good_ok;
    [erewrite M_bind_ok by (by apply get_node_ok); exact Hes|exact HW|intros (i'&Hi'&Hx); apply Hx; by rewrite (He i' Hi')].
  all: eapply good_panic; [erewrite M_bind_ok by (by apply get_node_ok); exact Hr|eexists; split; [exact Hi|by rewrite (He _ Hi)]].
Qed.

(** A name without a node removes nothing. *)
Lemma bt_remove_none (ch : Children) name : bt_sorted ch → bt_get name ch = None → ch ≡ₚ bt_remove name ch.
Proof.
  intros Hs Hg. apply (Permutation_cons_inv (a := (name, 1%positive))).
  by rewrite <-bt_insert_perm, bt_insert_fresh.
Qed.

(** The reference to [node] moves into the directory; the one it replaces is dropped. *)
Lemma dev_insert_ok st H n s p ch name node :
  fs_wf st (plus node 1 H) → (∀ m, 0 ≤ H m) → is_Some (st !! node) →
  st !! n = Some {| ino := DevDir p ch; strong := s |} →
  ∃ st', dev_insert n name node st = (Ok tt, st') ∧ fs_wf st' H.
Proof.
  intros HW HH Hnode Hn. pose proof (fw_sorted _ _ HW _ _ Hn) as Hs. simpl in Hs.
  pose proof (bt_insert_perm name node ch) as Hi.
  set (st1 := <[n := {| ino := DevDir p (bt_insert name node ch); strong := s |}]> st).
  set (H1 := match bt_get name ch with Some old => plus old 1 H | None => H end).
  assert (∀ c, c ∈ ch.*2 → is_Some (st !! c)) as Hch.
  { intros c Hc. apply HW. by eapply elem_of_all_children. }
  assert (fs_wf st1 H1) as HW1.
  { eapply (fs_wf_set _ _ H1 n {| ino := DevDir p ch; strong := s |} (DevDir p (bt_insert name node ch)) HW Hn);
      cbn [children_of ino same_kind may_hold]; [done|by apply bt_insert_sorted| | |].
    - intros c Hc. rewrite Hi, fmap_cons in Hc. apply elem_of_cons in Hc as [->|Hc]; [done|].
      apply Hch. apply list_elem_of_fmap in Hc as (y&->&Hy). apply list_elem_of_fmap. exists y.
      split; [done|]. by apply bt_elem_remove in Hy as [? _].
    - intros m. rewrite Hi, fmap_cons. unfold refs, plus, H1. cbn [children_of ino occ snd].
      destruct (bt_get name ch) as [old|] eqn:Hg.
      + rewrite (bt_remove_perm name old ch Hs Hg) at 2. rewrite fmap_cons. unfold plus. cbn [occ snd]. lia.
      + rewrite (bt_remove_none ch name Hs Hg) at 2. lia.
    - intros m. subst H1. destruct (bt_get name ch) as [old|] eqn:Hg.
      + unfold plus. pose proof (HH m). pose proof (b2z_nonneg (old = m)). split; [lia|]. intros Hm.
        destruct (decide (old = m)) as [<-|].
        * apply Hch. rewrite (bt_remove_perm name old ch Hs Hg). set_solver.
        * rewrite b2z_false in Hm by done. apply (fw_handle _ _ HW m). unfold plus.
          pose proof (b2z_nonneg (node = m)). lia.
      + split; [done|]. intros Hm. apply (fw_handle _ _ HW m). unfold plus.
        pose proof (b2z_nonneg (node = m)). lia. }
  assert (dev_insert n name node st =
    (match bt_get name ch with Some old => node_drop old | None => mret tt end) st1) as Hrun.
  { unfold dev_insert. erewrite M_bind_ok by (by apply get_node_ok). cbn [ino].
    by erewrite M_bind_ok by (by apply set_node_ok). }
  subst H1. destruct (bt_get name ch) as [old|].
  - destruct (node_drop_ok st1 H old HW1 HH) as (st2&Hd&HW2&_). rewrite Hd in Hrun. eauto.
  - eauto.
Qed.

Lemma dev_mkdir_good st H n name new :
  fs_wf st H → op_ok st H (OpMkdir n name new) →
  good st (dev_mkdir n name new) False (λ k, plus k 1 H).
Proof.
  intros HW (Hn&Hnew&s&p&ch&Hd).
  pose proof (fs_wf_new _ _ new (DevDir (Some n) []) 2 HW Hnew eq_refl ltac:(lia)) as HW1.
  set (st1 := <[new := _]> st) in *. assert (n ≠ new) by congruence.
  destruct (dev_insert_ok st1 (plus new 1 H) n s p ch name new) as (st2&Hr&HW2).
  - eapply fs_wf_ext, HW1. intros m. unfold plus. lia.
  - intros m. unfold plus. pose proof (fw_handle _ _ HW m). pose proof (b2z_nonneg (new = m)). lia.
  - subst st1. rewrite lookup_insert_eq. eauto.
  - subst st1. by rewrite lookup_insert_ne.
  - eapply good_ok; [|exact HW2|tauto]. unfold dev_mkdir. erewrite M_bind_ok by reflexivity. fold st1.
    by erewrite M_bind_ok by exact Hr.
Qed.

Lemma dev_add_good st H n name node :
  fs_wf st H → op_ok st H (OpAdd n name node) → good st (dev_add n name node) False (λ _, plus node (-1) H).
Proof.
  intros HW (Hn&Hnode&s&p&ch&Hd). unfold plus in Hnode.
  assert (1 ≤ H node) as Hh by (pose proof (b2z_nonneg (n = node)); lia).
  destruct (dev_insert_ok st (plus node (-1) H) n s p ch name node) as (st2&Hr&HW2).
  - eapply fs_wf_ext, HW. intros m. unfold plus. lia.
  - intros m. unfold plus. destruct (fw_handle _ _ HW m) as [? _].
    unfold b2z. destruct (decide _) as [<-|]; lia.
  - by apply (fw_handle _ _ HW).
  - done.
  - eapply good_ok; [done|done|tauto].
Qed.

Lemma drop_good st H n : fs_wf st H → 1 ≤ H n → good st (node_drop n) False (λ _, plus n (-1) H).
Proof.
  intros HW Hn. destruct (node_drop_ok st (plus n (-1) H) n) as (st'&Hd&HW'&_).
  - eapply fs_wf_ext, HW. intros m. unfold plus. lia.
  - intros m. unfold plus. destruct (fw_handle _ _ HW m) as [? _].
    unfold b2z. destruct (decide _) as [<-|]; lia.
  - eapply good_ok; [done|done|tauto].
Qed.

End paths.

(** ** Example: an empty RAM file system *)

Lemma fs_wf_empty : fs_wf ∅ (λ _, 0).
Proof.
  split; intros; simplify_map_eq; try done.
  - by apply not_elem_of_nil in H.
Qed.

(** [RamFileSystem::new] and [DeviceFileSystem::new] make one reference. *)
Lemma new_fs_wf st H root x :
  fs_wf st H → st !! root = None → x = RamDir None [] ∨ x = DevDir None [] →
  fs_wf (<[root := {| ino := x; strong := 1 |}]> st) (plus root 1 H).
Proof. intros HW Hr Hx. apply fs_wf_new; [done|done|naive_solver|lia]. Qed.

Definition example_fs : Store := {[1%positive := {| ino := RamDir None []; strong := 1 |}]}.
Definition example_held : nid → Z := plus 1 1 (λ _, 0).

Lemma example_fs_wf : fs_wf example_fs example_held.
Proof. apply (new_fs_wf ∅ (λ _, 0) 1); [apply fs_wf_empty|done|by left]. Qed.

Section examples.
Local Instance example_bitflags : Bitflags := std_bitflags.


Lemma path_operations_witness :
  ∃ st', vfs_create 1 [97] File_ 2 example_fs = (Ok tt, st') ∧
    path_walk st' 1 (components [97]) = Ok 2%positive.
Proof.
  destruct (vfs_create 1 [97] File_ 2 example_fs) as [r st'] eqn:Hc. exists st'.
  assert (r = Ok tt) as -> by (apply (f_equal fst) in Hc; vm_compute in Hc; by symmetry).
  split; [done|].
  destruct (path_operations example_fs example_held 1 [97] example_fs_wf) as (_&Hcr&_); [done|].
  destruct (Hcr File_ 2%positive st' eq_refl Hc) as [(_&nm&[= <-]&[])|(_&_&_&_&_&_&_&Hw&_)]. exact Hw.
Defined.
End examples.
