(* ===== verification/AxIo.v ===== *)
(** * Readers and writers ([crates/axio])

    The traits [Read], [Write] and [BufRead] with their default methods, the reader
    of a byte slice and the buffered reader.  A call that fills a buffer of [len]
    bytes returns the bytes it put there; the vector or string that a method appends
    to is part of the state, since an error leaves what was appended in it. *)

From Stdlib Require Import ZArith Lia.
From stdpp Require Import base decidable numbers list.
From S2P Require Import Prelude LinkedList Path Vfs.

Local Open Scope Z_scope.

Definition len (l : list Z) : Z := Z.of_nat (length l).

(** ** The traits *)

(** [Read]; [read_to_end] loops until the end of the source, a number of turns that
    only the source bounds. *)
Class Read (R : Type) : Type := {
  read : Z → M R AxError (list Z);
  read_exact : Z → M R AxError (list Z);
  read_to_end : nat → M (R * list Z) AxError Z;
}.

Class Write (W : Type) : Type := { write : list Z → M W AxError Z }.

Class BufRead (B : Type) : Type := { fill_buf : M B AxError (list Z); consume : Z → M B AxError unit }.

(** [Vec::extend_from_slice] on the vector in the state. *)
Definition extend {R} (l : list Z) : M (R * list Z) AxError unit := modify (λ s, (s.1, s.2 ++ l)).

(** ** Default methods of [Read] *)

Section read_defaults.
Context {R : Type} (read_ : Z → M R AxError (list Z)).

Fixpoint read_to_end_loop (start_len : Z) (fuel : nat) : M (R * list Z) AxError Z :=
  match fuel with
  | O => out_of_fuel
  | S fuel =>
      probe ← on_fst (read_ 32);
      if len probe =? 0 then s ← get_state; mret (len s.2 - start_len)
      else if 32 <? len probe then panic
      else _ ← extend probe; read_to_end_loop start_len fuel
  end.
Definition default_read_to_end (fuel : nat) : M (R * list Z) AxError Z :=
  s ← get_state; read_to_end_loop (len s.2) fuel.

(** Every turn of the loop fills a byte or more. *)
Fixpoint read_exact_loop (fuel : nat) (n : Z) (filled : list Z) : M R AxError (list Z) :=
  match fuel with
  | O => out_of_fuel
  | S fuel =>
      if n =? 0 then mret filled
      else
        l ← read_ n;
        if len l =? 0 then throw UnexpectedEof
        else if n <? len l then panic
        else read_exact_loop fuel (n - len l) (filled ++ l)
  end.
Definition default_read_exact (n : Z) : M R AxError (list Z) := read_exact_loop (S (Z.to_nat n)) n [].
End read_defaults.

(** ** Strings: [core::str::from_utf8] and [append_to_string] *)

Definition cont_byte (b : Z) : bool := ((0x80 <=? b) && (b <=? 0xBF))%bool.
Definition between (lo b hi : Z) : bool := ((lo <=? b) && (b <=? hi))%bool.
Fixpoint from_utf8 (l : list Z) : bool :=
  match l with
  | [] => true
  | b0 :: l1 =>
      if b0 <? 0x80 then from_utf8 l1
      else match l1 with
      | [] => false
      | b1 :: l2 =>
          if between 0xC2 b0 0xDF then (cont_byte b1 && from_utf8 l2)%bool
          else match l2 with
          | [] => false
          | b2 :: l3 =>
              if (b0 =? 0xE0) then (between 0xA0 b1 0xBF && cont_byte b2 && from_utf8 l3)%bool
              else if (b0 =? 0xED) then (between 0x80 b1 0x9F && cont_byte b2 && from_utf8 l3)%bool
              else if between 0xE1 b0 0xEF then (cont_byte b1 && cont_byte b2 && from_utf8 l3)%bool
              else match l3 with
              | [] => false
              | b3 :: l4 =>
                  if b0 =? 0xF0 then
                    (between 0x90 b1 0xBF && cont_byte b2 && cont_byte b3 && from_utf8 l4)%bool
                  else if between 0xF1 b0 0xF3 then
                    (cont_byte b1 && cont_byte b2 && cont_byte b3 && from_utf8 l4)%bool
                  else if b0 =? 0xF4 then
                    (between 0x80 b1 0x8F && cont_byte b2 && cont_byte b3 && from_utf8 l4)%bool
                  else false
              end
          end
      end
  end.

Definition append_to_string {R} (f : M (R * list Z) AxError Z) : M (R * list Z) AxError Z :=
  s ← get_state;
  let old_len := length s.2 in
  ret ← f;
  s ← get_state;
  if negb (from_utf8 (drop old_len s.2)) then throw InvalidData else mret ret.

Definition default_read_to_string {R} `{Read R} (fuel : nat) : M (R * list Z) AxError Z :=
  append_to_string (read_to_end fuel).

(** ** Default methods of [Write] and [BufRead] *)

(** Every turn of the loop writes a byte or more. *)
Fixpoint write_all_loop {W} `{Write W} (fuel : nat) (buf : list Z) : M W AxError unit :=
  match fuel with
  | O => out_of_fuel
  | S fuel =>
      if bool_decide (buf = []) then mret tt
      else
        n ← write buf;
        if n =? 0 then throw WriteZero
        else if len buf <? n then panic
        else write_all_loop fuel (drop (Z.to_nat n) buf)
  end.
Definition write_all {W} `{Write W} (buf : list Z) : M W AxError unit := write_all_loop (S (length buf)) buf.

Section buf_read_defaults.
Context {B : Type} `{BufRead B}.

Definition has_data_left : M B AxError bool := b ← fill_buf; mret (negb (bool_decide (b = []))).

(** [fill_buf] in [read_until], where [WouldBlock] starts the turn again. *)
Definition fill_or_block : M B AxError (option (list Z)) := λ s,
  match fill_buf s with
  | (Ok l, s') => (Ok (Some l), s')
  | (Err WouldBlock, s') => (Ok None, s')
  | (Err e, s') => (Err e, s')
  | (Panic, s') => (Panic, s')
  | (OutOfFuel, s') => (OutOfFuel, s')
  end.

(** [iter().position(|&b| b == byte)]. *)
Fixpoint position (byte : Z) (l : list Z) : option nat :=
  match l with
  | [] => None
  | b :: l => if b =? byte then Some 0%nat else S <$> position byte l
  end.

Fixpoint read_until_loop (byte : Z) (fuel : nat) (read : Z) : M (B * list Z) AxError Z :=
  match fuel with
  | O => out_of_fuel
  | S fuel =>
      available ← on_fst fill_or_block;
      match available with
      | None => read_until_loop byte fuel read
      | Some available =>
          let '(data, done) := match position byte available with
                               | Some i => (take (S i) available, true)
                               | None => (available, false)
                               end in
          let used := len data in
          _ ← extend data;
          _ ← on_fst (consume used);
          if (done || (used =? 0))%bool then mret (add64 read used)
          else read_until_loop byte fuel (add64 read used)
      end
  end.
Definition read_until (byte : Z) (fuel : nat) : M (B * list Z) AxError Z := read_until_loop byte fuel 0.
Definition read_line (fuel : nat) : M (B * list Z) AxError Z := append_to_string (read_until 10 fuel).
End buf_read_defaults.

(** ** [impl Read for &[u8]] *)

Definition slice_read (n : Z) : M (list Z) AxError (list Z) :=
  s ← get_state;
  let amt := Z.to_nat (Z.min n (len s)) in
  _ ← put_state (drop amt s);
  mret (take amt s).
Definition slice_read_exact (n : Z) : M (list Z) AxError (list Z) :=
  s ← get_state;
  if len s <? n then throw UnexpectedEof
  else _ ← put_state (drop (Z.to_nat n) s); mret (take (Z.to_nat n) s).
Definition slice_read_to_end (fuel : nat) : M (list Z * list Z) AxError Z :=
  s ← get_state; _ ← put_state ([], s.2 ++ s.1); mret (len s.1).
#[export] Instance slice_Read : Read (list Z) :=
  {| read := slice_read; read_exact := slice_read_exact; read_to_end := slice_read_to_end |}.

(** ** [BufReader] *)

Definition DEFAULT_BUF_SIZE : Z := 1024.

Record BufReader (R : Type) : Type := { br_inner : R; br_pos : Z; br_filled : Z; br_buf : list Z }.
Arguments br_inner {R}.
Arguments br_pos {R}.
Arguments br_filled {R}.
Arguments br_buf {R}.

Section bufreader.
Context {R : Type} `{Read R}.
Local Abbreviation BM := (M (BufReader R) AxError).

Definition BufReader_new (inner : R) : BufReader R :=
  {| br_inner := inner; br_pos := 0; br_filled := 0; br_buf := replicate (Z.to_nat DEFAULT_BUF_SIZE) 0 |}.

(** [buffer]: the slice panics when its bounds are out of order or out of range. *)
Definition buffer : BM (list Z) :=
  b ← get_state;
  if ((br_filled b <? br_pos b) || (len (br_buf b) <? br_filled b))%bool then panic
  else mret (take (Z.to_nat (br_filled b - br_pos b)) (drop (Z.to_nat (br_pos b)) (br_buf b))).
Definition set_range (pos filled : Z) : BM unit :=
  modify (λ b, {| br_inner := br_inner b; br_pos := pos; br_filled := filled; br_buf := br_buf b |}).
Definition discard_buffer : BM unit := set_range 0 0.
Definition br_is_empty (b : BufReader R) : bool := br_filled b <=? br_pos b.

(** A call of the inner reader. *)
Definition on_inner {A} (m : M R AxError A) : BM A := λ b,
  let '(r, i) := m (br_inner b) in
  (r, {| br_inner := i; br_pos := br_pos b; br_filled := br_filled b; br_buf := br_buf b |}).
Definition on_inner_vec {A} (m : M (R * list Z) AxError A) : M (BufReader R * list Z) AxError A := λ s,
  let '(r, (i, v)) := m (br_inner s.1, s.2) in
  (r, ({| br_inner := i; br_pos := br_pos s.1; br_filled := br_filled s.1; br_buf := br_buf s.1 |}, v)).

Definition br_fill_buf : BM (list Z) :=
  b ← get_state;
  _ ← (if br_is_empty b then
         l ← on_inner (read DEFAULT_BUF_SIZE);
         modify (λ b, {| br_inner := br_inner b; br_pos := 0; br_filled := len l;
                         br_buf := l ++ drop (length l) (br_buf b) |})
       else mret tt);
  buffer.
Definition br_consume (amt : Z) : BM unit :=
  b ← get_state; set_range (Z.min (add64 (br_pos b) amt) (br_filled b)) (br_filled b).

Definition br_read (n : Z) : BM (list Z) :=
  b ← get_state;
  if (br_is_empty b && (DEFAULT_BUF_SIZE <=? n))%bool then
    _ ← discard_buffer; on_inner (read n)
  else
    rem ← br_fill_buf;
    let l := take (Z.to_nat n) rem in
    _ ← br_consume (len l);
    mret l.
Definition br_read_exact (amt : Z) : BM (list Z) :=
  rem ← buffer;
  if amt <=? len rem then
    b ← get_state;
    _ ← set_range (add64 (br_pos b) amt) (br_filled b);
    mret (take (Z.to_nat amt) rem)
  else on_inner (read_exact amt).
Definition br_read_to_end (fuel : nat) : M (BufReader R * list Z) AxError Z :=
  inner_buf ← on_fst buffer;
  _ ← extend inner_buf;
  _ ← on_fst discard_buffer;
  n ← on_inner_vec (read_to_end fuel);
  mret (add64 (len inner_buf) n).

#[export] Instance BufReader_Read : Read (BufReader R) :=
  {| read := br_read; read_exact := br_read_exact; read_to_end := br_read_to_end |}.
#[export] Instance BufReader_BufRead : BufRead (BufReader R) :=
  {| fill_buf := br_fill_buf; consume := br_consume |}.

(** A string that is not empty gets the bytes only when they are valid. *)
Definition br_read_to_string (fuel : nat) : M (BufReader R * list Z) AxError Z :=
  s ← get_state;
  if bool_decide (s.2 = []) then append_to_string (br_read_to_end fuel)
  else
    _ ← put_state (s.1, []);
    r ← (λ s', match br_read_to_end fuel s' with
               | (Err e, (b, bytes)) => (Err e, (b, s.2))
               | x => x
               end);
    s' ← get_state;
    if from_utf8 s'.2 then _ ← put_state (s'.1, s.2 ++ s'.2); mret (len s'.2)
    else _ ← put_state (s'.1, s.2); throw InvalidData.
End bufreader.
Arguments BufReader_new {R}.
