(* ===== verification/AxIoProps.v ===== *)
(** * Correctness of readers and writers

    A reader is specified by the bytes that it has still to deliver.  The default
    methods meet the specification when [read] does, and the buffered reader meets
    it when its inner reader does. *)

From Stdlib Require Import ZArith Lia.
From stdpp Require Import base decidable numbers list.
From S2P Require Import Prelude LinkedList Path Vfs AxIo.

Local Open Scope Z_scope.

(** ** The laws of a reader

    [stream] are the bytes to come, [ok] the states the laws hold in, and [fails]
    says whether a call may fail; a call that fails loses no byte.  A buffer has
    fewer than [2 ^ 63] bytes. *)

Section laws.
Context {R : Type} (stream : R → list Z) (ok : R → Prop) (fails : Prop).

Definition read_law (read_ : Z → M R AxError (list Z)) : Prop := ∀ r n,
  ok r → 0 ≤ n < 2 ^ 63 →
  match read_ n r with
  | (Ok l, r') => ok r' ∧ stream r = l ++ stream r' ∧ len l ≤ n ∧ (0 < n → l = [] → stream r = [])
  | (Err e, r') => fails ∧ ok r' ∧ stream r' = stream r
  | _ => False
  end.
Definition read_to_end_law (read_to_end_ : nat → M (R * list Z) AxError Z) : Prop := ∀ r v fuel,
  ok r → (length (stream r) < fuel)%nat → len (stream r) < 2 ^ 64 →
  match read_to_end_ fuel (r, v) with
  | (Ok n, (r', v')) => ok r' ∧ n = len (stream r) ∧ v' = v ++ stream r ∧ stream r' = []
  | (Err e, (r', v')) => fails ∧ ok r' ∧ ∃ l, v' = v ++ l ∧ stream r = l ++ stream r'
  | _ => False
  end.
Definition read_exact_law (read_exact_ : Z → M R AxError (list Z)) : Prop := ∀ r n,
  ok r → 0 ≤ n < 2 ^ 63 →
  match read_exact_ n r with
  | (Ok l, r') => ok r' ∧ len l = n ∧ stream r = l ++ stream r'
  | (Err e, r') => ok r' ∧ (fails ∨ e = UnexpectedEof ∧ len (stream r) < n)
  | _ => False
  end.
End laws.

Class ReadSpec (R : Type) `{Read R} : Type := {
  stream : R → list Z;
  rd_ok : R → Prop;
  rd_fails : Prop;
  rd_read : read_law stream rd_ok rd_fails read;
  rd_read_to_end : read_to_end_law stream rd_ok rd_fails read_to_end;
}.

Lemma len_app l k : len (l ++ k) = len l + len k.
Proof. unfold len. rewrite length_app. lia. Qed.
Lemma len_nil_inv l : len l = 0 → l = [].
Proof. unfold len. intros H. apply nil_length_inv. lia. Qed.
Lemma len_nil : len [] = 0.
Proof. done. Qed.
Lemma len_nonneg l : 0 ≤ len l.
Proof. unfold len. lia. Qed.

(** ** The default methods *)

Section defaults.
Context {R : Type} (stream : R → list Z) (ok : R → Prop) (fails : Prop).
Context (read_ : Z → M R AxError (list Z)) (Hread : read_law stream ok fails read_).

Lemma read_to_end_loop_ok r v start fuel :
  ok r → (length (stream r) < fuel)%nat →
  match read_to_end_loop read_ start fuel (r, v) with
  | (Ok n, (r', v')) => ok r' ∧ n = len v + len (stream r) - start ∧ v' = v ++ stream r ∧ stream r' = []
  | (Err e, (r', v')) => fails ∧ ok r' ∧ ∃ l, v' = v ++ l ∧ stream r = l ++ stream r'
  | _ => False
  end.
Proof.
  revert r v. induction fuel as [|fuel IH]; intros r v Hok Hf; [lia|].
  cbn [read_to_end_loop]. unfold mbind at 1, M_bind at 1, on_fst. cbn [fst snd].
  pose proof (Hread r 32 Hok ltac:(lia)) as Hr.
  destruct (read_ 32 r) as [[l|e| |] r'] eqn:Er; [|..|done].
  - destruct Hr as (Hok'&Hs&Hl&He). destruct (len l =? 0) eqn:E0; bool_to_prop.
    + apply len_nil_inv in E0 as ->. unfold mbind, M_bind, get_state. cbn.
      rewrite He by done. assert (stream r' = []) as -> by (rewrite (He ltac:(lia) eq_refl) in Hs; done).
      rewrite app_nil_r. split_and!; try done. unfold len. simpl. lia.
    + rewrite (proj2 (Z.ltb_ge 32 _)) by lia. unfold mbind, M_bind, extend, modify. cbn [fst snd].
      assert (l ≠ []) as Hne by (by intros ->). assert (0 < length l)%nat by (destruct l; [done|simpl; lia]).
      rewrite Hs, length_app in Hf. specialize (IH r' (v ++ l) Hok' ltac:(lia)).
      destruct (read_to_end_loop _ _ _ _) as [[n|e| |] [r2 v2]]; [|..|done].
      * destruct IH as (?&->&->&?). rewrite Hs, !len_app, <- app_assoc. split_and!; try done. lia.
      * destruct IH as (?&?&k&->&Hk). split_and!; try done. exists (l ++ k).
        by rewrite Hs, Hk, <- !app_assoc.
      * done.
  - destruct Hr as (?&?&Hs). split_and!; try done. exists []. by rewrite app_nil_r, Hs.
  - done.
Qed.

Lemma default_read_to_end_ok : read_to_end_law stream ok fails (default_read_to_end read_).
Proof.
  intros r v fuel Hok Hf _. unfold default_read_to_end. erewrite M_bind_ok by reflexivity. cbn [snd].
  pose proof (read_to_end_loop_ok r v (len v) fuel Hok Hf) as Hl.
  destruct (read_to_end_loop _ _ _ _) as [[n|e| |] [r' v']]; try done.
  destruct Hl as (?&->&->&?). split_and!; try done. lia.
Qed.

Lemma read_exact_loop_ok fuel r n filled :
  ok r → 0 ≤ n < 2 ^ 63 → (Z.to_nat n < fuel)%nat →
  match read_exact_loop read_ fuel n filled r with
  | (Ok l, r') => ∃ k, l = filled ++ k ∧ ok r' ∧ len k = n ∧ stream r = k ++ stream r'
  | (Err e, r') => ok r' ∧ (fails ∨ e = UnexpectedEof ∧ len (stream r) < n)
  | _ => False
  end.
Proof.
  revert r n filled. induction fuel as [|fuel IH]; intros r n filled Hok Hn Hf; [lia|].
  cbn [read_exact_loop]. destruct (n =? 0) eqn:E0; bool_to_prop.
  { subst n. exists []. rewrite app_nil_r. by split_and!. }
  unfold mbind, M_bind. pose proof (Hread r n Hok Hn) as Hr.
  destruct (read_ n r) as [[l|e| |] r']; [| |done..].
  2: { destruct Hr as (?&?&?). split; [done|]. by left. }
  destruct Hr as (Hok'&Hs&Hl&He). destruct (len l =? 0) eqn:E1; bool_to_prop.
  { apply len_nil_inv in E1 as ->. split; [done|]. right. split; [done|]. rewrite He by (done || lia). unfold len. simpl. lia. }
  rewrite (proj2 (Z.ltb_ge n _)) by lia. pose proof (len_nonneg l).
  specialize (IH r' (n - len l) (filled ++ l) Hok' ltac:(lia) ltac:(lia)).
  destruct (read_exact_loop _ _ _ _ _) as [[k|e| |] r2]; try done.
  - destruct IH as (k'&->&?&Hk&Hk2). exists (l ++ k').
    rewrite Hs, Hk2, len_app, <- !app_assoc. split_and!; try done. lia.
  - destruct IH as (?&[?|[-> Hlt]]); (split; [done|]); [by left|]. right. split; [done|].
    rewrite Hs, len_app. lia.
Qed.

Lemma default_read_exact_ok : read_exact_law stream ok fails (default_read_exact read_).
Proof.
  intros r n Hok Hn. unfold default_read_exact.
  pose proof (read_exact_loop_ok (S (Z.to_nat n)) r n [] Hok Hn ltac:(lia)) as Hl.
  destruct (read_exact_loop _ _ _ _ _) as [[l|e| |] r']; try done.
  destruct Hl as (k&->&?&?&?). done.
Qed.
End defaults.

(** ** The reader of a slice *)

Lemma slice_read_law : read_law (λ s : list Z, s) (λ _, True) False slice_read.
Proof.
  intros s n _ Hn. unfold slice_read, mbind, M_bind, get_state, put_state. cbn.
  split_and!; try done; [by rewrite take_drop| |].
  - unfold len in *. rewrite length_take. lia.
  - intros Hp Ht%(f_equal length). rewrite length_take in Ht. cbn in Ht. unfold len in Ht.
    apply nil_length_inv. lia.
Qed.

Lemma slice_read_to_end_law : read_to_end_law (λ s : list Z, s) (λ _, True) False slice_read_to_end.
Proof. intros s v fuel _ _ _. by cbn. Qed.

Lemma slice_read_exact_law : read_exact_law (λ s : list Z, s) (λ _, True) False slice_read_exact.
Proof.
  intros s n _ Hn. unfold slice_read_exact, mbind, M_bind, get_state, put_state.
  destruct (len s <? n) eqn:E; bool_to_prop; cbn; [split; [done|by right]|].
  unfold len in *. rewrite length_take, take_drop. split_and!; try done. lia.
Qed.

#[export] Instance slice_ReadSpec : ReadSpec (list Z) :=
  {| rd_read := slice_read_law; rd_read_to_end := slice_read_to_end_law |}.

(** ** The buffered reader *)

Section bufreader.
Context {R : Type} `{RD : Read R} `{RS : !ReadSpec R}.

Definition buffered (b : BufReader R) : list Z :=
  take (Z.to_nat (br_filled b - br_pos b)) (drop (Z.to_nat (br_pos b)) (br_buf b)).
Definition br_stream (b : BufReader R) : list Z := buffered b ++ stream (br_inner b).
Definition br_ok (b : BufReader R) : Prop :=
  0 ≤ br_pos b ≤ br_filled b ∧ br_filled b ≤ DEFAULT_BUF_SIZE ∧ len (br_buf b) = DEFAULT_BUF_SIZE ∧
  rd_ok (br_inner b).

Lemma buffered_len b : br_ok b → len (buffered b) = br_filled b - br_pos b.
Proof.
  intros (?&?&?&?). unfold buffered, len in *. rewrite length_take, length_drop. lia.
Qed.

Lemma buffered_empty b : br_filled b ≤ br_pos b → buffered b = [].
Proof. intros. unfold buffered. by replace (Z.to_nat (br_filled b - br_pos b)) with 0%nat by lia. Qed.

Lemma buffer_ok b : br_ok b → buffer b = (Ok (buffered b), b).
Proof.
  intros (?&?&?&?). unfold buffer, mbind, M_bind, get_state.
  by rewrite (proj2 (Z.ltb_ge (br_filled b) _)), (proj2 (Z.ltb_ge (len _) _)) by lia.
Qed.

(** The state after [consume] or [discard_buffer], and after the buffer is filled. *)
Definition ranged (b : BufReader R) (pos filled : Z) : BufReader R :=
  {| br_inner := br_inner b; br_pos := pos; br_filled := filled; br_buf := br_buf b |}.

Lemma consume_ok b n :
  br_ok b → 0 ≤ n ≤ len (buffered b) →
  ∃ b', br_consume n b = (Ok tt, b') ∧ br_ok b' ∧ br_inner b' = br_inner b ∧
    buffered b' = drop (Z.to_nat n) (buffered b).
Proof.
  intros Hok Hn. rewrite (buffered_len b Hok) in Hn. destruct Hok as (?&Hf&?&?).
  exists (ranged b (br_pos b + n) (br_filled b)). unfold DEFAULT_BUF_SIZE in *. split_and!; try done.
  - unfold br_consume, mbind, M_bind, get_state. rewrite add64_small by (unfold in_u64; lia).
    by rewrite Z.min_l by lia.
  - split_and!; cbn; lia || done.
  - unfold buffered. cbn. rewrite skipn_firstn_comm, drop_drop. f_equal; [lia|].
    f_equal. lia.
Qed.

Lemma fill_ok b :
  br_ok b →
  match br_fill_buf b with
  | (Ok l, b') => br_ok b' ∧ br_stream b' = br_stream b ∧ l = buffered b' ∧ (l = [] → br_stream b = [])
  | (Err e, b') => rd_fails ∧ br_ok b' ∧ br_stream b' = br_stream b
  | _ => False
  end.
Proof.
  intros Hok. unfold br_fill_buf, mbind at 1, M_bind at 1, get_state at 1. unfold br_is_empty.
  destruct (br_filled b <=? br_pos b) eqn:E; bool_to_prop.
  2: { erewrite M_bind_ok by reflexivity. rewrite (buffer_ok b Hok). split_and!; try done.
       intros Hb%(f_equal len). rewrite (buffered_len b Hok) in Hb. rewrite len_nil in Hb. lia. }
  unfold mbind at 1, M_bind at 1. unfold mbind at 1, M_bind at 1. unfold on_inner.
  destruct Hok as (Hp&Hf&Hb&Hi). pose proof (rd_read _ DEFAULT_BUF_SIZE Hi ltac:(done)) as Hr.
  destruct (read _ (br_inner b)) as [[l|e| |] i]; [| |done..].
  - destruct Hr as (Hi'&Hs&Hl&He). unfold modify. cbn [br_inner br_pos br_filled br_buf].
    set (b' := Build_BufReader _ _ _ _ _).
    assert (len (l ++ drop (length l) (br_buf b)) = DEFAULT_BUF_SIZE) as Hlen.
    { unfold len in *. rewrite length_app, length_drop. lia. }
    assert (br_ok b') as Hok' by (split_and!; cbn; try done; apply len_nonneg).
    rewrite (buffer_ok _ Hok'). split; [done|]. unfold br_stream. rewrite (buffered_empty b) by lia.
    assert (buffered b' = l) as ->.
    { unfold buffered, b', len. cbn [br_buf br_pos br_filled]. by rewrite Z.sub_0_r, Nat2Z.id, drop_0, take_app_length. }
    split_and!; try done. intros ->. cbn. by apply He.
  - destruct Hr as (?&?&Hs). split_and!; try done. unfold br_stream.
    rewrite !buffered_empty by (cbn; lia). cbn. by rewrite Hs.
Qed.

Lemma take_len n l : 0 ≤ n → len (take (Z.to_nat n) l) = Z.min n (len l).
Proof. unfold len. rewrite length_take. lia. Qed.

Lemma br_read_law : read_law br_stream br_ok rd_fails br_read.
Proof.
  intros b n Hok Hn. unfold br_read, mbind at 1, M_bind at 1, get_state. unfold br_is_empty.
  destruct (_ && _)%bool eqn:E.
  - apply andb_true_iff in E as [E _]. bool_to_prop. unfold discard_buffer, set_range, mbind, M_bind, modify, on_inner.
    cbn [br_inner br_pos br_filled br_buf]. destruct Hok as (?&?&?&Hi). pose proof (rd_read _ n Hi Hn) as Hr.
    assert (br_stream b = stream (br_inner b)) as -> by (unfold br_stream; by rewrite buffered_empty by lia).
    destruct (read n (br_inner b)) as [[l|e| |] i]; [| |done..].
    + destruct Hr as (?&Hs&?&He). split_and!; try done.
    + destruct Hr as (?&?&Hs). by split_and!.
  - pose proof (fill_ok b Hok) as Hf. unfold mbind at 1, M_bind at 1.
    destruct (br_fill_buf b) as [[rem|e| |] b1]; [| |done..]; [|done].
    destruct Hf as (Hok1&Hs&->&He). pose proof (len_nonneg (buffered b1)).
    assert (len (take (Z.to_nat n) (buffered b1)) = Z.min n (len (buffered b1))) as Hl by (apply take_len; lia).
    destruct (consume_ok b1 (len (take (Z.to_nat n) (buffered b1))) Hok1 ltac:(lia)) as (b2&Hc&Hok2&Hi&Hb).
    erewrite M_bind_ok by exact Hc. split; [done|]. split_and!.
    + rewrite <- Hs. unfold br_stream. rewrite Hi, Hb, Hl, app_assoc. f_equal.
      destruct (Z.le_ge_cases n (len (buffered b1))).
      * rewrite Z.min_l by lia. by rewrite take_drop.
      * rewrite take_ge, drop_ge, app_nil_r; [done|unfold len in *; lia..].
    + lia.
    + intros Hp Ht%(f_equal len). rewrite Hl in Ht. apply He, len_nil_inv. rewrite len_nil in Ht. lia.
Qed.

Lemma br_read_to_end_law : read_to_end_law br_stream br_ok rd_fails br_read_to_end.
Proof.
  intros b v fuel Hok Hf Hlen. unfold br_read_to_end. erewrite M_bind_ok.
  2: { unfold on_fst. cbn [fst snd]. by rewrite (buffer_ok b Hok). }
  unfold mbind at 1, M_bind at 1, extend, modify. cbn [fst snd].
  unfold mbind at 1, M_bind at 1, on_fst, discard_buffer, set_range, modify. cbn [fst snd].
  unfold br_stream in Hf, Hlen. rewrite length_app in Hf. rewrite len_app in Hlen.
  destruct Hok as (?&?&?&Hi). pose proof (len_nonneg (buffered b)). pose proof (len_nonneg (stream (br_inner b))).
  pose proof (rd_read_to_end _ (v ++ buffered b) fuel Hi ltac:(lia) ltac:(lia)) as Hr.
  unfold mbind, M_bind, on_inner_vec. cbn [fst snd br_inner br_pos br_filled br_buf].
  destruct (read_to_end fuel _) as [[n|e| |] [i v']]; [| |done..].
  - destruct Hr as (?&->&->&Hs). unfold br_stream. split; [done|]. rewrite len_app, <- app_assoc.
    split_and!; [|done|rewrite buffered_empty by done; exact Hs].
    apply add64_small. unfold in_u64. lia.
  - destruct Hr as (?&?&l&->&Hs). split_and!; try done. exists (buffered b ++ l). unfold br_stream.
    rewrite (buffered_empty (Build_BufReader _ _ _ _ _)) by done. cbn. by rewrite Hs, <- !app_assoc.
Qed.

#[export] Instance BufReader_ReadSpec : ReadSpec (BufReader R) :=
  {| stream := br_stream; rd_ok := br_ok; rd_fails := rd_fails (R:=R);
     rd_read := br_read_law; rd_read_to_end := br_read_to_end_law |}.

(** *** [read_until] *)

(** The bytes up to and including the delimiter. *)
Definition upto (byte : Z) (l : list Z) : list Z :=
  match position byte l with Some i => take (S i) l | None => l end.

Lemma position_lt byte l i : position byte l = Some i → (i < length l)%nat.
Proof.
  revert i. induction l as [|b l IH]; intros i; cbn; [done|]. destruct (b =? byte); [intros [= <-]; lia|].
  destruct (position byte l); [|done]. cbn. intros [= <-]. specialize (IH _ eq_refl). lia.
Qed.

Lemma position_app byte l k :
  position byte (l ++ k) =
    match position byte l with Some i => Some i | None => (λ i, (length l + i)%nat) <$> position byte k end.
Proof.
  induction l as [|b l IH]; cbn; [by destruct (position byte k)|]. destruct (b =? byte); [done|].
  rewrite IH. destruct (position byte l); [done|]. by destruct (position byte k).
Qed.

Lemma upto_found byte l k i : position byte l = Some i → upto byte (l ++ k) = take (S i) l.
Proof.
  intros Hi. unfold upto. rewrite position_app, Hi. apply position_lt in Hi. by rewrite take_app_le by lia.
Qed.

Lemma upto_not_found byte l k : position byte l = None → upto byte (l ++ k) = l ++ upto byte k.
Proof.
  intros Hn. unfold upto. rewrite position_app, Hn. destruct (position byte k) as [i|]; [|done]. cbn [fmap option_fmap option_map].
  rewrite <- Nat.add_succ_r. by rewrite take_app_add.
Qed.

Lemma consumed b n :
  br_ok b → (n ≤ length (buffered b))%nat →
  ∃ b', br_consume (len (take n (buffered b))) b = (Ok tt, b') ∧ br_ok b' ∧
    br_stream b = take n (buffered b) ++ br_stream b'.
Proof.
  intros Hok Hn. assert (len (take n (buffered b)) = Z.of_nat n) as -> by (unfold len; rewrite length_take; lia).
  destruct (consume_ok b (Z.of_nat n) Hok ltac:(unfold len; lia)) as (b'&Hc&Hok'&Hi&Hb).
  exists b'. split_and!; try done. unfold br_stream. rewrite Hi, Hb, Nat2Z.id, app_assoc. by rewrite take_drop.
Qed.

Lemma read_until_loop_ok byte fuel b v k :
  ¬ rd_fails → br_ok b → (length (br_stream b) < fuel)%nat → 0 ≤ k → k + len (br_stream b) < 2 ^ 64 →
  let l := upto byte (br_stream b) in
  ∃ b', read_until_loop byte fuel k (b, v) = (Ok (k + len l), (b', v ++ l)) ∧ br_ok b' ∧
    br_stream b = l ++ br_stream b'.
Proof.
  intros Hnf. revert b v k. induction fuel as [|fuel IH]; intros b v k Hok Hf Hk Hl; [lia|].
  cbn [read_until_loop]. pose proof (fill_ok b Hok) as Hfill.
  assert (∃ b1, fill_or_block b = (Ok (Some (buffered b1)), b1) ∧ br_ok b1 ∧ br_stream b1 = br_stream b ∧
    (buffered b1 = [] → br_stream b = [])) as (b1&Hb1&Hok1&Hs1&He).
  { unfold fill_or_block. change fill_buf with (br_fill_buf (R:=R)).
    destruct (br_fill_buf b) as [[l|e| |] b1]; [| |done..].
    - destruct Hfill as (?&?&->&?). by exists b1.
    - by destruct Hfill as (?&_). }
  erewrite M_bind_ok by (unfold on_fst; cbn [fst snd]; by rewrite Hb1). cbv beta iota.
  change consume with (br_consume (R:=R)).
  destruct (position byte (buffered b1)) as [i|] eqn:Hp.
  - pose proof (position_lt _ _ _ Hp). destruct (consumed b1 (S i) Hok1 ltac:(lia)) as (b2&Hc&Hok2&Hs2).
    cbv beta iota zeta. erewrite M_bind_ok by reflexivity.
    erewrite M_bind_ok by (unfold on_fst; cbn [fst snd]; by rewrite Hc).
    assert (upto byte (br_stream b) = take (S i) (buffered b1)) as ->
      by (rewrite <- Hs1; exact (upto_found byte (buffered b1) _ i Hp)).
    exists b2. rewrite <- Hs1. split_and!; try done. cbn [orb]. unfold mret, M_ret.
    rewrite <- Hs1, Hs2, len_app in Hl. pose proof (len_nonneg (br_stream b2)).
    pose proof (len_nonneg (take (S i) (buffered b1))). by rewrite add64_small by (unfold in_u64; lia).
  - destruct (consumed b1 (length (buffered b1)) Hok1 ltac:(lia)) as (b2&Hc&Hok2&Hs2).
    rewrite take_ge in Hc, Hs2 by lia.
    cbv beta iota zeta. erewrite M_bind_ok by reflexivity.
    erewrite M_bind_ok by (unfold on_fst; cbn [fst snd]; by rewrite Hc).
    rewrite <- Hs1, Hs2 in Hf, Hl |- *. rewrite length_app in Hf. rewrite len_app in Hl.
    pose proof (len_nonneg (br_stream b2)). pose proof (len_nonneg (buffered b1)).
    rewrite (upto_not_found _ _ _ Hp), len_app, add64_small by (unfold in_u64; lia).
    cbn [orb]. destruct (len (buffered b1) =? 0) eqn:E0; bool_to_prop.
    + apply len_nil_inv in E0. rewrite <- Hs1, Hs2 in He. specialize (He E0). rewrite E0 in *. cbn in He.
      rewrite He. exists b2. split_and!; try done.
    + assert (0 < length (buffered b1))%nat by (unfold len in *; lia).
      destruct (IH b2 (v ++ buffered b1) (k + len (buffered b1)) Hok2 ltac:(lia) ltac:(lia) ltac:(lia))
        as (b3&Hr&Hok3&Hs3).
      exists b3. cbn [fst snd]. rewrite Hr. split_and!; [|done|by rewrite <- app_assoc, <- Hs3].
      by rewrite <- app_assoc, Z.add_assoc.
Qed.

Lemma read_exact_buffered b n :
  br_ok b → 0 ≤ n ≤ len (buffered b) →
  ∃ b', read_exact n b = (Ok (take (Z.to_nat n) (br_stream b)), b') ∧ br_ok b' ∧
    br_stream b = take (Z.to_nat n) (br_stream b) ++ br_stream b'.
Proof.
  intros Hok Hn. unfold read_exact. cbn [BufReader_Read]. unfold br_read_exact. erewrite M_bind_ok by (by apply buffer_ok).
  rewrite (proj2 (Z.leb_le n _)) by lia. unfold mbind, M_bind, get_state, set_range, modify.
  assert (take (Z.to_nat n) (br_stream b) = take (Z.to_nat n) (buffered b)) as ->.
  { unfold br_stream. rewrite take_app_le; [done|]. unfold len in Hn. lia. }
  destruct (consumed b (Z.to_nat n) Hok ltac:(unfold len in Hn; lia)) as (b'&Hc&Hok'&Hs). rewrite take_len, Z.min_l in Hc by lia.
  exists b'. split; [|done]. assert (b' = (br_consume n b).2) as -> by (by rewrite Hc). unfold br_consume, mbind, M_bind, get_state, set_range, modify. cbn [snd].
  pose proof (buffered_len b Hok) as Hbl. destruct Hok as (?&?&?&?). unfold DEFAULT_BUF_SIZE in *.
  rewrite add64_small by (unfold in_u64; lia). by rewrite Z.min_l by lia.
Qed.

(** C28: A buffered reader is transparent.  Over any reader that meets the laws it meets
    them too, on the buffered bytes followed by those of the inner reader: no call
    loses, repeats or reorders a byte.  [fill_buf] returns the next bytes, none only at
    the end, and takes nothing; [consume] of at most the bytes it returned takes just
    these; [read_to_end] ends and appends everything that is left; and [read_until]
    appends the bytes up to and including the delimiter, or all bytes when there is
    none.  [read_exact] is right, too, when the buffer holds as many bytes as asked for;
    when it holds fewer, but some, it skips them ([read_exact_skips_buffered]). *)
Theorem buffered_reader_transparent :
  read_law br_stream br_ok rd_fails (read (R:=BufReader R)) ∧
  read_to_end_law br_stream br_ok rd_fails (read_to_end (R:=BufReader R)) ∧
  (∀ i, rd_ok i → br_ok (BufReader_new i) ∧ br_stream (BufReader_new i) = stream i) ∧
  (∀ b, br_ok b →
     match fill_buf b with
     | (Ok l, b') => br_ok b' ∧ br_stream b' = br_stream b ∧ l `prefix_of` br_stream b ∧ (l = [] → br_stream b = []) ∧
         ∀ n, 0 ≤ n ≤ len l → ∃ b'', consume n b' = (Ok tt, b'') ∧ br_ok b'' ∧ br_stream b = take (Z.to_nat n) l ++ br_stream b''
     | (Err _, b') => rd_fails ∧ br_ok b' ∧ br_stream b' = br_stream b
     | _ => False
     end) ∧
  (∀ b n, br_ok b → 0 ≤ n ≤ len (buffered b) →
     ∃ b', read_exact n b = (Ok (take (Z.to_nat n) (br_stream b)), b') ∧ br_ok b' ∧
       br_stream b = take (Z.to_nat n) (br_stream b) ++ br_stream b') ∧
  (∀ byte fuel b v, ¬ rd_fails → br_ok b → (length (br_stream b) < fuel)%nat → len (br_stream b) < 2 ^ 64 →
     let l := upto byte (br_stream b) in
     ∃ b', read_until byte fuel (b, v) = (Ok (len l), (b', v ++ l)) ∧ br_ok b' ∧
       br_stream b = l ++ br_stream b').
Proof.
  split; [apply br_read_law|]. split; [apply br_read_to_end_law|]. split; [done|]. split_and!.
  - intros b Hok. pose proof (fill_ok b Hok) as Hf. change fill_buf with (br_fill_buf (R:=R)). change consume with (br_consume (R:=R)).
    destruct (br_fill_buf b) as [[l|e| |] b']; [|done..]. destruct Hf as (Hok'&Hs&->&He). split_and!; try done.
    + exists (stream (br_inner b')). by rewrite <-Hs.
    + intros n Hn. destruct (consumed b' (Z.to_nat n) Hok' ltac:(unfold len in Hn; lia)) as (b''&Hc&?&Hs'').
      exists b''. rewrite take_len, Z.min_l in Hc by lia. by rewrite <-Hs.
  - intros b n Hok Hn. by apply read_exact_buffered.
  - intros byte fuel b v Hnf Hok Hf Hl.
    destruct (read_until_loop_ok byte fuel b v 0 Hnf Hok Hf ltac:(done) ltac:(done)) as (b'&Hr&?&?).
    exists b'. by rewrite Z.add_0_l in Hr.
Qed.
End bufreader.

(** [BufReader::read_exact] reorders the stream.  When some bytes are buffered but
    not as many as asked for, it fills the buffer from the inner reader and leaves the
    buffered bytes, which come before, for the next call. *)
Theorem read_exact_skips_buffered (b : BufReader (list Z)) n :
  br_ok b → 0 < len (buffered b) < n → n ≤ len (br_inner b) →
  ∃ b', read_exact n b = (Ok (take (Z.to_nat n) (br_inner b)), b') ∧
    br_stream b' = buffered b ++ drop (Z.to_nat n) (br_inner b).
Proof.
  intros Hok Hb Hn. unfold read_exact. cbn [BufReader_Read]. unfold br_read_exact.
  erewrite M_bind_ok by (by apply buffer_ok). rewrite (proj2 (Z.leb_gt n _)) by lia.
  unfold on_inner. cbn [read_exact slice_Read]. unfold slice_read_exact, mbind, M_bind, get_state, put_state.
  rewrite (proj2 (Z.ltb_ge (len _) n)) by lia. by eexists.
Qed.

Definition example_bytes : list Z := Z.of_nat <$> seq 0 4000.
Definition example_reader : BufReader (list Z) := snd (read 1 (BufReader_new example_bytes)).

Lemma read_exact_skips_buffered_witness :
  ∃ b' l, read_exact 1100 example_reader = (Ok l, b') ∧ head l = Some 1024 ∧ head (br_stream b') = Some 1.
Proof.
  destruct (read_exact_skips_buffered example_reader 1100) as (b'&Hr&Hs).
  - vm_compute. repeat split; discriminate.
  - vm_compute. repeat split; discriminate.
  - vm_compute. discriminate.
  - exists b'. eexists. split; [exact Hr|]. split; [vm_compute; reflexivity|]. rewrite Hs. vm_compute. reflexivity.
Defined.

Lemma buffered_reader_transparent_witness :
  ∃ b', read_until 10 4 (BufReader_new [1; 10; 2], []) = (Ok 2, (b', [1; 10])) ∧ br_stream b' = [2].
Proof.
  destruct (buffered_reader_transparent (R:=list Z)) as (_&_&Hn&_&_&Hu).
  destruct (Hn [1; 10; 2] I) as [Hok Hs].
  destruct (Hu 10 4%nat (BufReader_new [1; 10; 2]) [] (λ H, H) Hok) as (b'&Hr&_&Hs').
  - rewrite Hs. vm_compute. lia.
  - rewrite Hs. vm_compute. reflexivity.
  - exists b'. rewrite Hs in Hs', Hr. split; [|by injection Hs'].
    vm_compute in Hr |- *. injection Hr as <-. reflexivity.
Defined.
