(* ===== verification/AxFs.v ===== *)
(** * The file system interface ([modules/axfs], [crates/capability])

    The root directory with its mount points, the current directory, and the file
    and directory objects applications use.  The main file system is a RAM file
    system, as with the feature [myfs].  A reference is the root directory or a node
    of the store; references that a function holds in its variables are dropped
    where the function ends. *)

From Stdlib Require Import ZArith Lia.
From stdpp Require Import base decidable numbers gmap list.
From S2P Require Import Prelude Containers LinkedList Path Vfs.

Local Open Scope Z_scope.

(** ** Capabilities *)

Definition CAP_READ : Z := 1.
Definition CAP_WRITE : Z := 2.
Definition CAP_EXECUTE : Z := 4.

Record WithCap (T : Type) : Type := { inner : T; cap : Z }.
Arguments inner {T}.
Arguments cap {T}.
Arguments Build_WithCap {T}.

(** ** State *)

Inductive VRef : Set := VRoot | VNode (n : nid).
#[export] Instance VRef_eq_dec : EqDecision VRef.
Proof. solve_decision. Defined.

(** A mounted file system, by its root directory.  [fs_parents] holds the cells
    [parent] of the file systems. *)
Record MountPoint : Type := { mp_path : Str; mp_fs : nid }.

Record AxFs : Type := {
  store : Store;
  main_fs : nid;
  mounts : list MountPoint;
  fs_parents : gmap nid nid;
  CURRENT_DIR : VRef;
  CURRENT_DIR_PATH : Str;
}.

Record OpenOptions : Type := {
  o_read : bool; o_write : bool; o_append : bool; o_truncate : bool; o_create : bool;
  o_create_new : bool;
}.
Record File : Type := { f_node : WithCap VRef; is_append : bool; offset : Z }.
Record Directory : Type := { d_node : WithCap VRef; entry_idx : Z }.

Inductive SeekFrom : Set := Start (pos : Z) | Current (off : Z) | End_ (off : Z).

Section axfs.
Context `{Bitflags}.
Local Abbreviation AM := (M AxFs AxError).

(** [can_access] and [access]. *)
Definition can_access {T} (w : WithCap T) (c : Z) : bool := bf_contains (cap w) c.
Definition access {S T} (w : WithCap T) (c : Z) : M S AxError T :=
  if can_access w c then mret (inner w) else throw PermissionDenied.

Definition on_store {A} (m : M Store AxError A) : AM A := λ s,
  let '(r, st) := m (store s) in
  (r, {| store := st; main_fs := main_fs s; mounts := mounts s; fs_parents := fs_parents s;
         CURRENT_DIR := CURRENT_DIR s;
         CURRENT_DIR_PATH := CURRENT_DIR_PATH s |}).

(** The drop of a reference, and the end of a scope that holds one: at once, or
    only when the scope is left with an error. *)
Definition vref_drop (r : VRef) : AM unit :=
  match r with VRoot => mret tt | VNode n => on_store (node_drop n) end.
Definition scoped {A} (r : VRef) (m : AM A) : AM A := λ s,
  match m s with
  | (Ok a, s') => (_ ← vref_drop r; mret a) s'
  | (Err e, s') => (_ ← vref_drop r; throw e) s'
  | x => x
  end.
Definition kept_if_ok {A} (r : VRef) (m : AM A) : AM A := λ s,
  match m s with
  | (Err e, s') => (_ ← vref_drop r; throw e) s'
  | x => x
  end.

(** ** The root directory ([root.rs]) *)

Fixpoint trim_end (s : Str) : Str :=
  match s with
  | [] => []
  | c :: s =>
      match trim_end s with
      | [] => if c =? SLASH then [] else [c]
      | t => c :: t
      end
  end.
Definition trim_matches (s : Str) : Str := trim_end (trim_start s).
Definition ends_with_slash (s : Str) : bool := bool_decide (last s = Some SLASH).

Fixpoint starts_with (p s : Str) : bool :=
  match p, s with
  | [], _ => true
  | x :: p, y :: s => ((x =? y) && starts_with p s)%bool
  | _, [] => false
  end.

(** The mount point with the longest path that is a prefix of [path]: its file
    system and the length of the prefix. *)
Fixpoint longest_mount (mps : list MountPoint) (path : Str) (best : nat * nid) : nat * nid :=
  match mps with
  | [] => best
  | mp :: mps =>
      let len := (length (mp_path mp) - 1)%nat in
      longest_mount mps path
        (if (starts_with (tail (mp_path mp)) path && (best.1 <? len)%nat)%bool then (len, mp_fs mp) else best)
  end.
Fixpoint lookup_mounted_fs (fuel : nat) (path : Str) : AM (nid * Str) :=
  match fuel with
  | O => out_of_fuel
  | S fuel =>
      let path := trim_matches path in
      if starts_with [DOT; SLASH] path then lookup_mounted_fs fuel (drop 2 path)
      else
        s ← get_state;
        let '(max_len, fs) := longest_mount (mounts s) path (0%nat, main_fs s) in
        if (max_len =? 0)%nat then mret (main_fs s, path) else mret (fs, drop max_len path)
  end.
Definition root_dispatch (path : Str) : AM (nid * Str) := lookup_mounted_fs (S (length path)) path.

(** The operations of a reference. *)
Definition v_get_attr (r : VRef) : AM VfsNodeAttr :=
  match r with
  | VRoot => s ← get_state; on_store (get_attr (main_fs s))
  | VNode n => on_store (get_attr n)
  end.
Definition v_lookup (r : VRef) (path : Str) : AM VRef :=
  n ← match r with
      | VRoot => '(fs, rest_path) ← root_dispatch path; on_store (vfs_lookup fs rest_path)
      | VNode n => on_store (vfs_lookup n path)
      end;
  mret (VNode n).
Definition v_create (r : VRef) (path : Str) (ty : VfsNodeType) (new : nid) : AM unit :=
  match r with
  | VRoot =>
      '(fs, rest_path) ← root_dispatch path;
      if bool_decide (rest_path = []) then mret tt else on_store (vfs_create fs rest_path ty new)
  | VNode n => on_store (vfs_create n path ty new)
  end.
Definition v_remove (r : VRef) (path : Str) : AM unit :=
  match r with
  | VRoot =>
      '(fs, rest_path) ← root_dispatch path;
      if bool_decide (rest_path = []) then throw PermissionDenied else on_store (vfs_remove fs rest_path)
  | VNode n => on_store (vfs_remove n path)
  end.
(** [rename]: neither file system implements it. *)
Definition v_rename (r : VRef) (src_path dst_path : Str) : AM unit :=
  match r with
  | VRoot =>
      '(fs, rest_path) ← root_dispatch src_path;
      if bool_decide (rest_path = []) then throw PermissionDenied else throw Unsupported
  | VNode n => throw Unsupported
  end.
Definition v_on_file {A} (r : VRef) (op : nid → M Store AxError A) : AM A :=
  match r with VRoot => throw IsADirectory | VNode n => on_store (op n) end.
Definition v_read_dir (r : VRef) (start_idx : Z) (len : nat) : AM (list VfsDirEntry) :=
  match r with VRoot => throw Unsupported | VNode n => on_store (vfs_read_dir n start_idx len) end.

(** [VfsOps::mount] of the RAM and the device file system; the cell [parent] is
    written once. *)
Definition set_fs_parent (fs : nid) (p : option nid) : AM unit :=
  modify (λ s, {| store := store s; main_fs := main_fs s; mounts := mounts s;
                  fs_parents := partial_alter (λ _, p) fs (fs_parents s);
                  CURRENT_DIR := CURRENT_DIR s; CURRENT_DIR_PATH := CURRENT_DIR_PATH s |}).
Definition vfs_mount (fs mount_point : nid) : AM unit :=
  parent ← on_store (node_parent mount_point);
  match parent with
  | Some p =>
      s ← get_state;
      match fs_parents s !! fs with
      | Some q => on_store (set_parent fs (Some q))
      | None => _ ← on_store (node_clone p); _ ← set_fs_parent fs (Some p); on_store (set_parent fs (Some p))
      end
  | None => on_store (set_parent fs None)
  end.

(** The drop of a mount point, which holds the only reference to its file system. *)
Definition MountPoint_drop (fs : nid) : AM unit :=
  s ← get_state;
  _ ← match fs_parents s !! fs with
      | Some p => _ ← set_fs_parent fs None; on_store (node_drop p)
      | None => mret tt
      end;
  on_store (node_drop fs).
Fixpoint drop_mounts (l : list MountPoint) : AM unit :=
  match l with
  | [] => mret tt
  | mp :: l => _ ← MountPoint_drop (mp_fs mp); drop_mounts l
  end.

(** [RootDirectory::mount]; [new] is where the directory of the mount point is made. *)
Definition set_mounts (l : list MountPoint) : AM unit :=
  modify (λ s, {| store := store s; main_fs := main_fs s; mounts := l; fs_parents := fs_parents s;
                  CURRENT_DIR := CURRENT_DIR s; CURRENT_DIR_PATH := CURRENT_DIR_PATH s |}).
Definition root_mount (path : Str) (fs : nid) (new : nid) : AM unit :=
  if bool_decide (path = [SLASH]) then throw InvalidInput
  else if negb (starts_with_slash path) then throw InvalidInput
  else
    s ← get_state;
    if existsb (λ mp, bool_decide (mp_path mp = path)) (mounts s) then throw InvalidInput
    else
      _ ← on_store (vfs_create (main_fs s) path Dir new);
      point ← on_store (vfs_lookup (main_fs s) path);
      _ ← scoped (VNode point) (vfs_mount fs point);
      set_mounts (mounts s ++ [{| mp_path := path; mp_fs := fs |}]).
Definition root_umount (path : Str) : AM unit :=
  s ← get_state;
  _ ← set_mounts (filter (λ mp, mp_path mp ≠ path) (mounts s));
  drop_mounts (filter (λ mp, mp_path mp = path) (mounts s)).
Definition root_contains (s : AxFs) (path : Str) : bool :=
  existsb (λ mp, bool_decide (mp_path mp = path)) (mounts s).

Definition parent_node_of (dir : option VRef) (path : Str) : AM VRef :=
  s ← get_state;
  mret (if starts_with_slash path then VRoot
        else match dir with Some d => d | None => CURRENT_DIR s end).

(** [canonicalize] may panic. *)
Definition absolute_path (path : Str) : AM Str :=
  s ← get_state;
  match canonicalize (if starts_with_slash path then path else CURRENT_DIR_PATH s ++ path) with
  | Ok p => mret p
  | _ => panic
  end.

Definition fs_lookup (dir : option VRef) (path : Str) : AM VRef :=
  if bool_decide (path = []) then throw NotFound
  else
    p ← parent_node_of dir path;
    node ← v_lookup p path;
    kept_if_ok node
      (if ends_with_slash path then
         attr ← v_get_attr node;
         if attr_is_dir attr then mret node else throw NotADirectory
       else mret node).

Definition create_file (dir : option VRef) (path : Str) (new : nid) : AM VRef :=
  if bool_decide (path = []) then throw NotFound
  else if ends_with_slash path then throw NotADirectory
  else
    parent ← parent_node_of dir path;
    _ ← v_create parent path File_ new;
    v_lookup parent path.

(** [match lookup(..)]: an error is a value here. *)
Definition catch {A} (m : AM A) : AM (A + AxError) := λ s,
  match m s with
  | (Ok a, s') => (Ok (inl a), s')
  | (Err e, s') => (Ok (inr e), s')
  | (Panic, s') => (Panic, s')
  | (OutOfFuel, s') => (OutOfFuel, s')
  end.

Definition create_dir (dir : option VRef) (path : Str) (new : nid) : AM unit :=
  r ← catch (fs_lookup dir path);
  match r with
  | inl node => _ ← vref_drop node; throw AlreadyExists
  | inr NotFound => p ← parent_node_of dir path; v_create p path Dir new
  | inr e => throw e
  end.

Definition remove_file (dir : option VRef) (path : Str) : AM unit :=
  node ← fs_lookup dir path;
  scoped node
    (attr ← v_get_attr node;
     if attr_is_dir attr then throw IsADirectory
     else if negb (owner_writable (attr_mode attr)) then throw PermissionDenied
     else p ← parent_node_of dir path; v_remove p path).

Definition ends_with (s suffix : Str) : bool :=
  bool_decide (drop (length s - length suffix) s = suffix).

Definition remove_dir (dir : option VRef) (path : Str) : AM unit :=
  if bool_decide (path = []) then throw NotFound
  else
    let path_check := trim_matches path in
    if bool_decide (path_check = []) then throw DirectoryNotEmpty
    else if (bool_decide (path_check = [DOT]) || bool_decide (path_check = [DOT; DOT])
             || ends_with path_check [SLASH; DOT] || ends_with path_check [SLASH; DOT; DOT])%bool
    then throw InvalidInput
    else
      abs ← absolute_path path;
      s ← get_state;
      if root_contains s abs then throw PermissionDenied
      else
        node ← fs_lookup dir path;
        scoped node
          (attr ← v_get_attr node;
           if negb (attr_is_dir attr) then throw NotADirectory
           else if negb (owner_writable (attr_mode attr)) then throw PermissionDenied
           else p ← parent_node_of dir path; v_remove p path).

Definition set_current (r : VRef) (path : Str) : AM unit :=
  s ← get_state;
  _ ← put_state {| store := store s; main_fs := main_fs s; mounts := mounts s;
                   fs_parents := fs_parents s; CURRENT_DIR := r; CURRENT_DIR_PATH := path |};
  vref_drop (CURRENT_DIR s).
Definition set_current_dir (path : Str) : AM unit :=
  abs ← absolute_path path;
  let abs_path := if ends_with_slash abs then abs else abs ++ [SLASH] in
  if bool_decide (abs_path = [SLASH]) then set_current VRoot [SLASH]
  else
    node ← fs_lookup None abs_path;
    _ ← kept_if_ok node
      (attr ← v_get_attr node;
       if negb (attr_is_dir attr) then throw NotADirectory
       else if negb (owner_executable (attr_mode attr)) then throw PermissionDenied
       else mret tt);
    set_current node abs_path.

Definition fs_rename (old new : Str) : AM unit :=
  p ← parent_node_of None new;
  r ← catch (v_lookup p new);
  _ ← match r with
      | inl node => _ ← vref_drop node; remove_file None new
      | inr _ => mret tt
      end;
  p ← parent_node_of None old;
  v_rename p old new.

(** ** Files ([fops.rs]) *)

Definition OpenOptions_new : OpenOptions := {|
  o_read := false; o_write := false; o_append := false; o_truncate := false; o_create := false;
  o_create_new := false;
|}.

Definition OpenOptions_is_valid (o : OpenOptions) : bool :=
  if (negb (o_read o) && negb (o_write o) && negb (o_append o))%bool then false
  else
    match o_write o, o_append o with
    | true, false => true
    | false, false => negb (o_truncate o || o_create o || o_create_new o)
    | _, true => negb (o_truncate o && negb (o_create_new o))
    end.

(** [impl From<&OpenOptions> for Cap]. *)
Definition opts_cap (o : OpenOptions) : Z :=
  let cap := 0 in
  let cap := if o_read o then bf_union cap CAP_READ else cap in
  if (o_write o || o_append o)%bool then bf_union cap CAP_WRITE else cap.

Definition perm_to_cap (perm : Z) : Z :=
  let cap := 0 in
  let cap := if owner_readable perm then bf_union cap CAP_READ else cap in
  let cap := if owner_writable perm then bf_union cap CAP_WRITE else cap in
  if owner_executable perm then bf_union cap CAP_EXECUTE else cap.

Definition File_open_at (dir : option VRef) (path : Str) (opts : OpenOptions) (new : nid) : AM File :=
  if negb (OpenOptions_is_valid opts) then throw InvalidInput
  else
    node_option ← catch (fs_lookup dir path);
    node ← (if (o_create opts || o_create_new opts)%bool then
              match node_option with
              | inl node => if o_create_new opts then _ ← vref_drop node; throw AlreadyExists else mret node
              | inr NotFound => create_file dir path new
              | inr e => throw e
              end
            else match node_option with inl node => mret node | inr e => throw e end);
    kept_if_ok node
      (attr ← v_get_attr node;
       if (attr_is_dir attr && (o_create opts || o_create_new opts || o_write opts || o_append opts
                                || o_truncate opts))%bool then throw IsADirectory
       else
         let access_cap := opts_cap opts in
         if negb (bf_contains (perm_to_cap (attr_mode attr)) access_cap) then throw PermissionDenied
         else
           _ ← (if o_truncate opts then v_on_file node (λ n, vfs_truncate n 0) else mret tt);
           mret {| f_node := {| inner := node; cap := access_cap |}; is_append := o_append opts;
                   offset := 0 |}).
Definition File_open (path : Str) (opts : OpenOptions) (new : nid) : AM File :=
  File_open_at None path opts new.

Definition File_truncate (f : File) (size : Z) : AM unit :=
  node ← access (f_node f) CAP_WRITE; v_on_file node (λ n, vfs_truncate n size).
Definition File_get_attr (f : File) : AM VfsNodeAttr := node ← access (f_node f) 0; v_get_attr node.
Definition File_read_at (f : File) (off len : Z) : AM (list Z) :=
  node ← access (f_node f) CAP_READ; v_on_file node (λ n, vfs_read_at n off len).
Definition File_write_at (f : File) (off : Z) (buf : list Z) : AM Z :=
  node ← access (f_node f) CAP_WRITE; v_on_file node (λ n, vfs_write_at n off buf).
Definition File_flush (f : File) : AM unit :=
  node ← access (f_node f) CAP_WRITE; v_on_file node vfs_fsync.

(** The operations with [&mut self] run on the file system and the file. *)
Local Abbreviation FileM := (M (AxFs * File) AxError).
Definition set_offset (off : Z) : FileM unit :=
  modify (λ s, (s.1, {| f_node := f_node s.2; is_append := is_append s.2; offset := off |})).

Definition File_read (len : Z) : FileM (list Z) :=
  s ← get_state;
  node ← access (f_node s.2) CAP_READ;
  buf ← on_fst (v_on_file node (λ n, vfs_read_at n (offset s.2) len));
  _ ← set_offset (add64 (offset s.2) (Z.of_nat (length buf)));
  mret buf.
Definition File_write (buf : list Z) : FileM Z :=
  s ← get_state;
  node ← access (f_node s.2) CAP_WRITE;
  _ ← (if is_append s.2 then attr ← on_fst (File_get_attr s.2); set_offset (attr_size attr) else mret tt);
  s ← get_state;
  write_len ← on_fst (v_on_file node (λ n, vfs_write_at n (offset s.2) buf));
  _ ← set_offset (add64 (offset s.2) write_len);
  mret write_len.

(** [u64::checked_add_signed]. *)
Definition checked_add_signed (a b : Z) : option Z :=
  if ((0 <=? a + b) && (a + b <? 2 ^ 64))%bool then Some (a + b) else None.
Definition File_seek (pos : SeekFrom) : FileM Z :=
  s ← get_state;
  attr ← on_fst (File_get_attr s.2);
  let new_offset := match pos with
                    | Start pos => Some pos
                    | Current off => checked_add_signed (offset s.2) off
                    | End_ off => checked_add_signed (attr_size attr) off
                    end in
  match new_offset with
  | Some o => _ ← set_offset o; mret o
  | None => throw InvalidInput
  end.
Definition File_drop (f : File) : AM unit := vref_drop (inner (f_node f)).

(** ** Directories *)

Definition Directory_open_dir_at (dir : option VRef) (path : Str) (opts : OpenOptions) : AM Directory :=
  if negb (o_read opts) then throw InvalidInput
  else if (o_create opts || o_create_new opts || o_write opts || o_append opts || o_truncate opts)%bool
  then throw InvalidInput
  else
    node ← fs_lookup dir path;
    kept_if_ok node
      (attr ← v_get_attr node;
       if negb (attr_is_dir attr) then throw NotADirectory
       else
         let access_cap := opts_cap opts in
         if negb (bf_contains (perm_to_cap (attr_mode attr)) access_cap) then throw PermissionDenied
         else mret {| d_node := {| inner := node; cap := access_cap |}; entry_idx := 0 |}).

Definition access_at (d : Directory) (path : Str) : AM (option VRef) :=
  if starts_with_slash path then mret None
  else node ← access (d_node d) CAP_EXECUTE; mret (Some node).

Definition Directory_open_dir (path : Str) (opts : OpenOptions) : AM Directory :=
  Directory_open_dir_at None path opts.
Definition open_dir_at (d : Directory) (path : Str) (opts : OpenOptions) : AM Directory :=
  dir ← access_at d path; Directory_open_dir_at dir path opts.
Definition open_file_at (d : Directory) (path : Str) (opts : OpenOptions) (new : nid) : AM File :=
  dir ← access_at d path; File_open_at dir path opts new.
Definition Directory_create_file (d : Directory) (path : Str) (new : nid) : AM VRef :=
  dir ← access_at d path; create_file dir path new.
Definition Directory_create_dir (d : Directory) (path : Str) (new : nid) : AM unit :=
  dir ← access_at d path; create_dir dir path new.
Definition Directory_remove_file (d : Directory) (path : Str) : AM unit :=
  dir ← access_at d path; remove_file dir path.
Definition Directory_remove_dir (d : Directory) (path : Str) : AM unit :=
  dir ← access_at d path; remove_dir dir path.
Definition Directory_read_dir (d : Directory) (len : nat) : AM (list VfsDirEntry * Directory) :=
  node ← access (d_node d) CAP_READ;
  l ← v_read_dir node (entry_idx d) len;
  mret (l, {| d_node := d_node d; entry_idx := add64 (entry_idx d) (Z.of_nat (length l)) |}).
Definition Directory_rename (d : Directory) (old new : Str) : AM unit := fs_rename old new.
Definition Directory_drop (d : Directory) : AM unit := vref_drop (inner (d_node d)).
End axfs.
