(* ===== verification/RootFs.v ===== *)
(** * The file systems of a running kernel ([modules/axfs/src/mounts.rs], [init_rootfs])

    The device, temporary, [proc] and [sys] file systems as they are built at boot
    and mounted in the root directory, with the features [devfs], [ramfs], [procfs],
    [sysfs] and [myfs], where the main file system is an empty RAM file system. *)

From Stdlib Require Import ZArith Lia.
From stdpp Require Import base decidable numbers gmap strings list.
From S2P Require Import Prelude Containers LinkedList Path Vfs AxFs.

Local Open Scope Z_scope.

(** The bytes of a string literal. *)
Definition str (s : string) : Str := (λ c, Z.of_N (Ascii.N_of_ascii c)) <$> String.list_ascii_of_string s.

Section rootfs.
Context `{Bitflags}.
Local Abbreviation FM := (M Store AxError).
Local Abbreviation AM := (M AxFs AxError).

(** The memory of a new node: one that is not in use. *)
Definition new_nid : FM nid := st ← get_state; mret (fresh (dom st)).
Definition alloc_node (x : Node) : FM nid :=
  n ← new_nid; _ ← modify (<[n := {| ino := x; strong := 1 |}]>); mret n.
Definition create_at (n : nid) (path : Str) (ty : VfsNodeType) : FM unit :=
  new ← new_nid; vfs_create n path ty new.

(** [unwrap] and [expect] on a result. *)
Definition unwrap_res {S A} (m : M S AxError A) : M S AxError A := λ s,
  match m s with (Err _, s') => (Panic, s') | x => x end.

(** ** [mounts.rs] *)

Definition devfs : FM nid :=
  root ← new_nid;
  _ ← DeviceFileSystem_new root;
  new ← new_nid;
  foo_dir ← dev_mkdir root (str "foo") new;
  null ← alloc_node NullDev;
  _ ← dev_add root (str "null") null;
  zero ← alloc_node ZeroDev;
  _ ← dev_add root (str "zero") zero;
  bar ← alloc_node ZeroDev;
  _ ← dev_add foo_dir (str "bar") bar;
  _ ← node_drop foo_dir;
  mret root.

Definition ramfs : FM nid := root ← new_nid; _ ← RamFileSystem_new root; mret root.

Definition procfs : FM nid :=
  proc_root ← new_nid;
  _ ← RamFileSystem_new proc_root;
  _ ← create_at proc_root (str "sys") Dir;
  _ ← create_at proc_root (str "sys/net") Dir;
  _ ← create_at proc_root (str "sys/net/core") Dir;
  _ ← create_at proc_root (str "sys/net/core/somaxconn") File_;
  file_somaxconn ← vfs_lookup proc_root (str "./sys/net/core/somaxconn");
  _ ← vfs_write_at file_somaxconn 0 (str "4096" ++ [10]);
  _ ← create_at proc_root (str "sys/vm") Dir;
  _ ← create_at proc_root (str "sys/vm/overcommit_memory") File_;
  file_over ← vfs_lookup proc_root (str "./sys/vm/overcommit_memory");
  _ ← vfs_write_at file_over 0 (str "0" ++ [10]);
  _ ← create_at proc_root (str "self") Dir;
  _ ← create_at proc_root (str "self/stat") File_;
  _ ← node_drop file_over;
  _ ← node_drop file_somaxconn;
  mret proc_root.

Definition sysfs : FM nid :=
  sys_root ← new_nid;
  _ ← RamFileSystem_new sys_root;
  _ ← create_at sys_root (str "kernel") Dir;
  _ ← create_at sys_root (str "kernel/mm") Dir;
  _ ← create_at sys_root (str "kernel/mm/transparent_hugepage") Dir;
  _ ← create_at sys_root (str "kernel/mm/transparent_hugepage/enabled") File_;
  file_hp ← vfs_lookup sys_root (str "./kernel/mm/transparent_hugepage/enabled");
  _ ← vfs_write_at file_hp 0 (str "always [madvise] never" ++ [10]);
  _ ← create_at sys_root (str "devices") Dir;
  _ ← create_at sys_root (str "devices/system") Dir;
  _ ← create_at sys_root (str "devices/system/clocksource") Dir;
  _ ← create_at sys_root (str "devices/system/clocksource/clocksource0") Dir;
  _ ← create_at sys_root (str "devices/system/clocksource/clocksource0/current_clocksource") File_;
  file_cc ← vfs_lookup sys_root (str "devices/system/clocksource/clocksource0/current_clocksource");
  _ ← vfs_write_at file_cc 0 (str "tsc" ++ [10]);
  _ ← node_drop file_cc;
  _ ← node_drop file_hp;
  mret sys_root.

(** ** [init_rootfs] *)

Definition mount_at (path : Str) (mk : FM nid) : AM unit :=
  fs ← unwrap_res (on_store mk);
  new ← on_store new_nid;
  unwrap_res (root_mount path fs new).
Definition init_rootfs : AM unit :=
  main ← on_store ramfs;
  s ← get_state;
  _ ← put_state {| store := store s; main_fs := main; mounts := []; fs_parents := fs_parents s;
                   CURRENT_DIR := CURRENT_DIR s; CURRENT_DIR_PATH := CURRENT_DIR_PATH s |};
  _ ← mount_at (str "/dev") devfs;
  _ ← mount_at (str "/tmp") ramfs;
  _ ← mount_at (str "/proc") procfs;
  _ ← mount_at (str "/sys") sysfs;
  s ← get_state;
  put_state {| store := store s; main_fs := main_fs s; mounts := mounts s; fs_parents := fs_parents s;
               CURRENT_DIR := VRoot; CURRENT_DIR_PATH := str "/" |}.

End rootfs.
