(* ===== verification/FsApi.v ===== *)
(** * The file system API ([modules/axfs/src/api])

    The interface in the style of [std::fs]: whole-file reads and writes, the
    directory iterator, and the functions that forward to the root directory.  An
    open file is a reader and a writer. *)

From Stdlib Require Import ZArith Lia.
From stdpp Require Import base decidable numbers gmap list.
From S2P Require Import Prelude Containers LinkedList Path Vfs AxIo AxFs RootFs.

Local Open Scope Z_scope.

Section api.
Context `{Bitflags}.
Local Abbreviation AM := (M AxFs AxError).
Local Abbreviation FileM := (M (AxFs * File) AxError).

#[export] Instance File_Read : Read (AxFs * File) :=
  {| read := File_read; read_exact := default_read_exact File_read;
     read_to_end := default_read_to_end File_read |}.
#[export] Instance File_Write : Write (AxFs * File) := {| write := File_write |}.

(** ** [file.rs] *)

Definition opts_open (opts : OpenOptions) (path : Str) : AM File :=
  new ← on_store new_nid; File_open path opts new.
Definition opts_read : OpenOptions := {|
  o_read := true; o_write := false; o_append := false; o_truncate := false; o_create := false;
  o_create_new := false;
|}.
Definition opts_create : OpenOptions := {|
  o_read := false; o_write := true; o_append := false; o_truncate := true; o_create := true;
  o_create_new := false;
|}.
Definition opts_create_new : OpenOptions := {|
  o_read := true; o_write := true; o_append := false; o_truncate := false; o_create := false;
  o_create_new := true;
|}.
Definition api_open (path : Str) : AM File := opts_open opts_read path.
Definition api_create (path : Str) : AM File := opts_open opts_create path.
Definition api_create_new (path : Str) : AM File := opts_open opts_create_new path.

(** A file that is open for the time of a computation. *)
Definition with_file {A} (open_ : AM File) (m : FileM A) : AM A :=
  f ← open_;
  (λ fs, match m (fs, f) with
         | (Ok a, (fs', f')) => (_ ← File_drop f'; mret a) fs'
         | (Err e, (fs', f')) => (_ ← File_drop f'; throw e) fs'
         | (Panic, (fs', _)) => (Panic, fs')
         | (OutOfFuel, (fs', _)) => (OutOfFuel, fs')
         end) : AM A.

(** ** [mod.rs] *)

(** [file.metadata().map(|m| m.len()).unwrap_or(0)], and the vector of that capacity. *)
Definition file_size : FileM Z := λ s,
  match on_fst (File_get_attr s.2) s with
  | (Ok attr, s') => (Ok (attr_size attr), s')
  | (Err _, s') => (Ok 0, s')
  | (Panic, s') => (Panic, s')
  | (OutOfFuel, s') => (OutOfFuel, s')
  end.
Definition with_capacity (size : Z) : FileM unit := if 2 ^ 63 <=? size then panic else mret tt.

(** A computation that appends to a new vector. *)
Definition into_vec {S} (m : M (S * list Z) AxError Z) : M S AxError (list Z) := λ s,
  match m (s, []) with
  | (Ok _, (s', v)) => (Ok v, s')
  | (Err e, (s', _)) => (Err e, s')
  | (Panic, (s', _)) => (Panic, s')
  | (OutOfFuel, (s', _)) => (OutOfFuel, s')
  end.

Definition api_read (path : Str) (fuel : nat) : AM (list Z) :=
  with_file (api_open path)
    (size ← file_size; _ ← with_capacity size; into_vec (read_to_end fuel)).
Definition api_read_to_string (path : Str) (fuel : nat) : AM (list Z) :=
  with_file (api_open path)
    (size ← file_size; _ ← with_capacity size; into_vec (default_read_to_string fuel)).
Definition api_write (path : Str) (contents : list Z) : AM unit :=
  with_file (api_create path) (write_all contents).
Definition api_metadata (path : Str) : AM VfsNodeAttr :=
  with_file (api_open path) (s ← get_state; on_fst (File_get_attr s.2)).

(** ** [dir.rs] *)

(** [DirBuilder::create]. *)
Definition DirBuilder_create (recursive : bool) (path : Str) : AM unit :=
  if recursive then throw Unsupported else new ← on_store new_nid; create_dir None path new.
Definition api_create_dir (path : Str) : AM unit := DirBuilder_create false path.
Definition api_create_dir_all (path : Str) : AM unit := DirBuilder_create true path.

Record ReadDir : Type := {
  rd_path : Str; rd_inner : Directory; buf_pos : nat; buf_end : nat; end_of_stream : bool;
  dirent_buf : list VfsDirEntry;
}.
Record DirEntry : Type := { dir_path : Str; entry_name : list Z; entry_type : VfsNodeType }.

Definition VfsDirEntry_default : VfsDirEntry := {| d_type := File_; d_name := replicate 63 0 |}.
Definition ReadDir_new (path : Str) : AM ReadDir :=
  d ← Directory_open_dir path opts_read;
  mret {| rd_path := path; rd_inner := d; buf_pos := 0; buf_end := 0; end_of_stream := false;
          dirent_buf := replicate 31 VfsDirEntry_default |}.

(** [next]: one turn, or one more for each entry [.] and [..]. *)
Local Abbreviation ReadDirM := (M (AxFs * ReadDir) AxError).
Definition set_rd (f : ReadDir → ReadDir) : ReadDirM unit := modify (λ s, (s.1, f s.2)).
Definition rd_stop (it : ReadDir) : ReadDir :=
  {| rd_path := rd_path it; rd_inner := rd_inner it; buf_pos := buf_pos it; buf_end := buf_end it;
     end_of_stream := true; dirent_buf := dirent_buf it |}.
Definition rd_fill (l : list VfsDirEntry) (d : Directory) (it : ReadDir) : ReadDir :=
  {| rd_path := rd_path it; rd_inner := d; buf_pos := 0; buf_end := length l;
     end_of_stream := end_of_stream it; dirent_buf := l ++ drop (length l) (dirent_buf it) |}.
Definition rd_advance (it : ReadDir) : ReadDir :=
  {| rd_path := rd_path it; rd_inner := rd_inner it; buf_pos := S (buf_pos it); buf_end := buf_end it;
     end_of_stream := end_of_stream it; dirent_buf := dirent_buf it |}.

(** The buffer is filled when it is used up; the result says whether to go on. *)
Definition rd_refill : ReadDirM (option (option AxError)) := λ s,
  if (buf_end s.2 <=? buf_pos s.2)%nat then
    match Directory_read_dir (rd_inner s.2) 31 s.1 with
    | (Ok ([], d), fs) => (Ok (Some None), (fs, rd_stop s.2))
    | (Ok (l, d), fs) => (Ok None, (fs, rd_fill l d s.2))
    | (Err e, fs) => (Ok (Some (Some e)), (fs, rd_stop s.2))
    | (Panic, fs) => (Panic, (fs, s.2))
    | (OutOfFuel, fs) => (OutOfFuel, (fs, s.2))
    end
  else (Ok None, s).
Fixpoint rd_next_loop (fuel : nat) : ReadDirM (option (DirEntry + AxError)) :=
  match fuel with
  | O => out_of_fuel
  | S fuel =>
      stop ← rd_refill;
      match stop with
      | Some None => mret None
      | Some (Some e) => mret (Some (inr e))
      | None =>
          s ← get_state;
          entry ← unwrap (dirent_buf s.2 !! buf_pos s.2);
          _ ← set_rd rd_advance;
          let name_bytes := name_as_bytes entry in
          if (bool_decide (name_bytes = [DOT]) || bool_decide (name_bytes = [DOT; DOT]))%bool
          then rd_next_loop fuel
          else mret (Some (inl {| dir_path := rd_path s.2; entry_name := name_bytes;
                                  entry_type := d_type entry |}))
      end
  end.
Definition ReadDir_next (fuel : nat) : ReadDirM (option (DirEntry + AxError)) :=
  s ← get_state; if end_of_stream s.2 then mret None else rd_next_loop fuel.

(** [DirEntry::path]. *)
Definition DirEntry_path (e : DirEntry) : list Z := as_bytes (trim_end (dir_path e)) ++ [SLASH] ++ entry_name e.
End api.
