(* ===== verification/AxFsProps.v ===== *)
(** * Correctness of files and directories

    What is written to a file is read back, and nothing is done through a file or a
    directory that the options it was opened with do not permit. *)

From Stdlib Require Import ZArith Lia.
From stdpp Require Import base decidable numbers gmap list.
From S2P Require Import Prelude Containers LinkedList Path Vfs VfsProps AxFs.

Local Open Scope Z_scope.

(** The content of a file after a write. *)
Definition written (off : nat) (buf content : list Z) : list Z :=
  take off content ++ replicate (off - length content) 0 ++ buf ++ drop (off + length buf) content.

Lemma written_length off buf content :
  length (written off buf content) = Nat.max (length content) (off + length buf).
Proof.
  unfold written. rewrite !length_app, length_take, length_replicate, length_drop. lia.
Qed.

Lemma written_slice off buf content : take (length buf) (drop off (written off buf content)) = buf.
Proof.
  unfold written. rewrite app_assoc, drop_app_length' by (rewrite length_app, length_take, length_replicate; lia).
  by rewrite take_app_length.
Qed.

(** [resize] and the copy into the slice. *)
Lemma written_resized off buf content :
  take off (take (off + length buf) content ++ replicate (off + length buf - length content) 0) ++ buf ++
    drop (off + length buf) (take (off + length buf) content ++ replicate (off + length buf - length content) 0) =
  take off content ++ replicate (off - length content) 0 ++ buf.
Proof.
  rewrite (drop_ge (_ ++ _)) by (rewrite length_app, length_take, length_replicate; lia).
  rewrite app_nil_r, app_assoc. f_equal. rewrite take_app, take_take, length_take.
  rewrite take_replicate. f_equal; [f_equal; lia|]. f_equal. lia.
Qed.

Section files.
Context `{BF : Bitflags} `{BS : !BitflagsSpec BF}.

Lemma write_at_ok st n s content off buf :
  st !! n = Some {| ino := RamFile content; strong := s |} →
  0 ≤ off → off + Z.of_nat (length buf) < 2 ^ 63 →
  vfs_write_at n off buf st =
    (Ok (Z.of_nat (length buf)),
     <[n := {| ino := RamFile (written (Z.to_nat off) buf content); strong := s |}]> st).
Proof.
  intros Hn H0 Hl. unfold vfs_write_at. erewrite M_bind_ok by (by apply get_node_ok). cbn [ino].
  assert (add64 off (Z.of_nat (length buf)) = off + Z.of_nat (length buf)) as ->.
  { apply add64_small. unfold in_u64. lia. }
  assert (Z.to_nat (off + Z.of_nat (length buf)) = (Z.to_nat off + length buf)%nat) as Hn2 by lia.
  destruct (Z.of_nat (length content) <? _) eqn:E; bool_to_prop.
  - erewrite M_bind_ok by (unfold vec_resize; rewrite (proj2 (Z.leb_gt (2 ^ 63) _)) by lia; reflexivity).
    rewrite (proj2 (Z.ltb_ge _ off)) by lia. erewrite M_bind_ok by (by apply set_node_ok).
    rewrite Hn2, written_resized. unfold written. by rewrite (drop_ge content), app_nil_r by lia.
  - erewrite M_bind_ok by reflexivity. rewrite (proj2 (Z.ltb_ge _ off)) by lia.
    erewrite M_bind_ok by (by apply set_node_ok). rewrite Hn2. unfold written.
    by replace (Z.to_nat off - length content)%nat with 0%nat by lia.
Qed.

Lemma read_at_ok st n s content off len :
  st !! n = Some {| ino := RamFile content; strong := s |} →
  0 ≤ off ≤ Z.of_nat (length content) → 0 ≤ len → off + len < 2 ^ 64 →
  vfs_read_at n off len st = (Ok (take (Z.to_nat len) (drop (Z.to_nat off) content)), st).
Proof.
  intros Hn H0 H1 Hl. unfold vfs_read_at. erewrite M_bind_ok by (by apply get_node_ok). cbn [ino].
  rewrite add64_small by (unfold in_u64; lia). rewrite (Z.min_r _ off) by lia.
  rewrite (proj2 (Z.ltb_ge _ off)) by lia. unfold mret, M_ret. do 2 f_equal.
  destruct (Z.le_ge_cases (off + len) (Z.of_nat (length content))).
  - rewrite Z.min_r by lia. f_equal. lia.
  - rewrite Z.min_l by lia. rewrite !take_ge; [done|rewrite length_drop; lia..].
Qed.

Lemma access_ok {S T} (w : WithCap T) c (s : S) : can_access w c = true → access w c s = (Ok (inner w), s).
Proof. unfold access. by intros ->. Qed.

Lemma access_denied {S T} (w : WithCap T) c (s : S) :
  can_access w c = false → access w c s = (Err PermissionDenied, s).
Proof. unfold access. by intros ->. Qed.

Lemma access_empty {S T} (w : WithCap T) (s : S) : access w 0 s = (Ok (inner w), s).
Proof. apply access_ok. unfold can_access. by rewrite bf_contains_spec, Z.land_0_r. Qed.

(** The file system with one node changed. *)
Definition with_node (fs : AxFs) (n : nid) (i : Inode) : AxFs :=
  {| store := <[n := i]> (store fs); main_fs := main_fs fs; mounts := mounts fs;
     fs_parents := fs_parents fs;
     CURRENT_DIR := CURRENT_DIR fs; CURRENT_DIR_PATH := CURRENT_DIR_PATH fs |}.
Definition at_offset (f : File) (off : Z) : File :=
  {| f_node := f_node f; is_append := is_append f; offset := off |}.

Lemma File_get_attr_ok fs f n s content :
  inner (f_node f) = VNode n → store fs !! n = Some {| ino := RamFile content; strong := s |} →
  File_get_attr f fs = (Ok (attr_new_file (Z.of_nat (length content)) 0), fs).
Proof.
  intros Hf Hn. unfold File_get_attr. erewrite M_bind_ok by apply access_empty. rewrite Hf.
  unfold v_get_attr, on_store, get_attr, mbind, M_bind. rewrite (get_node_ok _ _ _ Hn). by destruct fs.
Qed.

Lemma File_write_ok fs f n s content buf :
  inner (f_node f) = VNode n → store fs !! n = Some {| ino := RamFile content; strong := s |} →
  can_access (f_node f) CAP_WRITE = true →
  let off := if is_append f then Z.of_nat (length content) else offset f in
  0 ≤ off → off + Z.of_nat (length buf) < 2 ^ 63 →
  File_write buf (fs, f) = (Ok (Z.of_nat (length buf)),
    (with_node fs n {| ino := RamFile (written (Z.to_nat off) buf content); strong := s |},
     at_offset f (off + Z.of_nat (length buf)))).
Proof.
  intros Hf Hn Hc off H0 Hl. unfold File_write. erewrite M_bind_ok by reflexivity.
  erewrite M_bind_ok by (by apply access_ok). cbn [snd].
  assert ((if is_append f then attr ← on_fst (File_get_attr f); set_offset (attr_size attr)
    else mret tt) (fs, f) = (Ok tt, (fs, at_offset f off))) as Hset.
  { subst off. destruct (is_append f) eqn:Ha.
    - unfold mbind, M_bind, on_fst. cbn [fst snd].
      rewrite (File_get_attr_ok fs f n s content Hf Hn). unfold set_offset, modify, at_offset.
      simpl. by rewrite Ha.
    - unfold at_offset. by destruct f. }
  erewrite M_bind_ok by exact Hset.
  erewrite M_bind_ok by reflexivity. rewrite Hf. cbn [snd offset at_offset v_on_file].
  erewrite M_bind_ok.
  2: { unfold on_fst, on_store. cbn [fst snd]. by rewrite (write_at_ok _ _ _ _ _ _ Hn H0 Hl). }
  erewrite M_bind_ok by reflexivity. rewrite add64_small by (unfold in_u64; lia). done.
Qed.

Lemma File_seek_start fs f n s content pos :
  inner (f_node f) = VNode n → store fs !! n = Some {| ino := RamFile content; strong := s |} →
  File_seek (Start pos) (fs, f) = (Ok pos, (fs, at_offset f pos)).
Proof.
  intros Hf Hn. unfold File_seek. erewrite M_bind_ok by reflexivity. cbn [snd].
  erewrite M_bind_ok.
  2: { unfold on_fst. cbn [fst snd]. by rewrite (File_get_attr_ok fs f n s content Hf Hn). }
  reflexivity.
Qed.

Lemma File_read_ok fs f n s content len :
  inner (f_node f) = VNode n → store fs !! n = Some {| ino := RamFile content; strong := s |} →
  can_access (f_node f) CAP_READ = true → 0 ≤ offset f ≤ Z.of_nat (length content) → 0 ≤ len →
  Z.of_nat (length content) < 2 ^ 63 → len < 2 ^ 63 →
  let l := take (Z.to_nat len) (drop (Z.to_nat (offset f)) content) in
  File_read len (fs, f) = (Ok l, (fs, at_offset f (offset f + Z.of_nat (length l)))).
Proof.
  intros Hf Hn Hc H0 H1 Hl Hlen l. unfold File_read. erewrite M_bind_ok by reflexivity.
  erewrite M_bind_ok by (by apply access_ok). cbn [snd]. rewrite Hf. cbn [v_on_file].
  erewrite M_bind_ok.
  2: { unfold on_fst, on_store. cbn [fst snd]. by rewrite (read_at_ok _ _ _ _ _ len Hn H0 H1) by lia. }
  assert (Z.of_nat (length l) ≤ Z.of_nat (length content))
    by (unfold l; rewrite length_take, length_drop; lia).
  erewrite M_bind_ok by reflexivity. fold l. rewrite add64_small by (unfold in_u64; lia). by destruct fs.
Qed.

(** What is written to a file is read back.  A write to an open RAM file, at its
    cursor or in append mode at its end, followed by a seek to where it wrote and a
    read of as many bytes, returns those bytes; the file keeps its other bytes and
    is filled with zeros up to the place of the write; the cursor is behind it; no
    other node changes. *)
Theorem file_write_read fs f n s content buf :
  inner (f_node f) = VNode n → store fs !! n = Some {| ino := RamFile content; strong := s |} →
  can_access (f_node f) CAP_READ = true → can_access (f_node f) CAP_WRITE = true →
  let len := Z.of_nat (length buf) in
  let off := if is_append f then Z.of_nat (length content) else offset f in
  0 ≤ off → Z.of_nat (length content) < 2 ^ 63 → off + len < 2 ^ 63 →
  (k ← File_write buf; _ ← File_seek (Start off); data ← File_read len; mret (k, data)) (fs, f) =
    (Ok (len, buf),
     (with_node fs n {| ino := RamFile (written (Z.to_nat off) buf content); strong := s |},
      at_offset f (off + len))).
Proof.
  intros Hf Hn Hr Hw len off H0 Hc Hl.
  erewrite M_bind_ok by (by apply (File_write_ok fs f n s content buf Hf Hn Hw)).
  set (fs' := with_node _ _ _).
  assert (store fs' !! n = Some {| ino := RamFile (written (Z.to_nat off) buf content); strong := s |}) as Hn'
    by apply lookup_insert_eq.
  erewrite M_bind_ok by (by apply (File_seek_start fs' (at_offset f _) n s _ off Hf Hn')).
  assert (Z.of_nat (length (written (Z.to_nat off) buf content)) =
    Z.max (Z.of_nat (length content)) (off + len)) as Hlw by (rewrite written_length; lia).
  erewrite M_bind_ok.
  2: { apply (File_read_ok fs' (at_offset _ off) n s _ len Hf Hn' Hr); cbn [offset at_offset]; lia. }
  cbn [offset at_offset f_node is_append]. subst len. by rewrite Nat2Z.id, written_slice.
Qed.

(** ** Capabilities *)

Lemma opts_cap_read o : bf_contains (opts_cap o) CAP_READ = o_read o.
Proof.
  rewrite bf_contains_spec. unfold opts_cap. rewrite !bf_union_spec.
  by destruct (o_read o), (o_write o || o_append o)%bool.
Qed.

Lemma opts_cap_write o : bf_contains (opts_cap o) CAP_WRITE = (o_write o || o_append o)%bool.
Proof.
  rewrite bf_contains_spec. unfold opts_cap. rewrite !bf_union_spec.
  by destruct (o_read o), (o_write o || o_append o)%bool.
Qed.

Lemma opts_cap_execute o : bf_contains (opts_cap o) CAP_EXECUTE = false.
Proof.
  rewrite bf_contains_spec. unfold opts_cap. rewrite !bf_union_spec.
  by destruct (o_read o), (o_write o || o_append o)%bool.
Qed.

Lemma kept_if_ok_inv {A} r (m : M AxFs AxError A) fs a fs' :
  kept_if_ok r m fs = (Ok a, fs') → m fs = (Ok a, fs').
Proof.
  unfold kept_if_ok. destruct (m fs) as [[x|e| |] s1]; intros Hm; try done.
  by apply M_bind_ok_inv in Hm as (u&s2&_&[=]).
Qed.

Lemma File_open_at_cap dir path opts new fs f fs' :
  File_open_at dir path opts new fs = (Ok f, fs') →
  OpenOptions_is_valid opts = true ∧ cap (f_node f) = opts_cap opts ∧ is_append f = o_append opts ∧
  offset f = 0.
Proof.
  unfold File_open_at. destruct (OpenOptions_is_valid opts); [|done]. cbn [negb].
  intros (no&s1&_&H1)%M_bind_ok_inv. apply M_bind_ok_inv in H1 as (node&s2&_&H2).
  apply kept_if_ok_inv, M_bind_ok_inv in H2 as (attr&s3&_&H3).
  destruct (_ && _)%bool; [done|]. destruct (negb _); [done|].
  by apply M_bind_ok_inv in H3 as (u&s4&_&[= <- _]).
Qed.

Lemma Directory_open_dir_at_cap dir path opts fs d fs' :
  Directory_open_dir_at dir path opts fs = (Ok d, fs') → o_read opts = true ∧ cap (d_node d) = opts_cap opts.
Proof.
  unfold Directory_open_dir_at. destruct (o_read opts) eqn:Hr; [|done]. cbn [negb].
  destruct (_ || _)%bool; [done|]. intros (node&s1&_&H1)%M_bind_ok_inv.
  apply kept_if_ok_inv, M_bind_ok_inv in H1 as (attr&s2&_&H2).
  destruct (negb _); [done|]. destruct (negb _); [done|]. by injection H2 as <- _.
Qed.

(** The operations that a capability guards, as results on a state. *)
Definition writes_denied (f : File) (fs : AxFs) : Prop :=
  (∀ buf, File_write buf (fs, f) = (Err PermissionDenied, (fs, f))) ∧
  (∀ off buf, File_write_at f off buf fs = (Err PermissionDenied, fs)) ∧
  (∀ size, File_truncate f size fs = (Err PermissionDenied, fs)) ∧
  File_flush f fs = (Err PermissionDenied, fs).
Definition reads_denied (f : File) (fs : AxFs) : Prop :=
  (∀ len, File_read len (fs, f) = (Err PermissionDenied, (fs, f))) ∧
  (∀ off len, File_read_at f off len fs = (Err PermissionDenied, fs)).
Definition relative_denied (d : Directory) (path : Str) (fs : AxFs) : Prop :=
  (∀ opts, open_dir_at d path opts fs = (Err PermissionDenied, fs)) ∧
  (∀ opts new, open_file_at d path opts new fs = (Err PermissionDenied, fs)) ∧
  (∀ new, Directory_create_file d path new fs = (Err PermissionDenied, fs)) ∧
  (∀ new, Directory_create_dir d path new fs = (Err PermissionDenied, fs)) ∧
  Directory_remove_file d path fs = (Err PermissionDenied, fs) ∧
  Directory_remove_dir d path fs = (Err PermissionDenied, fs).

Lemma no_write_denied f fs : can_access (f_node f) CAP_WRITE = false → writes_denied f fs.
Proof.
  intros Hc. split_and!; intros; try unfold File_write; try unfold File_write_at; try unfold File_truncate;
    try unfold File_flush; try (erewrite M_bind_ok by reflexivity);
    by erewrite M_bind_err by (by apply access_denied).
Qed.

Lemma no_read_denied f fs : can_access (f_node f) CAP_READ = false → reads_denied f fs.
Proof.
  intros Hc. split; intros; [unfold File_read; erewrite M_bind_ok by reflexivity|unfold File_read_at];
    by erewrite M_bind_err by (by apply access_denied).
Qed.

Lemma no_execute_denied d path fs :
  can_access (d_node d) CAP_EXECUTE = false → starts_with_slash path = false → relative_denied d path fs.
Proof.
  intros Hc Hp.
  assert (access_at d path fs = (Err PermissionDenied, fs)) as Ha.
  { unfold access_at. rewrite Hp. by erewrite M_bind_err by (by apply access_denied). }
  split_and!; intros; by apply (M_bind_err _ _ _ _ _ Ha).
Qed.

(** An open file does what its options allow and nothing more.  A file that was
    opened without the write and append options refuses every write, truncation and
    flush, and one that was opened without the read option every read, with
    [PermissionDenied] and without a change of the file system or the cursor; a file
    opened with them has the capability. *)
Theorem file_capabilities dir path opts new fs f fs' :
  File_open_at dir path opts new fs = (Ok f, fs') →
  offset f = 0 ∧ is_append f = o_append opts ∧
  can_access (f_node f) CAP_READ = o_read opts ∧
  can_access (f_node f) CAP_WRITE = (o_write opts || o_append opts)%bool ∧
  (o_read opts = false → ∀ fs'', reads_denied f fs'') ∧
  ((o_write opts || o_append opts)%bool = false → ∀ fs'', writes_denied f fs'').
Proof.
  intros (_&Hc&Ha&Ho)%File_open_at_cap.
  assert (can_access (f_node f) CAP_READ = o_read opts) as Hr by (unfold can_access; rewrite Hc; apply opts_cap_read).
  assert (can_access (f_node f) CAP_WRITE = (o_write opts || o_append opts)%bool) as Hw
    by (unfold can_access; rewrite Hc; apply opts_cap_write).
  do 4 (split; [done|]). split; intros He fs''.
  - apply no_read_denied. by rewrite Hr.
  - apply no_write_denied. by rewrite Hw.
Qed.

(** A directory cannot be used for paths relative to it.  The options give no
    directory the execute capability that such a path needs, so each operation of an
    open directory on a relative path fails with [PermissionDenied], whatever the
    permissions of the directory are. *)
Theorem relative_paths_denied dir path opts fs d fs' rel :
  Directory_open_dir_at dir path opts fs = (Ok d, fs') → starts_with_slash rel = false →
  relative_denied d rel fs'.
Proof.
  intros (_&Hc)%Directory_open_dir_at_cap Hrel. apply no_execute_denied; [|done].
  unfold can_access. rewrite Hc. apply opts_cap_execute.
Qed.
End files.

(** ** Concrete instances *)

Section examples.
Local Instance example_axfs_bitflags : Bitflags := std_bitflags.

(** A root file system with a file [a] that holds three bytes. *)
Definition example_axfs : AxFs := {|
  store := {[1%positive := {| ino := RamDir None [([97], 2%positive)]; strong := 1 |};
             2%positive := {| ino := RamFile [1; 2; 3]; strong := 1 |}]};
  main_fs := 1; mounts := []; fs_parents := ∅; CURRENT_DIR := VRoot; CURRENT_DIR_PATH := [SLASH];
|}.
Definition example_file : File :=
  {| f_node := {| inner := VNode 2; cap := 3 |}; is_append := false; offset := 5 |}.
Definition example_opts : OpenOptions := {|
  o_read := true; o_write := false; o_append := false; o_truncate := false; o_create := false;
  o_create_new := false;
|}.

Lemma file_write_read_witness :
  (k ← File_write [7; 8]; _ ← File_seek (Start 5); data ← File_read 2; mret (k, data))
    (example_axfs, example_file) =
  (Ok (2, [7; 8]),
   (with_node example_axfs 2 {| ino := RamFile [1; 2; 3; 0; 0; 7; 8]; strong := 1 |},
    at_offset example_file 7)).
Proof.
  exact (file_write_read example_axfs example_file 2 1 [1; 2; 3] [7; 8] eq_refl eq_refl eq_refl eq_refl
    ltac:(vm_compute; discriminate) eq_refl eq_refl).
Defined.

Lemma file_capabilities_witness :
  ∃ f fs', File_open [97] example_opts 3 example_axfs = (Ok f, fs') ∧ writes_denied f fs'.
Proof.
  destruct (File_open [97] example_opts 3 example_axfs) as [r fs'] eqn:Ho.
  assert (∃ f, r = Ok f) as [f ->].
  { apply (f_equal fst) in Ho. vm_compute in Ho. subst r. by eexists. }
  exists f, fs'. split; [reflexivity|].
  destruct (file_capabilities _ _ _ _ _ _ _ Ho) as (_&_&_&_&_&Hw). exact (Hw eq_refl fs').
Defined.

Lemma relative_paths_denied_witness :
  ∃ d fs', Directory_open_dir [SLASH] example_opts example_axfs = (Ok d, fs') ∧ relative_denied d [97] fs'.
Proof.
  destruct (Directory_open_dir [SLASH] example_opts example_axfs) as [r fs'] eqn:Ho.
  assert (∃ d, r = Ok d) as [d ->].
  { apply (f_equal fst) in Ho. vm_compute in Ho. subst r. by eexists. }
  exists d, fs'. split; [reflexivity|]. exact (relative_paths_denied _ _ _ _ _ _ [97] Ho eq_refl).
Defined.
End examples.
