(* ===== verification/FsApiProps.v ===== *)
(** * Correctness of the file system API

    A file written with [write] is read back with [read]: through the options, the
    mount points, the path walk, the cursor and the readers. *)

From Stdlib Require Import ZArith Lia.
From stdpp Require Import base decidable numbers gmap strings list.
From S2P Require Import Prelude Containers LinkedList Path Vfs VfsProps AxIo AxIoProps AxFs RootFs FsApi AxFsProps.

Local Open Scope Z_scope.

(** ** Path walks depend on the directories only *)

Definition same_dirs (st st' : Store) : Prop := ∀ n,
  match st !! n, st' !! n with
  | Some i, Some i' => dir_of (ino i) = dir_of (ino i')
  | None, None => True
  | _, _ => False
  end.

Lemma same_dirs_insert st n i i' :
  st !! n = Some i → dir_of (ino i) = dir_of (ino i') → same_dirs st (<[n := i']> st).
Proof.
  intros Hn Hd m. destruct (decide (n = m)) as [->|Hne].
  - by rewrite Hn, lookup_insert_eq.
  - rewrite lookup_insert_ne by done. by destruct (st !! m).
Qed.

Lemma same_dirs_Some st st' n : same_dirs st st' → is_Some (st !! n) ↔ is_Some (st' !! n).
Proof.
  intros Hs. specialize (Hs n). destruct (st !! n), (st' !! n); try done.
Qed.

Lemma walk_same_dirs st st' n l : same_dirs st st' → path_walk st n l = path_walk st' n l.
Proof.
  intros Hs. revert n. induction l as [|name l IH]; intros n; [done|]. cbn [path_walk].
  pose proof (Hs n) as Hn. destruct (st !! n) as [i|], (st' !! n) as [i'|]; try done.
  rewrite Hn. destruct (dir_of (ino i')) as [[p ch]|]; [|done].
  assert (step_to st n p ch name = step_to st' n p ch name) as ->.
  { unfold step_to. destruct (is_dot name); [done|]. destruct (is_dotdot name); [|done].
    destruct p as [q|]; [|done]. by rewrite !(decide_ext _ _ _ _ (same_dirs_Some st st' q Hs)). }
  destruct (step_to st' n p ch name); [apply IH|done].
Qed.

Section api.
Context `{BF : Bitflags} `{BS : !BitflagsSpec BF}.

(** ** Where a path starts *)

Definition dispatched (fs : AxFs) (path : Str) : nid * Str :=
  match (root_dispatch path fs).1 with Ok x => x | _ => (main_fs fs, []) end.
Definition target (fs : AxFs) (path : Str) : nid * Str :=
  if starts_with_slash path then dispatched fs path
  else match CURRENT_DIR fs with VRoot => dispatched fs path | VNode n => (n, path) end.

(** States that agree outside of the node store. *)
Definition same_roots (fs fs' : AxFs) : Prop :=
  main_fs fs = main_fs fs' ∧ mounts fs = mounts fs' ∧ CURRENT_DIR fs = CURRENT_DIR fs'.

Lemma trim_end_length s : (length (trim_end s) ≤ length s)%nat.
Proof.
  induction s as [|c s IH]; cbn; [done|]. destruct (trim_end s); cbn in *; [destruct (c =? SLASH); cbn; lia|lia].
Qed.

Lemma longest_mount_in mps path best :
  (longest_mount mps path best).2 = best.2 ∨ (longest_mount mps path best).2 ∈ mp_fs <$> mps.
Proof.
  revert best. induction mps as [|mp mps IH]; intros best; [by left|]. cbn [longest_mount].
  match goal with |- context [longest_mount mps path ?b] => destruct (IH b) as [Hb|Hb] end.
  - rewrite Hb. destruct (_ && _)%bool; [right|by left]. apply list_elem_of_fmap. exists mp. split; [done|by left].
  - right. rewrite fmap_cons. by right.
Qed.

Lemma lookup_mounted_ok fuel path fs fs' :
  same_roots fs fs' → (length path < fuel)%nat →
  ∃ x, lookup_mounted_fs fuel path fs = (Ok x, fs) ∧ lookup_mounted_fs fuel path fs' = (Ok x, fs') ∧
    (x.1 = main_fs fs ∨ x.1 ∈ mp_fs <$> mounts fs).
Proof.
  intros (Hm&Hmt&_). revert path. induction fuel as [|fuel IH]; intros path Hf; [lia|]. cbn [lookup_mounted_fs].
  assert (length (trim_matches path) ≤ length path)%nat.
  { unfold trim_matches. etrans; [apply trim_end_length|apply trim_start_length]. }
  destruct (starts_with _ _) eqn:Es.
  - apply IH. rewrite length_drop. destruct (trim_matches path); [done|]. cbn in *. lia.
  - unfold mbind, M_bind, get_state. rewrite <- Hm, <- Hmt.
    pose proof (longest_mount_in (mounts fs) (trim_matches path) (0%nat, main_fs fs)) as Hl.
    destruct (longest_mount _ _ _) as [k r]. cbn in Hl. destruct (k =? 0)%nat.
    + eexists. split_and!; [done..|by left].
    + eexists. split_and!; [done..|]. done.
Qed.

Lemma dispatched_ok path fs :
  root_dispatch path fs = (Ok (dispatched fs path), fs) ∧
  ((dispatched fs path).1 = main_fs fs ∨ (dispatched fs path).1 ∈ mp_fs <$> mounts fs).
Proof.
  unfold dispatched, root_dispatch.
  destruct (lookup_mounted_ok (S (length path)) path fs fs) as (x&Hx&_&Hin); [done|lia|]. by rewrite Hx.
Qed.

Lemma target_same fs fs' path : same_roots fs fs' → target fs path = target fs' path.
Proof.
  intros Hs. assert (dispatched fs path = dispatched fs' path) as Hd.
  { unfold dispatched, root_dispatch.
    destruct (lookup_mounted_ok (S (length path)) path fs fs' Hs) as (x&->&->&_); [lia|done]. }
  unfold target. destruct Hs as (_&_&<-). by rewrite Hd.
Qed.

(** The roots and the current directory are held. *)
Record axfs_wf (fs : AxFs) (H : nid → Z) : Prop := {
  aw_store : fs_wf (store fs) H;
  aw_main : 1 ≤ H (main_fs fs);
  aw_mounts n : n ∈ mp_fs <$> mounts fs → 1 ≤ H n;
  aw_current n : CURRENT_DIR fs = VNode n → 1 ≤ H n;
}.

Lemma target_held fs H path : axfs_wf fs H → is_Some (store fs !! (target fs path).1).
Proof.
  intros HW. apply (fw_handle _ _ (aw_store _ _ HW)). unfold target.
  assert (1 ≤ H (dispatched fs path).1) as Hd.
  { destruct (dispatched_ok path fs) as [_ [->|Hin]]; [by apply aw_main|by apply (aw_mounts fs)]. }
  destruct (starts_with_slash path); [done|]. destruct (CURRENT_DIR fs) eqn:Hc; [done|]. by apply (aw_current fs).
Qed.

(** ** Lookups and creation from the root *)

Definition set_store (fs : AxFs) (st : Store) : AxFs :=
  {| store := st; main_fs := main_fs fs; mounts := mounts fs; fs_parents := fs_parents fs;
     CURRENT_DIR := CURRENT_DIR fs; CURRENT_DIR_PATH := CURRENT_DIR_PATH fs |}.
Definition parent (fs : AxFs) (path : Str) : VRef :=
  if starts_with_slash path then VRoot else CURRENT_DIR fs.

Lemma set_store_id fs : set_store fs (store fs) = fs.
Proof. by destruct fs. Qed.
Lemma on_store_eq {A} (m : M Store AxError A) fs r st :
  m (store fs) = (r, st) → on_store m fs = (r, set_store fs st).
Proof. unfold on_store. by intros ->. Qed.
Lemma on_store_pure {A} (m : M Store AxError A) fs r :
  m (store fs) = (r, store fs) → on_store m fs = (r, fs).
Proof. intros Hm. rewrite (on_store_eq _ _ _ _ Hm). by rewrite set_store_id. Qed.
Lemma same_roots_set fs st : same_roots fs (set_store fs st).
Proof. done. Qed.

Lemma v_lookup_target fs path :
  v_lookup (parent fs path) path fs =
    (n ← on_store (vfs_lookup (target fs path).1 (target fs path).2); mret (VNode n)) fs.
Proof.
  unfold v_lookup, target, parent. destruct (dispatched_ok path fs) as [Hd _].
  assert ((n ← ('(fs, rest_path) ← root_dispatch path; on_store (vfs_lookup fs rest_path)); mret (VNode n)) fs =
    (n ← on_store (vfs_lookup (dispatched fs path).1 (dispatched fs path).2); mret (VNode n)) fs) as Hr.
  { unfold mbind, M_bind. rewrite Hd. by destruct (dispatched fs path). }
  destruct (starts_with_slash path); [exact Hr|]. by destruct (CURRENT_DIR fs).
Qed.

Definition referenced (i : Inode) : Inode := {| ino := ino i; strong := strong i + 1 |}.

Lemma v_lookup_found fs path n i :
  path_walk (store fs) (target fs path).1 (components (target fs path).2) = Ok n →
  store fs !! n = Some i →
  v_lookup (parent fs path) path fs = (Ok (VNode n), with_node fs n (referenced i)).
Proof.
  intros Hw Hn. rewrite v_lookup_target. erewrite M_bind_ok; [reflexivity|].
  apply on_store_eq. unfold vfs_lookup. erewrite M_bind_ok by (by rewrite lookup_loop_walk, <- Hw by lia).
  erewrite M_bind_ok; [reflexivity|]. unfold node_clone, get_inode, mbind, M_bind, get_state. by rewrite Hn.
Qed.

Lemma v_lookup_error fs path e :
  path_walk (store fs) (target fs path).1 (components (target fs path).2) = Err e →
  v_lookup (parent fs path) path fs = (Err e, fs).
Proof.
  intros Hw. rewrite v_lookup_target. erewrite M_bind_err; [reflexivity|].
  apply on_store_pure. unfold vfs_lookup.
  erewrite M_bind_err; [reflexivity|]. by rewrite lookup_loop_walk, <- Hw by lia.
Qed.

Lemma v_create_target fs path ty new fs' :
  v_create (parent fs path) path ty new fs = (Ok tt, fs') →
  fs' = fs ∨
  ∃ st', vfs_create (target fs path).1 (target fs path).2 ty new (store fs) = (Ok tt, st') ∧
    fs' = set_store fs st'.
Proof.
  unfold v_create, target, parent. destruct (dispatched_ok path fs) as [Hd _].
  assert (('(fs, rest_path) ← root_dispatch path;
     if bool_decide (rest_path = []) then mret tt else on_store (vfs_create fs rest_path ty new)) fs =
     (Ok tt, fs') → fs' = fs ∨ ∃ st', vfs_create (dispatched fs path).1 (dispatched fs path).2 ty new (store fs) =
       (Ok tt, st') ∧ fs' = set_store fs st') as Hr.
  { unfold mbind, M_bind. rewrite Hd. destruct (dispatched fs path) as [b rest]. case_bool_decide.
    - intros [= <-]. by left.
    - unfold on_store. destruct (vfs_create _ _ _ _ _) as [r st'] eqn:E. intros Hc. simplify_eq. right. by exists st'. }
  destruct (starts_with_slash path); [exact Hr|]. destruct (CURRENT_DIR fs); [exact Hr|].
  clear Hr. cbn [fst snd]. unfold on_store. destruct (vfs_create _ _ _ _ _) as [r st'] eqn:E. intros Hc. simplify_eq. right. by exists st'.
Qed.

Lemma fs_lookup_eq fs path :
  path ≠ [] → ends_with_slash path = false → fs_lookup None path fs = v_lookup (parent fs path) path fs.
Proof.
  intros Hp He. unfold fs_lookup. rewrite bool_decide_eq_false_2 by done.
  erewrite M_bind_ok by reflexivity. rewrite He. fold (parent fs path). unfold mbind, M_bind.
  by destruct (v_lookup (parent fs path) path fs) as [[?|?| |] ?].
Qed.

Lemma walk_target_cases fs H path :
  axfs_wf fs H →
  (∃ n i, path_walk (store fs) (target fs path).1 (components (target fs path).2) = Ok n ∧
     store fs !! n = Some i ∧ 1 ≤ strong i) ∨
  ∃ e, path_walk (store fs) (target fs path).1 (components (target fs path).2) = Err e.
Proof.
  intros HW. destruct (walk_in (store fs) H _ (components (target fs path).2) (aw_store _ _ HW)
    (target_held fs H path HW)) as [(n&Hw&[i Hi])|?]; [|by right].
  left. exists n, i. split_and!; try done. by apply (fw_count _ _ (aw_store _ _ HW) n).
Qed.

(** ** Opening a file for writing *)

Definition no_device (fs : AxFs) (path : Str) : Prop := ∀ n i,
  path_walk (store fs) (target fs path).1 (components (target fs path).2) = Ok n →
  store fs !! n = Some i → ino i ≠ NullDev ∧ ino i ≠ ZeroDev.

(** The path leads to the node, which is referenced by its directory and once more. *)
Definition leads_to (fs : AxFs) (path : Str) (n : nid) (i : Inode) : Prop :=
  path_walk (store fs) (target fs path).1 (components (target fs path).2) = Ok n ∧
  store fs !! n = Some i ∧ 2 ≤ strong i.

Lemma found_leads_to fs path n i :
  path_walk (store fs) (target fs path).1 (components (target fs path).2) = Ok n →
  store fs !! n = Some i → 1 ≤ strong i →
  leads_to (with_node fs n (referenced i)) path n (referenced i).
Proof.
  intros Hw Hn Hs. split_and!; [|apply lookup_insert_eq|cbn; lia].
  rewrite <- (target_same fs) by done. cbn. rewrite <- Hw. symmetry. apply walk_same_dirs.
  by apply (same_dirs_insert _ _ i).
Qed.

Lemma create_file_leads_to fs H path new node fs1 :
  axfs_wf fs H → path ≠ [] → ends_with_slash path = false → store fs !! new = None →
  path_walk (store fs) (target fs path).1 (components (target fs path).2) = Err NotFound →
  create_file None path new fs = (Ok node, fs1) →
  ∃ n s, node = VNode n ∧ same_roots fs fs1 ∧ leads_to fs1 path n {| ino := RamFile []; strong := s |}.
Proof.
  intros HW Hp He Hnew Hw. unfold create_file. rewrite bool_decide_eq_false_2 by done. rewrite He.
  erewrite M_bind_ok by reflexivity. cbv beta iota. fold (parent fs path). intros (u&fs2&Hc&Hl)%M_bind_ok_inv.
  destruct u. apply v_create_target in Hc as [->|(st2&Hc&->)].
  { by rewrite (v_lookup_error _ _ _ Hw) in Hl. }
  destruct (vfs_create_ok (store fs) H _ (target fs path).2 File_ new (aw_store _ _ HW)
    (target_held fs H path HW) Hnew) as (ds&name&Hcs&[(e&Hc')|[[Hc' _]|(d&st'&Hd&Hc'&Hcr)]]);
    rewrite Hc in Hc'; simplify_eq.
  { rewrite set_store_id in Hl. by rewrite (v_lookup_error _ _ _ Hw) in Hl. }
  destruct (walk_created_new _ _ H _ _ _ _ _ _ (aw_store _ _ HW) Hcr Hd) as (Hw2&x&[= <-]&Hx).
  rewrite <- Hcs in Hw2.
  change (parent fs path) with (parent (set_store fs st') path) in Hl.
  rewrite (target_same fs (set_store fs st') path (same_roots_set fs st')) in Hw2.
  rewrite (v_lookup_found _ _ _ _ Hw2 Hx) in Hl. simplify_eq.
  exists new, 2. split_and!; try done. by apply (found_leads_to (set_store fs st') path new _ Hw2 Hx).
Qed.

Lemma new_nid_ok fs : on_store new_nid fs = (Ok (fresh (dom (store fs))), fs) ∧
  store fs !! fresh (dom (store fs)) = None.
Proof.
  split; [by destruct fs|]. apply not_elem_of_dom. apply is_fresh.
Qed.

(** The first part of [_open_at]: the node is looked up, or created. *)
Definition open_or_create (path : Str) (new : nid) : M AxFs AxError VRef :=
  node_option ← catch (fs_lookup None path);
  match node_option with
  | inl node => mret node
  | inr NotFound => create_file None path new
  | inr e => throw e
  end.

Lemma open_or_create_ok fs H path new node fs1 :
  axfs_wf fs H → ends_with_slash path = false → store fs !! new = None →
  open_or_create path new fs = (Ok node, fs1) →
  ∃ n i, path ≠ [] ∧ node = VNode n ∧ same_roots fs fs1 ∧ leads_to fs1 path n i ∧
    (no_device fs path → is_Some (dir_of (ino i)) ∨ ∃ c, ino i = RamFile c).
Proof.
  intros HW He Hnew. unfold open_or_create. destruct (decide (path = [])) as [->|Hp].
  { intros (o&fs2&Ho&Hm)%M_bind_ok_inv. unfold catch in Ho. cbn in Ho. by simplify_eq. }
  unfold mbind, M_bind, catch. rewrite (fs_lookup_eq fs path Hp He).
  destruct (walk_target_cases fs H path HW) as [(n&i&Hw&Hn&Hs)|(e&Hw)].
  - rewrite (v_lookup_found _ _ _ _ Hw Hn). intros Hm. injection Hm as <- <-.
    exists n, (referenced i). split_and!; try done; [by apply found_leads_to|].
    intros Hd. destruct (Hd n i Hw Hn) as [Hd1 Hd2]. unfold referenced. cbn.
    destruct (ino i); try done; [by left; eexists|by right; eexists|by left; eexists].
  - rewrite (v_lookup_error _ _ _ Hw). destruct e; try done. intros Hc.
    destruct (create_file_leads_to fs H path new node fs1 HW Hp He Hnew Hw Hc) as (n&s&->&Hr&Hl).
    exists n, {| ino := RamFile []; strong := s |}. split_and!; try done. intros _. right. by eexists.
Qed.

Lemma get_attr_ok fs n i :
  store fs !! n = Some i → ∃ a, v_get_attr (VNode n) fs = (Ok a, fs) ∧
    (is_Some (dir_of (ino i)) → attr_is_dir a = true) ∧
    (∀ c, ino i = RamFile c → a = attr_new_file (len c) 0).
Proof.
  intros Hn. unfold v_get_attr. eexists. split_and!.
  - apply on_store_pure. unfold get_attr. erewrite M_bind_ok by (by apply get_node_ok). reflexivity.
  - intros [x Hx]. by destruct (ino i).
  - by intros c ->.
Qed.

Lemma truncate_zero fs n s c :
  store fs !! n = Some {| ino := RamFile c; strong := s |} →
  on_store (vfs_truncate n 0) fs = (Ok tt, with_node fs n {| ino := RamFile []; strong := s |}).
Proof.
  intros Hn. apply on_store_eq. unfold vfs_truncate. erewrite M_bind_ok by (by apply get_node_ok). cbn [ino].
  erewrite (M_bind_ok _ _ _ [] (store fs)) by (by destruct c). by apply (set_node_ok _ _ _ _ Hn).
Qed.

Definition created_file (n : nid) : File :=
  {| f_node := {| inner := VNode n; cap := opts_cap opts_create |}; is_append := false; offset := 0 |}.

Lemma leads_to_update fs path n i i' :
  leads_to fs path n i → dir_of (ino i) = dir_of (ino i') → 2 ≤ strong i' →
  leads_to (with_node fs n i') path n i'.
Proof.
  intros (Hw&Hn&Hs) Hd Hs'. split_and!; [|apply lookup_insert_eq|done].
  rewrite <- (target_same fs) by done. cbn. rewrite <- Hw. symmetry. apply walk_same_dirs.
  by apply (same_dirs_insert _ _ i).
Qed.

(** A file that is opened with truncation, whether it existed or not. *)
Lemma opts_open_ok opts fs H path f fs1 :
  OpenOptions_is_valid opts = true → o_create opts = true → o_create_new opts = false → o_truncate opts = true →
  axfs_wf fs H → ends_with_slash path = false → no_device fs path →
  opts_open opts path fs = (Ok f, fs1) →
  ∃ n s, path ≠ [] ∧ f = {| f_node := {| inner := VNode n; cap := opts_cap opts |}; is_append := o_append opts; offset := 0 |} ∧
    same_roots fs fs1 ∧ leads_to fs1 path n {| ino := RamFile []; strong := s |}.
Proof.
  intros Hv Hcr Hcn Htr HW He Hnd. unfold opts_open. destruct (new_nid_ok fs) as [Hnew Hfresh].
  erewrite M_bind_ok by exact Hnew. unfold File_open, File_open_at. rewrite Hv, Hcr, Hcn, Htr. cbn [negb orb].
  intros (no&fs2&Hno&Hrest)%M_bind_ok_inv. apply M_bind_ok_inv in Hrest as (node&fs3&Hnode&Hrest).
  destruct (open_or_create_ok fs H path _ node fs3 HW He Hfresh) as (n&i&Hp&->&Hr&Hl&Hk).
  { unfold open_or_create. erewrite M_bind_ok by exact Hno. exact Hnode. }
  apply kept_if_ok_inv in Hrest. destruct Hl as (Hw&Hn&Hs).
  destruct (get_attr_ok fs3 n i Hn) as (a&Ha&Hdir&Hfile). erewrite M_bind_ok in Hrest by exact Ha.
  destruct (Hk Hnd) as [Hd|[c Hc]]; [by rewrite (Hdir Hd) in Hrest|].
  rewrite (Hfile c Hc) in Hrest. change (attr_is_dir (attr_new_file (len c) 0)) with false in Hrest.
  cbn [andb] in Hrest. destruct (negb _); [done|].
  destruct i as [x s]. cbn in Hc. subst x. cbn [v_on_file] in Hrest.
  erewrite M_bind_ok in Hrest by (by apply (truncate_zero fs3 n s c)).
  injection Hrest as <- <-. exists n, s. split_and!; try done.
  by apply (leads_to_update fs3 path n {| ino := RamFile c; strong := s |}).
Qed.
Lemma api_create_ok fs H path f fs1 :
  axfs_wf fs H → ends_with_slash path = false → no_device fs path →
  api_create path fs = (Ok f, fs1) →
  ∃ n s, path ≠ [] ∧ f = created_file n ∧ same_roots fs fs1 ∧
    leads_to fs1 path n {| ino := RamFile []; strong := s |}.
Proof. by apply opts_open_ok. Qed.

(** ** Writing, closing and reading *)

Lemma written_all contents : written 0 contents [] = contents.
Proof. unfold written. by rewrite drop_nil, app_nil_r. Qed.

Lemma write_all_ok fs path n s contents :
  leads_to fs path n {| ino := RamFile []; strong := s |} → len contents < 2 ^ 63 →
  ∃ fs' f', write_all contents (fs, created_file n) = (Ok tt, (fs', f')) ∧ inner (f_node f') = VNode n ∧
    same_roots fs fs' ∧ leads_to fs' path n {| ino := RamFile contents; strong := s |}.
Proof.
  intros Hl Hc. unfold write_all. destruct contents as [|x c]; [by exists fs, (created_file n)|].
  set (contents := x :: c) in *. cbn [length]. cbn [write_all_loop]. rewrite bool_decide_eq_false_2 by done.
  assert (can_access (f_node (created_file n)) CAP_WRITE = true) as Hw by apply (opts_cap_write opts_create).
  destruct Hl as (Hwk&Hn&Hs).
  pose proof (File_write_ok fs (created_file n) n s [] contents eq_refl Hn Hw ltac:(done) Hc) as Hwr.
  erewrite M_bind_ok by exact Hwr. cbn zeta.
  rewrite (proj2 (Z.eqb_neq _ 0)) by (unfold contents; cbn; lia).
  unfold len. rewrite Z.ltb_irrefl, Nat2Z.id, drop_all. cbn [write_all_loop length].
  eexists _, _. split; [reflexivity|]. split_and!; try done. cbn [is_append created_file offset Z.to_nat].
  rewrite written_all. by apply (leads_to_update fs path n {| ino := RamFile []; strong := s |}).
Qed.

Lemma drop_reference fs n i :
  store fs !! n = Some i → 2 ≤ strong i →
  vref_drop (VNode n) fs = (Ok tt, with_node fs n {| ino := ino i; strong := strong i - 1 |}).
Proof.
  intros Hn Hs. apply on_store_eq. unfold node_drop. erewrite M_bind_ok by reflexivity. cbn [drop_loop].
  erewrite M_bind_ok by (unfold get_inode, mbind, M_bind, get_state; by rewrite Hn).
  rewrite (proj2 (Z.eqb_neq _ 1)) by lia. by destruct (length (all_children (store fs))).
Qed.

(** The reader of an open RAM file. *)
Section reader.
Context (fs : AxFs) (f : File) (n : nid) (s : Z) (content : list Z).
Context (Hf : inner (f_node f) = VNode n) (Hn : store fs !! n = Some {| ino := RamFile content; strong := s |}).
Context (Hr : can_access (f_node f) CAP_READ = true) (Hlen : len content < 2 ^ 63).

Definition file_stream (st : AxFs * File) : list Z := drop (Z.to_nat (offset st.2)) content.
Definition file_ok (st : AxFs * File) : Prop :=
  st.1 = fs ∧ st.2 = at_offset f (offset st.2) ∧ 0 ≤ offset st.2 ≤ len content.

Lemma file_read_law : read_law file_stream file_ok False File_read.
Proof.
  intros [fs' f'] k (Hfs&Hf'&Ho) Hk. cbn [fst snd] in *. subst fs'. unfold len in *.
  assert (inner (f_node f') = VNode n) as Hi by (by rewrite Hf').
  assert (can_access (f_node f') CAP_READ = true) as Hc by (by rewrite Hf').
  pose proof (File_read_ok fs f' n s content k Hi Hn Hc ltac:(lia) ltac:(lia) ltac:(lia) ltac:(lia)) as Hrd.
  cbn zeta in Hrd. rewrite Hrd. unfold file_ok, file_stream. cbn [fst snd at_offset offset].
  set (l := take _ _). assert (length l = Nat.min (Z.to_nat k) (length content - Z.to_nat (offset f')))
    as Hl by (unfold l; by rewrite length_take, length_drop).
  split_and!; try done; try lia.
  - by rewrite Hf'.
  - unfold len. lia.
  - unfold l. rewrite Z2Nat.inj_add, Nat2Z.id, <- drop_drop by lia. unfold len.
    rewrite <- (take_drop (Z.to_nat k) (drop (Z.to_nat (offset f')) content)) at 1. f_equal.
    fold l. rewrite Hl. destruct (decide (Z.to_nat k ≤ length content - Z.to_nat (offset f'))%nat).
    + f_equal. lia.
    + rewrite !drop_ge; [done|rewrite length_drop; lia..].
  - intros Hp He. rewrite He in Hl. cbn [length] in Hl. apply nil_length_inv. rewrite length_drop. lia.
Qed.
End reader.

Definition opened_file (n : nid) : File :=
  {| f_node := {| inner := VNode n; cap := opts_cap opts_read |}; is_append := false; offset := 0 |}.

Lemma file_readable : bf_contains (perm_to_cap perm_default_file) (opts_cap opts_read) = true.
Proof.
  unfold perm_to_cap, perm_default_file, owner_readable, owner_writable, owner_executable, opts_cap.
  by rewrite ?bf_contains_spec, ?bf_union_spec, ?bf_truncate_spec.
Qed.

Lemma api_open_ok fs path n i content :
  path ≠ [] → ends_with_slash path = false →
  path_walk (store fs) (target fs path).1 (components (target fs path).2) = Ok n →
  store fs !! n = Some i → ino i = RamFile content →
  api_open path fs = (Ok (opened_file n), with_node fs n (referenced i)).
Proof.
  intros Hp He Hw Hn Hi. unfold api_open, opts_open. erewrite M_bind_ok by apply new_nid_ok.
  unfold File_open, File_open_at. destruct (OpenOptions_is_valid opts_read) eqn:Hv; [|by vm_compute in Hv].
  cbn [negb]. erewrite M_bind_ok.
  2: { unfold catch. by rewrite (fs_lookup_eq _ _ Hp He), (v_lookup_found _ _ _ _ Hw Hn). }
  erewrite M_bind_ok by reflexivity. unfold kept_if_ok.
  set (fs1 := with_node _ _ _). assert (store fs1 !! n = Some (referenced i)) as Hn1 by apply lookup_insert_eq.
  destruct (get_attr_ok fs1 n _ Hn1) as (a&Ha&_&Hfile). rewrite (Hfile content Hi) in Ha.
  erewrite M_bind_ok by exact Ha. rewrite andb_false_r by done. cbn [attr_mode attr_new_file].
  rewrite file_readable. reflexivity.
Qed.

Lemma read_to_end_all fs n s content fuel :
  store fs !! n = Some {| ino := RamFile content; strong := s |} → len content < 2 ^ 63 →
  (length content < fuel)%nat →
  ∃ f', into_vec (read_to_end fuel) (fs, opened_file n) = (Ok content, (fs, f')) ∧ inner (f_node f') = VNode n.
Proof.
  intros Hn Hlen Hf. assert (can_access (f_node (opened_file n)) CAP_READ = true) as Hr
    by apply (opts_cap_read opts_read).
  pose proof (file_read_law fs (opened_file n) n s content eq_refl Hn Hr Hlen) as Hlaw.
  assert (file_ok fs (opened_file n) content (fs, opened_file n)) as Hok
    by (split_and!; [done..|cbn; unfold len; lia]).
  pose proof (default_read_to_end_ok _ _ _ _ Hlaw (fs, opened_file n) [] fuel Hok Hf ltac:(change (len content < 2 ^ 64); lia)) as He.
  unfold into_vec. cbn [read_to_end File_Read] in *.
  destruct (default_read_to_end File_read fuel (fs, opened_file n, [])) as [[k|e| |] [[fs' f'] v]]; [| |done..].
  - destruct He as ((Hfs&Hf'&_)&_&->&_). cbn in Hfs, Hf'. subst fs'. exists f'. split; [done|]. by rewrite Hf'.
  - by destruct He as ([]&_).
Qed.

Lemma api_read_ok fs path n i content fuel :
  path ≠ [] → ends_with_slash path = false →
  path_walk (store fs) (target fs path).1 (components (target fs path).2) = Ok n →
  store fs !! n = Some i → ino i = RamFile content → 1 ≤ strong i → len content < 2 ^ 63 →
  (length content < fuel)%nat →
  api_read path fuel fs = (Ok content, fs).
Proof.
  intros Hp He Hw Hn Hi Hs Hlen Hf. unfold api_read, with_file.
  erewrite M_bind_ok by (by apply (api_open_ok fs path n i content)).
  set (fs1 := with_node _ _ _).
  assert (store fs1 !! n = Some {| ino := RamFile content; strong := strong i + 1 |}) as Hn1
    by (rewrite <- Hi; apply lookup_insert_eq).
  assert (file_size (fs1, opened_file n) = (Ok (len content), (fs1, opened_file n))) as Hsz.
  { unfold file_size, on_fst. cbn [fst snd]. by rewrite (File_get_attr_ok fs1 (opened_file n) n _ content eq_refl Hn1). }
  destruct (read_to_end_all fs1 n _ content fuel Hn1 Hlen Hf) as (f'&Hr&Hf').
  erewrite M_bind_ok by exact Hsz. erewrite M_bind_ok.
  2: { unfold with_capacity. by rewrite (proj2 (Z.leb_gt (2 ^ 63) _)) by lia. }
  rewrite Hr. erewrite M_bind_ok.
  2: { unfold File_drop. rewrite Hf'. apply (drop_reference fs1 n _ Hn1). cbn. lia. }
  unfold mret, M_ret. f_equal. unfold fs1, with_node. cbn. rewrite insert_insert_eq.
  replace (strong i + 1 - 1) with (strong i) by lia. rewrite <- Hi.
  replace {| ino := ino i; strong := strong i |} with i by (by destruct i). rewrite insert_id by done. by destruct fs.
Qed.

(** What is written with [write] is read back with [read].  In a well-formed state,
    when a write to a path that is not a device succeeds, whether the file existed or
    not, a read of the path gives exactly the contents, through the mount points, the
    path walk, the open options and the loops of the reader and the writer; and the
    read leaves the file system as it was. *)
Theorem api_write_read fs H path contents fs' fuel :
  axfs_wf fs H → ends_with_slash path = false → no_device fs path →
  len contents < 2 ^ 63 → (length contents < fuel)%nat →
  api_write path contents fs = (Ok tt, fs') →
  api_read path fuel fs' = (Ok contents, fs').
Proof.
  intros HW He Hnd Hc Hf. unfold api_write, with_file. intros (f&fs1&Ho&Hw)%M_bind_ok_inv.
  destruct (api_create_ok fs H path f fs1 HW He Hnd Ho) as (n&s&Hp&->&Hr&Hl).
  destruct (write_all_ok fs1 path n s contents Hl Hc) as (fs2&f'&Hwr&Hf'&Hr2&Hl2).
  rewrite Hwr in Hw. destruct Hl2 as (Hwk&Hn&Hs). erewrite M_bind_ok in Hw.
  2: { unfold File_drop. rewrite Hf'. by apply (drop_reference fs2 n _ Hn). }
  injection Hw as <-. eapply api_read_ok; [done..| |apply lookup_insert_eq|done|cbn in *; lia|done|done].
  rewrite <- (target_same fs2) by done. rewrite <- Hwk. symmetry. apply walk_same_dirs.
  by apply (same_dirs_insert _ _ _ _ Hn).
Qed.
End api.

(** ** The file systems after boot *)

Section boot.
Local Instance boot_bitflags : Bitflags := std_bitflags.

Definition before_boot : AxFs := {|
  store := ∅; main_fs := 1; mounts := []; fs_parents := ∅; CURRENT_DIR := VRoot; CURRENT_DIR_PATH := [];
|}.

Definition booted : AxFs := (init_rootfs before_boot).2.

Lemma booted_ok : init_rootfs before_boot = (Ok tt, booted).
Proof. vm_compute. reflexivity. Qed.

(** The kernel boots with its file systems.  [init_rootfs] mounts the device,
    temporary, [proc] and [sys] file systems without an error or a panic, and the
    files that applications rely on are found at their paths with their contents. *)
Theorem boot_file_systems :
  ∃ fs, init_rootfs before_boot = (Ok tt, fs) ∧
    mp_path <$> mounts fs = str <$> ["/dev"; "/tmp"; "/proc"; "/sys"]%string ∧
    Forall (λ '(path, contents), (api_read (str path) 100 fs).1 = Ok contents)
      [("/proc/sys/net/core/somaxconn"%string, str "4096" ++ [10]);
       ("/proc/sys/vm/overcommit_memory"%string, str "0" ++ [10]);
       ("/proc/self/stat"%string, []);
       ("/sys/kernel/mm/transparent_hugepage/enabled"%string, str "always [madvise] never" ++ [10]);
       ("/sys/devices/system/clocksource/clocksource0/current_clocksource"%string, str "tsc" ++ [10]);
       ("/dev/null"%string, []); ("//proc/./self/../self//stat"%string, [])] ∧
    (api_write (str "/tmp/a") [1; 2] fs).1 = Ok tt.
Proof.
  exists booted. split; [apply booted_ok|]. split; [vm_compute; reflexivity|].
  split; [|vm_compute; reflexivity]. repeat (apply Forall_cons; split; [vm_compute; reflexivity|]). constructor.
Qed.

(** A path whose first component only begins with the name of a mount point is
    taken for a path below it: a file written to [/tmpx] is the file [x] of the file
    system mounted at [/tmp]. *)
Theorem mount_prefix_confused :
  ∃ fs fs', init_rootfs before_boot = (Ok tt, fs) ∧ api_write (str "/tmpx") [7] fs = (Ok tt, fs') ∧
    (api_read (str "/tmp/x") 100 fs').1 = Ok [7].
Proof.
  exists booted, (api_write (str "/tmpx") [7] booted).2. split; [apply booted_ok|].
  split; vm_compute; reflexivity.
Qed.

Definition example_root : AxFs := {|
  store := example_fs; main_fs := 1; mounts := []; fs_parents := ∅; CURRENT_DIR := VRoot;
  CURRENT_DIR_PATH := [SLASH];
|}.

Lemma api_write_read_witness :
  ∃ fs', api_write [97] [1; 2; 3] example_root = (Ok tt, fs') ∧ api_read [97] 4 fs' = (Ok [1; 2; 3], fs').
Proof.
  destruct (api_write [97] [1; 2; 3] example_root) as [r fs'] eqn:Hw. exists fs'.
  assert (r = Ok tt) as -> by (apply (f_equal fst) in Hw; vm_compute in Hw; by symmetry).
  split; [reflexivity|].
  apply (api_write_read example_root example_held [97] [1; 2; 3] fs' 4); [|done| |done|cbn; lia|exact Hw].
  - split; [exact example_fs_wf|vm_compute; discriminate|intros n Hn; inversion Hn|intros n Hc; discriminate Hc].
  - intros n i Hn. vm_compute in Hn. discriminate.
Defined.
End boot.
