(* ===== verification/NetStack.v ===== *)
(** * The network stack and the listen table ([modules/axnet/src/smoltcp_impl])

    Addresses, the set of sockets, the table of listening ports and the hook that creates a
    socket for every first packet of a connection.  The TCP/IP stack itself, [smoltcp], is a
    third-party crate: the classes [SmolSockets] and [SmolNet] are the operations the sources
    call, [SmolSpec] what its documentation says of them. *)

From Stdlib Require Import ZArith Lia.
From stdpp Require Import base decidable numbers gmap list.
From S2P Require Import Prelude LinkedList Vfs.

Local Open Scope Z_scope.

(** ** Addresses ([addr.rs]) *)

Abbreviation Octets := (Z * Z * Z * Z)%type.

(** [core::net::IpAddr] and [SocketAddr]. *)
Inductive IpAddr : Set := IpV4 (o : Octets) | IpV6 (segments : list Z).
Record SocketAddr : Set := { sa_ip : IpAddr; sa_port : Z }.

(** [smoltcp::wire]: the stack is built for IPv4 alone. *)
Inductive IpAddress : Set := Ipv4 (o : Octets).
#[export] Instance IpAddress_eq_dec : EqDecision IpAddress.
Proof. solve_decision. Defined.
Record IpEndpoint : Set := { ep_addr : IpAddress; ep_port : Z }.
#[export] Instance IpEndpoint_eq_dec : EqDecision IpEndpoint.
Proof. solve_decision. Defined.
Record IpListenEndpoint : Set := { le_addr : option IpAddress; le_port : Z }.

Definition from_core_ipaddr {S E} (ip : IpAddr) : M S E IpAddress :=
  match ip with IpV4 o => mret (Ipv4 o) | IpV6 _ => panic end.
Definition into_core_ipaddr (ip : IpAddress) : IpAddr := match ip with Ipv4 o => IpV4 o end.
Definition from_core_sockaddr {S E} (a : SocketAddr) : M S E IpEndpoint :=
  ip ← from_core_ipaddr (sa_ip a); mret {| ep_addr := ip; ep_port := sa_port a |}.
Definition into_core_sockaddr (e : IpEndpoint) : SocketAddr :=
  {| sa_ip := into_core_ipaddr (ep_addr e); sa_port := ep_port e |}.
Definition is_unspecified (ip : IpAddress) : bool := bool_decide (ip = Ipv4 (0, 0, 0, 0)).
Definition UNSPECIFIED_IP : IpAddress := Ipv4 (0, 0, 0, 0).
Definition UNSPECIFIED_ENDPOINT : IpEndpoint := {| ep_addr := UNSPECIFIED_IP; ep_port := 0 |}.

(** ** The third-party stack *)

(** [smoltcp::socket::tcp::State]. *)
Inductive TcpState : Set :=
| Closed | Listen | SynSent | SynReceived | Established
| FinWait1 | FinWait2 | CloseWait | Closing | LastAck | TimeWait.
#[export] Instance TcpState_eq_dec : EqDecision TcpState.
Proof. solve_decision. Defined.
Inductive ConnectError : Set := ConnectInvalidState | ConnectUnaddressable.
Inductive BindError : Set := BindInvalidState | BindUnaddressable.
Inductive SendError : Set := SendBufferFull | SendUnaddressable.

(** Its TCP and UDP sockets.  An operation on [&mut self] returns the socket after it. *)
Class SmolSockets : Type := {
  TcpSock : Type;
  tcp_new : TcpSock;
  tcp_state : TcpSock → TcpState;
  tcp_local_endpoint : TcpSock → option IpEndpoint;
  tcp_remote_endpoint : TcpSock → option IpEndpoint;
  tcp_connect : IpEndpoint → IpListenEndpoint → TcpSock → TcpSock * option ConnectError;
  tcp_listen : IpListenEndpoint → TcpSock → TcpSock * bool;
  tcp_close : TcpSock → TcpSock;
  tcp_is_active : TcpSock → bool;
  tcp_may_recv : TcpSock → bool;
  tcp_may_send : TcpSock → bool;
  tcp_can_recv : TcpSock → bool;
  tcp_can_send : TcpSock → bool;
  tcp_recv_queue : TcpSock → Z;
  tcp_recv_slice : Z → TcpSock → TcpSock * option (list Z);
  tcp_send_slice : list Z → TcpSock → TcpSock * option Z;
  UdpSock : Type;
  udp_new : UdpSock;
  udp_bind : IpListenEndpoint → UdpSock → UdpSock * option BindError;
  udp_close : UdpSock → UdpSock;
  udp_can_send : UdpSock → bool;
  udp_can_recv : UdpSock → bool;
  udp_send_slice : list Z → IpEndpoint → UdpSock → UdpSock * option SendError;
  udp_recv_slice : Z → UdpSock → UdpSock * option (list Z * IpEndpoint);
  udp_peek_slice : Z → UdpSock → option (list Z * IpEndpoint);
}.

Inductive AnySocket `{SmolSockets} : Type := TcpS (c : TcpSock) | UdpS (u : UdpSock).

(** What [smoltcp] parses of a frame. *)
Record Ipv4Packet : Set := { ip_next_header : Z; ip_src : Octets; ip_dst : Octets; ip_payload : list Z }.
Record TcpPacket : Set := { tp_src_port : Z; tp_dst_port : Z; tp_syn : bool; tp_ack : bool }.

(** Its socket set, its parsers, and the events of one [Interface::poll]: the frames it
    receives, and the changes it makes to the sockets as it handles and sends packets. *)
Class SmolNet `{SmolSockets} : Type := {
  SocketHandle : Type;
  handle_eq_dec :: EqDecision SocketHandle;
  SocketSet : Type;
  ss_new : SocketSet;
  ss_add : AnySocket → SocketSet → SocketHandle * SocketSet;
  ss_get : SocketHandle → SocketSet → option AnySocket;
  ss_set : SocketHandle → AnySocket → SocketSet → SocketSet;
  ss_remove : SocketHandle → SocketSet → option SocketSet;
  ether_payload : list Z → option (list Z);
  ipv4_packet : list Z → option Ipv4Packet;
  tcp_packet : list Z → option TcpPacket;
  World : Type;
  NetEvent : Type;
  ev_view : NetEvent → list Z + (SocketHandle * (TcpSock → TcpSock) * (UdpSock → UdpSock));
  poll_events : World → list NetEvent * World;
}.

(** The documented behaviour: a set returns the sockets that were added and not removed,
    under handles that are not in use; a socket that is connected has both endpoints. *)
Class SmolSpec `{N : SmolNet} : Prop := {
  ss_get_new h : ss_get h ss_new = None;
  ss_add_fresh x s : ss_get (ss_add x s).1 s = None;
  ss_add_get x s : ss_get (ss_add x s).1 (ss_add x s).2 = Some x;
  ss_add_other x s h : h ≠ (ss_add x s).1 → ss_get h (ss_add x s).2 = ss_get h s;
  ss_set_get h x s : is_Some (ss_get h s) → ss_get h (ss_set h x s) = Some x;
  ss_set_other h h' x s : h' ≠ h → ss_get h' (ss_set h x s) = ss_get h' s;
  ss_remove_some h s : is_Some (ss_get h s) → is_Some (ss_remove h s);
  ss_remove_get h s s' : ss_remove h s = Some s' → ss_get h s' = None;
  ss_remove_other h h' s s' : ss_remove h s = Some s' → h' ≠ h → ss_get h' s' = ss_get h' s;
  tcp_connect_state r l c : (tcp_connect r l c).2 = None → tcp_state (tcp_connect r l c).1 = SynSent;
  tcp_endpoints c : tcp_state c ≠ Closed → tcp_state c ≠ Listen →
    is_Some (tcp_local_endpoint c) ∧ is_Some (tcp_remote_endpoint c);
}.

(** ** The state of the module *)

Definition LISTEN_QUEUE_SIZE : Z := 512.

Section net.
Context `{SK : SmolSockets} `{N : !SmolNet}.

Record ListenTableEntry : Type := { listen_endpoint : IpListenEndpoint; syn_queue : list SocketHandle }.
Definition entry_new (e : IpListenEndpoint) : ListenTableEntry := {| listen_endpoint := e; syn_queue := [] |}.
Definition entry_can_accept (dst : IpAddress) (e : ListenTableEntry) : bool :=
  match le_addr (listen_endpoint e) with Some addr => bool_decide (addr = dst) | None => true end.

(** The statics: [SOCKET_SET], [LISTEN_TABLE] (a port without a listener has no entry), the
    next ephemeral port for TCP and for UDP, and the interface [ETH0]. *)
Record Net : Type := {
  sockets : SocketSet; tcp_table : gmap Z ListenTableEntry; tcp_curr : Z; udp_curr : Z; eth0 : World }.
Definition set_sockets (s : SocketSet) (n : Net) : Net :=
  {| sockets := s; tcp_table := tcp_table n; tcp_curr := tcp_curr n; udp_curr := udp_curr n; eth0 := eth0 n |}.
Definition set_table (t : gmap Z ListenTableEntry) (n : Net) : Net :=
  {| sockets := sockets n; tcp_table := t; tcp_curr := tcp_curr n; udp_curr := udp_curr n; eth0 := eth0 n |}.
Definition set_tcp_curr (c : Z) (n : Net) : Net :=
  {| sockets := sockets n; tcp_table := tcp_table n; tcp_curr := c; udp_curr := udp_curr n; eth0 := eth0 n |}.
Definition set_udp_curr (c : Z) (n : Net) : Net :=
  {| sockets := sockets n; tcp_table := tcp_table n; tcp_curr := tcp_curr n; udp_curr := c; eth0 := eth0 n |}.
Definition set_eth0 (w : World) (n : Net) : Net :=
  {| sockets := sockets n; tcp_table := tcp_table n; tcp_curr := tcp_curr n; udp_curr := udp_curr n; eth0 := w |}.
Local Abbreviation NM := (M Net AxError).

Definition PORT_START : Z := 0xc000.
Definition PORT_END : Z := 0xffff.
Definition net_init (w : World) : Net :=
  {| sockets := ss_new; tcp_table := ∅; tcp_curr := PORT_START; udp_curr := PORT_START; eth0 := w |}.

(** ** [SocketSetWrapper] ([mod.rs]) *)

Definition set_add (x : AnySocket) : NM SocketHandle := λ n,
  let '(h, s) := ss_add x (sockets n) in (Ok h, set_sockets s n).
(** [with_socket::<tcp::Socket>] and [with_socket_mut]: a wrong handle or type panics. *)
Definition with_tcp (h : SocketHandle) : NM TcpSock := λ n,
  match ss_get h (sockets n) with Some (TcpS c) => (Ok c, n) | _ => (Panic, n) end.
Definition with_tcp_mut {A} (h : SocketHandle) (f : TcpSock → TcpSock * A) : NM A :=
  c ← with_tcp h;
  let '(c', a) := f c in
  _ ← modify (λ n, set_sockets (ss_set h (TcpS c') (sockets n)) n); mret a.
Definition with_udp (h : SocketHandle) : NM UdpSock := λ n,
  match ss_get h (sockets n) with Some (UdpS u) => (Ok u, n) | _ => (Panic, n) end.
Definition with_udp_mut {A} (h : SocketHandle) (f : UdpSock → UdpSock * A) : NM A :=
  u ← with_udp h;
  let '(u', a) := f u in
  _ ← modify (λ n, set_sockets (ss_set h (UdpS u') (sockets n)) n); mret a.
Definition set_remove (h : SocketHandle) : NM unit := λ n,
  match ss_remove h (sockets n) with Some s => (Ok tt, set_sockets s n) | None => (Panic, n) end.

(** ** [ListenTable] ([listen_table.rs]) *)

Definition can_listen (port : Z) : NM bool := gets (λ n, bool_decide (tcp_table n !! port = None)).
Definition table_listen (e : IpListenEndpoint) : NM unit :=
  let port := le_port e in
  _ ← assert_ (negb (port =? 0));
  n ← get_state;
  match tcp_table n !! port with
  | None => modify (λ n, set_table (<[port := entry_new e]> (tcp_table n)) n)
  | Some _ => throw AddrInUse
  end.
(** [ListenTableEntry::drop]. *)
Fixpoint entry_drop (q : list SocketHandle) : NM unit :=
  match q with [] => mret tt | h :: q => _ ← set_remove h; entry_drop q end.
Definition unlisten (port : Z) : NM unit :=
  n ← get_state;
  _ ← modify (λ n, set_table (delete port (tcp_table n)) n);
  match tcp_table n !! port with Some e => entry_drop (syn_queue e) | None => mret tt end.

Definition is_connected (h : SocketHandle) : NM bool :=
  c ← with_tcp h;
  mret (match tcp_state c with Listen | SynReceived => false | _ => true end).
Definition get_addr_tuple (h : SocketHandle) : NM (IpEndpoint * IpEndpoint) :=
  c ← with_tcp h;
  l ← unwrap (tcp_local_endpoint c);
  r ← unwrap (tcp_remote_endpoint c);
  mret (l, r).

Fixpoint any_connected (q : list SocketHandle) : NM bool :=
  match q with
  | [] => mret false
  | h :: q => b ← is_connected h; if b : bool then mret true else any_connected q
  end.
Definition table_can_accept (port : Z) : NM bool :=
  n ← get_state;
  match tcp_table n !! port with Some e => any_connected (syn_queue e) | None => throw InvalidInput end.

(** [enumerate().find_map(..)]. *)
Fixpoint find_connected (idx : nat) (q : list SocketHandle) : NM (option (nat * (IpEndpoint * IpEndpoint))) :=
  match q with
  | [] => mret None
  | h :: q =>
      b ← is_connected h;
      if b : bool then a ← get_addr_tuple h; mret (Some (idx, a)) else find_connected (S idx) q
  end.
(** [VecDeque::swap_remove_front]: the element goes, the front takes its place. *)
Definition swap_remove_front {A} (idx : nat) (q : list A) : option (A * list A) :=
  match q !! idx, q with Some x, y :: _ => Some (x, tail (<[idx := y]> q)) | _, _ => None end.
Definition table_accept (port : Z) : NM (SocketHandle * (IpEndpoint * IpEndpoint)) :=
  n ← get_state;
  match tcp_table n !! port with
  | Some e =>
      r ← find_connected 0 (syn_queue e);
      match r with
      | None => throw WouldBlock
      | Some (idx, addr_tuple) =>
          hq ← unwrap (swap_remove_front idx (syn_queue e));
          _ ← modify (λ n, set_table (<[port := {| listen_endpoint := listen_endpoint e; syn_queue := hq.2 |}]>
                 (tcp_table n)) n);
          mret (hq.1, addr_tuple)
      end
  | None => throw InvalidInput
  end.

Definition incoming_tcp_packet (dst : IpEndpoint) (n : Net) : Net :=
  match tcp_table n !! ep_port dst with
  | Some e =>
      if negb (entry_can_accept (ep_addr dst) e) then n
      else if LISTEN_QUEUE_SIZE <=? Z.of_nat (length (syn_queue e)) then n
      else
        let '(c, ok) := tcp_listen (listen_endpoint e) tcp_new in
        if ok : bool then
          let '(h, s) := ss_add (TcpS c) (sockets n) in
          set_table (<[ep_port dst := {| listen_endpoint := listen_endpoint e;
                                         syn_queue := syn_queue e ++ [h] |}]> (tcp_table n)) (set_sockets s n)
        else n
  | None => n
  end.

(** ** Polling ([mod.rs]) *)

Definition IP_PROTOCOL_TCP : Z := 6.
Definition snoop_tcp_packet (buf : list Z) (n : Net) : Net :=
  match ether_payload buf ≫= ipv4_packet with
  | Some ip =>
      if ip_next_header ip =? IP_PROTOCOL_TCP then
        match tcp_packet (ip_payload ip) with
        | Some t =>
            let is_first := (tp_syn t && negb (tp_ack t))%bool in
            if is_first then incoming_tcp_packet {| ep_addr := Ipv4 (ip_dst ip); ep_port := tp_dst_port t |} n
            else n
        | None => n
        end
      else n
  | None => n
  end.
Definition progress (h : SocketHandle) (f : TcpSock → TcpSock) (g : UdpSock → UdpSock) (n : Net) : Net :=
  match ss_get h (sockets n) with
  | Some (TcpS c) => set_sockets (ss_set h (TcpS (f c)) (sockets n)) n
  | Some (UdpS u) => set_sockets (ss_set h (UdpS (g u)) (sockets n)) n
  | None => n
  end.
(** A received frame goes through the hook [RxToken::preprocess]. *)
Definition net_event (e : NetEvent) (n : Net) : Net :=
  match ev_view e with
  | inl frame => snoop_tcp_packet frame n
  | inr (h, f, g) => progress h f g n
  end.
Definition poll_interfaces : NM unit := λ n,
  let '(evs, w) := poll_events (eth0 n) in
  (Ok tt, foldl (λ n e, net_event e n) (set_eth0 w n) evs).

(** ** Ephemeral ports *)

(** [tcp.rs]: the turns left bound the loop. *)
Fixpoint ephemeral_loop (fuel : nat) (tries : Z) : NM Z :=
  match fuel with
  | O => out_of_fuel
  | S fuel =>
      if tries <=? PORT_END - PORT_START then
        port ← gets tcp_curr;
        _ ← modify (set_tcp_curr (if port =? PORT_END then PORT_START else port + 1));
        b ← can_listen port;
        if b : bool then mret port else ephemeral_loop fuel (tries + 1)
      else throw AddrInUse
  end.
Definition get_ephemeral_port : NM Z := ephemeral_loop (Z.to_nat (PORT_END - PORT_START + 2)) 0.
(** [udp.rs]: no table to look at. *)
Definition udp_ephemeral_port : NM Z :=
  port ← gets udp_curr;
  _ ← modify (set_udp_curr (if port =? PORT_END then PORT_START else port + 1));
  mret port.
End net.
Arguments ListenTableEntry {SK N}.
Arguments Net {SK N}.
