(* ===== verification/NetLocks.v ===== *)
(** * The locks of the network stack

    The mutexes the functions of [modules/axnet/src/smoltcp_impl] take, in the order of the
    source, and tasks that run them in any interleaving: which calls can wait for each other
    for ever and which cannot. *)

From Stdlib Require Import ZArith Lia.
From stdpp Require Import base decidable numbers gmap list.
From S2P Require Import Prelude.

Local Open Scope Z_scope.

(** The device and the interface of [ETH0], [SOCKET_SET], the counter [CURR] of the ephemeral
    ports, and one lock per port of [LISTEN_TABLE]. *)
Inductive NetLock : Set := LDev | LIface | LSockets | LCurr | LTable (port : Z).
#[export] Instance NetLock_eq_dec : EqDecision NetLock.
Proof. solve_decision. Defined.
Inductive LockOp : Set := Acq (l : NetLock) | Rel (l : NetLock).

Definition locked (l : NetLock) (body : list LockOp) : list LockOp := Acq l :: body ++ [Rel l].
Definition times (k : nat) (p : list LockOp) : list LockOp := mjoin (replicate k p).

(** ** The functions *)

(** [SocketSetWrapper::add], [with_socket], [with_socket_mut] and [remove]. *)
Definition socket_set_locks : list LockOp := locked LSockets [].
(** [InterfaceWrapper::poll]; [ports] are those of the first packets it gets, which
    [incoming_tcp_packet] looks up. *)
Definition poll_locks (ports : list Z) : list LockOp :=
  locked LDev (locked LIface (locked LSockets (ports ≫= λ p, locked (LTable p) []))).
Definition can_listen_locks (p : Z) : list LockOp := locked (LTable p) [].
Definition table_listen_locks (p : Z) : list LockOp := locked (LTable p) [].
(** [unlisten]: the entry is dropped, with its [k] queued sockets, under the lock. *)
Definition unlisten_locks (p : Z) (k : nat) : list LockOp := locked (LTable p) (times k socket_set_locks).
(** [can_accept] and [accept] look at [k] sockets. *)
Definition accept_locks (p : Z) (k : nat) : list LockOp := locked (LTable p) (times k socket_set_locks).
Definition ephemeral_locks (ports : list Z) : list LockOp := locked LCurr (ports ≫= can_listen_locks).

(** A port that is given needs no search. *)
Definition port_locks (tried : option (list Z)) : list LockOp := from_option ephemeral_locks [] tried.

(** [tcp.rs].  [polls] gives the ports each [poll_interfaces] sees; a non-blocking socket calls the function once,
    without polling. *)
Definition block_on_locks (nonblock : bool) (polls : list (list Z)) (f : list LockOp) : list LockOp :=
  if nonblock then f else polls ≫= λ ports, poll_locks ports ++ f.
(** [connect] adds a socket to the set when there is none yet; a non-blocking one does not wait. *)
Definition connect_locks (new nonblock : bool) (tried : option (list Z)) (polls : list (list Z)) : list LockOp :=
  (if new then socket_set_locks else []) ++ port_locks tried ++ locked LSockets (locked LIface []) ++
  (if nonblock then [] else block_on_locks false polls socket_set_locks).
Definition bind_locks (tried : option (list Z)) : list LockOp := port_locks tried.
Definition listen_locks (tried : option (list Z)) (p : Z) : list LockOp := port_locks tried ++ table_listen_locks p.
Definition tcp_accept_locks (nonblock : bool) (polls : list (list Z)) (p : Z) (k : nat) : list LockOp :=
  block_on_locks nonblock polls (accept_locks p k).
(** [send] and [recv]. *)
Definition stream_locks (nonblock : bool) (polls : list (list Z)) : list LockOp := block_on_locks nonblock polls socket_set_locks.
(** [TcpSocket::poll] of a socket that is closed, connecting or connected, or that listens on a port with [k] queued sockets. *)
Inductive PollOf : Set := PollClosed | PollConnection | PollListener (p : Z) (k : nat).
Definition tcp_poll_locks (s : PollOf) : list LockOp :=
  match s with PollClosed => [] | PollConnection => socket_set_locks | PollListener p k => accept_locks p k end.
Definition shutdown_stream_locks (ports : list Z) : list LockOp := socket_set_locks ++ poll_locks ports.
Definition shutdown_listener_locks (p : Z) (k : nat) (ports : list Z) : list LockOp := unlisten_locks p k ++ poll_locks ports.
(** [Drop]: [shutdown], if there is something to shut down, and the socket is removed from the set, if it has one. *)
Definition drop_locks (shutdown : list LockOp) (handle : bool) : list LockOp := shutdown ++ (if handle then socket_set_locks else []).

(** ** Tasks *)

Record LockTask : Set := { lt_held : list NetLock; lt_todo : list LockOp }.
Definition held_by (l : NetLock) (ts : list LockTask) : bool := existsb (λ t, bool_decide (l ∈ lt_held t)) ts.
Fixpoint forget (l : NetLock) (h : list NetLock) : list NetLock :=
  match h with [] => [] | x :: h => if decide (x = l) then h else x :: forget l h end.
(** The next step of task [i]; [None] when it is done or waits for a lock. *)
Definition lock_step (i : nat) (ts : list LockTask) : option (list LockTask) :=
  t ← ts !! i;
  match lt_todo t with
  | [] => None
  | Acq l :: r => if held_by l ts then None else Some (<[i := {| lt_held := l :: lt_held t; lt_todo := r |}]> ts)
  | Rel l :: r => Some (<[i := {| lt_held := forget l (lt_held t); lt_todo := r |}]> ts)
  end.
Definition lock_init (ps : list (list LockOp)) : list LockTask := (λ p, {| lt_held := []; lt_todo := p |}) <$> ps.
Inductive lock_reach (ps : list (list LockOp)) : list LockTask → Prop :=
| lr_init : lock_reach ps (lock_init ps)
| lr_step ts i ts' : lock_reach ps ts → lock_step i ts = Some ts' → lock_reach ps ts'.
Definition finished (ts : list LockTask) : Prop := Forall (λ t, lt_todo t = []) ts.
Definition stuck (ts : list LockTask) : Prop := ∀ i, lock_step i ts = None.

(** ** Programs that take their locks in order *)

Definition rank (l : NetLock) : nat :=
  match l with LDev => 0 | LIface => 1 | LSockets => 2 | LCurr => 2 | LTable _ => 3 end.
Fixpoint ordered (held : list NetLock) (p : list LockOp) : Prop :=
  match p with
  | [] => held = []
  | Acq l :: p => Forall (λ h, rank h < rank l)%nat held ∧ ordered (l :: held) p
  | Rel l :: p => l ∈ held ∧ ordered (forget l held) p
  end.

(** A part of a program that ends with the locks it began with. *)
Fixpoint nested (held : list NetLock) (p : list LockOp) (held' : list NetLock) : Prop :=
  match p with
  | [] => held' = held
  | Acq l :: p => Forall (λ h, rank h < rank l)%nat held ∧ nested (l :: held) p held'
  | Rel l :: p => l ∈ held ∧ nested (forget l held) p held'
  end.
Lemma nested_app p : ∀ h h' h'' q, nested h p h' → nested h' q h'' → nested h (p ++ q) h''.
Proof.
  induction p as [|[l|l] p IH]; intros h h' h'' q; cbn; [by intros ->|..].
  - intros [Hf Hp] Hq. split; [done|]. by eapply IH.
  - intros [Hf Hp] Hq. split; [done|]. by eapply IH.
Qed.
Lemma nested_ordered p : ∀ h, nested h p [] ↔ ordered h p.
Proof. induction p as [|[l|l] p IH]; intros h; cbn; [done|by rewrite IH..]. Qed.
Lemma nested_locked l h p :
  Forall (λ x, rank x < rank l)%nat h → nested (l :: h) p (l :: h) → nested h (locked l p) h.
Proof.
  intros Hf Hp. cbn. split; [done|]. eapply nested_app; [done|]. cbn. split; [left|]. by rewrite decide_True.
Qed.
Lemma nested_bind {A} (f : A → list LockOp) h xs : (∀ x, nested h (f x) h) → nested h (xs ≫= f) h.
Proof. intros Hf. induction xs as [|x xs IH]; [done|]. by eapply nested_app. Qed.
#[local] Hint Resolve nested_app nested_locked nested_bind : core.

(** ** No deadlock in order *)

Definition task_ok (t : LockTask) : Prop := ordered (lt_held t) (lt_todo t).
Lemma lock_reach_ok ps ts : Forall (ordered []) ps → lock_reach ps ts → Forall task_ok ts.
Proof.
  intros Hps. induction 1 as [|ts i ts' _ IH E].
  - unfold lock_init. apply Forall_fmap. done.
  - revert E. unfold lock_step. destruct (ts !! i) as [t|] eqn:Et; [|done]. cbn.
    pose proof (Forall_lookup_1 _ _ _ _ IH Et) as Ht. unfold task_ok in Ht.
    destruct (lt_todo t) as [|[l|l] r] eqn:Er; [done|..]; cbn in Ht; destruct Ht as [Hl Hr].
    + destruct (held_by l ts); [done|]. intros [= <-]. by apply Forall_insert.
    + intros [= <-]. by apply Forall_insert.
Qed.

(** A task that waits for a lock leads, by the ranks, to one that can go on. *)
Lemma waiting_progress ts n : ∀ i t l r,
  Forall task_ok ts → ts !! i = Some t → lt_todo t = Acq l :: r → (3 - rank l < n)%nat → ∃ j, is_Some (lock_step j ts).
Proof.
  induction n as [|n IH]; intros i t l r Hok Hi Ht Hn; [lia|].
  destruct (held_by l ts) eqn:Eh.
  - apply existsb_exists in Eh as (t'&Hin&Hl). apply bool_decide_eq_true in Hl.
    apply list_elem_of_In, list_elem_of_lookup in Hin as [j Hj].
    pose proof (Forall_lookup_1 _ _ _ _ Hok Hj) as Hok'. unfold task_ok in Hok'.
    destruct (lt_todo t') as [|[l'|l'] r'] eqn:Er; cbn in Hok'.
    + rewrite Hok' in Hl. by apply elem_of_nil in Hl.
    + destruct Hok' as [Hf _]. rewrite Forall_forall in Hf. specialize (Hf _ Hl).
      eapply IH; [done|exact Hj|exact Er|]. destruct l'; cbn in *; lia.
    + exists j. unfold lock_step. rewrite Hj. cbn. rewrite Er. by eexists.
  - exists i. unfold lock_step. rewrite Hi. cbn. rewrite Ht, Eh. by eexists.
Qed.
Lemma ordered_progress ps ts :
  Forall (ordered []) ps → lock_reach ps ts → finished ts ∨ ∃ j, is_Some (lock_step j ts).
Proof.
  intros Hps Hr. pose proof (lock_reach_ok _ _ Hps Hr) as Hok.
  destruct (decide (Forall (λ t, lt_todo t = []) ts)) as [|Hn]; [by left|]. right.
  apply not_Forall_Exists in Hn; [|intros; apply _]. apply Exists_exists in Hn as (t&Hin&Ht).
  apply list_elem_of_lookup in Hin as [i Hi]. destruct (lt_todo t) as [|[l|l] r] eqn:Er; [done|..].
  - eapply (waiting_progress ts 4); try done. lia.
  - exists i. unfold lock_step. rewrite Hi. cbn. rewrite Er. by eexists.
Qed.

(** ** The calls *)

Lemma socket_set_nested h : Forall (λ x, rank x < 2)%nat h → nested h socket_set_locks h.
Proof. intros. by apply nested_locked. Qed.
Lemma poll_nested ports : nested [] (poll_locks ports) [].
Proof.
  apply nested_locked; [done|]. apply nested_locked; [by repeat constructor; cbn; lia|].
  apply nested_locked; [repeat constructor; cbn; lia|]. apply nested_bind. intros p.
  apply nested_locked; [repeat constructor; cbn; lia|done].
Qed.
Lemma ephemeral_nested ports : nested [] (ephemeral_locks ports) [].
Proof.
  apply nested_locked; [done|]. apply nested_bind. intros p. apply nested_locked; [repeat constructor; cbn; lia|done].
Qed.
Lemma port_nested tried : nested [] (port_locks tried) [].
Proof. destruct tried; [apply ephemeral_nested|done]. Qed.
Lemma block_on_nested nonblock polls f : nested [] f [] → nested [] (block_on_locks nonblock polls f) [].
Proof. intros Hf. destruct nonblock; [done|]. apply nested_bind. intros ports. eapply nested_app; [apply poll_nested|done]. Qed.
Lemma shutdown_nested ports : nested [] (shutdown_stream_locks ports) [].
Proof. eapply nested_app; [by apply socket_set_nested|apply poll_nested]. Qed.

(** The calls that keep the order: [poll_interfaces], [bind] and [listen]; [send], [recv], [poll], [shutdown] and drop of
    a socket that does not listen. *)
Inductive OrderedCall : list LockOp → Prop :=
| oc_poll_interfaces ports : OrderedCall (poll_locks ports)
| oc_bind tried : OrderedCall (bind_locks tried)
| oc_listen tried p : OrderedCall (listen_locks tried p)
| oc_stream nonblock polls : OrderedCall (stream_locks nonblock polls)
| oc_poll_closed : OrderedCall (tcp_poll_locks PollClosed)
| oc_poll : OrderedCall (tcp_poll_locks PollConnection)
| oc_shutdown ports : OrderedCall (shutdown_stream_locks ports)
| oc_drop_closed handle : OrderedCall (drop_locks [] handle)
| oc_drop ports handle : OrderedCall (drop_locks (shutdown_stream_locks ports) handle).
Lemma ordered_call p : OrderedCall p → nested [] p [].
Proof.
  destruct 1 as [ports|tried|tried p|nonblock polls| | |ports|handle|ports handle].
  - apply poll_nested.
  - apply port_nested.
  - eapply nested_app; [apply port_nested|]. by apply nested_locked.
  - apply block_on_nested. by apply socket_set_nested.
  - done.
  - by apply socket_set_nested.
  - apply shutdown_nested.
  - destruct handle; [by apply socket_set_nested|done].
  - eapply nested_app; [apply shutdown_nested|]. destruct handle; [by apply socket_set_nested|done].
Qed.

(** C31: Tasks that send and receive, in blocking and non-blocking mode, poll, shut down and drop connections, poll the
    interfaces, bind and listen, each any number of times, never wait for each other's locks for ever: as long as one
    is not done, one can go on.  The other calls are not among these, because each of them can deadlock with a task that
    polls the interfaces: [accept], and [poll], [shutdown] and drop of a socket that listens ([accept_poll_deadlock]),
    and [connect] ([connect_poll_deadlock]). *)
Theorem stream_calls_no_deadlock (calls : list (list (list LockOp))) ts :
  Forall (Forall OrderedCall) calls → lock_reach (@concat LockOp <$> calls) ts →
  finished ts ∨ ∃ j, is_Some (lock_step j ts).
Proof.
  intros Hc. apply ordered_progress. apply Forall_fmap. eapply Forall_impl; [exact Hc|]. intros cs Hcs. cbn.
  apply nested_ordered. induction Hcs as [|p cs Hp _ IH]; [done|]. cbn. eapply nested_app; [by apply ordered_call|done].
Qed.

Lemma stream_calls_no_deadlock_witness :
  ∃ ts, lock_reach (@concat LockOp <$> [[tcp_poll_locks PollConnection; stream_locks false [[80]]]; [listen_locks None 80; stream_locks true []]]) ts ∧
    (finished ts ∨ ∃ j, is_Some (lock_step j ts)).
Proof.
  eexists. split; [apply lr_init|].
  apply (stream_calls_no_deadlock [[tcp_poll_locks PollConnection; stream_locks false [[80]]]; [listen_locks None 80; stream_locks true []]]); [|apply lr_init].
  repeat constructor.
Defined.

(** ** Deadlocks *)

Fixpoint lock_run (is_ : list nat) (ts : list LockTask) : option (list LockTask) :=
  match is_ with [] => Some ts | i :: is_ => lock_step i ts ≫= lock_run is_ end.
Lemma lock_run_reach ps is_ : ∀ ts ts', lock_reach ps ts → lock_run is_ ts = Some ts' → lock_reach ps ts'.
Proof.
  induction is_ as [|i is_ IH]; intros ts ts' Hr; cbn; [by intros [= <-]|].
  destruct (lock_step i ts) as [ts1|] eqn:E; [|done]. cbn. apply IH. by eapply lr_step.
Qed.
Lemma stuck_two t0 t1 : lock_step 0 [t0; t1] = None → lock_step 1 [t0; t1] = None → stuck [t0; t1].
Proof. intros H0 H1 [|[|i]]; done. Qed.

(** Accepting a connection, or polling a listening socket, and polling the interfaces take the lock of
    the port and that of the socket set in opposite orders, and so do closing a listening socket with queued connections and
    polling: when a first packet for the port comes in, each of the two tasks can end up
    waiting for the other for ever. *)
Theorem accept_poll_deadlock p k ports :
  ∃ ts ts', lock_reach [tcp_poll_locks (PollListener p (S k)); poll_locks (p :: ports)] ts ∧ stuck ts ∧ ¬ finished ts ∧
    lock_reach [unlisten_locks p (S k); poll_locks (p :: ports)] ts' ∧ stuck ts' ∧ ¬ finished ts'.
Proof.
  eexists _, _. split; [|split; [|split; [|split; [|split]]]].
  - eapply (lock_run_reach _ [0; 1; 1; 1]%nat); [apply lr_init|]. cbn. reflexivity.
  - apply stuck_two; cbn; repeat case_bool_decide; set_solver.
  - intros Hf. by apply Forall_cons in Hf as [[=] _].
  - eapply (lock_run_reach _ [0; 1; 1; 1]%nat); [apply lr_init|]. cbn. reflexivity.
  - apply stuck_two; cbn; repeat case_bool_decide; set_solver.
  - intros Hf. by apply Forall_cons in Hf as [[=] _].
Qed.

(** Connecting takes the lock of the interface while it holds that of the socket set, polling the
    other way round. *)
Theorem connect_poll_deadlock nonblock polls ports :
  ∃ ts, lock_reach [connect_locks true nonblock None polls; poll_locks ports] ts ∧ stuck ts ∧ ¬ finished ts.
Proof.
  eexists. split; [|split].
  - eapply (lock_run_reach _ [0; 0; 0; 1; 1]%nat); [apply lr_init|]. cbn. reflexivity.
  - apply stuck_two; cbn; repeat case_bool_decide; set_solver.
  - intros Hf. by apply Forall_cons in Hf as [[=] _].
Qed.
