(* ===== verification/NetProps.v ===== *)
(** * Properties of the network stack

    Who holds the handles of the socket set, that the functions of the listen table keep
    account of them, and the choice of ephemeral ports. *)

From Stdlib Require Import ZArith Lia.
From stdpp Require Import base decidable numbers gmap list.
From S2P Require Import Prelude LinkedList Vfs NetStack.

Local Open Scope Z_scope.

Lemma holds_perm_lookup {A} (l : list A) i x y q :
  l = y :: q → l !! i = Some x → x :: tail (<[i := y]> l) ≡ₚ l.
Proof.
  intros ->. destruct i as [|i]; [cbn; by intros [= ->]|]. intros Hi.
  change (x :: <[i := y]> q ≡ₚ y :: q). change (q !! i = Some x) in Hi.
  rewrite insert_take_drop by (by eapply lookup_lt_Some). rewrite <-(take_drop_middle q i x Hi) at 3.
  rewrite <-!Permutation_middle. apply Permutation_swap.
Qed.

Lemma swap_remove_front_some {A} (l : list A) i x q :
  swap_remove_front i l = Some (x, q) → l !! i = Some x ∧ l ≡ₚ x :: q.
Proof.
  unfold swap_remove_front. destruct (l !! i) as [z|] eqn:E; [|done]. destruct l as [|y l']; [done|].
  intros [= <- <-]. split; [done|]. symmetry. by eapply holds_perm_lookup.
Qed.

Section props.
Context `{SK : SmolSockets} `{N : !SmolNet} `{SP : !SmolSpec}.

(** ** The handles of the socket set *)

(** The set has exactly the sockets of [l], each once, all of them TCP sockets. *)
Definition holds (s : SocketSet) (l : list SocketHandle) : Prop :=
  NoDup l ∧ (∀ h, h ∈ l ↔ is_Some (ss_get h s)) ∧ (∀ h x, ss_get h s = Some x → ∃ c, x = TcpS c).
#[export] Instance holds_proper s : Proper ((≡ₚ) ==> iff) (holds s).
Proof. intros l l' Hl. unfold holds. setoid_rewrite Hl. done. Qed.

Lemma holds_new : holds ss_new [].
Proof.
  split; [constructor|]. split; intros h; rewrite ss_get_new; [|done]. split; [intros []%elem_of_nil|intros [? [=]]].
Qed.
Lemma holds_add s l c : holds s l → holds (ss_add (TcpS c) s).2 ((ss_add (TcpS c) s).1 :: l).
Proof.
  intros (Hn&Hi&Ht). set (h := (ss_add (TcpS c) s).1). split_and!.
  - constructor; [|done]. rewrite Hi. unfold h. rewrite ss_add_fresh. by intros [? [=]].
  - intros h'. rewrite elem_of_cons. destruct (decide (h' = h)) as [->|Hne].
    + unfold h. rewrite ss_add_get. naive_solver.
    + rewrite ss_add_other, Hi by done. naive_solver.
  - intros h' x. destruct (decide (h' = h)) as [->|Hne].
    + unfold h. rewrite ss_add_get. intros [= <-]. by eexists.
    + rewrite ss_add_other by done. apply Ht.
Qed.
Lemma holds_get s l h : holds s l → h ∈ l → ∃ c, ss_get h s = Some (TcpS c).
Proof. intros (_&Hi&Ht) [x Hx]%Hi. destruct (Ht _ _ Hx) as [c ->]. by exists c. Qed.
Lemma holds_set s l h c : holds s l → h ∈ l → holds (ss_set h (TcpS c) s) l.
Proof.
  intros (Hn&Hi&Ht) Hh. assert (is_Some (ss_get h s)) as Hs by by apply Hi. split_and!; [done|..]; intros h'.
  - destruct (decide (h' = h)) as [->|]; [rewrite ss_set_get by done; split; [by eexists|done]|by rewrite ss_set_other].
  - destruct (decide (h' = h)) as [->|]; [rewrite ss_set_get by done; intros ? [= <-]; by eexists|rewrite ss_set_other by done; apply Ht].
Qed.
Lemma holds_remove s l h : holds s (h :: l) → ∃ s', ss_remove h s = Some s' ∧ holds s' l.
Proof.
  intros (Hn&Hi&Ht). apply NoDup_cons in Hn as [Hh Hn].
  destruct (ss_remove_some h s) as [s' Hs']; [apply Hi; left|]. exists s'. split; [done|]. split_and!; [done|..].
  - intros h'. destruct (decide (h' = h)) as [->|Hne].
    + rewrite (ss_remove_get _ _ _ Hs'). split; [done|intros [? [=]]].
    + rewrite (ss_remove_other _ _ _ _ Hs') by done. rewrite <-Hi, elem_of_cons. naive_solver.
  - intros h' x. destruct (decide (h' = h)) as [->|Hne].
    + by rewrite (ss_remove_get _ _ _ Hs').
    + rewrite (ss_remove_other _ _ _ _ Hs') by done. apply Ht.
Qed.

(** ** The queues of the listen table *)

Definition queued (t : gmap Z ListenTableEntry) : list SocketHandle :=
  map_to_list t ≫= λ pe, syn_queue pe.2.
Lemma queued_fresh t p e : t !! p = None → queued (<[p := e]> t) ≡ₚ syn_queue e ++ queued t.
Proof. intros Hp. unfold queued. rewrite map_to_list_insert by done. done. Qed.
Lemma queued_delete t p e : t !! p = Some e → queued t ≡ₚ syn_queue e ++ queued (delete p t).
Proof.
  intros Hp. rewrite <-(insert_delete_id t p e Hp) at 1. by rewrite queued_fresh by apply lookup_delete_eq.
Qed.
Lemma queued_insert t p e : queued (<[p := e]> t) ≡ₚ syn_queue e ++ queued (delete p t).
Proof. rewrite <-insert_delete_eq. by rewrite queued_fresh by apply lookup_delete_eq. Qed.
Lemma queued_elem t p e h : t !! p = Some e → h ∈ syn_queue e → h ∈ queued t.
Proof. intros Hp Hh. rewrite (queued_delete _ _ _ Hp). set_solver. Qed.

(** ** The invariant of the module

    [H] gives the handle of each client socket that has one, [L] the port of each that
    listens; the handles of [lost] are in the set and nobody holds them. *)

Definition owned (n : Net) (H : gmap nat SocketHandle) (lost : list SocketHandle) : list SocketHandle :=
  (map_to_list H).*2 ++ queued (tcp_table n) ++ lost.
Definition entry_ok (p : Z) (e : ListenTableEntry) : Prop :=
  le_port (listen_endpoint e) = p ∧ p ≠ 0 ∧ Z.of_nat (length (syn_queue e)) ≤ LISTEN_QUEUE_SIZE.

Record NInv (n : Net) (H : gmap nat SocketHandle) (L : gmap nat Z) (lost : list SocketHandle) : Prop := {
  ni_holds : holds (sockets n) (owned n H lost);
  ni_entry p e : tcp_table n !! p = Some e → entry_ok p e;
  ni_listen p : is_Some (tcp_table n !! p) ↔ ∃ i, L !! i = Some p;
  ni_inj i j p : L !! i = Some p → L !! j = Some p → i = j;
  ni_curr : PORT_START ≤ tcp_curr n ≤ PORT_END;
}.

Lemma net_init_inv w : NInv (net_init w) ∅ ∅ [].
Proof.
  split; try done; cbn.
  - unfold owned, queued. rewrite map_to_list_empty. cbn. rewrite map_to_list_empty. apply holds_new.
  - intros p. split; [intros [? ?]; done|intros [? ?]; done].
Qed.

(** The state changes only in the sockets and the port counter. *)
Lemma NInv_sockets n s H L lost lost' :
  NInv n H L lost → holds s (owned n H lost') → NInv (set_sockets s n) H L lost'.
Proof. intros Hi Hs. destruct Hi. by split. Qed.
Lemma NInv_eth0 n w H L lost : NInv n H L lost → NInv (set_eth0 w n) H L lost.
Proof. intros Hi. destruct Hi. by split. Qed.
Lemma NInv_curr n c H L lost : PORT_START ≤ c ≤ PORT_END → NInv n H L lost → NInv (set_tcp_curr c n) H L lost.
Proof. intros Hc Hi. destruct Hi. by split. Qed.

Lemma owned_lost n H h lost : owned n H (h :: lost) ≡ₚ h :: owned n H lost.
Proof. unfold owned. by rewrite <-!Permutation_middle. Qed.
Lemma owned_elem_sock n H lost i h : H !! i = Some h → h ∈ owned n H lost.
Proof.
  intros Hi. unfold owned. apply elem_of_app. left. apply (list_elem_of_fmap_2 snd _ (i, h)).
  by apply elem_of_map_to_list.
Qed.
Lemma owned_elem_queue n H lost p e h : tcp_table n !! p = Some e → h ∈ syn_queue e → h ∈ owned n H lost.
Proof. intros. unfold owned. rewrite !elem_of_app. right; left. by eapply queued_elem. Qed.
Lemma owned_elem_lost n H lost h : h ∈ lost → h ∈ owned n H lost.
Proof. intros. unfold owned. rewrite !elem_of_app. auto. Qed.

(** A handle nobody holds goes to a socket that has none, and back. *)
Lemma owned_store n H i h lost : H !! i = None → owned n (<[i := h]> H) lost ≡ₚ owned n H (h :: lost).
Proof. intros Hi. rewrite owned_lost. unfold owned. by rewrite map_to_list_insert by done. Qed.
Lemma NInv_store n H L i h lost :
  H !! i = None → NInv n H L (h :: lost) ↔ NInv n (<[i := h]> H) L lost.
Proof.
  intros Hi. split; intros Hv; destruct Hv; (split; [|done..]).
  - by rewrite owned_store.
  - by rewrite <-(owned_store n H i h).
Qed.

(** ** The functions of the socket set *)

Lemma set_add_ok n H L lost c :
  NInv n H L lost → ∃ h n', set_add (TcpS c) n = (Ok h, n') ∧ NInv n' H L (h :: lost) ∧ tcp_table n' = tcp_table n.
Proof.
  intros Hv. unfold set_add. destruct (ss_add (TcpS c) (sockets n)) as [h s] eqn:E. eexists h, _.
  split; [done|]. split; [|done]. eapply NInv_sockets; [done|]. rewrite owned_lost.
  pose proof (holds_add _ _ c (ni_holds _ _ _ _ Hv)) as Ha. by rewrite E in Ha.
Qed.
Lemma with_tcp_ok n H L lost h :
  NInv n H L lost → h ∈ owned n H lost → ∃ c, with_tcp h n = (Ok c, n).
Proof.
  intros Hv Hh. destruct (holds_get _ _ _ (ni_holds _ _ _ _ Hv) Hh) as [c Hc].
  exists c. unfold with_tcp. by rewrite Hc.
Qed.
Lemma with_tcp_mut_ok {A} n H L lost h (f : TcpSock → TcpSock * A) :
  NInv n H L lost → h ∈ owned n H lost →
  ∃ c n', ss_get h (sockets n) = Some (TcpS c) ∧ with_tcp_mut h f n = (Ok (f c).2, n') ∧ NInv n' H L lost ∧
    with_tcp h n' = (Ok (f c).1, n') ∧ tcp_table n' = tcp_table n.
Proof.
  intros Hv Hh. destruct (holds_get _ _ _ (ni_holds _ _ _ _ Hv) Hh) as [c Hc]. exists c.
  unfold with_tcp_mut, with_tcp, mbind, M_bind. rewrite Hc. destruct (f c) as [c' a]. cbn.
  eexists. split_and!; [done..| |cbn; by rewrite ss_set_get by (by eexists)|done].
  eapply NInv_sockets; [done|]. apply holds_set; [apply Hv|done].
Qed.
Lemma set_remove_ok n H L lost h :
  NInv n H L (h :: lost) → ∃ n', set_remove h n = (Ok tt, n') ∧ NInv n' H L lost ∧ tcp_table n' = tcp_table n.
Proof.
  intros Hv. pose proof (ni_holds _ _ _ _ Hv) as Hh. rewrite owned_lost in Hh.
  destruct (holds_remove _ _ _ Hh) as (s&Hs&Hs'). unfold set_remove. rewrite Hs. eexists. split; [done|].
  split; [|done]. by eapply NInv_sockets.
Qed.

(** ** Incoming connections and polling *)

Lemma incoming_ok n H L lost dst : NInv n H L lost → NInv (incoming_tcp_packet dst n) H L lost.
Proof.
  intros Hv. unfold incoming_tcp_packet. destruct (tcp_table n !! ep_port dst) as [e|] eqn:Ep; [|done].
  destruct (negb _); [done|]. destruct (_ <=? _) eqn:El; bool_to_prop; [done|].
  destruct (tcp_listen _ _) as [c ok]. destruct ok; [|done].
  destruct (ss_add (TcpS c) (sockets n)) as [h s] eqn:Ea. destruct (ni_entry _ _ _ _ Hv _ _ Ep) as (Hp&H0&Hl).
  split; cbn.
  - pose proof (holds_add _ _ c (ni_holds _ _ _ _ Hv)) as Ha. rewrite Ea in Ha. cbn in Ha.
    unfold owned in *. cbn. rewrite (queued_delete _ _ _ Ep) in Ha. rewrite queued_insert. cbn.
    rewrite <-Permutation_cons_append. cbn. by rewrite <-Permutation_middle.
  - intros p e'. rewrite lookup_insert. case_decide as Hd; [|apply Hv].
    intros [= <-]. subst p. unfold entry_ok. cbn. rewrite length_app. cbn. split_and!; [done..|lia].
  - intros p. rewrite <-(ni_listen _ _ _ _ Hv p), lookup_insert. case_decide as Hd; [subst p; rewrite Ep|done]. naive_solver.
  - intros i j p. apply Hv.
  - apply Hv.
Qed.
Lemma snoop_ok n H L lost buf : NInv n H L lost → NInv (snoop_tcp_packet buf n) H L lost.
Proof.
  intros Hv. unfold snoop_tcp_packet. destruct (ether_payload buf ≫= ipv4_packet) as [ip|]; [|done].
  destruct (_ =? _); [|done]. destruct (tcp_packet _) as [t|]; [|done]. cbn zeta.
  destruct (_ && _)%bool; [by apply incoming_ok|done].
Qed.
Lemma net_event_ok n H L lost e : NInv n H L lost → NInv (net_event e n) H L lost.
Proof.
  intros Hv. unfold net_event. destruct (ev_view e) as [frame|[[h f] g]]; [by apply snoop_ok|].
  unfold progress. destruct (ss_get h (sockets n)) as [x|] eqn:E; [|done].
  destruct (ni_holds _ _ _ _ Hv) as (Hn&Hi&Ht). destruct (Ht _ _ E) as [c ->].
  eapply NInv_sockets; [done|]. apply holds_set; [apply Hv|]. apply Hi. by rewrite E.
Qed.
Lemma poll_ok n H L lost :
  NInv n H L lost → ∃ n', poll_interfaces n = (Ok tt, n') ∧ NInv n' H L lost.
Proof.
  intros Hv. unfold poll_interfaces. destruct (poll_events (eth0 n)) as [evs w]. eexists. split; [done|].
  apply (NInv_eth0 _ w) in Hv. revert Hv. generalize (set_eth0 w n). clear n.
  induction evs as [|e evs IH]; intros n Hv; [done|]. apply IH. by apply net_event_ok.
Qed.

(** ** [listen] and [unlisten] *)

Lemma table_listen_ok n H L lost i e :
  NInv n H L lost → L !! i = None → le_port e ≠ 0 →
  (∃ n', table_listen e n = (Ok tt, n') ∧ NInv n' H (<[i := le_port e]> L) lost) ∨
  (table_listen e n = (Err AddrInUse, n) ∧ is_Some (tcp_table n !! le_port e)).
Proof.
  intros Hv Hi H0. unfold table_listen.
  destruct (le_port e =? 0) eqn:E; bool_to_prop; [done|]. cbn. destruct (tcp_table n !! le_port e) as [e'|] eqn:Ep.
  - right. unfold mbind, M_bind, get_state. cbn. rewrite Ep. done.
  - left. unfold mbind, M_bind, get_state. cbn. rewrite Ep. eexists. split; [done|]. split; cbn.
    + pose proof (ni_holds _ _ _ _ Hv) as Hh. unfold owned in *. cbn. by rewrite queued_fresh.
    + intros p e'. rewrite lookup_insert. case_decide as Hd; [|apply Hv]. intros [= <-]. by subst p.
    + intros p. rewrite lookup_insert. case_decide as Hd.
      * subst p. split; [|by eexists]. intros _. exists i. by rewrite lookup_insert_eq.
      * rewrite (ni_listen _ _ _ _ Hv p). split; intros [j Hj]; exists j.
        -- rewrite lookup_insert_ne by (intros ->; congruence). done.
        -- rewrite lookup_insert in Hj. case_decide; [|done]. congruence.
    + assert (∀ j, L !! j ≠ Some (le_port e)) as Hno.
      { intros j Hj. destruct (proj2 (ni_listen _ _ _ _ Hv (le_port e))) as [? ?]; [by exists j|congruence]. }
      intros j k p. rewrite !lookup_insert. repeat case_decide; subst; try done; try naive_solver. apply Hv.
    + apply Hv.
Qed.
Lemma entry_drop_ok q : ∀ n H L lost,
  NInv n H L (q ++ lost) → ∃ n', entry_drop q n = (Ok tt, n') ∧ NInv n' H L lost.
Proof.
  induction q as [|h q IH]; intros n H L lost Hv; [by exists n|]. cbn [app] in Hv.
  destruct (set_remove_ok _ _ _ _ _ Hv) as (n'&E&Hv'&_). cbn [entry_drop]. erewrite M_bind_ok by exact E. by apply IH.
Qed.
Lemma unlisten_ok n H L lost i p :
  NInv n H L lost → L !! i = Some p → ∃ n', unlisten p n = (Ok tt, n') ∧ NInv n' H (delete i L) lost.
Proof.
  intros Hv Hi. destruct (proj2 (ni_listen _ _ _ _ Hv p)) as [e He]; [by exists i|].
  unfold unlisten. erewrite M_bind_ok by done. erewrite M_bind_ok by done. rewrite He.
  apply (entry_drop_ok _ _ H). split; cbn.
  - pose proof (ni_holds _ _ _ _ Hv) as Hh. unfold owned in *. cbn. rewrite (queued_delete _ _ _ He) in Hh.
    rewrite (Permutation_app_comm (queued _)), <-app_assoc. rewrite <-app_assoc in Hh.
    by rewrite (Permutation_app_comm lost).
  - intros q e'. rewrite lookup_delete. case_decide; [done|]. apply Hv.
  - intros q. rewrite lookup_delete. case_decide as Hd.
    + subst q. split; [intros [? [=]]|]. intros [j [Hj Hne]%lookup_delete_Some].
      destruct Hj. by eapply ni_inj.
    + rewrite (ni_listen _ _ _ _ Hv q). split; intros [j Hj]; exists j.
      * apply lookup_delete_Some. split; [intros ->; congruence|done].
      * by apply lookup_delete_Some in Hj as [_ Hj].
  - intros j k q [_ Hj]%lookup_delete_Some [_ Hk]%lookup_delete_Some. by eapply ni_inj.
  - apply Hv.
Qed.

(** ** [accept] *)

(** The states of a socket that [is_connected] takes for a connection. *)
Definition ready (n : Net) (h : SocketHandle) : Prop :=
  ∃ c, ss_get h (sockets n) = Some (TcpS c) ∧ tcp_state c ≠ Listen ∧ tcp_state c ≠ SynReceived.
(** A connection that was closed before it was accepted: it may have no endpoints. *)
Definition closed_in (n : Net) (e : ListenTableEntry) : Prop :=
  ∃ h c, h ∈ syn_queue e ∧ ss_get h (sockets n) = Some (TcpS c) ∧ tcp_state c = Closed.
Definition closed_in_queue (n : Net) : Prop :=
  ∃ p e, tcp_table n !! p = Some e ∧ closed_in n e.

Lemma is_connected_ok n H L lost h :
  NInv n H L lost → h ∈ owned n H lost →
  ∃ b, is_connected h n = (Ok b, n) ∧ (if b : bool then ready n h else ¬ ready n h).
Proof.
  intros Hv Hh. destruct (holds_get _ _ _ (ni_holds _ _ _ _ Hv) Hh) as [c Hc].
  unfold is_connected, with_tcp, mbind, M_bind. rewrite Hc. eexists. split; [done|].
  unfold ready. destruct (tcp_state c) eqn:E; (by exists c; rewrite E) || (intros (c'&?&?&?); congruence).
Qed.
Lemma find_connected_ok n H L lost q : ∀ k,
  NInv n H L lost → (∀ h, h ∈ q → h ∈ owned n H lost) →
  (find_connected k q n = (Ok None, n) ∧ ∀ h, h ∈ q → ¬ ready n h) ∨
  (∃ j h c l r, q !! j = Some h ∧ (∀ j' h', (j' < j)%nat → q !! j' = Some h' → ¬ ready n h') ∧ ready n h ∧
     ss_get h (sockets n) = Some (TcpS c) ∧ tcp_local_endpoint c = Some l ∧ tcp_remote_endpoint c = Some r ∧
     find_connected k q n = (Ok (Some ((k + j)%nat, (l, r))), n)) ∨
  (find_connected k q n = (Panic, n) ∧
     ∃ h c, h ∈ q ∧ ss_get h (sockets n) = Some (TcpS c) ∧ tcp_state c = Closed).
Proof.
  induction q as [|h q IH]; intros k Hv Hq; [left; split; [done|by intros h []%elem_of_nil]|].
  destruct (is_connected_ok n H L lost h) as (b&Eb&Hb); [done|apply Hq; left|].
  cbn [find_connected]. erewrite M_bind_ok by exact Eb. destruct b.
  - right. destruct Hb as (c&Hc&Hs1&Hs2). unfold get_addr_tuple, with_tcp, mbind, M_bind, unwrap. rewrite Hc.
    destruct (decide (tcp_state c = Closed)) as [Hcl|Hcl].
    + destruct (tcp_local_endpoint c) as [l|] eqn:El, (tcp_remote_endpoint c) as [r|] eqn:Er; cbn;
        try (right; split; [done|]; exists h, c; split; [left|done]).
      left. exists 0%nat, h, c, l, r. rewrite Nat.add_0_r. split_and!; try done; [lia|by exists c].
    + destruct (tcp_endpoints c Hcl Hs1) as [[l Hl] [r Hr]]. rewrite Hl, Hr. cbn.
      left. exists 0%nat, h, c, l, r. rewrite Nat.add_0_r. split_and!; try done; [lia|by exists c].
  - destruct (IH (S k)) as [[E Hn]|[(j&h'&c&l&r&Hj&Hf&Hr&Hc&Hl&Hr'&E)|(E&h'&c&Hh'&Hc)]]; [done|intros; apply Hq; by right|..].
    + left. split; [done|]. intros h' [->|?]%elem_of_cons; auto.
    + right; left. exists (S j), h', c, l, r. rewrite <-plus_n_Sm. split_and!; try done.
      intros [|j'] h'' Hlt; cbn; [by intros [= <-]|]. apply Hf. lia.
    + right; right. split; [done|]. exists h', c. split; [by right|done].
Qed.
Lemma any_connected_ok n H L lost q :
  NInv n H L lost → (∀ h, h ∈ q → h ∈ owned n H lost) →
  ∃ b, any_connected q n = (Ok b, n) ∧ (if b : bool then ∃ h, h ∈ q ∧ ready n h else ∀ h, h ∈ q → ¬ ready n h).
Proof.
  induction q as [|h q IH]; intros Hv Hq; [exists false; split; [done|by intros h []%elem_of_nil]|].
  destruct (is_connected_ok n H L lost h) as (b&Eb&Hb); [done|apply Hq; left|].
  cbn [any_connected]. erewrite M_bind_ok by exact Eb. destruct b; [exists true; split; [done|exists h; split; [left|done]]|].
  destruct IH as (b&E&Hb'); [done|intros; apply Hq; by right|]. exists b. split; [done|]. destruct b.
  - destruct Hb' as (h'&?&?). exists h'. split; [by right|done].
  - intros h' [->|?]%elem_of_cons; auto.
Qed.

(** What [accept] on a port does, by the state of its queue. *)
Definition accepts (n : Net) (p : Z) (r : res AxError (SocketHandle * (IpEndpoint * IpEndpoint))) (n' : Net) : Prop :=
  match tcp_table n !! p with
  | None => r = Err InvalidInput ∧ n' = n
  | Some e =>
      (r = Err WouldBlock ∧ n' = n ∧ ∀ h, h ∈ syn_queue e → ¬ ready n h) ∨
      (r = Panic ∧ n' = n ∧ closed_in n e) ∨
      (∃ j h c l a q, r = Ok (h, (l, a)) ∧ syn_queue e !! j = Some h ∧ ready n h ∧
         (∀ j' h', (j' < j)%nat → syn_queue e !! j' = Some h' → ¬ ready n h') ∧
         ss_get h (sockets n) = Some (TcpS c) ∧ tcp_local_endpoint c = Some l ∧ tcp_remote_endpoint c = Some a ∧
         syn_queue e ≡ₚ h :: q ∧
         n' = set_table (<[p := {| listen_endpoint := listen_endpoint e; syn_queue := q |}]> (tcp_table n)) n)
  end.
Lemma table_accept_spec n H L lost p r n' :
  NInv n H L lost → table_accept p n = (r, n') → accepts n p r n'.
Proof.
  intros Hv. unfold table_accept, accepts. erewrite M_bind_ok by done.
  destruct (tcp_table n !! p) as [e|] eqn:Ep; [|by intros [= <- <-]].
  destruct (find_connected_ok n H L lost (syn_queue e) 0 Hv)
    as [[E Hn]|[(j&h&c&l&a&Hj&Hf&Hr&Hc&Hl&Ha&E)|(E&h&c&Hh&Hc&Hs)]]; [intros; by eapply owned_elem_queue|..].
  - erewrite M_bind_ok by exact E. intros [= <- <-]. by left.
  - erewrite M_bind_ok by exact E. cbn [Nat.add]. intros Hx. right; right.
    destruct (swap_remove_front j (syn_queue e)) as [[h' q]|] eqn:Es.
    + destruct (swap_remove_front_some _ _ _ _ Es) as [Hj' Hq]. assert (h' = h) as -> by congruence.
      cbn in Hx. injection Hx as <- <-. exists j, h, c, l, a, q. by split_and!.
    + exfalso. unfold swap_remove_front in Es. rewrite Hj in Es. destruct (syn_queue e); done.
  - erewrite M_bind_panic by exact E. intros [= <- <-]. right; left. split_and!; [done..|]. by exists h, c.
Qed.
Lemma table_accept_inv n H L lost p h a n' :
  NInv n H L lost → table_accept p n = (Ok (h, a), n') → NInv n' H L (h :: lost).
Proof.
  intros Hv E. pose proof (table_accept_spec _ _ _ _ _ _ _ Hv E) as Hs. unfold accepts in Hs.
  destruct (tcp_table n !! p) as [e|] eqn:Ep; [|by destruct Hs].
  destruct Hs as [[? _]|[[? _]|(j&h'&c&l&a'&q&[= <- ->]&_&_&_&_&_&_&Hq&->)]]; [done..|].
  destruct (ni_entry _ _ _ _ Hv _ _ Ep) as (Hp&H0&Hl). split; cbn.
  - pose proof (ni_holds _ _ _ _ Hv) as Hh. rewrite owned_lost. unfold owned in *. cbn.
    rewrite (queued_delete _ _ _ Ep), Hq in Hh. rewrite queued_insert. cbn. cbn in Hh. by rewrite <-Permutation_middle in Hh.
  - intros p' e'. rewrite lookup_insert. case_decide as Hd; [|apply Hv]. intros [= <-]. subst p'.
    unfold entry_ok. cbn. rewrite Hq in Hl. cbn in Hl. split_and!; [done..|lia].
  - intros p'. rewrite <-(ni_listen _ _ _ _ Hv p'), lookup_insert. case_decide as Hd; [subst p'; rewrite Ep|done].
    split; intros _; by eexists.
  - intros i j' p'. apply Hv.
  - apply Hv.
Qed.

(** ** Ephemeral ports *)

(** The [k]-th port after [c]. *)
Definition nth_port (c k : Z) : Z := PORT_START + (c - PORT_START + k) mod (PORT_END - PORT_START + 1).
Lemma nth_port_range c k : PORT_START ≤ nth_port c k ≤ PORT_END.
Proof. unfold nth_port, PORT_START, PORT_END. change (0xffff - 0xc000 + 1) with 0x4000.
  pose proof (Z.mod_pos_bound (c - 0xc000 + k) 0x4000 ltac:(lia)). lia. Qed.
Lemma nth_port_0 c : PORT_START ≤ c ≤ PORT_END → nth_port c 0 = c.
Proof. unfold nth_port, PORT_START, PORT_END. intros. rewrite Z.mod_small by lia. lia. Qed.
Lemma nth_port_succ c k :
  0 ≤ k → (if nth_port c k =? PORT_END then PORT_START else nth_port c k + 1) = nth_port c (k + 1).
Proof.
  intros Hk. unfold nth_port, PORT_START, PORT_END.
  change (0xffff - 0xc000 + 1) with 0x4000. set (x := c - 0xc000 + k). replace (c - 0xc000 + (k + 1)) with (x + 1) by (unfold x; lia).
  pose proof (Z.mod_pos_bound x 0x4000 ltac:(lia)). pose proof (Z.div_mod x 0x4000 ltac:(lia)) as Hx.
  destruct (_ =? _) eqn:E; bool_to_prop.
  - rewrite <-(Zmod_unique (x + 1) 0x4000 (x / 0x4000 + 1) 0); lia.
  - rewrite <-(Zmod_unique (x + 1) 0x4000 (x / 0x4000) (x mod 0x4000 + 1)); lia.
Qed.
Lemma nth_port_onto c p :
  PORT_START ≤ c ≤ PORT_END → PORT_START ≤ p ≤ PORT_END → ∃ k, 0 ≤ k < 0x4000 ∧ nth_port c k = p.
Proof.
  unfold nth_port, PORT_START, PORT_END. change (0xffff - 0xc000 + 1) with 0x4000. intros Hc Hp.
  exists ((p - c) mod 0x4000). split; [by apply Z.mod_pos_bound|]. rewrite Zplus_mod_idemp_r.
  replace (c - 0xc000 + (p - c)) with (p - 0xc000) by lia. rewrite Z.mod_small by lia. lia.
Qed.

Definition port_chosen (n : Net) (r : res AxError Z) (n' : Net) : Prop :=
  (∃ c, n' = set_tcp_curr c n ∧ PORT_START ≤ c ≤ PORT_END) ∧
  ((∃ p, r = Ok p ∧ PORT_START ≤ p ≤ PORT_END ∧ tcp_table n !! p = None) ∨
   (r = Err AddrInUse ∧ ∀ p, PORT_START ≤ p ≤ PORT_END → is_Some (tcp_table n !! p))).
Lemma ephemeral_loop_ok c0 fuel : ∀ tries n,
  PORT_START ≤ c0 ≤ PORT_END → 0 ≤ tries → tcp_curr n = nth_port c0 tries →
  0x4000 - tries + 1 ≤ Z.of_nat fuel → tries ≤ 0x4000 →
  (∀ k, 0 ≤ k < tries → is_Some (tcp_table n !! nth_port c0 k)) →
  port_chosen n (ephemeral_loop fuel tries n).1 (ephemeral_loop fuel tries n).2.
Proof.
  induction fuel as [|fuel IH]; intros tries n Hc H0 Hn Hf Hle Hall; [lia|]. cbn [ephemeral_loop].
  assert (set_tcp_curr (tcp_curr n) n = n) as Hid by by destruct n.
  destruct (tries <=? PORT_END - PORT_START) eqn:Et; bool_to_prop; unfold PORT_END, PORT_START in Et.
  - erewrite M_bind_ok by done. erewrite M_bind_ok by done. erewrite M_bind_ok by done. cbn [tcp_table set_tcp_curr].
    rewrite Hn, nth_port_succ by done. destruct (tcp_table n !! nth_port c0 tries) as [e|] eqn:Ep; cbn -[ephemeral_loop].
    + destruct (IH (tries + 1) (set_tcp_curr (nth_port c0 (tries + 1)) n)) as [(c&Hn'&Hr) Hres]; try done; try lia.
      { cbn. intros k Hk. destruct (decide (k = tries)) as [->|]; [by rewrite Ep|apply Hall; lia]. }
      split; [exists c; split; [by rewrite Hn'|done]|done].
    + split; [eexists; split; [done|apply nth_port_range]|]. left. eexists. split; [done|]. split; [apply nth_port_range|done].
  - split; [exists (tcp_curr n); split; [done|rewrite Hn; apply nth_port_range]|]. right. split; [done|].
    intros p Hp. destruct (nth_port_onto c0 p Hc Hp) as (k&Hk&<-). apply Hall. lia.
Qed.
Lemma ephemeral_port_ok n :
  PORT_START ≤ tcp_curr n ≤ PORT_END → port_chosen n (get_ephemeral_port n).1 (get_ephemeral_port n).2.
Proof.
  intros Hc. apply (ephemeral_loop_ok (tcp_curr n)); try done; try lia.
  by rewrite nth_port_0.
Qed.
End props.
