(* ===== verification/TcpSocket.v ===== *)
(** * TCP sockets ([modules/axnet/src/smoltcp_impl/tcp.rs])

    The operations of [TcpSocket] over the network stack, and the system they make: sockets
    that several tasks use, whose blocking calls give up the processor between two turns of
    their loop. *)

From Stdlib Require Import ZArith Lia.
From stdpp Require Import base decidable numbers gmap list.
From S2P Require Import Prelude LinkedList Vfs NetStack.

Local Open Scope Z_scope.

Definition STATE_CLOSED : Z := 0.
Definition STATE_BUSY : Z := 1.
Definition STATE_CONNECTING : Z := 2.
Definition STATE_CONNECTED : Z := 3.
Definition STATE_LISTENING : Z := 4.

(** [axio::PollState]. *)
Record PollState : Set := { readable : bool; writable : bool }.

Section tcp.
Context `{SK : SmolSockets} `{N : !SmolNet}.

Record TcpSocket : Type := {
  ts_state : Z; ts_handle : option SocketHandle; ts_local : IpEndpoint; ts_peer : IpEndpoint; ts_nonblock : bool }.
Definition TcpSocket_new : TcpSocket :=
  {| ts_state := STATE_CLOSED; ts_handle := None; ts_local := UNSPECIFIED_ENDPOINT;
     ts_peer := UNSPECIFIED_ENDPOINT; ts_nonblock := false |}.
Definition new_connected (h : SocketHandle) (local peer : IpEndpoint) : TcpSocket :=
  {| ts_state := STATE_CONNECTED; ts_handle := Some h; ts_local := local; ts_peer := peer; ts_nonblock := false |}.

(** The stack and the socket the method is called on. *)
Local Abbreviation TM := (M (Net * TcpSocket) AxError).
Definition get_self : TM TcpSocket := gets snd.
Definition set_self (f : TcpSocket → TcpSocket) : TM unit := modify (λ s, (s.1, f s.2)).

Definition tcp_get_state : TM Z := t ← get_self; mret (ts_state t).
Definition tcp_set_state (x : Z) : TM unit :=
  set_self (λ t, {| ts_state := x; ts_handle := ts_handle t; ts_local := ts_local t; ts_peer := ts_peer t;
                    ts_nonblock := ts_nonblock t |}).
Definition set_handle (h : option SocketHandle) : TM unit :=
  set_self (λ t, {| ts_state := ts_state t; ts_handle := h; ts_local := ts_local t; ts_peer := ts_peer t;
                    ts_nonblock := ts_nonblock t |}).
Definition set_local (e : IpEndpoint) : TM unit :=
  set_self (λ t, {| ts_state := ts_state t; ts_handle := ts_handle t; ts_local := e; ts_peer := ts_peer t;
                    ts_nonblock := ts_nonblock t |}).
Definition set_peer (e : IpEndpoint) : TM unit :=
  set_self (λ t, {| ts_state := ts_state t; ts_handle := ts_handle t; ts_local := ts_local t; ts_peer := e;
                    ts_nonblock := ts_nonblock t |}).
Definition set_nonblocking (b : bool) : TM unit :=
  set_self (λ t, {| ts_state := ts_state t; ts_handle := ts_handle t; ts_local := ts_local t; ts_peer := ts_peer t;
                    ts_nonblock := b |}).
Definition is_nonblocking : TM bool := t ← get_self; mret (ts_nonblock t).

Definition local_addr : TM SocketAddr :=
  t ← get_self;
  if ((ts_state t =? STATE_CONNECTED) || (ts_state t =? STATE_LISTENING))%bool
  then mret (into_core_sockaddr (ts_local t)) else throw NotConnected.
Definition peer_addr : TM SocketAddr :=
  t ← get_self;
  if ((ts_state t =? STATE_CONNECTED) || (ts_state t =? STATE_LISTENING))%bool
  then mret (into_core_sockaddr (ts_peer t)) else throw NotConnected.

(** A [Result] as a value, and back. *)
Definition catch {A} (m : TM A) : TM (AxError + A) := λ s,
  match m s with
  | (Ok a, s') => (Ok (inr a), s')
  | (Err e, s') => (Ok (inl e), s')
  | (Panic, s') => (Panic, s')
  | (OutOfFuel, s') => (OutOfFuel, s')
  end.
Definition from_result {A} (r : AxError + A) : TM A := match r with inl e => throw e | inr a => mret a end.

(** [inl old] when the state is another than expected. *)
Definition update_state {A} (expect new : Z) (f : TM A) : TM (Z + (AxError + A)) :=
  old ← tcp_get_state;
  if old =? expect then
    _ ← tcp_set_state STATE_BUSY;
    r ← catch f;
    _ ← tcp_set_state (match r with inr _ => new | inl _ => expect end);
    mret (inr r)
  else mret (inl old).
(** [.unwrap_or(d)] and [?] on its result. *)
Definition unwrap_or {A} (m : TM (Z + (AxError + A))) (d : AxError + A) : TM A :=
  r ← m; from_result (match r with inl _ => d | inr r => r end).

Definition bound_endpoint : TM IpListenEndpoint :=
  t ← get_self;
  let l := ts_local t in
  port ← (if negb (ep_port l =? 0) then mret (ep_port l) else on_fst get_ephemeral_port);
  _ ← assert_ (negb (port =? 0));
  mret {| le_addr := if negb (is_unspecified (ep_addr l)) then Some (ep_addr l) else None; le_port := port |}.

(** ** Blocking *)

(** One turn of the loop of [block_on]. *)
Definition block_turn {A} (f : TM A) : TM A := _ ← on_fst poll_interfaces; f.
Fixpoint block_loop {A} (fuel : nat) (f : TM A) : TM A :=
  match fuel with
  | O => out_of_fuel
  | S fuel => λ s, match block_turn f s with (Err WouldBlock, s') => block_loop fuel f s' | x => x end
  end.
Definition block_on {A} (fuel : nat) (f : TM A) : TM A :=
  b ← is_nonblocking; if b : bool then f else block_loop fuel f.

(** ** [connect] *)

Definition connect_result {A} (e : option ConnectError) (a : A) : TM A :=
  match e with
  | None => mret a
  | Some ConnectInvalidState => throw BadState
  | Some ConnectUnaddressable => throw ConnectionRefused
  end.
(** The closure of [update_state]. *)
Definition connect_busy (remote : SocketAddr) : TM unit :=
  t ← get_self;
  h ← (match ts_handle t with Some h => mret h | None => on_fst (set_add (TcpS tcp_new)) end);
  remote_endpoint ← from_core_sockaddr remote;
  bound ← bound_endpoint;
  e ← on_fst (with_tcp_mut h (tcp_connect remote_endpoint bound));
  _ ← connect_result e tt;
  c ← on_fst (with_tcp h);
  local_endpoint ← unwrap (tcp_local_endpoint c);
  remote_endpoint ← unwrap (tcp_remote_endpoint c);
  _ ← set_local local_endpoint;
  _ ← set_peer remote_endpoint;
  set_handle (Some h).
Definition connect_begin (remote : SocketAddr) : TM unit :=
  unwrap_or (update_state STATE_CLOSED STATE_CONNECTING (connect_busy remote)) (inl AlreadyExists).

Definition poll_connect : TM PollState :=
  t ← get_self;
  h ← unwrap (ts_handle t);
  c ← on_fst (with_tcp h);
  w ← (match tcp_state c with
       | SynSent => mret false
       | Established => _ ← tcp_set_state STATE_CONNECTED; mret true
       | _ =>
           _ ← set_local UNSPECIFIED_ENDPOINT;
           _ ← set_peer UNSPECIFIED_ENDPOINT;
           _ ← tcp_set_state STATE_CLOSED; mret true
       end);
  mret {| readable := false; writable := w |}.
Definition connect_try : TM unit :=
  p ← poll_connect;
  if negb (writable p) then throw WouldBlock
  else
    s ← tcp_get_state;
    if s =? STATE_CONNECTED then mret tt else throw ConnectionRefused.
Definition tcp_socket_connect (fuel : nat) (remote : SocketAddr) : TM unit :=
  _ ← connect_begin remote;
  b ← is_nonblocking;
  if b : bool then throw WouldBlock else block_on fuel connect_try.

(** ** [bind] and [listen] *)

Definition bind_busy (local : SocketAddr) : TM unit :=
  port ← (if sa_port local =? 0 then on_fst get_ephemeral_port else mret (sa_port local));
  t ← get_self;
  if negb (bool_decide (ts_local t = UNSPECIFIED_ENDPOINT)) then throw InvalidInput
  else e ← from_core_sockaddr {| sa_ip := sa_ip local; sa_port := port |}; set_local e.
Definition tcp_socket_bind (local : SocketAddr) : TM unit :=
  unwrap_or (update_state STATE_CLOSED STATE_CLOSED (bind_busy local)) (inl InvalidInput).

Definition listen_busy : TM unit :=
  bound ← bound_endpoint;
  t ← get_self;
  _ ← set_local {| ep_addr := ep_addr (ts_local t); ep_port := le_port bound |};
  on_fst (table_listen bound).
Definition tcp_socket_listen : TM unit :=
  unwrap_or (update_state STATE_CLOSED STATE_LISTENING listen_busy) (inr tt).

(** ** [accept] *)

Definition accept_begin : TM Z :=
  s ← tcp_get_state;
  if negb (s =? STATE_LISTENING) then throw InvalidInput
  else t ← get_self; mret (ep_port (ts_local t)).
Definition accept_try (port : Z) : TM TcpSocket :=
  r ← on_fst (table_accept port);
  let '(h, (local, peer)) := r in mret (new_connected h local peer).
Definition tcp_socket_accept (fuel : nat) : TM TcpSocket :=
  port ← accept_begin; block_on fuel (accept_try port).

(** ** [shutdown] and [drop] *)

Definition shutdown_stream : TM unit :=
  t ← get_self;
  h ← unwrap (ts_handle t);
  _ ← on_fst (with_tcp_mut h (λ c, (tcp_close c, tt)));
  _ ← set_local UNSPECIFIED_ENDPOINT;
  on_fst poll_interfaces.
Definition shutdown_listener : TM unit :=
  t ← get_self;
  let local_port := ep_port (ts_local t) in
  _ ← set_local UNSPECIFIED_ENDPOINT;
  _ ← on_fst (unlisten local_port);
  on_fst poll_interfaces.
Definition tcp_socket_shutdown : TM unit :=
  _ ← unwrap_or (update_state STATE_CONNECTED STATE_CLOSED shutdown_stream) (inr tt);
  unwrap_or (update_state STATE_LISTENING STATE_CLOSED shutdown_listener) (inr tt).
Definition tcp_socket_drop : TM unit :=
  _ ← catch tcp_socket_shutdown;
  t ← get_self;
  match ts_handle t with Some h => on_fst (set_remove h) | None => mret tt end.

(** ** [recv] and [send] *)

Definition stream_begin : TM SocketHandle :=
  s ← tcp_get_state;
  if s =? STATE_CONNECTING then throw WouldBlock
  else if negb (s =? STATE_CONNECTED) then throw NotConnected
  else t ← get_self; unwrap (ts_handle t).
(** The bytes received; the length of the buffer bounds them. *)
Definition recv_try (h : SocketHandle) (len : Z) : TM (list Z) :=
  c ← on_fst (with_tcp h);
  if negb (tcp_is_active c) then throw ConnectionRefused
  else if negb (tcp_may_recv c) then mret []
  else if 0 <? tcp_recv_queue c then
    r ← on_fst (with_tcp_mut h (tcp_recv_slice len));
    match r with Some data => mret data | None => throw BadState end
  else throw WouldBlock.
Definition tcp_socket_recv (fuel : nat) (len : Z) : TM (list Z) :=
  h ← stream_begin; block_on fuel (recv_try h len).
Definition send_try (h : SocketHandle) (buf : list Z) : TM Z :=
  c ← on_fst (with_tcp h);
  if (negb (tcp_is_active c) || negb (tcp_may_send c))%bool then throw ConnectionReset
  else if tcp_can_send c then
    r ← on_fst (with_tcp_mut h (tcp_send_slice buf));
    match r with Some len => mret len | None => throw BadState end
  else throw WouldBlock.
Definition tcp_socket_send (fuel : nat) (buf : list Z) : TM Z :=
  h ← stream_begin; block_on fuel (send_try h buf).

(** ** [poll] *)

Definition poll_stream : TM PollState :=
  t ← get_self;
  h ← unwrap (ts_handle t);
  c ← on_fst (with_tcp h);
  mret {| readable := negb (tcp_may_recv c) || tcp_can_recv c; writable := negb (tcp_may_send c) || tcp_can_send c |}%bool.
Definition poll_listener : TM PollState :=
  t ← get_self;
  r ← on_fst (table_can_accept (ep_port (ts_local t)));
  mret {| readable := r; writable := false |}.
Definition tcp_socket_poll : TM PollState :=
  s ← tcp_get_state;
  if s =? STATE_CONNECTING then poll_connect
  else if s =? STATE_CONNECTED then poll_stream
  else if s =? STATE_LISTENING then poll_listener
  else mret {| readable := false; writable := false |}.

(** ** The system *)

(** A call that waits in [block_on], with what it captured. *)
Inductive Call : Type :=
| CConnect (i : nat)
| CAccept (i : nat) (port : Z)
| CRecv (i : nat) (h : SocketHandle) (len : Z)
| CSend (i : nat) (h : SocketHandle) (buf : list Z).
Definition call_socket (c : Call) : nat :=
  match c with CConnect i | CAccept i _ | CRecv i _ _ | CSend i _ _ => i end.

(** The sockets of the clients and the waiting calls, by task. *)
Record TcpSys : Type := { y_net : Net; y_socks : gmap nat TcpSocket; y_calls : gmap nat Call }.
Definition sys_init (w : World) : TcpSys := {| y_net := net_init w; y_socks := ∅; y_calls := ∅ |}.

Inductive TcpOp : Type :=
| OpNew (i : nat)
| OpBind (i : nat) (a : SocketAddr) | OpListen (i : nat) | OpShutdown (i : nat) | OpDrop (i : nat)
| OpPoll (i : nat) | OpNonblocking (i : nat) (b : bool)
| OpConnect (t i : nat) (a : SocketAddr)
| OpAccept (t i j : nat) | OpRecv (t i : nat) (len : Z) | OpSend (t i : nat) (buf : list Z)
| OpTurn (t j : nat)
| OpPollInterfaces.

(** Run a method on socket [i]; [k] gets its result. *)
Definition on_socket {A} (i : nat) (m : TM A) (y : TcpSys) : option (res AxError A * TcpSys) :=
  t ← y_socks y !! i;
  let '(r, (n, t')) := m (y_net y, t) in
  Some (r, {| y_net := n; y_socks := <[i := t']> (y_socks y); y_calls := y_calls y |}).
Definition set_call (t : nat) (c : option Call) (y : TcpSys) : TcpSys :=
  {| y_net := y_net y; y_socks := y_socks y; y_calls := partial_alter (λ _, c) t (y_calls y) |}.
Definition add_socket (j : nat) (s : TcpSocket) (y : TcpSys) : TcpSys :=
  {| y_net := y_net y; y_socks := <[j := s]> (y_socks y); y_calls := y_calls y |}.
Definition drop_socket (i : nat) (y : TcpSys) : TcpSys :=
  {| y_net := y_net y; y_socks := delete i (y_socks y); y_calls := y_calls y |}.
Definition void {A} (r : res AxError A) : res AxError unit :=
  match r with Ok _ => Ok tt | Err e => Err e | Panic => Panic | OutOfFuel => OutOfFuel end.
Definition done_ {A} (x : option (res AxError A * TcpSys)) : option (res AxError unit * TcpSys) :=
  '(r, y) ← x; Some (void r, y).

(** A call [c] that entered [block_on] makes one attempt without polling when the socket is
    non-blocking, and waits otherwise. *)
Definition accept_done (j : nat) (x : option (res AxError TcpSocket * TcpSys)) : option (res AxError unit * TcpSys) :=
  '(r, y) ← x; Some (void r, match r with Ok s => add_socket j s y | _ => y end).
Definition call_try (turn : bool) (c : Call) (j : nat) (y : TcpSys) : option (res AxError unit * TcpSys) :=
  match c with
  | CConnect i => done_ (on_socket i (if turn then block_turn connect_try else connect_try) y)
  | CAccept i port => accept_done j (on_socket i (if turn then block_turn (accept_try port) else accept_try port) y)
  | CRecv i h len => done_ (on_socket i (if turn then block_turn (recv_try h len) else recv_try h len) y)
  | CSend i h buf => done_ (on_socket i (if turn then block_turn (send_try h buf) else send_try h buf) y)
  end.
Definition begin_call {A} (t i : nat) (m : TM A) (c : A → Call) (j : nat) (y : TcpSys) : option (res AxError unit * TcpSys) :=
  '(r, y) ← on_socket i (a ← m; b ← is_nonblocking; mret (a, b)) y;
  match r with
  | Ok (a, true) => call_try false (c a) j y
  | Ok (a, false) => Some (Ok tt, set_call t (Some (c a)) y)
  | Err e => Some (Err e, y)
  | Panic => Some (Panic, y)
  | OutOfFuel => Some (OutOfFuel, y)
  end.

(** [None]: the operation is not possible, a busy task cannot call, a name is taken, or the
    socket to be dropped is still borrowed by a waiting call. *)
Definition unused (j : nat) (y : TcpSys) : bool := bool_decide (y_socks y !! j = None).
Definition idle (t : nat) (y : TcpSys) : bool := bool_decide (y_calls y !! t = None).
Definition borrowed (i : nat) (y : TcpSys) : bool :=
  bool_decide (map_Exists (λ _ c, call_socket c = i) (y_calls y)).
Definition guard_ (b : bool) : option unit := if b then Some tt else None.
Definition tcp_step (o : TcpOp) (y : TcpSys) : option (res AxError unit * TcpSys) :=
  match o with
  | OpNew i => _ ← guard_ (unused i y); Some (Ok tt, add_socket i TcpSocket_new y)
  | OpBind i a => done_ (on_socket i (tcp_socket_bind a) y)
  | OpListen i => done_ (on_socket i tcp_socket_listen y)
  | OpShutdown i => done_ (on_socket i tcp_socket_shutdown y)
  | OpDrop i =>
      _ ← guard_ (negb (borrowed i y));
      '(r, y) ← on_socket i tcp_socket_drop y; Some (r, drop_socket i y)
  | OpPoll i => done_ (on_socket i tcp_socket_poll y)
  | OpNonblocking i b => done_ (on_socket i (set_nonblocking b) y)
  | OpConnect t i a =>
      _ ← guard_ (idle t y);
      '(r, y) ← on_socket i (_ ← connect_begin a; is_nonblocking) y;
      match r with
      | Ok true => Some (Err WouldBlock, y)
      | Ok false => Some (Ok tt, set_call t (Some (CConnect i)) y)
      | r => Some (void r, y)
      end
  | OpAccept t i j => _ ← guard_ (idle t y && unused j y); begin_call t i accept_begin (CAccept i) j y
  | OpRecv t i len => _ ← guard_ (idle t y); begin_call t i stream_begin (λ h, CRecv i h len) O y
  | OpSend t i buf => _ ← guard_ (idle t y); begin_call t i stream_begin (λ h, CSend i h buf) O y
  | OpTurn t j =>
      _ ← guard_ (unused j y);
      c ← y_calls y !! t;
      '(r, y) ← call_try true c j y;
      Some (r, match r with Err WouldBlock => y | _ => set_call t None y end)
  | OpPollInterfaces => Some (Ok tt, {| y_net := (poll_interfaces (y_net y)).2; y_socks := y_socks y; y_calls := y_calls y |})
  end.
End tcp.
Arguments TcpSocket {SK N}.
Arguments TcpSys {SK N}.
Arguments TcpOp : clear implicits.
Arguments Call {SK N}.
