(* ===== verification/TcpProps.v ===== *)
(** * Properties of TCP sockets

    Every operation keeps the account of the socket handles and the state machine of its
    socket; so does every run of the system of sockets. *)

From Stdlib Require Import ZArith Lia.
From stdpp Require Import base decidable numbers gmap list.
From S2P Require Import Prelude LinkedList Vfs NetStack NetProps TcpSocket.

Local Open Scope Z_scope.

Section props.
Context `{SK : SmolSockets} `{N : !SmolNet} `{SP : !SmolSpec}.
Local Abbreviation TM := (M (Net * TcpSocket) AxError).

(** ** One socket *)

Definition listening (t : TcpSocket) : option Z :=
  if ts_state t =? STATE_LISTENING then Some (ep_port (ts_local t)) else None.
Definition sock_ok (t : TcpSocket) : Prop :=
  (ts_state t = STATE_CLOSED ∨ ts_state t = STATE_CONNECTING ∨ ts_state t = STATE_CONNECTED ∨ ts_state t = STATE_LISTENING) ∧
  (ts_state t = STATE_CONNECTING ∨ ts_state t = STATE_CONNECTED → is_Some (ts_handle t)).
Definition upd {A} (i : nat) (o : option A) (m : gmap nat A) : gmap nat A := partial_alter (λ _, o) i m.
Definition TI (i : nat) (H : gmap nat SocketHandle) (L : gmap nat Z) (lost : list SocketHandle) (n : Net) (t : TcpSocket) : Prop :=
  NInv n (upd i (ts_handle t) H) (upd i (listening t) L) lost ∧ sock_ok t.
Definition v4 (a : SocketAddr) : Prop := match sa_ip a with IpV4 _ => True | IpV6 _ => False end.

(** A handle, once there, stays. *)
Definition keeps (t t' : TcpSocket) : Prop := ∀ h, ts_handle t = Some h → ts_handle t' = Some h.
Definition fine {A} (r : res AxError A) : Prop := r ≠ Panic ∧ r ≠ OutOfFuel.

Lemma fine_ok {A} (a : A) : fine (Ok a).
Proof. done. Qed.
Lemma fine_err {A} e : fine (A := A) (Err e).
Proof. done. Qed.
Lemma keeps_refl t : keeps t t.
Proof. by intros h. Qed.
#[local] Hint Resolve fine_ok fine_err keeps_refl : core.
#[local] Hint Extern 1 (keeps _ _) => (intros ?; exact id) : core.

Lemma upd_eq {A} i o (m : gmap nat A) : upd i o m !! i = o.
Proof. apply lookup_partial_alter_eq. Qed.
Lemma upd_upd {A} i o o' (m : gmap nat A) : upd i o (upd i o' m) = upd i o m.
Proof.
  apply map_eq. intros j. unfold upd. destruct (decide (i = j)) as [->|];
    [by rewrite !lookup_partial_alter_eq|by rewrite !lookup_partial_alter_ne].
Qed.
Lemma upd_some {A} i x o (m : gmap nat A) : <[i := x]> (upd i o m) = upd i (Some x) m.
Proof. apply (upd_upd i (Some x)). Qed.
Lemma upd_none {A} i o (m : gmap nat A) : delete i (upd i o m) = upd i None m.
Proof. apply (upd_upd i None). Qed.
Lemma upd_absent {A} i (m : gmap nat A) : m !! i = None → upd i None m = m.
Proof. intros Hi. unfold upd. exact (delete_id m i Hi). Qed.
Lemma upd_fmap {A B} (f : A → option B) i t (m : gmap nat A) : omap f (<[i := t]> m) = upd i (f t) (omap f m).
Proof. rewrite omap_insert. by destruct (f t). Qed.

Definition with_state (x : Z) (t : TcpSocket) : TcpSocket :=
  {| ts_state := x; ts_handle := ts_handle t; ts_local := ts_local t; ts_peer := ts_peer t; ts_nonblock := ts_nonblock t |}.

Lemma update_state_eq {A} expect new (f : TM A) d n t :
  unwrap_or (update_state expect new f) d (n, t) =
  if ts_state t =? expect then
    match f (n, with_state STATE_BUSY t) with
    | (Ok a, (n', t')) => (Ok a, (n', with_state new t'))
    | (Err e, (n', t')) => (Err e, (n', with_state expect t'))
    | (Panic, s) => (Panic, s)
    | (OutOfFuel, s) => (OutOfFuel, s)
    end
  else (match d with inl e => Err e | inr a => Ok a end, (n, t)).
Proof.
  unfold unwrap_or, update_state, tcp_get_state, get_self, tcp_set_state, set_self, catch, gets, modify, mbind, M_bind. cbn.
  destruct (_ =? _); [|by destruct d]. cbn. unfold with_state at 1.
  destruct (f _) as [[a|e| |] [n' t']]; done.
Qed.

Lemma on_fst_eq {A} (m : M Net AxError A) n (t : TcpSocket) : on_fst m (n, t) = ((m n).1, ((m n).2, t)).
Proof. unfold on_fst. cbn. by destruct (m n). Qed.

Lemma bound_endpoint_ok n t H L lost :
  NInv n H L lost →
  ∃ n', NInv n' H L lost ∧ tcp_table n' = tcp_table n ∧
  ((∃ b, bound_endpoint (n, t) = (Ok b, (n', t)) ∧ le_port b ≠ 0 ∧
      (ep_port (ts_local t) ≠ 0 → le_port b = ep_port (ts_local t))) ∨
   bound_endpoint (n, t) = (Err AddrInUse, (n', t))).
Proof.
  intros Hv. unfold bound_endpoint. erewrite M_bind_ok by done. cbn [snd]; cbn zeta. destruct (ep_port (ts_local t) =? 0) eqn:E; cbn [negb].
  - destruct (ephemeral_port_ok n (ni_curr _ _ _ _ Hv)) as [(c&Hn&Hc) Hr].
    destruct (get_ephemeral_port n) as [r n'] eqn:Eg. cbn in Hn, Hr. exists n'. split; [subst; by apply NInv_curr|].
    split; [by subst|]. bool_to_prop. destruct Hr as [(p&->&Hp&_)|[-> _]].
    + left. assert ((p =? 0) = false) as Hp0 by (unfold PORT_START, PORT_END in *; lia).
      erewrite M_bind_ok by (rewrite on_fst_eq, Eg; done). cbn. rewrite Hp0. cbn. eexists. split; [done|]. cbn. split; [lia|done].
    + right. erewrite M_bind_err by (rewrite on_fst_eq, Eg; done). done.
  - exists n. split; [done|]. split; [done|]. left. erewrite M_bind_ok by done. cbn. rewrite E. cbn. eexists. split; [done|].
    cbn. bool_to_prop. done.
Qed.

Lemma from_core_sockaddr_ok {S} a (s : S) :
  v4 a → ∃ e, from_core_sockaddr (E := AxError) a s = (Ok e, s) ∧ ep_port e = sa_port a.
Proof. unfold v4, from_core_sockaddr. destruct a as [[o|] p]; [|done]. intros _. by eexists. Qed.

Lemma TI_closed i H L lost n t :
  NInv n (upd i (ts_handle t) H) (upd i None L) lost → TI i H L lost n (with_state STATE_CLOSED t).
Proof. intros Hv. split; [done|]. split; [by left|]. intros [|]; done. Qed.
Lemma TI_not_listening i H L lost n t x :
  TI i H L lost n t → ts_state t = x → x ≠ STATE_LISTENING → NInv n (upd i (ts_handle t) H) (upd i None L) lost.
Proof. intros [Hv _] Hx Hne. unfold listening in Hv. rewrite Hx, (proj2 (Z.eqb_neq _ _) Hne) in Hv. done. Qed.
#[local] Hint Resolve TI_closed : core.

(** ** [bind] and [listen] *)

Lemma bind_ok i H L lost n t a r n' t' :
  TI i H L lost n t → v4 a → tcp_socket_bind a (n, t) = (r, (n', t')) →
  fine r ∧ TI i H L lost n' t' ∧ keeps t t'.
Proof.
  intros Ht Ha. unfold tcp_socket_bind. rewrite update_state_eq. destruct (_ =? _) eqn:Es; [|intros [= <- <- <-]; by split_and!].
  bool_to_prop. pose proof (TI_not_listening _ _ _ _ _ _ _ Ht Es ltac:(done)) as Hv. unfold bind_busy.
  destruct (sa_port a =? 0) eqn:Ep.
  - destruct (ephemeral_port_ok n (ni_curr _ _ _ _ Hv)) as [(c&Hn&Hc) Hr].
    destruct (get_ephemeral_port n) as [r1 n1] eqn:Eg. cbn in Hn, Hr. subst n1.
    apply (NInv_curr _ c) in Hv; [|done]. destruct Hr as [(p&->&Hp&_)|[-> _]].
    + erewrite M_bind_ok by (rewrite on_fst_eq, Eg; done). erewrite M_bind_ok by done. cbn [snd with_state ts_local].
      destruct (negb _); [|unfold from_core_sockaddr, from_core_ipaddr; destruct a as [[o|] q]; [cbn|done]];
        intros [= <- <- <-]; split_and!; auto.
    + erewrite M_bind_err by (rewrite on_fst_eq, Eg; done). intros [= <- <- <-]. split_and!; auto.
  - erewrite M_bind_ok by done. erewrite M_bind_ok by done. cbn [snd with_state ts_local].
    destruct (negb _); [|unfold from_core_sockaddr, from_core_ipaddr; destruct a as [[o|] q]; [cbn|done]];
      intros [= <- <- <-]; split_and!; auto.
Qed.

Lemma listen_ok i H L lost n t r n' t' :
  TI i H L lost n t → tcp_socket_listen (n, t) = (r, (n', t')) →
  fine r ∧ TI i H L lost n' t' ∧ keeps t t'.
Proof.
  intros Ht. unfold tcp_socket_listen. rewrite update_state_eq. destruct (_ =? _) eqn:Es; [|intros [= <- <- <-]; by split_and!].
  bool_to_prop. pose proof (TI_not_listening _ _ _ _ _ _ _ Ht Es ltac:(done)) as Hv. unfold listen_busy.
  destruct (bound_endpoint_ok n (with_state STATE_BUSY t) _ _ _ Hv) as (n1&Hv1&_&[(b&E&Hb&_)|E]).
  - erewrite M_bind_ok by exact E. erewrite M_bind_ok by done. erewrite M_bind_ok by done. rewrite on_fst_eq. cbn [fst].
    destruct (table_listen_ok _ _ _ _ i b Hv1) as [(n2&El&Hv2)|[El _]]; [apply upd_eq|done|..]; rewrite El; intros [= <- <- <-].
    + split_and!; [done| |auto]. rewrite upd_some in Hv2. split; [done|]. split; [by auto|]. intros [|]; done.
    + by split_and!; auto.
  - erewrite M_bind_err by exact E. intros [= <- <- <-]. split_and!; auto.
Qed.

(** ** [connect] *)

(** A connection that fails on a socket without a handle loses the one it made. *)
Definition may_lose (t : TcpSocket) (lost lost' : list SocketHandle) : Prop :=
  lost' = lost ∨ ts_handle t = None ∧ ∃ h, lost' = h :: lost.

Lemma connect_handle_ok n t H L i lost :
  NInv n (upd i (ts_handle t) H) L lost →
  ∃ h n' lost', (match ts_handle t with Some h => mret h | None => on_fst (set_add (TcpS tcp_new)) end : TM _) (n, t)
      = (Ok h, (n', t)) ∧
    may_lose t lost lost' ∧ NInv n' (upd i (ts_handle t) H) L lost' ∧ h ∈ owned n' (upd i (ts_handle t) H) lost' ∧
    (∀ n'', NInv n'' (upd i (ts_handle t) H) L lost' → NInv n'' (upd i (Some h) H) L lost).
Proof.
  intros Hv. destruct (ts_handle t) as [h|] eqn:Et.
  - exists h, n, lost. split_and!; [done|by left|done|eapply owned_elem_sock; apply upd_eq|done].
  - destruct (set_add_ok _ _ _ _ tcp_new Hv) as (h&n'&E&Hv'&_). exists h, n', (h :: lost).
    rewrite on_fst_eq, E. split_and!; [done|right; eauto|done|apply owned_elem_lost; left|].
    intros n'' Hv''. rewrite <-(upd_some i h None). apply NInv_store; [apply upd_eq|done].
Qed.

Lemma connect_busy_ok i H L lost n t a r n' t' :
  NInv n (upd i (ts_handle t) H) L lost → v4 a → connect_busy a (n, t) = (r, (n', t')) →
  fine r ∧ (r ≠ Err AlreadyExists ∧ r ≠ Err WouldBlock) ∧
  match r with
  | Ok _ => is_Some (ts_handle t') ∧ keeps t t' ∧ NInv n' (upd i (ts_handle t') H) L lost
  | _ => t' = t ∧ ∃ lost', may_lose t lost lost' ∧ NInv n' (upd i (ts_handle t) H) L lost'
  end.
Proof.
  intros Hv Ha. unfold connect_busy. erewrite M_bind_ok by done. cbn [snd].
  destruct (connect_handle_ok _ _ _ _ _ _ Hv) as (h&n1&lost1&E&Hl&Hv1&Hh&Hst). erewrite M_bind_ok by exact E.
  destruct (from_core_sockaddr_ok a (n1, t) Ha) as (re&Ea&_). erewrite M_bind_ok by exact Ea.
  destruct (bound_endpoint_ok n1 t _ _ _ Hv1) as (n2&Hv2&Htb&[(b&Eb&_&_)|Eb]);
    [|erewrite M_bind_err by exact Eb; intros [= <- <- <-]; eauto 7].
  erewrite M_bind_ok by exact Eb.
  assert (h ∈ owned n2 (upd i (ts_handle t) H) lost1) as Hh2 by (unfold owned in *; by rewrite Htb).
  destruct (with_tcp_mut_ok _ _ _ _ _ (tcp_connect re b) Hv2 Hh2) as (c&n3&_&Em&Hv3&Ew&_).
  erewrite M_bind_ok by (rewrite on_fst_eq, Em; done). cbn [fst snd].
  destruct (tcp_connect re b c) as [c' [[]|]] eqn:Ec; cbn [fst snd] in *.
  - erewrite M_bind_err by done. intros [= <- <- <-]. eauto 7.
  - erewrite M_bind_err by done. intros [= <- <- <-]. eauto 7.
  - erewrite M_bind_ok by done. erewrite M_bind_ok by (rewrite on_fst_eq, Ew; done). cbn [fst snd].
    pose proof (tcp_connect_state re b c) as Hs. rewrite Ec in Hs. cbn in Hs. specialize (Hs eq_refl).
    destruct (tcp_endpoints c') as [[l El] [r' Er]]; [by rewrite Hs..|]. rewrite El, Er. cbn.
    intros [= <- <- <-]. cbn. split_and!; [done..|by eexists| |auto].
    intros h' Hh'. cbn. rewrite Hh' in E. cbn in E. injection E as -> _. done.
Qed.

Lemma connect_begin_ok i H L lost n t a r n' t' :
  TI i H L lost n t → v4 a → connect_begin a (n, t) = (r, (n', t')) →
  fine r ∧ keeps t t' ∧ (∃ lost', TI i H L lost' n' t' ∧
    match r with
    | Ok _ => lost' = lost ∧ ts_state t' = STATE_CONNECTING
    | Err AlreadyExists | Err WouldBlock => lost' = lost
    | _ => may_lose t lost lost'
    end).
Proof.
  intros Ht Ha. unfold connect_begin. rewrite update_state_eq. destruct (_ =? _) eqn:Es.
  - bool_to_prop. pose proof (TI_not_listening _ _ _ _ _ _ _ Ht Es ltac:(done)) as Hv.
    destruct (connect_busy a _) as [r1 [n1 t1]] eqn:E.
    destruct (connect_busy_ok i H (upd i None L) lost n (with_state STATE_BUSY t) _ _ _ _ Hv Ha E) as (Hf&[Hne Hne']&Hr).
    destruct r1 as [u|e| |]; [| |by destruct Hf..].
    + intros [= <- <- <-]. destruct Hr as (Hh&Hk&Hv'). split_and!; [done|exact Hk|]. exists lost. split; [|done].
      split; [exact Hv'|]. split; [by auto|]. done.
    + destruct Hr as [-> (lost'&Hm&Hv')]. intros [= <- <- <-]. split_and!; [done|auto|]. exists lost'. split; [by apply TI_closed|].
      by destruct e.
  - intros [= <- <- <-]. split_and!; [done..|]. by exists lost.
Qed.

(** ** Turns of blocking calls *)

Definition spec {A} i H L lost (t : TcpSocket) (f : TM A) (Q : res AxError A → Net → TcpSocket → Prop) : Prop :=
  ∀ n r n' t', TI i H L lost n t → f (n, t) = (r, (n', t')) → Q r n' t'.

Lemma poll_TI i H L lost n t :
  TI i H L lost n t → ∃ n', on_fst poll_interfaces (n, t) = (Ok (E := AxError) tt, (n', t)) ∧ TI i H L lost n' t.
Proof. intros [Hv Hok]. destruct (poll_ok _ _ _ _ Hv) as (n'&E&Hv'). exists n'. by rewrite on_fst_eq, E. Qed.
Lemma spec_turn {A} i H L lost t (f : TM A) Q : spec i H L lost t f Q → spec i H L lost t (block_turn f) Q.
Proof.
  intros Hf n r n' t' Ht. destruct (poll_TI _ _ _ _ _ _ Ht) as (n1&E&Ht1). unfold block_turn.
  erewrite M_bind_ok by exact E. by apply Hf.
Qed.

Lemma spec_attempt {A} (turn : bool) i H L lost t (f : TM A) Q :
  spec i H L lost t f Q → spec i H L lost t (if turn then block_turn f else f) Q.
Proof. destruct turn; [apply spec_turn|done]. Qed.

Lemma TI_owned i H L lost n t h : TI i H L lost n t → ts_handle t = Some h → h ∈ owned n (upd i (ts_handle t) H) lost.
Proof. intros _ Hh. eapply owned_elem_sock. by rewrite upd_eq. Qed.

Lemma poll_connect_ok i H L lost t :
  ts_state t = STATE_CONNECTING →
  spec i H L lost t poll_connect (λ r n' t', ∃ p, r = Ok p ∧ TI i H L lost n' t' ∧ keeps t t' ∧ (writable p = false → t' = t)).
Proof.
  intros Hs n r n' t' Ht. destruct (proj2 (proj2 Ht)) as [h Hh]; [by left|].
  destruct (with_tcp_ok _ _ _ _ _ (proj1 Ht) (TI_owned _ _ _ _ _ _ _ Ht Hh)) as [c Hc].
  pose proof (TI_not_listening _ _ _ _ _ _ _ Ht Hs ltac:(done)) as Hv.
  unfold poll_connect. erewrite M_bind_ok by done. cbn [snd]. rewrite Hh. erewrite M_bind_ok by done.
  erewrite M_bind_ok by (rewrite on_fst_eq, Hc; done). cbn [fst snd].
  destruct (tcp_state c); intros [= <- <- <-]; eexists; (split; [done|]); split_and!;
    try done; auto; (split; [by cbn; rewrite ?Hh in *|]); split; cbn; auto; try (intros [|]; done).
Qed.

Lemma connect_try_ok i H L lost t :
  ts_state t = STATE_CONNECTING →
  spec i H L lost t connect_try (λ r n' t', fine r ∧ TI i H L lost n' t' ∧ keeps t t' ∧ (r = Err WouldBlock → t' = t)).
Proof.
  intros Hs n r n' t' Ht. unfold connect_try. destruct (poll_connect (n, t)) as [r1 [n1 t1]] eqn:E.
  destruct (poll_connect_ok _ _ _ _ _ Hs _ _ _ _ Ht E) as (p&->&Ht1&Hk&Hw). erewrite M_bind_ok by exact E.
  destruct (writable p) eqn:Ew; cbn [negb].
  - erewrite M_bind_ok by done. destruct (_ =? _); intros [= <- <- <-]; by split_and!.
  - intros [= <- <- <-]. split_and!; auto.
Qed.

Lemma accept_try_ok i H L lost t port :
  spec i H L lost t (accept_try port) (λ r n' t', t' = t ∧ r ≠ OutOfFuel ∧
    match r with
    | Ok s => ∃ h, ts_handle s = Some h ∧ ts_state s = STATE_CONNECTED ∧ TI i H L (h :: lost) n' t
    | Panic => closed_in_queue n'
    | _ => TI i H L lost n' t
    end).
Proof.
  intros n r n' t' Ht. unfold accept_try. destruct (table_accept port n) as [r1 n1] eqn:E.
  pose proof (table_accept_spec _ _ _ _ _ _ _ (proj1 Ht) E) as Hs. unfold accepts in Hs.
  destruct r1 as [[h [l a]]|e| |]; (erewrite M_bind_ok by (rewrite on_fst_eq, E; done)) ||
    (erewrite M_bind_err by (rewrite on_fst_eq, E; done)) ||
    (erewrite M_bind_panic by (rewrite on_fst_eq, E; done)) || idtac.
  - intros [= <- <- <-]. split_and!; [done..|]. exists h. split_and!; [done..|]. split; [|apply Ht].
    by eapply table_accept_inv; [apply Ht|].
  - intros [= <- <- <-]. split_and!; [done..|]. destruct (tcp_table n !! port); [|by destruct Hs as [_ ->]].
    destruct Hs as [(_&->&_)|[[? _]|(?&?&?&?&?&?&?&_)]]; done.
  - intros [= <- <- <-]. split_and!; [done..|]. destruct (tcp_table n !! port) as [e|] eqn:Ep; [|by destruct Hs].
    destruct Hs as [[? _]|[(_&->&?)|(?&?&?&?&?&?&?&_)]]; try done. by eexists _, _.
  - destruct (tcp_table n !! port); [|by destruct Hs]. destruct Hs as [[? _]|[[? _]|(?&?&?&?&?&?&?&_)]]; done.
Qed.

Lemma recv_try_ok i H L lost t h len :
  ts_handle t = Some h →
  spec i H L lost t (recv_try h len) (λ r n' t', fine r ∧ t' = t ∧ TI i H L lost n' t).
Proof.
  intros Hh n r n' t' Ht. pose proof (TI_owned _ _ _ _ _ _ _ Ht Hh) as Ho.
  destruct (with_tcp_ok _ _ _ _ _ (proj1 Ht) Ho) as [c Hc].
  unfold recv_try. erewrite M_bind_ok by (rewrite on_fst_eq, Hc; done). cbn [fst snd].
  destruct (negb _); [by intros [= <- <- <-]; split_and!; try apply Ht|].
  destruct (negb _); [by intros [= <- <- <-]; split_and!; try apply Ht|].
  destruct (_ <? _); [|by intros [= <- <- <-]; split_and!; try apply Ht].
  destruct (with_tcp_mut_ok _ _ _ _ _ (tcp_recv_slice len) (proj1 Ht) Ho) as (c'&n1&_&Em&Hv&_).
  erewrite M_bind_ok by (rewrite on_fst_eq, Em; done). cbn [fst snd].
  destruct (tcp_recv_slice len c').2; intros [= <- <- <-]; split_and!; try done; split; try done; apply Ht.
Qed.
Lemma send_try_ok i H L lost t h buf :
  ts_handle t = Some h →
  spec i H L lost t (send_try h buf) (λ r n' t', fine r ∧ t' = t ∧ TI i H L lost n' t).
Proof.
  intros Hh n r n' t' Ht. pose proof (TI_owned _ _ _ _ _ _ _ Ht Hh) as Ho.
  destruct (with_tcp_ok _ _ _ _ _ (proj1 Ht) Ho) as [c Hc].
  unfold send_try. erewrite M_bind_ok by (rewrite on_fst_eq, Hc; done). cbn [fst snd].
  destruct (_ || _)%bool; [by intros [= <- <- <-]; split_and!; try apply Ht|].
  destruct (tcp_can_send c); [|by intros [= <- <- <-]; split_and!; try apply Ht].
  destruct (with_tcp_mut_ok _ _ _ _ _ (tcp_send_slice buf) (proj1 Ht) Ho) as (c'&n1&_&Em&Hv&_).
  erewrite M_bind_ok by (rewrite on_fst_eq, Em; done). cbn [fst snd].
  destruct (tcp_send_slice buf c').2; intros [= <- <- <-]; split_and!; try done; split; try done; apply Ht.
Qed.
Lemma stream_begin_ok n t H L lost i :
  TI i H L lost n t →
  ∃ r, stream_begin (n, t) = (r, (n, t)) ∧ fine r ∧ ∀ h, r = Ok h → ts_handle t = Some h.
Proof.
  intros Ht. unfold stream_begin. erewrite M_bind_ok by done. cbn [snd]. destruct (_ =? _); [by eexists|].
  destruct (ts_state t =? STATE_CONNECTED) eqn:E; cbn [negb]; [|by eexists]. bool_to_prop.
  destruct (proj2 (proj2 Ht)) as [h Hh]; [by right|]. erewrite M_bind_ok by done. cbn [snd]. rewrite Hh.
  eexists. split; [done|]. split; [done|]. congruence.
Qed.

(** ** [shutdown], [drop] and [poll] *)

Lemma shutdown_stream_ok i H L lost n t n' t' r :
  NInv n (upd i (ts_handle t) H) L lost → is_Some (ts_handle t) → shutdown_stream (n, t) = (r, (n', t')) →
  r = Ok tt ∧ ts_handle t' = ts_handle t ∧ NInv n' (upd i (ts_handle t) H) L lost.
Proof.
  intros Hv [h Hh]. assert (h ∈ owned n (upd i (ts_handle t) H) lost) as Ho.
  { eapply owned_elem_sock. by rewrite upd_eq. }
  destruct (with_tcp_mut_ok _ _ _ _ _ (λ c, (tcp_close c, tt)) Hv Ho) as (c&n1&_&Em&Hv1&_).
  destruct (poll_ok _ _ _ _ Hv1) as (n2&Ep&Hv2).
  unfold shutdown_stream. erewrite M_bind_ok by done. cbn [snd]. rewrite Hh. erewrite M_bind_ok by done.
  erewrite M_bind_ok by (rewrite on_fst_eq, Em; done). cbn [fst snd]. erewrite M_bind_ok by done.
  rewrite on_fst_eq. cbn [fst snd]. rewrite Ep. intros [= <- <- <-]. cbn. rewrite Hh in *. done.
Qed.
Lemma shutdown_listener_ok i H L lost n t n' t' r :
  NInv n (upd i (ts_handle t) H) (upd i (Some (ep_port (ts_local t))) L) lost → shutdown_listener (n, t) = (r, (n', t')) →
  r = Ok tt ∧ ts_handle t' = ts_handle t ∧ NInv n' (upd i (ts_handle t) H) (upd i None L) lost.
Proof.
  intros Hv. destruct (unlisten_ok _ _ _ _ _ _ Hv (upd_eq _ _ _)) as (n1&E&Hv1). rewrite upd_none in Hv1.
  destruct (poll_ok _ _ _ _ Hv1) as (n2&Ep&Hv2).
  unfold shutdown_listener. erewrite M_bind_ok by done. cbn [snd]. cbn zeta. erewrite M_bind_ok by done.
  erewrite M_bind_ok by (rewrite on_fst_eq; cbn [fst]; rewrite E; done). cbn [fst snd].
  rewrite on_fst_eq. cbn [fst snd]. rewrite Ep. by intros [= <- <- <-].
Qed.

Lemma shutdown_ok i H L lost n t r n' t' :
  TI i H L lost n t → tcp_socket_shutdown (n, t) = (r, (n', t')) →
  r = Ok tt ∧ TI i H L lost n' t' ∧ keeps t t' ∧
  (ts_state t' = STATE_CLOSED ∨ t' = t ∧ ts_state t = STATE_CONNECTING).
Proof.
  intros Ht. unfold tcp_socket_shutdown.
  assert (∃ n1 t1, unwrap_or (update_state STATE_CONNECTED STATE_CLOSED shutdown_stream) (inr tt) (n, t) = (Ok tt, (n1, t1)) ∧
    TI i H L lost n1 t1 ∧ keeps t t1 ∧ (ts_state t1 = STATE_CLOSED ∨ t1 = t ∧ ts_state t ≠ STATE_CONNECTED))
    as (n1&t1&E&Ht1&Hk&Hs).
  { rewrite update_state_eq. destruct (_ =? _) eqn:Es; bool_to_prop; [|by exists n, t; split_and!; auto].
    pose proof (TI_not_listening _ _ _ _ _ _ _ Ht Es ltac:(done)) as Hv.
    destruct (shutdown_stream _) as [r1 [n1 t1]] eqn:E.
    eapply shutdown_stream_ok in E as (->&Ht1&Hv1); [|exact Hv|apply Ht; by right].
    exists n1, (with_state STATE_CLOSED t1). split_and!; [done| | |by left].
    - apply TI_closed. by rewrite Ht1.
    - unfold keeps. cbn. by rewrite Ht1. }
  erewrite M_bind_ok by exact E. rewrite update_state_eq. destruct (_ =? _) eqn:Es; bool_to_prop.
  - destruct (shutdown_listener _) as [r2 [n2 t2]] eqn:E2. destruct Ht1 as [Hv1 Hok1]. unfold listening in Hv1.
    rewrite Es, Z.eqb_refl in Hv1. eapply shutdown_listener_ok in E2 as (->&Ht2&Hv2); [|exact Hv1].
    intros [= <- <- <-]. split_and!; [done|..|by left].
    + apply TI_closed. by rewrite Ht2.
    + intros h Hh. cbn. rewrite Ht2. by apply Hk.
  - intros [= <- <- <-]. split_and!; [done..|]. destruct Hs as [?|[-> ?]]; [by left|].
    destruct (proj1 (proj2 Ht1)) as [?|[?|[?|?]]]; auto; done.
Qed.

Lemma drop_ok i H L lost n t r n' t' :
  TI i H L lost n t → tcp_socket_drop (n, t) = (r, (n', t')) →
  r = Ok tt ∧ NInv n' (upd i None H) (upd i None L) lost.
Proof.
  intros Ht. unfold tcp_socket_drop. destruct (tcp_socket_shutdown (n, t)) as [r1 [n1 t1]] eqn:E.
  destruct (shutdown_ok _ _ _ _ _ _ _ _ _ Ht E) as (->&Ht1&_&Hs).
  erewrite M_bind_ok by (unfold catch; rewrite E; done). erewrite M_bind_ok by done. cbn [snd].
  assert (NInv n1 (upd i (ts_handle t1) H) (upd i None L) lost) as Hv.
  { destruct Hs as [Hs|[-> Hs]]; by eapply TI_not_listening. }
  destruct (ts_handle t1) as [h|]; [|by intros [= <- <- <-]].
  rewrite <-(upd_some i h None) in Hv. apply NInv_store in Hv; [|apply upd_eq].
  destruct (set_remove_ok _ _ _ _ _ Hv) as (n2&E2&Hv2&_). rewrite on_fst_eq, E2. by intros [= <- <- <-].
Qed.

Lemma table_can_accept_ok n H L lost p :
  NInv n H L lost → ∃ r, table_can_accept p n = (r, n) ∧ fine r ∧
    match tcp_table n !! p with
    | Some e => ∃ b, r = Ok b ∧ (b = true ↔ ∃ h, h ∈ syn_queue e ∧ ready n h)
    | None => r = Err InvalidInput
    end.
Proof.
  intros Hv. unfold table_can_accept. erewrite M_bind_ok by done. destruct (tcp_table n !! p) as [e|] eqn:Ep; [|by eexists].
  destruct (any_connected_ok n H L lost (syn_queue e)) as (b&E&Hb); [done|intros; by eapply owned_elem_queue|].
  rewrite E. eexists. split; [done|]. split; [done|]. exists b. split; [done|]. destruct b; [done|].
  split; [done|]. intros (h&?&?). by edestruct Hb.
Qed.
Lemma poll_ok' i H L lost t :
  spec i H L lost t tcp_socket_poll (λ r n' t', fine r ∧ TI i H L lost n' t' ∧ keeps t t').
Proof.
  intros n r n' t' Ht. unfold tcp_socket_poll. erewrite M_bind_ok by done. cbn [snd].
  destruct (ts_state t =? STATE_CONNECTING) eqn:E1; bool_to_prop.
  { intros E. destruct (poll_connect_ok _ _ _ _ _ E1 _ _ _ _ Ht E) as (p&->&?&?&_). done. }
  destruct (ts_state t =? STATE_CONNECTED) eqn:E2; bool_to_prop.
  { destruct (proj2 (proj2 Ht)) as [h Hh]; [by right|].
    destruct (with_tcp_ok _ _ _ _ _ (proj1 Ht) (TI_owned _ _ _ _ _ _ _ Ht Hh)) as [c Hc].
    unfold poll_stream. erewrite M_bind_ok by done. cbn [snd]. rewrite Hh. erewrite M_bind_ok by done.
    erewrite M_bind_ok by (rewrite on_fst_eq, Hc; done). by intros [= <- <- <-]. }
  destruct (ts_state t =? STATE_LISTENING) eqn:E3; [|by intros [= <- <- <-]].
  unfold poll_listener. erewrite M_bind_ok by done. cbn [snd].
  destruct (table_can_accept_ok n _ _ _ (ep_port (ts_local t)) (proj1 Ht)) as (r1&E&Hf&_).
  destruct r1 as [b|e| |]; [| |by destruct Hf..].
  - erewrite M_bind_ok by (rewrite on_fst_eq, E; done). by intros [= <- <- <-].
  - erewrite M_bind_err by (rewrite on_fst_eq, E; done). by intros [= <- <- <-].
Qed.
End props.
