(* ===== verification/SmolModel.v ===== *)
(** * A small network stack

    An instance of the interface of the third-party stack, which meets its documented
    behaviour: a socket set of slots that are used again, TCP sockets with a state and two
    buffers, UDP sockets with queues of datagrams.  The packets to come and what they do to
    the sockets are given in advance. *)

From Stdlib Require Import ZArith Lia.
From stdpp Require Import base decidable numbers gmap list.
From S2P Require Import Prelude LinkedList Vfs NetStack.

Local Open Scope Z_scope.

Record DemoTcp : Set := {
  k_state : TcpState; k_local : IpEndpoint; k_remote : IpEndpoint; k_rx : list Z; k_tx : list Z }.
Record DemoUdp : Set := {
  u_bound : option IpListenEndpoint; u_rx : list (list Z * IpEndpoint); u_tx : list (list Z * IpEndpoint) }.

Definition demo_closed : DemoTcp :=
  {| k_state := Closed; k_local := UNSPECIFIED_ENDPOINT; k_remote := UNSPECIFIED_ENDPOINT; k_rx := []; k_tx := [] |}.
Definition demo_set_state (x : TcpState) (c : DemoTcp) : DemoTcp :=
  {| k_state := x; k_local := k_local c; k_remote := k_remote c; k_rx := k_rx c; k_tx := k_tx c |}.
Definition demo_open (c : DemoTcp) : bool :=
  match k_state c with Closed | Listen => false | _ => true end.
Definition demo_may (c : DemoTcp) : bool :=
  match k_state c with Established => true | _ => false end.
Definition demo_ip : IpAddress := Ipv4 (10, 0, 2, 15).
Definition demo_connect (r : IpEndpoint) (l : IpListenEndpoint) (c : DemoTcp) : DemoTcp * option ConnectError :=
  if demo_open c || bool_decide (k_state c = Listen) then (c, Some ConnectInvalidState)
  else if (ep_port r =? 0) || is_unspecified (ep_addr r) || (le_port l =? 0) then (c, Some ConnectUnaddressable)
  else ({| k_state := SynSent; k_local := {| ep_addr := default demo_ip (le_addr l); ep_port := le_port l |};
           k_remote := r; k_rx := []; k_tx := [] |}, None).
Definition demo_listen (l : IpListenEndpoint) (c : DemoTcp) : DemoTcp * bool :=
  if (le_port l =? 0) || demo_open c then (c, false)
  else ({| k_state := Listen; k_local := {| ep_addr := default demo_ip (le_addr l); ep_port := le_port l |};
           k_remote := UNSPECIFIED_ENDPOINT; k_rx := []; k_tx := [] |}, true).
Definition demo_close (c : DemoTcp) : DemoTcp :=
  match k_state c with
  | Listen | SynSent => demo_set_state Closed c
  | SynReceived | Established => demo_set_state FinWait1 c
  | CloseWait => demo_set_state LastAck c
  | _ => c
  end.

#[export] Instance demo_sockets : SmolSockets := {|
  TcpSock := DemoTcp;
  tcp_new := demo_closed;
  tcp_state := k_state;
  tcp_local_endpoint c := if demo_open c then Some (k_local c) else None;
  tcp_remote_endpoint c := if demo_open c then Some (k_remote c) else None;
  tcp_connect := demo_connect;
  tcp_listen := demo_listen;
  tcp_close := demo_close;
  tcp_is_active c := demo_open c;
  tcp_may_recv := demo_may;
  tcp_may_send := demo_may;
  tcp_can_recv c := demo_may c && negb (bool_decide (k_rx c = []));
  tcp_can_send c := demo_may c;
  tcp_recv_queue c := Z.of_nat (length (k_rx c));
  tcp_recv_slice len c :=
    if demo_may c then
      ({| k_state := k_state c; k_local := k_local c; k_remote := k_remote c;
          k_rx := drop (Z.to_nat len) (k_rx c); k_tx := k_tx c |}, Some (take (Z.to_nat len) (k_rx c)))
    else (c, None);
  tcp_send_slice buf c :=
    if demo_may c then
      ({| k_state := k_state c; k_local := k_local c; k_remote := k_remote c;
          k_rx := k_rx c; k_tx := k_tx c ++ buf |}, Some (Z.of_nat (length buf)))
    else (c, None);
  UdpSock := DemoUdp;
  udp_new := {| u_bound := None; u_rx := []; u_tx := [] |};
  udp_bind l u :=
    if le_port l =? 0 then (u, Some BindUnaddressable)
    else match u_bound u with
         | Some _ => (u, Some BindInvalidState)
         | None => ({| u_bound := Some l; u_rx := u_rx u; u_tx := u_tx u |}, None)
         end;
  udp_close u := {| u_bound := None; u_rx := []; u_tx := [] |};
  udp_can_send u := true;
  udp_can_recv u := negb (bool_decide (u_rx u = []));
  udp_send_slice buf e u :=
    match u_bound u with
    | Some _ => ({| u_bound := u_bound u; u_rx := u_rx u; u_tx := u_tx u ++ [(buf, e)] |}, None)
    | None => (u, Some SendUnaddressable)
    end;
  udp_recv_slice len u :=
    match u_rx u with
    | [] => (u, None)
    | (d, e) :: r => ({| u_bound := u_bound u; u_rx := r; u_tx := u_tx u |}, Some (take (Z.to_nat len) d, e))
    end;
  udp_peek_slice len u := match u_rx u with [] => None | (d, e) :: _ => Some (take (Z.to_nat len) d, e) end;
|}.

(** The slots. *)
Fixpoint slots_add (x : AnySocket) (s : list (option AnySocket)) : nat * list (option AnySocket) :=
  match s with
  | [] => (O, [Some x])
  | None :: r => (O, Some x :: r)
  | Some y :: r => let '(i, r) := slots_add x r in (S i, Some y :: r)
  end.
Definition slots_get (h : nat) (s : list (option AnySocket)) : option AnySocket := mjoin (s !! h).

#[export] Instance demo_net : SmolNet := {|
  SocketHandle := nat;
  SocketSet := list (option AnySocket);
  ss_new := [];
  ss_add := slots_add;
  ss_get := slots_get;
  ss_set h x s := if slots_get h s then <[h := Some x]> s else s;
  ss_remove h s := if slots_get h s then Some (<[h := None]> s) else None;
  ether_payload := Some;
  ipv4_packet l := Some {| ip_next_header := 6; ip_src := (10, 0, 2, 2); ip_dst := (10, 0, 2, 15); ip_payload := l |};
  tcp_packet l :=
    match l with
    | [p; s; a] => Some {| tp_src_port := 1; tp_dst_port := p; tp_syn := (s =? 1); tp_ack := (a =? 1) |}
    | _ => None
    end;
  World := list (list (list Z + (nat * (DemoTcp → DemoTcp) * (DemoUdp → DemoUdp))));
  NetEvent := list Z + (nat * (DemoTcp → DemoTcp) * (DemoUdp → DemoUdp));
  ev_view := id;
  poll_events w := match w with [] => ([], []) | e :: w => (e, w) end;
|}.

Lemma slots_add_ok x s :
  slots_get (slots_add x s).1 s = None ∧ slots_get (slots_add x s).1 (slots_add x s).2 = Some x ∧
  ∀ h, h ≠ (slots_add x s).1 → slots_get h (slots_add x s).2 = slots_get h s.
Proof.
  unfold slots_get. induction s as [|[y|] r IH]; cbn.
  - split_and!; [done..|]. by intros [|h].
  - destruct (slots_add x r) as [i r']. cbn in *. destruct IH as (H1&H2&H3). split_and!; [done..|].
    intros [|h] Hh; [done|]. cbn. apply H3. congruence.
  - split_and!; [done..|]. by intros [|h].
Qed.
Lemma slots_insert h h' o s :
  is_Some (slots_get h s) → slots_get h' (<[h := o]> s) = if decide (h = h') then o else slots_get h' s.
Proof.
  unfold slots_get. intros [x Hx]. case_decide; [subst h'|by rewrite list_lookup_insert_ne].
  rewrite list_lookup_insert_eq; [done|]. apply lookup_lt_is_Some. destruct (s !! h); [by eexists|done].
Qed.

#[export] Instance demo_spec : SmolSpec.
Proof.
  split; cbn.
  - intros h. by destruct h.
  - intros x s. apply slots_add_ok.
  - intros x s. apply slots_add_ok.
  - intros x s h. apply slots_add_ok.
  - intros h x s Hs. destruct (slots_get h s) eqn:E; [|by destruct Hs]. rewrite slots_insert, decide_True by (done || by rewrite E). done.
  - intros h h' x s Hne. destruct (slots_get h s) eqn:E; [|done]. by rewrite slots_insert, decide_False by (done || by rewrite E).
  - intros h s [x ->]. by eexists.
  - intros h s s'. destruct (slots_get h s) eqn:E; [|done]. intros [= <-]. by rewrite slots_insert, decide_True by (done || by rewrite E).
  - intros h h' s s'. destruct (slots_get h s) eqn:E; [|done]. intros [= <-] Hne.
    by rewrite slots_insert, decide_False by (done || by rewrite E).
  - intros r l c. unfold demo_connect. by repeat case_match.
  - intros c H1 H2. unfold demo_open. destruct (k_state c); done || (split; by eexists).
Qed.
