(* ===== verification/TcpSystem.v ===== *)
(** * The system of TCP sockets

    What holds in every state that tasks reach by calling the operations of TCP sockets, in
    any order, with other tasks' calls between the turns of a blocking call. *)

From Stdlib Require Import ZArith Lia.
From stdpp Require Import base decidable numbers gmap list.
From S2P Require Import Prelude LinkedList Vfs NetStack NetProps TcpSocket TcpProps SmolModel.

Local Open Scope Z_scope.

Section system.
Context `{SK : SmolSockets} `{N : !SmolNet} `{SP : !SmolSpec}.
Local Abbreviation TM := (M (Net * TcpSocket) AxError).

(** ** The invariant *)

Definition call_ok (socks : gmap nat TcpSocket) (c : Call) : Prop :=
  ∃ t, socks !! call_socket c = Some t ∧
    match c with
    | CConnect _ => ts_state t = STATE_CONNECTING
    | CAccept _ _ => True
    | CRecv _ h _ | CSend _ h _ => ts_handle t = Some h
    end.
(** The handles and ports of the client sockets, with [lost] the handles nobody holds. *)
Record YInv (y : TcpSys) (lost : list SocketHandle) : Prop := {
  yi_net : NInv (y_net y) (omap ts_handle (y_socks y)) (omap listening (y_socks y)) lost;
  yi_sock i t : y_socks y !! i = Some t → sock_ok t;
  yi_call k c : y_calls y !! k = Some c → call_ok (y_socks y) c;
  yi_one k k' i : y_calls y !! k = Some (CConnect i) → y_calls y !! k' = Some (CConnect i) → k = k';
}.

(** ** The operations considered

    IPv4 addresses only, and a socket on which a task waits in [connect] is left to that
    task (a turn of another waiting call on it apart). *)
Definition v4_op (o : TcpOp) : Prop := match o with OpBind _ a | OpConnect _ _ a => v4 a | _ => True end.
Definition op_socket (o : TcpOp) : option nat :=
  match o with
  | OpBind i _ | OpListen i | OpShutdown i | OpDrop i | OpPoll i | OpNonblocking i _
  | OpConnect _ i _ | OpAccept _ i _ | OpRecv _ i _ | OpSend _ i _ => Some i
  | OpNew _ | OpTurn _ _ | OpPollInterfaces => None
  end.
Definition connecting (i : nat) (y : TcpSys) : Prop := ∃ k, y_calls y !! k = Some (CConnect i).
Definition exclusive (o : TcpOp) (y : TcpSys) : Prop := ∀ i, op_socket o = Some i → ¬ connecting i y.
(** A call of [connect] that failed for another reason than that it was made before. *)
Definition failed (o : TcpOp) (r : res AxError unit) : nat :=
  match o, r with
  | OpConnect _ _ _, Err AlreadyExists | OpConnect _ _ _, Err WouldBlock => 0
  | OpConnect _ _ _, Err _ => 1
  | _, _ => 0
  end.
Definition accepting (o : TcpOp) (y : TcpSys) : Prop :=
  match o with
  | OpAccept _ _ _ => True
  | OpTurn k _ => ∃ i p, y_calls y !! k = Some (CAccept i p)
  | _ => False
  end.

(** The states of the system, with the number of failed calls of [connect]. *)
Inductive tcp_reach (w : World) : nat → TcpSys → Prop :=
| tr_init : tcp_reach w 0 (sys_init w)
| tr_step k y o r y' :
    tcp_reach w k y → exclusive o y → v4_op o → tcp_step o y = Some (r, y') → r ≠ Panic →
    tcp_reach w (failed o r + k) y'.

Lemma sys_init_inv w : YInv (sys_init w) [].
Proof. split; cbn; [rewrite !omap_empty; apply net_init_inv|done..]. Qed.

(** ** One operation *)

Local Abbreviation HS y := (omap ts_handle (y_socks y)).
Local Abbreviation LS y := (omap listening (y_socks y)).

Lemma YInv_TI y lost i t : YInv y lost → y_socks y !! i = Some t → TI i (HS y) (LS y) lost (y_net y) t.
Proof.
  intros Hy Hi. split; [|by eapply yi_sock]. rewrite <-!upd_fmap, insert_id by done. apply Hy.
Qed.
Lemma call_ok_insert socks i t t' c :
  call_ok socks c → socks !! i = Some t → keeps t t' → (c = CConnect i → ts_state t' = STATE_CONNECTING) →
  call_ok (<[i := t']> socks) c.
Proof.
  intros (s&Hs&Hc) Hi Hk Hcon. unfold call_ok. rewrite lookup_insert. case_decide as Hd; [|by exists s].
  exists t'. split; [done|]. assert (s = t) as -> by (rewrite <-Hd in Hs; congruence). destruct c; cbn in *; subst; auto.
Qed.
Lemma YInv_put y lost i t n' t' lost' :
  YInv y lost → y_socks y !! i = Some t → TI i (HS y) (LS y) lost' n' t' → keeps t t' →
  (connecting i y → ts_state t' = STATE_CONNECTING) →
  YInv {| y_net := n'; y_socks := <[i := t']> (y_socks y); y_calls := y_calls y |} lost'.
Proof.
  intros Hy Hi [Hv Hok] Hk Hcon. split; cbn.
  - by rewrite !upd_fmap.
  - intros j s. rewrite lookup_insert. case_decide; [by intros [= <-]|]. by eapply yi_sock.
  - intros k c Hc. eapply call_ok_insert; [by eapply yi_call|done..|]. intros ->. apply Hcon. by exists k.
  - apply Hy.
Qed.
Lemma YInv_same y lost i t n' lost' :
  YInv y lost → y_socks y !! i = Some t → TI i (HS y) (LS y) lost' n' t →
  YInv {| y_net := n'; y_socks := <[i := t]> (y_socks y); y_calls := y_calls y |} lost'.
Proof.
  intros Hy Hi Ht. eapply YInv_put; try done; [by intros h|]. intros [k Hk].
  destruct (yi_call _ _ Hy _ _ Hk) as (s&Hs&Hc). cbn in *. congruence.
Qed.
Lemma set_call_lookup y k c k' : y_calls (set_call k c y) !! k' = if decide (k = k') then c else y_calls y !! k'.
Proof. cbn. rewrite lookup_partial_alter. by case_decide. Qed.
Lemma YInv_call y lost k c :
  YInv y lost → (∀ d, c = Some d → call_ok (y_socks y) d ∧ ∀ i, d = CConnect i → ¬ connecting i y) → YInv (set_call k c y) lost.
Proof.
  intros Hy Hc. split; [apply Hy|apply Hy|..].
  - intros k' d. rewrite set_call_lookup. case_decide; [apply Hc|apply Hy].
  - intros k1 k2 i. rewrite !set_call_lookup. repeat case_decide; subst; try done; [..|apply Hy].
    + intros Hk Hk2. destruct (proj2 (Hc _ Hk) i); [done|]. by exists k2.
    + intros Hk1 Hk. destruct (proj2 (Hc _ Hk) i); [done|]. by exists k1.
Qed.

(** A socket that comes into being, with the handle it takes over. *)
Lemma call_ok_fresh socks j t c : call_ok socks c → socks !! j = None → call_ok (<[j := t]> socks) c.
Proof.
  intros (s&Hs&Hc) Hj. exists s. split; [|done]. rewrite lookup_insert_ne; [done|]. intros ->. congruence.
Qed.
Lemma YInv_add y lost j s h :
  YInv y (h :: lost) → y_socks y !! j = None → ts_handle s = Some h → ts_state s = STATE_CONNECTED →
  YInv (add_socket j s y) lost.
Proof.
  intros Hy Hj Hh Hs. split; cbn.
  - assert (listening s = None) as Hl by (unfold listening; by rewrite Hs). rewrite !upd_fmap, Hl, Hh.
    assert (∀ A (f : TcpSocket → option A), omap f (y_socks y) !! j = None) as Hn by (intros; by rewrite lookup_omap, Hj).
    replace (upd j None (LS y)) with (LS y) by (symmetry; apply upd_absent, Hn). apply NInv_store; [apply Hn|apply Hy].
  - intros i t. rewrite lookup_insert. case_decide; [|apply Hy]. intros [= <-]. split; [by rewrite Hs; auto|]. intros _. by eexists.
  - intros k c Hc. apply call_ok_fresh; [by eapply yi_call|done].
  - apply Hy.
Qed.
Lemma YInv_new y lost j : YInv y lost → y_socks y !! j = None → YInv (add_socket j TcpSocket_new y) lost.
Proof.
  intros Hy Hj. split; cbn.
  - rewrite !upd_fmap. assert (∀ A (f : TcpSocket → option A), upd j None (omap f (y_socks y)) = omap f (y_socks y)) as Hn.
    { intros. apply upd_absent. by rewrite lookup_omap, Hj. }
    cbn. rewrite !Hn. apply Hy.
  - intros i t. rewrite lookup_insert. case_decide; [|apply Hy]. intros [= <-]. split; [by left|]. intros [|]; done.
  - intros k c Hc. apply call_ok_fresh; [by eapply yi_call|done].
  - apply Hy.
Qed.
Lemma YInv_drop y lost i n' :
  YInv y lost → borrowed i y = false → NInv n' (upd i None (HS y)) (upd i None (LS y)) lost →
  YInv {| y_net := n'; y_socks := delete i (y_socks y); y_calls := y_calls y |} lost.
Proof.
  intros Hy Hb Hv. apply bool_decide_eq_false in Hb. split; cbn.
  - by rewrite !omap_delete.
  - intros j t [_ Hj]%lookup_delete_Some. by eapply yi_sock.
  - intros k c Hc. destruct (yi_call _ _ Hy _ _ Hc) as (t&Ht&Hm). exists t. split; [|done].
    rewrite lookup_delete_ne; [done|]. intros Hi. apply Hb. by exists k, c.
  - apply Hy.
Qed.

Lemma on_socket_inv {A} i (m : TM A) y r y' :
  on_socket i m y = Some (r, y') →
  ∃ t n' t', y_socks y !! i = Some t ∧ m (y_net y, t) = (r, (n', t')) ∧
    y' = {| y_net := n'; y_socks := <[i := t']> (y_socks y); y_calls := y_calls y |}.
Proof.
  unfold on_socket. destruct (y_socks y !! i) as [t|]; [|done]. cbn. destruct (m _) as [r1 [n' t']] eqn:E.
  intros [= <- <-]. by exists t, n', t'.
Qed.
Lemma done_inv {A} (x : option (res AxError A * TcpSys)) r y : done_ x = Some (r, y) → ∃ a, x = Some (a, y) ∧ r = void a.
Proof. unfold done_. destruct x as [[a y1]|]; [|done]. cbn. intros [= <- <-]. by exists a. Qed.
Lemma guard_inv {A} b (k : option A) x : (_ ← guard_ b; k) = Some x → b = true ∧ k = Some x.
Proof. destruct b; cbn; [done|intros [=]]. Qed.
Lemma fine_void {A} (r : res AxError A) : fine r → fine (void r).
Proof. unfold fine. destruct r; cbn; naive_solver. Qed.

(** A method that keeps the invariant of its socket. *)
Lemma on_socket_ok {A} i (m : TM A) y lost r y' :
  YInv y lost → ¬ connecting i y →
  (∀ t n' t' r, TI i (HS y) (LS y) lost (y_net y) t → m (y_net y, t) = (r, (n', t')) →
     fine r ∧ TI i (HS y) (LS y) lost n' t' ∧ keeps t t') →
  done_ (on_socket i m y) = Some (r, y') → fine r ∧ YInv y' lost.
Proof.
  intros Hy Hn Hm (a&E&->)%done_inv. apply on_socket_inv in E as (t&n'&t'&Hi&E&->).
  destruct (Hm _ _ _ _ (YInv_TI _ _ _ _ Hy Hi) E) as (Hf&Ht&Hk). split; [by apply fine_void|]. by eapply YInv_put.
Qed.

(** One attempt of a call that is not [connect]. *)
Lemma call_try_ok turn c j y lost r y' :
  YInv y lost → call_ok (y_socks y) c → (∀ i, c ≠ CConnect i) → (∀ i p, c = CAccept i p → y_socks y !! j = None) →
  call_try turn c j y = Some (r, y') →
  y_calls y' = y_calls y ∧ r ≠ OutOfFuel ∧
  match r with Panic => (∃ i p, c = CAccept i p) ∧ closed_in_queue (y_net y') | _ => YInv y' lost end.
Proof.
  intros Hy (t0&Ht0&Hc) Hno Hj. destruct c as [i|i p|i h len|i h buf]; cbn [call_try call_socket] in *.
  - by destruct (Hno i).
  - unfold accept_done. destruct (on_socket i _ y) as [[a y1]|] eqn:E; [|done]. cbn. intros [= <- <-].
    apply on_socket_inv in E as (t&n'&t'&Hi&E&->). pose proof (YInv_TI _ _ _ _ Hy Hi) as Ht.
    destruct (spec_attempt turn _ _ _ _ _ _ _ (accept_try_ok _ _ _ _ _ p) _ _ _ _ Ht E) as (->&Hf&Hr). destruct a as [s|e| |]; cbn; [..|done].
    + destruct Hr as (h&Hh&Hst&Hti). split_and!; [done..|]. eapply YInv_add; [|cbn; specialize (Hj _ _ eq_refl); by rewrite lookup_insert_ne by congruence|done..].
      by eapply YInv_same.
    + split_and!; [done..|]. by eapply YInv_same.
    + split_and!; [done..| |done]. by exists i, p.
  - intros (a&E&->)%done_inv. apply on_socket_inv in E as (t&n'&t'&Hi&E&->). pose proof (YInv_TI _ _ _ _ Hy Hi) as Ht.
    assert (t0 = t) as -> by congruence.
    destruct (spec_attempt turn _ _ _ _ _ _ _ (recv_try_ok _ _ _ _ _ _ _ Hc) _ _ _ _ Ht E) as (Hf&->&Hr). split; [done|]. destruct a; try (by destruct Hf);
      cbn; (split; [done|]); by eapply YInv_same.
  - intros (a&E&->)%done_inv. apply on_socket_inv in E as (t&n'&t'&Hi&E&->). pose proof (YInv_TI _ _ _ _ Hy Hi) as Ht.
    assert (t0 = t) as -> by congruence.
    destruct (spec_attempt turn _ _ _ _ _ _ _ (send_try_ok _ _ _ _ _ _ _ Hc) _ _ _ _ Ht E) as (Hf&->&Hr). split; [done|]. destruct a; try (by destruct Hf);
      cbn; (split; [done|]); by eapply YInv_same.
Qed.
Lemma connect_turn_ok k i j y lost r y' :
  YInv y lost → y_calls y !! k = Some (CConnect i) → call_try true (CConnect i) j y = Some (r, y') →
  fine r ∧ YInv (match r with Err WouldBlock => y' | _ => set_call k None y' end) lost.
Proof.
  intros Hy Hk. cbn. intros (a&E&->)%done_inv. apply on_socket_inv in E as (t&n'&t'&Hi&E&->).
  destruct (yi_call _ _ Hy _ _ Hk) as (s&Hs&Hst). cbn in Hs, Hst. assert (s = t) as -> by congruence.
  pose proof (YInv_TI _ _ _ _ Hy Hi) as Ht.
  destruct (spec_turn _ _ _ _ _ _ _ (connect_try_ok _ _ _ _ _ Hst) _ _ _ _ Ht E) as (Hf&Ht'&Hkp&Hw).
  split; [by apply fine_void|]. assert (a = Err WouldBlock ∨ a ≠ Err WouldBlock) as [->|Hne] by (destruct a as [|[]| |]; auto).
  { rewrite Hw in * by done. by eapply YInv_same. }
  assert (YInv (set_call k None {| y_net := n'; y_socks := <[i := t']> (y_socks y); y_calls := y_calls y |}) lost) as Hd.
  { assert (YInv (set_call k None y) lost) as Hy0 by by apply YInv_call.
    eapply (YInv_put _ _ i t n' t' lost Hy0); try done. intros [k' Hk']. rewrite set_call_lookup in Hk'.
    case_decide; [done|]. by destruct (yi_one _ _ Hy _ _ _ Hk Hk'). }
  destruct a as [|[]| |]; done.
Qed.

(** A call that enters its loop. *)
Lemma begin_call_ok {A} k i (m : TM A) c j y lost r y' :
  YInv y lost → y_calls y !! k = None →
  (∀ t, y_socks y !! i = Some t → ∃ r, m (y_net y, t) = (r, (y_net y, t)) ∧ fine r ∧ ∀ a, r = Ok a → call_ok (y_socks y) (c a)) →
  (∀ a i, c a ≠ CConnect i) → (∀ a i p, c a = CAccept i p → y_socks y !! j = None) →
  begin_call k i m c j y = Some (r, y') →
  r ≠ OutOfFuel ∧ match r with Panic => (∃ a i p, c a = CAccept i p) ∧ closed_in_queue (y_net y') | _ => YInv y' lost end.
Proof.
  intros Hy Hk Hm Hno Hj. unfold begin_call.
  destruct (on_socket i _ y) as [[r1 y1]|] eqn:E; [|done]. cbn.
  apply on_socket_inv in E as (t&n'&t'&Hi&E&->). destruct (Hm _ Hi) as (r2&Em&Hf&Hc).
  assert ({| y_net := y_net y; y_socks := <[i := t]> (y_socks y); y_calls := y_calls y |} = y) as Hid.
  { rewrite insert_id by done. by destruct y. }
  destruct r2 as [a|e| |]; [| |by destruct Hf..].
  - erewrite M_bind_ok in E by exact Em. cbn in E. injection E as <- <- <-. rewrite Hid. destruct (ts_nonblock t).
    + intros E. eapply call_try_ok in E as (_&Ho&Hr); [|done|by apply Hc|apply Hno|by intros; eapply Hj]. split; [done|].
      destruct r; try done. destruct Hr as [(i'&p&?) ?]. split; [by exists a, i', p|done].
    + intros [= <- <-]. split; [done|]. apply YInv_call; [done|]. intros d [= <-]. split; [by apply Hc|].
      intros i' Hi'. by destruct (Hno a i').
  - erewrite M_bind_err in E by exact Em. injection E as <- <- <-. rewrite Hid. by intros [= <- <-].
Qed.

(** What every operation does to the system. *)
Definition step_post (o : TcpOp) (y : TcpSys) (lost : list SocketHandle) (r : res AxError unit) (y' : TcpSys) : Prop :=
  r ≠ OutOfFuel ∧ (r = Panic → accepting o y ∧ closed_in_queue (y_net y')) ∧
  (r ≠ Panic → ∃ lost', (length lost' ≤ failed o r + length lost)%nat ∧ YInv y' lost').
Lemma fine_post o y lost r y' : fine r → YInv y' lost → step_post o y lost r y'.
Proof. intros [Hp Ho] Hy. split_and!; [done|done|]. intros _. exists lost. split; [lia|done]. Qed.
Lemma call_post o y lost r y' :
  r ≠ OutOfFuel → match r with Panic => accepting o y ∧ closed_in_queue (y_net y') | _ => YInv y' lost end →
  step_post o y lost r y'.
Proof.
  intros Ho Hr. split; [done|]. split; [by intros ->|]. intros Hp. exists lost. split; [lia|]. by destruct r.
Qed.

Lemma connect_step_ok k i a y lost r y' :
  YInv y lost → ¬ connecting i y → v4 a → tcp_step (OpConnect k i a) y = Some (r, y') →
  step_post (OpConnect k i a) y lost r y'.
Proof.
  intros Hy Hex Ha. cbn [tcp_step]. intros [_ E0]%guard_inv.
  destruct (on_socket i _ y) as [[r1 y1]|] eqn:E; [|done]. cbn in E0.
  apply on_socket_inv in E as (t&n'&t'&Hi&E&->). pose proof (YInv_TI _ _ _ _ Hy Hi) as Ht.
  destruct (connect_begin a (y_net y, t)) as [r2 [n2 t2]] eqn:Ec.
  destruct (connect_begin_ok _ _ _ _ _ _ _ _ _ _ Ht Ha Ec) as (Hf&Hk&lost'&Ht2&Hr).
  destruct r2 as [u|e| |]; [| |by destruct Hf..].
  - erewrite M_bind_ok in E by exact Ec. cbn in E. injection E as <- <- <-. destruct Hr as [-> Hs].
    assert (YInv {| y_net := n2; y_socks := <[i := t2]> (y_socks y); y_calls := y_calls y |} lost) as Hy2 by by eapply YInv_put.
    destruct (ts_nonblock t2); injection E0 as <- <-; apply fine_post; try done. apply YInv_call; [done|].
    intros d [= <-]. split; [|by intros i' [= <-]]. exists t2. cbn. by rewrite lookup_insert_eq.
  - erewrite M_bind_err in E by exact Ec. injection E as <- <- <-. injection E0 as <- <-. cbn [void].
    assert (YInv {| y_net := n2; y_socks := <[i := t2]> (y_socks y); y_calls := y_calls y |} lost') as Hy2 by by eapply YInv_put.
    split; [done|]. split; [done|]. intros _. exists lost'. split; [|done].
    destruct e; (subst lost'; cbn; lia) || (destruct Hr as [->|[_ [h ->]]]; cbn; lia).
Qed.

Lemma drop_step_ok i y lost r y' :
  YInv y lost → tcp_step (OpDrop i) y = Some (r, y') → step_post (OpDrop i) y lost r y'.
Proof.
  intros Hy. cbn [tcp_step]. intros [Hb E0]%guard_inv. apply negb_true_iff in Hb.
  destruct (on_socket i _ y) as [[r1 y1]|] eqn:E; [|done]. cbn in E0. injection E0 as <- <-.
  apply on_socket_inv in E as (t&n'&t'&Hi&E&->). destruct (drop_ok _ _ _ _ _ _ _ _ _ (YInv_TI _ _ _ _ Hy Hi) E) as [-> Hv].
  apply fine_post; [done|]. unfold drop_socket. cbn. rewrite delete_insert_eq. by apply YInv_drop.
Qed.
Lemma turn_step_ok k j y lost r y' :
  YInv y lost → tcp_step (OpTurn k j) y = Some (r, y') → step_post (OpTurn k j) y lost r y'.
Proof.
  intros Hy. cbn [tcp_step]. intros [Hj E0]%guard_inv. apply bool_decide_eq_true in Hj.
  destruct (y_calls y !! k) as [c|] eqn:Ek; [|done]. cbn in E0.
  destruct (call_try true c j y) as [[r1 y1]|] eqn:E; [|done]. cbn in E0. injection E0 as <- <-.
  assert ((∃ i, c = CConnect i) ∨ ∀ i, c ≠ CConnect i) as [[i ->]|Hno] by (destruct c; eauto; right; done).
  { destruct (connect_turn_ok _ _ _ _ _ _ _ Hy Ek E) as [Hf Hy1]. by apply fine_post. }
  eapply call_try_ok in E as (Ec&Ho&Hr); [|done|by eapply yi_call|done|done].
  apply call_post; [done|]. destruct r1 as [|e| |]; [by apply YInv_call| |cbn; rewrite Ek|done].
  - destruct e; try (by apply YInv_call). done.
  - destruct Hr as [(i&p&->) ?]. split; [by exists i, p|done].
Qed.
Lemma tcp_step_ok o y lost r y' :
  YInv y lost → exclusive o y → v4_op o → tcp_step o y = Some (r, y') → step_post o y lost r y'.
Proof.
  intros Hy Hex Ha. assert (∀ i, op_socket o = Some i → ¬ connecting i y) as Hn by done. destruct o; cbn in Hn, Ha.
  - cbn. intros [Hj E]%guard_inv. apply bool_decide_eq_true in Hj. injection E as <- <-. apply fine_post; [done|]. by apply YInv_new.
  - intros E. eapply (on_socket_ok i) in E as [? ?]; [by apply fine_post|done|auto|]. intros. by eapply bind_ok.
  - intros E. eapply (on_socket_ok i) in E as [? ?]; [by apply fine_post|done|auto|]. intros. by eapply listen_ok.
  - intros E. eapply (on_socket_ok i) in E as [? ?]; [by apply fine_post|done|auto|]. intros t n' t' r1 Ht E1.
    by destruct (shutdown_ok _ _ _ _ _ _ _ _ _ Ht E1) as (->&?&?&_).
  - by apply drop_step_ok.
  - intros E. eapply (on_socket_ok i) in E as [? ?]; [by apply fine_post|done|auto|]. intros t n' t' r1 Ht E1.
    by eapply poll_ok'.
  - intros E. eapply (on_socket_ok i) in E as [? ?]; [by apply fine_post|done|auto|].
    intros t n' t' r1 [Hv Hok] [= <- <- <-]. split_and!; [done| |by intros ?]. split; done.
  - apply connect_step_ok; auto.
  - cbn [tcp_step]. intros [Hg E]%guard_inv. apply andb_true_iff in Hg as [Hk Hj].
    apply bool_decide_eq_true in Hk, Hj. apply begin_call_ok with (lost := lost) in E as [Ho Hr]; [|done..| |done|done].
    { apply call_post; [done|]. destruct r; try done. split; [done|apply Hr]. }
    intros s Hs. unfold accept_begin. erewrite M_bind_ok by done. cbn [snd]. destruct (negb _); [by eexists|].
    eexists. split; [done|]. split; [done|]. intros a _. by exists s.
  - cbn [tcp_step]. intros [Hk E]%guard_inv. apply bool_decide_eq_true in Hk.
    apply begin_call_ok with (lost := lost) in E as [Ho Hr]; [|done..| |done|done].
    { apply call_post; [done|]. destruct r; try done. by destruct Hr as [(?&?&?&?) _]. }
    intros s Hs. destruct (stream_begin_ok _ _ _ _ _ _ (YInv_TI _ _ _ _ Hy Hs)) as (r1&E1&Hf&Hh). exists r1.
    split_and!; [done..|]. intros h Hr. exists s. split; [done|]. by apply Hh.
  - cbn [tcp_step]. intros [Hk E]%guard_inv. apply bool_decide_eq_true in Hk.
    apply begin_call_ok with (lost := lost) in E as [Ho Hr]; [|done..| |done|done].
    { apply call_post; [done|]. destruct r; try done. by destruct Hr as [(?&?&?&?) _]. }
    intros s Hs. destruct (stream_begin_ok _ _ _ _ _ _ (YInv_TI _ _ _ _ Hy Hs)) as (r1&E1&Hf&Hh). exists r1.
    split_and!; [done..|]. intros h Hr. exists s. split; [done|]. by apply Hh.
  - by apply turn_step_ok.
  - cbn. intros [= <- <-]. apply fine_post; [done|]. destruct (poll_ok _ _ _ _ (yi_net _ _ Hy)) as (n'&E&Hv). rewrite E.
    split; [done|apply Hy..].
Qed.
Lemma tcp_reach_inv w k y : tcp_reach w k y → ∃ lost, (length lost ≤ k)%nat ∧ YInv y lost.
Proof.
  induction 1 as [|k y o r y' _ (lost&Hl&Hy) Hex Ha E Hp]; [exists []; split; [done|apply sys_init_inv]|].
  destruct (tcp_step_ok _ _ _ _ _ Hy Hex Ha E) as (_&_&Hr). destruct (Hr Hp) as (lost'&Hl'&Hy').
  exists lost'. split; [lia|done].
Qed.
End system.

(** A sequence of operations. *)
Fixpoint tcp_run `{SmolNet} (os : list TcpOp) (y : TcpSys) : option TcpSys :=
  match os with
  | [] => Some y
  | o :: os => '(r, y) ← tcp_step o y; match r with Panic | OutOfFuel => None | _ => tcp_run os y end
  end.

Definition connectingb `{SmolNet} (i : nat) (y : TcpSys) : bool :=
  existsb (λ kc, match kc.2 with CConnect j => Nat.eqb j i | _ => false end) (map_to_list (y_calls y)).
Definition allowed `{SmolNet} (o : TcpOp) (y : TcpSys) : bool :=
  match op_socket o with Some i => negb (connectingb i y) | None => true end &&
  match o with OpBind _ a | OpConnect _ _ a => match sa_ip a with IpV4 _ => true | IpV6 _ => false end | _ => true end.
(** The same with the conditions on the operations checked, and failed connections counted. *)
Fixpoint checked_run `{SmolNet} (os : list TcpOp) (k : nat) (y : TcpSys) : option (nat * TcpSys) :=
  match os with
  | [] => Some (k, y)
  | o :: os =>
      if allowed o y then
        '(r, y) ← tcp_step o y;
        match r with Panic => None | _ => checked_run os (failed o r + k) y end
      else None
  end.
Lemma checked_run_reach `{SmolNet} w os : ∀ k y k' y',
  tcp_reach w k y → checked_run os k y = Some (k', y') → tcp_reach w k' y'.
Proof.
  induction os as [|o os IH]; intros k y k' y' Hr; cbn [checked_run]; [by intros [= <- <-]|].
  destruct (allowed o y) eqn:Ea; [|done]. apply andb_true_iff in Ea as [Hex Hv4].
  destruct (tcp_step o y) as [[r y1]|] eqn:E; [|done]. cbn.
  assert (exclusive o y ∧ v4_op o) as [Hx Hv].
  { split.
    - intros i Hi [t Ht]. rewrite Hi in Hex. apply negb_true_iff in Hex.
      assert (connectingb i y = true); [|congruence]. apply existsb_exists. exists (t, CConnect i). cbn.
      split; [|by apply Nat.eqb_refl]. apply list_elem_of_In. by apply elem_of_map_to_list.
    - destruct o; try done; unfold v4_op, v4; by destruct (sa_ip a). }
  destruct r; try done; apply IH; by eapply tr_step.
Qed.

Section claims.
Context `{SK : SmolSockets} `{N : !SmolNet} `{SP : !SmolSpec}.

(** C10: For every network stack that behaves as documented and every sequence of operations on TCP
    sockets, by any number of tasks and interleaved between the turns of blocking calls, in which no
    operation is started on a socket while a connect waits on it ([exclusive]) and bind and connect
    have addresses of version 4 ([v4_op]): every
    socket is in one of its four states, a connecting or connected one has a handle; the sockets
    of the stack are, each once, the handles of the client sockets, those queued under listening
    ports, and at most one per failed call of connect; a port has an entry of at most 512 queued
    connections exactly if one client socket listens on it.  No such operation runs on, and none
    panics, except that accept may when a queued connection is already closed.  Without the first
    condition a listener can be lost ([connect_race_loses_listener]); an address of version 6
    panics. *)
Theorem tcp_sockets_safe w k y :
  tcp_reach w k y →
  (∃ lost, (length lost ≤ k)%nat ∧ YInv y lost) ∧
  ∀ o r y', exclusive o y → v4_op o → tcp_step o y = Some (r, y') →
    r ≠ OutOfFuel ∧ (r = Panic → accepting o y ∧ closed_in_queue (y_net y')).
Proof.
  intros Hr. destruct (tcp_reach_inv _ _ _ Hr) as (lost&Hl&Hy). split; [by exists lost|].
  intros o r y' Hex Ha E. by destruct (tcp_step_ok _ _ _ _ _ Hy Hex Ha E) as (?&?&_).
Qed.

(** C29: When no call of connect failed and all client sockets were dropped, the stack has no socket
    left and no port has an entry: connections that were never accepted, or whose peer closed
    them, are given back too. *)
Theorem tcp_no_leak w y :
  tcp_reach w 0 y → y_socks y = ∅ →
  (∀ h, ss_get h (sockets (y_net y)) = None) ∧ tcp_table (y_net y) = ∅.
Proof.
  intros Hr He. destruct (tcp_reach_inv _ _ _ Hr) as (lost&Hl&Hy). destruct lost; [|cbn in Hl; lia].
  pose proof (yi_net _ _ Hy) as Hv. rewrite He, !omap_empty in Hv.
  assert (tcp_table (y_net y) = ∅) as Ht.
  { apply map_empty. intros p. apply eq_None_not_Some. intros [i Hi]%(ni_listen _ _ _ _ Hv). done. }
  split; [|done]. intros h. apply eq_None_not_Some. intros Hh. apply (ni_holds _ _ _ _ Hv) in Hh.
  unfold owned, queued in Hh. rewrite Ht, !map_to_list_empty in Hh. by apply elem_of_nil in Hh.
Qed.

(** On a listening socket of a reachable state, accept takes the first queued connection past its
    handshake, and no other: the new socket has its handle and its endpoints, and the queue
    loses exactly it.  Without one it would block and changes nothing, which is when poll says
    the socket is not readable. *)
Theorem accept_takes_ready w k y i t :
  tcp_reach w k y → y_socks y !! i = Some t → ts_state t = STATE_LISTENING →
  let port := ep_port (ts_local t) in
  ∃ e b, tcp_table (y_net y) !! port = Some e ∧
    tcp_socket_poll (y_net y, t) = (Ok {| readable := b; writable := false |}, (y_net y, t)) ∧
    let '(r, (n', t')) := accept_try port (y_net y, t) in
    t' = t ∧ (b = true ↔ r ≠ Err WouldBlock) ∧
    ((r = Err WouldBlock ∧ n' = y_net y) ∨ (r = Panic ∧ closed_in (y_net y) e) ∨
     ∃ j h c l a q, r = Ok (new_connected h l a) ∧ syn_queue e !! j = Some h ∧ ready (y_net y) h ∧
       (∀ j' h', (j' < j)%nat → syn_queue e !! j' = Some h' → ¬ ready (y_net y) h') ∧
       ss_get h (sockets (y_net y)) = Some (TcpS c) ∧ tcp_local_endpoint c = Some l ∧ tcp_remote_endpoint c = Some a ∧
       syn_queue e ≡ₚ h :: q ∧
       n' = set_table (<[port := {| listen_endpoint := listen_endpoint e; syn_queue := q |}]> (tcp_table (y_net y))) (y_net y)).
Proof.
  intros Hr Hi Hs port. destruct (tcp_reach_inv _ _ _ Hr) as (lost&_&Hy). pose proof (YInv_TI _ _ _ _ Hy Hi) as Ht.
  destruct (proj2 (ni_listen _ _ _ _ (proj1 Ht) port)) as [e He].
  { exists i. rewrite upd_eq. unfold listening. by rewrite Hs. }
  destruct (table_can_accept_ok _ _ _ _ port (proj1 Ht)) as (r1&Ec&_&Hb). rewrite He in Hb. destruct Hb as (b&->&Hb).
  exists e, b. split; [done|]. split.
  { unfold tcp_socket_poll. erewrite M_bind_ok by done. cbn [snd]. rewrite Hs. cbn -[poll_listener]. unfold poll_listener.
    erewrite M_bind_ok by done. cbn [snd]. fold port. by erewrite M_bind_ok by (rewrite on_fst_eq, Ec; done). }
  unfold accept_try. destruct (table_accept port (y_net y)) as [r n'] eqn:E.
  pose proof (table_accept_spec _ _ _ _ _ _ _ (proj1 Ht) E) as Ha. unfold accepts in Ha. rewrite He in Ha.
  destruct Ha as [(->&->&Hno)|[(->&->&Hcl)|(j&h&c&l&a&q&->&Hj&Hrd&Ha)]].
  - erewrite M_bind_err by (rewrite on_fst_eq, E; done). split; [done|]. split; [|by left].
    split; [|done]. intros (h&Hh&Hrd)%Hb. by destruct (Hno h).
  - erewrite M_bind_panic by (rewrite on_fst_eq, E; done). split; [done|]. split; [|by right; left].
    split; [done|]. intros _. apply Hb. destruct Hcl as (h&c&Hh&Hc&Hst). exists h. split; [done|].
    exists c. by rewrite Hst.
  - erewrite M_bind_ok by (rewrite on_fst_eq, E; done). split; [done|]. split.
    + split; [done|]. intros _. apply Hb. exists h. split; [by eapply list_elem_of_lookup_2|done].
    + right; right. by exists j, h, c, l, a, q.
Qed.
End claims.

(** Two connections come in on port 80; the first one is accepted, the second one is not. *)
Definition demo_addr (p : Z) : SocketAddr := {| sa_ip := IpV4 (0, 0, 0, 0); sa_port := p |}.
Definition demo_peer : SocketAddr := {| sa_ip := IpV4 (10, 0, 2, 2); sa_port := 7 |}.
Definition demo_to (x : TcpState) (c : DemoTcp) : DemoTcp :=
  {| k_state := x; k_local := k_local c; k_remote := {| ep_addr := Ipv4 (10, 0, 2, 2); ep_port := 1 |};
     k_rx := [1; 2; 3]; k_tx := k_tx c |}.
Definition demo_world : World :=
  [[inl [80; 1; 0]; inl [80; 1; 0]]; [inr (0%nat, demo_to SynReceived, id)]; [inr (0%nat, demo_to Established, id)]].
Definition demo_listen_ops : list TcpOp :=
  [OpNew 0; OpBind 0 (demo_addr 80); OpListen 0; OpAccept 1 0 1; OpTurn 1 1; OpTurn 1 1; OpPollInterfaces].
Definition demo_ops : list TcpOp :=
  demo_listen_ops ++ [OpTurn 1 1; OpRecv 1 1 2; OpTurn 1 2; OpSend 1 1 [4]; OpTurn 1 2; OpShutdown 0; OpDrop 1; OpDrop 0].

Lemma tcp_no_leak_witness :
  ∃ y : TcpSys, tcp_reach demo_world 0 y ∧ y_socks y = ∅ ∧
    (∀ h, ss_get h (sockets (y_net y)) = None) ∧ tcp_table (y_net y) = ∅.
Proof.
  assert (match checked_run demo_ops 0 (sys_init demo_world) with
          | Some (k, y) => k = 0%nat ∧ size (y_socks y) = 0%nat | None => False end) as F by (vm_compute; repeat split).
  destruct (checked_run demo_ops 0 (sys_init demo_world)) as [[k y]|] eqn:E; [|destruct F]. destruct F as [-> He]. apply map_size_empty_iff in He.
  assert (tcp_reach demo_world 0 y) as Hr by (eapply checked_run_reach; [apply tr_init|exact E]).
  exists y. split; [exact Hr|]. split; [exact He|]. exact (tcp_no_leak _ _ Hr He).
Defined.

Lemma tcp_sockets_safe_witness :
  ∃ y : TcpSys, tcp_reach demo_world 0 y ∧ size (y_socks y) = 1%nat ∧ (∃ lost, (length lost ≤ 0)%nat ∧ YInv y lost).
Proof.
  assert (match checked_run demo_listen_ops 0 (sys_init demo_world) with
          | Some (k, y) => k = 0%nat ∧ size (y_socks y) = 1%nat | None => False end) as F by (vm_compute; repeat split).
  destruct (checked_run demo_listen_ops 0 (sys_init demo_world)) as [[k y]|] eqn:E; [|destruct F]. destruct F as [-> He].
  assert (tcp_reach demo_world 0 y) as Hr by (eapply checked_run_reach; [apply tr_init|exact E]).
  exists y. split; [exact Hr|]. split; [exact He|]. exact (proj1 (tcp_sockets_safe _ _ _ Hr)).
Defined.

Lemma accept_takes_ready_witness :
  ∃ (y : TcpSys) t, tcp_reach demo_world 0 y ∧ y_socks y !! 0%nat = Some t ∧ ts_state t = STATE_LISTENING ∧
    ∃ e b, tcp_table (y_net y) !! ep_port (ts_local t) = Some e ∧
      tcp_socket_poll (y_net y, t) = (Ok {| readable := b; writable := false |}, (y_net y, t)) ∧ length (syn_queue e) = 2%nat.
Proof.
  assert (match checked_run demo_listen_ops 0 (sys_init demo_world) with
          | Some (k, y) => k = 0%nat ∧ (match y_socks y !! 0%nat with
              | Some t => ts_state t = STATE_LISTENING ∧
                  option_map (λ e, length (syn_queue e)) (tcp_table (y_net y) !! ep_port (ts_local t)) = Some 2%nat
              | None => False end) | None => False end) as F by (vm_compute; repeat split).
  destruct (checked_run demo_listen_ops 0 (sys_init demo_world)) as [[k y]|] eqn:E; [|destruct F]. destruct F as [-> F].
  destruct (y_socks y !! 0%nat) as [t|] eqn:Et; [|destruct F]. destruct F as [Hs He].
  assert (tcp_reach demo_world 0 y) as Hr by (eapply checked_run_reach; [apply tr_init|exact E]).
  exists y, t. split; [exact Hr|]. split; [exact Et|]. split; [exact Hs|].
  destruct (accept_takes_ready _ _ _ _ _ Hr Et Hs) as (e&b&H1&H2&_). exists e, b. split; [exact H1|]. split; [exact H2|].
  rewrite H1 in He. injection He as He. exact He.
Defined.
