(* ===== verification/TcpErrors.v ===== *)
(** * What goes wrong with TCP sockets

    Three runs of the operations of [tcp.rs] that do not do what they should: a socket of the
    stack that is lost, an [accept] that panics, and a listening port without a listener. *)

From Stdlib Require Import ZArith Lia.
From stdpp Require Import base decidable numbers gmap list.
From S2P Require Import Prelude LinkedList Vfs NetStack NetProps TcpSocket TcpProps SmolModel TcpSystem.

Local Open Scope Z_scope.

Section errors.
Context `{SK : SmolSockets} `{N : !SmolNet} `{SP : !SmolSpec}.

Lemma bound_endpoint_new n :
  PORT_START ≤ tcp_curr n ≤ PORT_END →
  ∃ c, (∃ b, bound_endpoint (n, with_state STATE_BUSY TcpSocket_new) = (Ok b, (set_tcp_curr c n, with_state STATE_BUSY TcpSocket_new))) ∨
       bound_endpoint (n, with_state STATE_BUSY TcpSocket_new) = (Err AddrInUse, (set_tcp_curr c n, with_state STATE_BUSY TcpSocket_new)).
Proof.
  intros Hc. destruct (ephemeral_port_ok n Hc) as [(c&Hn&_) Hr]. destruct (get_ephemeral_port n) as [r n'] eqn:E.
  cbn in Hn, Hr. subst n'. exists c. unfold bound_endpoint. erewrite M_bind_ok by done. cbn [snd]. cbn zeta.
  cbn [with_state TcpSocket_new ts_local ep_port UNSPECIFIED_ENDPOINT Z.eqb negb].
  destruct Hr as [(p&->&Hp&_)|[-> _]].
  - left. erewrite M_bind_ok by (rewrite on_fst_eq, E; done). cbn.
    assert ((p =? 0) = false) as -> by (unfold PORT_START, PORT_END in *; lia). by eexists.
  - right. erewrite M_bind_err by (rewrite on_fst_eq, E; done). done.
Qed.

(** A call of connect on a new socket that the stack refuses leaves a socket in the stack that the
    client socket does not know of: dropping the client socket does not remove it. *)
Theorem connect_failure_leaks fuel n a o e :
  PORT_START ≤ tcp_curr n ≤ PORT_END → sa_ip a = IpV4 o →
  (∀ l, (tcp_connect {| ep_addr := Ipv4 o; ep_port := sa_port a |} l tcp_new).2 = Some e) →
  ∃ x n' h, tcp_socket_connect fuel a (n, TcpSocket_new) = (Err x, (n', TcpSocket_new)) ∧
    tcp_socket_drop (n', TcpSocket_new) = (Ok tt, (n', TcpSocket_new)) ∧
    ss_get h (sockets n) = None ∧ is_Some (ss_get h (sockets n')).
Proof.
  intros Hc Ho He. set (h := (ss_add (TcpS tcp_new) (sockets n)).1). set (s1 := (ss_add (TcpS tcp_new) (sockets n)).2).
  pose proof (ss_add_fresh (TcpS tcp_new) (sockets n)) as Hfresh. pose proof (ss_add_get (TcpS tcp_new) (sockets n)) as Hget.
  fold h in Hfresh, Hget. fold s1 in Hget. set (t := with_state STATE_BUSY TcpSocket_new).
  assert (∃ x n', connect_busy a (n, t) = (Err x, (n', t)) ∧ is_Some (ss_get h (sockets n'))) as (x&n'&E&Hs).
  { unfold connect_busy. erewrite M_bind_ok by done.
    erewrite M_bind_ok by (cbn; unfold set_add, on_fst; cbn; rewrite (surjective_pairing (ss_add _ _)); done). fold h s1.
    erewrite M_bind_ok by (unfold from_core_sockaddr, from_core_ipaddr; rewrite Ho; done).
    destruct (bound_endpoint_new (set_sockets s1 n) Hc) as (c&[(b&Eb)|Eb]).
    - erewrite M_bind_ok by exact Eb. unfold with_tcp_mut, with_tcp, mbind, M_bind, on_fst at 1. cbn. rewrite Hget.
      specialize (He b). destruct (tcp_connect _ b tcp_new) as [c' e'] eqn:Ec. cbn in He. subst e'. cbn.
      assert (is_Some (ss_get h (ss_set h (TcpS c') s1))) by (rewrite ss_set_get by (by rewrite Hget); by eexists).
      destruct e; cbn; eexists _, _; (split; [done|]); done.
    - erewrite M_bind_err by exact Eb. eexists _, _. split; [done|]. cbn. by rewrite Hget. }
  exists x, n', h. split_and!; [|done|done|done]. unfold tcp_socket_connect, connect_begin.
  erewrite M_bind_err; [done|]. rewrite update_state_eq. cbn [ts_state TcpSocket_new]. rewrite Z.eqb_refl. fold t. rewrite E. done.
Qed.

(** When the first connection of the queue was closed before it is accepted, and so has no remote
    endpoint any more, accept panics. *)
Theorem accept_panics_on_closed n (t : TcpSocket) port e h q c :
  tcp_table n !! port = Some e → syn_queue e = h :: q →
  ss_get h (sockets n) = Some (TcpS c) → tcp_state c = Closed → tcp_remote_endpoint c = None →
  accept_try port (n, t) = (Panic, (n, t)).
Proof.
  intros He Hq Hc Hs Hr. unfold accept_try. erewrite M_bind_panic; [done|]. rewrite on_fst_eq.
  assert (table_accept port n = (Panic, n)) as ->; [|done].
  unfold table_accept. erewrite M_bind_ok by done. rewrite He, Hq. cbn [find_connected]. apply M_bind_panic.
  erewrite M_bind_ok by (unfold is_connected, with_tcp, mbind, M_bind; rewrite Hc; done). rewrite Hs.
  apply M_bind_panic. unfold get_addr_tuple, with_tcp, mbind, M_bind. rewrite Hc.
  destruct (tcp_local_endpoint c); cbn; [|done]. by rewrite Hr.
Qed.
End errors.

Lemma connect_failure_leaks_witness :
  ∃ x n' h, tcp_socket_connect 1 (demo_addr 0) (net_init demo_world, TcpSocket_new) = (Err x, (n', TcpSocket_new)) ∧
    is_Some (ss_get h (sockets n')).
Proof.
  destruct (connect_failure_leaks 1 (net_init demo_world) (demo_addr 0) (0, 0, 0, 0) ConnectUnaddressable) as (x&n'&h&E&_&_&Hs).
  - cbn. unfold PORT_START, PORT_END. lia.
  - done.
  - intros l. done.
  - exists x, n', h. split; [exact E|exact Hs].
Defined.

(** A connection that is reset before it is accepted. *)
Definition demo_reset : World :=
  [[inl [80; 1; 0]]; [inr (0%nat, demo_to Established, id)]; [inr (0%nat, demo_set_state Closed, id)]].
Definition demo_reset_ops : list TcpOp :=
  [OpNew 0; OpBind 0 (demo_addr 80); OpListen 0; OpPollInterfaces; OpPollInterfaces; OpPollInterfaces].
Lemma accept_panics_on_closed_witness :
  ∃ (y : TcpSys) t, tcp_reach demo_reset 0 y ∧ y_socks y !! 0%nat = Some t ∧ ts_state t = STATE_LISTENING ∧
    accept_try 80 (y_net y, t) = (Panic, (y_net y, t)).
Proof.
  assert (match checked_run demo_reset_ops 0 (sys_init demo_reset) with
          | Some (k, y) => k = 0%nat ∧ match y_socks y !! 0%nat, tcp_table (y_net y) !! 80 with
              | Some t, Some e => ts_state t = STATE_LISTENING ∧ syn_queue e = [0%nat] ∧
                  match ss_get 0%nat (sockets (y_net y)) with Some (TcpS c) => k_state c = Closed | _ => False end
              | _, _ => False end
          | None => False end) as F by (vm_compute; repeat split).
  destruct (checked_run demo_reset_ops 0 (sys_init demo_reset)) as [[k y]|] eqn:E; [|destruct F]. destruct F as [-> F].
  destruct (y_socks y !! 0%nat) as [t|] eqn:Et; [|destruct F]. destruct (tcp_table (y_net y) !! 80) as [e|] eqn:Ee; [|destruct F].
  destruct F as (Hs&Hq&F). destruct (ss_get (SmolNet := demo_net) 0%nat (sockets (y_net y))) as [[c|]|] eqn:Ec; [|destruct F..].
  assert (tcp_reach demo_reset 0 y) as Hr by (eapply checked_run_reach; [apply tr_init|exact E]).
  exists y, t. split; [exact Hr|]. split; [exact Et|]. split; [exact Hs|].
  eapply accept_panics_on_closed; [exact Ee|exact Hq|exact Ec|exact F|].
  cbn. unfold demo_open. rewrite F. reflexivity.
Defined.

(** While a task waits in connect another one may find the connection established, shut the socket
    down and make it listen: the turn of the first then takes the failed connection for its own
    and closes the socket.  The port keeps its entry although no socket listens on it, also
    after the socket is dropped. *)
Definition demo_race : World := [[]; [inr (0%nat, demo_to Established, id)]].
Definition demo_race_ops : list TcpOp :=
  [OpNew 0; OpConnect 1 0 demo_peer; OpTurn 1 1; OpPollInterfaces; OpPoll 0; OpShutdown 0; OpListen 0; OpTurn 1 1; OpDrop 0].
Theorem connect_race_loses_listener :
  match tcp_run demo_race_ops (sys_init demo_race) with
  | Some y => size (y_socks y) = 0%nat ∧ size (y_calls y) = 0%nat ∧ (map_to_list (tcp_table (y_net y))).*1 = [0xc001]
  | None => False
  end.
Proof. vm_compute. repeat split. Qed.
