(* ===== verification/UdpSocket.v ===== *)
(** * UDP sockets ([modules/axnet/src/smoltcp_impl/udp.rs])

    The operations of [UdpSocket], that none of them panics between the creation of a socket and
    its drop, and that a connected socket receives from its peer alone. *)

From Stdlib Require Import ZArith Lia.
From stdpp Require Import base decidable numbers gmap list.
From S2P Require Import Prelude LinkedList Vfs NetStack NetProps TcpSocket TcpProps SmolModel.

Local Open Scope Z_scope.

Section udp.
Context `{SK : SmolSockets} `{N : !SmolNet}.

Record UdpSocket : Type := {
  us_handle : SocketHandle; us_local : option IpEndpoint; us_peer : option IpEndpoint; us_nonblock : bool }.
Local Abbreviation UM := (M (Net * UdpSocket) AxError).
Definition set_us_local (e : IpEndpoint) : UM unit := modify (λ s, (s.1,
  {| us_handle := us_handle s.2; us_local := Some e; us_peer := us_peer s.2; us_nonblock := us_nonblock s.2 |})).
Definition set_us_peer (e : IpEndpoint) : UM unit := modify (λ s, (s.1,
  {| us_handle := us_handle s.2; us_local := us_local s.2; us_peer := Some e; us_nonblock := us_nonblock s.2 |})).
Definition udp_set_nonblocking (b : bool) : UM unit := modify (λ s, (s.1,
  {| us_handle := us_handle s.2; us_local := us_local s.2; us_peer := us_peer s.2; us_nonblock := b |})).
Definition ok_or {A} (o : option A) (e : AxError) : UM A := match o with Some a => mret a | None => throw e end.

Definition UdpSocket_new : M Net AxError UdpSocket :=
  h ← set_add (UdpS udp_new);
  mret {| us_handle := h; us_local := None; us_peer := None; us_nonblock := false |}.
Definition udp_local_addr : UM SocketAddr :=
  s ← gets snd; e ← ok_or (us_local s) NotConnected; mret (into_core_sockaddr e).
Definition udp_remote_endpoint : UM IpEndpoint := s ← gets snd; ok_or (us_peer s) NotConnected.
Definition udp_peer_addr : UM SocketAddr := e ← udp_remote_endpoint; mret (into_core_sockaddr e).

Definition bind_result (e : option BindError) : UM unit :=
  match e with
  | None => mret tt
  | Some BindInvalidState => throw AlreadyExists
  | Some BindUnaddressable => throw InvalidInput
  end.
Definition udp_socket_bind (local : SocketAddr) : UM unit :=
  port ← (if sa_port local =? 0 then on_fst udp_ephemeral_port else mret (sa_port local));
  s ← gets snd;
  match us_local s with
  | Some _ => throw InvalidInput
  | None =>
      local_endpoint ← from_core_sockaddr {| sa_ip := sa_ip local; sa_port := port |};
      let endpoint := {| le_addr := if negb (is_unspecified (ep_addr local_endpoint)) then Some (ep_addr local_endpoint) else None;
                         le_port := ep_port local_endpoint |} in
      e ← on_fst (with_udp_mut (us_handle s) (udp_bind endpoint));
      _ ← bind_result e;
      set_us_local local_endpoint
  end.

(** ** Blocking *)

Fixpoint udp_block_loop {A} (fuel : nat) (f : UM A) : UM A :=
  match fuel with
  | O => out_of_fuel
  | S fuel => λ s,
      match (_ ← on_fst poll_interfaces; f) s with (Err WouldBlock, s') => udp_block_loop fuel f s' | x => x end
  end.
Definition udp_block_on {A} (fuel : nat) (f : UM A) : UM A :=
  s ← gets snd; if us_nonblock s then f else udp_block_loop fuel f.

(** ** Sending and receiving *)

Definition udp_send_try (h : SocketHandle) (buf : list Z) (remote : IpEndpoint) : UM Z :=
  u ← on_fst (with_udp h);
  if udp_can_send u then
    e ← on_fst (with_udp_mut h (udp_send_slice buf remote));
    match e with
    | Some SendBufferFull => throw WouldBlock
    | Some SendUnaddressable => throw ConnectionRefused
    | None => mret (Z.of_nat (length buf))
    end
  else throw WouldBlock.
Definition udp_send_impl (fuel : nat) (buf : list Z) (remote : IpEndpoint) : UM Z :=
  s ← gets snd;
  match us_local s with
  | None => throw NotConnected
  | Some _ => udp_block_on fuel (udp_send_try (us_handle s) buf remote)
  end.
Definition ip_is_unspecified (ip : IpAddr) : bool :=
  match ip with IpV4 o => bool_decide (o = (0, 0, 0, 0)) | IpV6 l => forallb (Z.eqb 0) l end.
Definition udp_send_to (fuel : nat) (buf : list Z) (remote : SocketAddr) : UM Z :=
  if ((sa_port remote =? 0) || ip_is_unspecified (sa_ip remote))%bool then throw InvalidInput
  else e ← from_core_sockaddr remote; udp_send_impl fuel buf e.
Definition udp_socket_send (fuel : nat) (buf : list Z) : UM Z :=
  e ← udp_remote_endpoint; udp_send_impl fuel buf e.

(** [recv_impl] with the operation [op] on a socket that has a datagram. *)
Definition udp_recv_try {A} (h : SocketHandle) (op : UM A) : UM A :=
  u ← on_fst (with_udp h);
  if udp_can_recv u then op else throw WouldBlock.
Definition udp_recv_impl {A} (fuel : nat) (op : SocketHandle → UM A) : UM A :=
  s ← gets snd;
  match us_local s with
  | None => throw NotConnected
  | Some _ => udp_block_on fuel (udp_recv_try (us_handle s) (op (us_handle s)))
  end.
Definition recv_from_op (len : Z) (h : SocketHandle) : UM (list Z * SocketAddr) :=
  r ← on_fst (with_udp_mut h (udp_recv_slice len));
  match r with Some (data, meta) => mret (data, into_core_sockaddr meta) | None => throw BadState end.
Definition udp_recv_from (fuel : nat) (len : Z) : UM (list Z * SocketAddr) := udp_recv_impl fuel (recv_from_op len).
Definition peek_from_op (len : Z) (h : SocketHandle) : UM (list Z * SocketAddr) :=
  u ← on_fst (with_udp h);
  match udp_peek_slice len u with Some (data, meta) => mret (data, into_core_sockaddr meta) | None => throw BadState end.
Definition udp_peek_from (fuel : nat) (len : Z) : UM (list Z * SocketAddr) := udp_recv_impl fuel (peek_from_op len).
Definition recv_op (len : Z) (remote : IpEndpoint) (h : SocketHandle) : UM (list Z) :=
  r ← on_fst (with_udp_mut h (udp_recv_slice len));
  match r with
  | None => throw BadState
  | Some (data, meta) =>
      if (negb (is_unspecified (ep_addr remote)) && negb (bool_decide (ep_addr remote = ep_addr meta)))%bool then throw WouldBlock
      else if (negb (ep_port remote =? 0) && negb (ep_port remote =? ep_port meta))%bool then throw WouldBlock
      else mret data
  end.
Definition udp_socket_recv (fuel : nat) (len : Z) : UM (list Z) :=
  remote ← udp_remote_endpoint; udp_recv_impl fuel (recv_op len remote).

(** ** The rest *)

Definition udp_socket_connect (addr : SocketAddr) : UM unit :=
  s ← gets snd;
  _ ← match us_local s with None => udp_socket_bind (into_core_sockaddr UNSPECIFIED_ENDPOINT) | Some _ => mret tt end;
  e ← from_core_sockaddr addr;
  set_us_peer e.
Definition udp_socket_shutdown : UM unit :=
  s ← gets snd;
  _ ← on_fst (with_udp_mut (us_handle s) (λ u, (udp_close u, tt)));
  on_fst poll_interfaces.
Definition udp_socket_poll : UM PollState :=
  s ← gets snd;
  match us_local s with
  | None => mret {| readable := false; writable := false |}
  | Some _ =>
      u ← on_fst (with_udp (us_handle s));
      mret {| readable := udp_can_recv u; writable := udp_can_send u |}
  end.
Definition udp_socket_drop : UM unit := λ s,
  match udp_socket_shutdown s with
  | (Ok _, s') | (Err _, s') => on_fst (set_remove (us_handle s'.2)) s'
  | (Panic, s') => (Panic, s')
  | (OutOfFuel, s') => (OutOfFuel, s')
  end.

(** An operation of a client, and what it answers without its value. *)
Inductive UdpOp : Type :=
| UBind (a : SocketAddr) | UConnect (a : SocketAddr) | UNonblocking (b : bool)
| USendTo (fuel : nat) (buf : list Z) (a : SocketAddr) | USend (fuel : nat) (buf : list Z)
| URecvFrom (fuel : nat) (len : Z) | UPeekFrom (fuel : nat) (len : Z) | URecv (fuel : nat) (len : Z)
| UPoll | UShutdown.
Definition void_ {A} (m : UM A) : UM unit := λ s, ((void (m s).1), (m s).2).
Definition udp_op (o : UdpOp) : UM unit :=
  match o with
  | UBind a => udp_socket_bind a
  | UConnect a => udp_socket_connect a
  | UNonblocking b => udp_set_nonblocking b
  | USendTo fuel buf a => void_ (udp_send_to fuel buf a)
  | USend fuel buf => void_ (udp_socket_send fuel buf)
  | URecvFrom fuel len => void_ (udp_recv_from fuel len)
  | UPeekFrom fuel len => void_ (udp_peek_from fuel len)
  | URecv fuel len => void_ (udp_socket_recv fuel len)
  | UPoll => void_ udp_socket_poll
  | UShutdown => udp_socket_shutdown
  end.
End udp.
Arguments UdpSocket {SK N}.

Section udp_props.
Context `{SK : SmolSockets} `{N : !SmolNet} `{SP : !SmolSpec}.
Local Abbreviation UM := (M (Net * UdpSocket) AxError).

(** ** The socket stays in the set *)

Definition udp_in (h : SocketHandle) (n : Net) : Prop := ∃ u, ss_get h (sockets n) = Some (UdpS u).
(** A computation of a socket with handle [h] that does not panic, and keeps this socket and all the others. *)
Definition safe {E A} (h : SocketHandle) (m : M (Net * UdpSocket) E A) : Prop :=
  ∀ n s, us_handle s = h → udp_in h n → (m (n, s)).1 ≠ Panic ∧ us_handle (m (n, s)).2.2 = h ∧
    ∀ h', udp_in h' n → udp_in h' (m (n, s)).2.1.

Lemma safe_ret {E A} h (a : A) : safe (E := E) h (mret a).
Proof. by intros n s. Qed.
Lemma safe_throw {E A} h (e : E) : safe (A := A) h (throw e).
Proof. by intros n s. Qed.
Lemma safe_bind {E A B} h (m : M (Net * UdpSocket) E A) (k : A → M (Net * UdpSocket) E B) : safe h m → (∀ a, safe h (k a)) → safe h (m ≫= k).
Proof.
  intros Hm Hk n s Hs Hn. destruct (Hm n s Hs Hn) as (Hp&Hs'&Hn'). unfold mbind, M_bind.
  destruct (m (n, s)) as [[a|e| |] [n' s']]; cbn in *; try done.
  destruct (Hk a n' s' Hs' (Hn' h Hn)) as (Hp2&Hs2&Hn2). split_and!; [done..|]. intros h' Hh'. by apply Hn2, Hn'.
Qed.
Lemma safe_gets {A} h (k : UdpSocket → UM A) : (∀ s, us_handle s = h → safe h (k s)) → safe h (gets snd ≫= k).
Proof. intros Hk n s Hs Hn. by apply (Hk s). Qed.
Lemma safe_net {A} h (m : M Net AxError A) :
  (∀ n, udp_in h n → (m n).1 ≠ Panic ∧ ∀ h', udp_in h' n → udp_in h' (m n).2) → safe h (on_fst m).
Proof. intros Hm n s Hs Hn. unfold on_fst. cbn. destruct (Hm n Hn). by destruct (m n). Qed.
Lemma safe_sockaddr h a : v4 a → safe (E := AxError) h (from_core_sockaddr a).
Proof. intros Ha n s Hs Hn. destruct (from_core_sockaddr_ok a (n, s) Ha) as (e&E&_). by rewrite E. Qed.
Lemma safe_void {A} h (m : UM A) : safe h m → safe h (void_ m).
Proof. intros Hm n s Hs Hn. destruct (Hm n s Hs Hn) as (Hp&?&?). unfold void_. cbn. split_and!; [by destruct (m (n, s)).1|done..]. Qed.

Lemma safe_with h : safe h (on_fst (with_udp h)).
Proof. apply safe_net. intros n [u Hu]. unfold with_udp. by rewrite Hu. Qed.
Lemma safe_with_mut {A} h (f : UdpSock → UdpSock * A) : safe h (on_fst (with_udp_mut h f)).
Proof.
  apply safe_net. intros n [u Hu]. unfold with_udp_mut, with_udp, mbind, M_bind. rewrite Hu. destruct (f u) as [u' a]. cbn.
  split; [done|]. intros h' [x Hx]. destruct (decide (h' = h)) as [->|Hne]; [exists u'; cbn; by apply ss_set_get|].
  exists x. cbn. by rewrite ss_set_other.
Qed.
Lemma udp_in_add h x n : udp_in h n → h ≠ (ss_add x (sockets n)).1 ∧ ss_get h (ss_add x (sockets n)).2 = ss_get h (sockets n).
Proof.
  intros [u Hu]. assert (h ≠ (ss_add x (sockets n)).1) as Hne.
  { intros ->. by rewrite ss_add_fresh in Hu. }
  split; [done|]. by apply ss_add_other.
Qed.
Lemma udp_in_incoming h dst n : udp_in h n → udp_in h (incoming_tcp_packet dst n).
Proof.
  intros Hh. unfold incoming_tcp_packet. destruct (tcp_table n !! ep_port dst) as [e|]; [|done].
  destruct (negb _); [done|]. destruct (_ <=? _); [done|]. destruct (tcp_listen _ _) as [c ok]. destruct ok; [|done].
  destruct (udp_in_add h (TcpS c) n Hh) as [_ Hget]. destruct Hh as [u Hu].
  destruct (ss_add (TcpS c) (sockets n)) as [h' s]. exists u. cbn in *. by rewrite Hget.
Qed.
Lemma udp_in_event h e n : udp_in h n → udp_in h (net_event e n).
Proof.
  intros Hh. unfold net_event. destruct (ev_view e) as [frame|[[h' f] g]].
  - unfold snoop_tcp_packet. destruct (ether_payload frame ≫= ipv4_packet) as [ip|]; [|done].
    destruct (_ =? _); [|done]. destruct (tcp_packet _); [|done]. cbn zeta. destruct (_ && _)%bool; [by apply udp_in_incoming|done].
  - destruct Hh as [u Hu]. unfold progress. destruct (ss_get h' (sockets n)) as [[c|u']|] eqn:E; [| |by exists u].
    + exists u. cbn. rewrite ss_set_other; [done|]. intros ->. congruence.
    + destruct (decide (h = h')) as [<-|Hne]; [exists (g u'); cbn; by apply ss_set_get; rewrite E|].
      exists u. cbn. by rewrite ss_set_other.
Qed.
Lemma safe_poll h : safe h (on_fst poll_interfaces).
Proof.
  apply safe_net. intros n _. unfold poll_interfaces. destruct (poll_events (eth0 n)) as [evs w]. cbn. split; [done|].
  intros h' Hn. assert (udp_in h' (set_eth0 w n)) as Hn' by done. revert Hn'. generalize (set_eth0 w n). clear n Hn.
  induction evs as [|e evs IH]; intros n Hn; [done|]. apply IH. by apply udp_in_event.
Qed.
Lemma safe_block {A} h fuel (f : UM A) : safe h f → safe h (udp_block_on fuel f).
Proof.
  intros Hf. apply safe_gets. intros s0 _. destruct (us_nonblock s0); [done|]. induction fuel as [|fuel IH]; [by intros n s|].
  intros n s Hs Hn. cbn [udp_block_loop]. assert (safe h (_ ← on_fst poll_interfaces; f)) as Ht.
  { apply safe_bind; [apply safe_poll|done]. }
  destruct (Ht n s Hs Hn) as (Hp&Hs'&Hn'). destruct ((_ ← on_fst poll_interfaces; f) (n, s)) as [[a|e| |] [n' s']]; try done.
  destruct e; try done. destruct (IH n' s' Hs' (Hn' h Hn)) as (Hp2&Hs2&Hn2). split_and!; [done..|]. intros h' Hh'. by apply Hn2, Hn'.
Qed.
Lemma safe_ephemeral h : safe h (on_fst udp_ephemeral_port).
Proof. by apply safe_net. Qed.

Lemma safe_bind_socket h a : v4 a → safe h (udp_socket_bind a).
Proof.
  intros Ha. apply safe_bind; [destruct (_ =? _); [apply safe_ephemeral|apply safe_ret]|]. intros p.
  apply safe_gets. intros s <-. destruct (us_local s); [apply safe_throw|].
  apply safe_bind; [by apply safe_sockaddr|]. intros e. apply safe_bind; [apply safe_with_mut|].
  intros [[]|]; try (apply safe_bind; [apply safe_throw|]; intros; by intros ??).
  apply safe_bind; [apply safe_ret|]. intros _. by intros n s' Hs Hn.
Qed.
Lemma safe_recv {A} h fuel (op : SocketHandle → UM A) : safe h (op h) → safe h (udp_recv_impl fuel op).
Proof.
  intros Ho. apply safe_gets. intros s Hs. destruct (us_local s); [|apply safe_throw]. rewrite Hs. apply safe_block.
  apply safe_bind; [apply safe_with|]. intros u. destruct (udp_can_recv u); [done|apply safe_throw].
Qed.
Lemma safe_send h fuel buf e : safe h (udp_send_impl fuel buf e).
Proof.
  apply safe_gets. intros s Hs. destruct (us_local s); [|apply safe_throw]. rewrite Hs. apply safe_block.
  apply safe_bind; [apply safe_with|]. intros u. destruct (udp_can_send u); [|apply safe_throw].
  apply safe_bind; [apply safe_with_mut|]. intros [[]|]; apply safe_throw || apply safe_ret.
Qed.
Lemma safe_remote h : safe h udp_remote_endpoint.
Proof. apply safe_gets. intros s _. destruct (us_peer s); [apply safe_ret|apply safe_throw]. Qed.

Definition v4_udp (o : UdpOp) : Prop := match o with UBind a | UConnect a | USendTo _ _ a => v4 a | _ => True end.
Lemma udp_op_safe h o : v4_udp o → safe h (udp_op o).
Proof.
  intros Ho. destruct o; cbn in *; try apply safe_void.
  - by apply safe_bind_socket.
  - apply safe_gets. intros s _. apply safe_bind; [destruct (us_local s); [apply safe_ret|by apply safe_bind_socket]|].
    intros _. apply safe_bind; [by apply safe_sockaddr|]. intros e. by intros n s' Hs Hn.
  - by intros n s Hs Hn.
  - unfold udp_send_to. destruct (_ || _)%bool; [apply safe_throw|]. apply safe_bind; [by apply safe_sockaddr|].
    intros. apply safe_send.
  - apply safe_bind; [apply safe_remote|]. intros. apply safe_send.
  - apply safe_recv. apply safe_bind; [apply safe_with_mut|]. intros [[d m]|]; apply safe_ret || apply safe_throw.
  - apply safe_recv. apply safe_bind; [apply safe_with|]. intros u.
    destruct (udp_peek_slice _ _) as [[d m]|]; apply safe_ret || apply safe_throw.
  - apply safe_bind; [apply safe_remote|]. intros e. apply safe_recv. apply safe_bind; [apply safe_with_mut|].
    intros [[d m]|]; [|apply safe_throw]. repeat (destruct (_ && _)%bool; [apply safe_throw|]). apply safe_ret.
  - apply safe_gets. intros s <-. destruct (us_local s); [|apply safe_ret]. apply safe_bind; [apply safe_with|]. intros; apply safe_ret.
  - apply safe_gets. intros s <-. apply safe_bind; [apply safe_with_mut|]. intros _. apply safe_poll.
Qed.

Lemma udp_new_ok n :
  ∃ h st s, ss_add (UdpS udp_new) (sockets n) = (h, st) ∧ UdpSocket_new n = (Ok s, set_sockets st n) ∧ us_handle s = h ∧ ¬ udp_in h n ∧
    udp_in h (set_sockets st n) ∧ ∀ h', udp_in h' n → udp_in h' (set_sockets st n).
Proof.
  destruct (ss_add (UdpS udp_new) (sockets n)) as [h st] eqn:E.
  exists h, st, {| us_handle := h; us_local := None; us_peer := None; us_nonblock := false |}.
  split_and!; [done| |done| | |].
  - unfold UdpSocket_new, set_add, mbind, M_bind. by rewrite E.
  - intros [u Hu]. pose proof (ss_add_fresh (UdpS udp_new) (sockets n)) as Hf. rewrite E in Hf. cbn in Hf. congruence.
  - exists udp_new. cbn. pose proof (ss_add_get (UdpS udp_new) (sockets n)) as Hg. by rewrite E in Hg.
  - intros h' Hh'. destruct (udp_in_add h' (UdpS udp_new) n Hh') as [_ Hg]. destruct Hh' as [u Hu]. exists u. cbn. rewrite E in Hg. cbn in Hg. congruence.
Qed.
(** The drop takes the socket out of the set, and no other one. *)
Lemma udp_drop_ok n s :
  udp_in (us_handle s) n →
  ∃ n' s', udp_socket_drop (n, s) = (Ok tt, (n', s')) ∧ ss_get (us_handle s) (sockets n') = None ∧
    ∀ h', h' ≠ us_handle s → udp_in h' n → udp_in h' n'.
Proof.
  intros Hn. destruct (udp_op_safe (us_handle s) UShutdown I n s eq_refl Hn) as (_&Hs3&Hn3). cbn [udp_op] in *.
  assert (∃ n3 s3, udp_socket_shutdown (n, s) = (Ok tt, (n3, s3))) as (n3&s3&E3).
  { unfold udp_socket_shutdown, gets, mbind, M_bind, on_fst, with_udp_mut, with_udp, mbind, M_bind, poll_interfaces. cbn.
    destruct Hn as [u ->]. cbn. by destruct (poll_events (eth0 n)); eexists _, _. }
  rewrite E3 in *. cbn in *. destruct (Hn3 _ Hn) as [u Hu]. destruct (ss_remove_some (us_handle s) (sockets n3)) as [st' Hst]; [by rewrite Hu|].
  exists (set_sockets st' n3), s3. split_and!.
  - unfold udp_socket_drop. rewrite E3. unfold on_fst, set_remove. cbn. by rewrite Hs3, Hst.
  - cbn. by eapply ss_remove_get.
  - intros h' Hne Hh'. destruct (Hn3 h' Hh') as [x Hx]. exists x. cbn. by rewrite (ss_remove_other (us_handle s) h' (sockets n3)).
Qed.

(** A client of one socket: the operations, whatever each answers. *)
Fixpoint udp_run (os : list UdpOp) (s : Net * UdpSocket) : option (Net * UdpSocket) :=
  match os with
  | [] => Some s
  | o :: os => match udp_op o s with (Panic, _) => None | (_, s') => udp_run os s' end
  end.
Lemma udp_run_safe h os : ∀ n s,
  Forall v4_udp os → us_handle s = h → udp_in h n →
  ∃ n' s', udp_run os (n, s) = Some (n', s') ∧ us_handle s' = h ∧ udp_in h n'.
Proof.
  induction os as [|o os IH]; intros n s Hos Hs Hn; [by exists n, s|]. apply Forall_cons in Hos as [Ho Hos].
  destruct (udp_op_safe h o Ho n s Hs Hn) as (Hp&Hs'&Hn'). cbn [udp_run].
  destruct (udp_op o (n, s)) as [[a|e| |] [n' s']]; try done; apply IH; by try apply Hn'.
Qed.

(** From its creation on, no sequence of operations of a UDP socket panics, whatever the network
    does in between; its handle stays in the socket set, and the drop takes it out. *)
Theorem udp_socket_safe n os :
  Forall v4_udp os →
  ∃ n1 s n2 s2 n3 s3, UdpSocket_new n = (Ok s, n1) ∧ udp_run os (n1, s) = Some (n2, s2) ∧ us_handle s2 = us_handle s ∧
    udp_socket_drop (n2, s2) = (Ok tt, (n3, s3)) ∧ ss_get (us_handle s) (sockets n3) = None.
Proof.
  intros Hos. destruct (udp_new_ok n) as (h&st&s&_&Es&Hs&_&Hn&_).
  destruct (udp_run_safe h os _ s Hos Hs Hn) as (n2&s2&E2&Hs2&Hn2). rewrite <-Hs2 in Hn2.
  destruct (udp_drop_ok n2 s2 Hn2) as (n3&s3&E3&Hg&_). exists (set_sockets st n), s, n2, s2, n3, s3.
  split_and!; try done; [congruence|by rewrite Hs, <-Hs2].
Qed.

(** ** Receiving from the peer *)

Definition from_peer (remote meta : IpEndpoint) : Prop :=
  (ep_addr remote = UNSPECIFIED_IP ∨ ep_addr remote = ep_addr meta) ∧ (ep_port remote = 0 ∨ ep_port remote = ep_port meta).
(** The datagram [data] was received by the socket [h] in some state, from [meta]. *)
Definition received (h : SocketHandle) (len : Z) (data : list Z) (remote : IpEndpoint) : Prop :=
  ∃ n u meta, ss_get h (sockets n) = Some (UdpS u) ∧ udp_can_recv u = true ∧
    (udp_recv_slice len u).2 = Some (data, meta) ∧ from_peer remote meta.
Lemma recv_try_received h len remote n s data s' :
  udp_recv_try h (recv_op len remote h) (n, s) = (Ok data, s') → received h len data remote.
Proof.
  unfold udp_recv_try, recv_op, on_fst, with_udp_mut, with_udp, mbind, M_bind. cbn.
  destruct (ss_get h (sockets n)) as [[c|u]|] eqn:Eu; cbn; [done| |done]. destruct (udp_can_recv u) eqn:Ec; [|done].
  cbn. rewrite Eu. destruct (udp_recv_slice len u) as [u' o] eqn:Er. cbn. destruct o as [[d meta]|]; [|done].
  destruct (negb (is_unspecified _) && _)%bool eqn:E1; [done|]. destruct (negb (_ =? 0) && _)%bool eqn:E2; [done|].
  intros [= -> _]. exists n, u, meta. rewrite Er. split_and!; [done..|]. split.
  - apply andb_false_iff in E1 as [E1%negb_false_iff|E1%negb_false_iff]; [left|right]; by apply bool_decide_eq_true in E1.
  - apply andb_false_iff in E2 as [E2%negb_false_iff|E2%negb_false_iff]; bool_to_prop; auto.
Qed.

(** A connected UDP socket receives only datagrams that come from its peer; those of others are
    taken from the queue and dropped while it waits. *)
Theorem udp_recv_from_peer fuel len n s remote data s' :
  us_peer s = Some remote → udp_socket_recv fuel len (n, s) = (Ok data, s') → received (us_handle s) len data remote.
Proof.
  intros Hp. unfold udp_socket_recv. erewrite M_bind_ok by (unfold udp_remote_endpoint; erewrite M_bind_ok by done; cbn; rewrite Hp; done).
  unfold udp_recv_impl. erewrite M_bind_ok by done. cbn [snd]. destruct (us_local s); [|done].
  unfold udp_block_on. erewrite M_bind_ok by done. cbn [snd]. destruct (us_nonblock s); [apply recv_try_received|].
  generalize (us_handle s) as h. intros h. clear Hp. revert n s. induction fuel as [|fuel IH]; intros n s; [done|].
  cbn [udp_block_loop]. unfold mbind at 1, M_bind at 1.
  unfold on_fst at 1. cbn [fst snd]. destruct (poll_interfaces n) as [[[]|e| |] n1] eqn:Ep; try (by unfold poll_interfaces in Ep; destruct (poll_events _)).
  destruct (udp_recv_try h (recv_op len remote h) (n1, s)) as [[d|e| |] [n2 s2]] eqn:E; try done.
  - intros [= -> _]. by eapply recv_try_received.
  - destruct e; try done. apply IH.
Qed.
End udp_props.

(** A datagram from a stranger, then one from the peer. *)
Definition demo_dgram (d : list Z) (port : Z) (u : DemoUdp) : DemoUdp :=
  {| u_bound := u_bound u; u_rx := u_rx u ++ [(d, {| ep_addr := Ipv4 (10, 0, 2, 2); ep_port := port |})]; u_tx := u_tx u |}.
Definition demo_udp_world : World := [[inr (0%nat, id, demo_dgram [1] 9)]; [inr (0%nat, id, demo_dgram [2; 3] 7)]].
Definition demo_udp_peer : SocketAddr := {| sa_ip := IpV4 (10, 0, 2, 2); sa_port := 7 |}.
Definition demo_udp_ops : list UdpOp :=
  [UConnect demo_udp_peer; URecv 3 10; USend 1 [5]; UPoll; UShutdown; URecvFrom 1 4].

Lemma udp_socket_safe_witness :
  ∃ n1 s n2 s2 n3 s3, UdpSocket_new (net_init demo_udp_world) = (Ok s, n1) ∧ udp_run demo_udp_ops (n1, s) = Some (n2, s2) ∧
    udp_socket_drop (n2, s2) = (Ok tt, (n3, s3)).
Proof.
  destruct (udp_socket_safe (net_init demo_udp_world) demo_udp_ops) as (n1&s&n2&s2&n3&s3&E1&E2&_&E3&_).
  { repeat constructor. }
  exists n1, s, n2, s2, n3, s3. split; [exact E1|]. split; [exact E2|exact E3].
Defined.

Definition demo_udp_connected : Net * UdpSocket :=
  match UdpSocket_new (net_init demo_udp_world) with
  | (Ok s, n) => (udp_socket_connect demo_udp_peer (n, s)).2
  | (_, n) => (n, {| us_handle := 0%nat; us_local := None; us_peer := None; us_nonblock := false |})
  end.
Lemma udp_recv_from_peer_witness :
  ∃ n s remote s', demo_udp_connected = (n, s) ∧ us_peer s = Some remote ∧ udp_socket_recv 2 10 (n, s) = (Ok [2; 3], s') ∧
    received (us_handle s) 10 [2; 3] remote.
Proof.
  assert (us_peer demo_udp_connected.2 = Some {| ep_addr := Ipv4 (10, 0, 2, 2); ep_port := 7 |} ∧
    (udp_socket_recv 2 10 demo_udp_connected).1 = Ok [2; 3]) as [Hp Hr] by (vm_compute; split; reflexivity).
  destruct demo_udp_connected as [n s]. destruct (udp_socket_recv 2 10 (n, s)) as [r s'] eqn:E. cbn [fst snd] in Hp, Hr. subst r.
  exists n, s, {| ep_addr := Ipv4 (10, 0, 2, 2); ep_port := 7 |}, s'. split; [reflexivity|]. split; [exact Hp|]. split; [exact E|].
  exact (udp_recv_from_peer _ _ _ _ _ _ _ Hp E).
Defined.
