(* ===== verification/CString.v ===== *)
(** * Strings and memory in C ([ulib/axlibc/c/string.c])

    The functions on bytes and on strings that end in a zero, over a memory of bytes in which an
    access outside of what is allocated is undefined. *)

From Stdlib Require Import ZArith Lia.
From stdpp Require Import base decidable numbers gmap list.
From S2P Require Import Prelude LinkedList.

Local Open Scope Z_scope.

(** ** Memory *)

Abbreviation CMem := (gmap Z Z).
Local Abbreviation CM := (M CMem NoError).
Definition load (p : Z) : CM Z := λ m, match m !! p with Some b => (Ok b, m) | None => (Panic, m) end.
Definition store (p b : Z) : CM unit := λ m,
  match m !! p with Some _ => (Ok tt, <[p := wrap 8 b]> m) | None => (Panic, m) end.
Definition NULL : Z := 0.

(** A [char] as an [int]: signed on x86-64, unsigned on the other architectures. *)
Definition char_int (signed : bool) (b : Z) : Z := if (signed && (128 <=? b))%bool then b - 256 else b.

(** ** Length and search *)

Fixpoint strlen_loop (fuel : nat) (s : Z) : CM Z :=
  match fuel with
  | O => out_of_fuel
  | S fuel => c ← load s; if c =? 0 then mret s else strlen_loop fuel (s + 1)
  end.
Definition strlen (fuel : nat) (s : Z) : CM Z := e ← strlen_loop fuel s; mret (sub64 e s).

Fixpoint memchr_loop (n : nat) (s c : Z) : CM Z :=
  match n with
  | O => mret NULL
  | S n => b ← load s; if b =? c then mret s else memchr_loop n (s + 1) c
  end.
Definition memchr (src c n : Z) : CM Z := memchr_loop (Z.to_nat n) src (wrap 8 c).
Definition strnlen (s n : Z) : CM Z :=
  p ← memchr s 0 n;
  mret (if negb (p =? NULL) then sub64 p s else n).

Fixpoint strchrnul_loop (fuel : nat) (s c : Z) : CM Z :=
  match fuel with
  | O => out_of_fuel
  | S fuel => b ← load s; if (negb (b =? 0) && negb (b =? c))%bool then strchrnul_loop fuel (s + 1) c else mret s
  end.
Definition strchrnul (fuel : nat) (s c : Z) : CM Z :=
  let c := wrap 8 c in
  if c =? 0 then l ← strlen fuel s; mret (s + l) else strchrnul_loop fuel s c.
Fixpoint strchr_loop (signed : bool) (fuel : nat) (s c : Z) : CM Z :=
  match fuel with
  | O => out_of_fuel
  | S fuel =>
      b ← load s;
      if (negb (char_int signed b =? c) && negb (b =? 0))%bool then strchr_loop signed fuel (s + 1) c
      else if char_int signed b =? c then mret s else mret NULL
  end.
Definition strchr (signed : bool) (fuel : nat) (s c : Z) : CM Z := strchr_loop signed fuel s c.
Fixpoint strrchr_loop (signed : bool) (fuel : nat) (s c found : Z) : CM Z :=
  match fuel with
  | O => out_of_fuel
  | S fuel =>
      b ← load s;
      let found := if char_int signed b =? char_int signed (wrap 8 c) then s else found in
      if negb (b =? 0) then strrchr_loop signed fuel (s + 1) c found else mret found
  end.
Definition strrchr (signed : bool) (fuel : nat) (s c : Z) : CM Z :=
  if negb (s =? NULL) then strrchr_loop signed fuel s c NULL else mret NULL.

(** ** Filling and copying *)

Fixpoint fill (n : nat) (s c : Z) : CM unit :=
  match n with O => mret tt | S n => _ ← store s c; fill n (s + 1) c end.
Definition memset (dest c n : Z) : CM Z :=
  let s := dest in
  if n =? 0 then mret dest
  else
    _ ← store s c; _ ← store (s + n - 1) c;
    if n <=? 2 then mret dest
    else
      _ ← store (s + 1) c; _ ← store (s + 2) c; _ ← store (s + n - 2) c; _ ← store (s + n - 3) c;
      if n <=? 6 then mret dest
      else
        _ ← store (s + 3) c; _ ← store (s + n - 4) c;
        if n <=? 8 then mret dest
        else
          let k := Z.land (sub64 0 s) 3 in
          let s := s + k in
          let n := Z.land (sub64 n k) (not64 3) in
          _ ← fill (Z.to_nat n) s c;
          mret dest.

Fixpoint copy_up (n : nat) (d s : Z) : CM unit :=
  match n with O => mret tt | S n => b ← load s; _ ← store d b; copy_up n (d + 1) (s + 1) end.
Fixpoint copy_down (n : nat) (d s : Z) : CM unit :=
  match n with O => mret tt | S n => b ← load (s + Z.of_nat n); _ ← store (d + Z.of_nat n) b; copy_down n d s end.
Definition memcpy (dest src n : Z) : CM Z := _ ← copy_up (Z.to_nat n) dest src; mret dest.
Definition memmove (dest src n : Z) : CM Z :=
  let d := dest in
  let s := src in
  if d =? s then mret d
  else if sub64 (sub64 s d) n <=? wrap 64 (-2 * n) then memcpy d s n
  else if d <? s then _ ← copy_up (Z.to_nat n) d s; mret dest
  else _ ← copy_down (Z.to_nat n) d s; mret dest.

Fixpoint strcpy (fuel : nat) (d s : Z) : CM Z :=
  match fuel with
  | O => out_of_fuel
  | S fuel => b ← load s; _ ← store d b; if negb (b =? 0) then strcpy fuel (d + 1) (s + 1) else mret d
  end.
Fixpoint strncpy_loop (n : nat) (d s : Z) : CM Z :=
  match n with
  | O => mret d
  | S n => b ← load s; _ ← store d b; if negb (b =? 0) then strncpy_loop n (d + 1) (s + 1) else mret d
  end.
Definition strncpy (d s n : Z) : CM Z := strncpy_loop (Z.to_nat n) d s.
Definition strcat (fuel : nat) (d s : Z) : CM Z := l ← strlen fuel d; _ ← strcpy fuel (d + l) s; mret d.
Fixpoint strncat_loop (n : nat) (d s : Z) : CM Z :=
  match n with
  | O => mret d
  | S n => b ← load s; if negb (b =? 0) then _ ← store d b; strncat_loop n (d + 1) (s + 1) else mret d
  end.
Definition strncat (fuel : nat) (d s n : Z) : CM Z :=
  l ← strlen fuel d;
  e ← strncat_loop (Z.to_nat n) (d + l) s;
  _ ← store e 0;
  mret d.

(** ** Comparison *)

Fixpoint strcmp (fuel : nat) (l r : Z) : CM Z :=
  match fuel with
  | O => out_of_fuel
  | S fuel =>
      a ← load l; b ← load r;
      if ((a =? b) && negb (a =? 0))%bool then strcmp fuel (l + 1) (r + 1) else mret (a - b)
  end.
Fixpoint strncmp_loop (n : nat) (l r : Z) : CM Z :=
  a ← load l; b ← load r;
  match n with
  | S n => if (negb (a =? 0) && negb (b =? 0) && (a =? b))%bool then strncmp_loop n (l + 1) (r + 1) else mret (a - b)
  | O => mret (a - b)
  end.
Definition strncmp (l r n : Z) : CM Z := if n =? 0 then mret 0 else strncmp_loop (Z.to_nat (n - 1)) l r.
Fixpoint memcmp_loop (n : nat) (l r : Z) : CM Z :=
  match n with
  | O => mret 0
  | S n => a ← load l; b ← load r; if a =? b then memcmp_loop n (l + 1) (r + 1) else mret (a - b)
  end.
Definition memcmp (l r n : Z) : CM Z := memcmp_loop (Z.to_nat n) l r.

(** ** Spans, with a set of bytes in four words *)

Local Abbreviation ByteSet := (list Z).
Definition byteset_empty : ByteSet := [0; 0; 0; 0].
Definition byteset_add (b : Z) (bs : ByteSet) : ByteSet :=
  alter (λ w, Z.lor w (shl64 1 (b mod 64))) (Z.to_nat (b / 64)) bs.
Definition byteset_has (b : Z) (bs : ByteSet) : bool :=
  negb (Z.land (default 0 (bs !! Z.to_nat (b / 64))) (shl64 1 (b mod 64)) =? 0).
Fixpoint byteset_fill (fuel : nat) (c : Z) (bs : ByteSet) : CM ByteSet :=
  match fuel with
  | O => out_of_fuel
  | S fuel => b ← load c; if negb (b =? 0) then byteset_fill fuel (c + 1) (byteset_add b bs) else mret bs
  end.
Fixpoint span_loop (fuel : nat) (stop : Z → bool) (s : Z) : CM Z :=
  match fuel with
  | O => out_of_fuel
  | S fuel => b ← load s; if stop b then mret s else span_loop fuel stop (s + 1)
  end.
Definition strcspn (fuel : nat) (s1 s2 : Z) : CM Z :=
  let a := s1 in
  b0 ← load s2;
  short ← (if b0 =? 0 then mret true else b1 ← load (s2 + 1); mret (b1 =? 0));
  (* [for (; *s1 != *s2; s1++) return s1 - a;] *)
  early ← (if short : bool then c1 ← load s1; mret (negb (c1 =? b0)) else mret false);
  if early : bool then mret (sub64 s1 a)
  else
    bs ← byteset_fill fuel s2 byteset_empty;
    e ← span_loop fuel (λ b, (b =? 0) || byteset_has b bs)%bool s1;
    mret (sub64 e a).
Definition strspn (fuel : nat) (s c : Z) : CM Z :=
  let a := s in
  b0 ← load c;
  if b0 =? 0 then mret 0
  else
    b1 ← load (c + 1);
    if b1 =? 0 then e ← span_loop fuel (λ b, negb (b =? b0)) s; mret (sub64 e a)
    else
      bs ← byteset_fill fuel c byteset_empty;
      e ← span_loop fuel (λ b, (b =? 0) || negb (byteset_has b bs))%bool s;
      mret (sub64 e a).
Definition strpbrk (fuel : nat) (s b : Z) : CM Z :=
  l ← strcspn fuel s b;
  c ← load (s + l);
  mret (if negb (c =? 0) then s + l else NULL).


(** ** Bytes and strings in memory *)

Definition is_byte (b : Z) : Prop := 0 ≤ b < 256.
Definition bytes (m : CMem) (p : Z) (l : list Z) : Prop := ∀ i b, l !! i = Some b → m !! (p + Z.of_nat i) = Some b.
Definition cstr (m : CMem) (p : Z) (l : list Z) : Prop := bytes m p (l ++ [0]) ∧ Forall (λ b, 0 < b < 256) l.
Definition allocated (m : CMem) (p n : Z) : Prop := ∀ i, 0 ≤ i < n → is_Some (m !! (p + i)).
(** The memory with [l] written at [p]. *)
Fixpoint put (p : Z) (l : list Z) (m : CMem) : CMem :=
  match l with [] => m | b :: l => put (p + 1) l (<[p := b]> m) end.

Lemma put_lookup l : ∀ p m q,
  put p l m !! q = if decide (p ≤ q < p + Z.of_nat (length l)) then l !! Z.to_nat (q - p) else m !! q.
Proof.
  induction l as [|b l IH]; intros p m q; cbn [put length]; [rewrite decide_False by lia; done|].
  rewrite IH. destruct (decide (p + 1 ≤ q < _)).
  - rewrite decide_True by lia. replace (Z.to_nat (q - p)) with (S (Z.to_nat (q - (p + 1)))) by lia. done.
  - destruct (decide (q = p)) as [->|].
    + rewrite decide_True by lia. rewrite lookup_insert_eq. by replace (Z.to_nat (p - p)) with O by lia.
    + rewrite decide_False by lia. by rewrite lookup_insert_ne.
Qed.
Lemma put_snoc l p b m : put p (l ++ [b]) m = put p l (<[p + Z.of_nat (length l) := b]> m).
Proof.
  apply map_eq. intros q. rewrite !put_lookup, lookup_insert, length_app. cbn [length].
  repeat case_decide; try lia; try done.
  - by rewrite lookup_app_l by lia.
  - rewrite lookup_app_r by lia. by replace (Z.to_nat (q - p) - length l)%nat with O by lia.
Qed.

Lemma bytes_cons m p b l : bytes m p (b :: l) ↔ m !! p = Some b ∧ bytes m (p + 1) l.
Proof.
  unfold bytes. split.
  - intros H. split; [by rewrite <-(H O b eq_refl), Z.add_0_r|]. intros i c Hi. rewrite <-(H (S i) c Hi). f_equal. lia.
  - intros [H0 H] [|i] c; cbn; [intros [= <-]; by rewrite Z.add_0_r|]. intros Hi. rewrite <-(H i c Hi). f_equal. lia.
Qed.
Lemma cstr_nil m p : cstr m p [] ↔ m !! p = Some 0.
Proof. unfold cstr. cbn. rewrite bytes_cons. split; [tauto|]. intros. split; [|done]. split; [done|]. by intros i b. Qed.
Lemma cstr_cons m p b l : cstr m p (b :: l) ↔ m !! p = Some b ∧ 0 < b < 256 ∧ cstr m (p + 1) l.
Proof. unfold cstr. cbn. rewrite bytes_cons, Forall_cons. tauto. Qed.
Lemma load_ok m p b : m !! p = Some b → load p m = (Ok b, m).
Proof. unfold load. by intros ->. Qed.
Lemma store_ok m p b : is_Some (m !! p) → is_byte b → store p b m = (Ok tt, <[p := b]> m).
Proof. unfold store, is_byte. intros [x ->] Hb. by rewrite wrap_small by lia. Qed.
Lemma allocated_insert m p n q b : allocated m p n → allocated (<[q := b]> m) p n.
Proof. intros Ha i Hi. rewrite lookup_insert. case_decide; [done|]. by apply Ha. Qed.

Ltac cload H := erewrite M_bind_ok by (apply load_ok; exact H).

(** ** Length and search *)

Lemma strlen_loop_ok l : ∀ m p fuel,
  cstr m p l → (length l < fuel)%nat → strlen_loop fuel p m = (Ok (p + Z.of_nat (length l)), m).
Proof.
  induction l as [|b l IH]; intros m p [|fuel] Hs Hf; cbn in Hf; try lia; cbn [strlen_loop].
  - apply cstr_nil in Hs. cload Hs. cbn. by rewrite Z.add_0_r.
  - apply cstr_cons in Hs as (Hb&Hr&Hs). cload Hb. destruct (Z.eqb_spec b 0); [lia|]. rewrite IH by (done || lia).
    do 2 f_equal. cbn. lia.
Qed.
Lemma strlen_ok l m p fuel :
  cstr m p l → (length l < fuel)%nat → 0 ≤ p → p + Z.of_nat (length l) < 2 ^ 64 →
  strlen fuel p m = (Ok (Z.of_nat (length l)), m).
Proof.
  intros Hs Hf H0 H1. unfold strlen. erewrite M_bind_ok by (by apply strlen_loop_ok).
  rewrite sub64_small by (unfold in_u64; lia). unfold mret, M_ret. do 2 f_equal. lia.
Qed.

(** The address of the first byte of [l] that satisfies [f], and of the last one. *)
Fixpoint first_at (f : Z → bool) (p : Z) (l : list Z) : Z :=
  match l with [] => NULL | b :: l => if f b then p else first_at f (p + 1) l end.
Fixpoint last_at (f : Z → bool) (p : Z) (l : list Z) (found : Z) : Z :=
  match l with [] => found | b :: l => last_at f (p + 1) l (if f b then p else found) end.

Lemma memchr_ok l m p c : bytes m p l → memchr p c (Z.of_nat (length l)) m = (Ok (first_at (λ b, b =? wrap 8 c) p l), m).
Proof.
  unfold memchr. rewrite Nat2Z.id. generalize (wrap 8 c). intros x. revert p. induction l as [|b l IH]; intros p; [done|].
  intros [Hb Hs]%bytes_cons. cbn [length memchr_loop first_at]. cload Hb. destruct (_ =? _); [done|]. by apply IH.
Qed.
Lemma strchr_ok signed l c : ∀ m p fuel,
  cstr m p l → (length l < fuel)%nat →
  strchr signed fuel p c m = (Ok (first_at (λ b, char_int signed b =? c) p (l ++ [0])), m).
Proof.
  unfold strchr. induction l as [|b l IH]; intros m p [|fuel] Hs Hf; cbn in Hf; try lia; cbn [strchr_loop first_at app].
  - apply cstr_nil in Hs. cload Hs. destruct (char_int signed 0 =? c) eqn:E; cbn; rewrite ?E; done.
  - apply cstr_cons in Hs as (Hb&Hr&Hs). cload Hb. destruct (char_int signed b =? c) eqn:E; cbn [negb andb]; [done|].
    destruct (Z.eqb_spec b 0); [lia|]. cbn [negb]. apply IH; [done|lia].
Qed.
Lemma strrchr_ok signed l c : ∀ m p fuel found,
  cstr m p l → (length l < fuel)%nat →
  strrchr_loop signed fuel p c found m =
    (Ok (last_at (λ b, char_int signed b =? char_int signed (wrap 8 c)) p (l ++ [0]) found), m).
Proof.
  induction l as [|b l IH]; intros m p [|fuel] found Hs Hf; cbn in Hf; try lia; cbn [strrchr_loop last_at app].
  - apply cstr_nil in Hs. cload Hs. done.
  - apply cstr_cons in Hs as (Hb&Hr&Hs). cload Hb. destruct (Z.eqb_spec b 0); [lia|]. cbn [negb]. apply IH; [done|lia].
Qed.
Lemma span_loop_ok stop l : ∀ m p fuel,
  cstr m p l → (length l < fuel)%nat → stop 0 = true →
  ∃ k, span_loop fuel stop p m = (Ok (p + Z.of_nat k), m) ∧ (k ≤ length l)%nat ∧
    Forall (λ b, stop b = false) (take k l) ∧ (∀ b, l !! k = Some b → stop b = true).
Proof.
  induction l as [|b l IH]; intros m p [|fuel] Hs Hf H0; cbn in Hf; try lia; cbn [span_loop].
  - apply cstr_nil in Hs. cload Hs. rewrite H0. exists O. rewrite Z.add_0_r. done.
  - apply cstr_cons in Hs as (Hb&Hr&Hs). cload Hb. destruct (stop b) eqn:E.
    + exists O. rewrite Z.add_0_r. split_and!; [done|lia|done|]. by intros c [= <-].
    + destruct (IH m (p + 1) fuel Hs ltac:(lia) H0) as (k&Ek&Hk&Ha&Hn). exists (S k). rewrite Ek. split_and!.
      * do 2 f_equal. lia.
      * cbn. lia.
      * cbn. by constructor.
      * done.
Qed.

(** ** Spans *)

Lemma shl64_one k : 0 ≤ k < 64 → shl64 1 k = 2 ^ k.
Proof.
  intros Hk. unfold shl64. rewrite Z.shiftl_1_l, wrap_small; [done|]. split; [lia|]. apply Z.pow_lt_mono_r; lia.
Qed.
Lemma land_pow2_testbit w k : 0 ≤ k → negb (Z.land w (2 ^ k) =? 0) = Z.testbit w k.
Proof.
  intros Hk. assert (Z.land w (2 ^ k) = if Z.testbit w k then 2 ^ k else 0) as ->.
  { apply Z.bits_inj'. intros i Hi. rewrite Z.land_spec, Z.pow2_bits_eqb by done. destruct (Z.eqb_spec k i) as [->|].
    - destruct (Z.testbit w i); [rewrite Z.pow2_bits_true by lia; done|by rewrite Z.bits_0].
    - rewrite andb_false_r. destruct (Z.testbit w k); [rewrite Z.pow2_bits_false by lia; done|by rewrite Z.bits_0]. }
  destruct (Z.testbit w k); [|done]. apply negb_true_iff, Z.eqb_neq. lia.
Qed.
Lemma byteset_has_testbit b bs : is_byte b → byteset_has b bs = Z.testbit (default 0 (bs !! Z.to_nat (b / 64))) (b mod 64).
Proof.
  intros Hb. pose proof (Z.mod_pos_bound b 64 ltac:(lia)). unfold byteset_has. rewrite shl64_one by lia.
  apply land_pow2_testbit. lia.
Qed.
Lemma byteset_add_has b c bs :
  is_byte b → is_byte c → length bs = 4%nat → byteset_has b (byteset_add c bs) = ((b =? c) || byteset_has b bs)%bool.
Proof.
  intros Hb Hc Hl. unfold is_byte in *. rewrite !byteset_has_testbit by done. unfold byteset_add.
  pose proof (Z.mod_pos_bound b 64 ltac:(lia)). pose proof (Z.mod_pos_bound c 64 ltac:(lia)).
  pose proof (Z.div_mod b 64 ltac:(lia)). pose proof (Z.div_mod c 64 ltac:(lia)).
  assert (0 ≤ b / 64 < 4) by (split; [apply Z.div_pos; lia|apply Z.div_lt_upper_bound; lia]).
  assert (0 ≤ c / 64) by (apply Z.div_pos; lia).
  rewrite shl64_one by lia. destruct (decide (c / 64 = b / 64)) as [Hd|Hd].
  - rewrite Hd, list_lookup_alter_eq. destruct (lookup_lt_is_Some_2 bs (Z.to_nat (b / 64))) as [w Hw]; [lia|].
    rewrite Hw. cbn. rewrite Z.lor_spec, Z.pow2_bits_eqb by lia. rewrite orb_comm. f_equal.
    destruct (Z.eqb_spec (c mod 64) (b mod 64)), (Z.eqb_spec b c); try done; lia.
  - rewrite list_lookup_alter_ne by lia. destruct (Z.eqb_spec b c) as [->|]; [done|]. done.
Qed.
Lemma byteset_fill_ok k : ∀ m p fuel bs,
  cstr m p k → (length k < fuel)%nat → length bs = 4%nat →
  ∃ bs', byteset_fill fuel p bs m = (Ok bs', m) ∧
    ∀ b, is_byte b → byteset_has b bs' = (bool_decide (b ∈ k) || byteset_has b bs)%bool.
Proof.
  induction k as [|c k IH]; intros m p [|fuel] bs Hs Hf Hl; cbn in Hf; try lia; cbn [byteset_fill].
  - apply cstr_nil in Hs. cload Hs. exists bs. split; [done|]. intros b _. by rewrite bool_decide_eq_false_2 by apply not_elem_of_nil.
  - apply cstr_cons in Hs as (Hc&Hr&Hs). cload Hc. destruct (Z.eqb_spec c 0); [lia|]. cbn [negb].
    destruct (IH m (p + 1) fuel (byteset_add c bs) Hs) as (bs'&E&Hb); [lia|unfold byteset_add; by rewrite length_alter|].
    exists bs'. split; [done|]. intros b Hbb. rewrite Hb, byteset_add_has by (unfold is_byte in *; done || lia).
    rewrite orb_assoc. f_equal. apply eq_true_iff_eq. rewrite orb_true_iff, !bool_decide_eq_true, elem_of_cons, Z.eqb_eq. naive_solver.
Qed.
Lemma byteset_empty_has b : is_byte b → byteset_has b byteset_empty = false.
Proof.
  intros Hb. rewrite byteset_has_testbit by done. destruct (byteset_empty !! _) as [w|] eqn:E; cbn; [|apply Z.bits_0].
  assert (w = 0) as ->; [|apply Z.bits_0]. unfold byteset_empty in E. apply list_elem_of_lookup_2 in E. set_solver.
Qed.

(** The length of the longest prefix of [l] whose bytes satisfy [f]. *)
Fixpoint prefix_len (f : Z → bool) (l : list Z) : nat :=
  match l with [] => 0 | b :: l => if f b then S (prefix_len f l) else 0 end.
Lemma prefix_len_ok (f : Z → bool) l k :
  (k ≤ length l)%nat → Forall (λ b, f b = true) (take k l) → (∀ b, l !! k = Some b → f b = false) → prefix_len f l = k.
Proof.
  revert k. induction l as [|b l IH]; intros k Hk Ha Hn; cbn in Hk; [cbn; lia|]. cbn. destruct k as [|k].
  - by rewrite (Hn b eq_refl).
  - cbn in Ha. apply Forall_cons in Ha as [-> Ha]. f_equal. apply IH; [lia|done|]. intros c Hc. by apply Hn.
Qed.
(** A run over a string stops at the first byte that does not satisfy [f]. *)
Lemma span_prefix stop f l m p fuel :
  cstr m p l → (length l < fuel)%nat → stop 0 = true → (∀ b, 0 < b < 256 → stop b = negb (f b)) →
  span_loop fuel stop p m = (Ok (p + Z.of_nat (prefix_len f l)), m).
Proof.
  intros Hs Hf H0 Hst. destruct (span_loop_ok stop l m p fuel Hs Hf H0) as (k&->&Hk&Ha&Hn). do 2 f_equal.
  destruct Hs as [_ Hr]. rewrite Forall_lookup in Hr. rewrite (prefix_len_ok f l k); [done..| |].
  - rewrite Forall_lookup in *. intros i b Hi. specialize (Ha _ _ Hi). apply lookup_take_Some in Hi as [Hi _].
    rewrite Hst in Ha by (by eapply Hr). by apply negb_false_iff.
  - intros b Hb. specialize (Hn _ Hb). rewrite Hst in Hn by (by eapply Hr). by apply negb_true_iff.
Qed.
Lemma prefix_len_le f l : (prefix_len f l ≤ length l)%nat.
Proof. induction l as [|b l IH]; cbn; [done|]. destruct (f b); lia. Qed.

Lemma cstr_range m p l i b : cstr m p l → l !! i = Some b → 0 < b < 256.
Proof. intros [_ Hf]. by apply (Forall_lookup_1 _ _ _ _ Hf). Qed.
Lemma strspn_ok l k m p q fuel :
  cstr m p l → cstr m q k → (length l < fuel)%nat → (length k < fuel)%nat → 0 ≤ p → p + Z.of_nat (length l) < 2 ^ 64 →
  strspn fuel p q m = (Ok (Z.of_nat (prefix_len (λ b, bool_decide (b ∈ k)) l)), m).
Proof.
  intros Hs Hq Hf Hfk H0 H1. unfold strspn. pose proof (prefix_len_le (λ b, bool_decide (b ∈ k)) l).
  assert (∀ e, e = p + Z.of_nat (prefix_len (λ b, bool_decide (b ∈ k)) l) →
    sub64 e p = Z.of_nat (prefix_len (λ b, bool_decide (b ∈ k)) l)) as Hend.
  { intros e ->. rewrite sub64_small by (unfold in_u64; lia). lia. }
  destruct k as [|c k].
  { apply cstr_nil in Hq. cload Hq. cbn. destruct l; [done|]. cbn. by rewrite bool_decide_eq_false_2 by apply not_elem_of_nil. }
  pose proof Hq as Hq'. apply cstr_cons in Hq as (Hc&Hr&Hk). cload Hc. destruct (Z.eqb_spec c 0); [lia|].
  assert (∃ b1, m !! (q + 1) = Some b1 ∧ (b1 = 0 ↔ k = [])) as (b1&Hb1&Hiff).
  { destruct k as [|d k]; [exists 0; by apply cstr_nil in Hk|]. apply cstr_cons in Hk as (?&?&_). exists d. split; [done|]. split; [lia|done]. }
  cload Hb1. destruct (Z.eqb_spec b1 0) as [Hz|Hz].
  - apply Hiff in Hz as ->.
    erewrite M_bind_ok by (apply (span_prefix _ (λ b, bool_decide (b ∈ [c])));
      [done|done|apply negb_true_iff, Z.eqb_neq; lia|];
      intros b _; f_equal; apply eq_true_iff_eq; rewrite Z.eqb_eq, bool_decide_eq_true, list_elem_of_singleton; done).
    unfold mret, M_ret. by rewrite Hend.
  - destruct (byteset_fill_ok (c :: k) m q fuel byteset_empty Hq' Hfk eq_refl) as (bs&E&Hbs). erewrite M_bind_ok by exact E.
    erewrite M_bind_ok by (apply (span_prefix _ (λ b, bool_decide (b ∈ c :: k))); [done|done|done|];
      intros b Hb; rewrite Hbs, byteset_empty_has, orb_false_r by (unfold is_byte; lia); destruct (Z.eqb_spec b 0); [lia|done]).
    unfold mret, M_ret. by rewrite Hend.
Qed.
(** With two bytes or more in the second string. *)
Lemma strcspn_ok l c d k m p q fuel :
  cstr m p l → cstr m q (c :: d :: k) → (length l < fuel)%nat → (2 + length k < fuel)%nat → 0 ≤ p → p + Z.of_nat (length l) < 2 ^ 64 →
  strcspn fuel p q m = (Ok (Z.of_nat (prefix_len (λ b, bool_decide (b ∉ c :: d :: k)) l)), m).
Proof.
  intros Hs Hq Hf Hfk H0 H1. unfold strcspn. pose proof (prefix_len_le (λ b, bool_decide (b ∉ c :: d :: k)) l).
  pose proof Hq as Hq'. apply cstr_cons in Hq as (Hc&Hr&Hk). cload Hc. destruct (Z.eqb_spec c 0); [lia|].
  apply cstr_cons in Hk as (Hd&Hr'&_). erewrite M_bind_ok by (cload Hd; done). destruct (Z.eqb_spec d 0); [lia|].
  erewrite M_bind_ok by done.
  destruct (byteset_fill_ok (c :: d :: k) m q fuel byteset_empty Hq' Hfk eq_refl) as (bs&E&Hbs). erewrite M_bind_ok by exact E.
  erewrite M_bind_ok by (apply (span_prefix _ (λ b, bool_decide (b ∉ c :: d :: k))); [done|done|done|];
    intros b Hb; rewrite Hbs, byteset_empty_has, orb_false_r, bool_decide_not, negb_involutive by (unfold is_byte; lia);
    destruct (Z.eqb_spec b 0); [lia|done]).
  unfold mret, M_ret. rewrite sub64_small by (unfold in_u64; lia). do 2 f_equal. lia.
Qed.

(** ** Filling *)

(** [m'] is [m] with [v] at the addresses of [P]. *)
Definition filled (m m' : CMem) (P : Z → Prop) (v : Z) : Prop :=
  ∀ q, (P q → m' !! q = Some v) ∧ (¬ P q → m' !! q = m !! q).
Lemma filled_store m m' P v p c :
  filled m m' P v → is_Some (m !! p) → v = wrap 8 c →
  ∃ m'', store p c m' = (Ok tt, m'') ∧ filled m m'' (λ q, P q ∨ q = p) v.
Proof.
  intros Hf Hp ->. assert (is_Some (m' !! p)) as [x Hx].
  { destruct (Hf p) as [Hy Hn]. destruct (m' !! p) eqn:E; [by eexists|]. exfalso. assert (¬ P p) as Hnp.
    { intros Hpp. by specialize (Hy Hpp). }
    rewrite <-(Hn Hnp) in Hp. by destruct Hp. }
  unfold store. rewrite Hx. eexists. split; [done|]. intros q. rewrite lookup_insert. destruct (Hf q) as [Hy Hn].
  case_decide as Hd; split.
  - done.
  - intros Hq. by destruct Hq; right.
  - intros [?|?]; [auto|congruence].
  - intros Hq. apply Hn. tauto.
Qed.
Lemma filled_loop n : ∀ m m' P v p c,
  filled m m' P v → (∀ i, 0 ≤ i < Z.of_nat n → is_Some (m !! (p + i))) → v = wrap 8 c →
  ∃ m'', fill n p c m' = (Ok tt, m'') ∧ filled m m'' (λ q, P q ∨ p ≤ q < p + Z.of_nat n) v.
Proof.
  induction n as [|n IH]; intros m m' P v p c Hf Ha Hv; cbn [fill].
  - exists m'. split; [done|]. intros q. destruct (Hf q) as [Hy Hn]. split; [intros [?|?]; [auto|lia]|tauto].
  - destruct (filled_store _ _ _ _ p c Hf) as (m1&E&Hf1); [rewrite <-(Z.add_0_r p); apply Ha; lia|done|].
    erewrite M_bind_ok by exact E. destruct (IH m m1 _ v (p + 1) c Hf1) as (m2&E2&Hf2); [|done|].
    { intros i Hi. replace (p + 1 + i) with (p + (i + 1)) by lia. apply Ha. lia. }
    exists m2. split; [done|]. intros q. destruct (Hf2 q) as [Hy Hn]. split.
    + intros [?|?]; apply Hy; [tauto|]. destruct (decide (q = p)); [tauto|right; lia].
    + intros Hq. apply Hn. intros [[?|?]|?]; apply Hq; [tauto|right; lia|right; lia].
Qed.
Lemma filled_put m m' P v p n :
  0 ≤ n → filled m m' P v → (∀ q, P q ↔ p ≤ q < p + n) → m' = put p (replicate (Z.to_nat n) v) m.
Proof.
  intros H0 Hf HP. apply map_eq. intros q. rewrite put_lookup, length_replicate. destruct (Hf q) as [Hy Hn].
  case_decide.
  - rewrite lookup_replicate_2 by lia. apply Hy, HP. lia.
  - apply Hn. rewrite HP. lia.
Qed.

Ltac cstore Hf p Ha := let m1 := fresh "m" in let E := fresh "E" in let Hf1 := fresh "Hf" in
  destruct (filled_store _ _ _ _ p _ Hf Ha eq_refl) as (m1&E&Hf1); erewrite M_bind_ok by exact E; clear E; try clear Hf; rename Hf1 into Hf.

Lemma memset_ok m d c n :
  allocated m d n → 0 ≤ n < 2 ^ 64 → 0 ≤ d → d + n ≤ 2 ^ 64 →
  memset d c n m = (Ok d, put d (replicate (Z.to_nat n) (wrap 8 c)) m).
Proof.
  intros Ha Hn Hd Hdn. assert (∀ x, d ≤ x < d + n → is_Some (m !! x)) as Hal.
  { intros x Hx. replace x with (d + (x - d)) by lia. apply Ha. lia. }
  unfold memset. destruct (Z.eqb_spec n 0) as [->|]; [done|].
  assert (filled m m (λ _, False) (wrap 8 c)) as Hf by (intros q; split; [done|done]).
  cstore Hf d (Hal d ltac:(lia)). cstore Hf (d + n - 1) (Hal (d + n - 1) ltac:(lia)).
  destruct (n <=? 2) eqn:E2; bool_to_prop.
  { unfold mret, M_ret. f_equal. eapply filled_put; [lia|exact Hf|]. intros q. cbn. lia. }
  cstore Hf (d + 1) (Hal (d + 1) ltac:(lia)). cstore Hf (d + 2) (Hal (d + 2) ltac:(lia)).
  cstore Hf (d + n - 2) (Hal (d + n - 2) ltac:(lia)). cstore Hf (d + n - 3) (Hal (d + n - 3) ltac:(lia)).
  destruct (n <=? 6) eqn:E6; bool_to_prop.
  { unfold mret, M_ret. f_equal. eapply filled_put; [lia|exact Hf|]. intros q. cbn. lia. }
  cstore Hf (d + 3) (Hal (d + 3) ltac:(lia)). cstore Hf (d + n - 4) (Hal (d + n - 4) ltac:(lia)).
  destruct (n <=? 8) eqn:E8; bool_to_prop.
  { unfold mret, M_ret. f_equal. eapply filled_put; [lia|exact Hf|]. intros q. cbn. lia. }
  assert (0 ≤ Z.land (sub64 0 d) 3 < 4) as Hk by (apply (land_bounded _ 3 2); lia).
  set (k := Z.land (sub64 0 d) 3) in *. rewrite sub64_small by (unfold in_u64; lia).
  assert (Z.land (n - k) (not64 3) = n - k - (n - k) mod 4) as Hl.
  { rewrite land_not64 by (unfold in_u64; lia). by rewrite (ldiff_pow2_mask _ 2). }
  pose proof (Z.mod_pos_bound (n - k) 4 ltac:(lia)). cbn zeta. rewrite Hl.
  destruct (filled_loop (Z.to_nat (n - k - (n - k) mod 4)) _ _ _ _ (d + k) c Hf) as (mz&E&Hf2); [|done|].
  { intros i Hi. apply Hal. lia. }
  erewrite M_bind_ok by exact E. unfold mret, M_ret. f_equal. eapply filled_put; [lia|exact Hf2|].
  intros q. cbn. rewrite Z2Nat.id by lia. lia.
Qed.

(** ** Copying *)

Lemma bytes_insert m p l q b : bytes m p l → (q < p ∨ p + Z.of_nat (length l) ≤ q) → bytes (<[q := b]> m) p l.
Proof. intros Hl Hq i c Hi. rewrite lookup_insert_ne; [by apply Hl|]. apply lookup_lt_Some in Hi. lia. Qed.
Lemma copy_up_ok l : ∀ m d s,
  bytes m s l → Forall is_byte l → allocated m d (Z.of_nat (length l)) → (d ≤ s ∨ s + Z.of_nat (length l) ≤ d) →
  copy_up (length l) d s m = (Ok tt, put d l m).
Proof.
  induction l as [|b l IH]; intros m d s Hs Hb Ha Hd; [done|]. cbn [length copy_up put].
  apply bytes_cons in Hs as [Hs0 Hs]. apply Forall_cons in Hb as [Hb0 Hb]. cbn [length] in *. cload Hs0.
  erewrite M_bind_ok by (apply store_ok; [rewrite <-(Z.add_0_r d); apply Ha; lia|done]). apply IH; [|done| |lia].
  - apply bytes_insert; [done|]. lia.
  - intros i Hi. rewrite lookup_insert_ne by lia. replace (d + 1 + i) with (d + (i + 1)) by lia. apply Ha. lia.
Qed.
Lemma copy_down_ok l : ∀ m d s,
  bytes m s l → Forall is_byte l → allocated m d (Z.of_nat (length l)) → s ≤ d →
  copy_down (length l) d s m = (Ok tt, put d l m).
Proof.
  induction l as [|b l IH] using rev_ind; intros m d s Hs Hb Ha Hd; [done|].
  rewrite length_app, Nat.add_comm in *. cbn [length plus copy_down]. rewrite put_snoc.
  apply Forall_app in Hb as [Hb [Hb0 _]%Forall_cons].
  assert (m !! (s + Z.of_nat (length l)) = Some b) as Hl by (apply Hs; by rewrite list_lookup_middle).
  cload Hl. erewrite M_bind_ok by (apply store_ok; [apply Ha; cbn; lia|done]). apply IH; [|done| |done].
  - apply bytes_insert; [|lia]. intros i c Hi. apply Hs. by rewrite lookup_app_l by (by eapply lookup_lt_Some).
  - intros i Hi. rewrite lookup_insert_ne by lia. apply Ha. cbn. lia.
Qed.

Lemma strcpy_ok k : ∀ m d s fuel,
  cstr m s k → allocated m d (Z.of_nat (length k) + 1) → (length k < fuel)%nat →
  (d + Z.of_nat (length k) < s ∨ s + Z.of_nat (length k) < d) →
  strcpy fuel d s m = (Ok (d + Z.of_nat (length k)), put d (k ++ [0]) m).
Proof.
  induction k as [|b k IH]; intros m d s [|fuel] Hs Ha Hf Hd; cbn [length] in *; try lia; cbn [strcpy app put].
  - apply cstr_nil in Hs. cload Hs. erewrite M_bind_ok by (apply store_ok; [rewrite <-(Z.add_0_r d); apply Ha; lia|unfold is_byte; lia]).
    cbn. by rewrite Z.add_0_r.
  - apply cstr_cons in Hs as (Hb&Hr&Hs). cload Hb.
    erewrite M_bind_ok by (apply store_ok; [rewrite <-(Z.add_0_r d); apply Ha; lia|unfold is_byte; lia]).
    destruct (Z.eqb_spec b 0); [lia|]. cbn [negb]. rewrite IH; [do 2 f_equal; lia| | |lia|lia].
    + destruct Hs as [Hs Hr']. split; [|done]. apply bytes_insert; [done|]. rewrite length_app. cbn. lia.
    + intros i Hi. rewrite lookup_insert_ne by lia. replace (d + 1 + i) with (d + (i + 1)) by lia. apply Ha. lia.
Qed.

(** ** Comparison *)

(** The difference of the first bytes that differ, the end of a string being 0. *)
Fixpoint difference (l k : list Z) : Z :=
  match l, k with
  | a :: l, b :: k => if a =? b then difference l k else a - b
  | a :: _, [] => a
  | [], b :: _ => - b
  | [], [] => 0
  end.
Lemma strcmp_ok l : ∀ k m p q fuel,
  cstr m p l → cstr m q k → (length l < fuel)%nat → strcmp fuel p q m = (Ok (difference l k), m).
Proof.
  induction l as [|a l IH]; intros k m p q [|fuel] Hp Hq Hf; cbn [length] in *; try lia; cbn [strcmp].
  - apply cstr_nil in Hp. cload Hp. destruct k as [|b k].
    + apply cstr_nil in Hq. cload Hq. done.
    + apply cstr_cons in Hq as (Hb&Hr&Hq). cload Hb. destruct (Z.eqb_spec 0 b); [lia|]. cbn. done.
  - apply cstr_cons in Hp as (Ha&Hra&Hp). cload Ha. destruct k as [|b k].
    + apply cstr_nil in Hq. cload Hq. destruct (Z.eqb_spec a 0); [lia|]. cbn. by rewrite Z.sub_0_r.
    + apply cstr_cons in Hq as (Hb&Hrb&Hq). cload Hb. cbn [difference]. destruct (Z.eqb_spec a b) as [->|]; [|done].
      destruct (Z.eqb_spec b 0); [lia|]. cbn. apply IH; [done|done|lia].
Qed.
(** The order of strings as sequences of unsigned bytes. *)
Fixpoint lex_lt (l k : list Z) : Prop :=
  match l, k with
  | a :: l, b :: k => a < b ∨ a = b ∧ lex_lt l k
  | [], _ :: _ => True
  | _, [] => False
  end.
Lemma difference_sign l : ∀ k, Forall (λ b, 0 < b < 256) l → Forall (λ b, 0 < b < 256) k →
  (difference l k = 0 ↔ l = k) ∧ (difference l k < 0 ↔ lex_lt l k) ∧ (0 < difference l k ↔ lex_lt k l).
Proof.
  induction l as [|a l IH]; intros [|b k] Hl Hk; cbn.
  - split_and!; split; done || lia.
  - apply Forall_cons in Hk as [Hb _]. split_and!; split; try done; lia.
  - apply Forall_cons in Hl as [Ha _]. split_and!; split; try done; lia.
  - apply Forall_cons in Hl as [Ha Hl], Hk as [Hb Hk]. destruct (IH k Hl Hk) as (H1&H2&H3).
    destruct (Z.eqb_spec a b) as [->|Hne]; [split_and!|].
    + rewrite H1. split; [by intros ->|by intros [= ->]].
    + rewrite H2. split; [by right|]. intros [?|[_ ?]]; [lia|done].
    + rewrite H3. split; [by right|]. intros [?|[_ ?]]; [lia|done].
    + split_and!; split; try lia; try (by intros [= ?]).
Qed.

(** ** What the functions do *)

Lemma cstr_put m d l k :
  cstr m d l → Forall (λ b, 0 < b < 256) k → cstr (put (d + Z.of_nat (length l)) (k ++ [0]) m) d (l ++ k).
Proof.
  intros [Hl Hr] Hk. split; [|by apply Forall_app]. rewrite <-app_assoc. intros i b Hi. rewrite put_lookup.
  rewrite !length_app in *. cbn [length] in *. destruct (decide (i < length l)%nat).
  - rewrite decide_False by lia. apply Hl. rewrite lookup_app_l in * by done. done.
  - pose proof (lookup_lt_Some _ _ _ Hi) as Hlt. rewrite !length_app in Hlt. cbn in Hlt. rewrite decide_True by lia.
    rewrite lookup_app_r in Hi by lia. rewrite <-Hi. f_equal. lia.
Qed.
Lemma strcat_ok l k m d s fuel :
  cstr m d l → cstr m s k → allocated m (d + Z.of_nat (length l)) (Z.of_nat (length k) + 1) →
  (length l < fuel)%nat → (length k < fuel)%nat → 0 ≤ d → d + Z.of_nat (length l) < 2 ^ 64 →
  (d + Z.of_nat (length l) + Z.of_nat (length k) < s ∨ s + Z.of_nat (length k) < d) →
  ∃ m', strcat fuel d s m = (Ok d, m') ∧ cstr m' d (l ++ k) ∧
    ∀ q, ¬ (d + Z.of_nat (length l) ≤ q ≤ d + Z.of_nat (length l) + Z.of_nat (length k)) → m' !! q = m !! q.
Proof.
  intros Hd Hs Ha Hf Hfk H0 H1 Hx. eexists. unfold strcat. erewrite M_bind_ok by (by apply strlen_ok).
  erewrite M_bind_ok by (apply strcpy_ok; [done|done|done|lia]). split; [done|]. split; [apply cstr_put; [done|apply Hs]|].
  intros q Hq. rewrite put_lookup, length_app. cbn. by rewrite decide_False by lia.
Qed.

(** memmove copies the bytes whether the areas overlap or not, and in whichever way; memset fills
    its area, whatever its alignment.  Both return the destination and change no other byte. *)
Theorem memory_functions_spec m d s l c :
  bytes m s l → Forall is_byte l → allocated m d (Z.of_nat (length l)) →
  0 ≤ d → 0 ≤ s → d + Z.of_nat (length l) ≤ 2 ^ 64 → s + Z.of_nat (length l) ≤ 2 ^ 64 → Z.of_nat (length l) < 2 ^ 63 →
  memmove d s (Z.of_nat (length l)) m = (Ok d, put d l m) ∧
  memset d c (Z.of_nat (length l)) m = (Ok d, put d (replicate (length l) (wrap 8 c)) m).
Proof.
  intros Hs Hb Ha Hd0 Hs0 Hd Hse Hn. split; [|rewrite memset_ok by (done || lia); by rewrite Nat2Z.id].
  unfold memmove. set (n := Z.of_nat (length l)) in *. assert (Z.to_nat n = length l) as Hnn by (unfold n; lia).
  assert (∀ q b, bytes m q l → q = b → m = put q l m) as Hsame.
  { intros q _ Hq _. apply map_eq. intros x. rewrite put_lookup. case_decide; [|done].
    destruct (lookup_lt_is_Some_2 l (Z.to_nat (x - q))) as [y Hy]; [lia|]. rewrite Hy. rewrite <-(Hq _ _ Hy). f_equal. lia. }
  destruct (Z.eqb_spec d s) as [->|Hne]; [unfold mret, M_ret; f_equal; by eapply Hsame|].
  assert ((sub64 (sub64 s d) n <=? wrap 64 (-2 * n)) = true → d + n ≤ s ∨ s + n ≤ d) as Htest.
  { intros Ht. bool_to_prop. unfold sub64 in Ht. destruct (decide (n = 0)); [lia|].
    assert (wrap 64 (wrap 64 (s - d) - n) = wrap 64 (s - d - n)) as Hw by (unfold wrap; by rewrite Zminus_mod_idemp_l).
    rewrite Hw in Ht. assert (wrap 64 (-2 * n) = 2 ^ 64 - 2 * n) as H2.
    { unfold wrap. symmetry. apply (Zmod_unique _ _ (-1)); lia. }
    rewrite H2 in Ht. destruct (decide (d + n ≤ s)); [by left|]. right. destruct (decide (s < d)).
    - assert (wrap 64 (s - d - n) = 2 ^ 64 + (s - d - n)); [|lia]. unfold wrap. symmetry. apply (Zmod_unique _ _ (-1)); lia.
    - assert (wrap 64 (s - d - n) = 2 ^ 64 + (s - d - n)); [|lia]. unfold wrap. symmetry. apply (Zmod_unique _ _ (-1)); lia. }
  destruct (_ <=? _) eqn:Et.
  - unfold memcpy. rewrite Hnn. erewrite M_bind_ok by (apply copy_up_ok; [done..|destruct (Htest eq_refl); lia]). done.
  - destruct (d <? s) eqn:El; bool_to_prop; rewrite Hnn.
    + erewrite M_bind_ok by (apply copy_up_ok; [done..|lia]). done.
    + erewrite M_bind_ok by (apply copy_down_ok; [done..|lia]). done.
Qed.

(** On strings: strlen is the number of bytes before the zero; strchr and strrchr give the first and
    the last place of a byte, the final zero included, strspn the length of the longest prefix
    over a set of bytes; the sign of strcmp is the order of the strings as unsigned bytes.
    All of them end when the fuel is more than the length of the strings. *)
Theorem string_functions_spec signed m p q l k c fuel :
  cstr m p l → cstr m q k → (length l < fuel)%nat → (length k < fuel)%nat → 0 < p → p + Z.of_nat (length l) < 2 ^ 64 → is_byte c →
  strlen fuel p m = (Ok (Z.of_nat (length l)), m) ∧
  strchr signed fuel p (char_int signed c) m = (Ok (first_at (λ b, char_int signed b =? char_int signed c) p (l ++ [0])), m) ∧
  strrchr signed fuel p c m = (Ok (last_at (λ b, char_int signed b =? char_int signed c) p (l ++ [0]) NULL), m) ∧
  strspn fuel p q m = (Ok (Z.of_nat (prefix_len (λ b, bool_decide (b ∈ k)) l)), m) ∧
  ∃ v, strcmp fuel p q m = (Ok v, m) ∧ (v = 0 ↔ l = k) ∧ (v < 0 ↔ lex_lt l k) ∧ (0 < v ↔ lex_lt k l).
Proof.
  intros Hp Hq Hf Hfk H0 H1 Hc. split_and!.
  - apply strlen_ok; done || lia.
  - by apply strchr_ok.
  - unfold strrchr, NULL. destruct (Z.eqb_spec p 0); [lia|]. cbn [negb].
    rewrite (strrchr_ok signed l c) by done. by rewrite (wrap_small 8) by done.
  - apply strspn_ok; done || lia.
  - exists (difference l k). split; [by apply strcmp_ok|]. apply difference_sign; [apply Hp|apply Hq].
Qed.

(** strcspn with one byte to look for returns 0 unless the string starts with it, and so strpbrk
    returns the start of the string although the byte there is another one. *)
Theorem strcspn_single_byte m p q a l x fuel :
  cstr m p (a :: l) → cstr m q [x] → a ≠ x → 0 ≤ p < 2 ^ 64 →
  strcspn fuel p q m = (Ok 0, m) ∧ strpbrk fuel p q m = (Ok p, m).
Proof.
  intros Hp Hq Hne Hpr. apply cstr_cons in Hp as (Ha&Hra&_). apply cstr_cons in Hq as (Hx&Hrx&Hq0). apply cstr_nil in Hq0.
  assert (strcspn fuel p q m = (Ok 0, m)) as E.
  { unfold strcspn. cload Hx. destruct (Z.eqb_spec x 0); [lia|]. erewrite M_bind_ok by (cload Hq0; done). cbn [Z.eqb].
    erewrite M_bind_ok by (cload Ha; done). destruct (Z.eqb_spec a x); [done|]. cbn.
    rewrite sub64_small by (unfold in_u64; lia). by rewrite Z.sub_diag. }
  split; [done|]. unfold strpbrk. erewrite M_bind_ok by exact E. rewrite Z.add_0_r. cload Ha.
  destruct (Z.eqb_spec a 0); [lia|]. done.
Qed.

(** A memory with two strings. *)
Definition demo_mem : CMem := put 100 ([97; 98; 99; 98] ++ [0]) (put 200 ([98; 97] ++ [0]) (put 300 ([122] ++ [0]) ∅)).
Lemma demo_cstr : cstr demo_mem 100 [97; 98; 99; 98] ∧ cstr demo_mem 200 [98; 97] ∧ cstr demo_mem 300 [122].
Proof.
  rewrite !cstr_cons, !cstr_nil. split_and!; lia || reflexivity.
Qed.
Lemma memory_functions_spec_witness :
  ∃ m, memmove 101 100 3 demo_mem = (Ok 101, m) ∧ m !! 103 = Some 99 ∧ memset 100 0 3 demo_mem = (Ok 100, put 100 [0; 0; 0] demo_mem).
Proof.
  assert (bytes demo_mem 100 [97; 98; 99]) as Hb.
  { intros i b Hi. do 3 (destruct i as [|i]; [injection Hi as <-; reflexivity|]). done. }
  destruct (memory_functions_spec demo_mem 101 100 [97; 98; 99] 0) as [E _]; try exact Hb; try (cbn; lia).
  { repeat constructor; lia. }
  { intros i Hi. assert (i = 0 ∨ i = 1 ∨ i = 2) as [->|[->| ->]] by (cbn in Hi; lia); vm_compute; by eexists. }
  destruct (memory_functions_spec demo_mem 100 100 [97; 98; 99] 0) as [_ E2]; try exact Hb; try (cbn; lia).
  { repeat constructor; lia. }
  { intros i Hi. assert (i = 0 ∨ i = 1 ∨ i = 2) as [->|[->| ->]] by (cbn in Hi; lia); vm_compute; by eexists. }
  exists (put 101 [97; 98; 99] demo_mem). split; [exact E|]. split; [reflexivity|exact E2].
Defined.
Lemma string_functions_spec_witness :
  strlen 10 100 demo_mem = (Ok 4, demo_mem) ∧ strchr true 10 100 98 demo_mem = (Ok 101, demo_mem) ∧
  strrchr true 10 100 98 demo_mem = (Ok 103, demo_mem) ∧ strspn 10 100 200 demo_mem = (Ok 2, demo_mem).
Proof.
  destruct demo_cstr as (H1&H2&_).
  destruct (string_functions_spec true demo_mem 100 200 _ _ 98 10 H1 H2) as (E1&E2&E3&E4&_); try (cbn; lia); [unfold is_byte; lia|].
  split; [exact E1|]. split; [exact E2|]. split; [exact E3|exact E4].
Defined.
Lemma strcspn_single_byte_witness : strcspn 10 100 300 demo_mem = (Ok 0, demo_mem) ∧ strpbrk 10 100 300 demo_mem = (Ok 100, demo_mem).
Proof.
  destruct demo_cstr as (H1&_&H3). apply (strcspn_single_byte _ _ _ _ _ _ 10 H1 H3); lia.
Defined.
