(* ===== verification/CStdlib.v ===== *)
(** * Numbers from strings in C ([ulib/axlibc/c/stdlib.c], [string.c], [include/ctype.h])

    [strtol], [strtoul], [strtoll], [strtoull], [atoi] and [atoll] on the memory of [CString]. *)

From Stdlib Require Import ZArith Lia.
From stdpp Require Import base decidable numbers gmap list.
From S2P Require Import Prelude LinkedList CString.

Local Open Scope Z_scope.
Local Abbreviation CM := (M CMem NoError).

(** ** [ctype.h], with the comparisons of [unsigned] *)

Definition isalpha (a : Z) : bool := wrap 32 (Z.lor a 32 - 97) <? 26.
Definition isdigit (a : Z) : bool := wrap 32 (a - 48) <? 10.
Definition islower (a : Z) : bool := wrap 32 (a - 97) <? 26.
Definition isupper (a : Z) : bool := wrap 32 (a - 65) <? 26.
Definition isascii (a : Z) : bool := Z.land a (not64 0x7f) =? 0.
Definition isspace (a : Z) : bool := (a =? 32) || (wrap 32 (a - 9) <? 5).
Definition tolower (c : Z) : Z := if isupper c then Z.lor c 32 else c.
Definition toupper (c : Z) : Z := if islower c then Z.land c 0x5f else c.

(** ** The [strto*] functions *)

Definition EINVAL : Z := 22.
Definition ERANGE : Z := 34.
Definition LONG_MAX : Z := 2 ^ 63 - 1.
Definition LONG_MIN : Z := - 2 ^ 63.
Definition ULONG_MAX : Z := 2 ^ 64 - 1.

(** The value, what is stored through [endptr], and [errno] if it is set. *)
Record Strto : Set := { st_acc : Z; st_end : Z; st_errno : option Z }.

(** [do { c = *s++; } while (isspace(c))]: the character and the pointer behind it. *)
Fixpoint skip_space (fuel : nat) (s : Z) : CM (Z * Z) :=
  match fuel with
  | O => out_of_fuel
  | S fuel => c ← load s; if isspace c then skip_space fuel (s + 1) else mret (c, s + 1)
  end.
Definition take_sign (c s : Z) : CM (bool * Z * Z) :=
  if c =? 45 then c ← load s; mret (true, c, s + 1)
  else if c =? 43 then c ← load s; mret (false, c, s + 1)
  else mret (false, c, s).
Definition take_prefix (base c s : Z) : CM (Z * Z * Z) :=
  hex ← (if (((base =? 0) || (base =? 16)) && (c =? 48))%bool then x ← load s; mret ((x =? 120) || (x =? 88))%bool
         else mret false);
  if hex : bool then c ← load (s + 1); mret (16, c, s + 2)
  else mret ((if base =? 0 then (if c =? 48 then 8 else 10) else base), c, s).
(** The value of a digit; [None] leaves the loop. *)
Definition digit_char (c : Z) : option Z :=
  if negb (isascii c) then None
  else if isdigit c then Some (c - 48)
  else if isalpha c then Some (c - (if isupper c then 55 else 87))
  else None.
Definition digit_of (base c : Z) : option Z :=
  match digit_char c with Some d => if base <=? d then None else Some d | None => None end.
(** [any] is 0, 1 or -1. *)
Fixpoint accumulate (fuel : nat) (base cutoff cutlim acc any c s : Z) : CM (Z * Z * Z) :=
  match fuel with
  | O => out_of_fuel
  | S fuel =>
      match digit_of base c with
      | None => mret (acc, any, s)
      | Some d =>
          let '(acc, any) :=
            if ((any <? 0) || (cutoff <? acc) || ((acc =? cutoff) && (cutlim <? d)))%bool then (acc, -1)
            else (add64 (mul64 acc base) d, 1) in
          c ← load s; accumulate fuel base cutoff cutlim acc any c (s + 1)
      end
  end.
Definition bad_base (base : Z) : bool := (base <? 0) || (base =? 1) || (36 <? base).
(** What the four functions share; [limit] is the largest magnitude, [clamp] the value on overflow. *)
Definition strto (limit clamp : bool → Z) (fuel : nat) (nptr base : Z) : CM Strto :=
  if bad_base base then mret {| st_acc := 0; st_end := nptr; st_errno := Some EINVAL |}
  else
    '(c, s) ← skip_space fuel nptr;
    '(neg, c, s) ← take_sign c s;
    '(base, c, s) ← take_prefix base c s;
    let cutoff := limit neg / base in
    let cutlim := limit neg mod base in
    '(acc, any, s) ← accumulate fuel base cutoff cutlim 0 0 c s;
    mret {| st_acc := if any <? 0 then wrap 64 (clamp neg) else if neg : bool then sub64 0 acc else acc;
            st_end := if negb (any =? 0) then s - 1 else nptr;
            st_errno := if any <? 0 then Some ERANGE else None |}.
(** [(unsigned long)LONG_MAX - (unsigned long)(LONG_MIN + LONG_MAX)] for a negative number. *)
Definition long_limit (neg : bool) : Z := if neg then sub64 LONG_MAX (wrap 64 (LONG_MIN + LONG_MAX)) else LONG_MAX.
Definition long_clamp (neg : bool) : Z := if neg then LONG_MIN else LONG_MAX.
Definition to_signed (r : Strto) : Strto :=
  {| st_acc := wrap_i64 (st_acc r); st_end := st_end r; st_errno := st_errno r |}.
Definition strtol (fuel : nat) (nptr base : Z) : CM Strto := r ← strto long_limit long_clamp fuel nptr base; mret (to_signed r).
Definition strtoll (fuel : nat) (nptr base : Z) : CM Strto := r ← strto long_limit long_clamp fuel nptr base; mret (to_signed r).
Definition strtoul (fuel : nat) (nptr base : Z) : CM Strto := strto (λ _, ULONG_MAX) (λ _, ULONG_MAX) fuel nptr base.
Definition strtoull (fuel : nat) (nptr base : Z) : CM Strto := strto (λ _, ULONG_MAX) (λ _, ULONG_MAX) fuel nptr base.

(** ** [atoi] and [atoll]: the overflow of a signed number is undefined *)

Definition signed_ (w x : Z) : CM Z := if ((- 2 ^ (w - 1) <=? x) && (x <? 2 ^ (w - 1)))%bool then mret x else panic.
Fixpoint ato_digits (w : Z) (fuel : nat) (n c s : Z) : CM Z :=
  match fuel with
  | O => out_of_fuel
  | S fuel =>
      if isdigit c then
        t ← signed_ w (10 * n); n ← signed_ w (t - (c - 48)); c ← load (s + 1); ato_digits w fuel n c (s + 1)
      else mret n
  end.
(** [s] stays on the character. *)
Fixpoint ato_space (fuel : nat) (s : Z) : CM (Z * Z) :=
  match fuel with
  | O => out_of_fuel
  | S fuel => c ← load s; if isspace c then ato_space fuel (s + 1) else mret (c, s)
  end.
Definition ato (w : Z) (fuel : nat) (s : Z) : CM Z :=
  '(c, s) ← ato_space fuel s;
  '(neg, c, s) ← (if ((c =? 45) || (c =? 43))%bool then x ← load (s + 1); mret (c =? 45, x, s + 1) else mret (false, c, s));
  n ← ato_digits w fuel 0 c s;
  if neg : bool then mret n else signed_ w (- n).
Definition atoi (fuel : nat) (s : Z) : CM Z := ato 32 fuel s.
Definition atoll (fuel : nat) (s : Z) : CM Z := ato 64 fuel s.

(** ** The value of the digits *)

Lemma digit_of_range base c d : is_byte c → digit_of base c = Some d → 0 ≤ d < base.
Proof.
  intros Hc. unfold digit_of. assert (match digit_char c with Some d => 0 ≤ d | None => True end) as Hd.
  { assert (forallb (λ c : Z, match digit_char c with Some d => 0 <=? d | None => true end) (seqZ 0 256) = true) as Ha
      by (vm_compute; reflexivity).
    rewrite forallb_forall in Ha. specialize (Ha c). rewrite <-list_elem_of_In, elem_of_seqZ in Ha. specialize (Ha Hc).
    destruct (digit_char c); [lia|done]. }
  destruct (digit_char c) as [x|]; [|done]. destruct (base <=? x) eqn:E; [done|]. bool_to_prop. intros [= <-]. lia.
Qed.
Definition value (base : Z) (ds : list Z) (v : Z) : Z := foldl (λ v c, v * base + default 0 (digit_of base c)) v ds.
Definition digits (base : Z) (ds : list Z) : Prop := Forall (λ c, is_byte c ∧ is_Some (digit_of base c)) ds.

(** What the loop knows of the number [v] so far. *)
Definition acc_ok (lim v acc any : Z) : Prop :=
  (0 ≤ v ≤ lim ∧ acc = v ∧ (any = 0 ∨ any = 1)) ∨ (lim < v ∧ any = -1).
Lemma acc_step lim base v acc any d :
  2 ≤ base → 0 ≤ lim < 2 ^ 64 → 0 ≤ d < base → acc_ok lim v acc any →
  let '(acc', any') := if ((any <? 0) || (lim / base <? acc) || ((acc =? lim / base) && (lim mod base <? d)))%bool then (acc, -1)
                       else (add64 (mul64 acc base) d, 1) in
  acc_ok lim (v * base + d) acc' any' ∧ any' ≠ 0.
Proof.
  intros Hb Hl Hd Ha. pose proof (Z.div_mod lim base ltac:(lia)) as Hq. pose proof (Z.mod_pos_bound lim base ltac:(lia)).
  set (q := lim / base) in *. set (r := lim mod base) in *. destruct Ha as [(Hv&->&Hany)|[Hv ->]].
  - destruct (any <? 0) eqn:E0; bool_to_prop; [lia|]. cbn [orb]. destruct (q <? v) eqn:E1; bool_to_prop; cbn [orb].
    { split; [|done]. right. split; [|done]. assert ((q + 1) * base ≤ v * base) by nia. lia. }
    destruct ((v =? q) && (r <? d))%bool eqn:E2.
    + bool_to_prop. split; [|done]. right. split; [nia|done].
    + assert (v * base + d ≤ lim) as Hle.
      { apply andb_false_iff in E2 as [?|?]; bool_to_prop; [assert ((v + 1) * base ≤ q * base) by nia; lia|].
        assert (v * base ≤ q * base) by nia. lia. }
      split; [|done]. left. assert (0 ≤ v * base) by nia.
      unfold mul64, add64. rewrite (wrap_small 64 (v * base)) by lia. rewrite wrap_small by lia. split_and!; [lia|lia|done|auto].
  - cbn. split; [|done]. right. split; [nia|done].
Qed.
Lemma accumulate_ok base lim r ds : ∀ fuel m s acc any v,
  2 ≤ base → 0 ≤ lim < 2 ^ 64 → digits base ds → digit_of base r = None → (length ds < fuel)%nat →
  bytes m s (tail (ds ++ [r])) → acc_ok lim v acc any →
  ∃ acc' any', accumulate fuel base (lim / base) (lim mod base) acc any (hd 0 (ds ++ [r])) s m = (Ok (acc', any', s + Z.of_nat (length ds)), m) ∧
    acc_ok lim (value base ds v) acc' any' ∧ (ds = [] → any' = any) ∧ (ds ≠ [] → any' ≠ 0).
Proof.
  induction ds as [|c ds IH]; intros [|fuel] m s acc any v Hb Hl Hds Hr Hf Hm Ha; cbn [length] in *; try lia; cbn [accumulate hd app].
  - rewrite Hr. exists acc, any. by rewrite Z.add_0_r.
  - apply Forall_cons in Hds as [[Hc [d Hd]] Hds]. rewrite Hd.
    pose proof (acc_step lim base v acc any d Hb Hl (digit_of_range _ _ _ Hc Hd) Ha) as Hst.
    destruct (if (_ || _ || _)%bool then _ else _) as [acc1 any1]. destruct Hst as [Ha1 Hne].
    cbn [app tail] in Hm. assert (m !! s = Some (hd 0 (ds ++ [r])) ∧ bytes m (s + 1) (tail (ds ++ [r]))) as [Hx Hm'].
    { destruct ds; cbn [app] in *; apply bytes_cons in Hm as [? ?]; done. }
    cload Hx. destruct (IH fuel m (s + 1) acc1 any1 _ Hb Hl Hds Hr ltac:(lia) Hm' Ha1) as (acc'&any'&E&Hok&H0&H1).
    exists acc', any'. rewrite E. split_and!; [do 2 f_equal; f_equal; lia| |done|].
    + cbn [value foldl]. rewrite Hd. exact Hok.
    + intros _. destruct (decide (ds = [])) as [->|Hn]; [by rewrite H0|auto].
Qed.

(** ** Space, sign and prefix *)

Lemma skip_space_ok ws r : ∀ fuel m s,
  Forall (λ c, isspace c = true) ws → isspace r = false → (length ws < fuel)%nat → bytes m s (ws ++ [r]) →
  skip_space fuel s m = (Ok (r, s + Z.of_nat (length ws) + 1), m).
Proof.
  induction ws as [|c ws IH]; intros [|fuel] m s Hw Hr Hf Hm; cbn [length] in *; try lia; cbn [skip_space app] in *;
    apply bytes_cons in Hm as [Hc Hm]; cload Hc.
  - rewrite Hr. by rewrite Z.add_0_r.
  - apply Forall_cons in Hw as [-> Hw]. rewrite IH by (done || lia). do 2 f_equal. f_equal. lia.
Qed.
Inductive Sign : list Z → bool → Z → Prop :=
| sign_minus r : Sign [45] true r
| sign_plus r : Sign [43] false r
| sign_none r : r ≠ 45 → r ≠ 43 → Sign [] false r.
(** Where the digits [l] begin with [0x]. *)
Definition hex_start (l : list Z) : Prop := ∃ x l', l = 48 :: x :: l' ∧ (x = 120 ∨ x = 88).
(** The base of the digits, by the base asked for and the prefix. *)
Inductive Prefix : Z → list Z → list Z → Z → Prop :=
| prefix_hex base x l : base = 0 ∨ base = 16 → x = 120 ∨ x = 88 → Prefix base [48; x] l 16
| prefix_given base l : 2 ≤ base ≤ 36 → (base = 16 → ¬ hex_start l) → Prefix base [] l base
| prefix_oct l : hd 0 l = 48 → ¬ hex_start l → Prefix 0 [] l 8
| prefix_dec l : hd 0 l ≠ 48 → Prefix 0 [] l 10.

Lemma take_sign_ok sg neg r m s :
  Sign sg neg r → bytes m s (tail (sg ++ [r])) →
  take_sign (hd 0 (sg ++ [r])) s m = (Ok (neg, r, s + Z.of_nat (length sg)), m).
Proof.
  unfold take_sign. destruct 1; cbn [app tail hd length].
  - intros [Hr _]%bytes_cons. cbn. by cload Hr.
  - intros [Hr _]%bytes_cons. cbn. by cload Hr.
  - intros _. destruct (Z.eqb_spec r 45), (Z.eqb_spec r 43); try done. by rewrite Z.add_0_r.
Qed.
Lemma take_prefix_none base l m s :
  ¬ hex_start (l ++ [0]) → bytes m s (tail (l ++ [0])) →
  take_prefix base (hd 0 (l ++ [0])) s m =
    (Ok ((if base =? 0 then (if hd 0 (l ++ [0]) =? 48 then 8 else 10) else base), hd 0 (l ++ [0]), s), m).
Proof.
  intros Hx Hm. unfold take_prefix. destruct (((base =? 0) || (base =? 16)) && (hd 0 (l ++ [0]) =? 48))%bool eqn:E; [|done].
  apply andb_true_iff in E as [_ E%Z.eqb_eq]. destruct l as [|c l]; cbn in E; [lia|]. subst c.
  assert (∃ x, m !! s = Some x ∧ ((x =? 120) || (x =? 88))%bool = false) as (x&Hs&Hx').
  { cbn in Hm. destruct l as [|x l]; cbn [app] in *; apply bytes_cons in Hm as [Hs _]; [by exists 0|]. exists x. split; [done|].
    apply orb_false_iff. split; apply Z.eqb_neq; intros ->; apply Hx; eexists _, _; (split; [done|]); auto. }
  erewrite M_bind_ok by (cload Hs; done). by rewrite Hx'.
Qed.
Lemma take_prefix_ok base pre l b m s :
  Prefix base pre (l ++ [0]) b → bytes m s (tail (pre ++ l ++ [0])) →
  take_prefix base (hd 0 (pre ++ l ++ [0])) s m = (Ok (b, hd 0 (l ++ [0]), s + Z.of_nat (length pre)), m).
Proof.
  intros Hp Hm. inversion Hp as [base' x l' Hb Hx|base' l' Hb Hx|l' H48 Hx|l' H48]; subst; cbn [app length] in *; rewrite ?Z.add_0_r.
  - cbn [tail hd] in *. apply bytes_cons in Hm as [Hx' Hm]. unfold take_prefix.
    assert (((base =? 0) || (base =? 16)) && (48 =? 48) = true)%bool as ->.
    { destruct Hb as [->| ->]; done. }
    erewrite M_bind_ok by (cload Hx'; done). assert (((x =? 120) || (x =? 88))%bool = true) as -> by (by destruct Hx as [->| ->]).
    assert (m !! (s + 1) = Some (hd 0 (l ++ [0]))) as Hc by (by destruct l; cbn [app] in *; apply bytes_cons in Hm as [? _]).
    by cload Hc.
  - destruct (decide (b = 16)) as [->|Hne].
    + rewrite take_prefix_none by auto. done.
    + unfold take_prefix. destruct (Z.eqb_spec b 0); [lia|]. destruct (Z.eqb_spec b 16); [done|]. done.
  - rewrite take_prefix_none by done. cbn. by rewrite H48.
  - rewrite take_prefix_none; [|intros (y&l'&E&_); by rewrite E in H48|done]. cbn [Z.eqb].
    by destruct (Z.eqb_spec (hd 0 (l ++ [0])) 48).
Qed.

(** ** The functions *)

(** The parts of the string. *)
Record Numeral (base : Z) (ws sg pre ds rest : list Z) (neg : bool) (b : Z) : Prop := {
  num_space : Forall (λ c, isspace c = true) ws;
  num_stop : isspace (hd 0 (sg ++ pre ++ ds ++ rest ++ [0])) = false;
  num_sign : Sign sg neg (hd 0 (pre ++ ds ++ rest ++ [0]));
  num_prefix : Prefix base pre (ds ++ rest ++ [0]) b;
  num_digits : digits b ds;
  num_end : digit_of b (hd 0 (rest ++ [0])) = None;
}.
Lemma prefix_base base pre l b : Prefix base pre l b → 2 ≤ b ≤ 36 ∧ bad_base base = false.
Proof.
  unfold bad_base. destruct 1; (split; [lia|]); try done.
  - by destruct H as [->| ->].
  - destruct (base <? 0) eqn:?, (base =? 1) eqn:?, (36 <? base) eqn:?; bool_to_prop; try done; lia.
Qed.
Lemma bytes_app m p l k : bytes m p (l ++ k) ↔ bytes m p l ∧ bytes m (p + Z.of_nat (length l)) k.
Proof.
  revert p. induction l as [|b l IH]; intros p; cbn [app length].
  - rewrite Z.add_0_r. split; [|tauto]. intros. split; [|done]. by intros i c.
  - rewrite !bytes_cons, IH. replace (p + 1 + Z.of_nat (length l)) with (p + Z.of_nat (S (length l))) by lia. tauto.
Qed.
(** What follows the first character, up to the first one of [k], and what follows that. *)
Lemma bytes_split m q l k :
  k ≠ [] → bytes m q (l ++ k) →
  bytes m q (l ++ [hd 0 k]) ∧ bytes m (q + 1) (tail (l ++ [hd 0 k])) ∧ bytes m (q + Z.of_nat (length l) + 1) (tail k).
Proof.
  intros Hk Hm. destruct k as [|c k]; [done|]. cbn [hd tail]. apply bytes_app in Hm as [Hl [Hc Hk']%bytes_cons].
  assert (bytes m q (l ++ [c])) as Hlc.
  { apply bytes_app. split; [done|]. apply bytes_cons. split; [done|]. by intros i b. }
  split_and!; [done| |done]. destruct l; cbn [app tail] in *; [by intros i b|]. by apply bytes_cons in Hlc as [_ ?].
Qed.
Lemma hd_app (l k : list Z) : hd 0 (l ++ [hd 0 k]) = hd 0 (l ++ k) ∨ k = [].
Proof. destruct k; [by right|]. left. by destruct l. Qed.

Lemma strto_ok limit clamp m p base ws sg pre ds rest neg b fuel :
  Numeral base ws sg pre ds rest neg b → cstr m p (ws ++ sg ++ pre ++ ds ++ rest) →
  (length (ws ++ ds) < fuel)%nat → 0 ≤ limit neg < 2 ^ 64 →
  let v := value b ds 0 in
  strto limit clamp fuel p base m =
    (Ok (if decide (ds = []) then {| st_acc := 0; st_end := p; st_errno := None |}
         else {| st_acc := if decide (v ≤ limit neg) then (if neg then sub64 0 v else v) else wrap 64 (clamp neg);
                 st_end := p + Z.of_nat (length (ws ++ sg ++ pre ++ ds));
                 st_errno := if decide (v ≤ limit neg) then None else Some ERANGE |}), m).
Proof.
  intros [Hws Hst Hsg Hpre Hds Hend] [Hm _] Hf Hlim v. destruct (prefix_base _ _ _ _ Hpre) as [Hb Hbad].
  rewrite <-!app_assoc in Hm. rewrite length_app in Hf. unfold strto. rewrite Hbad.
  assert (∀ l : list Z, l ++ [0] ≠ []) as Hne by (intros []; done).
  destruct (bytes_split m p ws (sg ++ pre ++ ds ++ rest ++ [0])) as (Hm1&_&Hm1'); [by rewrite !app_assoc|done|].
  erewrite M_bind_ok by (apply (skip_space_ok ws (hd 0 (sg ++ pre ++ ds ++ rest ++ [0]))); [done..|lia|done]).
  apply bytes_app in Hm as [_ Hm]. set (q := p + Z.of_nat (length ws)) in *.
  destruct (bytes_split m q sg (pre ++ ds ++ rest ++ [0])) as (_&Hm2&_); [by rewrite !app_assoc|done|].
  destruct (hd_app sg (pre ++ ds ++ rest ++ [0])) as [Eh|Eh]; [|by rewrite !app_assoc in Eh; destruct (Hne _ Eh)].
  cbn iota beta. rewrite <-Eh. erewrite M_bind_ok by (by apply take_sign_ok).
  apply bytes_app in Hm as [_ Hm]. replace (q + 1 + Z.of_nat (length sg)) with (q + Z.of_nat (length sg) + 1) by lia.
  set (q2 := q + Z.of_nat (length sg)) in *. cbn iota beta.
  destruct (bytes_split m q2 [] (pre ++ ds ++ rest ++ [0])) as (_&_&Hm3); [by rewrite !app_assoc|done|]. cbn [length] in Hm3.
  rewrite Z.add_0_r in Hm3. rewrite (app_assoc ds) in Hm3, Hpre |- *. erewrite M_bind_ok by (by apply take_prefix_ok).
  cbn iota beta zeta. apply bytes_app in Hm as [_ Hm]. rewrite <-(app_assoc ds).
  replace (q2 + 1 + Z.of_nat (length pre)) with (q2 + Z.of_nat (length pre) + 1) by lia. set (q3 := q2 + Z.of_nat (length pre)) in *.
  destruct (bytes_split m q3 ds (rest ++ [0])) as (_&Hm4&_); [done..|].
  destruct (hd_app ds (rest ++ [0])) as [Eh2|Eh2]; [|by destruct (Hne _ Eh2)]. rewrite <-Eh2.
  destruct (accumulate_ok b (limit neg) (hd 0 (rest ++ [0])) ds fuel m (q3 + 1) 0 0 0) as (acc&any&E&Hok&H0&H1);
    [lia|done|done|done|lia|done|left; lia|].
  erewrite M_bind_ok by exact E. cbn iota beta. unfold mret, M_ret. do 2 f_equal.
  destruct (decide (ds = [])) as [Hd|Hd].
  - rewrite (H0 Hd) in *. cbn. destruct Hok as [(_&->&_)|[_ ?]]; [|done]. rewrite Hd. cbn. by destruct neg.
  - specialize (H1 Hd). assert (q3 + 1 + Z.of_nat (length ds) - 1 = p + Z.of_nat (length (ws ++ sg ++ pre ++ ds))) as He.
    { rewrite !length_app. unfold q3, q2, q. lia. }
    destruct (Z.eqb_spec any 0); [done|]. cbn [negb]. rewrite He. fold v in Hok. destruct Hok as [(Hv&->&Ha)|[Hv ->]].
    + destruct (any <? 0) eqn:?; bool_to_prop; [lia|]. by rewrite !decide_True by lia.
    + cbn. by rewrite !decide_False by lia.
Qed.

Lemma value_nonneg b ds v : 2 ≤ b → digits b ds → 0 ≤ v → 0 ≤ value b ds v.
Proof.
  intros Hb Hds. revert v. induction Hds as [|c ds [Hc [d Hd]] _ IH]; intros v Hv; cbn; [done|]. apply IH.
  rewrite Hd. cbn. pose proof (digit_of_range _ _ _ Hc Hd). nia.
Qed.
Lemma to_signed_neg v : 0 ≤ v ≤ 2 ^ 63 → wrap_i64 (sub64 0 v) = - v.
Proof.
  intros Hv. unfold sub64, wrap, wrap_i64. rewrite Zplus_mod_idemp_l, Z.mod_small by lia. lia.
Qed.

(** C34: On a string of spaces, a sign, the prefix of the base and digits, whatever follows: strtol
    returns the number and the end of the digits, or the nearest long and ERANGE when it is out
    of range; strtoul the number modulo [2^64], or the largest unsigned long and ERANGE.  Without
    digits both return 0 and the start of the string, also after a prefix [0x], whose 0 is then
    not taken for a number. *)
Theorem strtol_spec m p base ws sg pre ds rest neg b fuel :
  Numeral base ws sg pre ds rest neg b → cstr m p (ws ++ sg ++ pre ++ ds ++ rest) → (length (ws ++ ds) < fuel)%nat →
  let v := if neg then - value b ds 0 else value b ds 0 in
  let e := p + Z.of_nat (length (ws ++ sg ++ pre ++ ds)) in
  strtol fuel p base m =
    (Ok (if decide (ds = []) then {| st_acc := 0; st_end := p; st_errno := None |}
         else if decide (LONG_MIN ≤ v ≤ LONG_MAX) then {| st_acc := v; st_end := e; st_errno := None |}
         else {| st_acc := if neg then LONG_MIN else LONG_MAX; st_end := e; st_errno := Some ERANGE |}), m) ∧
  strtoul fuel p base m =
    (Ok (if decide (ds = []) then {| st_acc := 0; st_end := p; st_errno := None |}
         else if decide (value b ds 0 ≤ ULONG_MAX) then {| st_acc := wrap 64 v; st_end := e; st_errno := None |}
         else {| st_acc := ULONG_MAX; st_end := e; st_errno := Some ERANGE |}), m).
Proof.
  intros Hn Hm Hf v e. destruct (prefix_base _ _ _ _ (num_prefix _ _ _ _ _ _ _ _ Hn)) as [Hb _].
  pose proof (value_nonneg b ds 0 ltac:(lia) (num_digits _ _ _ _ _ _ _ _ Hn) ltac:(lia)) as Hv.
  assert (long_limit neg = if neg then 2 ^ 63 else 2 ^ 63 - 1) as Hlim by (destruct neg; vm_compute; done).
  split.
  - unfold strtol. erewrite M_bind_ok by (apply (strto_ok long_limit long_clamp m p base ws sg pre ds rest neg b fuel); [done..|rewrite Hlim; destruct neg; lia]).
    unfold mret, M_ret. do 2 f_equal. destruct (decide (ds = [])); [done|]. unfold to_signed. cbn [st_acc st_end st_errno].
    rewrite Hlim. unfold LONG_MIN, LONG_MAX, v. destruct neg; repeat case_decide; try lia; cbn; f_equal.
    + by apply to_signed_neg.
    + by rewrite wrap_i64_small by lia.
  - unfold strtoul. rewrite (strto_ok _ _ m p base ws sg pre ds rest neg b) by (done || unfold ULONG_MAX; lia).
    do 2 f_equal. destruct (decide (ds = [])); [done|]. unfold ULONG_MAX, v, e.
    repeat case_decide; try done; f_equal. destruct neg; [done|]. by rewrite wrap_small by lia.
Qed.

(** ** [atoi] *)

Lemma isdigit_range c : is_byte c → isdigit c = true ↔ 48 ≤ c < 58.
Proof.
  unfold is_byte, isdigit. intros Hc. rewrite Z.ltb_lt. destruct (decide (48 ≤ c)); [rewrite wrap_small by lia; lia|].
  assert (wrap 32 (c - 48) = 2 ^ 32 + (c - 48)) as ->; [|lia]. unfold wrap. symmetry. apply (Zmod_unique _ _ (-1)); lia.
Qed.
Definition decimal (ds : list Z) (v : Z) : Z := foldl (λ v c, v * 10 + (c - 48)) v ds.
Lemma decimal_mono ds v : Forall (λ c, 48 ≤ c < 58) ds → 0 ≤ v → v ≤ decimal ds v.
Proof.
  intros Hds. revert v. induction Hds as [|c ds Hc _ IH]; intros v Hv; cbn; [done|].
  etransitivity; [|apply IH]; lia.
Qed.
Lemma ato_digits_ok w r ds : ∀ fuel m s v,
  2 ≤ w → Forall (λ c, 48 ≤ c < 58) ds → isdigit r = false → (length ds < fuel)%nat → bytes m s (ds ++ [r]) →
  0 ≤ v → decimal ds v ≤ 2 ^ (w - 1) →
  ato_digits w fuel (- v) (hd 0 (ds ++ [r])) s m = (Ok (- decimal ds v), m).
Proof.
  induction ds as [|c ds IH]; intros [|fuel] m s v Hw Hds Hr Hf Hm Hv Hd; cbn [length] in *; try lia; cbn [ato_digits hd app].
  - by rewrite Hr.
  - apply Forall_cons in Hds as [Hc Hds]. rewrite (proj2 (isdigit_range c ltac:(unfold is_byte; lia)) Hc).
    cbn [decimal foldl] in Hd. pose proof (decimal_mono ds (v * 10 + (c - 48)) Hds ltac:(lia)) as Hle. fold (decimal ds) in *.
    assert (∀ x, - 2 ^ (w - 1) ≤ x ≤ 0 → signed_ w x m = (Ok x, m)) as Hs.
    { intros x Hx. unfold signed_. destruct ((_ <=? x) && _)%bool eqn:E; [done|].
      apply andb_false_iff in E as [?|?]; bool_to_prop; lia. }
    erewrite M_bind_ok by (apply Hs; unfold decimal in *; lia). erewrite M_bind_ok by (apply Hs; unfold decimal in *; lia).
    cbn [app] in Hm. apply bytes_cons in Hm as [_ Hm].
    assert (m !! (s + 1) = Some (hd 0 (ds ++ [r]))) as Hx by (by destruct ds; cbn [app] in *; apply bytes_cons in Hm as [? _]).
    cload Hx. replace (10 * - v - (c - 48)) with (- (v * 10 + (c - 48))) by lia. rewrite IH; [done|done..|lia|done|lia|done].
Qed.
Lemma ato_space_ok ws r : ∀ fuel m s,
  Forall (λ c, isspace c = true) ws → isspace r = false → (length ws < fuel)%nat → bytes m s (ws ++ [r]) →
  ato_space fuel s m = (Ok (r, s + Z.of_nat (length ws)), m).
Proof.
  induction ws as [|c ws IH]; intros [|fuel] m s Hw Hr Hf Hm; cbn [length] in *; try lia; cbn [ato_space app] in *;
    apply bytes_cons in Hm as [Hc Hm]; cload Hc.
  - rewrite Hr. by rewrite Z.add_0_r.
  - apply Forall_cons in Hw as [-> Hw]. rewrite IH by (done || lia). do 2 f_equal. f_equal. lia.
Qed.
(** atoi reads a number in the range of an int, [INT_MIN] included, without a signed overflow. *)
Theorem atoi_spec m p ws sg ds rest neg fuel :
  Forall (λ c, isspace c = true) ws → isspace (hd 0 (sg ++ ds ++ rest ++ [0])) = false →
  Sign sg neg (hd 0 (ds ++ rest ++ [0])) → Forall (λ c, 48 ≤ c < 58) ds → isdigit (hd 0 (rest ++ [0])) = false →
  cstr m p (ws ++ sg ++ ds ++ rest) → (length (ws ++ ds) < fuel)%nat →
  let v := if neg then - decimal ds 0 else decimal ds 0 in
  - 2 ^ 31 ≤ v < 2 ^ 31 → atoi fuel p m = (Ok v, m).
Proof.
  intros Hws Hst Hsg Hds Hend [Hm _] Hf v Hv. rewrite <-!app_assoc in Hm. rewrite length_app in Hf.
  pose proof (decimal_mono ds 0 Hds ltac:(lia)) as H0. assert (∀ l : list Z, l ++ [0] ≠ []) as Hne by (intros []; done).
  destruct (bytes_split m p ws (sg ++ ds ++ rest ++ [0])) as (Hm1&_&_); [by rewrite !app_assoc|done|].
  unfold atoi, ato. erewrite M_bind_ok by (apply (ato_space_ok ws (hd 0 (sg ++ ds ++ rest ++ [0]))); [done..|lia|done]).
  apply bytes_app in Hm as [_ Hm]. set (q := p + Z.of_nat (length ws)) in *. cbn iota beta.
  destruct (hd_app ds (rest ++ [0])) as [Eh|Eh]; [|by destruct (Hne _ Eh)].
  assert (((if ((hd 0 (sg ++ ds ++ rest ++ [0%Z]) =? 45) || (hd 0 (sg ++ ds ++ rest ++ [0%Z]) =? 43))%bool
            then x ← load (q + 1); mret (hd 0 (sg ++ ds ++ rest ++ [0%Z]) =? 45, x, q + 1)
            else mret (false, hd 0 (sg ++ ds ++ rest ++ [0%Z]), q)) : CM (bool * Z * Z)) m =
    (Ok (neg, hd 0 (ds ++ [hd 0 (rest ++ [0])]), q + Z.of_nat (length sg)), m)) as Esg.
  { assert (∀ x, m !! x = Some (hd 0 (ds ++ rest ++ [0])) → load x m = (Ok (hd 0 (ds ++ rest ++ [0])), m)) as Hld.
    { intros x Hx. by apply load_ok. }
    rewrite Eh. inversion Hsg as [r|r|r H45 H43]; subst; cbn [app hd length] in *.
    - apply bytes_cons in Hm as [_ Hm]. cbn. erewrite M_bind_ok; [done|]. apply Hld.
      destruct ds; cbn [app] in Hm |- *; [destruct rest; cbn [app] in Hm |- *|]; by apply bytes_cons in Hm as [? _].
    - apply bytes_cons in Hm as [_ Hm]. cbn. erewrite M_bind_ok; [done|]. apply Hld.
      destruct ds; cbn [app] in Hm |- *; [destruct rest; cbn [app] in Hm |- *|]; by apply bytes_cons in Hm as [? _].
    - rewrite (proj2 (Z.eqb_neq _ _) H45), (proj2 (Z.eqb_neq _ _) H43). cbn. by rewrite Z.add_0_r. }
  erewrite M_bind_ok by exact Esg. cbn iota beta. apply bytes_app in Hm as [_ Hm].
  destruct (bytes_split _ _ ds (rest ++ [0]) (Hne _) Hm) as (Hm2&_&_).
  erewrite M_bind_ok by (apply (ato_digits_ok 32 _ ds fuel m _ 0); [done..|lia|done|lia|unfold v in Hv; destruct neg; lia]).
  unfold v in *. destruct neg; [done|]. rewrite Z.opp_involutive. unfold signed_.
  destruct ((_ <=? _) && _)%bool eqn:E; [done|]. apply andb_false_iff in E as [?|?]; bool_to_prop; lia.
Qed.

(** The strings [ -0x1fz] and [ -2147483648]. *)
Definition demo_number : CMem := put 100 ([32; 45; 48; 120; 49; 102; 122] ++ [0]) ∅.
Lemma strtol_spec_witness :
  strtol 10 100 0 demo_number = (Ok {| st_acc := -31; st_end := 106; st_errno := None |}, demo_number) ∧
  strtoul 10 100 0 demo_number = (Ok {| st_acc := 2 ^ 64 - 31; st_end := 106; st_errno := None |}, demo_number).
Proof.
  destruct (strtol_spec demo_number 100 0 [32] [45] [48; 120] [49; 102] [122] true 16 10) as [E1 E2].
  - split.
    + repeat constructor.
    + reflexivity.
    + apply sign_minus.
    + apply prefix_hex; lia.
    + unfold digits. repeat constructor; unfold is_byte; lia || by eexists.
    + reflexivity.
  - cbn [app]. rewrite !cstr_cons, cstr_nil. split_and!; lia || reflexivity.
  - cbn. lia.
  - split; [exact E1|exact E2].
Defined.
Definition demo_int_min : CMem := put 100 ([32; 45; 50; 49; 52; 55; 52; 56; 51; 54; 52; 56] ++ [0]) ∅.
Lemma atoi_spec_witness : atoi 20 100 demo_int_min = (Ok (-2147483648), demo_int_min).
Proof.
  apply (atoi_spec demo_int_min 100 [32] [45] [50; 49; 52; 55; 52; 56; 51; 54; 52; 56] [] true 20).
  - repeat constructor.
  - reflexivity.
  - apply sign_minus.
  - repeat (apply Forall_cons; split; [lia|]). apply Forall_nil. exact I.
  - reflexivity.
  - cbn [app]. rewrite !cstr_cons, cstr_nil. split_and!; lia || reflexivity.
  - cbn. lia.
  - cbn. lia.
Defined.
