(* ===== verification/Vga.v ===== *)
(** * The VGA text console ([modules/axhal/src/platform/x86_pc/vga_buffer.rs])

    The screen with its cursor and its parser of colour escapes, and the buffer of the characters
    typed.  The screen is an array of 25 lines of 80 cells; an access outside of it is undefined. *)

From Stdlib Require Import ZArith Lia.
From stdpp Require Import base decidable numbers gmap list.
From S2P Require Import Prelude LinkedList.

Local Open Scope Z_scope.

Definition VGA_BUFFER_HEIGHT : Z := 25.
Definition VGA_BUFFER_WIDTH : Z := 80.
Definition STDIN_BUFFER_SIZE : Z := 1024.

(** ** Colours *)

Inductive VgaTextColor : Set :=
| VBlack | VBlue | VGreen | VCyan | VRed | VPurple | VBrown | VGray
| VDarkGray | VLightBlue | VLightGreen | VLightCyan | VLightRed | VLightPurple | VYellow | VWhite.
Definition color_u8 (c : VgaTextColor) : Z :=
  match c with
  | VBlack => 0 | VBlue => 1 | VGreen => 2 | VCyan => 3 | VRed => 4 | VPurple => 5 | VBrown => 6 | VGray => 7
  | VDarkGray => 8 | VLightBlue => 9 | VLightGreen => 10 | VLightCyan => 11 | VLightRed => 12 | VLightPurple => 13
  | VYellow => 14 | VWhite => 15
  end.
(** [ColorCode] of [axlog], by its number, and [from_console_color]. *)
Definition from_console_color (code : Z) : option VgaTextColor :=
  match code with
  | 30 => Some VBlack | 31 => Some VRed | 32 => Some VGreen | 33 => Some VBrown
  | 34 => Some VBlue | 35 => Some VPurple | 36 => Some VCyan | 37 => Some VGray
  | 90 => Some VGray | 91 => Some VLightRed | 92 => Some VLightGreen | 93 => Some VYellow
  | 94 => Some VLightBlue | 95 => Some VLightPurple | 96 => Some VLightCyan | 97 => Some VWhite
  | _ => None
  end.
Definition VgaTextColorCode_new (fg bg : VgaTextColor) : Z := Z.lor (wrap 8 (Z.shiftl (color_u8 bg) 4)) (color_u8 fg).
Definition DEFAULT_COLOR : Z := VgaTextColorCode_new VWhite VBlack.

(** ** The text mode *)

Inductive VgaTextSetColor : Set := SCStart | SCLeftBrackets | SCValue (v : Z) | SCEnd.
Inductive VgaTextState : Set := PutChar | SetColor (state : VgaTextSetColor).
#[export] Instance VgaTextSetColor_eq_dec : EqDecision VgaTextSetColor.
Proof. solve_decision. Defined.
#[export] Instance VgaTextState_eq_dec : EqDecision VgaTextState.
Proof. solve_decision. Defined.
(** A cell is a character and its colour; the cells are the lines one after the other. *)
Record VgaTextMode : Set := {
  current_x : Z; current_y : Z; current_color : Z; vga_state : VgaTextState; chars : list (Z * Z) }.
Local Abbreviation VM := (M VgaTextMode NoError).
Definition VgaTextMode_new (cells : list (Z * Z)) : VgaTextMode :=
  {| current_x := 0; current_y := 0; current_color := DEFAULT_COLOR; vga_state := PutChar; chars := cells |}.
(** [init_early]. *)
Definition vga_init_early : VgaTextMode :=
  VgaTextMode_new (replicate (Z.to_nat (VGA_BUFFER_HEIGHT * VGA_BUFFER_WIDTH)) (32, DEFAULT_COLOR)).

Definition set_xy (x y : Z) : VM unit := modify (λ v,
  {| current_x := x; current_y := y; current_color := current_color v; vga_state := vga_state v; chars := chars v |}).
Definition set_color (color : option Z) : VM unit := modify (λ v,
  {| current_x := current_x v; current_y := current_y v; current_color := default DEFAULT_COLOR color;
     vga_state := vga_state v; chars := chars v |}).
Definition set_vga_state (s : VgaTextState) : VM unit := modify (λ v,
  {| current_x := current_x v; current_y := current_y v; current_color := current_color v; vga_state := s; chars := chars v |}).
Definition set_chars (l : list (Z * Z)) : VM unit := modify (λ v,
  {| current_x := current_x v; current_y := current_y v; current_color := current_color v; vga_state := vga_state v; chars := l |}).

(** [self.buffer.chars[y][x] = ..], with both bounds checked. *)
Definition write_cell (ch : Z) : VM unit :=
  v ← get_state;
  if ((current_y v <? VGA_BUFFER_HEIGHT) && (current_x v <? VGA_BUFFER_WIDTH))%bool then
    set_chars (<[Z.to_nat (current_y v * VGA_BUFFER_WIDTH + current_x v) := (ch, current_color v)]> (chars v))
  else panic.

(** [core::ptr::copy(src, dst, count)] of [count] cells: those outside of the screen are not ours. *)
Definition copy_cells (src dst count : Z) : VM unit :=
  v ← get_state;
  let n := Z.of_nat (length (chars v)) in
  if ((src + count <=? n) && (dst + count <=? n))%bool then
    set_chars (take (Z.to_nat dst) (chars v) ++ take (Z.to_nat count) (drop (Z.to_nat src) (chars v)) ++
               drop (Z.to_nat (dst + count)) (chars v))
  else panic.
(** [size_of::<VgaTextChar>()]. *)
Definition CHAR_SIZE : Z := 2.
Definition scroll_up (line : Z) : VM unit :=
  if VGA_BUFFER_HEIGHT <? line then mret tt
  else if VGA_BUFFER_HEIGHT <=? line then panic
  else
    let size := (VGA_BUFFER_HEIGHT - line) * VGA_BUFFER_WIDTH * CHAR_SIZE in
    _ ← copy_cells (line * VGA_BUFFER_WIDTH) 0 size;
    v ← get_state; set_xy (current_x v) (sub64 (current_y v) line).

Definition process_char (ch : Z) : VM VgaTextState :=
  v ← get_state;
  _ ← match vga_state v with
      | PutChar => if ch =? 0x1b then set_vga_state (SetColor SCStart) else mret tt
      | SetColor SCStart => set_vga_state (if ch =? 91 then SetColor SCLeftBrackets else PutChar)
      | SetColor SCLeftBrackets =>
          if ch =? 109 then _ ← set_color None; set_vga_state (SetColor SCEnd)
          else if ((48 <=? ch) && (ch <=? 57))%bool then set_vga_state (SetColor (SCValue (ch - 48)))
          else set_vga_state PutChar
      | SetColor (SCValue n) =>
          if ch =? 109 then
            _ ← set_color ((λ c, VgaTextColorCode_new c VBlack) <$> from_console_color n); set_vga_state (SetColor SCEnd)
          else if ((48 <=? ch) && (ch <=? 57))%bool then set_vga_state (SetColor (SCValue (wrap 8 (wrap 8 (n * 10) + (ch - 48)))))
          else set_vga_state PutChar
      | SetColor SCEnd => set_vga_state (if ch =? 0x1b then SetColor SCStart else PutChar)
      end;
  v ← get_state; mret (vga_state v).

Definition vga_putchar_raw (ch : Z) : VM unit :=
  v ← get_state;
  _ ← (if ch =? 13 then set_xy 0 (current_y v)
       else if ch =? 10 then set_xy 0 (add64 (current_y v) 1)
       else if ch =? 8 then _ ← set_xy (sub64 (current_x v) 1) (current_y v); write_cell 32
       else _ ← write_cell ch; set_xy (add64 (current_x v) 1) (current_y v));
  v ← get_state;
  _ ← (if VGA_BUFFER_WIDTH <=? current_x v then set_xy 0 (add64 (current_y v) 1) else mret tt);
  v ← get_state;
  if VGA_BUFFER_HEIGHT <=? current_y v then scroll_up (add64 (sub64 (current_y v) VGA_BUFFER_HEIGHT) 1) else mret tt.
(** The function [putchar]. *)
Definition vga_putchar (c : Z) : VM unit :=
  s ← process_char c;
  if decide (s = PutChar) then vga_putchar_raw c else mret tt.
Fixpoint vga_write (s : list Z) : VM unit :=
  match s with [] => mret tt | c :: s => _ ← vga_putchar c; vga_write s end.

(** ** The characters typed *)

Record StdinBuffer : Set := { sb_buffer : list Z; sb_head : Z; sb_tail : Z; sb_size : Z }.
Definition StdinBuffer_new : StdinBuffer :=
  {| sb_buffer := replicate (Z.to_nat STDIN_BUFFER_SIZE) 0; sb_head := 0; sb_tail := 0; sb_size := 0 |}.
Definition stdin_push (data : Z) (b : StdinBuffer) : StdinBuffer :=
  if sb_size b <? STDIN_BUFFER_SIZE then
    {| sb_buffer := <[Z.to_nat (sb_tail b) := data]> (sb_buffer b); sb_head := sb_head b;
       sb_tail := (sb_tail b + 1) mod STDIN_BUFFER_SIZE; sb_size := sb_size b + 1 |}
  else b.
Definition stdin_pop (b : StdinBuffer) : option Z * StdinBuffer :=
  if 0 <? sb_size b then
    (sb_buffer b !! Z.to_nat (sb_head b),
     {| sb_buffer := sb_buffer b; sb_head := (sb_head b + 1) mod STDIN_BUFFER_SIZE; sb_tail := sb_tail b; sb_size := sb_size b - 1 |})
  else (None, b).

(** ** The console behind its lock

    [VGA] is a spin lock, and [print_debug] writes through [write_str], whose [putchar] takes the lock
    again.  A call that finds the lock taken spins; [fuel] bounds the rounds. *)

Record Console : Set := { con_locked : bool; con_vga : VgaTextMode; LEVEL_DEBUG : Z }.
(** [fmt::Error]. *)
Inductive FmtError : Set := FmtErr.
Local Abbreviation CM := (M Console FmtError).
Definition set_locked (b : bool) : CM unit :=
  modify (λ c, {| con_locked := b; con_vga := con_vga c; LEVEL_DEBUG := LEVEL_DEBUG c |}).
Fixpoint VGA_lock (fuel : nat) : CM unit :=
  match fuel with
  | O => out_of_fuel
  | S fuel => c ← get_state; if con_locked c then VGA_lock fuel else set_locked true
  end.
(** A method of the text mode, called on the guard. *)
Definition on_vga {A} (m : VM A) : CM A := λ c,
  let '(r, v) := m (con_vga c) in
  (match r with Ok a => Ok a | Err _ => Panic | Panic => Panic | OutOfFuel => OutOfFuel end,
   {| con_locked := con_locked c; con_vga := v; LEVEL_DEBUG := LEVEL_DEBUG c |}).
(** The function [putchar] itself. *)
Definition console_putchar (fuel : nat) (c : Z) : CM unit :=
  _ ← VGA_lock fuel; _ ← on_vga (vga_putchar c); set_locked false.
(** [write_str] of [VgaTextMode]. *)
Fixpoint console_write_str (fuel : nat) (s : list Z) : CM unit :=
  match s with [] => mret tt | c :: s => _ ← console_putchar fuel c; console_write_str fuel s end.
(** [write_fmt]: the pieces of the arguments, one after the other. *)
Fixpoint console_write_fmt (fuel : nat) (args : list (list Z)) : CM unit :=
  match args with [] => mret tt | s :: args => _ ← console_write_str fuel s; console_write_fmt fuel args end.

Definition set_max_level (level : Z) : CM unit :=
  if 3 <? level then panic
  else modify (λ c, {| con_locked := con_locked c; con_vga := con_vga c; LEVEL_DEBUG := level |}).
(** The colour and the tag of a level. *)
Definition debug_tag (level : Z) : option (VgaTextColor * list Z) :=
  match level with
  | 1 => Some (VLightGreen, [91; 73; 78; 70; 79; 93; 32; 32])
  | 2 => Some (VLightBlue, [91; 68; 69; 86; 93; 32; 32; 32])
  | 3 => Some (VYellow, [91; 68; 69; 66; 85; 71; 93; 32])
  | _ => None
  end.
Definition print_debug (fuel : nat) (level : Z) (args : list (list Z)) : CM unit :=
  c ← get_state;
  if LEVEL_DEBUG c <? level then throw FmtErr
  else
    _ ← VGA_lock fuel;
    match debug_tag level with
    | None => _ ← set_locked false; throw FmtErr
    | Some (color, tag) =>
        _ ← on_vga (set_color (Some (VgaTextColorCode_new color VBlack)));
        _ ← console_write_str fuel tag;
        _ ← on_vga (set_color (Some (VgaTextColorCode_new VWhite VBlack)));
        _ ← console_write_fmt fuel args;
        set_locked false
    end.

Lemma VGA_lock_taken fuel c : con_locked c = true → VGA_lock fuel c = (OutOfFuel, c).
Proof.
  intros Hl. induction fuel as [|fuel IH]; [done|]. cbn [VGA_lock].
  unfold mbind, M_bind, get_state, gets in *. by rewrite Hl.
Qed.

Lemma VGA_lock_cases fuel c :
  VGA_lock fuel c = (OutOfFuel, c) ∨
  VGA_lock fuel c = (Ok tt, {| con_locked := true; con_vga := con_vga c; LEVEL_DEBUG := LEVEL_DEBUG c |}).
Proof.
  destruct (con_locked c) eqn:E; [left; by apply VGA_lock_taken|].
  destruct fuel as [|fuel]; [by left|]. right. cbn [VGA_lock]. unfold mbind, M_bind, get_state. by rewrite E.
Qed.

(** A call of [print_debug] at a level that is shown never returns.  It holds the lock of the
    screen when it writes its tag, and the write waits for that lock, however long. *)
Theorem print_debug_never_returns fuel level args c :
  1 ≤ level ≤ 3 → level ≤ LEVEL_DEBUG c →
  (print_debug fuel level args c).1 = OutOfFuel.
Proof.
  intros Hl Hd. unfold print_debug, mbind, M_bind, get_state.
  replace (LEVEL_DEBUG c <? level) with false by lia.
  destruct (VGA_lock_cases fuel c) as [->| ->]; [done|].
  assert (level = 1 ∨ level = 2 ∨ level = 3) as [->|[->| ->]] by lia;
    cbn [debug_tag console_write_str]; unfold on_vga, set_color, modify, console_putchar, mbind, M_bind;
    by rewrite VGA_lock_taken.
Qed.

(** ** The screen *)

Definition VGA_CELLS : Z := VGA_BUFFER_HEIGHT * VGA_BUFFER_WIDTH.
Record VgaInv (v : VgaTextMode) : Prop := {
  vi_x : 0 ≤ current_x v < VGA_BUFFER_WIDTH;
  vi_y : 0 ≤ current_y v < VGA_BUFFER_HEIGHT;
  vi_cells : Z.of_nat (length (chars v)) = VGA_CELLS;
}.

(** The character is shown, not taken by the parser of escapes. *)
Definition shown (c : Z) (v : VgaTextMode) : bool := match (process_char c v).1 with Ok PutChar => true | _ => false end.
(** The two places where a character cannot be shown. *)
Definition off_left (c : Z) (v : VgaTextMode) : bool := ((c =? 8) && (current_x v =? 0))%bool.
Definition off_bottom (c : Z) (v : VgaTextMode) : bool :=
  ((current_y v =? VGA_BUFFER_HEIGHT - 1) &&
   ((c =? 10) || (negb (c =? 13) && negb (c =? 8) && (current_x v =? VGA_BUFFER_WIDTH - 1))))%bool.

(** The parser moves neither the cursor nor a cell. *)
Lemma process_char_frame c v :
  ∃ s col, process_char c v = (Ok s, {| current_x := current_x v; current_y := current_y v; current_color := col;
                                        vga_state := s; chars := chars v |}).
Proof.
  unfold process_char, set_vga_state, set_color, modify, get_state, mbind, M_bind, mret, M_ret.
  destruct v as [x y col [|[| |n|]] l]; cbn; repeat (case_match; simplify_eq); cbn; eauto.
Qed.

Lemma scroll_one_overruns v : Z.of_nat (length (chars v)) = VGA_CELLS → (scroll_up 1 v).1 = Panic.
Proof.
  intros Hc. unfold scroll_up, copy_cells, mbind, M_bind, get_state. cbn -[chars Z.of_nat].
  rewrite Hc. done.
Qed.

Lemma write_cell_ok c v :
  VgaInv v →
  write_cell c v = (Ok tt, {| current_x := current_x v; current_y := current_y v; current_color := current_color v;
    vga_state := vga_state v;
    chars := <[Z.to_nat (current_y v * VGA_BUFFER_WIDTH + current_x v) := (c, current_color v)]> (chars v) |}).
Proof.
  intros [Hx Hy _]. unfold write_cell, mbind, M_bind, get_state, set_chars, modify.
  by replace ((current_y v <? VGA_BUFFER_HEIGHT) && (current_x v <? VGA_BUFFER_WIDTH))%bool with true by lia.
Qed.

(** The screen once the character is on it, before it scrolls. *)
Definition landing (c : Z) (v : VgaTextMode) : VgaTextMode :=
  let cell := λ x ch, <[Z.to_nat (current_y v * VGA_BUFFER_WIDTH + x) := (ch, current_color v)]> (chars v) in
  let at_ := λ x y l, {| current_x := x; current_y := y; current_color := current_color v; vga_state := vga_state v; chars := l |} in
  if c =? 13 then at_ 0 (current_y v) (chars v)
  else if c =? 10 then at_ 0 (current_y v + 1) (chars v)
  else if c =? 8 then at_ (current_x v - 1) (current_y v) (cell (current_x v - 1) 32)
  else if current_x v =? VGA_BUFFER_WIDTH - 1 then at_ 0 (current_y v + 1) (cell (current_x v) c)
  else at_ (current_x v + 1) (current_y v) (cell (current_x v) c).

Lemma landing_inv c v :
  VgaInv v → off_left c v = false → off_bottom c v = false → VgaInv (landing c v).
Proof.
  intros [Hx Hy Hc] Hl Hb. unfold off_left, off_bottom, landing, VGA_BUFFER_WIDTH, VGA_BUFFER_HEIGHT in *.
  repeat case_match; split; cbn; unfold VGA_BUFFER_WIDTH, VGA_BUFFER_HEIGHT; rewrite ?length_insert; lia.
Qed.
Lemma landing_bottom c v :
  VgaInv v → off_bottom c v = true →
  current_y (landing c v) = VGA_BUFFER_HEIGHT ∧ Z.of_nat (length (chars (landing c v))) = VGA_CELLS.
Proof.
  intros [Hx Hy Hc] Hb. unfold off_bottom, landing in *.
  repeat case_match; cbn; rewrite ?length_insert; split; try done; lia.
Qed.

Lemma putchar_raw_landing c v :
  VgaInv v → off_left c v = false →
  vga_putchar_raw c v =
    (if VGA_BUFFER_HEIGHT <=? current_y (landing c v)
     then scroll_up (add64 (sub64 (current_y (landing c v)) VGA_BUFFER_HEIGHT) 1) else mret tt) (landing c v).
Proof.
  intros Hi Hl. destruct (Hi) as [Hx Hy Hc]. unfold off_left, VGA_BUFFER_WIDTH, VGA_BUFFER_HEIGHT in Hx, Hy, Hl.
  assert (∀ a, 0 ≤ a < 100 → add64 a 1 = a + 1) as Hadd by (intros; apply add64_small; unfold in_u64; lia).
  assert (∀ a, 1 ≤ a < 100 → sub64 a 1 = a - 1) as Hsub by (intros; apply sub64_small; unfold in_u64; lia).
  unfold vga_putchar_raw, landing, set_xy, modify, get_state, mbind, M_bind, mret, M_ret.
  destruct (c =? 13) eqn:E13; [|destruct (c =? 10) eqn:E10; [|destruct (c =? 8) eqn:E8]].
  - done.
  - cbn. by rewrite Hadd by lia.
  - rewrite Hsub, write_cell_ok by (try split; cbn; unfold VGA_BUFFER_WIDTH, VGA_BUFFER_HEIGHT; lia). cbn -[VGA_BUFFER_WIDTH].
    by replace (VGA_BUFFER_WIDTH <=? current_x v - 1) with false by (unfold VGA_BUFFER_WIDTH; lia).
  - rewrite write_cell_ok by done. cbn -[VGA_BUFFER_WIDTH]. rewrite Hadd by lia.
    replace (VGA_BUFFER_WIDTH <=? current_x v + 1) with (current_x v =? VGA_BUFFER_WIDTH - 1) by (unfold VGA_BUFFER_WIDTH; lia).
    destruct (current_x v =? VGA_BUFFER_WIDTH - 1); cbn; [|done]. by rewrite Hadd by lia.
Qed.

Lemma putchar_raw_off_left c v : VgaInv v → off_left c v = true → (vga_putchar_raw c v).1 = Panic.
Proof.
  intros Hi Hl. unfold off_left in Hl. assert (c = 8 ∧ current_x v = 0) as [-> Hx] by lia.
  unfold vga_putchar_raw, set_xy, modify, get_state, write_cell, mbind, M_bind. cbn. rewrite Hx.
  by rewrite andb_false_r.
Qed.

Lemma putchar_raw_cases c v :
  VgaInv v →
  if (off_left c v || off_bottom c v)%bool then (vga_putchar_raw c v).1 = Panic
  else vga_putchar_raw c v = (Ok tt, landing c v).
Proof.
  intros Hi. destruct (off_left c v) eqn:El; [by apply putchar_raw_off_left|]. cbn [orb].
  rewrite putchar_raw_landing by done. destruct (off_bottom c v) eqn:Eb.
  - destruct (landing_bottom c v Hi Eb) as [-> Hl].
    exact (scroll_one_overruns _ Hl).
  - pose proof (landing_inv c v Hi El Eb) as [_ Hy _]. by replace (VGA_BUFFER_HEIGHT <=? _) with false by lia.
Qed.

(** A character written to a screen whose cursor is on it leaves the cursor on it, and the
    call fails in exactly two cases: a backspace in the first column, and a character that
    leaves the last line, where the copy of the scroll is of twice the cells that are there. *)
Theorem vga_putchar_fails_exactly c v :
  VgaInv v →
  if (shown c v && (off_left c v || off_bottom c v))%bool then (vga_putchar c v).1 = Panic
  else ∃ v', vga_putchar c v = (Ok tt, v') ∧ VgaInv v'.
Proof.
  intros [Hx Hy Hc]. unfold vga_putchar, shown. destruct (process_char_frame c v) as (s & col & E).
  unfold mbind, M_bind. rewrite E. cbn [fst].
  set (v1 := {| current_x := current_x v; current_y := current_y v; current_color := col; vga_state := s; chars := chars v |}).
  assert (VgaInv v1) as Hi by done.
  change (off_left c v) with (off_left c v1). change (off_bottom c v) with (off_bottom c v1).
  destruct (decide (s = PutChar)) as [->|Hs].
  - cbn [andb]. pose proof (putchar_raw_cases c v1 Hi) as Hr.
    destruct (off_left c v1) eqn:El; [done|]. destruct (off_bottom c v1) eqn:Eb; [done|]. cbn [orb] in *.
    eexists. split; [exact Hr|]. by apply landing_inv.
  - destruct s; [done|..]; cbn [andb]; by exists v1.
Qed.

(** ** Text in colour *)

(** The parser is between two sequences. *)
Definition idle (v : VgaTextMode) : Prop := vga_state v = PutChar ∨ vga_state v = SetColor SCEnd.
Definition plain (c : Z) : Prop := 32 ≤ c < 256.
(** A run of characters on the line of the cursor. *)
Definition put_run (text : list Z) (v : VgaTextMode) : VgaTextMode :=
  {| current_x := current_x v + Z.of_nat (length text); current_y := current_y v; current_color := current_color v;
     vga_state := match text with [] => vga_state v | _ => PutChar end;
     chars := list_inserts (Z.to_nat (current_y v * VGA_BUFFER_WIDTH + current_x v))
                ((λ c, (c, current_color v)) <$> text) (chars v) |}.

Lemma vga_write_app s t v v' : vga_write s v = (Ok tt, v') → vga_write (s ++ t) v = vga_write t v'.
Proof.
  revert v. induction s as [|c s IH]; intros v E; cbn [vga_write app] in *; [by injection E as ->|].
  unfold mbind, M_bind in *. destruct (vga_putchar c v) as [[]]; [|done..]. by apply IH.
Qed.

Lemma putchar_plain c v :
  VgaInv v → idle v → plain c → current_x v < VGA_BUFFER_WIDTH - 1 →
  vga_putchar c v = (Ok tt, put_run [c] v).
Proof.
  intros Hi Hs Hc Hx. unfold plain in Hc.
  assert (process_char c v = (Ok PutChar, {| current_x := current_x v; current_y := current_y v;
    current_color := current_color v; vga_state := PutChar; chars := chars v |})) as E.
  { unfold process_char, set_vga_state, modify, get_state, mbind, M_bind, mret, M_ret.
    replace (c =? 0x1b) with false by lia. destruct v as [x y col st l]. by destruct Hs as [Hs|Hs]; cbn in Hs; subst st. }
  unfold vga_putchar, mbind, M_bind. rewrite E. rewrite decide_True by done.
  set (v1 := {| current_x := current_x v; current_y := current_y v; current_color := current_color v; vga_state := PutChar; chars := chars v |}).
  assert (VgaInv v1) as Hi1 by (by destruct Hi).
  pose proof (putchar_raw_cases c v1 Hi1) as Hr. unfold off_left, off_bottom in Hr. cbn [current_x v1] in Hr.
  replace (c =? 8) with false in Hr by lia. replace (c =? 10) with false in Hr by lia.
  replace (current_x v =? VGA_BUFFER_WIDTH - 1) with false in Hr by lia.
  rewrite !andb_false_r in Hr. cbn [orb andb] in Hr. rewrite Hr. unfold landing, put_run, v1. cbn.
  replace (c =? 13) with false by lia. replace (c =? 10) with false by lia. replace (c =? 8) with false by lia.
  by replace (current_x v =? VGA_BUFFER_WIDTH - 1) with false by lia.
Qed.

Lemma vga_write_plain text v :
  VgaInv v → idle v → Forall plain text → current_x v + Z.of_nat (length text) < VGA_BUFFER_WIDTH →
  vga_write text v = (Ok tt, put_run text v).
Proof.
  revert v. induction text as [|c text IH]; intros v Hi Hs Hp Hx.
  - cbn. unfold put_run. cbn. rewrite Z.add_0_r. by destruct v.
  - apply Forall_cons in Hp as [Hc Hp]. cbn [length] in Hx. cbn [vga_write]. unfold mbind, M_bind.
    rewrite putchar_plain by (done || lia).
    destruct Hi as [Hix Hiy Hic]. rewrite IH; [|split; cbn; rewrite ?length_insert; lia|by left|done|cbn; lia].
    f_equal. unfold put_run. cbn. f_equal; [lia|by destruct text|].
    unfold VGA_BUFFER_WIDTH, VGA_BUFFER_HEIGHT in *.
    replace (Z.to_nat (current_y v * 80 + (current_x v + Z.of_nat 1))) with (S (Z.to_nat (current_y v * 80 + current_x v))) by lia.
    by rewrite list_insert_inserts_lt by lia.
Qed.

(** The sequence that chooses a colour, [ESC [ code m], and the one that resets it. *)
Definition color_seq (code : Z) : list Z := [27; 91; 48 + code / 10; 48 + code mod 10; 109].
Definition reset_seq : list Z := [27; 91; 109].
Definition parsed (color : Z) (v : VgaTextMode) : VgaTextMode :=
  {| current_x := current_x v; current_y := current_y v; current_color := color; vga_state := SetColor SCEnd; chars := chars v |}.
Definition is_color (code : Z) : Prop := 30 ≤ code ≤ 37 ∨ 90 ≤ code ≤ 97.

Lemma vga_write_color_seq code fg v :
  idle v → from_console_color code = Some fg →
  vga_write (color_seq code) v = (Ok tt, parsed (VgaTextColorCode_new fg VBlack) v).
Proof.
  intros Hs Hc. assert (is_color code) as Hr.
  { unfold is_color. unfold from_console_color in Hc. repeat (case_match; try discriminate); lia. }
  destruct v as [x y col st l]. assert (∃ k, (k < 8)%nat ∧ (code = 30 + Z.of_nat k ∨ code = 90 + Z.of_nat k)) as (k & Hk & Hco).
  { destruct Hr; [exists (Z.to_nat (code - 30))|exists (Z.to_nat (code - 90))]; lia. }
  destruct Hs as [Hs|Hs]; cbn in Hs; subst st;
    do 8 (destruct k as [|k]; [destruct Hco; subst code; cbn in Hc; injection Hc as <-; reflexivity|]); lia.
Qed.
Lemma vga_write_reset v : idle v → vga_write reset_seq v = (Ok tt, parsed DEFAULT_COLOR v).
Proof. intros Hs. destruct v as [x y col st l]. destruct Hs as [Hs|Hs]; cbn in Hs; subst st; reflexivity. Qed.

(** Text that [with_color!] wraps appears in its colour.  Its characters fill the cells from the cursor
    on, in the colour of the code on black; the sequences around them show nothing, the cursor
    moves by the text alone, every other cell stays, and the colour is the default one again. *)
Theorem vga_colored_text code fg text v :
  VgaInv v → idle v → from_console_color code = Some fg → Forall plain text →
  current_x v + Z.of_nat (length text) < VGA_BUFFER_WIDTH →
  vga_write (color_seq code ++ text ++ reset_seq) v =
    (Ok tt, {| current_x := current_x v + Z.of_nat (length text); current_y := current_y v;
               current_color := DEFAULT_COLOR; vga_state := SetColor SCEnd;
               chars := list_inserts (Z.to_nat (current_y v * VGA_BUFFER_WIDTH + current_x v))
                          ((λ c, (c, VgaTextColorCode_new fg VBlack)) <$> text) (chars v) |}).
Proof.
  intros Hi Hs Hc Hp Hx. rewrite (vga_write_app _ _ _ _ (vga_write_color_seq code fg v Hs Hc)).
  erewrite vga_write_app; [|apply vga_write_plain; [by destruct Hi|by right|done|done]].
  rewrite vga_write_reset; [done|]. destruct text; [by right|by left].
Qed.

(** ** The buffer of characters as a queue *)

(** The characters in the buffer, from the head. *)
Definition stdin_index (b : StdinBuffer) (i : nat) : nat := Z.to_nat ((sb_head b + Z.of_nat i) mod STDIN_BUFFER_SIZE).
Record stdin_rel (q : list Z) (b : StdinBuffer) : Prop := {
  sr_len : Z.of_nat (length (sb_buffer b)) = STDIN_BUFFER_SIZE;
  sr_head : 0 ≤ sb_head b < STDIN_BUFFER_SIZE;
  sr_size : sb_size b = Z.of_nat (length q);
  sr_cap : Z.of_nat (length q) ≤ STDIN_BUFFER_SIZE;
  sr_tail : sb_tail b = (sb_head b + sb_size b) mod STDIN_BUFFER_SIZE;
  sr_items : ∀ i, (i < length q)%nat → q !! i = sb_buffer b !! stdin_index b i;
}.

(** The queue that [put2stdin] and [getchar] promise: what does not fit is dropped. *)
Inductive StdinOp : Set := Put2stdin (c : Z) | Getchar.
Definition queue_op (o : StdinOp) (q : list Z) : option Z * list Z :=
  match o with
  | Put2stdin c => (None, if Z.of_nat (length q) <? STDIN_BUFFER_SIZE then q ++ [c] else q)
  | Getchar => (head q, tail q)
  end.
Definition stdin_op (o : StdinOp) (b : StdinBuffer) : option Z * StdinBuffer :=
  match o with Put2stdin c => (None, stdin_push c b) | Getchar => stdin_pop b end.
Definition run_ops {S} (op : StdinOp → S → option Z * S) : list StdinOp → S → list (option Z) :=
  fix go os s := match os with [] => [] | o :: os => let '(r, s') := op o s in r :: go os s' end.

Lemma stdin_new_rel : stdin_rel [] StdinBuffer_new.
Proof. split; cbn -[Z.of_nat replicate]; rewrite ?length_replicate; try done. intros i. cbn. lia. Qed.

Lemma stdin_push_rel q b c : stdin_rel q b → stdin_rel (queue_op (Put2stdin c) q).2 (stdin_push c b).
Proof.
  intros [Hl Hh Hs Hc Ht Hi]. unfold stdin_push. cbn [queue_op snd]. rewrite Hs.
  destruct (Z.of_nat (length q) <? STDIN_BUFFER_SIZE) eqn:E; [|by split].
  unfold STDIN_BUFFER_SIZE in *. split; cbn; rewrite ?length_insert, ?length_app; cbn; try (unfold STDIN_BUFFER_SIZE; lia).
  - rewrite Ht, Hs. unfold STDIN_BUFFER_SIZE. rewrite Zplus_mod_idemp_l. f_equal. lia.
  - intros i Hlt. unfold stdin_index in *. cbn. unfold STDIN_BUFFER_SIZE in *. destruct (decide (i = length q)) as [->|Hne].
    + rewrite lookup_app_r, Nat.sub_diag by lia. rewrite Ht, Hs. symmetry. apply list_lookup_insert_eq.
      pose proof (Z.mod_pos_bound (sb_head b + Z.of_nat (length q)) 1024 eq_refl). lia.
    + rewrite lookup_app_l, Hi by lia. symmetry. apply list_lookup_insert_ne. rewrite Ht, Hs. intros Heq.
      pose proof (Z.mod_pos_bound (sb_head b + Z.of_nat (length q)) 1024 eq_refl).
      pose proof (Z.mod_pos_bound (sb_head b + Z.of_nat i) 1024 eq_refl).
      apply Z2Nat.inj in Heq; [|lia..]. Z.div_mod_to_equations. lia.
Qed.

Lemma stdin_pop_rel q b :
  stdin_rel q b → (stdin_pop b).1 = (queue_op Getchar q).1 ∧ stdin_rel (queue_op Getchar q).2 (stdin_pop b).2.
Proof.
  intros [Hl Hh Hs Hc Ht Hi]. unfold stdin_pop. rewrite Hs. destruct q as [|c q]; [by split|].
  cbn [length] in *. rewrite (proj2 (Z.ltb_lt 0 _)) by lia. cbn [fst snd queue_op].
  unfold stdin_index, STDIN_BUFFER_SIZE in *. split.
  - specialize (Hi 0%nat ltac:(lia)). rewrite Z.add_0_r, Z.mod_small in Hi by lia. by rewrite <-Hi.
  - pose proof (Z.mod_pos_bound (sb_head b + 1) 1024 eq_refl). split; cbn; unfold STDIN_BUFFER_SIZE; try lia.
    + rewrite Ht, Hs, Zplus_mod_idemp_l. f_equal. lia.
    + intros i Hlt. cbn [tail] in Hlt. specialize (Hi (S i) ltac:(lia)). change ((c :: q) !! S i) with (q !! i) in Hi.
      cbn [tail]. rewrite Hi. unfold stdin_index. cbn [sb_head]. unfold STDIN_BUFFER_SIZE.
      rewrite Zplus_mod_idemp_l. do 3 f_equal. lia.
Qed.

Lemma stdin_op_rel o q b :
  stdin_rel q b → (stdin_op o b).1 = (queue_op o q).1 ∧ stdin_rel (queue_op o q).2 (stdin_op o b).2.
Proof. destruct o; intros H; [split; [done|by apply stdin_push_rel]|by apply stdin_pop_rel]. Qed.

Lemma stdin_run_rel os q b : stdin_rel q b → run_ops stdin_op os b = run_ops queue_op os q.
Proof.
  revert q b. induction os as [|o os IH]; intros q b H; [done|]. cbn.
  destruct (stdin_op_rel o q b H) as [E Hr]. destruct (stdin_op o b), (queue_op o q). cbn in *. subst. f_equal. by apply IH.
Qed.

(** The ring of typed characters is a queue of 1024: any sequence of key presses and reads
    gives the reads what the queue gives them, in order, and a key pressed while it is full is lost. *)
Theorem stdin_refines_queue os : run_ops stdin_op os StdinBuffer_new = run_ops queue_op os [].
Proof. apply stdin_run_rel, stdin_new_rel. Qed.

(** ** Witnesses *)

Lemma vga_init_inv : VgaInv vga_init_early.
Proof. by split; cbn -[Z.of_nat replicate]. Qed.

(** A tag on a fresh console. *)
Definition example_console : Console := {| con_locked := false; con_vga := vga_init_early; LEVEL_DEBUG := 3 |}.
Lemma print_debug_never_returns_witness : (print_debug 50 2 [[104; 105]] example_console).1 = OutOfFuel.
Proof. apply (print_debug_never_returns 50 2 [[104; 105]] example_console); [lia|cbn; lia]. Defined.

(** A backspace on the fresh screen, and a letter on it. *)
Lemma vga_putchar_fails_exactly_witness :
  (vga_putchar 8 vga_init_early).1 = Panic ∧ ∃ v', vga_putchar 65 vga_init_early = (Ok tt, v') ∧ VgaInv v'.
Proof.
  split; [apply (vga_putchar_fails_exactly 8 vga_init_early vga_init_inv)|apply (vga_putchar_fails_exactly 65 vga_init_early vga_init_inv)].
Defined.

(** The text [ok] in green. *)
Lemma vga_colored_text_witness :
  (vga_write (color_seq 32 ++ [111; 107] ++ reset_seq) vga_init_early).2 =
    {| current_x := 2; current_y := 0; current_color := DEFAULT_COLOR; vga_state := SetColor SCEnd;
       chars := list_inserts 0 [(111, 2); (107, 2)] (chars vga_init_early) |}.
Proof.
  rewrite (vga_colored_text 32 VGreen [111; 107] vga_init_early vga_init_inv);
    [reflexivity|by left|reflexivity|repeat constructor; unfold plain; lia|cbn; unfold VGA_BUFFER_WIDTH; lia].
Defined.
