(* ===== verification/PosixTime.v ===== *)
(** * Time of the POSIX interface ([api/arceos_posix_api/src/imp/time.rs])

    The conversions between the C structures and [Duration], the deadlines of the calls that wait,
    and [nanosleep].  A duration is its number of nanoseconds. *)

From Stdlib Require Import ZArith Lia.
From stdpp Require Import base decidable numbers gmap list.
From S2P Require Import Prelude LinkedList FlattenObjects.

Local Open Scope Z_scope.

(** [Duration::new] panics when the seconds overflow. *)
Definition Duration_new {S E} (secs nanos : Z) : M S E Z :=
  let d := secs * NANOS_PER_SECOND + nanos in if d <? DURATION_LIMIT then mret d else panic.
Definition Duration_checked_sub (a b : Z) : option Z := if b <=? a then Some (a - b) else None.
Definition as_secs (d : Z) : Z := d / NANOS_PER_SECOND.
Definition subsec_nanos (d : Z) : Z := d mod NANOS_PER_SECOND.
Definition subsec_micros (d : Z) : Z := d mod NANOS_PER_SECOND / 1000.

Record timespec : Set := { ts_sec : Z; ts_nsec : Z }.
Record timeval : Set := { tv_sec : Z; tv_usec : Z }.
Definition Duration_of_timespec {S E} (ts : timespec) : M S E Z := Duration_new (wrap 64 (ts_sec ts)) (wrap 32 (ts_nsec ts)).
Definition Duration_of_timeval {S E} (tv : timeval) : M S E Z :=
  Duration_new (wrap 64 (tv_sec tv)) (wrap 32 (wrap 32 (tv_usec tv) * 1000)).
Definition timespec_of_Duration (d : Z) : timespec := {| ts_sec := wrap_i64 (as_secs d); ts_nsec := wrap_i64 (subsec_nanos d) |}.
Definition timeval_of_Duration (d : Z) : timeval := {| tv_sec := wrap_i64 (as_secs d); tv_usec := wrap_i64 (subsec_micros d) |}.

Definition EINTR : Z := 4.
Definition EINVAL : Z := 22.

(** [sys_clock_gettime] at the time [now]: the result, and what is written at [ts]. *)
Definition sys_clock_gettime (ts_null : bool) (now : Z) : Z * option timespec :=
  if ts_null then (- EFAULT, None) else (0, Some (timespec_of_Duration now)).

(** [sys_nanosleep], whose clock reads [now] before the sleep, [start] where [axtask::sleep] or [busy_wait]
    computes the time to wake up at, and [after] at the end; the state is what is at [rem]. *)
Definition sys_nanosleep (req : option timespec) (rem_null : bool) (now start after : Z) : M (option timespec) NoError Z :=
  match req with
  | None => mret (- EINVAL)
  | Some ts =>
      if ((ts_nsec ts <? 0) || (999999999 <? ts_nsec ts))%bool then mret (- EINVAL)
      else
        dur ← Duration_of_timespec ts;
        _ ← Duration_add start dur;
        actual ← unwrap (Duration_checked_sub after now);
        match Duration_checked_sub dur actual with
        | Some diff =>
            _ ← (if rem_null then mret tt else put_state (Some (timespec_of_Duration diff)));
            mret (- EINTR)
        | None => mret 0
        end
  end.

(** ** Conversions *)

Definition timespec_ok (ts : timespec) : Prop := 0 ≤ ts_sec ts < 2 ^ 63 ∧ 0 ≤ ts_nsec ts < NANOS_PER_SECOND.
Definition timeval_ok (tv : timeval) : Prop := 0 ≤ tv_sec tv < 2 ^ 63 ∧ 0 ≤ tv_usec tv < 1000000.
Definition timespec_nanos (ts : timespec) : Z := ts_sec ts * NANOS_PER_SECOND + ts_nsec ts.

Lemma Duration_new_split {S E} secs nanos (s : S) :
  0 ≤ secs < 2 ^ 64 → 0 ≤ nanos < NANOS_PER_SECOND →
  Duration_new (E := E) secs nanos s = (Ok (secs * NANOS_PER_SECOND + nanos), s) ∧
  as_secs (secs * NANOS_PER_SECOND + nanos) = secs ∧ subsec_nanos (secs * NANOS_PER_SECOND + nanos) = nanos.
Proof.
  intros Hs Hn. unfold Duration_new, DURATION_LIMIT, as_secs, subsec_nanos, NANOS_PER_SECOND in *.
  replace (_ <? _) with true by lia. split; [done|]. split; Z.div_mod_to_equations; lia.
Qed.

Lemma Duration_of_timespec_ok {S E} ts (s : S) :
  timespec_ok ts → Duration_of_timespec (E := E) ts s = (Ok (timespec_nanos ts), s).
Proof.
  intros [Hs Hn]. unfold Duration_of_timespec. unfold NANOS_PER_SECOND in Hn. rewrite !wrap_small by lia.
  by apply (Duration_new_split (E := E)); unfold NANOS_PER_SECOND; lia.
Qed.

(** The structures of C survive the conversion to a [Duration] and back, for every time that is
    not negative and whose fraction is below a second. *)
Theorem time_conversions_roundtrip ts tv :
  timespec_ok ts → timeval_ok tv →
  (d ← Duration_of_timespec ts; mret (timespec_of_Duration d)) tt = (Ok (E := NoError) ts, tt) ∧
  (d ← Duration_of_timeval tv; mret (timeval_of_Duration d)) tt = (Ok (E := NoError) tv, tt).
Proof.
  intros Hts [Hv Hu]. split.
  - unfold mbind, M_bind. rewrite Duration_of_timespec_ok by done. destruct Hts as [Hs Hn].
    destruct (Duration_new_split (E := NoError) (ts_sec ts) (ts_nsec ts) tt) as (_ & E1 & E2); [lia|done|].
    unfold timespec_of_Duration, timespec_nanos. rewrite E1, E2. unfold NANOS_PER_SECOND in Hn.
    rewrite !wrap_i64_small by lia. by destruct ts.
  - unfold mbind, M_bind, Duration_of_timeval. rewrite (wrap_small 32 (tv_usec tv)), !wrap_small by lia.
    destruct (Duration_new_split (E := NoError) (tv_sec tv) (tv_usec tv * 1000) tt) as (-> & E1 & E2);
      [lia|unfold NANOS_PER_SECOND; lia|].
    unfold timeval_of_Duration, subsec_micros. unfold subsec_nanos in E2. rewrite E1, E2, Z.div_mul by lia.
    rewrite !wrap_i64_small by lia. by destruct tv.
Qed.

(** A sleep for a time that is not negative reports whether the clock moved by more than the time
    asked for; else the call reports an interruption with the rest of the time, which is zero when
    the sleep took exactly as long as asked.  A negative number of seconds is not refused: it is a
    time of centuries, and the sum with the clock panics. *)
Theorem nanosleep_cases ts rem_null now start after old :
  0 ≤ ts_nsec ts < NANOS_PER_SECOND → 0 ≤ now ≤ after → after - now < 2 ^ 63 →
  match decide (0 ≤ ts_sec ts) with
  | left _ =>
      ts_sec ts < 2 ^ 63 → start < 2 ^ 63 →
      sys_nanosleep (Some ts) rem_null now start after old =
        (if timespec_nanos ts <? after - now then (Ok 0, old)
         else (Ok (- EINTR), if rem_null then old else Some (timespec_of_Duration (timespec_nanos ts - (after - now)))))
  | right _ =>
      - 2 ^ 63 ≤ ts_sec ts → (- ts_sec ts) * NANOS_PER_SECOND ≤ start →
      (sys_nanosleep (Some ts) rem_null now start after old).1 = Panic
  end.
Proof.
  intros Hn Hc Ha. unfold sys_nanosleep. unfold NANOS_PER_SECOND in Hn.
  replace ((ts_nsec ts <? 0) || (999999999 <? ts_nsec ts))%bool with false by lia.
  destruct (decide _) as [Hs|Hs].
  - intros Hs' Hst. unfold mbind at 1, M_bind at 1. rewrite Duration_of_timespec_ok by (by split).
    unfold mbind, M_bind, Duration_add, Duration_checked_sub.
    replace (start + timespec_nanos ts <? DURATION_LIMIT) with true
      by (unfold timespec_nanos, DURATION_LIMIT, NANOS_PER_SECOND; lia).
    replace (now <=? after) with true by lia. cbn.
    destruct (after - now <=? timespec_nanos ts) eqn:E.
    + replace (timespec_nanos ts <? after - now) with false by lia. by destruct rem_null.
    + by replace (timespec_nanos ts <? after - now) with true by lia.
  - intros Hs' Hst. unfold Duration_of_timespec. rewrite (wrap_small 32) by lia.
    assert (wrap 64 (ts_sec ts) = ts_sec ts + 2 ^ 64) as ->
      by (unfold wrap; symmetry; apply Z.mod_unique_pos with (-1); lia).
    unfold NANOS_PER_SECOND in Hst. unfold mbind, M_bind, Duration_new.
    rewrite (proj2 (Z.ltb_lt _ _)) by (unfold DURATION_LIMIT, NANOS_PER_SECOND; lia).
    unfold mret, M_ret, Duration_add.
    by rewrite (proj2 (Z.ltb_ge _ _)) by (unfold DURATION_LIMIT, NANOS_PER_SECOND; lia).
Qed.

Lemma time_conversions_roundtrip_witness :
  (d ← Duration_of_timespec {| ts_sec := 3; ts_nsec := 250 |}; mret (timespec_of_Duration d)) tt
    = (Ok (E := NoError) {| ts_sec := 3; ts_nsec := 250 |}, tt) ∧
  (d ← Duration_of_timeval {| tv_sec := 3; tv_usec := 250 |}; mret (timeval_of_Duration d)) tt
    = (Ok (E := NoError) {| tv_sec := 3; tv_usec := 250 |}, tt).
Proof. apply time_conversions_roundtrip; split; cbn; unfold NANOS_PER_SECOND; lia. Defined.

(** A second that took a second; and minus one second. *)
Lemma nanosleep_cases_witness :
  sys_nanosleep (Some {| ts_sec := 1; ts_nsec := 0 |}) false 0 0 1000000000 None
    = (Ok (-4), Some {| ts_sec := 0; ts_nsec := 0 |}) ∧
  (sys_nanosleep (Some {| ts_sec := -1; ts_nsec := 0 |}) false 0 2000000000 2000000000 None).1 = Panic.
Proof.
  split.
  - apply (nanosleep_cases {| ts_sec := 1; ts_nsec := 0 |} false 0 0 1000000000 None); cbn; unfold NANOS_PER_SECOND; lia.
  - apply (nanosleep_cases {| ts_sec := -1; ts_nsec := 0 |} false 0 2000000000 2000000000 None); cbn; unfold NANOS_PER_SECOND; lia.
Defined.
