(* ===== verification/Select.v ===== *)
(** * Waiting for descriptors: [select] ([api/arceos_posix_api/src/imp/io_mpx/select.rs])

    A descriptor set is an array of words; [select] copies the sets it is given, clears them, and sets the
    bits of the descriptors that are ready, until there is one or the time is over.  In a round
    each descriptor is polled at most once: its answer is a function of the descriptor, another
    one in each round.  The three sets are distinct objects. *)

From Stdlib Require Import ZArith Lia.
From stdpp Require Import base decidable numbers gmap list.
From S2P Require Import Prelude LinkedList FlattenObjects PosixTime.

Local Open Scope Z_scope.

Definition FD_SETSIZE : Z := 1024.
Definition BITS_PER_USIZE : Z := 64.
Definition div_ceil (a b : Z) : Z := (a + b - 1) / b.
Definition FD_SETSIZE_USIZES : Z := div_ceil FD_SETSIZE BITS_PER_USIZE.

(** What [get_file_like(fd)?.poll()] gives. *)
Inductive Answer : Set := Closed | PollErr | PollOk (readable writable : bool).

(** The words of a set; the null pointer is [None]. *)
Abbreviation FdSet := (option (list Z)).
Inductive Kind : Set := KRead | KWrite | KExcept.
#[export] Instance Kind_eq_dec : EqDecision Kind.
Proof. solve_decision. Defined.

(** The sets of the caller, which the call writes. *)
Definition Sets : Type := Kind → FdSet.
Local Abbreviation SM := (M Sets Z).
Definition set_kind (k : Kind) (w : FdSet) : SM unit := modify (λ s k', if decide (k' = k) then w else s k').

Definition zero_fd_set (k : Kind) (nfds : Z) : SM unit :=
  s ← get_state;
  match s k with
  | None => mret tt
  | Some w =>
      let n := div_ceil nfds BITS_PER_USIZE in
      if n <=? Z.of_nat (length w) then set_kind k (Some (replicate (Z.to_nat n) 0 ++ drop (Z.to_nat n) w)) else panic
  end.
Definition set_fd_set (k : Kind) (fd : Z) : SM unit :=
  s ← get_state;
  match s k with
  | None => mret tt
  | Some w =>
      x ← unwrap (w !! Z.to_nat (fd / BITS_PER_USIZE));
      set_kind k (Some (<[Z.to_nat (fd / BITS_PER_USIZE) := Z.lor x (Z.shiftl 1 (fd mod BITS_PER_USIZE))]> w))
  end.

(** [FdSets]; a word that was not written is [None]. *)
Record FdSets : Set := { nfds : Z; bits : list (option Z) }.
Definition copy_from_fd_set (nfds_usizes : Z) (fds : FdSet) : list (option Z) :=
  match fds with
  | None => replicate (Z.to_nat nfds_usizes) (Some 0)
  | Some w => Some <$> take (Z.to_nat nfds_usizes) w
  end ++ replicate (Z.to_nat (FD_SETSIZE_USIZES - nfds_usizes)) None.
Definition FdSets_from (nfds : Z) (s : Sets) : FdSets :=
  let nfds := Z.min nfds FD_SETSIZE in
  let n := div_ceil nfds BITS_PER_USIZE in
  {| nfds := nfds;
     bits := copy_from_fd_set n (s KRead) ++ copy_from_fd_set n (s KWrite) ++ copy_from_fd_set n (s KExcept) |}.

Section poll.
Context (answer : Z → Answer) (self : FdSets).

(** A word behind one of the three pointers: reading one that was not written is undefined. *)
Definition read_bits (i : Z) : SM Z := x ← unwrap (bits self !! Z.to_nat i); unwrap x.
Definition report_if (b : bool) (k : Kind) (fd res_num : Z) : SM Z :=
  if b then _ ← set_fd_set k fd; mret (res_num + 1) else mret res_num.
(** The descriptor [fd], whose bit is [bit] in the three words. *)
Definition poll_fd (rbits wbits ebits bit fd res_num : Z) : SM Z :=
  match answer fd with
  | Closed => throw EBADF
  | PollOk readable writable =>
      n ← report_if (readable && negb (Z.land rbits bit =? 0)) KRead fd res_num;
      report_if (writable && negb (Z.land wbits bit =? 0)) KWrite fd n
  | PollErr => report_if (negb (Z.land ebits bit =? 0)) KExcept fd res_num
  end.
Fixpoint bit_loop (fuel : nat) (rbits wbits ebits i j res_num : Z) : SM Z :=
  match fuel with
  | O => out_of_fuel
  | S fuel =>
      if ((j <? BITS_PER_USIZE) && (i + j <? nfds self))%bool then
        let bit := Z.shiftl 1 j in
        if Z.land (Z.lor (Z.lor rbits wbits) ebits) bit =? 0 then bit_loop fuel rbits wbits ebits i (j + 1) res_num
        else
          n ← poll_fd rbits wbits ebits bit (i + j) res_num;
          bit_loop fuel rbits wbits ebits i (j + 1) n
      else mret res_num
  end.
(** [p] is how far the pointers are. *)
Fixpoint word_loop (fuel : nat) (p i res_num : Z) : SM Z :=
  match fuel with
  | O => out_of_fuel
  | S fuel =>
      if i <? nfds self then
        r ← read_bits p;
        w ← read_bits (FD_SETSIZE_USIZES + p);
        e ← read_bits (FD_SETSIZE_USIZES * 2 + p);
        if Z.lor (Z.lor r w) e =? 0 then word_loop fuel (p + 1) (i + BITS_PER_USIZE) res_num
        else
          n ← bit_loop 65 r w e i 0 res_num;
          word_loop fuel (p + 1) (i + BITS_PER_USIZE) n
      else mret res_num
  end.
Definition poll_all : SM Z := word_loop 17 0 0 0.
End poll.

(** The loop of [sys_select]: the answers and the clock of each round. *)
Fixpoint select_loop (fuel : nat) (answers : nat → Z → Answer) (clock : nat → Z) (fd_sets : FdSets)
    (deadline : option Z) (n : nat) : SM Z :=
  match fuel with
  | O => out_of_fuel
  | S fuel =>
      res ← poll_all (answers n) fd_sets;
      if 0 <? res then mret res
      else if match deadline with Some ddl => ddl <=? clock n | None => false end then mret 0
      else select_loop fuel answers clock fd_sets deadline (S n)
  end.
Definition sys_select (fuel : nat) (answers : nat → Z → Answer) (start : Z) (clock : nat → Z)
    (nfds : Z) (timeout : option timeval) : SM Z :=
  if nfds <? 0 then throw EINVAL
  else
    let nfds := Z.min nfds FD_SETSIZE in
    deadline ← match timeout with
               | None => mret None
               | Some t => d ← Duration_of_timeval t; ddl ← Duration_add start d; mret (Some ddl)
               end;
    s ← get_state;
    let fd_sets := FdSets_from nfds s in
    _ ← zero_fd_set KRead nfds; _ ← zero_fd_set KWrite nfds; _ ← zero_fd_set KExcept nfds;
    select_loop fuel answers clock fd_sets deadline 0.

(** ** What the call reports *)

(** [FD_ISSET]. *)
Definition isset (fds : FdSet) (fd : Z) : bool :=
  match fds with
  | None => false
  | Some w => Z.testbit (default 0 (w !! Z.to_nat (fd / BITS_PER_USIZE))) (fd mod BITS_PER_USIZE)
  end.
Definition sets_ok (s : Sets) : Prop := ∀ k w, s k = Some w → Z.of_nat (length w) = FD_SETSIZE_USIZES.

Section report.
Context (answer : Z → Answer) (orig : Sets).

(** The sets in which a descriptor is reported, and whether it is polled at all. *)
Definition report (fd : Z) : list Kind :=
  match answer fd with
  | Closed => []
  | PollOk readable writable =>
      (if readable && isset (orig KRead) fd then [KRead] else []) ++
      (if writable && isset (orig KWrite) fd then [KWrite] else [])
  | PollErr => if isset (orig KExcept) fd then [KExcept] else []
  end.
Definition asked (fd : Z) : bool := (isset (orig KRead) fd || isset (orig KWrite) fd || isset (orig KExcept) fd)%bool.
Definition asked_closed (fd : Z) : bool := (asked fd && match answer fd with Closed => true | _ => false end)%bool.
Definition reports (fds : list Z) : nat := sum_list_with (λ fd, length (report fd)) fds.

(** The sets hold the reports of the descriptors [P], and what they held. *)
Definition marked (P : Kind → Z → bool) (s s' : Sets) : Prop :=
  sets_ok s' ∧ (∀ k, is_Some (s' k) ↔ is_Some (s k)) ∧
  ∀ k fd, 0 ≤ fd < FD_SETSIZE → isset (s' k) fd = (isset (s k) fd || P k fd)%bool.
Definition in_reports (fds : list Z) (k : Kind) (fd : Z) : bool :=
  (bool_decide (fd ∈ fds) && bool_decide (k ∈ report fd))%bool.
Definition ready_sets (s : Sets) : Prop := sets_ok s ∧ ∀ k, is_Some (s k) ↔ is_Some (orig k).

(** A run that polls the descriptors [fds], with [n] reports before it. *)
Definition polls (fds : list Z) (n : Z) (m : M Sets Z Z) (s : Sets) : Prop :=
  if existsb asked_closed fds then (m s).1 = Err EBADF
  else ∃ s', m s = (Ok (n + Z.of_nat (reports fds)), s') ∧ marked (in_reports fds) s s'.

Lemma marked_trans P Q s s1 s2 :
  marked P s s1 → marked Q s1 s2 → marked (λ k fd, P k fd || Q k fd)%bool s s2.
Proof.
  intros (H1 & N1 & B1) (H2 & N2 & B2). split; [done|]. split; [intros k; by rewrite N2, N1|].
  intros k fd Hfd. by rewrite B2, B1, orb_assoc.
Qed.
Lemma marked_ext P Q s s' : (∀ k fd, P k fd = Q k fd) → marked P s s' → marked Q s s'.
Proof. intros HPQ (H1 & N1 & B1). split; [done|]. split; [done|]. intros k fd Hfd. by rewrite <-HPQ, B1. Qed.
Lemma marked_none s : sets_ok s → marked (λ _ _, false) s s.
Proof. intros Hs. split; [done|]. split; [done|]. intros. by rewrite orb_false_r. Qed.
Lemma marked_ready P s s' : ready_sets s → marked P s s' → ready_sets s'.
Proof. intros [_ Hn] (Hs & Hn' & _). split; [done|]. intros k. by rewrite Hn', Hn. Qed.

Lemma in_reports_app l1 l2 k fd : (in_reports l1 k fd || in_reports l2 k fd)%bool = in_reports (l1 ++ l2) k fd.
Proof.
  unfold in_reports. rewrite <-andb_orb_distrib_l. f_equal. rewrite <-bool_decide_or.
  apply bool_decide_ext. by rewrite elem_of_app.
Qed.

Lemma polls_nil n s : ready_sets s → polls [] n (mret n) s.
Proof.
  intros [Hs _]. exists s. split; [unfold mret, M_ret; do 2 f_equal; cbn; lia|].
  eapply marked_ext; [|by apply marked_none]. done.
Qed.
Lemma polls_eq l n m m' s : m s = m' s → polls l n m' s → polls l n m s.
Proof. unfold polls. by intros ->. Qed.
Lemma polls_app l1 l2 n m f s :
  ready_sets s → polls l1 n m s → (∀ n' s', ready_sets s' → polls l2 n' (f n') s') →
  polls (l1 ++ l2) n (m ≫= f) s.
Proof.
  intros Hr H1 H2. unfold polls in *. rewrite existsb_app. destruct (existsb asked_closed l1); cbn [orb].
  - unfold mbind, M_bind. destruct (m s) as [[]]; cbn in *; simplify_eq; done.
  - destruct H1 as (s1 & E1 & M1). specialize (H2 (n + Z.of_nat (reports l1)) s1 (marked_ready _ _ _ Hr M1)).
    unfold mbind, M_bind. rewrite E1. destruct (existsb asked_closed l2); [done|].
    destruct H2 as (s2 & -> & M2). exists s2. split.
    + do 2 f_equal. unfold reports. rewrite sum_list_with_app. lia.
    + eapply marked_ext; [|by eapply marked_trans]. intros k fd. apply in_reports_app.
Qed.

(** A descriptor that nobody asked for is not polled. *)
Lemma asked_report fd : asked fd = false → report fd = [].
Proof.
  unfold asked, report. intros [[HR HW]%orb_false_iff HE]%orb_false_iff. rewrite HR, HW, HE.
  destruct (answer fd); rewrite ?andb_false_r; done.
Qed.
Lemma in_reports_one fd k fd' : in_reports [fd] k fd' = ((fd' =? fd) && bool_decide (k ∈ report fd))%bool.
Proof.
  unfold in_reports. destruct (Z.eqb_spec fd' fd) as [->|Hne].
  - rewrite bool_decide_true by (by apply list_elem_of_singleton). done.
  - by rewrite bool_decide_false by (by rewrite list_elem_of_singleton).
Qed.
Lemma polls_skip l1 l2 n m s : (∀ fd, fd ∈ l1 → asked fd = false) → polls l2 n m s → polls (l1 ++ l2) n m s.
Proof.
  intros Hl Hm. induction l1 as [|fd l1 IH]; [done|]. specialize (IH ltac:(set_solver)). specialize (Hl fd ltac:(set_solver)).
  unfold polls in *. cbn [app existsb]. unfold asked_closed at 1. rewrite Hl. cbn [andb orb].
  case_match; [done|]. destruct IH as (s' & E & M). exists s'. unfold reports. cbn [sum_list_with]. rewrite asked_report by done.
  split; [exact E|]. eapply marked_ext; [|exact M]. intros k fd'. change (fd :: l1 ++ l2) with ([fd] ++ (l1 ++ l2)).
  rewrite <-(in_reports_app [fd] (l1 ++ l2)), in_reports_one, asked_report by done. by rewrite bool_decide_false, andb_false_r by apply not_elem_of_nil.
Qed.

Lemma set_fd_set_marks k fd s :
  sets_ok s → is_Some (s k) → 0 ≤ fd < FD_SETSIZE →
  ∃ s', set_fd_set k fd s = (Ok tt, s') ∧ marked (λ k' fd', bool_decide (k' = k) && (fd' =? fd))%bool s s'.
Proof.
  intros Hs [w Hk] Hfd. pose proof (Hs k w Hk) as Hl. change FD_SETSIZE_USIZES with 16 in Hl. unfold FD_SETSIZE in Hfd.
  unfold set_fd_set, mbind, M_bind, get_state. rewrite Hk. unfold BITS_PER_USIZE.
  destruct (lookup_lt_is_Some_2 w (Z.to_nat (fd / 64))) as [x Hx]; [Z.div_mod_to_equations; lia|].
  rewrite Hx. cbn. eexists. split; [done|]. split; [|split].
  - intros k' w'. case_decide; [|apply Hs]. intros [= <-]. by rewrite length_insert.
  - intros k'. case_decide as Hkk; [subst; by rewrite Hk|done].
  - intros k' fd' Hfd'. case_bool_decide; case_decide; try done; [|by rewrite orb_false_r].
    subst k'. rewrite Hk. cbn [isset andb]. unfold BITS_PER_USIZE.
    destruct (decide (fd' / 64 = fd / 64)) as [Hq|Hq].
    + rewrite Hq, list_lookup_insert_eq, Hx by (by eapply lookup_lt_Some). cbn [default from_option]. unfold id.
      rewrite Z.lor_spec, Z.shiftl_1_l. f_equal. rewrite Z.pow2_bits_eqb by (apply Z.mod_pos_bound; lia).
      apply eq_true_iff_eq. rewrite !Z.eqb_eq. Z.div_mod_to_equations. lia.
    + rewrite list_lookup_insert_ne by (Z.div_mod_to_equations; lia).
      replace (fd' =? fd) with false; [by rewrite orb_false_r|]. symmetry. apply Z.eqb_neq. by intros ->.
Qed.

Lemma report_if_marks b k fd n s :
  sets_ok s → (b = true → is_Some (s k)) → 0 ≤ fd < FD_SETSIZE →
  ∃ s', report_if b k fd n s = (Ok (n + Z.b2z b), s') ∧
        marked (λ k' fd', b && bool_decide (k' = k) && (fd' =? fd))%bool s s'.
Proof.
  intros Hs Hk Hfd. unfold report_if. destruct b.
  - destruct (set_fd_set_marks k fd s Hs (Hk eq_refl) Hfd) as (s' & E & Hm). unfold mbind, M_bind. rewrite E. by exists s'.
  - exists s. split; [unfold mret, M_ret; cbn; do 2 f_equal; lia|]. by apply marked_none.
Qed.

Lemma isset_is_Some (w : FdSet) fd : isset w fd = true → is_Some w.
Proof. by destruct w. Qed.

(** The words of a descriptor, and its bit in them. *)
Definition bit_of (k : Kind) (word fd : Z) : Prop :=
  negb (Z.land word (Z.shiftl 1 (fd mod BITS_PER_USIZE)) =? 0) = isset (orig k) fd.

Lemma elem_if (b : bool) (k x : Kind) : bool_decide (k ∈ if b then [x] else []) = (b && bool_decide (k = x))%bool.
Proof.
  destruct b; cbn [andb]; [|by rewrite bool_decide_false by apply not_elem_of_nil].
  apply bool_decide_ext, list_elem_of_singleton.
Qed.
Lemma length_if (b : bool) (x : Kind) : Z.of_nat (length (if b then [x] else [])) = Z.b2z b.
Proof. by destruct b. Qed.

Lemma poll_fd_polls r w e fd n s :
  ready_sets s → 0 ≤ fd < FD_SETSIZE → asked fd = true → bit_of KRead r fd → bit_of KWrite w fd → bit_of KExcept e fd →
  polls [fd] n (poll_fd answer r w e (Z.shiftl 1 (fd mod BITS_PER_USIZE)) fd n) s.
Proof.
  intros [Hs Hn] Hfd Ha Hr Hw He. unfold bit_of, polls, poll_fd in *. cbn [existsb]. unfold asked_closed. rewrite Ha, orb_false_r.
  rewrite Hr, Hw, He. unfold reports. cbn [sum_list_with]. rewrite Nat.add_0_r.
  destruct (answer fd) as [| |rd wr] eqn:E; cbn [andb]; [done|..].
  - destruct (report_if_marks (isset (orig KExcept) fd) KExcept fd n s) as (s' & -> & Hm); [done|intros ?%isset_is_Some; by apply Hn|done|].
    exists s'. split; [unfold report; by rewrite E, length_if|]. eapply marked_ext; [|exact Hm]. intros k fd'. cbn beta.
    rewrite in_reports_one. unfold report. rewrite E, elem_if. apply andb_comm.
  - destruct (report_if_marks (rd && isset (orig KRead) fd) KRead fd n s) as (s1 & E1 & M1);
      [done|intros [_ ?%isset_is_Some]%andb_true_iff; by apply Hn|done|].
    destruct (report_if_marks (wr && isset (orig KWrite) fd) KWrite fd (n + Z.b2z (rd && isset (orig KRead) fd)) s1) as (s2 & E2 & M2);
      [apply M1|intros [_ ?%isset_is_Some]%andb_true_iff; by apply M1, Hn|done|].
    unfold mbind, M_bind. rewrite E1, E2. exists s2. split.
    + unfold report. by rewrite E, length_app, Nat2Z.inj_add, !length_if, Z.add_assoc.
    + eapply marked_ext; [|by eapply marked_trans]. intros k fd'. cbn beta.
      rewrite in_reports_one. unfold report. rewrite E, (bool_decide_ext _ _ (elem_of_app _ _ _)), bool_decide_or, !elem_if.
      by rewrite <-andb_orb_distrib_l, andb_comm.
Qed.
End report.

(** ** The loops poll each descriptor once *)

Section loops.
Context (answer : Z → Answer) (orig : Sets) (N : Z) (Horig : sets_ok orig) (HN : 0 ≤ N).
Local Abbreviation nf := (Z.min N FD_SETSIZE).
Local Abbreviation self := (FdSets_from N orig).
Local Abbreviation polls := (polls answer orig).
Local Abbreviation ready_sets := (ready_sets orig).

Definition word_of (k : Kind) (p : Z) : Z := match orig k with None => 0 | Some w => default 0 (w !! Z.to_nat p) end.
Definition kind_offset (k : Kind) : Z :=
  match k with KRead => 0 | KWrite => FD_SETSIZE_USIZES | KExcept => FD_SETSIZE_USIZES * 2 end.

Lemma isset_word k fd : isset (orig k) fd = Z.testbit (word_of k (fd / BITS_PER_USIZE)) (fd mod BITS_PER_USIZE).
Proof. unfold isset, word_of. destruct (orig k); [done|]. by rewrite Z.testbit_0_l. Qed.
Lemma word_bit_of k p fd : fd / BITS_PER_USIZE = p → bit_of orig k (word_of k p) fd.
Proof.
  intros <-. unfold bit_of. rewrite land_bit_zero, negb_involutive by (apply Z.mod_pos_bound; done). symmetry. apply isset_word.
Qed.

Lemma copy_from_lookup n k (p : nat) :
  0 ≤ n ≤ 16 → (p < Z.to_nat n)%nat →
  length (copy_from_fd_set n (orig k)) = 16%nat ∧ copy_from_fd_set n (orig k) !! p = Some (Some (word_of k (Z.of_nat p))).
Proof.
  intros Hn Hp. pose proof (Horig k) as Ho. unfold copy_from_fd_set, word_of. change FD_SETSIZE_USIZES with 16 in *.
  rewrite length_app, length_replicate, Nat2Z.id. destruct (orig k) as [w|].
  - specialize (Ho w eq_refl). rewrite length_fmap, length_take. split; [lia|].
    rewrite lookup_app_l by (rewrite length_fmap, length_take; lia).
    rewrite list_lookup_fmap, lookup_take_lt by lia. destruct (lookup_lt_is_Some_2 w p) as [x ->]; [lia|done].
  - rewrite length_replicate. split; [lia|].
    rewrite lookup_app_l by (rewrite length_replicate; lia). by apply lookup_replicate_2.
Qed.
Lemma read_bits_word k p s :
  0 ≤ p → p * BITS_PER_USIZE < nf → read_bits self (kind_offset k + p) s = (Ok (word_of k p), s).
Proof.
  intros Hp Hlt. set (n := div_ceil (Z.min nf FD_SETSIZE) BITS_PER_USIZE).
  assert (0 ≤ n ≤ 16 ∧ p < n) as [Hn Hpn].
  { unfold n, div_ceil, FD_SETSIZE, BITS_PER_USIZE in *. Z.div_mod_to_equations. lia. }
  assert (bits self = copy_from_fd_set n (orig KRead) ++ copy_from_fd_set n (orig KWrite) ++ copy_from_fd_set n (orig KExcept)) as Eb.
  { unfold FdSets_from, n. cbn. by rewrite (Z.min_l nf) by apply Z.le_min_r. }
  destruct (copy_from_lookup n KRead (Z.to_nat p)) as [LR R]; [lia..|].
  destruct (copy_from_lookup n KWrite (Z.to_nat p)) as [LW W]; [lia..|].
  destruct (copy_from_lookup n KExcept (Z.to_nat p)) as [LE E]; [lia..|]. rewrite Z2Nat.id in R, W, E by lia.
  assert (bits self !! Z.to_nat (kind_offset k + p) = Some (Some (word_of k p))) as El.
  { rewrite Eb. destruct k; unfold kind_offset; change FD_SETSIZE_USIZES with 16.
    - by rewrite lookup_app_l by lia.
    - rewrite lookup_app_r, lookup_app_l, LR by lia. by replace (Z.to_nat (16 + p) - 16)%nat with (Z.to_nat p) by lia.
    - rewrite lookup_app_r, lookup_app_r, LR, LW by lia. by replace (Z.to_nat (16 * 2 + p) - 16 - 16)%nat with (Z.to_nat p) by lia. }
  unfold read_bits, mbind, M_bind. rewrite El. done.
Qed.

(** The three words of a position are tested together. *)
Lemma asked_bit p fd :
  fd / BITS_PER_USIZE = p →
  (Z.land (Z.lor (Z.lor (word_of KRead p) (word_of KWrite p)) (word_of KExcept p)) (Z.shiftl 1 (fd mod BITS_PER_USIZE)) =? 0)
  = negb (asked orig fd).
Proof.
  intros <-. rewrite land_bit_zero by (apply Z.mod_pos_bound; done). rewrite !Z.lor_spec. unfold asked. by rewrite !isset_word.
Qed.

Lemma bit_loop_polls (m fuel : nat) p j n s :
  (m < fuel)%nat → 0 ≤ p → 0 ≤ j → j + Z.of_nat m = Z.min BITS_PER_USIZE (nf - p * BITS_PER_USIZE) → ready_sets s →
  polls (seqZ (p * BITS_PER_USIZE + j) (Z.of_nat m)) n
    (bit_loop answer self fuel (word_of KRead p) (word_of KWrite p) (word_of KExcept p) (p * BITS_PER_USIZE) j n) s.
Proof.
  revert fuel j n s. induction m as [|m IH]; intros [|fuel] j n s Hf Hp Hj Hm Hr; [lia| |lia|]; cbn [bit_loop];
    change (nfds self) with nf; unfold FD_SETSIZE in *.
  - replace (_ && _)%bool with false by lia. by apply polls_nil.
  - replace (_ && _)%bool with true by lia. rewrite seqZ_cons by lia.
    replace (Z.succ (p * BITS_PER_USIZE + j)) with (p * BITS_PER_USIZE + (j + 1)) by lia.
    replace (Z.pred (Z.of_nat (S m))) with (Z.of_nat m) by lia.
    set (fd := p * BITS_PER_USIZE + j).
    assert (fd / BITS_PER_USIZE = p ∧ fd mod BITS_PER_USIZE = j) as [Hq Hmod].
    { unfold fd, BITS_PER_USIZE in *. split; Z.div_mod_to_equations; lia. }
    pose proof (asked_bit p fd Hq) as Ht. rewrite Hmod in Ht. rewrite Ht.
    destruct (asked orig fd) eqn:Ea; cbn [negb].
    + apply (polls_app answer orig [fd]); [done| |intros n' s' Hr'; apply IH; try done; lia].
      rewrite <-Hmod. apply poll_fd_polls; try done; try (by apply word_bit_of).
      unfold fd, BITS_PER_USIZE, FD_SETSIZE in *. lia.
    + apply (polls_skip answer orig [fd]); [by intros fd' ->%list_elem_of_singleton|]. apply IH; try done; lia.
Qed.

Lemma word_zero_not_asked p :
  0 ≤ p → Z.lor (Z.lor (word_of KRead p) (word_of KWrite p)) (word_of KExcept p) = 0 →
  ∀ fd, fd ∈ seqZ (p * BITS_PER_USIZE) BITS_PER_USIZE → asked orig fd = false.
Proof.
  intros Hp E fd Hfd%elem_of_seqZ. apply negb_true_iff. rewrite <-(asked_bit p).
  - by rewrite E, Z.land_0_l.
  - unfold BITS_PER_USIZE in *. Z.div_mod_to_equations. lia.
Qed.

Lemma word_loop_polls (fuel : nat) p n s :
  0 ≤ p → nf ≤ BITS_PER_USIZE * (p + Z.of_nat fuel) → ready_sets s →
  polls (seqZ (p * BITS_PER_USIZE) (nf - p * BITS_PER_USIZE)) n (word_loop answer self (S fuel) p (p * BITS_PER_USIZE) n) s.
Proof.
  revert p n s. induction fuel as [|fuel IH]; intros p n s Hp Hf Hr; remember (S _) as f eqn:Ef in |- *; rewrite Ef; cbn [word_loop];
    change (nfds self) with nf; destruct (p * BITS_PER_USIZE <? nf) eqn:E;
    [unfold BITS_PER_USIZE in *; lia|rewrite seqZ_nil by lia; by apply polls_nil| |rewrite seqZ_nil by lia; by apply polls_nil].
  set (L := Z.min BITS_PER_USIZE (nf - p * BITS_PER_USIZE)).
  assert (seqZ (p * BITS_PER_USIZE) (nf - p * BITS_PER_USIZE) =
          seqZ (p * BITS_PER_USIZE) L ++ seqZ ((p + 1) * BITS_PER_USIZE) (nf - (p + 1) * BITS_PER_USIZE)) as ->.
  { unfold L, BITS_PER_USIZE in *. destruct (decide (64 ≤ nf - p * 64)) as [Hle|Hle].
    - replace (Z.min 64 _) with 64 by lia. replace ((p + 1) * 64) with (p * 64 + 64) by lia. rewrite <-seqZ_app by lia. f_equal. lia.
    - replace (Z.min 64 _) with (nf - p * 64) by lia. rewrite (seqZ_nil ((p + 1) * 64)) by lia. by rewrite app_nil_r. }
  pose proof (read_bits_word KRead p s Hp ltac:(lia)) as RR. change (kind_offset KRead + p) with p in RR.
  pose proof (read_bits_word KWrite p s Hp ltac:(lia)) as RW. pose proof (read_bits_word KExcept p s Hp ltac:(lia)) as RE.
  cbn [kind_offset] in RW, RE.
  eapply polls_eq; [unfold mbind at 1, M_bind at 1; rewrite RR; unfold mbind at 1, M_bind at 1; rewrite RW;
    unfold mbind at 1, M_bind at 1; rewrite RE; reflexivity|].
  replace (p * BITS_PER_USIZE + BITS_PER_USIZE) with ((p + 1) * BITS_PER_USIZE) by lia.
  assert (∀ n' s', ready_sets s' → polls (seqZ ((p + 1) * BITS_PER_USIZE) (nf - (p + 1) * BITS_PER_USIZE)) n'
    (word_loop answer self (S fuel) (p + 1) ((p + 1) * BITS_PER_USIZE) n') s') as Hnext
    by (intros; apply IH; [lia|unfold BITS_PER_USIZE in *; lia|done]).
  destruct (_ =? 0) eqn:Ez.
  - apply Z.eqb_eq in Ez. apply polls_skip; [|by apply Hnext]. intros fd Hfd%elem_of_seqZ.
    apply (word_zero_not_asked p Hp Ez). apply elem_of_seqZ. lia.
  - apply (polls_app answer orig); [done| |exact Hnext].
    rewrite <-(Z.add_0_r (p * BITS_PER_USIZE)) at 1. replace L with (Z.of_nat (Z.to_nat L)) by lia.
    apply bit_loop_polls; try done; unfold L, BITS_PER_USIZE in *; lia.
Qed.

Lemma poll_all_polls s : ready_sets s → polls (seqZ 0 nf) 0 (poll_all answer self) s.
Proof.
  intros Hr. unfold poll_all. replace nf with (nf - 0 * BITS_PER_USIZE) at 1 by lia.
  apply (word_loop_polls 16 0 0 s); [lia|unfold FD_SETSIZE, BITS_PER_USIZE; lia|done].
Qed.
End loops.

(** ** The call *)

Definition expired (deadline : option Z) (now : Z) : bool := match deadline with Some ddl => ddl <=? now | None => false end.

Section call.
Context (answers : nat → Z → Answer) (clock : nat → Z) (orig : Sets) (N : Z) (deadline : option Z).
Context (Horig : sets_ok orig) (HN : 0 ≤ N).
Local Abbreviation nf := (Z.min N FD_SETSIZE).
Local Abbreviation fds := (seqZ 0 nf).

(** A round with nothing to report, before the deadline. *)
Definition quiet (i : nat) : Prop :=
  existsb (asked_closed (answers i) orig) fds = false ∧ reports (answers i) orig fds = 0%nat ∧ expired deadline (clock i) = false.

Lemma reports_zero answer k fd : reports answer orig fds = 0%nat → in_reports answer orig fds k fd = false.
Proof.
  intros H0. unfold in_reports. case_bool_decide as Hin; [|done]. unfold reports in H0.
  assert (report answer orig fd = []) as ->; [|by rewrite bool_decide_false by apply not_elem_of_nil].
  revert Hin H0. generalize fds. intros l Hin H0. induction Hin; cbn in H0; [apply nil_length_inv; lia|apply IHHin; lia].
Qed.

Lemma select_loop_reports n i fuel s :
  (∀ j, (i ≤ j < i + n)%nat → quiet j) → (n < fuel)%nat → ready_sets orig s →
  existsb (asked_closed (answers (i + n)) orig) fds = false →
  (0 < reports (answers (i + n)) orig fds)%nat ∨ expired deadline (clock (i + n)) = true →
  ∃ s', select_loop fuel answers clock (FdSets_from N orig) deadline i s
          = (Ok (Z.of_nat (reports (answers (i + n)) orig fds)), s') ∧
        marked (in_reports (answers (i + n)) orig fds) s s'.
Proof.
  revert i fuel s. induction n as [|n IH]; intros i [|fuel] s Hq Hf Hr Hc Hend; [lia| |lia|]; cbn [select_loop].
  - rewrite Nat.add_0_r in *. pose proof (poll_all_polls (answers i) orig N Horig HN s Hr) as Hp. unfold polls in Hp.
    rewrite Hc in Hp. destruct Hp as (s' & E & M). unfold mbind, M_bind. rewrite E. exists s'. split; [|done].
    cbn [Z.add]. destruct (reports (answers i) orig fds) as [|r] eqn:Er; [|done].
    destruct Hend as [Hend|Hend]; [lia|]. unfold expired in Hend. cbn. by rewrite Hend.
  - destruct (Hq i ltac:(lia)) as (Hqc & Hqr & Hqe).
    pose proof (poll_all_polls (answers i) orig N Horig HN s Hr) as Hp. unfold polls in Hp.
    rewrite Hqc in Hp. destruct Hp as (s' & E & M). unfold mbind, M_bind. rewrite E, Hqr. cbn [Z.add Z.of_nat Z.ltb Z.compare].
    unfold expired in Hqe. rewrite Hqe. replace (i + S n)%nat with (S i + n)%nat in * by lia.
    destruct (IH (S i) fuel s') as (s2 & E2 & M2); [intros; apply Hq; lia|lia|by eapply marked_ready|done|done|].
    exists s2. split; [done|]. eapply marked_ext; [|by eapply marked_trans]. intros k fd. cbn beta. by rewrite reports_zero.
Qed.

End call.

(** Clearing leaves the words above the descriptors of the call. *)
Section clear.
Context (orig : Sets) (N : Z) (Horig : sets_ok orig) (HN : 0 ≤ N).
Local Abbreviation nf := (Z.min N FD_SETSIZE).

Definition zeroed (w : FdSet) : FdSet :=
  let n := Z.to_nat (div_ceil nf BITS_PER_USIZE) in match w with None => None | Some w => Some (replicate n 0 ++ drop n w) end.
Lemma zero_fd_set_ok k s :
  sets_ok s → ∃ s', zero_fd_set k nf s = (Ok tt, s') ∧ ∀ k', s' k' = if decide (k' = k) then zeroed (s k) else s k'.
Proof.
  intros Hs. unfold zero_fd_set, mbind, M_bind, get_state. destruct (s k) as [w|] eqn:Ek.
  - specialize (Hs k w Ek). change FD_SETSIZE_USIZES with 16 in Hs.
    replace (_ <=? _) with true; [by eexists|]. unfold div_ceil, FD_SETSIZE, BITS_PER_USIZE. symmetry. apply Z.leb_le.
    Z.div_mod_to_equations. lia.
  - exists s. split; [done|]. intros k'. by case_decide; subst.
Qed.
Lemma zeroed_length w w' : Z.of_nat (length w) = FD_SETSIZE_USIZES → zeroed (Some w) = Some w' → Z.of_nat (length w') = FD_SETSIZE_USIZES.
Proof.
  intros Hl [= <-]. rewrite length_app, length_replicate, length_drop. change FD_SETSIZE_USIZES with 16 in *.
  unfold div_ceil, FD_SETSIZE, BITS_PER_USIZE. Z.div_mod_to_equations. lia.
Qed.
Lemma isset_zeroed w fd :
  0 ≤ fd → isset (zeroed w) fd = ((nf <=? fd / BITS_PER_USIZE * BITS_PER_USIZE) && isset w fd)%bool.
Proof.
  intros Hfd. destruct w as [w|]; [|by rewrite andb_false_r]. cbn [isset zeroed]. unfold div_ceil, BITS_PER_USIZE.
  destruct (Z.leb_spec nf (fd / 64 * 64)) as [Hle|Hgt]; cbn [andb].
  - rewrite lookup_app_r, length_replicate, lookup_drop by (rewrite length_replicate; Z.div_mod_to_equations; lia).
    do 3 f_equal. Z.div_mod_to_equations. lia.
  - rewrite lookup_app_l, lookup_replicate_2 by (rewrite ?length_replicate; Z.div_mod_to_equations; lia). apply Z.testbit_0_l.
Qed.

Lemma zeroed_sets_ok k s s' :
  sets_ok s → (∀ k', s' k' = if decide (k' = k) then zeroed (s k) else s k') → sets_ok s'.
Proof.
  intros Hs He k' w' Hk'. rewrite He in Hk'. case_decide; [|by eapply Hs].
  destruct (s k) as [w|] eqn:Ek; [|done]. apply (zeroed_length w); [by eapply Hs|done].
Qed.
Lemma zero_all_ok :
  ∃ s', (_ ← zero_fd_set KRead nf; _ ← zero_fd_set KWrite nf; zero_fd_set KExcept nf) orig = (Ok tt, s') ∧
        ready_sets orig s' ∧ ∀ k, s' k = zeroed (orig k).
Proof.
  destruct (zero_fd_set_ok KRead orig Horig) as (s1 & E1 & H1). pose proof (zeroed_sets_ok _ _ _ Horig H1) as O1.
  destruct (zero_fd_set_ok KWrite s1 O1) as (s2 & E2 & H2). pose proof (zeroed_sets_ok _ _ _ O1 H2) as O2.
  destruct (zero_fd_set_ok KExcept s2 O2) as (s3 & E3 & H3). pose proof (zeroed_sets_ok _ _ _ O2 H3) as O3.
  assert (∀ k, s3 k = zeroed (orig k)) as Hz.
  { intros k. rewrite H3, !H2, !H1. by destruct k; repeat case_decide. }
  exists s3. unfold mbind, M_bind. rewrite E1, E2, E3. split; [done|]. split; [split; [done|]|done].
  intros k. rewrite Hz. destruct (orig k); cbn; split; intros [??]; eauto; done.
Qed.
End clear.

(** The time at which the call gives up. *)
Definition select_deadline (start : Z) (timeout : option timeval) : option Z :=
  (λ t, start + (tv_sec t * NANOS_PER_SECOND + tv_usec t * 1000)) <$> timeout.
Definition timeout_ok (start : Z) (timeout : option timeval) : Prop :=
  match timeout with
  | None => True
  | Some t => timeval_ok t ∧ start + (tv_sec t * NANOS_PER_SECOND + tv_usec t * 1000) < DURATION_LIMIT
  end.
Lemma sys_select_unfold fuel answers start clock N timeout orig :
  0 ≤ N → timeout_ok start timeout →
  sys_select fuel answers start clock N timeout orig =
    (_ ← (_ ← zero_fd_set KRead (Z.min N FD_SETSIZE); _ ← zero_fd_set KWrite (Z.min N FD_SETSIZE);
          zero_fd_set KExcept (Z.min N FD_SETSIZE));
     select_loop fuel answers clock (FdSets_from N orig) (select_deadline start timeout) 0) orig.
Proof.
  intros HN Ht. unfold sys_select. replace (N <? 0) with false by lia.
  assert (FdSets_from (Z.min N FD_SETSIZE) orig = FdSets_from N orig) as Ef
    by (unfold FdSets_from; by rewrite <-Z.min_assoc, Z.min_id).
  assert (match timeout with
          | None => mret None
          | Some t => d ← Duration_of_timeval t; ddl ← Duration_add start d; mret (Some ddl)
          end orig = (Ok (E := Z) (select_deadline start timeout), orig)) as Ed.
  { destruct timeout as [t|]; [|done]. destruct Ht as [[Hs Hu] Hl]. unfold Duration_of_timeval, mbind, M_bind.
    rewrite (wrap_small 32 (tv_usec t)), !wrap_small by lia.
    destruct (Duration_new_split (E := Z) (tv_sec t) (tv_usec t * 1000) orig) as [-> _]; [lia|unfold NANOS_PER_SECOND; lia|].
    unfold Duration_add. by rewrite (proj2 (Z.ltb_lt _ _)) by lia. }
  unfold mbind at 1, M_bind at 1. rewrite Ed. unfold mbind, M_bind, get_state. rewrite Ef.
  destruct (zero_fd_set KRead _ orig) as [[] ?]; [|done..]. destruct (zero_fd_set KWrite _ _) as [[] ?]; done.
Qed.

(** C32: A call of [select] returns in the first round in which a descriptor it asked for is ready or its
    deadline is over.  Its result is the number of reports, and after it a bit of a set below the
    number of descriptors is set exactly when the descriptor was asked for in that set and is
    ready for it; the words above are as they were. *)
Theorem select_reports_ready fuel answers start clock N timeout orig n :
  let fds := seqZ 0 (Z.min N FD_SETSIZE) in
  let ddl := select_deadline start timeout in
  sets_ok orig → 0 ≤ N → timeout_ok start timeout →
  (∀ i, (i < n)%nat → quiet answers clock orig N ddl i) → (n < fuel)%nat →
  existsb (asked_closed (answers n) orig) fds = false →
  (0 < reports (answers n) orig fds)%nat ∨ expired ddl (clock n) = true →
  ∃ s', sys_select fuel answers start clock N timeout orig = (Ok (Z.of_nat (reports (answers n) orig fds)), s') ∧
    ∀ k fd, 0 ≤ fd < FD_SETSIZE →
      isset (s' k) fd =
        if fd <? N then bool_decide (k ∈ report (answers n) orig fd)
        else ((N <=? fd / BITS_PER_USIZE * BITS_PER_USIZE) && isset (orig k) fd)%bool.
Proof.
  intros fds ddl Ho HN Ht Hq Hf Hc Hend. rewrite sys_select_unfold by done.
  destruct (zero_all_ok orig N Ho) as (s0 & E0 & R0 & Z0). unfold mbind at 1, M_bind at 1. rewrite E0.
  destruct (select_loop_reports answers clock orig N ddl Ho HN n 0 fuel s0) as (s' & E & _ & _ & M);
    [intros; apply Hq; lia|done|done|done|done|].
  exists s'. split; [exact E|]. intros k fd Hfd. rewrite M, Z0, isset_zeroed by lia. unfold in_reports.
  rewrite (bool_decide_ext _ _ (elem_of_seqZ _ _ _)). unfold FD_SETSIZE, BITS_PER_USIZE in *.
  destruct (Z.ltb_spec fd N) as [Hlt|Hge].
  - replace (_ <=? _) with false by (symmetry; apply Z.leb_gt; Z.div_mod_to_equations; lia).
    by rewrite bool_decide_true by lia.
  - rewrite (bool_decide_false (0 ≤ fd < _)) by lia. cbn [andb]. rewrite orb_false_r. f_equal.
    apply eq_true_iff_eq. rewrite !Z.leb_le. Z.div_mod_to_equations. lia.
Qed.

(** ** Witness *)

(** Descriptor 3 becomes readable in the second round. *)
Definition example_sets : Sets := λ k, match k with KRead => Some (8 :: replicate 15 0) | _ => None end.
Definition example_answers (n : nat) (fd : Z) : Answer := PollOk (match n with O => false | S _ => true end) false.
Lemma select_reports_ready_witness :
  ∃ s', sys_select 5 example_answers 0 (λ _, 0) 4 None example_sets = (Ok 1, s') ∧ isset (s' KRead) 3 = true ∧ isset (s' KRead) 2 = false.
Proof.
  destruct (select_reports_ready 5 example_answers 0 (λ _, 0) 4 None example_sets 1) as (s' & E & Hs).
  - intros k w. destruct k; [intros [= <-]; reflexivity|done..].
  - lia.
  - exact I.
  - intros [|i] Hi; [|lia]. repeat split; reflexivity.
  - lia.
  - reflexivity.
  - left. vm_compute. lia.
  - exists s'. split; [exact E|]. rewrite !Hs by (unfold FD_SETSIZE; lia). split; reflexivity.
Defined.
