(* ===== verification/Epoll.v ===== *)
(** * Waiting for descriptors: [epoll] ([api/arceos_posix_api/src/imp/io_mpx/epoll.rs])

    An epoll instance is a file whose state is the map of the descriptors it watches, in the order of their
    numbers.  It stands in the table of descriptors beside the files it watches, by number and not by
    reference.  Other tasks run between two rounds of a wait: they change the state in any way. *)

From Stdlib Require Import ZArith Lia.
From stdpp Require Import base decidable numbers gmap list.
From S2P Require Import Prelude LinkedList Containers FlattenObjects PosixTime.

Local Open Scope Z_scope.

(** A [usize] key of a [BTreeMap]. *)
#[export] Instance usize_ord : KeyOrd Z.
Proof.
  refine {| kcmp := Z.compare |}.
  - apply Z.compare_eq_iff.
  - intros a b. apply Z.compare_antisym.
  - intros a b c. rewrite !Z.compare_lt_iff. lia.
Defined.

Definition EPOLL_CTL_ADD : Z := 1.
Definition EPOLL_CTL_DEL : Z := 2.
Definition EPOLL_CTL_MOD : Z := 3.
Definition EPOLLIN : Z := 1.
Definition EPOLLOUT : Z := 4.
Definition EPOLLERR : Z := 8.
Definition ENOENT : Z := 2.
Definition EEXIST : Z := 17.
Definition NANOS_PER_MILLI : Z := 1000000.

Record epoll_event : Set := { ev_events : Z; ev_data : Z }.
(** [x as c_int]. *)
Definition to_c_int (x : Z) : Z := let y := wrap 32 x in if y <? 2 ^ 31 then y else y - 2 ^ 32.

Section epoll.
Context {F B : Type} `{Bitmap B}.

(** An entry of the table: an epoll instance, or another file. *)
Inductive EFile : Type := FEpoll (id : nat) | FOther (f : F).
Local Abbreviation FdTable := (FlattenObjects EFile B).
(** The table, the maps of the instances, and the array that the caller of [epoll_wait] gave. *)
Record EState : Type := { e_table : FdTable; e_events : list (list (Z * epoll_event)); e_buf : list epoll_event }.
Local Abbreviation EM := (M EState Z).
Definition on_fds {A} (m : M FdTable Z A) : EM A := λ s,
  let '(r, t) := m (e_table s) in (r, {| e_table := t; e_events := e_events s; e_buf := e_buf s |}).
Definition events_of (id : nat) : EM (list (Z * epoll_event)) := s ← get_state; unwrap (e_events s !! id).
Definition set_events (id : nat) (l : list (Z * epoll_event)) : EM unit := modify (λ s,
  {| e_table := e_table s; e_events := <[id := l]> (e_events s); e_buf := e_buf s |}).

(** [EpollInstance::new]: the number of the new instance. *)
Definition EpollInstance_new : EM nat :=
  s ← get_state;
  _ ← put_state {| e_table := e_table s; e_events := e_events s ++ [[]]; e_buf := e_buf s |};
  mret (length (e_events s)).
Definition from_fd (fd : Z) : EM nat :=
  f ← on_fds (get_file_like fd); match f with FEpoll id => mret id | FOther _ => throw EINVAL end.
Definition control (self : nat) (op fd : Z) (event : epoll_event) : EM Z :=
  _ ← on_fds (get_file_like (to_c_int fd));
  let op := wrap 32 op in
  if op =? EPOLL_CTL_ADD then
    l ← events_of self;
    match bt_get fd l with None => _ ← set_events self (bt_insert fd event l); mret 0 | Some _ => throw EEXIST end
  else if op =? EPOLL_CTL_MOD then
    l ← events_of self;
    match bt_get fd l with Some _ => _ ← set_events self (bt_insert fd event l); mret 0 | None => throw ENOENT end
  else if op =? EPOLL_CTL_DEL then
    l ← events_of self;
    match bt_get fd l with Some _ => _ ← set_events self (bt_remove fd l); mret 0 | None => throw ENOENT end
  else throw EINVAL.

(** [events[events_num] = ..], and the number of the next one. *)
Definition put_event (n events data : Z) : EM Z :=
  s ← get_state;
  if n <? Z.of_nat (length (e_buf s)) then
    _ ← put_state {| e_table := e_table s; e_events := e_events s;
                     e_buf := <[Z.to_nat n := {| ev_events := events; ev_data := data |}]> (e_buf s) |};
    mret (n + 1)
  else panic.
Definition put_if (b : bool) (n events data : Z) : EM Z := if b then put_event n events data else mret n.
Definition wants (ev : epoll_event) (flag : Z) : bool := negb (Z.land (ev_events ev) flag =? 0).

Section poll.
(** [FileLike::poll] of a file that is not an epoll instance; an epoll instance cannot be polled. *)
Context (poll : F → option (bool * bool)).
Definition poll_file (f : EFile) : option (bool * bool) := match f with FEpoll _ => None | FOther f => poll f end.
Fixpoint poll_entries (l : list (Z * epoll_event)) (n : Z) : EM Z :=
  match l with
  | [] => mret n
  | (infd, ev) :: l =>
      f ← on_fds (get_file_like (to_c_int infd));
      n ← match poll_file f with
          | None => put_if (wants ev EPOLLERR) n EPOLLERR (ev_data ev)
          | Some (readable, writable) =>
              n ← put_if (readable && wants ev EPOLLIN) n EPOLLIN (ev_data ev);
              put_if (writable && wants ev EPOLLOUT) n EPOLLOUT (ev_data ev)
          end;
      poll_entries l n
  end.
Definition epoll_poll_all (self : nat) : EM Z := l ← events_of self; poll_entries l 0.
End poll.

Definition epoll_syscall (m : EM Z) : M EState NoError Z := λ s,
  match m s with
  | (Ok v, s') => (Ok v, s')
  | (Err e, s') => (Ok (- e), s')
  | (Panic, s') => (Panic, s')
  | (OutOfFuel, s') => (OutOfFuel, s')
  end.
Definition sys_epoll_create (size : Z) : M EState NoError Z :=
  epoll_syscall (if size <? 0 then throw EINVAL else id ← EpollInstance_new; on_fds (add_file_like (FEpoll id))).
Definition sys_epoll_ctl (epfd op fd : Z) (event : epoll_event) : M EState NoError Z :=
  epoll_syscall (ep ← from_fd epfd; control ep (wrap 64 op) (wrap 64 fd) event).

(** The rounds of a wait: what the files answer in each, the clock, and what other tasks do after it. *)
Context (polls : nat → F → option (bool * bool)) (clock : nat → Z) (others : nat → EState → EState).
Fixpoint epoll_loop (fuel : nat) (self : nat) (deadline : option Z) (n : nat) : EM Z :=
  match fuel with
  | O => out_of_fuel
  | S fuel =>
      events_num ← epoll_poll_all (polls n) self;
      if 0 <? events_num then mret events_num
      else if match deadline with Some ddl => ddl <=? clock n | None => false end then mret 0
      else _ ← modify (others n); epoll_loop fuel self deadline (S n)
  end.
Definition sys_epoll_wait (fuel : nat) (start epfd maxevents timeout : Z) : M EState NoError Z :=
  epoll_syscall
    (if maxevents <=? 0 then throw EINVAL
     else
       deadline ← (if 0 <=? timeout then ddl ← Duration_add start (timeout * NANOS_PER_MILLI); mret (Some ddl) else mret None);
       self ← from_fd epfd;
       epoll_loop fuel self deadline 0).
End epoll.

(** ** The descriptors an instance watches *)

Section facts.
Context {F B : Type} `{BM : Bitmap B} `{BMS : !BitmapSpec B}.
Local Abbreviation EState := (EState (F := F) (B := B)).
Local Abbreviation fd_rep := (fo_rep (T := EFile (F := F)) (B := B) AX_FILE_LIMIT).
Implicit Types (s : EState) (m : gmap Z (EFile (F := F))) (l : list (Z * epoll_event)).

(** The table stands for the map [m]; each map of descriptors is in order. *)
Record epoll_inv s m : Prop := {
  ei_table : fd_rep (e_table s) m;
  ei_events : Forall (λ l, bt_sorted l ∧ Forall (λ e, 0 ≤ e.1 < AX_FILE_LIMIT) l) (e_events s);
}.
Definition with_events (id : nat) l s : EState :=
  {| e_table := e_table s; e_events := <[id := l]> (e_events s); e_buf := e_buf s |}.
Definition with_buf (buf : list epoll_event) s : EState :=
  {| e_table := e_table s; e_events := e_events s; e_buf := buf |}.

Lemma to_c_int_small x : 0 ≤ x < 2 ^ 31 → to_c_int x = x.
Proof. intros Hx. unfold to_c_int. rewrite wrap_small by lia. by replace (x <? 2 ^ 31) with true by lia. Qed.
Lemma to_c_int_usize fd : c_int fd → to_c_int (wrap 64 fd) = fd.
Proof.
  intros Hc. unfold c_int, to_c_int in *. destruct (decide (0 ≤ fd)).
  - rewrite (wrap_small 64 fd), (wrap_small 32 fd) by lia. by replace (fd <? 2 ^ 31) with true by lia.
  - assert (wrap 64 fd = fd + 2 ^ 64) as -> by (unfold wrap; symmetry; apply Z.mod_unique_pos with (-1); lia).
    assert (wrap 32 (fd + 2 ^ 64) = fd + 2 ^ 32) as -> by (unfold wrap; symmetry; apply Z.mod_unique_pos with (2 ^ 32 - 1); lia).
    replace (fd + 2 ^ 32 <? 2 ^ 31) with false by lia. lia.
Qed.

Lemma get_file_ok s m fd :
  epoll_inv s m → c_int fd →
  on_fds (get_file_like fd) s = (match m !! fd with Some f => Ok f | None => Err EBADF end, s).
Proof.
  intros Hi Hc. unfold on_fds. rewrite (get_file_like_ok (e_table s) m fd (ei_table _ _ Hi) Hc). by destruct s.
Qed.
Lemma from_fd_ok s m epfd id :
  epoll_inv s m → c_int epfd → m !! epfd = Some (FEpoll id) → from_fd epfd s = (Ok id, s).
Proof. intros Hi Hc Hm. unfold from_fd, mbind, M_bind. by rewrite (get_file_ok s m), Hm. Qed.
Lemma events_of_ok s id l : e_events s !! id = Some l → events_of id s = (Ok l, s).
Proof. intros El. unfold events_of, mbind, M_bind, get_state. by rewrite El. Qed.

(** What [epoll_ctl] promises of the entry of the descriptor. *)
Definition ctl_spec (op : Z) (ev : epoll_event) (old : option epoll_event) : res Z (option epoll_event) :=
  if op =? EPOLL_CTL_ADD then match old with None => Ok (Some ev) | Some _ => Err EEXIST end
  else if op =? EPOLL_CTL_MOD then match old with Some _ => Ok (Some ev) | None => Err ENOENT end
  else if op =? EPOLL_CTL_DEL then match old with Some _ => Ok None | None => Err ENOENT end
  else Err EINVAL.

Lemma control_ok s m id l op fd ev :
  epoll_inv s m → c_int fd → e_events s !! id = Some l → 0 ≤ op < 2 ^ 32 →
  match (match m !! fd with None => Err EBADF | Some _ => ctl_spec op ev (bt_get fd l) end) with
  | Ok new => ∃ l', control id op (wrap 64 fd) ev s = (Ok 0, with_events id l' s) ∧ epoll_inv (with_events id l' s) m ∧
                bt_get fd l' = new ∧ ∀ k, k ≠ fd → bt_get k l' = bt_get k l
  | Err e => control id op (wrap 64 fd) ev s = (Err e, s)
  | _ => False
  end.
Proof.
  intros Hi Hc El Hop. remember (control id op (wrap 64 fd) ev s) as run eqn:Er. unfold control in Er.
  rewrite to_c_int_usize, (wrap_small 32 op) in Er by done. unfold mbind at 1, M_bind at 1 in Er.
  rewrite (get_file_ok s m fd Hi Hc) in Er. destruct (m !! fd) as [f|] eqn:Ef; [|done].
  assert (0 ≤ fd < AX_FILE_LIMIT) as Hfd by apply (fr_object _ _ _ (ei_table _ _ Hi) fd f Ef).
  assert (wrap 64 fd = fd) as Ew by (apply wrap_small; unfold AX_FILE_LIMIT in Hfd; lia). rewrite Ew in Er.
  pose proof (Forall_lookup_1 _ _ _ _ (ei_events _ _ Hi) El) as [Hs Hk].
  assert (∀ l', bt_sorted l' → Forall (λ e, 0 ≤ e.1 < AX_FILE_LIMIT) l' → epoll_inv (with_events id l' s) m) as Hnew.
  { intros l' ??. split; [apply Hi|]. cbn. apply Forall_insert; [apply Hi|done]. }
  assert (∀ ev, ∃ l', l' = bt_insert fd ev l ∧ epoll_inv (with_events id l' s) m ∧ bt_get fd l' = Some ev ∧
            ∀ k, k ≠ fd → bt_get k l' = bt_get k l) as Hins.
  { intros ev'. eexists. split; [done|]. split; [apply Hnew; [by apply bt_insert_sorted|by apply bt_insert_forall]|].
    split; [apply bt_get_insert_eq|]. intros k Hne. by apply bt_get_insert_ne. }
  pose proof (events_of_ok s id l El) as Ev. unfold mbind, M_bind in Er. unfold ctl_spec.
  destruct (op =? EPOLL_CTL_ADD); [|destruct (op =? EPOLL_CTL_MOD); [|destruct (op =? EPOLL_CTL_DEL); [|done]]];
    rewrite Ev in Er; cbn in Er; destruct (bt_get fd l) as [old|] eqn:Eo; subst run; try done.
  - destruct (Hins ev) as (l' & -> & ?). by exists (bt_insert fd ev l).
  - destruct (Hins ev) as (l' & -> & ?). by exists (bt_insert fd ev l).
  - exists (bt_remove fd l). split; [done|]. split; [apply Hnew; [by apply bt_remove_sorted|by apply bt_remove_forall]|].
    split; [by apply bt_get_remove_eq|]. intros k Hne. by apply bt_get_remove_ne.
Qed.

(** ** The events of a round *)

Section round.
Context (poll : F → option (bool * bool)) (m : gmap Z (EFile (F := F))).

(** What is reported of an entry. *)
Definition event_if (b : bool) (flag : Z) (ev : epoll_event) : list epoll_event :=
  if b then [{| ev_events := flag; ev_data := ev_data ev |}] else [].
Definition entry_events (e : Z * epoll_event) : list epoll_event :=
  match m !! e.1 with
  | None => []
  | Some f =>
      match poll_file poll f with
      | None => event_if (wants e.2 EPOLLERR) EPOLLERR e.2
      | Some (readable, writable) =>
          event_if (readable && wants e.2 EPOLLIN) EPOLLIN e.2 ++ event_if (writable && wants e.2 EPOLLOUT) EPOLLOUT e.2
      end
  end.
Definition round_events l : list epoll_event := l ≫= entry_events.

(** A step that puts the events [evs] after those that are there, or runs off the array. *)
Definition writes (evs : list epoll_event) (run : Z → M EState Z Z) : Prop := ∀ s pre rest,
  epoll_inv s m → e_buf s = pre ++ rest →
  if (length evs <=? length rest)%nat
  then run (Z.of_nat (length pre)) s = (Ok (Z.of_nat (length pre + length evs)), with_buf (pre ++ evs ++ drop (length evs) rest) s)
  else (run (Z.of_nat (length pre)) s).1 = Panic.

Lemma with_buf_inv buf s : epoll_inv s m → epoll_inv (with_buf buf s) m.
Proof. by intros [??]. Qed.
Lemma writes_nil : writes [] mret.
Proof. intros s pre rest _ Hb. cbn. rewrite Nat.add_0_r, drop_0, <-Hb. by destruct s. Qed.
Lemma writes_app e1 e2 r1 r2 : writes e1 r1 → writes e2 r2 → writes (e1 ++ e2) (λ n, r1 n ≫= r2).
Proof.
  intros H1 H2 s pre rest Hi Hb. specialize (H1 s pre rest Hi Hb). rewrite length_app. unfold mbind, M_bind.
  destruct (Nat.leb_spec (length e1) (length rest)) as [L1|L1].
  - rewrite H1. specialize (H2 (with_buf (pre ++ e1 ++ drop (length e1) rest) s) (pre ++ e1) (drop (length e1) rest) (with_buf_inv _ _ Hi)).
    cbn [e_buf with_buf] in H2. specialize (H2 (app_assoc _ _ _)). rewrite length_drop, length_app in H2.
    destruct (Nat.leb_spec (length e2) (length rest - length e1)) as [L2|L2].
    + rewrite (proj2 (Nat.leb_le _ _)) by lia. rewrite H2. f_equal; [f_equal; lia|]. unfold with_buf. cbn. f_equal.
      by rewrite drop_drop, <-!app_assoc.
    + by rewrite (proj2 (Nat.leb_gt _ _)) by lia.
  - rewrite (proj2 (Nat.leb_gt _ _)) by lia. by destruct (r1 _ s) as [[]].
Qed.
Lemma put_if_writes b flag ev : writes (event_if b flag ev) (λ n, put_if b n flag (ev_data ev)).
Proof.
  intros s pre rest Hi Hb. unfold put_if, event_if. destruct b; [|by apply (writes_nil s pre rest)].
  unfold put_event, mbind, M_bind, get_state, put_state. rewrite Hb, length_app, Nat2Z.id. destruct rest as [|x rest]; cbn [length].
  - by rewrite (proj2 (Z.ltb_ge _ _)) by lia.
  - rewrite (proj2 (Z.ltb_lt _ _)) by lia. cbn. rewrite drop_0. unfold mret, M_ret. f_equal; [f_equal; lia|].
    unfold with_buf. f_equal. by rewrite insert_app_r_alt, Nat.sub_diag by lia.
Qed.

Definition watched_ok (e : Z * epoll_event) : Prop := 0 ≤ e.1 < AX_FILE_LIMIT.
Lemma get_watched s e : epoll_inv s m → watched_ok e →
  on_fds (get_file_like (to_c_int e.1)) s = (match m !! e.1 with Some f => Ok f | None => Err EBADF end, s).
Proof.
  intros Hi He. unfold watched_ok, AX_FILE_LIMIT in He. rewrite to_c_int_small by lia. apply get_file_ok; [done|unfold c_int; lia].
Qed.

Lemma writes_ext evs r1 r2 : (∀ n s, epoll_inv s m → r1 n s = r2 n s) → writes evs r1 → writes evs r2.
Proof. intros He Hw s pre rest Hi Hb. specialize (Hw s pre rest Hi Hb). by rewrite <-(He _ s Hi). Qed.
Lemma poll_entries_writes l :
  Forall watched_ok l → (∀ e, e ∈ l → is_Some (m !! e.1)) → writes (round_events l) (poll_entries poll l).
Proof.
  induction l as [|[k ev] l IH]; intros Hk Ho; [apply writes_nil|]. apply Forall_cons in Hk as [Hk Hl].
  destruct (Ho (k, ev) ltac:(set_solver)) as [f Hf]. cbn in Hf. specialize (IH Hl ltac:(set_solver)).
  assert (writes (entry_events (k, ev)) (λ n, match poll_file poll f with
     | None => put_if (wants ev EPOLLERR) n EPOLLERR (ev_data ev)
     | Some (readable, writable) =>
         n ← put_if (readable && wants ev EPOLLIN) n EPOLLIN (ev_data ev);
         put_if (writable && wants ev EPOLLOUT) n EPOLLOUT (ev_data ev)
     end)) as Hw.
  { unfold entry_events. cbn [fst snd]. rewrite Hf. destruct (poll_file poll f) as [[r w]|]; [|apply put_if_writes].
    apply (writes_app _ _ (λ n, put_if _ n _ _) (λ n, put_if _ n _ _)); apply put_if_writes. }
  eapply writes_ext; [|exact (writes_app _ _ _ _ Hw IH)]. intros n s Hi. cbn [poll_entries].
  pose proof (get_watched s (k, ev) Hi Hk) as G. cbn [fst] in G. unfold mbind, M_bind. by rewrite G, Hf.
Qed.

(** An entry whose descriptor is closed ends the round, whatever the others have. *)
Lemma entry_events_length e : (length (entry_events e) ≤ 2)%nat.
Proof. unfold entry_events, event_if. repeat case_match; cbn; lia. Qed.
Lemma poll_entries_closed l s pre rest :
  epoll_inv s m → Forall watched_ok l → (∃ e, e ∈ l ∧ m !! e.1 = None) →
  e_buf s = pre ++ rest → (2 * length l ≤ length rest)%nat →
  (poll_entries poll l (Z.of_nat (length pre)) s).1 = Err EBADF.
Proof.
  intros Hi Hk Hc Hb Hl. revert s pre rest Hi Hb Hl. induction l as [|e l IH]; intros s pre rest Hi Hb Hl; [set_solver|].
  apply Forall_cons in Hk as [Hke Hk]. destruct (m !! e.1) as [f|] eqn:Ef.
  - assert (∃ e', e' ∈ l ∧ m !! e'.1 = None) as Hc'.
    { destruct Hc as (e' & [->|Hin]%elem_of_cons & Hn); [congruence|by exists e']. }
    pose proof (poll_entries_writes [e] ltac:(by constructor) ltac:(intros ? ->%list_elem_of_singleton; by exists f)
      s pre rest Hi Hb) as Hw. cbn in Hl. unfold round_events in Hw. cbn [mbind list_bind] in Hw. rewrite app_nil_r in Hw.
    pose proof (entry_events_length e). rewrite (proj2 (Nat.leb_le _ _)) in Hw by lia.
    destruct e as [k ev]. cbn [poll_entries] in *. unfold mbind, M_bind in *.
    pose proof (get_watched s (k, ev) Hi Hke) as G. cbn [fst] in G, Ef. rewrite G, Ef in *.
    destruct ((match poll_file poll f with
     | None => put_if (wants ev EPOLLERR) (Z.of_nat (length pre)) EPOLLERR (ev_data ev)
     | Some (readable, writable) => _ end) s) as [[n| | |] s1] eqn:E1; try done.
    injection Hw as -> ->. rewrite <-length_app. apply (IH Hk Hc') with (drop (length (entry_events (k, ev))) rest); [by apply with_buf_inv|by rewrite <-app_assoc|].
    rewrite length_drop. lia.
  - destruct e as [k ev]. cbn [poll_entries]. unfold mbind, M_bind. pose proof (get_watched s (k, ev) Hi Hke) as G.
    cbn [fst] in G, Ef. by rewrite G, Ef.
Qed.
End round.

(** [epoll_ctl] on an open instance works on the entry of one descriptor, and on no other: it adds an
    entry that is not there, changes or removes one that is, and refuses the rest with the error
    of each case; a descriptor that is not open is refused first.  The map stays in order. *)
Theorem epoll_ctl_refines_map s m epfd id l op fd ev :
  epoll_inv s m → c_int epfd → c_int fd → 0 ≤ op < 2 ^ 31 →
  m !! epfd = Some (FEpoll id) → e_events s !! id = Some l →
  match (match m !! fd with None => Err EBADF | Some _ => ctl_spec op ev (bt_get fd l) end) with
  | Ok new => ∃ l', sys_epoll_ctl epfd op fd ev s = (Ok 0, with_events id l' s) ∧ epoll_inv (with_events id l' s) m ∧
                bt_get fd l' = new ∧ ∀ k, k ≠ fd → bt_get k l' = bt_get k l
  | Err e => sys_epoll_ctl epfd op fd ev s = (Ok (- e), s)
  | _ => False
  end.
Proof.
  intros Hi Hce Hc Hop Hm El. pose proof (control_ok s m id l op fd ev Hi Hc El ltac:(lia)) as Hr.
  assert (∀ r, control id op (wrap 64 fd) ev s = r → sys_epoll_ctl epfd op fd ev s =
    match r with (Ok v, s') => (Ok v, s') | (Err e, s') => (Ok (- e), s') | (Panic, s') => (Panic, s') | (OutOfFuel, s') => (OutOfFuel, s') end) as Hs.
  { intros r <-. unfold sys_epoll_ctl, epoll_syscall, mbind, M_bind. rewrite (from_fd_ok s m epfd id) by done.
    by rewrite (wrap_small 64 op) by lia. }
  destruct (match m !! fd with None => _ | Some _ => _ end); try done.
  - destruct Hr as (l' & E & ?). exists l'. split; [by rewrite (Hs _ E)|done].
  - by rewrite (Hs _ Hr).
Qed.

Section wait.
Context (polls : nat → F → option (bool * bool)) (clock : nat → Z) (others : nat → EState → EState).
Definition wait_ok (start timeout : Z) : Prop := timeout < 0 ∨ start + timeout * NANOS_PER_MILLI < DURATION_LIMIT.

Lemma epoll_wait_round s m fuel start epfd id l maxevents timeout :
  epoll_inv s m → c_int epfd → m !! epfd = Some (FEpoll id) → e_events s !! id = Some l → 0 < maxevents → wait_ok start timeout →
  ∃ ddl, sys_epoll_wait polls clock others (S fuel) start epfd maxevents timeout s =
    epoll_syscall (n ← poll_entries (polls 0%nat) l 0;
      if 0 <? n then mret n
      else if match ddl with Some ddl => ddl <=? clock 0%nat | None => false end then mret 0
      else _ ← modify (others 0%nat); epoll_loop polls clock others fuel id ddl 1) s.
Proof.
  intros Hi Hc Hm El Hmax Hw. unfold sys_epoll_wait, epoll_syscall. rewrite (proj2 (Z.leb_gt _ _)) by lia.
  assert (∃ ddl, (if 0 <=? timeout then ddl ← Duration_add start (timeout * NANOS_PER_MILLI); mret (Some ddl) else mret None) s
    = (Ok (E := Z) ddl, s)) as [ddl Ed].
  { destruct (Z.leb_spec 0 timeout); [|by eexists]. destruct Hw as [Hw|Hw]; [lia|]. unfold Duration_add.
    rewrite (proj2 (Z.ltb_lt _ _)) by done. by eexists. }
  exists ddl. erewrite M_bind_ok by exact Ed. erewrite M_bind_ok by (by apply (from_fd_ok s m)). cbn [epoll_loop].
  unfold epoll_poll_all, mbind, M_bind. by rewrite (events_of_ok s id l El).
Qed.

(** The rounds of a wait: the state before round [n], and a round that ends the wait. *)
Fixpoint state_at s (n : nat) : EState := match n with O => s | S n => others n (state_at s n) end.
Definition wait_deadline (start timeout : Z) : option Z := if 0 <=? timeout then Some (start + timeout * NANOS_PER_MILLI) else None.
Definition late (ddl : option Z) (now : Z) : bool := match ddl with Some ddl => ddl <=? now | None => false end.
(** In round [n] the instance [id] has the entries [l] and the table stands for [m]; every descriptor it watches is open. *)
Definition round_at s (id n : nat) m l : Prop := epoll_inv (state_at s n) m ∧ e_events (state_at s n) !! id = Some l.
Definition all_open m l : Prop := ∀ e, e ∈ l → is_Some (m !! e.1).
Definition quiet_round s (id : nat) (ddl : option Z) (n : nat) : Prop :=
  ∃ m l, round_at s id n m l ∧ all_open m l ∧ round_events (polls n) m l = [] ∧ late ddl (clock n) = false.

Lemma poll_round s id n m l :
  round_at s id n m l → all_open m l →
  let evs := round_events (polls n) m l in
  let buf := e_buf (state_at s n) in
  if (length evs <=? length buf)%nat
  then epoll_poll_all (polls n) id (state_at s n) = (Ok (Z.of_nat (length evs)), with_buf (evs ++ drop (length evs) buf) (state_at s n))
  else (epoll_poll_all (polls n) id (state_at s n)).1 = Panic.
Proof.
  intros [Hi El] Ho evs buf. pose proof (Forall_lookup_1 _ _ _ _ (ei_events _ _ Hi) El) as [_ Hk].
  pose proof (poll_entries_writes (polls n) m l Hk Ho (state_at s n) [] buf Hi eq_refl) as Hr. cbn [length app Nat.add] in Hr.
  change (Z.of_nat 0) with 0 in Hr. unfold epoll_poll_all. erewrite M_bind_ok by (by apply events_of_ok). exact Hr.
Qed.
Lemma with_own_buf s : with_buf (e_buf s) s = s.
Proof. by destruct s. Qed.
Lemma quiet_rounds s id ddl fuel k : ∀ i,
  (∀ j, (i ≤ j < i + k)%nat → quiet_round s id ddl j) →
  epoll_loop polls clock others (k + fuel) id ddl i (state_at s i) = epoll_loop polls clock others fuel id ddl (i + k) (state_at s (i + k)).
Proof.
  induction k as [|k IH]; intros i Hq; [by rewrite Nat.add_0_r|]. cbn [Nat.add epoll_loop].
  destruct (Hq i ltac:(lia)) as (m & l & Hat & Ho & He & Hl). pose proof (poll_round s id i m l Hat Ho) as Hr. cbv zeta in Hr.
  rewrite He in Hr. cbn in Hr. rewrite drop_0, with_own_buf in Hr. erewrite M_bind_ok by exact Hr.
  change (0 <? Z.of_nat 0) with false. cbv iota. unfold late in Hl. rewrite Hl. erewrite M_bind_ok by reflexivity.
  change (others i (state_at s i)) with (state_at s (S i)). rewrite IH by (intros j Hj; apply Hq; lia). by rewrite !Nat.add_succ_r.
Qed.
Lemma epoll_wait_rounds s m id fuel start epfd maxevents timeout n :
  epoll_inv s m → c_int epfd → m !! epfd = Some (FEpoll id) → 0 < maxevents → wait_ok start timeout → (n < fuel)%nat →
  (∀ i, (i < n)%nat → quiet_round s id (wait_deadline start timeout) i) →
  sys_epoll_wait polls clock others fuel start epfd maxevents timeout s =
    epoll_syscall (epoll_loop polls clock others (fuel - n) id (wait_deadline start timeout) n) (state_at s n).
Proof.
  intros Hi Hc Hm Hmax Hw Hf Hq. unfold sys_epoll_wait, epoll_syscall. rewrite (proj2 (Z.leb_gt _ _)) by lia.
  assert ((if 0 <=? timeout then ddl ← Duration_add start (timeout * NANOS_PER_MILLI); mret (Some ddl) else mret None) s
    = (Ok (E := Z) (wait_deadline start timeout), s)) as Ed.
  { unfold wait_deadline. destruct (Z.leb_spec 0 timeout); [|done]. destruct Hw as [Hw|Hw]; [lia|]. unfold Duration_add.
    by rewrite (proj2 (Z.ltb_lt _ _)). }
  erewrite M_bind_ok by exact Ed. erewrite M_bind_ok by (by apply (from_fd_ok s m)).
  pose proof (quiet_rounds s id (wait_deadline start timeout) (fuel - n) n 0) as Hr. cbn [Nat.add] in Hr.
  replace (n + (fuel - n))%nat with fuel in Hr by lia. change (state_at s 0) with s in Hr. by rewrite Hr by (intros; apply Hq; lia).
Qed.


(** Closing a descriptor that an instance watches leaves its entry there, and breaks the instance.
    Every wait then fails with [EBADF], whatever is ready on the others, and the entry cannot be
    removed or changed either: [epoll_ctl] looks the closed descriptor up first. *)
Theorem epoll_closed_descriptor s m epfd id l fd ev fuel start timeout op ev' :
  let s1 := {| e_table := (sys_close fd (e_table s)).2; e_events := e_events s; e_buf := e_buf s |} in
  epoll_inv s m → c_int epfd → c_int fd → 2 < fd → fd ≠ epfd → m !! epfd = Some (FEpoll id) → e_events s !! id = Some l →
  is_Some (m !! fd) → bt_get fd l = Some ev → wait_ok start timeout → 0 ≤ op < 2 ^ 31 →
  (2 * length l ≤ length (e_buf s))%nat →
  (sys_close fd (e_table s)).1 = Ok 0 ∧
  (sys_epoll_wait polls clock others (S fuel) start epfd (Z.of_nat (length (e_buf s))) timeout s1).1 = Ok (- EBADF) ∧
  sys_epoll_ctl epfd op fd ev' s1 = (Ok (- EBADF), s1).
Proof.
  intros s1 Hi Hce Hc H2 Hne Hm El [f Hf] Hget Hw Hop Hlen. destruct (Hi) as [Ht He].
  destruct (close_file_like_ok (e_table s) m fd Ht Hc) as (t & Ec & Ht1). rewrite Hf in Ec.
  assert (sys_close fd (e_table s) = (Ok 0, t)) as Ecl.
  { unfold sys_close. replace ((0 <=? fd) && (fd <=? 2))%bool with false by lia. apply syscall_ok. by erewrite M_bind_ok by exact Ec. }
  assert (epoll_inv s1 (delete fd m)) as Hi1 by (unfold s1; rewrite Ecl; by split).
  assert (delete fd m !! epfd = Some (FEpoll id)) as Hm1 by (by rewrite lookup_delete_ne).
  pose proof (Forall_lookup_1 _ _ _ _ He El) as [Hs Hk]. apply bt_elem_get in Hget; [|done].
  split; [by rewrite Ecl|]. split.
  - destruct (epoll_wait_round s1 (delete fd m) fuel start epfd id l (Z.of_nat (length (e_buf s))) timeout Hi1 Hce Hm1 El) as [ddl ->];
      [destruct l; [set_solver|cbn in Hlen; lia]|done|].
    pose proof (poll_entries_closed (polls 0%nat) (delete fd m) l s1 [] (e_buf s) Hi1 Hk) as Hr. change (Z.of_nat (length [])) with 0 in Hr.
    unfold epoll_syscall, mbind, M_bind. specialize (Hr ltac:(exists (fd, ev); by rewrite lookup_delete_eq) eq_refl Hlen).
    destruct (poll_entries _ _ _ s1) as [[] ?]; by simplify_eq/=.
  - pose proof (control_ok s1 (delete fd m) id l op fd ev' Hi1 Hc El ltac:(lia)) as Hr. rewrite lookup_delete_eq in Hr.
    unfold sys_epoll_ctl, epoll_syscall, mbind, M_bind. rewrite (from_fd_ok s1 (delete fd m) epfd id) by done.
    by rewrite (wrap_small 64 op), Hr by lia.
Qed.
End wait.
End facts.

(** ** Witnesses *)

(** Standard output is an instance; descriptor 3 is a file. *)
Definition example_files : gmap Z (EFile (F := Z)) :=
  <[3 := FOther 9]> (<[2 := FOther 2]> (<[1 := FEpoll 0]> (<[0 := FOther 0]> ∅))).
Lemma example_files_rep : ∃ t : FlattenObjects (EFile (F := Z)) (gset Z), fo_rep AX_FILE_LIMIT t example_files.
Proof.
  destruct (fd_table_new_ok (B := gset Z) (FOther (F := Z) 0) (FEpoll 0) (FOther 2)) as (t & _ & HR).
  destruct (add_file_like_ok t _ (FOther 9) HR) as [(fd & t' & _ & Hfd & Hn & Hu & HR')|[_ Hu]].
  - assert (fd = 3) as ->; [|by exists t']. destruct (decide (fd < 3)) as [Hlt|Hge].
    + assert (fd = 0 ∨ fd = 1 ∨ fd = 2) as [->|[->| ->]] by lia; discriminate.
    + destruct (decide (fd = 3)) as [|Hne]; [done|]. destruct (Hu 3 ltac:(lia)) as [x Hx]. discriminate.
  - destruct (Hu 3 ltac:(unfold AX_FILE_LIMIT; lia)) as [x Hx]. discriminate.
Qed.
Definition example_event : epoll_event := {| ev_events := EPOLLIN; ev_data := 77 |}.
Definition example_epoll (t : FlattenObjects (EFile (F := Z)) (gset Z)) (l : list (Z * epoll_event)) (n : nat) : EState :=
  {| e_table := t; e_events := [l]; e_buf := replicate n {| ev_events := 0; ev_data := 0 |} |}.
Lemma example_epoll_inv t n l :
  fo_rep AX_FILE_LIMIT t example_files → l = [] ∨ l = [(3, example_event)] → epoll_inv (example_epoll t l n) example_files.
Proof.
  intros HR Hl. split; [done|]. repeat constructor; destruct Hl as [->| ->]; repeat constructor; cbn; unfold AX_FILE_LIMIT; lia.
Qed.

Lemma epoll_ctl_refines_map_witness :
  ∃ t s', sys_epoll_ctl 1 EPOLL_CTL_ADD 3 example_event (example_epoll t [] 2) = (Ok 0, s').
Proof.
  destruct example_files_rep as [t HR]. exists t.
  destruct (epoll_ctl_refines_map (example_epoll t [] 2) example_files 1 0 [] EPOLL_CTL_ADD 3 example_event) as (l' & E & _);
    [by apply example_epoll_inv; [|left]|unfold c_int; lia|unfold c_int; lia|unfold EPOLL_CTL_ADD; lia|reflexivity|reflexivity|].
  eexists. exact E.
Defined.

(** The file becomes readable in the second round: one event. *)
Definition later_readable (n : nat) (f : Z) : option (bool * bool) := Some (match n with O => false | S _ => true end, false).

Lemma epoll_closed_descriptor_witness :
  ∃ t, let s1 := {| e_table := (sys_close 3 t).2; e_events := [[(3, example_event)]]; e_buf := e_buf (example_epoll t [] 2) |} in
    sys_epoll_ctl 1 EPOLL_CTL_DEL 3 example_event s1 = (Ok (- EBADF), s1).
Proof.
  destruct example_files_rep as [t HR]. exists t.
  apply (epoll_closed_descriptor (λ _ _, None) (λ _, 0) (λ _ s, s) (example_epoll t [(3, example_event)] 2) example_files 1 0
    [(3, example_event)] 3 example_event 0 0 (-1) EPOLL_CTL_DEL example_event);
    [by apply example_epoll_inv; [|right]|unfold c_int; lia|unfold c_int; lia|lia|lia|reflexivity|reflexivity|by eexists|reflexivity|by left
    |unfold EPOLL_CTL_DEL; lia|cbn; lia].
Defined.
