(* ===== verification/CTime.v ===== *)
(** * The calendar of the C library ([ulib/axlibc/c/time.c])

    The conversion of a time in seconds to a date.  A division of C truncates; an [int] that leaves its
    range is undefined, [Panic] in the model. *)

From Stdlib Require Import ZArith Lia.
From stdpp Require Import base decidable numbers gmap list.
From S2P Require Import Prelude LinkedList.

Local Open Scope Z_scope.

Definition INT_MIN : Z := - 2 ^ 31.
Definition INT_MAX : Z := 2 ^ 31 - 1.
Definition LEAPOCH : Z := 946684800 + 86400 * (31 + 29).
Definition DAYS_PER_400Y : Z := 365 * 400 + 97.
Definition DAYS_PER_100Y : Z := 365 * 100 + 24.
Definition DAYS_PER_4Y : Z := 365 * 4 + 1.
Definition days_in_month : list Z := [31; 30; 31; 30; 31; 31; 30; 31; 30; 31; 31; 29].

Record tm : Set := {
  tm_sec : Z; tm_min : Z; tm_hour : Z; tm_mday : Z; tm_mon : Z; tm_year : Z; tm_wday : Z; tm_yday : Z; tm_isdst : Z }.

(** The time functions do not use the memory of the caller but for the result. *)
Local Abbreviation TM := (M unit NoError).
(** The value of an [int]. *)
Definition int_ (x : Z) : TM Z := if ((INT_MIN <=? x) && (x <=? INT_MAX))%bool then mret x else panic.

(** The loop over the months, from March on. *)
Fixpoint month_loop (fuel : nat) (months remdays : Z) : TM (Z * Z) :=
  match fuel with
  | O => out_of_fuel
  | S fuel =>
      d ← unwrap (days_in_month !! Z.to_nat months);
      if d <=? remdays then month_loop fuel (months + 1) (remdays - d) else mret (months, remdays)
  end.

(** The date of a day counted from the first of March of 2000: the year since then, the month since then, the day
    of the month from 0, and the day of the year. *)
Definition date_of_days (days : Z) : TM (Z * Z * Z * Z) :=
  qc_cycles ← int_ (Z.quot days DAYS_PER_400Y);
  remdays ← int_ (Z.rem days DAYS_PER_400Y);
  '(remdays, qc_cycles) ← (if remdays <? 0 then
      r ← int_ (remdays + DAYS_PER_400Y); q ← int_ (qc_cycles - 1); mret (r, q) else mret (remdays, qc_cycles));
  c_cycles ← int_ (Z.quot remdays DAYS_PER_100Y);
  let c_cycles := if c_cycles =? 4 then c_cycles - 1 else c_cycles in
  remdays ← int_ (remdays - c_cycles * DAYS_PER_100Y);
  q_cycles ← int_ (Z.quot remdays DAYS_PER_4Y);
  let q_cycles := if q_cycles =? 25 then q_cycles - 1 else q_cycles in
  remdays ← int_ (remdays - q_cycles * DAYS_PER_4Y);
  remyears ← int_ (Z.quot remdays 365);
  let remyears := if remyears =? 4 then remyears - 1 else remyears in
  remdays ← int_ (remdays - remyears * 365);
  let leap := if ((remyears =? 0) && (negb (q_cycles =? 0) || (c_cycles =? 0)))%bool then 1 else 0 in
  yday ← int_ (remdays + 31 + 28 + leap);
  yday ← (if 365 + leap <=? yday then int_ (yday - (365 + leap)) else mret yday);
  let years := remyears + 4 * q_cycles + 100 * c_cycles + 400 * qc_cycles in
  '(months, remdays) ← month_loop 13 0 remdays;
  mret (if 10 <=? months then (years + 1, months - 12, remdays, yday) else (years, months, remdays, yday)).

(** [__secs_to_tm]; [None] is the result [-1].  It does not write [tm_isdst], which stays [isdst]. *)
Definition secs_to_tm (isdst t : Z) : TM (option tm) :=
  if ((t <? INT_MIN * 31622400) || (INT_MAX * 31622400 <? t))%bool then mret None
  else
    let secs := t - LEAPOCH in
    let days := Z.quot secs 86400 in
    remsecs ← int_ (Z.rem secs 86400);
    '(remsecs, days) ← (if remsecs <? 0 then r ← int_ (remsecs + 86400); mret (r, days - 1) else mret (remsecs, days));
    wday ← int_ (Z.rem (3 + days) 7);
    wday ← (if wday <? 0 then int_ (wday + 7) else mret wday);
    '(years, months, remdays, yday) ← date_of_days days;
    if ((INT_MAX <? years + 100) || (years + 100 <? INT_MIN))%bool then mret None
    else mret (Some {|
      tm_year := years + 100; tm_mon := months + 2; tm_mday := remdays + 1; tm_wday := wday; tm_yday := yday;
      tm_hour := Z.quot remsecs 3600; tm_min := Z.rem (Z.quot remsecs 60) 60; tm_sec := Z.rem remsecs 60; tm_isdst := isdst |}).

Definition EOVERFLOW : Z := 75.
Definition set_isdst (v : Z) (r : tm) : tm :=
  {| tm_sec := tm_sec r; tm_min := tm_min r; tm_hour := tm_hour r; tm_mday := tm_mday r; tm_mon := tm_mon r;
     tm_year := tm_year r; tm_wday := tm_wday r; tm_yday := tm_yday r; tm_isdst := v |}.
(** [gmtime_r]: the result, or [errno] and the null pointer. *)
Definition gmtime_r (isdst t : Z) : TM (Z + tm) :=
  r ← secs_to_tm isdst t; mret (match r with None => inl EOVERFLOW | Some r => inr (set_isdst 0 r) end).
Definition localtime_r (isdst t : Z) : TM (Z + tm) :=
  if ((t <? INT_MIN * 31622400) || (INT_MAX * 31622400 <? t))%bool then mret (inl EOVERFLOW)
  else r ← secs_to_tm isdst t; mret (match r with None => inl EOVERFLOW | Some r => inr (set_isdst 0 r) end).

(** ** The Gregorian calendar *)

Definition leap_year (y : Z) : bool := (((y mod 4 =? 0) && negb (y mod 100 =? 0)) || (y mod 400 =? 0))%bool.
(** The leap years before [y], from year 0 on, and the days before it, from 1970 on. *)
Definition leaps_before (y : Z) : Z := (y - 1) / 4 - (y - 1) / 100 + (y - 1) / 400.
Definition days_before_year (y : Z) : Z := 365 * (y - 1970) + leaps_before y - leaps_before 1970.
Definition month_lengths (leap : bool) : list Z := [31; if leap then 29 else 28; 31; 30; 31; 30; 31; 31; 30; 31; 30; 31].
Definition days_before_month (leap : bool) (mon : Z) : Z := foldr Z.add 0 (take (Z.to_nat mon) (month_lengths leap)).

Definition year_of (r : tm) : Z := tm_year r + 1900.
Definition day_of (r : tm) : Z := days_before_year (year_of r) + tm_yday r.
Definition unix_time (r : tm) : Z := 86400 * day_of r + 3600 * tm_hour r + 60 * tm_min r + tm_sec r.
(** A date of the calendar: the fields are in range and agree with each other. *)
Record valid_tm (r : tm) : Prop := {
  vt_sec : 0 ≤ tm_sec r < 60;
  vt_min : 0 ≤ tm_min r < 60;
  vt_hour : 0 ≤ tm_hour r < 24;
  vt_mon : 0 ≤ tm_mon r < 12;
  vt_mday : 1 ≤ tm_mday r ≤ default 0 (month_lengths (leap_year (year_of r)) !! Z.to_nat (tm_mon r));
  vt_yday : tm_yday r = days_before_month (leap_year (year_of r)) (tm_mon r) + (tm_mday r - 1);
  vt_wday : tm_wday r = (4 + day_of r) mod 7;
  vt_dst : tm_isdst r = 0;
}.

(** The days of the code start with March: the days before March of a year of the calendar, and
    whether it is a leap year, from its place in the cycles of 400, 100 and 4 years. *)
Definition EPOCH_DAYS : Z := LEAPOCH / 86400.
Record cycle_ok (c q y : Z) : Prop := { co_c : 0 ≤ c ≤ 3; co_q : 0 ≤ q ≤ 24; co_y : 0 ≤ y ≤ 3 }.
Definition year_at (qc c q y : Z) : Z := 2000 + (y + 4 * q + 100 * c + 400 * qc).
Lemma leap_at qc c q y :
  cycle_ok c q y → leap_year (year_at qc c q y) = ((y =? 0) && (negb (q =? 0) || (c =? 0)))%bool.
Proof.
  intros [Hc Hq Hy]. unfold leap_year, year_at.
  assert ((2000 + (y + 4 * q + 100 * c + 400 * qc)) mod 4 = y) as -> by (symmetry; apply (Z.mod_unique_pos _ _ (500 + q + 25 * c + 100 * qc)); lia).
  assert ((2000 + (y + 4 * q + 100 * c + 400 * qc)) mod 100 = y + 4 * q) as -> by (symmetry; apply (Z.mod_unique_pos _ _ (20 + c + 4 * qc)); lia).
  assert ((2000 + (y + 4 * q + 100 * c + 400 * qc)) mod 400 = y + 4 * q + 100 * c) as -> by (symmetry; apply (Z.mod_unique_pos _ _ (5 + qc)); lia).
  apply eq_true_iff_eq. rewrite orb_true_iff, !andb_true_iff, orb_true_iff, !negb_true_iff, !Z.eqb_eq, !Z.eqb_neq. lia.
Qed.
Lemma leaps_at qc c q y :
  cycle_ok c q y →
  leaps_before (year_at qc c q y + 1) = 485 + q + 24 * c + 97 * qc ∧
  leaps_before (year_at qc c q y) = 485 + q + 24 * c + 97 * qc - Z.b2z (leap_year (year_at qc c q y)).
Proof.
  intros Hk. rewrite leap_at by done. destruct Hk as [Hc Hq Hy]. unfold leaps_before, year_at.
  split.
  - replace (2000 + (y + 4 * q + 100 * c + 400 * qc) + 1 - 1) with (2000 + (y + 4 * q + 100 * c + 400 * qc)) by lia.
    rewrite <-(Z.div_unique_pos _ 4 (500 + q + 25 * c + 100 * qc) y) by lia.
    rewrite <-(Z.div_unique_pos _ 100 (20 + c + 4 * qc) (y + 4 * q)) by lia.
    rewrite <-(Z.div_unique_pos _ 400 (5 + qc) (y + 4 * q + 100 * c)) by lia. lia.
  - destruct (Z.eqb_spec y 0) as [->|Hy0]; cbn [andb].
    + rewrite <-(Z.div_unique_pos _ 4 (499 + q + 25 * c + 100 * qc) 3) by lia.
      destruct (Z.eqb_spec q 0) as [->|Hq0]; cbn [negb orb].
      * rewrite <-(Z.div_unique_pos _ 100 (19 + c + 4 * qc) 99) by lia.
        destruct (Z.eqb_spec c 0) as [->|Hc0]; cbn [Z.b2z].
        -- rewrite <-(Z.div_unique_pos _ 400 (4 + qc) 399) by lia. lia.
        -- rewrite <-(Z.div_unique_pos _ 400 (5 + qc) (100 * c - 1)) by lia. lia.
      * rewrite <-(Z.div_unique_pos _ 100 (20 + c + 4 * qc) (4 * q - 1)) by lia.
        rewrite <-(Z.div_unique_pos _ 400 (5 + qc) (4 * q + 100 * c - 1)) by lia. cbn. lia.
    + rewrite <-(Z.div_unique_pos _ 4 (500 + q + 25 * c + 100 * qc) (y - 1)) by lia.
      rewrite <-(Z.div_unique_pos _ 100 (20 + c + 4 * qc) (y + 4 * q - 1)) by lia.
      rewrite <-(Z.div_unique_pos _ 400 (5 + qc) (y + 4 * q + 100 * c - 1)) by lia. cbn. lia.
Qed.
Lemma march_days qc c q y :
  cycle_ok c q y →
  days_before_year (year_at qc c q y) + 59 + Z.b2z (leap_year (year_at qc c q y))
    = EPOCH_DAYS + DAYS_PER_400Y * qc + DAYS_PER_100Y * c + DAYS_PER_4Y * q + 365 * y.
Proof.
  intros Hk. destruct (leaps_at qc c q y Hk) as [_ E]. unfold days_before_year. rewrite E.
  change (leaps_before 1970) with 477. change EPOCH_DAYS with 11017. unfold year_at, DAYS_PER_400Y, DAYS_PER_100Y, DAYS_PER_4Y. lia.
Qed.
Lemma days_next_year y : days_before_year (y + 1) = days_before_year y + 365 + Z.b2z (leap_year y).
Proof.
  unfold days_before_year, leaps_before, leap_year. replace (y + 1 - 1) with y by lia.
  assert (∀ n, 0 < n → y / n = (y - 1) / n + Z.b2z (y mod n =? 0)) as Hd.
  { intros n Hn. destruct (Z.eqb_spec (y mod n) 0); cbn [Z.b2z].
    - rewrite <-(Z.div_unique_pos (y - 1) n (y / n - 1) (n - 1)); [lia|lia|]. pose proof (Z.div_mod y n ltac:(lia)). lia.
    - rewrite <-(Z.div_unique_pos (y - 1) n (y / n) (y mod n - 1)); [lia|pose proof (Z.mod_pos_bound y n Hn); lia|].
      pose proof (Z.div_mod y n ltac:(lia)). lia. }
  rewrite !Hd by lia.
  assert (y mod 400 = 0 → y mod 100 = 0) by (intros ?%Z.mod_divide; [|lia]; apply Z.mod_divide; [lia|]; destruct H as [k ->]; exists (k * 4); lia).
  assert (y mod 100 = 0 → y mod 4 = 0) by (intros ?%Z.mod_divide; [|lia]; apply Z.mod_divide; [lia|]; destruct H0 as [k ->]; exists (k * 25); lia).
  destruct (Z.eqb_spec (y mod 4) 0), (Z.eqb_spec (y mod 100) 0), (Z.eqb_spec (y mod 400) 0); cbn; lia.
Qed.

(** The split of the days of a cycle, as the code makes it. *)
Definition capped (x n limit : Z) : Z := let v := Z.quot x n in if v =? limit then v - 1 else v.
Lemma capped_div x n limit : 0 ≤ x → 0 < n → capped x n limit = if x / n =? limit then x / n - 1 else x / n.
Proof. intros Hx Hn. unfold capped. by rewrite Z.quot_div_nonneg by lia. Qed.
Lemma split_days r :
  0 ≤ r < DAYS_PER_400Y →
  let c := capped r DAYS_PER_100Y 4 in let r1 := r - c * DAYS_PER_100Y in
  let q := capped r1 DAYS_PER_4Y 25 in let r2 := r1 - q * DAYS_PER_4Y in
  let y := capped r2 365 4 in let r3 := r2 - y * 365 in
  cycle_ok c q y ∧ (0 ≤ r1 ≤ DAYS_PER_100Y ∧ 0 ≤ r2 < DAYS_PER_4Y) ∧ 0 ≤ r3 ≤ 365 ∧ (r3 = 365 → y = 3 ∧ (q ≠ 24 ∨ c = 3)).
Proof.
  intros Hr c r1 q r2 y r3. change DAYS_PER_400Y with 146097 in Hr. change DAYS_PER_100Y with 36524. change DAYS_PER_4Y with 1461.
  assert (0 ≤ c ≤ 3 ∧ 0 ≤ r1 ≤ 36524 ∧ (r1 = 36524 → c = 3)) as (Hc & Hr1 & Hr1c).
  { unfold r1, c. change DAYS_PER_100Y with 36524. rewrite capped_div by lia. destruct (Z.eqb_spec (r / 36524) 4); Z.div_mod_to_equations; lia. }
  assert (0 ≤ q ≤ 24 ∧ 0 ≤ r2 < 1461 ∧ (q = 24 → r2 = 1460 → r1 = 36524)) as (Hq & Hr2 & Hr2q).
  { unfold r2, q. change DAYS_PER_4Y with 1461. rewrite capped_div by lia. destruct (Z.eqb_spec (r1 / 1461) 25); Z.div_mod_to_equations; lia. }
  assert (0 ≤ y ≤ 3 ∧ 0 ≤ r3 ≤ 365 ∧ (r3 = 365 → y = 3 ∧ r2 = 1460)) as (Hy & Hr3 & Hr3y).
  { unfold r3, y. rewrite capped_div by lia. destruct (Z.eqb_spec (r2 / 365) 4); Z.div_mod_to_equations; lia. }
  split; [done|]. split; [lia|]. split; [done|]. intros E. destruct (Hr3y E). split; [done|]. destruct (decide (q = 24)); [right|by left]. auto.
Qed.
(** February of the year after has its 29th day when the code counts it. *)
Lemma leap_after qc c q y : cycle_ok c q y → y = 3 → q ≠ 24 ∨ c = 3 → leap_year (year_at qc c q y + 1) = true.
Proof.
  intros [Hc Hq Hy] -> Hl. destruct (decide (q = 24)) as [->|Hq24].
  - destruct Hl as [Hl|Hl]; [done|]. subst c.
    replace (year_at qc 3 24 3 + 1) with (year_at (qc + 1) 0 0 0) by (unfold year_at; lia). by rewrite leap_at by (split; lia).
  - replace (year_at qc c q 3 + 1) with (year_at qc c (q + 1) 0) by (unfold year_at; lia). rewrite leap_at by (split; lia).
    replace (q + 1 =? 0) with false by lia. done.
Qed.

(** The month and the day of it, of a day counted from March. *)
Fixpoint all_from (f : Z → bool) (n : nat) (d : Z) : bool :=
  match n with O => true | S n => (f d && all_from f n (d + 1))%bool end.
Lemma all_from_spec f n d : all_from f n d = true → ∀ x, d ≤ x < d + Z.of_nat n → f x = true.
Proof.
  revert d. induction n as [|n IH]; intros d Ha x Hx; [lia|]. cbn in Ha. apply andb_true_iff in Ha as [Hd Ha].
  destruct (decide (x = d)) as [->|Hne]; [done|]. apply (IH (d + 1)); [done|lia].
Qed.
Definition month_ok (leap leap1 : bool) (r : Z) : bool :=
  match month_loop 13 0 r tt with
  | (Ok (mo, d), tt) =>
      let yday := r + 59 + Z.b2z leap in
      (0 <=? d) && (0 <=? mo) &&
      if 10 <=? mo then
        (mo <? 12) && (365 + Z.b2z leap <=? yday) && (d <? default 0 (month_lengths leap1 !! Z.to_nat (mo - 10))) &&
        (r - 306 =? days_before_month leap1 (mo - 10) + d)
      else
        (yday <? 365 + Z.b2z leap) && (d <? default 0 (month_lengths leap !! Z.to_nat (mo + 2))) &&
        (yday =? days_before_month leap (mo + 2) + d)
  | _ => false
  end%bool.
Lemma months_ok leap leap1 r : 0 ≤ r < 365 + Z.b2z leap1 → month_ok leap leap1 r = true.
Proof.
  destruct leap1; cbn [Z.b2z]; intros Hr.
  - apply (all_from_spec _ 366 0); [destruct leap; vm_compute; reflexivity|lia].
  - apply (all_from_spec _ 365 0); [destruct leap; vm_compute; reflexivity|lia].
Qed.

(** Division of C, corrected to round down. *)
Lemma quot_floor x n :
  0 < n → (if Z.rem x n <? 0 then (Z.rem x n + n, Z.quot x n - 1) else (Z.rem x n, Z.quot x n)) = (x mod n, x / n).
Proof.
  intros Hn. pose proof (Z.quot_rem' x n) as Hx. pose proof (Z.rem_bound_abs x n ltac:(lia)) as Hb.
  assert (0 ≤ x → 0 ≤ Z.rem x n) by (intros; apply Z.rem_nonneg; lia).
  destruct (Z.ltb_spec (Z.rem x n) 0).
  - f_equal; [apply (Z.mod_unique_pos _ _ (Z.quot x n - 1))|apply (Z.div_unique_pos _ _ _ (Z.rem x n + n))]; lia.
  - f_equal; [apply (Z.mod_unique_pos _ _ (Z.quot x n))|apply (Z.div_unique_pos _ _ _ (Z.rem x n))]; lia.
Qed.
Lemma int_ok x s : INT_MIN ≤ x ≤ INT_MAX → int_ x s = (Ok x, s).
Proof. intros Hx. unfold int_. by replace ((INT_MIN <=? x) && (x <=? INT_MAX))%bool with true by lia. Qed.
Lemma int_small x s : - 1000000 ≤ x ≤ 1000000 → int_ x s = (Ok x, s).
Proof. intros Hx. apply int_ok. unfold INT_MIN, INT_MAX. lia. Qed.

(** The date of a day in the calendar. *)
Definition date_spec (years months d yday days : Z) : Prop :=
  let leap := leap_year (2000 + years) in
  0 ≤ months + 2 < 12 ∧ 0 ≤ d < default 0 (month_lengths leap !! Z.to_nat (months + 2)) ∧
  yday = days_before_month leap (months + 2) + d ∧ days_before_year (2000 + years) + yday = EPOCH_DAYS + days.
Lemma date_of_march qc c q y r :
  cycle_ok c q y → 0 ≤ r ≤ 365 → (r = 365 → y = 3 ∧ (q ≠ 24 ∨ c = 3)) →
  let leap := if ((y =? 0) && (negb (q =? 0) || (c =? 0)))%bool then 1 else 0 in
  let years := y + 4 * q + 100 * c + 400 * qc in
  let yday := r + 31 + 28 + leap in
  let yday := if 365 + leap <=? yday then yday - (365 + leap) else yday in
  ∃ mo d, month_loop 13 0 r tt = (Ok (mo, d), tt) ∧
    date_spec (if 10 <=? mo then years + 1 else years) (if 10 <=? mo then mo - 12 else mo) d yday
      (DAYS_PER_400Y * qc + DAYS_PER_100Y * c + DAYS_PER_4Y * q + 365 * y + r).
Proof.
  intros Hk Hr Hl leap years yday0 yday. pose proof (march_days qc c q y Hk) as Hm. pose proof (leap_at qc c q y Hk) as Hleap.
  assert (leap = Z.b2z (leap_year (year_at qc c q y))) as El by (unfold leap; rewrite Hleap; by destruct (_ && _)%bool).
  assert (r < 365 + Z.b2z (leap_year (year_at qc c q y + 1))) as Hr1.
  { destruct (decide (r = 365)) as [E|]; [|destruct (leap_year (year_at qc c q y + 1)); cbn; lia]. destruct (Hl E). rewrite leap_after by done. cbn. lia. }
  pose proof (months_ok (leap_year (year_at qc c q y)) (leap_year (year_at qc c q y + 1)) r ltac:(lia)) as Ho.
  pose proof (days_next_year (year_at qc c q y)) as Hn.
  unfold month_ok in Ho. destruct (month_loop 13 0 r tt) as [[[mo d]| | |] []]; try done. exists mo, d. split; [done|].
  apply andb_true_iff in Ho as [[Hd Hmo]%andb_true_iff Ho]. unfold date_spec, yday, yday0. rewrite El. fold (year_at qc c q y) in *.
  destruct (10 <=? mo) eqn:E10.
  - replace (2000 + (years + 1)) with (year_at qc c q y + 1) by (unfold year_at, years; lia).
    replace (mo - 12 + 2) with (mo - 10) by lia. rewrite !andb_true_iff in Ho. destruct Ho as [[[H1 H2] H3] H4].
    replace (_ <=? _) with true by lia. lia.
  - replace (2000 + years) with (year_at qc c q y) by (unfold year_at, years; lia).
    rewrite !andb_true_iff in Ho. destruct Ho as [[H1 H2] H3]. replace (_ <=? _) with false by lia. lia.
Qed.

Lemma date_of_days_ok days :
  - 2 ^ 40 ≤ days ≤ 2 ^ 40 →
  ∃ years months d yday, date_of_days days tt = (Ok (years, months, d, yday), tt) ∧ date_spec years months d yday days.
Proof.
  intros Hd. pose proof (quot_floor days DAYS_PER_400Y ltac:(done)) as Hf.
  pose proof (Z.mod_pos_bound days DAYS_PER_400Y ltac:(done)) as Hr. set (r := days mod DAYS_PER_400Y) in *.
  assert (days = DAYS_PER_400Y * (days / DAYS_PER_400Y) + r) as Hdm by (unfold r; apply Z.div_mod; done). set (qc := days / DAYS_PER_400Y) in *.
  destruct (split_days r Hr) as (Hk & (Hr1 & Hr2) & Hr3 & Hl).
  change DAYS_PER_400Y with 146097 in Hr, Hdm, Hf. set (c := capped r DAYS_PER_100Y 4) in *. set (q := capped (r - c * DAYS_PER_100Y) DAYS_PER_4Y 25) in *.
  set (y := capped (r - c * DAYS_PER_100Y - q * DAYS_PER_4Y) 365 4) in *.
  destruct (date_of_march qc c q y _ Hk Hr3 Hl) as (mo & d & Em & Hs).
  unfold date_of_days. change DAYS_PER_400Y with 146097.
  pose proof (Z.rem_bound_abs days 146097 ltac:(lia)) as Hrem. pose proof (Z.quot_rem' days 146097) as Hqr.
  erewrite M_bind_ok by (apply int_ok; unfold INT_MIN, INT_MAX; lia). erewrite M_bind_ok by (apply int_small; lia).
  erewrite (M_bind_ok _ _ _ (r, qc) tt).
  2: { destruct (Z.rem days 146097 <? 0); injection Hf as <- <-; [|done].
       erewrite M_bind_ok by (apply int_small; lia). by erewrite M_bind_ok by (apply int_ok; unfold INT_MIN, INT_MAX; lia). }
  cbv beta iota. change DAYS_PER_100Y with 36524 in *. change DAYS_PER_4Y with 1461 in *.
  assert (∀ x n s, 0 ≤ x ≤ 1000000 → 0 < n → int_ (Z.quot x n) s = (Ok (Z.quot x n), s)) as Hquot.
  { intros x n s Hx Hn. apply int_small. rewrite Z.quot_div_nonneg by lia. split; [|apply Z.div_le_upper_bound; nia].
    pose proof (Z.div_pos x n). lia. }
  erewrite M_bind_ok by (apply Hquot; lia). fold (capped r 36524 4). fold c. erewrite M_bind_ok by (apply int_small; lia).
  erewrite M_bind_ok by (apply Hquot; lia). fold (capped (r - c * 36524) 1461 25). fold q. erewrite M_bind_ok by (apply int_small; lia).
  erewrite M_bind_ok by (apply Hquot; lia). fold (capped (r - c * 36524 - q * 1461) 365 4). fold y. erewrite M_bind_ok by (apply int_small; lia).
  set (leap := if ((y =? 0) && (negb (q =? 0) || (c =? 0)))%bool then 1 else 0) in *. assert (0 ≤ leap ≤ 1) as Hlp by (unfold leap; destruct ((y =? 0) && (negb (q =? 0) || (c =? 0)))%bool; lia).
  set (r3 := r - c * 36524 - q * 1461 - y * 365) in *. erewrite M_bind_ok by (apply int_small; lia).
  set (yday := if 365 + leap <=? r3 + 31 + 28 + leap then r3 + 31 + 28 + leap - (365 + leap) else r3 + 31 + 28 + leap) in *.
  erewrite (M_bind_ok _ _ _ yday tt) by (unfold yday; destruct (365 + leap <=? r3 + 31 + 28 + leap); [apply int_small; lia|done]).
  erewrite M_bind_ok by exact Em. cbv beta iota.
  replace (DAYS_PER_400Y * qc + 36524 * c + 1461 * q + 365 * y + r3) with days in Hs by (unfold DAYS_PER_400Y, r3; lia).
  destruct (10 <=? mo); do 4 eexists; (split; [reflexivity|exact Hs]).
Qed.

(** ** Dates and times *)

Definition year_fits (r : tm) : Prop := INT_MIN ≤ tm_year r ≤ INT_MAX.
Lemma day_unique y1 y2 d1 d2 :
  0 ≤ d1 < 365 + Z.b2z (leap_year y1) → 0 ≤ d2 < 365 + Z.b2z (leap_year y2) →
  days_before_year y1 + d1 = days_before_year y2 + d2 → y1 = y2 ∧ d1 = d2.
Proof.
  assert (∀ y (n : nat), days_before_year y + 365 * Z.of_nat n ≤ days_before_year (y + Z.of_nat n)) as Hmono.
  { intros y n. induction n as [|n IH]; [replace (y + Z.of_nat 0) with y by lia; lia|].
    replace (y + Z.of_nat (S n)) with (y + Z.of_nat n + 1) by lia. rewrite days_next_year. destruct (leap_year _); cbn; lia. }
  assert (∀ y1 y2, y1 < y2 → days_before_year y1 + 365 + Z.b2z (leap_year y1) ≤ days_before_year y2) as Hlt.
  { intros a b Hab. rewrite <-days_next_year. pose proof (Hmono (a + 1) (Z.to_nat (b - (a + 1)))) as Hm.
    rewrite Z2Nat.id in Hm by lia. replace (a + 1 + (b - (a + 1))) with b in Hm by lia. lia. }
  intros H1 H2 E. destruct (Z.lt_trichotomy y1 y2) as [Hl|[->|Hl]]; [pose proof (Hlt _ _ Hl); lia|lia|pose proof (Hlt _ _ Hl); lia].
Qed.
Ltac eval_calendar :=
  repeat match goal with
  | |- context [default 0 (?l !! ?i)] => let v := eval vm_compute in (default 0 (l !! i)) in change (default 0 (l !! i)) with v
  | |- context [days_before_month ?b ?m] => let v := eval vm_compute in (days_before_month b m) in change (days_before_month b m) with v
  end.
Lemma twelve m : 0 ≤ m < 12 → m = 0 ∨ m = 1 ∨ m = 2 ∨ m = 3 ∨ m = 4 ∨ m = 5 ∨ m = 6 ∨ m = 7 ∨ m = 8 ∨ m = 9 ∨ m = 10 ∨ m = 11.
Proof. lia. Qed.
Lemma month_unique leap m1 m2 d1 d2 :
  0 ≤ m1 < 12 → 0 ≤ m2 < 12 →
  0 ≤ d1 < default 0 (month_lengths leap !! Z.to_nat m1) → 0 ≤ d2 < default 0 (month_lengths leap !! Z.to_nat m2) →
  days_before_month leap m1 + d1 = days_before_month leap m2 + d2 → m1 = m2 ∧ d1 = d2.
Proof.
  intros H1%twelve H2%twelve. destruct leap; repeat destruct H1 as [->|H1]; subst; repeat destruct H2 as [->|H2]; subst; eval_calendar; lia.
Qed.

Lemma yday_range r : valid_tm r → 0 ≤ tm_yday r < 365 + Z.b2z (leap_year (year_of r)).
Proof.
  intros [_ _ _ Hc%twelve Hd -> _ _]. revert Hc Hd. generalize (tm_mon r), (tm_mday r), (leap_year (year_of r)). intros m d leap Hc.
  destruct leap; repeat destruct Hc as [->|Hc]; subst; eval_calendar; cbn [Z.b2z]; lia.
Qed.
Lemma unix_unique r1 r2 : valid_tm r1 → valid_tm r2 → unix_time r1 = unix_time r2 → r1 = r2.
Proof.
  intros V1 V2 E. pose proof (yday_range _ V1) as Y1. pose proof (yday_range _ V2) as Y2. destruct (V1), (V2). unfold unix_time in E.
  assert (day_of r1 = day_of r2 ∧ tm_hour r1 = tm_hour r2 ∧ tm_min r1 = tm_min r2 ∧ tm_sec r1 = tm_sec r2) as (Ed & Eh & Em & Es) by lia.
  destruct (day_unique _ _ _ _ Y1 Y2 Ed) as [Ey Eyd]. rewrite Ey in *.
  destruct (month_unique (leap_year (year_of r2)) (tm_mon r1) (tm_mon r2) (tm_mday r1 - 1) (tm_mday r2 - 1)) as [Emo Emd]; [lia..|].
  rewrite Ed in *. unfold year_of in Ey. destruct r1, r2. cbn in *. f_equal; lia.
Qed.

Lemma secs_to_tm_ok isdst t :
  INT_MIN * 31622400 ≤ t ≤ INT_MAX * 31622400 →
  ∃ r, valid_tm r ∧ unix_time r = t ∧
    secs_to_tm isdst t tt = (Ok (if ((INT_MAX <? tm_year r) || (tm_year r <? INT_MIN))%bool then None else Some (set_isdst isdst r)), tt).
Proof.
  intros Ht. unfold secs_to_tm. replace (_ || _)%bool with false by (unfold INT_MIN, INT_MAX in *; lia).
  set (secs := t - LEAPOCH). pose proof (quot_floor secs 86400 ltac:(lia)) as Hf.
  pose proof (Z.mod_pos_bound secs 86400 ltac:(lia)) as Hs. pose proof (Z.div_mod secs 86400 ltac:(lia)) as Hdm.
  set (days := secs / 86400) in *. set (rs := secs mod 86400) in *.
  assert (- 2 ^ 40 ≤ days ≤ 2 ^ 40) as Hd by (unfold INT_MIN, INT_MAX, secs, LEAPOCH in *; lia).
  destruct (date_of_days_ok days Hd) as (years & months & d & yday & Ed & Hm & Hdd & Hyd & Hday).
  pose proof (Z.rem_bound_abs secs 86400 ltac:(lia)). cbv zeta.
  erewrite M_bind_ok by (apply int_small; lia). erewrite (M_bind_ok _ _ _ (rs, days) tt).
  2: { destruct (Z.rem secs 86400 <? 0); injection Hf as <- <-; [|done]. by erewrite M_bind_ok by (apply int_small; lia). }
  cbv beta iota. pose proof (quot_floor (3 + days) 7 ltac:(lia)) as Hw. pose proof (Z.rem_bound_abs (3 + days) 7 ltac:(lia)).
  erewrite M_bind_ok by (apply int_small; lia). erewrite (M_bind_ok _ _ _ ((3 + days) mod 7) tt).
  2: { destruct (Z.rem (3 + days) 7 <? 0); injection Hw as <- _; [apply int_small; lia|done]. }
  erewrite M_bind_ok by exact Ed. cbv beta iota. rewrite !Z.quot_div_nonneg, !Z.rem_mod_nonneg by (try apply Z.div_pos; lia).
  exists {| tm_year := years + 100; tm_mon := months + 2; tm_mday := d + 1; tm_wday := (3 + days) mod 7; tm_yday := yday;
            tm_hour := rs / 3600; tm_min := rs / 60 mod 60; tm_sec := rs mod 60; tm_isdst := 0 |}.
  assert (EPOCH_DAYS = 11017) as He by reflexivity. assert (secs + 86400 * EPOCH_DAYS = t) as Hts by (unfold secs; rewrite He; unfold LEAPOCH; lia).
  split; [|split].
  - split; unfold year_of, day_of; cbn; try lia; try (Z.div_mod_to_equations; lia).
    + replace (years + 100 + 1900) with (2000 + years) by lia. lia.
    + replace (years + 100 + 1900) with (2000 + years) by lia. lia.
    + unfold year_of. cbn. replace (years + 100 + 1900) with (2000 + years) by lia. rewrite Hday, He. Z.div_mod_to_equations. lia.
  - unfold unix_time, day_of, year_of. cbn. replace (years + 100 + 1900) with (2000 + years) by lia. rewrite Hday.
    clear -Hts Hdm Hs. Z.div_mod_to_equations. lia.
  - cbn. by destruct (_ || _)%bool.
Qed.

(** A date whose year fits an [int] is within the bounds of the first test. *)
Lemma year_fits_bounds r : valid_tm r → year_fits r → INT_MIN * 31622400 ≤ unix_time r ≤ INT_MAX * 31622400.
Proof.
  intros V Hf. destruct (V) as [Hs Hm Hh Hmo Hd Hy _ _]. unfold year_fits, INT_MIN, INT_MAX in *.
  assert (0 ≤ tm_yday r ≤ 366) as Hyd by (pose proof (yday_range r V); destruct (leap_year (year_of r)); cbn in *; lia).
  assert (97 * (year_of r - 1) - 900 ≤ 400 * leaps_before (year_of r) ≤ 97 * (year_of r - 1) + 900) as Hl
    by (unfold leaps_before; clear; Z.div_mod_to_equations; lia).
  unfold unix_time, day_of, days_before_year. change (leaps_before 1970) with 477. unfold year_of in *. lia.
Qed.

(** C20: [gmtime_r] inverts the calendar: the time of a date, in seconds since 1970, is converted back to exactly
    that date, with its day of the week and of the year, for every date of the Gregorian calendar
    whose year fits an [int]; every other time is refused with [EOVERFLOW]. *)
Theorem gmtime_inverts_calendar isdst :
  (∀ r, valid_tm r → year_fits r → gmtime_r isdst (unix_time r) tt = (Ok (inr r), tt)) ∧
  (∀ t, (∀ r, valid_tm r → year_fits r → unix_time r ≠ t) → gmtime_r isdst t tt = (Ok (inl EOVERFLOW), tt)).
Proof.
  split.
  - intros r V Hf. destruct (secs_to_tm_ok isdst _ (year_fits_bounds r V Hf)) as (r' & V' & E & Er).
    assert (r' = r) as -> by (by apply unix_unique). unfold gmtime_r. erewrite M_bind_ok by exact Er.
    unfold year_fits in Hf. replace (_ || _)%bool with false by lia. destruct V as [_ _ _ _ _ _ _ Hd].
    destruct r. cbn in Hd. by subst.
  - intros t Hn. unfold gmtime_r. erewrite (M_bind_ok _ _ _ None tt); [done|].
    destruct (decide (INT_MIN * 31622400 ≤ t ≤ INT_MAX * 31622400)) as [Hb|Hb].
    + destruct (secs_to_tm_ok isdst t Hb) as (r & V & E & ->). destruct (_ || _)%bool eqn:Ey; [done|].
      destruct (Hn r V); [unfold year_fits; lia|done].
    + unfold secs_to_tm. by replace (_ || _)%bool with true by lia.
Qed.

(** The first second of 1970 was on a Thursday. *)
Definition epoch_tm : tm :=
  {| tm_sec := 0; tm_min := 0; tm_hour := 0; tm_mday := 1; tm_mon := 0; tm_year := 70; tm_wday := 4; tm_yday := 0; tm_isdst := 0 |}.
Lemma gmtime_inverts_calendar_witness : valid_tm epoch_tm ∧ gmtime_r 7 0 tt = (Ok (inr epoch_tm), tt).
Proof.
  assert (valid_tm epoch_tm) as V by (split; vm_compute; first [reflexivity|split; [discriminate|first [reflexivity|discriminate]]]). split; [exact V|].
  apply (proj1 (gmtime_inverts_calendar 7) epoch_tm V). unfold year_fits, INT_MIN, INT_MAX. cbn. lia.
Defined.
