(* ===== verification/Printf.v ===== *)
(** * Formatted output of the C library ([ulib/axlibc/c/printf.c])

    The [printf] family in the configuration without floating point (no [AX_CONFIG_FP_SIMD]).  The format is
    the list of its bytes before the final zero; the strings of [%s] are in a memory that the output
    does not change; the arguments are numbers and pointers, converted to the type asked for. *)

From Stdlib Require Import ZArith Lia.
From stdpp Require Import base decidable numbers gmap list.
From S2P Require Import Prelude LinkedList CString CStdlib CTime.

Local Open Scope Z_scope.

Definition PRINTF_INTEGER_BUFFER_SIZE : nat := 32.
Definition PRINTF_MAX_POSSIBLE_BUFFER_SIZE : Z := INT_MAX.
Definition FLAGS_ZEROPAD : Z := 1.
Definition FLAGS_LEFT : Z := 2.
Definition FLAGS_PLUS : Z := 4.
Definition FLAGS_SPACE : Z := 8.
Definition FLAGS_HASH : Z := 16.
Definition FLAGS_UPPERCASE : Z := 32.
Definition FLAGS_CHAR : Z := 64.
Definition FLAGS_SHORT : Z := 128.
Definition FLAGS_LONG : Z := 512.
Definition FLAGS_LONG_LONG : Z := 1024.
Definition FLAGS_PRECISION : Z := 2048.
Definition FLAGS_POINTER : Z := 8192.
Definition FLAGS_SIGNED : Z := 16384.
Definition has (flags mask : Z) : bool := negb (Z.land flags mask =? 0).
Definition clear_flags (flags mask : Z) : Z := Z.ldiff flags mask.

(** ** Output gadgets *)

(** [g_emitted] is what the output function was called with; a null buffer is [None].  The state also has the
    arguments left, and what [%n] wrote: a pointer and the number of characters. *)
Record Gadget : Set := {
  g_function : bool; g_emitted : list Z; g_buffer : option (list Z); g_pos : Z; g_max_chars : Z;
  g_args : list Z; g_written_back : list (Z * Z) }.
Local Abbreviation PM := (M Gadget NoError).
Definition set_pos (p : Z) : PM unit := modify (λ g,
  {| g_function := g_function g; g_emitted := g_emitted g; g_buffer := g_buffer g; g_pos := p; g_max_chars := g_max_chars g;
     g_args := g_args g; g_written_back := g_written_back g |}).
Definition set_buffer (b : option (list Z)) : PM unit := modify (λ g,
  {| g_function := g_function g; g_emitted := g_emitted g; g_buffer := b; g_pos := g_pos g; g_max_chars := g_max_chars g;
     g_args := g_args g; g_written_back := g_written_back g |}).
Definition call_function (c : Z) : PM unit := modify (λ g,
  {| g_function := g_function g; g_emitted := g_emitted g ++ [c]; g_buffer := g_buffer g; g_pos := g_pos g;
     g_max_chars := g_max_chars g; g_args := g_args g; g_written_back := g_written_back g |}).
Definition set_args (l : list Z) : PM unit := modify (λ g,
  {| g_function := g_function g; g_emitted := g_emitted g; g_buffer := g_buffer g; g_pos := g_pos g;
     g_max_chars := g_max_chars g; g_args := l; g_written_back := g_written_back g |}).
Definition write_back (p v : Z) : PM unit := modify (λ g,
  {| g_function := g_function g; g_emitted := g_emitted g; g_buffer := g_buffer g; g_pos := g_pos g;
     g_max_chars := g_max_chars g; g_args := g_args g; g_written_back := g_written_back g ++ [(p, v)] |}).

(** [buffer[i] = c]. *)
Definition store_char (i c : Z) : PM unit :=
  g ← get_state;
  match g_buffer g with
  | Some b => if i <? Z.of_nat (length b) then set_buffer (Some (<[Z.to_nat i := c]> b)) else panic
  | None => panic
  end.
(** A [char] is a byte here. *)
Definition putchar_via_gadget (c : Z) : PM unit :=
  g ← get_state;
  let write_pos := g_pos g in
  _ ← set_pos (wrap 32 (write_pos + 1));
  if g_max_chars g <=? write_pos then mret tt
  else if g_function g then call_function (wrap 8 c)
  else store_char write_pos (wrap 8 c).
Definition append_termination_with_gadget : PM unit :=
  g ← get_state;
  if (g_function g || (g_max_chars g =? 0))%bool then mret tt
  else match g_buffer g with
       | None => mret tt
       | Some _ => store_char (if g_pos g <? g_max_chars g then g_pos g else g_max_chars g - 1) 0
       end.
Definition discarding_gadget (args : list Z) : Gadget :=
  {| g_function := false; g_emitted := []; g_buffer := None; g_pos := 0; g_max_chars := 0; g_args := args; g_written_back := [] |}.
Definition buffer_gadget (buffer : option (list Z)) (buffer_size : Z) (args : list Z) : Gadget :=
  let usable := if PRINTF_MAX_POSSIBLE_BUFFER_SIZE <? buffer_size then PRINTF_MAX_POSSIBLE_BUFFER_SIZE else buffer_size in
  match buffer with
  | None => discarding_gadget args
  | Some b => {| g_function := false; g_emitted := []; g_buffer := Some b; g_pos := 0; g_max_chars := usable;
                 g_args := args; g_written_back := [] |}
  end.
Definition function_gadget (args : list Z) : Gadget :=
  {| g_function := true; g_emitted := []; g_buffer := None; g_pos := 0; g_max_chars := PRINTF_MAX_POSSIBLE_BUFFER_SIZE;
     g_args := args; g_written_back := [] |}.

(** [va_arg]: the next argument. *)
Definition va_arg : PM Z :=
  g ← get_state;
  match g_args g with [] => panic | a :: l => _ ← set_args l; mret a end.
Definition signed_of (w x : Z) : Z := let y := wrap w x in if y <? 2 ^ (w - 1) then y else y - 2 ^ w.
Definition va_int : PM Z := a ← va_arg; mret (signed_of 32 a).

(** ** Numbers *)

Fixpoint repeat_char (n : nat) (c : Z) : PM unit :=
  match n with O => mret tt | S n => _ ← putchar_via_gadget c; repeat_char n c end.
(** [while (output->pos - start_pos < width)]. *)
Fixpoint pad_to_width (fuel : nat) (start_pos width : Z) : PM unit :=
  match fuel with
  | O => out_of_fuel
  | S fuel =>
      g ← get_state;
      if wrap 32 (g_pos g - start_pos) <? width then _ ← putchar_via_gadget 32; pad_to_width fuel start_pos width else mret tt
  end.
Fixpoint put_all (l : list Z) : PM unit := match l with [] => mret tt | c :: l => _ ← putchar_via_gadget c; put_all l end.
(** [buf] holds the characters of the output, the last one first. *)
Definition out_rev_ (buf : list Z) (width flags : Z) : PM unit :=
  g ← get_state;
  let start_pos := g_pos g in
  _ ← (if (negb (has flags FLAGS_LEFT) && negb (has flags FLAGS_ZEROPAD))%bool
       then repeat_char (Z.to_nat (width - Z.of_nat (length buf))) 32 else mret tt);
  _ ← put_all (reverse buf);
  if has flags FLAGS_LEFT then pad_to_width (S (Z.to_nat width)) start_pos width else mret tt.

(** [while (len < n && len < PRINTF_INTEGER_BUFFER_SIZE) buf[len++] = '0'], which fills up to a length. *)
Definition fill_zeros (buf : list Z) (n : Z) : list Z :=
  buf ++ replicate (Z.to_nat (Z.min n (Z.of_nat PRINTF_INTEGER_BUFFER_SIZE)) - length buf) 48.
Definition push_char (buf : list Z) (c : Z) : list Z :=
  if (length buf <? PRINTF_INTEGER_BUFFER_SIZE)%nat then buf ++ [c] else buf.
Definition len_is (buf : list Z) (n : Z) : bool := Z.of_nat (length buf) =? n.
(** The padding, the prefix of the base, and the sign. *)
Definition finalize_zeros (buf : list Z) (negative : bool) (precision width flags : Z) : list Z * Z :=
  let '(buf, width) :=
    if has flags FLAGS_LEFT then (buf, width)
    else
      let width := if (negb (width =? 0) && has flags FLAGS_ZEROPAD && (negative || has flags (Z.lor FLAGS_PLUS FLAGS_SPACE)))%bool
                   then width - 1 else width in
      (if has flags FLAGS_ZEROPAD then fill_zeros buf width else buf, width) in
  (fill_zeros buf precision, width).
Definition finalize_hash (unpadded_len : nat) (buf : list Z) (base precision width flags : Z) : list Z :=
  if has flags (Z.lor FLAGS_HASH FLAGS_POINTER) then
    let buf :=
      if (negb (has flags FLAGS_PRECISION) && negb (len_is buf 0) && (len_is buf precision || len_is buf width))%bool then
        let buf := if (unpadded_len <? length buf)%nat then removelast buf else buf in
        if (negb (len_is buf 0) && ((base =? 16) || (base =? 2)) && (unpadded_len <? length buf)%nat)%bool
        then removelast buf else buf
      else buf in
    let buf :=
      if ((base =? 16) && negb (has flags FLAGS_UPPERCASE) && (length buf <? PRINTF_INTEGER_BUFFER_SIZE)%nat)%bool then buf ++ [120]
      else if ((base =? 16) && has flags FLAGS_UPPERCASE && (length buf <? PRINTF_INTEGER_BUFFER_SIZE)%nat)%bool then buf ++ [88]
      else if ((base =? 2) && (length buf <? PRINTF_INTEGER_BUFFER_SIZE)%nat)%bool then buf ++ [98]
      else buf in
    push_char buf 48
  else buf.
Definition finalize_sign (buf : list Z) (negative : bool) (flags : Z) : list Z :=
  if negative then push_char buf 45
  else if has flags FLAGS_PLUS then push_char buf 43
  else if has flags FLAGS_SPACE then push_char buf 32
  else buf.
Definition print_integer_finalization (buf : list Z) (negative : bool) (base precision width flags : Z) : PM unit :=
  let unpadded_len := length buf in
  let '(buf, width) := finalize_zeros buf negative precision width flags in
  let flags := if ((base =? 8) && (unpadded_len <? length buf)%nat)%bool then clear_flags flags FLAGS_HASH else flags in
  let buf := finalize_hash unpadded_len buf base precision width flags in
  out_rev_ (finalize_sign buf negative flags) width flags.

Definition digit_char_of (flags digit : Z) : Z :=
  if digit <? 10 then 48 + digit else (if has flags FLAGS_UPPERCASE then 65 else 97) + digit - 10.
(** The digits, the last one first, as many as the buffer takes. *)
Fixpoint digits_loop (room : nat) (value base flags : Z) : list Z :=
  match room with
  | O => []
  | S room => digit_char_of flags (value mod base) :: (if value / base =? 0 then [] else digits_loop room (value / base) base flags)
  end.
Definition print_integer (value : Z) (negative : bool) (base precision width flags : Z) : PM unit :=
  if value =? 0 then
    if negb (has flags FLAGS_PRECISION) then
      print_integer_finalization [48] negative base precision width (clear_flags flags FLAGS_HASH)
    else print_integer_finalization [] negative base precision width (if base =? 16 then clear_flags flags FLAGS_HASH else flags)
  else print_integer_finalization (digits_loop PRINTF_INTEGER_BUFFER_SIZE value base flags) negative base precision width flags.

(** ** The format *)

Definition is_digit_ (ch : Z) : bool := ((48 <=? ch) && (ch <=? 57))%bool.
(** The byte at the format pointer: the final zero at the end. *)
Definition at_ (f : list Z) : Z := default 0 (head f).
(** [ADVANCE_IN_FORMAT_STRING]: [None] when the function returns. *)
Definition advance_in_format (f : list Z) : option (list Z) := match tail f with [] => None | f => Some f end.
Fixpoint atou_ (i : Z) (f : list Z) : Z * list Z :=
  match f with
  | c :: f' => if is_digit_ c then atou_ (wrap 32 (wrap 32 (i * 10) + (c - 48))) f' else (i, f)
  | [] => (i, f)
  end.
Definition flag_of (c : Z) : option Z :=
  match c with 48 => Some FLAGS_ZEROPAD | 45 => Some FLAGS_LEFT | 43 => Some FLAGS_PLUS | 32 => Some FLAGS_SPACE
             | 35 => Some FLAGS_HASH | _ => None end.
Fixpoint parse_flags (flags : Z) (f : list Z) : Z * list Z :=
  match f with
  | c :: f' => match flag_of c with Some m => parse_flags (Z.lor flags m) f' | None => (flags, f) end
  | [] => (flags, f)
  end.
(** The width and the precision; [None] when the format ends. *)
Definition parse_width (flags : Z) (f : list Z) : PM (option (Z * Z * list Z)) :=
  if is_digit_ (at_ f) then let '(w, f) := atou_ 0 f in mret (Some (flags, w, f))
  else if at_ f =? 42 then
    w ← va_int;
    '(flags, width) ← (if w <? 0 then if w =? INT_MIN then panic else mret (Z.lor flags FLAGS_LEFT, - w) else mret (flags, w));
    mret ((λ f, (flags, width, f)) <$> advance_in_format f)
  else mret (Some (flags, 0, f)).
Definition parse_precision (flags : Z) (f : list Z) : PM (option (Z * Z * list Z)) :=
  if at_ f =? 46 then
    let flags := Z.lor flags FLAGS_PRECISION in
    match advance_in_format f with
    | None => mret None
    | Some f =>
        if is_digit_ (at_ f) then let '(p, f) := atou_ 0 f in mret (Some (flags, p, f))
        else if at_ f =? 42 then p ← va_int; mret ((λ f, (flags, Z.max p 0, f)) <$> advance_in_format f)
        else mret (Some (flags, 0, f))
    end
  else mret (Some (flags, 0, f)).
Definition parse_length (flags : Z) (f : list Z) : option (Z * list Z) :=
  let twice c one two :=
    f ← advance_in_format f;
    if at_ f =? c then f ← advance_in_format f; Some (Z.lor (Z.lor flags one) two, f) else Some (Z.lor flags one, f) in
  if at_ f =? 108 then twice 108 FLAGS_LONG FLAGS_LONG_LONG
  else if at_ f =? 104 then twice 104 FLAGS_SHORT FLAGS_CHAR
  else if ((at_ f =? 116) || (at_ f =? 106) || (at_ f =? 122))%bool then f ← advance_in_format f; Some (Z.lor flags FLAGS_LONG, f)
  else Some (flags, f).

(** [ABS_FOR_PRINTING]: the negation of the least [long long] overflows. *)
Definition abs_for_printing (x : Z) : PM Z := if x =? LONG_MIN then panic else mret (Z.abs x).
Definition print_signed (base precision width flags : Z) : PM unit :=
  a ← va_arg;
  let value := if (has flags FLAGS_LONG_LONG || has flags FLAGS_LONG)%bool then signed_of 64 a
               else if has flags FLAGS_CHAR then signed_of 8 a else if has flags FLAGS_SHORT then signed_of 16 a else signed_of 32 a in
  u ← abs_for_printing value;
  print_integer u (value <? 0) base precision width flags.
Definition print_unsigned (base precision width flags : Z) : PM unit :=
  let flags := clear_flags flags (Z.lor FLAGS_PLUS FLAGS_SPACE) in
  a ← va_arg;
  let value := if (has flags FLAGS_LONG_LONG || has flags FLAGS_LONG)%bool then wrap 64 a
               else if has flags FLAGS_CHAR then wrap 8 a else if has flags FLAGS_SHORT then wrap 16 a else wrap 32 a in
  print_integer value false base precision width flags.
(** The specifiers [d i u x X o b]. *)
Definition is_signed_spec (spec : Z) : bool := ((spec =? 100) || (spec =? 105))%bool.
Definition base_of_spec (spec : Z) : Z :=
  if ((spec =? 120) || (spec =? 88))%bool then 16 else if spec =? 111 then 8 else if spec =? 98 then 2 else 10.
Definition flags_of_spec (spec flags : Z) : Z :=
  let flags := if is_signed_spec spec then Z.lor flags FLAGS_SIGNED else flags in
  let flags := if base_of_spec spec =? 10 then clear_flags flags FLAGS_HASH else flags in
  let flags := if spec =? 88 then Z.lor flags FLAGS_UPPERCASE else flags in
  if has flags FLAGS_PRECISION then clear_flags flags FLAGS_ZEROPAD else flags.
Definition print_number (spec precision width flags : Z) : PM unit :=
  let flags := flags_of_spec spec flags in
  if has flags FLAGS_SIGNED then print_signed (base_of_spec spec) precision width flags
  else print_unsigned (base_of_spec spec) precision width flags.

Section strings.
(** The memory with the strings, and the fuel of the loops over them. *)
Context (mem : CMem) (sfuel : nat).
Definition str_at (p : Z) : PM Z := unwrap (mem !! p).
Fixpoint strnlen_s_ (fuel : nat) (s maxsize n : Z) : PM Z :=
  match fuel with
  | O => out_of_fuel
  | S fuel =>
      c ← str_at s;
      if c =? 0 then mret n else if maxsize =? 0 then mret n else strnlen_s_ fuel (s + 1) (maxsize - 1) (n + 1)
  end.
Fixpoint string_output (fuel : nat) (p precision flags : Z) : PM unit :=
  match fuel with
  | O => out_of_fuel
  | S fuel =>
      c ← str_at p;
      if (negb (c =? 0) && (negb (has flags FLAGS_PRECISION) || negb (precision =? 0)))%bool then
        _ ← putchar_via_gadget c; string_output fuel (p + 1) (wrap 32 (precision - 1)) flags
      else mret tt
  end.
Definition pad_from (l width : Z) : PM unit := repeat_char (Z.to_nat (width - l)) 32.
Definition print_char (width flags : Z) : PM unit :=
  _ ← (if has flags FLAGS_LEFT then mret tt else pad_from 1 width);
  c ← va_int; _ ← putchar_via_gadget c;
  if has flags FLAGS_LEFT then pad_from 1 width else mret tt.
Definition print_string (precision width flags : Z) : PM unit :=
  p ← va_arg;
  if p =? 0 then out_rev_ [41; 108; 108; 117; 110; 40] width flags
  else
    l ← strnlen_s_ sfuel p (if precision =? 0 then PRINTF_MAX_POSSIBLE_BUFFER_SIZE else precision) 0;
    let l := if has flags FLAGS_PRECISION then Z.min l precision else l in
    _ ← (if has flags FLAGS_LEFT then mret tt else pad_from l width);
    _ ← string_output sfuel p precision flags;
    if has flags FLAGS_LEFT then pad_from l width else mret tt.
Definition print_pointer (precision flags : Z) : PM unit :=
  let width := 8 * 2 + 2 in
  let flags := Z.lor flags (Z.lor FLAGS_ZEROPAD FLAGS_POINTER) in
  p ← va_arg;
  if p =? 0 then out_rev_ [41; 108; 105; 110; 40] width flags else print_integer (wrap 64 p) false 16 precision width flags.
Definition print_written (flags : Z) : PM unit :=
  p ← va_arg; g ← get_state;
  write_back p (if has flags FLAGS_CHAR then signed_of 8 (g_pos g) else if has flags FLAGS_SHORT then signed_of 16 (g_pos g)
                else if has flags FLAGS_LONG then g_pos g else if has flags FLAGS_LONG_LONG then g_pos g else signed_of 32 (g_pos g)).

Definition is_number_spec (c : Z) : bool := bool_decide (c ∈ [100; 105; 117; 120; 88; 111; 98]).
(** A specifier.  At the end of the format the final zero is taken for one, and the loop goes on reading
    behind it. *)
Definition print_spec (precision width flags : Z) (f : list Z) : PM (list Z) :=
  match f with
  | [] => _ ← putchar_via_gadget 0; panic
  | c :: f =>
      _ ← (if is_number_spec c then print_number c precision width flags
           else if c =? 99 then print_char width flags
           else if c =? 115 then print_string precision width flags
           else if c =? 112 then print_pointer precision flags
           else if c =? 37 then putchar_via_gadget 37
           else if c =? 110 then print_written flags
           else putchar_via_gadget c);
      mret f
  end.
Fixpoint format_string_loop (fuel : nat) (f : list Z) : PM unit :=
  match fuel with
  | O => out_of_fuel
  | S fuel =>
      match f with
      | [] => mret tt
      | c :: f' =>
          if negb (c =? 37) then _ ← putchar_via_gadget c; format_string_loop fuel f'
          else
            match advance_in_format f with
            | None => mret tt
            | Some f =>
                let '(flags, f) := parse_flags 0 f in
                r ← parse_width flags f;
                match r with
                | None => mret tt
                | Some (flags, width, f) =>
                    r ← parse_precision flags f;
                    match r with
                    | None => mret tt
                    | Some (flags, precision, f) =>
                        match parse_length flags f with
                        | None => mret tt
                        | Some (flags, f) => f ← print_spec precision width flags f; format_string_loop fuel f
                        end
                    end
                end
            end
      end
  end.
Definition vsnprintf_impl (format : list Z) : PM Z :=
  _ ← format_string_loop (S (length format)) format;
  _ ← append_termination_with_gadget;
  g ← get_state; mret (signed_of 32 (g_pos g)).
Definition vsnprintf_ (s : option (list Z)) (n : Z) (format : list Z) (args : list Z) : res NoError Z * Gadget :=
  vsnprintf_impl format (buffer_gadget s n args).
Definition vsprintf_ (s : option (list Z)) (format : list Z) (args : list Z) : res NoError Z * Gadget :=
  vsnprintf_ s PRINTF_MAX_POSSIBLE_BUFFER_SIZE format args.
Definition vfctprintf (format : list Z) (args : list Z) : res NoError Z * Gadget :=
  vsnprintf_impl format (function_gadget args).
End strings.
