(* ===== verification/PrintfProps.v ===== *)
(** * What [printf] writes

    An output into a buffer is the output of the format, cut to the size of the buffer; integers are
    written as the C standard says; a number that is written can be read back. *)

From Stdlib Require Import ZArith Lia.
From stdpp Require Import base decidable numbers gmap list.
From S2P Require Import Prelude LinkedList CString CStdlib CTime Printf.

Local Open Scope Z_scope.
Local Abbreviation PM := (M Gadget NoError).

(** ** A buffer gets what a function gets *)

Section truncation.
Context (n : nat) (b0 : list Z) (Hn : Z.of_nat n ≤ INT_MAX) (Hb : (n ≤ length b0)%nat).

(** The first bytes of the output in the buffer. *)
Definition overwrite (out : list Z) : list Z := take n out ++ drop (length (take n out)) b0.
(** A function gadget and a buffer gadget after the same output. *)
Record same_output (ga gb : Gadget) (out : list Z) : Prop := {
  so_a : g_function ga = true ∧ g_max_chars ga = PRINTF_MAX_POSSIBLE_BUFFER_SIZE;
  so_b : g_function gb = false ∧ g_max_chars gb = Z.of_nat n;
  so_pos : g_pos ga = wrap 32 (Z.of_nat (length out)) ∧ g_pos gb = wrap 32 (Z.of_nat (length out));
  so_args : g_args ga = g_args gb;
  so_back : g_written_back ga = g_written_back gb;
  so_len : ∃ b, g_buffer gb = Some b ∧ length b = length b0;
  so_small : Z.of_nat (length out) ≤ INT_MAX → g_emitted ga = out ∧ g_buffer gb = Some (overwrite out);
  so_large : INT_MAX < Z.of_nat (length out) → INT_MAX ≤ Z.of_nat (length (g_emitted ga));
}.
(** Code that does not see where its output goes. *)
Definition oblivious {A} (m : PM A) : Prop := ∀ ga gb out, same_output ga gb out →
  (m ga).1 = (m gb).1 ∧ ∃ out', same_output (m ga).2 (m gb).2 out'.

Lemma obl_ret {A} (a : A) : oblivious (mret a).
Proof. intros ga gb out H. split; [done|by exists out]. Qed.
Lemma obl_panic {A} : oblivious (A := A) panic.
Proof. intros ga gb out H. split; [done|by exists out]. Qed.
Lemma obl_fuel {A} : oblivious (A := A) out_of_fuel.
Proof. intros ga gb out H. split; [done|by exists out]. Qed.
Lemma obl_unwrap {A} (o : option A) : oblivious (unwrap o).
Proof. intros ga gb out H. destruct o; (split; [done|by exists out]). Qed.
Lemma obl_bind {A B} (m : PM A) (f : A → PM B) : oblivious m → (∀ a, oblivious (f a)) → oblivious (m ≫= f).
Proof.
  intros Hm Hf ga gb out H. destruct (Hm ga gb out H) as (E & out' & H'). unfold mbind, M_bind.
  destruct (m ga) as [ra ga'], (m gb) as [rb gb']. cbn in E, H'. subst rb.
  destruct ra; [by apply (Hf a ga' gb' out')|cbn; split; [done|by exists out']..].
Qed.
(** The position and the arguments are the same. *)
Lemma obl_get {A} (f : Gadget → PM A) :
  (∀ ga gb out, same_output ga gb out → (f ga ga).1 = (f gb gb).1 ∧ ∃ out', same_output (f ga ga).2 (f gb gb).2 out') →
  oblivious (g ← get_state; f g).
Proof. intros Hf ga gb out H. exact (Hf ga gb out H). Qed.
Lemma obl_get_pos {A} (f : Z → PM A) : (∀ p, oblivious (f p)) → oblivious (g ← get_state; f (g_pos g)).
Proof. intros Hf. apply obl_get. intros ga gb out H. destruct (so_pos _ _ _ H) as [-> ->]. by apply (Hf _ _ _ out). Qed.

Lemma overwrite_snoc out c :
  (length out < n)%nat → <[length out := c]> (overwrite out) = overwrite (out ++ [c]).
Proof.
  intros Hl. unfold overwrite. rewrite !take_ge by (rewrite ?length_app; cbn; lia). rewrite length_app. cbn [length].
  rewrite insert_app_r_alt, Nat.sub_diag by lia. destruct (drop (length out) b0) as [|x l] eqn:E.
  - apply (f_equal length) in E. rewrite length_drop in E. cbn in E. lia.
  - cbn. rewrite <-app_assoc. cbn. do 2 f_equal. by rewrite <-(drop_drop b0 1 (length out)), E.
Qed.
Lemma overwrite_full out c : (n ≤ length out)%nat → overwrite (out ++ [c]) = overwrite out.
Proof. intros Hl. unfold overwrite. by rewrite take_app_le by lia. Qed.
Lemma overwrite_length out : length (overwrite out) = length b0.
Proof. unfold overwrite. rewrite length_app, length_drop, length_take. lia. Qed.

(** A character, to a function and to a buffer. *)
Lemma putchar_function c g :
  g_function g = true →
  putchar_via_gadget c g = (Ok tt, {| g_function := true; g_emitted := if g_max_chars g <=? g_pos g then g_emitted g else g_emitted g ++ [wrap 8 c];
    g_buffer := g_buffer g; g_pos := wrap 32 (g_pos g + 1); g_max_chars := g_max_chars g; g_args := g_args g; g_written_back := g_written_back g |}).
Proof.
  intros F. unfold putchar_via_gadget, mbind, M_bind, get_state, set_pos, call_function, modify. rewrite F.
  by destruct (g_max_chars g <=? g_pos g).
Qed.
Lemma putchar_buffer c g b :
  g_function g = false → g_buffer g = Some b → 0 ≤ g_pos g → g_max_chars g ≤ Z.of_nat (length b) →
  putchar_via_gadget c g = (Ok tt, {| g_function := false; g_emitted := g_emitted g;
    g_buffer := Some (if g_max_chars g <=? g_pos g then b else <[Z.to_nat (g_pos g) := wrap 8 c]> b);
    g_pos := wrap 32 (g_pos g + 1); g_max_chars := g_max_chars g; g_args := g_args g; g_written_back := g_written_back g |}).
Proof.
  intros F Eb Hp Hm. unfold putchar_via_gadget, mbind, M_bind, get_state, set_pos, modify. rewrite F.
  destruct (Z.leb_spec (g_max_chars g) (g_pos g)); [by rewrite <-Eb|].
  unfold store_char, mbind, M_bind, get_state, set_buffer, modify. cbn. rewrite Eb. by rewrite (proj2 (Z.ltb_lt _ _)) by lia.
Qed.

Lemma obl_putchar c : oblivious (putchar_via_gadget c).
Proof.
  intros ga gb out [[Fa Ma] [Fb Mb] [Pa Pb] Ha Hw (b & Eb & Hlb) Hs Hl].
  set (p := wrap 32 (Z.of_nat (length out))) in *. assert (0 ≤ p < 2 ^ 32) as Hp by (apply wrap_range; lia).
  rewrite putchar_function by done. rewrite (putchar_buffer c gb b) by (done || lia). rewrite Ma, Mb, Pa, Pb. split; [done|].
  exists (out ++ [wrap 8 c]). cbn. unfold PRINTF_MAX_POSSIBLE_BUFFER_SIZE, INT_MAX in *.
  assert (Z.of_nat (length out) ≤ 2 ^ 31 - 1 → p = Z.of_nat (length out)) as Hpl by (intros; apply wrap_small; lia).
  assert (wrap 32 (p + 1) = wrap 32 (Z.of_nat (length (out ++ [wrap 8 c])))) as Ep.
  { unfold p, wrap. rewrite length_app, Zplus_mod_idemp_l. f_equal. cbn. lia. }
  split; cbn; try done.
  - eexists. split; [done|]. destruct (_ <=? _); by rewrite ?length_insert.
  - rewrite length_app. cbn. unfold INT_MAX. intros Hle. destruct Hs as [Hs1 Hs2]; [lia|]. rewrite Hpl, Hs1 by lia.
    rewrite (proj2 (Z.leb_gt (2 ^ 31 - 1) _)) by lia. split; [done|]. rewrite Eb in Hs2. injection Hs2 as ->.
    rewrite Nat2Z.id. destruct (Z.leb_spec (Z.of_nat n) (Z.of_nat (length out))).
    + by rewrite overwrite_full by lia.
    + by rewrite overwrite_snoc by lia.
  - rewrite length_app. cbn. unfold INT_MAX. intros Hgt. destruct (decide (2 ^ 31 - 1 < Z.of_nat (length out))) as [Hbig|Hsm].
    + specialize (Hl Hbig). destruct (_ <=? _); rewrite ?length_app; lia.
    + destruct Hs as [Hs1 _]; [lia|]. rewrite Hs1. destruct (_ <=? _); rewrite ?length_app; cbn; lia.
Qed.
Lemma obl_va_arg : oblivious va_arg.
Proof.
  apply obl_get. intros ga gb out H. rewrite (so_args _ _ _ H). destruct (g_args gb) as [|a l]; [split; [done|by exists out]|].
  split; [done|]. exists out. destruct H. by split.
Qed.
Lemma obl_write_back p v : oblivious (write_back p v).
Proof. intros ga gb out H. split; [done|]. exists out. destruct H. split; cbn; try done. by f_equal. Qed.

Create HintDb oblivious.
#[local] Hint Resolve obl_ret obl_panic obl_fuel obl_unwrap obl_putchar obl_va_arg obl_write_back : oblivious.
Ltac obl_step :=
  first [ solve [eauto with oblivious] | apply obl_bind; [|intros ?] | case_match ].
Ltac obl := repeat obl_step.

Lemma obl_repeat_char k c : oblivious (repeat_char k c).
Proof. induction k; cbn [repeat_char]; obl. Qed.
Lemma obl_pad_to_width fuel start_pos width : oblivious (pad_to_width fuel start_pos width).
Proof.
  induction fuel as [|fuel IH]; cbn [pad_to_width]; [obl|].
  apply (obl_get_pos (λ p, if wrap 32 (p - start_pos) <? width then _ else _)). intros p. obl.
Qed.
Lemma obl_put_all l : oblivious (put_all l).
Proof. induction l; cbn [put_all]; obl. Qed.
#[local] Hint Resolve obl_repeat_char obl_pad_to_width obl_put_all : oblivious.
Lemma obl_out_rev buf width flags : oblivious (out_rev_ buf width flags).
Proof.
  unfold out_rev_. cbv zeta.
  apply (obl_get_pos (λ p, _ ← _; _ ← _; if has flags FLAGS_LEFT then pad_to_width _ p width else _)). intros p. obl.
Qed.
#[local] Hint Resolve obl_out_rev : oblivious.
Lemma obl_print_integer value negative base precision width flags :
  oblivious (print_integer value negative base precision width flags).
Proof. unfold print_integer, print_integer_finalization. obl. Qed.
Lemma obl_va_int : oblivious va_int.
Proof. unfold va_int. obl. Qed.
#[local] Hint Resolve obl_print_integer obl_va_int : oblivious.
Lemma obl_parse_width flags f : oblivious (parse_width flags f).
Proof. unfold parse_width. obl. Qed.
Lemma obl_parse_precision flags f : oblivious (parse_precision flags f).
Proof. unfold parse_precision. obl. Qed.
Lemma obl_print_number spec precision width flags : oblivious (print_number spec precision width flags).
Proof. unfold print_number, print_signed, print_unsigned, abs_for_printing. obl. Qed.
Lemma obl_print_pointer precision flags : oblivious (print_pointer precision flags).
Proof. unfold print_pointer. obl. Qed.
Lemma obl_print_char width flags : oblivious (print_char width flags).
Proof. unfold print_char, pad_from. obl. Qed.
#[local] Hint Resolve obl_parse_width obl_parse_precision obl_print_number obl_print_pointer obl_print_char : oblivious.
Lemma obl_print_written flags : oblivious (print_written flags).
Proof.
  unfold print_written. apply obl_bind; [obl|]. intros p.
  apply (obl_get_pos (λ v, write_back p (if has flags FLAGS_CHAR then signed_of 8 v else if has flags FLAGS_SHORT then signed_of 16 v
    else if has flags FLAGS_LONG then v else if has flags FLAGS_LONG_LONG then v else signed_of 32 v))).
  intros v. obl.
Qed.
#[local] Hint Resolve obl_print_written : oblivious.

Context (mem : CMem) (sfuel : nat).
Lemma obl_strnlen fuel s maxsize k : oblivious (strnlen_s_ mem fuel s maxsize k).
Proof. revert s maxsize k. induction fuel; intros; cbn [strnlen_s_]; unfold str_at; obl. Qed.
Lemma obl_string_output fuel p precision flags : oblivious (string_output mem fuel p precision flags).
Proof. revert p precision. induction fuel; intros; cbn [string_output]; unfold str_at; obl. Qed.
#[local] Hint Resolve obl_strnlen obl_string_output : oblivious.
Lemma obl_print_string precision width flags : oblivious (print_string mem sfuel precision width flags).
Proof. unfold print_string, pad_from. obl. Qed.
#[local] Hint Resolve obl_print_string : oblivious.
Lemma obl_print_spec precision width flags f : oblivious (print_spec mem sfuel precision width flags f).
Proof. unfold print_spec. obl. Qed.
#[local] Hint Resolve obl_print_spec : oblivious.
Lemma obl_format_loop fuel f : oblivious (format_string_loop mem sfuel fuel f).
Proof. revert f. induction fuel as [|fuel IH]; intros f; cbn [format_string_loop]; obl. Qed.
End truncation.

Lemma overwrite_terminated k b out :
  (S k ≤ length b)%nat → <[length (take k out) := 0]> (overwrite (S k) b out) = take k out ++ [0] ++ drop (S (length (take k out))) b.
Proof.
  intros Hb. unfold overwrite. destruct (decide (length out ≤ k)%nat) as [Hl|Hl].
  - rewrite !take_ge by lia. rewrite insert_app_r_alt, Nat.sub_diag by lia. f_equal.
    destruct (drop (length out) b) as [|x l] eqn:E; [apply (f_equal length) in E; rewrite length_drop in E; cbn in E; lia|].
    cbn. f_equal. replace (S (length out)) with (length out + 1)%nat by lia. by rewrite <-(drop_drop b 1 (length out)), E.
  - destruct (lookup_lt_is_Some_2 out k) as [x Hx]; [lia|]. rewrite (take_S_r _ _ _ Hx). rewrite length_take, Nat.min_l by lia.
    rewrite length_app, length_take, Nat.min_l by lia. rewrite <-app_assoc, insert_app_r_alt by (rewrite length_take; lia).
    rewrite length_take, Nat.min_l, Nat.sub_diag by lia. cbn. by rewrite Nat.add_1_r.
Qed.
Lemma output_start n b args :
  Z.of_nat n ≤ INT_MAX → same_output n b (function_gadget args) (buffer_gadget (Some b) (Z.of_nat n) args) [].
Proof.
  intros Hn. unfold buffer_gadget. rewrite (proj2 (Z.ltb_ge _ _)) by done. split; cbn; try done; [by eexists|].
  intros _. unfold overwrite. by rewrite take_nil.
Qed.

(** What is in the buffer after an output [out], of a buffer of [n] bytes. *)
Definition buffer_after (n : nat) (b out : list Z) : list Z :=
  match n with
  | O => b
  | S k => take k out ++ [0] ++ drop (S (length (take k out))) b
  end.
Lemma vsnprintf_ok mem sfuel b n format args ga :
  format_string_loop mem sfuel (S (length format)) format (function_gadget args) = (Ok tt, ga) →
  Z.of_nat (length (g_emitted ga)) < INT_MAX → Z.of_nat n ≤ INT_MAX → (n ≤ length b)%nat →
  signed_of 32 (g_pos ga) = Z.of_nat (length (g_emitted ga)) ∧
  ∃ g', vsnprintf_ mem sfuel (Some b) (Z.of_nat n) format args = (Ok (Z.of_nat (length (g_emitted ga))), g') ∧
    g_written_back g' = g_written_back ga ∧ g_buffer g' = Some (buffer_after n b (g_emitted ga)).
Proof.
  intros Ea Hlen Hn Hb. unfold vsnprintf_, vsnprintf_impl.
  destruct (obl_format_loop n b Hb mem sfuel (S (length format)) format _ _ _ (output_start n b args Hn)) as (E & out & H).
  unfold mbind, M_bind in *. rewrite Ea in E, H.
  destruct (format_string_loop mem sfuel (S (length format)) format (buffer_gadget (Some b) (Z.of_nat n) args)) as [rb gb] eqn:Eb.
  cbn [fst snd] in E, H. subst rb. destruct H as [[Fa Ma] [Fb Mb] [Pa Pb] _ Hw _ Hs Hl].
  unfold append_termination_with_gadget, mbind, M_bind, get_state in *.
  destruct (decide (Z.of_nat (length out) ≤ INT_MAX)) as [Hsm|Hbig]; [|specialize (Hl ltac:(lia)); lia].
  destruct (Hs Hsm) as [Eo Ebuf]. rewrite Eo in *. unfold INT_MAX in *. rewrite wrap_small in Pa, Pb by lia.
  assert (signed_of 32 (Z.of_nat (length out)) = Z.of_nat (length out)) as Er.
  { unfold signed_of. rewrite wrap_small by lia. by rewrite (proj2 (Z.ltb_lt _ _)) by lia. }
  rewrite Pa. split; [exact Er|]. rewrite Fb, Mb. cbn [orb]. destruct n as [|k].
  - exists gb. change (Z.of_nat 0 =? 0) with true. unfold mret, M_ret. cbv beta iota. rewrite Pb, Er. split; [done|]. split; [done|].
    rewrite Ebuf. unfold overwrite. by rewrite take_0.
  - rewrite (proj2 (Z.eqb_neq (Z.of_nat (S k)) 0)), Ebuf by lia. unfold store_char, mbind, M_bind, get_state, set_buffer, modify.
    rewrite Ebuf, Pb, overwrite_length by lia.
    replace (if Z.of_nat (length out) <? Z.of_nat (S k) then Z.of_nat (length out) else Z.of_nat (S k) - 1)
      with (Z.of_nat (length (take k out))) by (rewrite length_take; destruct (Z.ltb_spec (Z.of_nat (length out)) (Z.of_nat (S k))); lia).
    rewrite (proj2 (Z.ltb_lt _ _)) by (rewrite length_take; lia). unfold mret, M_ret. cbv beta iota. rewrite Nat2Z.id.
    eexists. split; [cbn; by rewrite Pb, Er|]. split; [done|]. cbn [g_buffer]. f_equal. by apply overwrite_terminated.
Qed.

(** [snprintf] writes into its buffer what the same call with an output function passes to it, cut to
    the size of the buffer: at most [n - 1] characters, then a zero, and the bytes behind it stay.  It
    returns the length of the whole output, also when that does not fit. *)
Theorem snprintf_truncates mem sfuel b n format args r g :
  vfctprintf mem sfuel format args = (Ok r, g) → Z.of_nat (length (g_emitted g)) < INT_MAX →
  Z.of_nat n ≤ INT_MAX → (n ≤ length b)%nat →
  r = Z.of_nat (length (g_emitted g)) ∧
  ∃ g', vsnprintf_ mem sfuel (Some b) (Z.of_nat n) format args = (Ok r, g') ∧ g_written_back g' = g_written_back g ∧
    g_buffer g' = Some (buffer_after n b (g_emitted g)).
Proof.
  intros Hf Hlen Hn Hb. unfold vfctprintf, vsnprintf_impl, mbind, M_bind in Hf.
  destruct (format_string_loop mem sfuel (S (length format)) format (function_gadget args)) as [ra ga] eqn:Ea.
  destruct ra as [[]| | |]; try done.
  assert (append_termination_with_gadget ga = (Ok tt, ga) → r = signed_of 32 (g_pos ga) ∧ g = ga) as Hg.
  { intros E. rewrite E in Hf. by injection Hf as <- <-. }
  assert (g_function ga = true) as Fa.
  { destruct (obl_format_loop n b Hb mem sfuel (S (length format)) format _ _ _ (output_start n b args Hn)) as (_ & out & H).
    rewrite Ea in H. apply H. }
  destruct Hg as [-> ->]; [unfold append_termination_with_gadget, mbind, M_bind, get_state; by rewrite Fa|].
  destruct (vsnprintf_ok mem sfuel b n format args ga Ea Hlen Hn Hb) as (Er & H). by rewrite Er.
Qed.

(** ** Integers *)

(** A function gadget with more output. *)
Definition after (g : Gadget) (out : list Z) : Gadget :=
  {| g_function := g_function g; g_emitted := g_emitted g ++ out; g_buffer := g_buffer g; g_pos := g_pos g + Z.of_nat (length out);
     g_max_chars := g_max_chars g; g_args := g_args g; g_written_back := g_written_back g |}.
Record room (g : Gadget) (k : nat) : Prop := {
  rm_function : g_function g = true;
  rm_max : g_max_chars g = PRINTF_MAX_POSSIBLE_BUFFER_SIZE;
  rm_pos : 0 ≤ g_pos g;
  rm_room : g_pos g + Z.of_nat k ≤ INT_MAX;
}.
Definition emits (m : PM unit) (out : list Z) : Prop :=
  Forall is_byte out → ∀ g, room g (length out) → m g = (Ok tt, after g out).

Lemma after_nil g : after g [] = g.
Proof. unfold after. rewrite app_nil_r. cbn. rewrite Z.add_0_r. by destruct g. Qed.
Lemma after_app g o1 o2 : after (after g o1) o2 = after g (o1 ++ o2).
Proof. unfold after. cbn. rewrite app_assoc, length_app. f_equal. lia. Qed.
Lemma room_app g o1 o2 : room g (length (o1 ++ o2)) → room g (length o1) ∧ room (after g o1) (length o2).
Proof. rewrite length_app. intros [H1 H2 H3 H4]. split; split; cbn; try done; lia. Qed.

Lemma emits_nil : emits (mret tt) [].
Proof. intros _ g _. by rewrite after_nil. Qed.
Lemma emits_app m1 m2 o1 o2 : emits m1 o1 → emits m2 o2 → emits (_ ← m1; m2) (o1 ++ o2).
Proof.
  intros H1 H2 [B1 B2]%Forall_app g Hr. destruct (room_app g o1 o2 Hr) as [R1 R2].
  erewrite M_bind_ok by (by apply H1). rewrite <-after_app. by apply H2.
Qed.
Lemma emits_putchar c : emits (putchar_via_gadget c) [c].
Proof.
  intros [Hc _]%Forall_cons g [HF HM HP HR]. rewrite putchar_function by done. unfold is_byte in Hc.
  unfold PRINTF_MAX_POSSIBLE_BUFFER_SIZE, INT_MAX in *. cbn [length] in HR.
  rewrite HM, (proj2 (Z.leb_gt _ _)), (wrap_small 8), wrap_small by lia. unfold after. by rewrite HF, HM.
Qed.
Lemma emits_repeat k c : emits (repeat_char k c) (replicate k c).
Proof. induction k as [|k IH]; [apply emits_nil|]. apply (emits_app _ _ [c]); [apply emits_putchar|done]. Qed.
Lemma emits_put_all l : emits (put_all l) l.
Proof. induction l as [|c l IH]; [apply emits_nil|]. apply (emits_app _ _ [c]); [apply emits_putchar|done]. Qed.

Definition spaces (width : Z) (l : list Z) : list Z := replicate (Z.to_nat (width - Z.of_nat (length l))) 32.
(** The padding behind the text of a field that started with [l]. *)
Lemma pad_to_width_ok fuel g l width start :
  (Z.to_nat (width - Z.of_nat (length l)) < fuel)%nat → 0 ≤ width ≤ INT_MAX → g_pos g = start + Z.of_nat (length l) → 0 ≤ start →
  room g (length (spaces width l)) →
  pad_to_width fuel start width g = (Ok tt, after g (spaces width l)).
Proof.
  revert g l. induction fuel as [|fuel IH]; intros g l Hf Hw Hp Hs Hr; [lia|]. cbn [pad_to_width].
  unfold mbind at 1, M_bind at 1, get_state. unfold INT_MAX in *. destruct (Hr) as [_ _ _ HR]. unfold INT_MAX in HR.
  rewrite Hp. replace (start + Z.of_nat (length l) - start) with (Z.of_nat (length l)) by lia.
  rewrite wrap_small by lia. destruct (Z.ltb_spec (Z.of_nat (length l)) width) as [Hlt|Hge].
  - assert (spaces width l = [32] ++ spaces width (l ++ [32])) as E.
    { unfold spaces. rewrite length_app. cbn [length]. replace (Z.to_nat (width - Z.of_nat (length l)))
        with (S (Z.to_nat (width - Z.of_nat (length l + 1)))) by lia. done. }
    rewrite E in *. destruct (room_app g [32] _ Hr) as [R1 R2].
    erewrite M_bind_ok by (apply emits_putchar; [repeat constructor; lia|done]).
    rewrite (IH _ (l ++ [32])); [by rewrite after_app|rewrite length_app; cbn; lia|done| |done|done].
    cbn. rewrite Hp, length_app. cbn. lia.
  - unfold spaces. replace (Z.to_nat (width - Z.of_nat (length l))) with 0%nat by lia. by rewrite after_nil.
Qed.

(** What the C standard says of a number with the given digits, a field width and a precision. *)
Record Style : Set := { st_left : bool; st_zero : bool; st_plus : bool; st_space : bool }.
Definition zeros (n : Z) (l : list Z) : list Z := replicate (Z.to_nat (n - Z.of_nat (length l))) 48 ++ l.
Definition sign_text (negative : bool) (st : Style) : list Z :=
  if negative then [45] else if st_plus st then [43] else if st_space st then [32] else [].
Definition c_number (negative : bool) (digits : list Z) (precision width : Z) (st : Style) : list Z :=
  let sign := sign_text negative st in
  let body := zeros precision digits in
  if st_left st then (sign ++ body) ++ spaces width (sign ++ body)
  else if st_zero st then sign ++ zeros (width - Z.of_nat (length sign)) body
  else spaces width (sign ++ body) ++ sign ++ body.
Definition style_of (flags : Z) : Style :=
  {| st_left := has flags FLAGS_LEFT; st_zero := has flags FLAGS_ZEROPAD; st_plus := has flags FLAGS_PLUS; st_space := has flags FLAGS_SPACE |}.

Lemma emits_out_rev buf width flags :
  0 ≤ width ≤ INT_MAX →
  emits (out_rev_ buf width flags)
    (if has flags FLAGS_LEFT then reverse buf ++ spaces width (reverse buf)
     else if has flags FLAGS_ZEROPAD then reverse buf else spaces width (reverse buf) ++ reverse buf).
Proof.
  intros Hw Hb g Hr. unfold out_rev_. unfold mbind at 1, M_bind at 1, get_state. cbv zeta.
  destruct (has flags FLAGS_LEFT); cbn [andb negb].
  - erewrite M_bind_ok by done. destruct (room_app g _ _ Hr) as [R1 R2]. apply Forall_app in Hb as [B1 B2].
    erewrite M_bind_ok by (by apply emits_put_all). rewrite <-after_app. apply pad_to_width_ok; try done; [lia|apply Hr].
  - destruct (has flags FLAGS_ZEROPAD); cbn [negb].
    + erewrite M_bind_ok by done. erewrite M_bind_ok by (by apply emits_put_all). done.
    + destruct (room_app g _ _ Hr) as [R1 R2]. apply Forall_app in Hb as [B1 B2]. unfold spaces in *.
      rewrite <-(length_reverse buf) at 1.
      erewrite M_bind_ok by (by apply emits_repeat). erewrite M_bind_ok by (by apply emits_put_all). by rewrite after_app.
Qed.

Lemma reverse_fill buf n : n ≤ 32 → reverse (fill_zeros buf n) = zeros n (reverse buf).
Proof.
  intros Hn. unfold fill_zeros, zeros, PRINTF_INTEGER_BUFFER_SIZE. rewrite reverse_app, reverse_replicate, length_reverse.
  do 2 f_equal. lia.
Qed.
Lemma zeros_length n l : length (zeros n l) = Nat.max (Z.to_nat n) (length l).
Proof. unfold zeros. rewrite length_app, length_replicate. lia. Qed.
Lemma zeros_zeros a b l : zeros a (zeros b l) = zeros (Z.max a b) l.
Proof.
  unfold zeros. rewrite length_app, length_replicate, app_assoc, <-replicate_add. do 2 f_equal. lia.
Qed.
Lemma push_char_ok buf c : (length buf < 32)%nat → push_char buf c = buf ++ [c].
Proof. intros Hl. unfold push_char, PRINTF_INTEGER_BUFFER_SIZE. by rewrite (proj2 (Nat.ltb_lt _ _)) by done. Qed.
Lemma reverse_sign buf negative flags :
  (length buf < 32)%nat → reverse (finalize_sign buf negative flags) = sign_text negative (style_of flags) ++ reverse buf.
Proof.
  intros Hl. unfold finalize_sign, sign_text, style_of. cbn.
  destruct negative; [|destruct (has flags FLAGS_PLUS); [|destruct (has flags FLAGS_SPACE); [|done]]];
    by rewrite push_char_ok, reverse_app by done.
Qed.

(** ** Flags *)

Lemma has_bit flags k : 0 ≤ k → has flags (2 ^ k) = Z.testbit flags k.
Proof. intros Hk. unfold has. rewrite <-Z.shiftl_1_l, land_bit_zero by done. apply negb_involutive. Qed.
Lemma has_lor flags m1 m2 : has flags (Z.lor m1 m2) = (has flags m1 || has flags m2)%bool.
Proof.
  unfold has. rewrite <-negb_andb. f_equal. apply eq_true_iff_eq. rewrite andb_true_iff, !Z.eqb_eq, Z.land_lor_distr_r, Z.lor_eq_0_iff. done.
Qed.
Lemma lor_has f1 f2 m : has (Z.lor f1 f2) m = (has f1 m || has f2 m)%bool.
Proof. unfold has. rewrite !(Z.land_comm _ m). apply (has_lor m f1 f2). Qed.
Lemma has_clear flags m m' : Z.land m m' = 0 → has (clear_flags flags m) m' = has flags m'.
Proof.
  intros Hd. unfold has, clear_flags. do 2 f_equal. apply Z.bits_inj_iff. intros i. rewrite !Z.land_spec, Z.ldiff_spec.
  apply (f_equal (λ z, Z.testbit z i)) in Hd. rewrite Z.land_spec, Z.testbit_0_l in Hd.
  destruct (Z.testbit flags i), (Z.testbit m i), (Z.testbit m' i); done.
Qed.
Lemma has_cleared flags m : has (clear_flags flags m) m = false.
Proof. unfold has, clear_flags. by rewrite Z.land_ldiff. Qed.
Lemma clear_absent flags m : has flags m = false → clear_flags flags m = flags.
Proof.
  unfold has, clear_flags. intros E%negb_false_iff%Z.eqb_eq. apply Z.bits_inj_iff. intros i. rewrite Z.ldiff_spec.
  apply (f_equal (λ z, Z.testbit z i)) in E. rewrite Z.land_spec, Z.testbit_0_l in E.
  destruct (Z.testbit flags i), (Z.testbit m i); done.
Qed.

(** The zeros before the digits, and the width that is left for the field. *)
Lemma finalize_zeros_ok buf negative precision width flags :
  (length buf ≤ 22)%nat → 0 ≤ precision ≤ 31 → 0 ≤ width ≤ 31 →
  let '(buf', width') := finalize_zeros buf negative precision width flags in
  let st := style_of flags in
  (length buf' < 32)%nat ∧ 0 ≤ width' ≤ 31 ∧ (has flags FLAGS_ZEROPAD = false ∨ has flags FLAGS_LEFT = true → width' = width) ∧
  reverse buf' = if (st_zero st && negb (st_left st))%bool
                 then zeros (width - Z.of_nat (length (sign_text negative st))) (zeros precision (reverse buf))
                 else zeros precision (reverse buf).
Proof.
  intros Hl Hp Hw. unfold finalize_zeros. cbn [style_of st_zero st_left].
  assert (∀ l n, (length l < 32)%nat → n ≤ 31 → (length (fill_zeros l n) < 32)%nat) as Hfl.
  { intros l n Hll Hn. rewrite <-length_reverse, reverse_fill, zeros_length, length_reverse by lia. lia. }
  destruct (has flags FLAGS_LEFT); cbn [negb].
  { rewrite andb_false_r. split; [apply Hfl; lia|]. split; [done|]. split; [done|]. by rewrite reverse_fill by lia. }
  destruct (has flags FLAGS_ZEROPAD) eqn:Ezp; cbn [andb negb]; rewrite ?andb_false_r; cbn [andb].
  2: { split; [apply Hfl; lia|]. split; [done|]. split; [done|]. by rewrite reverse_fill by lia. }
  rewrite andb_true_r. set (w := if (negb (width =? 0) && (negative || has flags (Z.lor FLAGS_PLUS FLAGS_SPACE)))%bool then width - 1 else width).
  assert (0 ≤ w ≤ 31 ∧ Z.max precision w = Z.max (width - Z.of_nat (length (sign_text negative (style_of flags)))) precision) as [Hw1 Hmax].
  { unfold w, sign_text, style_of. rewrite has_lor. cbn [st_plus st_space]. destruct (Z.eqb_spec width 0); cbn [negb andb];
      destruct negative, (has flags FLAGS_PLUS), (has flags FLAGS_SPACE); cbn [orb length]; lia. }
  split; [apply Hfl; [apply Hfl; lia|lia]|]. split; [lia|]. split; [intros [|]; done|].
  by rewrite !reverse_fill, !zeros_zeros, Hmax by lia.
Qed.
Lemma finalization_emits buf negative base precision width flags :
  (length buf ≤ 22)%nat → 0 ≤ precision ≤ 31 → 0 ≤ width ≤ 31 → has flags FLAGS_HASH = false → has flags FLAGS_POINTER = false →
  emits (print_integer_finalization buf negative base precision width flags)
    (c_number negative (reverse buf) precision width (style_of flags)).
Proof.
  intros Hl Hp Hw Hh Hpt. unfold print_integer_finalization.
  pose proof (finalize_zeros_ok buf negative precision width flags Hl Hp Hw) as Hz.
  destruct (finalize_zeros buf negative precision width flags) as [buf' width']. destruct Hz as (Hl' & Hw' & Hww & Hrev).
  assert ((if ((base =? 8) && (length buf <? length buf')%nat)%bool then clear_flags flags FLAGS_HASH else flags) = flags) as ->
    by (destruct ((base =? 8) && (length buf <? length buf')%nat)%bool; [by apply clear_absent|done]).
  assert (finalize_hash (length buf) buf' base precision width' flags = buf') as ->
    by (unfold finalize_hash; by rewrite has_lor, Hh, Hpt).
  pose proof (emits_out_rev (finalize_sign buf' negative flags) width' flags ltac:(unfold INT_MAX; lia)) as He.
  rewrite reverse_sign, Hrev in He by done. unfold c_number. cbn [style_of st_left st_zero] in *.
  destruct (has flags FLAGS_LEFT) eqn:El; [|destruct (has flags FLAGS_ZEROPAD) eqn:Ezp]; cbn [andb negb] in *; rewrite ?andb_false_r in He.
  - by rewrite Hww in * by (by right).
  - exact He.
  - by rewrite Hww in * by (by left).
Qed.

(** ** Digits *)

Lemma digit_of_char base flags d : 2 ≤ base ≤ 16 → 0 ≤ d < base → digit_of base (digit_char_of flags d) = Some d ∧ is_byte (digit_char_of flags d).
Proof.
  intros Hb Hd. assert (d = 0 ∨ d = 1 ∨ d = 2 ∨ d = 3 ∨ d = 4 ∨ d = 5 ∨ d = 6 ∨ d = 7 ∨ d = 8 ∨ d = 9 ∨
    d = 10 ∨ d = 11 ∨ d = 12 ∨ d = 13 ∨ d = 14 ∨ d = 15) as Hc by lia.
  assert (∀ c, digit_char c = Some d → digit_of base c = Some d) as Hdc
    by (intros c E; unfold digit_of; by rewrite E, (proj2 (Z.leb_gt _ _)) by lia).
  unfold digit_char_of, is_byte. clear Hb.
  split; [apply Hdc|]; clear Hdc Hd; destruct (has flags FLAGS_UPPERCASE);
    repeat destruct Hc as [->|Hc]; subst; try reflexivity; cbn; lia.
Qed.
Lemma digits_loop_ok room v base flags :
  2 ≤ base ≤ 16 → 0 ≤ v < base ^ Z.of_nat (S room) →
  value base (reverse (digits_loop (S room) v base flags)) 0 = v ∧
  digits base (reverse (digits_loop (S room) v base flags)) ∧
  (0 < length (digits_loop (S room) v base flags))%nat.
Proof.
  intros Hb. revert v. induction room as [|room IH]; intros v Hv.
  - assert (0 ≤ v < base) as Hv' by (rewrite Z.pow_1_r in Hv; lia). cbn [digits_loop]. rewrite Z.div_small, Z.mod_small by lia. cbn [Z.eqb].
    destruct (digit_of_char base flags v Hb Hv') as [Hd Hby]. rewrite reverse_singleton. unfold value, digits. cbn [foldl].
    rewrite Hd. cbn. split; [lia|]. split; [|lia]. constructor; [split; [done|by eexists]|constructor].
  - remember (S room) as r eqn:Er. cbn [digits_loop]. subst r.
    pose proof (Z.mod_pos_bound v base ltac:(lia)) as Hm. destruct (digit_of_char base flags (v mod base) Hb Hm) as [Hd Hby].
    rewrite reverse_cons. unfold value, digits. rewrite foldl_app, Forall_app. cbn [foldl]. rewrite Hd. cbn [default from_option].
    assert (Forall (λ c, is_byte c ∧ is_Some (digit_of base c)) [digit_char_of flags (v mod base)]) as Hone by (constructor; [split; [done|by eexists]|constructor]).
    pose proof (Z.div_mod v base ltac:(lia)) as Hdm. destruct (Z.eqb_spec (v / base) 0) as [E|E].
    + cbn. unfold id. split; [lia|]. split; [by split|lia].
    + rewrite (Nat2Z.inj_succ (S room)), Z.pow_succ_r in Hv by lia.
      destruct (IH (v / base)) as (IH1 & IH2 & IH3).
      { split; [apply Z.div_pos; lia|]. apply Z.div_lt_upper_bound; lia. }
      unfold value, digits in IH1, IH2. rewrite IH1. unfold id. split; [lia|]. split; [done|]. cbn [length]. lia.
Qed.
Lemma digits_loop_length room v base flags (k : nat) :
  2 ≤ base → 0 ≤ v < base ^ Z.of_nat k → (0 < k)%nat → (length (digits_loop room v base flags) ≤ k)%nat.
Proof.
  intros Hb. revert v k. induction room as [|room IH]; intros v k Hv Hk; cbn [digits_loop length]; [lia|].
  destruct (Z.eqb_spec (v / base) 0) as [E|E]; cbn [length]; [lia|]. destruct k as [|k]; [lia|].
  rewrite Nat2Z.inj_succ, Z.pow_succ_r in Hv by lia.
  assert (0 < v / base < base ^ Z.of_nat k) as Hd.
  { split; [pose proof (Z.div_pos v base); lia|]. apply Z.div_lt_upper_bound; lia. }
  destruct k as [|k]; [cbn in Hd; lia|]. specialize (IH (v / base) (S k) ltac:(lia) ltac:(lia)). lia.
Qed.

(** No digit is superfluous. *)
Lemma digits_loop_minimal room v base flags :
  2 ≤ base → 0 < v < base ^ Z.of_nat room → base ^ (Z.of_nat (length (digits_loop room v base flags)) - 1) ≤ v.
Proof.
  intros Hb. revert v. induction room as [|room IH]; intros v Hv; [cbn in Hv; lia|]. cbn [digits_loop].
  pose proof (Z.div_mod v base ltac:(lia)) as Hdm. pose proof (Z.mod_pos_bound v base ltac:(lia)) as Hm.
  destruct (Z.eqb_spec (v / base) 0) as [E|E]; cbn [length]; [change (Z.of_nat 1 - 1) with 0; lia|].
  rewrite Nat2Z.inj_succ, Z.pow_succ_r in Hv by lia. pose proof (Z.div_pos v base ltac:(lia) ltac:(lia)) as Hpos.
  specialize (IH (v / base) ltac:(split; [lia|]; apply Z.div_lt_upper_bound; lia)).
  destruct (digits_loop room (v / base) base flags) as [|x l] eqn:El; [cbn; lia|].
  replace (Z.of_nat (S (length (x :: l))) - 1) with (Z.succ (Z.of_nat (length (x :: l)) - 1)) by lia.
  rewrite Z.pow_succ_r by (cbn [length]; lia). nia.
Qed.

(** The digits of a number: none for zero when a precision is given. *)
Definition number_text (v base flags : Z) : list Z :=
  if v =? 0 then if has flags FLAGS_PRECISION then [] else [48]
  else reverse (digits_loop PRINTF_INTEGER_BUFFER_SIZE v base flags).
Lemma print_integer_emits v negative base precision width flags :
  0 ≤ v < 2 ^ 64 → 8 ≤ base ≤ 16 → 0 ≤ precision ≤ 31 → 0 ≤ width ≤ 31 →
  has flags FLAGS_HASH = false → has flags FLAGS_POINTER = false →
  emits (print_integer v negative base precision width flags)
    (c_number negative (number_text v base flags) precision width (style_of flags)).
Proof.
  intros Hv Hb Hp Hw Hh Hpt. unfold print_integer, number_text. destruct (Z.eqb_spec v 0) as [->|Hv0].
  - destruct (has flags FLAGS_PRECISION); cbn [negb]; rewrite ?clear_absent by done.
    + destruct (base =? 16); apply (finalization_emits []); cbn; try done; lia.
    + apply (finalization_emits [48]); cbn; try done; lia.
  - apply finalization_emits; try done. apply digits_loop_length; [lia| |lia]. split; [lia|].
    apply Z.lt_le_trans with (8 ^ 22); [lia|]. apply Z.pow_le_mono_l. lia.
Qed.

(** ** Directives *)

(** [%], flags, width, precision, the length [l], and a conversion. *)
Record Directive : Set := { d_flags : list Z; d_width : list Z; d_precision : option (list Z); d_long : bool; d_conv : Z }.
Definition precision_text (p : option (list Z)) : list Z := match p with None => [] | Some ds => 46 :: ds end.
Definition directive_text (d : Directive) : list Z :=
  [37] ++ d_flags d ++ d_width d ++ precision_text (d_precision d) ++ (if d_long d then [108] else []) ++ [d_conv d].
Definition number_in (ds : list Z) : Prop := Forall (λ c, 48 ≤ c < 58) ds ∧ decimal ds 0 ≤ 31.
Record directive_ok (d : Directive) : Prop := {
  do_flags : Forall (λ c, c ∈ [48; 45; 43; 32]) (d_flags d);
  do_width : number_in (d_width d) ∧ at_ (d_width d) ≠ 48;
  do_precision : ∀ ds, d_precision d = Some ds → number_in ds;
  do_conv : d_conv d ∈ [100; 105; 117; 120; 88; 111];
}.
Definition flags_of (fl : list Z) : Z := foldl (λ a c, Z.lor a (default 0 (flag_of c))) 0 fl.

Lemma parse_flags_ok fl rest a :
  Forall (λ c, c ∈ [48; 45; 43; 32]) fl → flag_of (at_ rest) = None →
  parse_flags a (fl ++ rest) = (foldl (λ a c, Z.lor a (default 0 (flag_of c))) a fl, rest).
Proof.
  intros Hf Hr. revert a. induction Hf as [|c fl Hc _ IH]; intros a.
  - destruct rest as [|r rest]; [done|]. cbn in *. by rewrite Hr.
  - cbn [app parse_flags foldl]. rewrite !elem_of_cons, elem_of_nil in Hc.
    assert (∃ m, flag_of c = Some m) as [m Hm] by (destruct Hc as [->|[->|[->|[->|[]]]]]; by eexists).
    rewrite Hm. apply IH.
Qed.
Lemma atou_ok ds rest i :
  Forall (λ c, 48 ≤ c < 58) ds → is_digit_ (at_ rest) = false → 0 ≤ i → decimal ds i < 2 ^ 32 →
  atou_ i (ds ++ rest) = (decimal ds i, rest).
Proof.
  intros Hd Hr. revert i. induction Hd as [|c ds Hc Hds IH]; intros i Hi Hv.
  - destruct rest as [|r rest]; [done|]. cbn in *. by rewrite Hr.
  - cbn [app atou_ decimal foldl] in *. unfold decimal in Hv. cbn [foldl] in Hv. fold (decimal ds (i * 10 + (c - 48))) in *.
    replace (is_digit_ c) with true by (unfold is_digit_; lia).
    pose proof (decimal_mono ds (i * 10 + (c - 48)) Hds ltac:(lia)) as Hmn.
    rewrite (wrap_small 32 (i * 10)), wrap_small by lia. by apply IH; [lia|].
Qed.

Lemma flags_of_range fl a :
  Forall (λ c, c ∈ [48; 45; 43; 32]) fl → 0 ≤ a < 16 → 0 ≤ foldl (λ a c, Z.lor a (default 0 (flag_of c))) a fl < 16.
Proof.
  intros Hf. revert a. induction Hf as [|c fl Hc _ IH]; intros a Ha; [done|]. apply IH.
  rewrite !elem_of_cons, elem_of_nil in Hc.
  assert (0 ≤ default 0 (flag_of c) < 2 ^ 4) as Hm by (destruct Hc as [->|[->|[->|[->|[]]]]]; (split; [discriminate|reflexivity])).
  apply (lor_bounded _ _ 4); lia.
Qed.
Lemma has_flags_of fl c m a :
  Forall (λ c, c ∈ [48; 45; 43; 32]) fl → c ∈ [48; 45; 43; 32] → flag_of c = Some m →
  has (foldl (λ a c, Z.lor a (default 0 (flag_of c))) a fl) m = (has a m || bool_decide (c ∈ fl))%bool.
Proof.
  intros Hf Hc Hm. revert a. induction Hf as [|x fl Hx _ IH]; intros a; cbn [foldl].
  - by rewrite bool_decide_false, orb_false_r by apply not_elem_of_nil.
  - rewrite IH, lor_has, <-orb_assoc. f_equal.
    assert (has (default 0 (flag_of x)) m = bool_decide (c = x)) as ->.
    { clear IH. rewrite !elem_of_cons, elem_of_nil in Hc, Hx.
      destruct Hc as [->|[->|[->|[->|[]]]]]; injection Hm as <-; destruct Hx as [->|[->|[->|[->|[]]]]]; reflexivity. }
    rewrite <-bool_decide_or. apply bool_decide_ext. by rewrite elem_of_cons.
Qed.

(** The flags with which a number is printed. *)
Definition spec_flags (conv F : Z) (precision long : bool) : Z :=
  let f := if precision then Z.lor F FLAGS_PRECISION else F in
  let f := flags_of_spec conv (if long then Z.lor f FLAGS_LONG else f) in
  if is_signed_spec conv then f else clear_flags f (Z.lor FLAGS_PLUS FLAGS_SPACE).
Definition flags_fact (conv F : Z) (precision long : bool) : bool :=
  let f := spec_flags conv F precision long in
  let signed := is_signed_spec conv in
  let st := style_of f in
  (negb (has f FLAGS_HASH) && negb (has f FLAGS_POINTER) && negb (has f FLAGS_LONG_LONG) && negb (has f FLAGS_CHAR) &&
   negb (has f FLAGS_SHORT) && eqb (has f FLAGS_LONG) long && eqb (has f FLAGS_PRECISION) precision &&
   eqb (has f FLAGS_UPPERCASE) (conv =? 88) && eqb (st_left st) (has F FLAGS_LEFT) && eqb (st_zero st) (has F FLAGS_ZEROPAD && negb precision) &&
   eqb (st_plus st) (signed && has F FLAGS_PLUS) && eqb (st_space st) (signed && has F FLAGS_SPACE) &&
   eqb (has (flags_of_spec conv (let f := if precision then Z.lor F FLAGS_PRECISION else F in if long then Z.lor f FLAGS_LONG else f)) FLAGS_SIGNED) signed)%bool.
Lemma flags_facts conv F precision long :
  0 ≤ F < 16 → conv ∈ [100; 105; 117; 120; 88; 111] → flags_fact conv F precision long = true.
Proof.
  intros HF Hc. rewrite !elem_of_cons, elem_of_nil in Hc.
  apply (all_from_spec (λ F, flags_fact conv F precision long) 16 0); [|lia].
  destruct Hc as [->|[->|[->|[->|[->|[->|[]]]]]]], precision, long; reflexivity.
Qed.

(** ** The text of a directive *)

Definition directive_style (d : Directive) : Style :=
  let signed := is_signed_spec (d_conv d) in
  {| st_left := bool_decide (45 ∈ d_flags d);
     st_zero := (bool_decide (48 ∈ d_flags d) && negb (bool_decide (is_Some (d_precision d))))%bool;
     st_plus := (signed && bool_decide (43 ∈ d_flags d))%bool;
     st_space := (signed && bool_decide (32 ∈ d_flags d))%bool |}.
(** The number that an argument stands for. *)
Definition directive_value (d : Directive) (a : Z) : Z :=
  let w := if d_long d then 64 else 32 in if is_signed_spec (d_conv d) then signed_of w a else wrap w a.
Definition directive_digits (d : Directive) (v : Z) : list Z :=
  number_text (Z.abs v) (base_of_spec (d_conv d)) (spec_flags (d_conv d) 0 (bool_decide (is_Some (d_precision d))) (d_long d)).
Definition directive_output (d : Directive) (a : Z) : list Z :=
  let v := directive_value d a in
  c_number (v <? 0) (directive_digits d v) (default 0 ((λ ds, decimal ds 0) <$> d_precision d)) (decimal (d_width d) 0) (directive_style d).

Lemma number_text_ext v base f1 f2 :
  has f1 FLAGS_PRECISION = has f2 FLAGS_PRECISION → has f1 FLAGS_UPPERCASE = has f2 FLAGS_UPPERCASE →
  number_text v base f1 = number_text v base f2.
Proof.
  intros Hp Hu. unfold number_text. rewrite Hp. destruct (v =? 0); [done|]. apply (f_equal reverse).
  generalize PRINTF_INTEGER_BUFFER_SIZE. intros n. revert v. induction n as [|n IH]; intros v; cbn [digits_loop]; [done|].
  unfold digit_char_of. rewrite Hu, IH. done.
Qed.

Definition with_args (l : list Z) (g : Gadget) : Gadget :=
  {| g_function := g_function g; g_emitted := g_emitted g; g_buffer := g_buffer g; g_pos := g_pos g; g_max_chars := g_max_chars g;
     g_args := l; g_written_back := g_written_back g |}.
Lemma va_arg_ok g a l : g_args g = a :: l → va_arg g = (Ok a, with_args l g).
Proof. intros E. unfold va_arg, mbind, M_bind, get_state. by rewrite E. Qed.

Lemma signed_of_range w a : 0 < w → - 2 ^ (w - 1) ≤ signed_of w a < 2 ^ (w - 1).
Proof.
  intros Hw. unfold signed_of. pose proof (wrap_range w a ltac:(lia)) as Hr.
  assert (2 ^ w = 2 * 2 ^ (w - 1)) by (rewrite <-Z.pow_succ_r by lia; f_equal; lia).
  destruct (Z.ltb_spec (wrap w a) (2 ^ (w - 1))); lia.
Qed.
Lemma base_range conv : conv ∈ [100; 105; 117; 120; 88; 111] → 8 ≤ base_of_spec conv ≤ 16.
Proof. rewrite !elem_of_cons, elem_of_nil. by intros [->|[->|[->|[->|[->|[->|[]]]]]]]. Qed.

(** The flags of a directive, as the functions that print a number see them. *)
Record FlagsOf (d : Directive) (f : Z) : Prop := {
  fo_hash : has f FLAGS_HASH = false; fo_pointer : has f FLAGS_POINTER = false; fo_ll : has f FLAGS_LONG_LONG = false;
  fo_char : has f FLAGS_CHAR = false; fo_short : has f FLAGS_SHORT = false; fo_long : has f FLAGS_LONG = d_long d;
  fo_style : style_of f = directive_style d;
  fo_digits : ∀ v, number_text (Z.abs v) (base_of_spec (d_conv d)) f = directive_digits d v;
}.
Definition directive_flags (d : Directive) : Z :=
  let F := flags_of (d_flags d) in
  let f := if bool_decide (is_Some (d_precision d)) then Z.lor F FLAGS_PRECISION else F in
  if d_long d then Z.lor f FLAGS_LONG else f.
Lemma directive_flags_ok d :
  directive_ok d →
  let f := flags_of_spec (d_conv d) (directive_flags d) in
  has f FLAGS_SIGNED = is_signed_spec (d_conv d) ∧
  FlagsOf d (if is_signed_spec (d_conv d) then f else clear_flags f (Z.lor FLAGS_PLUS FLAGS_SPACE)).
Proof.
  intros [Hfl _ _ Hconv] f. set (pr := bool_decide (is_Some (d_precision d))) in *.
  set (F := flags_of (d_flags d)) in *. assert (0 ≤ F < 16) as HFr by (apply flags_of_range; [done|lia]).
  pose proof (flags_facts (d_conv d) F pr (d_long d) HFr Hconv) as Hfacts. unfold flags_fact in Hfacts.
  rewrite !andb_true_iff, !negb_true_iff, !eqb_true_iff in Hfacts.
  destruct Hfacts as [[[[[[[[[[[[Hh Hpt] Hll] Hch] Hsh] Hlo] Hprec] Hup] Hl] Hz] Hpl] Hsp] Hsg].
  split; [exact Hsg|]. change (FlagsOf d (spec_flags (d_conv d) F pr (d_long d))).
  set (f' := spec_flags (d_conv d) F pr (d_long d)) in *. split; try assumption.
  - unfold directive_style. unfold style_of in *. cbn in Hl, Hz, Hpl, Hsp. rewrite Hl, Hz, Hpl, Hsp. unfold F, flags_of.
    rewrite (has_flags_of _ 45 FLAGS_LEFT), (has_flags_of _ 48 FLAGS_ZEROPAD), (has_flags_of _ 43 FLAGS_PLUS), (has_flags_of _ 32 FLAGS_SPACE)
      by (first [done|set_solver]). done.
  - intros v. assert (0 ≤ 0 < 16) as H0 by lia. pose proof (flags_facts (d_conv d) 0 pr (d_long d) H0 Hconv) as Hf0.
    unfold flags_fact in Hf0. rewrite !andb_true_iff, !eqb_true_iff in Hf0.
    apply number_text_ext; [rewrite Hprec|rewrite Hup]; symmetry; apply Hf0.
Qed.
Lemma directive_value_range d a : 0 ≤ Z.abs (directive_value d a) < 2 ^ 64.
Proof.
  unfold directive_value. destruct (is_signed_spec (d_conv d)), (d_long d);
    match goal with |- context [signed_of ?w a] => pose proof (signed_of_range w a ltac:(lia))
               | |- context [wrap ?w a] => pose proof (wrap_range w a ltac:(lia)) end; lia.
Qed.
Lemma number_in_range ds : number_in ds → 0 ≤ decimal ds 0 ≤ 31.
Proof. intros [Hd Hm]. split; [|done]. by apply decimal_mono. Qed.
Definition precision_of (d : Directive) : Z := default 0 ((λ ds, decimal ds 0) <$> d_precision d).
Definition width_of (d : Directive) : Z := decimal (d_width d) 0.

Lemma print_number_ok d a g args :
  directive_ok d → g_args g = a :: args → directive_value d a ≠ LONG_MIN →
  Forall is_byte (directive_output d a) → room g (length (directive_output d a)) →
  print_number (d_conv d) (precision_of d) (width_of d) (directive_flags d) g = (Ok tt, after (with_args args g) (directive_output d a)).
Proof.
  intros Hd Hg Hmin Hby Hr. destruct (directive_flags_ok d Hd) as [Hsg Hf]. destruct (Hd) as [_ [Hwd _] Hpr Hconv].
  assert (room (with_args args g) (length (directive_output d a))) as Hr' by (destruct Hr; by split).
  assert (0 ≤ precision_of d ≤ 31) as Hp.
  { unfold precision_of. destruct (d_precision d) as [ds|]; cbn; [|lia]. by apply number_in_range, Hpr. }
  set (f := flags_of_spec (d_conv d) (directive_flags d)) in *.
  assert (∀ f', FlagsOf d f' → print_integer (Z.abs (directive_value d a)) (directive_value d a <? 0) (base_of_spec (d_conv d))
    (precision_of d) (width_of d) f' (with_args args g) = (Ok tt, after (with_args args g) (directive_output d a))) as Hemit.
  { intros f' [Hh Hpt _ _ _ _ Hst Hdig]. 
    pose proof (print_integer_emits _ (directive_value d a <? 0) _ _ _ f' (directive_value_range d a)
      (base_range _ Hconv) Hp (number_in_range _ Hwd) Hh Hpt) as He.
    rewrite Hst, Hdig in He. by apply He. }
  unfold print_number. fold f. rewrite Hsg. unfold directive_value in *. 
  destruct (is_signed_spec (d_conv d)) eqn:Es; destruct (Hf) as [_ _ Hll Hch Hsh Hlo _ _].
  - unfold print_signed. erewrite M_bind_ok by (by apply va_arg_ok). rewrite Hll, Hch, Hsh, Hlo. cbn [orb].
    replace (if d_long d then signed_of 64 a else signed_of 32 a) with (signed_of (if d_long d then 64 else 32) a) by (by destruct (d_long d)).
    erewrite M_bind_ok by (unfold abs_for_printing; by rewrite (proj2 (Z.eqb_neq _ _)) by exact Hmin). by apply Hemit.
  - unfold print_unsigned. erewrite M_bind_ok by (by apply va_arg_ok). rewrite Hll, Hch, Hsh, Hlo. cbn [orb].
    pose proof (wrap_range (if d_long d then 64 else 32) a ltac:(destruct (d_long d); lia)) as Hwr.
    rewrite Z.abs_eq, (proj2 (Z.ltb_ge _ _)) in Hemit by lia.
    replace (if d_long d then wrap 64 a else wrap 32 a) with (wrap (if d_long d then 64 else 32) a) by (by destruct (d_long d)).
    by apply Hemit.
Qed.

(** ** Formats *)

Lemma spaces_bytes width l : Forall is_byte (spaces width l).
Proof. apply Forall_replicate. unfold is_byte. lia. Qed.
Lemma zeros_bytes n l : Forall is_byte l → Forall is_byte (zeros n l).
Proof. intros H. apply Forall_app. split; [apply Forall_replicate; unfold is_byte; lia|done]. Qed.
Lemma sign_bytes negative st : Forall is_byte (sign_text negative st).
Proof. unfold sign_text, is_byte. repeat case_match; repeat constructor; lia. Qed.
Lemma c_number_bytes negative ds precision width st : Forall is_byte ds → Forall is_byte (c_number negative ds precision width st).
Proof.
  intros H. unfold c_number. pose proof (sign_bytes negative st). pose proof (zeros_bytes precision ds H).
  repeat case_match; rewrite ?Forall_app; auto using spaces_bytes, zeros_bytes.
Qed.
(** The digits of a number: its value, the digits of the base, none of them superfluous. *)
Lemma directive_digits_ok d v :
  directive_ok d → Z.abs v < 2 ^ 64 →
  let base := base_of_spec (d_conv d) in
  value base (directive_digits d v) 0 = Z.abs v ∧ digits base (directive_digits d v) ∧
  (v = 0 → directive_digits d v = if bool_decide (is_Some (d_precision d)) then [] else [48]) ∧
  (v ≠ 0 → base ^ (Z.of_nat (length (directive_digits d v)) - 1) ≤ Z.abs v).
Proof.
  intros [_ _ _ Hconv] Hv base. pose proof (base_range _ Hconv) as Hb. fold base in Hb. unfold directive_digits, number_text. fold base.
  pose proof (flags_facts (d_conv d) 0 (bool_decide (is_Some (d_precision d))) (d_long d) ltac:(lia) Hconv) as Hf. unfold flags_fact in Hf.
  rewrite !andb_true_iff, !eqb_true_iff in Hf. assert (has (spec_flags (d_conv d) 0 (bool_decide (is_Some (d_precision d))) (d_long d)) FLAGS_PRECISION
    = bool_decide (is_Some (d_precision d))) as -> by apply Hf. clear Hf. clearbody base.
  destruct (Z.eqb_spec (Z.abs v) 0) as [E|E].
  - assert (v = 0) as -> by lia. assert (digit_of base 48 = Some 0) as H0
      by (unfold digit_of; change (digit_char 48) with (Some 0); cbv iota beta; by rewrite (proj2 (Z.leb_gt base 0)) by lia).
    split; [|split; [|split; [done|lia]]]; destruct (bool_decide _); try done; [unfold value; cbn [foldl]; by rewrite H0|constructor|].
    constructor; [|constructor]. unfold is_byte. split; [lia|]. by eexists.
  - destruct (digits_loop_ok 31 (Z.abs v) base (spec_flags (d_conv d) 0 (bool_decide (is_Some (d_precision d))) (d_long d))) as (H1 & H2 & _); [lia| |].
    { split; [lia|]. apply Z.lt_le_trans with (8 ^ 32); [lia|]. apply Z.pow_le_mono_l. lia. }
    split; [exact H1|]. split; [exact H2|]. split; [lia|]. intros _. rewrite length_reverse. apply digits_loop_minimal; [lia|].
    split; [lia|]. apply Z.lt_le_trans with (8 ^ 32); [lia|]. apply Z.pow_le_mono_l. lia.
Qed.

Definition directive_end (d : Directive) (f : list Z) : list Z := (if d_long d then [108] else []) ++ d_conv d :: f.
Lemma end_start d f : directive_ok d → at_ (directive_end d f) ∈ [108; 100; 105; 117; 120; 88; 111].
Proof. intros [_ _ _ Hc]. unfold directive_end. destruct (d_long d); cbn; set_solver. Qed.
Lemma conv_not c : c ∈ [46; 108; 100; 105; 117; 120; 88; 111] → flag_of c = None ∧ is_digit_ c = false ∧ (c =? 42) = false ∧ (c =? 46) = bool_decide (c = 46).
Proof. rewrite !elem_of_cons, elem_of_nil. intros [->|[->|[->|[->|[->|[->|[->|[->|[]]]]]]]]]; done. Qed.
Lemma parse_length_ok d f a :
  directive_ok d → parse_length a (directive_end d f) = Some (if d_long d then Z.lor a FLAGS_LONG else a, d_conv d :: f).
Proof.
  intros [_ _ _ Hc]. unfold directive_end. rewrite !elem_of_cons, elem_of_nil in Hc.
  destruct (d_long d); destruct Hc as [->|[->|[->|[->|[->|[->|[]]]]]]]; reflexivity.
Qed.
Lemma parse_precision_ok d f a g :
  directive_ok d →
  parse_precision a (precision_text (d_precision d) ++ directive_end d f) g =
    (Ok (Some (if bool_decide (is_Some (d_precision d)) then Z.lor a FLAGS_PRECISION else a, precision_of d, directive_end d f)), g).
Proof.
  intros Hd. pose proof (end_start d f Hd) as He. pose proof (conv_not _ ltac:(apply elem_of_cons; right; exact He)) as (_ & Hdig & Hst & Hdot).
  destruct Hd as [_ _ Hpr _]. unfold parse_precision, precision_of.
  destruct (d_precision d) as [ds|] eqn:Ep; cbn [precision_text app fmap option_fmap option_map default].
  - rewrite bool_decide_true by by eexists. change (at_ (46 :: ds ++ directive_end d f) =? 46) with true. cbv iota zeta. unfold advance_in_format. cbn [tail].
    destruct (Hpr ds eq_refl) as [Hds Hm].
    destruct ds as [|c ds]; cbn [app].
    + destruct (directive_end d f) as [|e0 e] eqn:Ee; [unfold directive_end in Ee; by destruct (d_long d)|]. rewrite Hdig, Hst. done.
    + change (at_ (c :: ds ++ directive_end d f)) with c. apply Forall_cons in Hds as Hds'. destruct Hds' as [Hc0 _].
      replace (is_digit_ c) with true by (unfold is_digit_; lia). 
      change (c :: ds ++ directive_end d f) with ((c :: ds) ++ directive_end d f).
      rewrite (atou_ok (c :: ds)) by (done || lia). done.
  - rewrite bool_decide_false by (by intros [? ?]). rewrite Hdot, bool_decide_false; [done|]. intros E46. rewrite E46 in He. apply (bool_decide_pack _) in He. by vm_compute in He.
Qed.
Lemma parse_width_ok d f a g :
  directive_ok d →
  let rest := precision_text (d_precision d) ++ directive_end d f in
  parse_width a (d_width d ++ rest) g = (Ok (Some (a, width_of d, rest)), g) ∧ flag_of (at_ (d_width d ++ rest)) = None.
Proof.
  intros Hd rest. pose proof (end_start d f Hd) as He.
  assert (at_ rest ∈ [46; 108; 100; 105; 117; 120; 88; 111]) as Hr.
  { unfold rest. destruct (d_precision d); cbn [precision_text app]; [cbn; set_solver|apply elem_of_cons; by right]. }
  apply conv_not in Hr as (Hfl & Hdig & Hst & _). destruct Hd as [_ [[Hwd Hm] Hw0] _ _]. unfold parse_width, width_of.
  destruct (d_width d) as [|c ds] eqn:Ew; cbn [app].
  - by rewrite Hdig, Hst.
  - change (at_ (c :: ds ++ rest)) with c. change (at_ (c :: ds)) with c in Hw0. apply Forall_cons in Hwd as Hwd'. destruct Hwd' as [Hc0 _].
    replace (is_digit_ c) with true by (unfold is_digit_; lia). change (c :: ds ++ rest) with ((c :: ds) ++ rest).
    rewrite (atou_ok (c :: ds)) by (done || lia). split; [done|].
    assert (c = 49 ∨ c = 50 ∨ c = 51 ∨ c = 52 ∨ c = 53 ∨ c = 54 ∨ c = 55 ∨ c = 56 ∨ c = 57) as Hcs by lia.
    by repeat destruct Hcs as [->|Hcs]; subst.
Qed.

(** A format is a sequence of characters and directives. *)
Inductive Piece : Set := Lit (c : Z) | Conv (d : Directive).
Definition piece_text (p : Piece) : list Z := match p with Lit c => [c] | Conv d => directive_text d end.
Definition format_text (ps : list Piece) : list Z := ps ≫= piece_text.
(** The arguments fit the directives. *)
Fixpoint format_ok (ps : list Piece) (args : list Z) : Prop :=
  match ps, args with
  | [], [] => True
  | Lit c :: ps, _ => is_byte c ∧ c ≠ 37 ∧ format_ok ps args
  | Conv d :: ps, a :: args => directive_ok d ∧ directive_value d a ≠ LONG_MIN ∧ format_ok ps args
  | _, _ => False
  end.
Fixpoint format_output (ps : list Piece) (args : list Z) : list Z :=
  match ps, args with
  | Lit c :: ps, _ => c :: format_output ps args
  | Conv d :: ps, a :: args => directive_output d a ++ format_output ps args
  | _, _ => []
  end.

Lemma directive_output_bytes d a : directive_ok d → Forall is_byte (directive_output d a).
Proof.
  intros Hd. apply c_number_bytes. destruct (directive_digits_ok d _ Hd (proj2 (directive_value_range d a))) as (_ & Hds & _).
  eapply Forall_impl; [exact Hds|]. by intros c [? _].
Qed.
Lemma is_number_conv d : directive_ok d → is_number_spec (d_conv d) = true.
Proof. intros [_ _ _ Hc]. unfold is_number_spec. apply bool_decide_true. rewrite !elem_of_cons, elem_of_nil in *. tauto. Qed.

Section formats.
Context (mem : CMem) (sfuel : nat).
Lemma loop_directive fuel d f a args g :
  directive_ok d → directive_value d a ≠ LONG_MIN → g_args g = a :: args → room g (length (directive_output d a)) →
  format_string_loop mem sfuel (S fuel) (directive_text d ++ f) g =
    format_string_loop mem sfuel fuel f (after (with_args args g) (directive_output d a)).
Proof.
  intros Hd Hmin Hg Hr.
  set (rest := d_flags d ++ d_width d ++ precision_text (d_precision d) ++ directive_end d f).
  assert (directive_text d ++ f = 37 :: rest) as ->.
  { unfold directive_text, rest, directive_end. cbn [app]. f_equal. by rewrite <-!app_assoc. }
  cbn [format_string_loop]. change (negb (37 =? 37)) with false. cbv iota.
  destruct (parse_width_ok d f (flags_of (d_flags d)) g Hd) as [Hw Hfl].
  assert (advance_in_format (37 :: rest) = Some rest) as ->.
  { unfold advance_in_format. cbn [tail]. destruct rest as [|r0 rest'] eqn:E; [|done]. apply (f_equal length) in E. unfold rest, directive_end in E.
    rewrite !length_app in E. cbn in E. lia. }
  unfold rest. rewrite parse_flags_ok by (apply Hd || done). fold (flags_of (d_flags d)).
  erewrite M_bind_ok by exact Hw. cbv iota beta.
  erewrite M_bind_ok by (by apply parse_precision_ok). cbv iota beta. rewrite parse_length_ok by done. cbv iota beta.
  unfold print_spec. rewrite is_number_conv by done. fold (directive_flags d).
  erewrite M_bind_ok; [reflexivity|]. erewrite M_bind_ok; [reflexivity|].
  apply print_number_ok; try done. by apply directive_output_bytes.
Qed.
Lemma after_args g l1 l2 o1 o2 : after (with_args l2 (after (with_args l1 g) o1)) o2 = after (with_args l2 g) (o1 ++ o2).
Proof. unfold after, with_args. cbn. rewrite app_assoc, length_app. f_equal. lia. Qed.
Lemma loop_format ps args fuel g :
  format_ok ps args → g_args g = args → room g (length (format_output ps args)) → (length (format_text ps) < fuel)%nat →
  format_string_loop mem sfuel fuel (format_text ps) g = (Ok tt, after (with_args [] g) (format_output ps args)).
Proof.
  revert args fuel g. induction ps as [|[c|d] ps IH]; intros args fuel g Hok Hg Hr Hf; destruct fuel as [|fuel]; try lia.
  - destruct args; [|done]. cbn. unfold with_args. rewrite after_nil. destruct g. cbn in *. by subst.
  - destruct Hok as (Hc & H37 & Hok). cbn [format_text mbind list_bind piece_text app] in *. fold (format_text ps) in *.
    replace (format_output (Lit c :: ps) args) with ([c] ++ format_output ps args) in * by (by destruct args).
    destruct (room_app g _ _ Hr) as [R1 R2]. cbn [format_string_loop length] in *. rewrite (proj2 (Z.eqb_neq c 37)) by done. cbn [negb].
    erewrite M_bind_ok by (apply emits_putchar; [by apply Forall_singleton|done]).
    rewrite (IH args) by (done || lia). by rewrite <-(after_args g (g_args g) []); destruct g.
  - destruct args as [|a args]; [done|]. destruct Hok as (Hd & Hmin & Hok). cbn [format_text mbind list_bind piece_text format_output] in *.
    fold (format_text ps) in *. rewrite length_app in Hf. destruct (room_app g _ _ Hr) as [R1 R2].
    rewrite (loop_directive fuel d _ a args) by done. rewrite (IH args); [by rewrite after_args|done|done| |].
    + destruct R2. by split.
    + unfold directive_text in Hf. rewrite !length_app in Hf. cbn in Hf. lia.
Qed.
End formats.

(** C19: [printf] with the directives of [directive_ok] writes what the C standard says: the characters of the format, and for
    each directive the argument of its type with its sign, at least as many digits as the precision, padded to
    the width on the side and with the character that the flags ask for; and it returns the length of the
    output.  The digits are those of the argument in the base of the conversion without leading zeros, none for
    zero with a precision.
    The directives have any of the flags [0], [-], [+] and space, a width and a precision written as numbers
    up to 31 (the buffer of the digits less one for the sign), the length [l] or none, and one of the
    conversions d, i, u, x, X and o.  Not covered are the flag [#], the other lengths, [%b], widths and
    precisions given by [*], and the least [long], whose negation overflows. *)
Theorem printf_formats_integers mem sfuel ps args :
  format_ok ps args → Z.of_nat (length (format_output ps args)) ≤ INT_MAX →
  (∃ g, vfctprintf mem sfuel (format_text ps) args = (Ok (Z.of_nat (length (format_output ps args))), g) ∧
     g_emitted g = format_output ps args ∧ g_args g = []) ∧
  (∀ d a, directive_ok d →
     let v := directive_value d a in
     let base := base_of_spec (d_conv d) in
     value base (directive_digits d v) 0 = Z.abs v ∧ digits base (directive_digits d v) ∧
     (v = 0 → directive_digits d v = if bool_decide (is_Some (d_precision d)) then [] else [48]) ∧
     (v ≠ 0 → base ^ (Z.of_nat (length (directive_digits d v)) - 1) ≤ Z.abs v)).
Proof.
  intros Hok Hl. split.
  - unfold vfctprintf, vsnprintf_impl. 
    erewrite M_bind_ok by (apply (loop_format _ _ ps args); [done|done|split; cbn; unfold INT_MAX in *; (done || lia)|lia]).
    unfold append_termination_with_gadget, mbind, M_bind, get_state, mret, M_ret. cbn [after with_args function_gadget g_function orb].
    cbv beta iota. cbn [after with_args function_gadget g_pos]. rewrite Z.add_0_l.
    replace (signed_of 32 (Z.of_nat (length (format_output ps args)))) with (Z.of_nat (length (format_output ps args))).
    { eexists. split; [reflexivity|]. done. }
    unfold signed_of, INT_MAX in *. rewrite wrap_small by lia. by rewrite (proj2 (Z.ltb_lt _ _)) by lia.
  - intros d a Hd v base. apply directive_digits_ok; [done|]. apply directive_value_range.
Qed.

(** ** Reading a printed number *)

Lemma c_number_shape negative ds precision width st :
  ∃ k1 n k2, c_number negative ds precision width st = replicate k1 32 ++ sign_text negative st ++ zeros n ds ++ replicate k2 32.
Proof.
  unfold c_number, spaces. destruct (st_left st); [|destruct (st_zero st)].
  - eexists O, precision, _. cbn [replicate app]. by rewrite <-!app_assoc.
  - rewrite zeros_zeros. eexists O, _, O. cbn [replicate app]. by rewrite app_nil_r.
  - eexists _, precision, O. cbn [replicate app]. by rewrite app_nil_r.
Qed.
Lemma decimal_digit c : is_byte c → is_Some (digit_of 10 c) → isspace c = false ∧ c ≠ 45 ∧ c ≠ 43.
Proof.
  intros Hc Hd.
  pose proof (all_from_spec (λ c, implb (match digit_of 10 c with Some _ => true | None => false end)
    (negb (isspace c) && negb (c =? 45) && negb (c =? 43))) 256 0 ltac:(vm_compute; reflexivity) c ltac:(unfold is_byte in Hc; lia)) as H.
  destruct Hd as [d Hd]. cbv beta in H. rewrite Hd in H. cbn [implb] in H. rewrite !andb_true_iff, !negb_true_iff, !Z.eqb_neq in H. tauto.
Qed.
Lemma zeros_digits n ds : digits 10 ds → digits 10 (zeros n ds).
Proof.
  intros H. apply Forall_app. split; [|done]. apply Forall_replicate. unfold is_byte. split; [lia|]. by eexists.
Qed.
Lemma zeros_value n ds : value 10 (zeros n ds) 0 = value 10 ds 0.
Proof.
  unfold value, zeros. rewrite foldl_app. f_equal. induction (Z.to_nat _) as [|k IH]; [done|]. cbn [replicate foldl]. exact IH.
Qed.
Lemma output_numeral negative st k1 ds k2 :
  digits 10 ds → ds ≠ [] →
  ∃ ws sg, replicate k1 32 ++ sign_text negative st ++ ds ++ replicate k2 32 = ws ++ sg ++ [] ++ ds ++ replicate k2 32 ∧
    Numeral 10 ws sg [] ds (replicate k2 32) negative 10.
Proof.
  intros Hds Hne. destruct ds as [|c ds]; [done|]. assert (is_byte c ∧ is_Some (digit_of 10 c)) as [Hc Hd] by (by apply Forall_cons in Hds as [? _]).
  destruct (decimal_digit c Hc Hd) as (Hsp & H45 & H43).
  assert (digit_of 10 (hd 0 (replicate k2 32 ++ [0])) = None) as Hend by (by destruct k2).
  assert (∀ l base, 2 ≤ base < 16 → Prefix base [] l base) as Hpre by (intros; apply prefix_given; lia).
  assert (∀ k, Forall (λ c, isspace c = true) (replicate k 32)) as Hws by (intros; by apply Forall_replicate).
  unfold sign_text. destruct negative; [|destruct (st_plus st); [|destruct (st_space st)]].
  - exists (replicate k1 32), [45]. split; [done|]. split; try done; [constructor|apply Hpre; lia].
  - exists (replicate k1 32), [43]. split; [done|]. split; try done; [constructor|apply Hpre; lia].
  - exists (replicate k1 32 ++ [32]), []. split; [by rewrite <-app_assoc|].
    split; try done; [apply Forall_app; split; [done|by apply Forall_singleton]|by constructor|apply Hpre; lia].
  - exists (replicate k1 32), []. split; [done|]. split; try done; [by constructor|apply Hpre; lia].
Qed.

Lemma digits_positive base ds : digits base ds → Forall (λ c, 0 < c < 256) ds.
Proof.
  intros H. eapply Forall_impl; [exact H|]. intros c [Hc [x Hx]]. unfold is_byte in Hc.
  destruct (decide (c = 0)) as [->|]; [|lia]. by unfold digit_of in Hx.
Qed.
Lemma strtol_reads d a m p fuel :
  directive_ok d → d_conv d = 100 → d_long d = true → directive_value d a ≠ 0 ∨ d_precision d = None →
  bytes m p (directive_output d a ++ [0]) → (length (directive_output d a) < fuel)%nat →
  ∃ e, strtol fuel p 10 m = (Ok {| st_acc := directive_value d a; st_end := e; st_errno := None |}, m).
Proof.
  intros Hd Hc Hlg Hnz Hm Hf. pose proof (directive_digits_ok d (directive_value d a) Hd (proj2 (directive_value_range d a))) as Hdig.
  rewrite Hc in Hdig. destruct Hdig as (Hval & Hds & H0 & H1). unfold directive_output in Hm, Hf.
  set (v := directive_value d a) in *. set (ds := directive_digits d v) in *.
  destruct (c_number_shape (v <? 0) ds (precision_of d) (width_of d) (directive_style d)) as (k1 & n & k2 & E).
  unfold precision_of, width_of in E. rewrite E in Hm, Hf.
  assert (ds ≠ []) as Hne.
  { destruct (decide (v = 0)) as [Ev|Ev]; [|intros ->; cbn in Hval; lia]. destruct Hnz as [|Hnone]; [done|]. by rewrite (H0 Ev), Hnone. }
  destruct (output_numeral (v <? 0) (directive_style d) k1 (zeros n ds) k2 (zeros_digits n ds Hds)) as (ws & sg & Esh & Hnum).
  { intros Ez%(f_equal length). rewrite zeros_length in Ez. destruct ds; [done|cbn in Ez; lia]. }
  assert (Forall (λ c, 0 < c < 256) (ws ++ sg ++ [] ++ zeros n ds ++ replicate k2 32)) as Hpos.
  { rewrite <-Esh, !Forall_app. split_and!; [by apply Forall_replicate| |by eapply digits_positive, zeros_digits|by apply Forall_replicate].
    unfold sign_text. repeat case_match; repeat constructor; lia. }
  rewrite Esh in Hm, Hf. unfold strtol. assert (long_limit (v <? 0) = if v <? 0 then 2 ^ 63 else 2 ^ 63 - 1) as Hlim by (by destruct (v <? 0)).
  assert (- 2 ^ 63 ≤ v < 2 ^ 63) as Hv by (unfold v, directive_value; rewrite Hc, Hlg; apply (signed_of_range 64 a); lia).
  assert (length (ws ++ zeros n ds) < fuel)%nat as Hf' by (rewrite !length_app in Hf; rewrite length_app; lia).
  erewrite M_bind_ok by (apply (strto_ok long_limit long_clamp m p 10 ws sg [] (zeros n ds) (replicate k2 32) (v <? 0) 10 fuel);
    [done|done|exact Hf'|rewrite Hlim; destruct (v <? 0); lia]).
  rewrite zeros_value, decide_False, Hlim; [|intros Ez%(f_equal length); rewrite zeros_length in Ez; destruct ds; [done|cbn in Ez; lia]].
  change (base_of_spec 100) with 10 in Hval. rewrite Hval. eexists. unfold mret, M_ret, to_signed. cbn [st_acc st_end st_errno].
  rewrite !decide_True by (destruct (Z.ltb_spec v 0); lia). do 3 f_equal.
  destruct (Z.ltb_spec v 0); [rewrite to_signed_neg by lia|rewrite wrap_i64_small by lia]; lia.
Qed.
(** C23: A number printed with [%ld], with any of the flags [0], [-], [+] and space and a width and a precision
    of at most 31, is read back by [strtol], which finds no error: the text that [snprintf] leaves in a buffer
    that is large enough.  The number is not the least [long], and a precision is only given for a number
    other than zero, which has no digits then.  From 32 on the digits fill the buffer that
    [print_integer] builds the number in, and the sign is dropped. *)
Theorem printed_long_reads_back mem sfuel d a b n m p fuel :
  directive_ok d → d_conv d = 100 → d_long d = true → directive_value d a ≠ LONG_MIN →
  directive_value d a ≠ 0 ∨ d_precision d = None →
  (length (directive_output d a) < n ≤ length b)%nat → Z.of_nat n ≤ INT_MAX → (n < fuel)%nat →
  ∃ g b', vsnprintf_ mem sfuel (Some b) (Z.of_nat n) (directive_text d) [a] = (Ok (Z.of_nat (length (directive_output d a))), g) ∧
    g_buffer g = Some b' ∧
    (bytes m p b' → ∃ e, strtol fuel p 10 m = (Ok {| st_acc := directive_value d a; st_end := e; st_errno := None |}, m)).
Proof.
  intros Hd Hc Hlg Hmin Hnz Hn Hmax Hf. set (out := directive_output d a) in *.
  assert (format_string_loop mem sfuel (S (length (directive_text d))) (directive_text d) (function_gadget [a]) =
    (Ok tt, after (with_args [] (function_gadget [a])) out)) as Hloop.
  { pose proof (loop_format mem sfuel [Conv d] [a] (S (length (directive_text d))) (function_gadget [a])) as H.
    cbn [format_text mbind list_bind piece_text format_output] in H. rewrite !app_nil_r in H. apply H; try done; [|lia].
    split; try done. change (0 + Z.of_nat (length out) ≤ INT_MAX). lia. }
  destruct (vsnprintf_ok mem sfuel b n (directive_text d) [a] _ Hloop) as (_ & g & Hr & _ & Hb); [cbn [after with_args function_gadget g_emitted app]; lia|done|lia|].
  cbn [after g_emitted with_args function_gadget app] in Hr, Hb. eexists g, _. split; [exact Hr|]. split; [exact Hb|].
  destruct n as [|k]; [lia|]. unfold buffer_after. rewrite take_ge by lia. rewrite app_assoc. intros [Hm _]%bytes_app.
  apply strtol_reads; try done. unfold out in Hn. lia.
Qed.

(** Examples: [x=%+05d,%-6lx|] of 42 and 255, into a buffer of 10 bytes, and [%ld] of -1234567. *)
Definition demo_signed : Directive := {| d_flags := [43; 48]; d_width := [53]; d_precision := None; d_long := false; d_conv := 100 |}.
Definition demo_hex : Directive := {| d_flags := [45]; d_width := [54]; d_precision := Some [51]; d_long := true; d_conv := 120 |}.
Definition demo_format : list Piece := [Lit 120; Lit 61; Conv demo_signed; Lit 44; Conv demo_hex; Lit 124].
Definition demo_long : Directive := {| d_flags := []; d_width := []; d_precision := None; d_long := true; d_conv := 100 |}.

Lemma bytes_of_put m p l : bytes (put p l m) p l.
Proof.
  intros i b Hi. pose proof (lookup_lt_Some _ _ _ Hi). rewrite put_lookup, decide_True by lia.
  by replace (Z.to_nat (p + Z.of_nat i - p)) with i by lia.
Qed.
Lemma demo_directives_ok : directive_ok demo_signed ∧ directive_ok demo_hex ∧ directive_ok demo_long.
Proof.
  split_and!; (split; [|split; [split|]| |]); cbn; try (by repeat constructor); try (intros ds; try done; injection 1 as <-; split);
    try (repeat constructor; lia); try lia; try (by vm_compute); set_solver.
Qed.
(** [x=+0042,0ff   |] *)
Definition demo_text : list Z := [120; 61; 43; 48; 48; 52; 50; 44; 48; 102; 102; 32; 32; 32; 124].
Lemma printf_formats_integers_witness :
  ∃ g, vfctprintf ∅ 0 (format_text demo_format) [42; 255] = (Ok 15, g) ∧ g_emitted g = demo_text ∧ g_args g = [].
Proof.
  destruct demo_directives_ok as (H1 & H2 & _).
  apply (printf_formats_integers ∅ 0 demo_format [42; 255]); [|by vm_compute].
  cbn [format_ok demo_format]. unfold is_byte. split_and!; try done; try lia; by vm_compute.
Defined.
Lemma snprintf_truncates_witness :
  ∃ g, vsnprintf_ ∅ 0 (Some (replicate 12 255)) 10 (format_text demo_format) [42; 255] = (Ok 15, g) ∧
    g_buffer g = Some [120; 61; 43; 48; 48; 52; 50; 44; 48; 0; 255; 255].
Proof.
  destruct (snprintf_truncates ∅ 0 (replicate 12 255) 10 (format_text demo_format) [42; 255] 15
    (vfctprintf ∅ 0 (format_text demo_format) [42; 255]).2) as (_ & g & Hg & _ & Hb); [by vm_compute|by vm_compute..|cbn; lia|].
  exists g. split; [exact Hg|]. rewrite Hb. by vm_compute.
Defined.
Lemma printed_long_reads_back_witness :
  ∃ e, strtol 40 100 10 (put 100 ([45; 49; 50; 51; 52; 53; 54; 55; 0] ++ replicate 11 255) ∅) =
    (Ok {| st_acc := -1234567; st_end := e; st_errno := None |}, put 100 ([45; 49; 50; 51; 52; 53; 54; 55; 0] ++ replicate 11 255) ∅).
Proof.
  destruct (printed_long_reads_back ∅ 0 demo_long (-1234567) (replicate 20 255) 20
    (put 100 ([45; 49; 50; 51; 52; 53; 54; 55; 0] ++ replicate 11 255) ∅) 100 40) as (g & b' & Hg & Hb & H).
  - apply demo_directives_ok.
  - done.
  - done.
  - by vm_compute.
  - by right.
  - vm_compute. lia.
  - by vm_compute.
  - lia.
  - apply H. assert (g_buffer (vsnprintf_ ∅ 0 (Some (replicate 20 255)) (Z.of_nat 20) (directive_text demo_long) [-1234567]).2 = Some b') as Hb'
      by (rewrite Hg; exact Hb).
    vm_compute in Hb'. injection Hb' as <-. apply bytes_of_put.
Defined.
