(* ===== verification/Errno.v ===== *)
(** * Error codes ([crates/axerrno]) and how the C interface reports them

    The numbers of [AxError], the conversion into the numbers of Linux, and the result of a system call. *)

From Stdlib Require Import ZArith Lia.
From stdpp Require Import base decidable numbers gmap list.
From S2P Require Import Prelude LinkedList Vfs FlattenObjects PosixTime Epoll.

Local Open Scope Z_scope.

Definition AxError_code (e : AxError) : Z :=
  match e with
  | AddrInUse => 1 | AlreadyExists => 2 | BadAddress => 3 | BadState => 4 | ConnectionRefused => 5
  | ConnectionReset => 6 | DirectoryNotEmpty => 7 | InvalidData => 8 | InvalidInput => 9 | Io => 10
  | IsADirectory => 11 | NoMemory => 12 | NotADirectory => 13 | NotConnected => 14 | NotFound => 15
  | PermissionDenied => 16 | ResourceBusy => 17 | StorageFull => 18 | UnexpectedEof => 19
  | Unsupported => 20 | WouldBlock => 21 | WriteZero => 22
  end.
Definition AxError_variants : list AxError :=
  [AddrInUse; AlreadyExists; BadAddress; BadState; ConnectionRefused; ConnectionReset; DirectoryNotEmpty; InvalidData;
   InvalidInput; Io; IsADirectory; NoMemory; NotADirectory; NotConnected; NotFound; PermissionDenied; ResourceBusy;
   StorageFull; UnexpectedEof; Unsupported; WouldBlock; WriteZero].
(** [transmute] gives the variant with the number. *)
Definition AxError_try_from (value : Z) : AxError + Z :=
  if ((0 <? value) && (value <=? Z.of_nat (length AxError_variants)))%bool then
    match list_find (λ e, AxError_code e = value) AxError_variants with Some (_, e) => inl e | None => inr value end
  else inr value.

Definition EIO : Z := 5.
Definition EAGAIN : Z := 11.
Definition ENOMEM : Z := 12.
Definition EACCES : Z := 13.
Definition EBUSY : Z := 16.
Definition ENOTDIR : Z := 20.
Definition EISDIR : Z := 21.
Definition ENOSPC : Z := 28.
Definition ENOSYS : Z := 38.
Definition ENOTEMPTY : Z := 39.
Definition ERANGE : Z := 34.
Definition EADDRINUSE : Z := 98.
Definition ECONNRESET : Z := 104.
Definition ENOTCONN : Z := 107.
Definition ECONNREFUSED : Z := 111.
(** [impl From<AxError> for LinuxError], and its number. *)
Definition LinuxError_from (e : AxError) : Z :=
  match e with
  | AddrInUse => EADDRINUSE
  | AlreadyExists => EEXIST
  | BadAddress | BadState => EFAULT
  | ConnectionRefused => ECONNREFUSED
  | ConnectionReset => ECONNRESET
  | DirectoryNotEmpty => ENOTEMPTY
  | InvalidInput | InvalidData => EINVAL
  | Io => EIO
  | IsADirectory => EISDIR
  | NoMemory => ENOMEM
  | NotADirectory => ENOTDIR
  | NotConnected => ENOTCONN
  | NotFound => ENOENT
  | PermissionDenied => EACCES
  | ResourceBusy => EBUSY
  | StorageFull => ENOSPC
  | Unsupported => ENOSYS
  | UnexpectedEof | WriteZero => EIO
  | WouldBlock => EAGAIN
  end.

(** The operator [?] of a call that fails with an [AxError] in a function that fails with a number. *)
Definition to_linux {S A} (m : M S AxError A) : M S Z A := λ s,
  match m s with
  | (Ok a, s') => (Ok a, s')
  | (Err e, s') => (Err (LinuxError_from e), s')
  | (Panic, s') => (Panic, s')
  | (OutOfFuel, s') => (OutOfFuel, s')
  end.
(** [syscall_body!]: an error becomes a negative result, beside what the call leaves in memory. *)
Definition syscall {S A} (default : A) (m : M S Z (Z * A)) : M S NoError (Z * A) := λ s,
  match m s with
  | (Ok v, s') => (Ok v, s')
  | (Err e, s') => (Ok (- e, default), s')
  | (Panic, s') => (Panic, s')
  | (OutOfFuel, s') => (OutOfFuel, s')
  end.

(** The wrappers of the C library ([ulib/axlibc/src/utils.rs]): -1 and [errno] for a negative result. *)
Definition e_ (ret : Z) : Z * option Z :=
  let ret := to_c_int ret in if ret <? 0 then (-1, Some (Z.abs ret)) else (ret, None).

(** The number of an error stands for that error and no other number stands for one; every error has a
    number of Linux between 1 and 133, which a program sees as [errno] with the result -1, and only
    errors are seen so. *)
Theorem error_codes_roundtrip :
  (∀ e, AxError_try_from (AxError_code e) = inl e) ∧
  (∀ v e, AxError_try_from v = inl e → AxError_code e = v) ∧
  (∀ e, 1 ≤ LinuxError_from e ≤ 133 ∧ e_ (- LinuxError_from e) = (-1, Some (LinuxError_from e))) ∧
  (∀ v, 0 ≤ v < 2 ^ 31 → e_ v = (v, None)).
Proof.
  split_and!.
  - by intros [].
  - intros v e. unfold AxError_try_from. destruct (_ && _)%bool; [|done].
    destruct (list_find _ _) as [[i x]|] eqn:E; [|done]. intros [= <-]. by apply list_find_Some in E as (_ & ? & _).
  - intros []; (split; [by vm_compute|reflexivity]).
  - intros v Hv. unfold e_, to_c_int. rewrite wrap_small by lia. rewrite (proj2 (Z.ltb_lt v _)) by lia.
    by rewrite (proj2 (Z.ltb_ge v 0)) by lia.
Qed.
