(* ===== verification/PosixFs.v ===== *)
(** * Files by descriptor ([api/arceos_posix_api/src/imp/fs.rs], [io.rs], [stdio.rs])

    The system calls on open files, over the table of descriptors and the file system: the table holds
    references to open files, which several descriptors share, and to the console.  The configuration is the
    one with files and without pipes and sockets. *)

From Stdlib Require Import ZArith Lia.
From stdpp Require Import base decidable numbers gmap list.
From S2P Require Import Prelude LinkedList Path Vfs AxIo AxFs RootFs FsApi FlattenObjects PosixTime Epoll Errno.

Local Open Scope Z_scope.

(** ** The console ([stdio.rs]) *)

(** The characters typed and not yet read. *)
Record StdinRaw : Set := { typed : list Z }.
Definition console_read_bytes : M StdinRaw AxError (option Z) :=
  s ← get_state;
  match typed s with
  | [] => mret None
  | c :: l => _ ← put_state {| typed := l |}; mret (Some (if c =? 13 then 10 else c))
  end.
Fixpoint stdin_raw_read (n : nat) : M StdinRaw AxError (list Z) :=
  match n with
  | O => mret []
  | S n =>
      r ← console_read_bytes;
      match r with Some c => l ← stdin_raw_read n; mret (c :: l) | None => mret [] end
  end.
#[export] Instance StdinRaw_Read : Read StdinRaw :=
  let rd := λ n, stdin_raw_read (Z.to_nat n) in
  {| read := rd; read_exact := default_read_exact rd; read_to_end := default_read_to_end rd |}.

Local Abbreviation StdinM := (M (BufReader StdinRaw) AxError).
Definition arrive (l : list Z) : StdinM unit := on_inner (modify (λ s, {| typed := typed s ++ l |})).
(** The loop that waits; every list holds what is typed while other tasks run. *)
Fixpoint stdin_wait (arrivals : list (list Z)) (n : Z) : StdinM (list Z) :=
  match arrivals with
  | [] => out_of_fuel
  | a :: arrivals =>
      l ← br_read n;
      if 0 <? len l then mret l else _ ← arrive a; stdin_wait arrivals n
  end.
Definition read_blocked (arrivals : list (list Z)) (n : Z) : StdinM (list Z) :=
  l ← br_read n;
  if ((n =? 0) || (0 <? len l))%bool then mret l else stdin_wait arrivals n.

(** ** Open files *)

(** What the table refers to: the console, or an open file with its number of references. *)
Inductive PFile : Set := PStdin | PStdout | PFs (id : nat).
Record OpenFile : Type := { of_inner : File; of_strong : Z }.
(** A string argument: a null pointer, bytes that are not UTF-8, or a string. *)
Inductive CStr : Type := CNull | CInvalid | CStr_ (s : Str).
Record stat : Set := { st_ino : Z; st_nlink : Z; st_mode : Z; st_uid : Z; st_gid : Z; st_size : Z; st_blksize : Z; st_blocks : Z }.
Definition stat_default : stat :=
  {| st_ino := 0; st_nlink := 0; st_mode := 0; st_uid := 0; st_gid := 0; st_size := 0; st_blksize := 0; st_blocks := 0 |}.
Definition node_type_u8 (t : VfsNodeType) : Z :=
  match t with Fifo => 1 | CharDevice => 2 | Dir => 4 | BlockDevice => 6 | File_ => 8 | SymLink => 10 | Socket => 12 end.

Definition O_RDONLY : Z := 0.
Definition O_WRONLY : Z := 1.
Definition O_RDWR : Z := 2.
Definition O_CREAT : Z := 0x40.
Definition O_EXCL : Z := 0x80.
Definition O_TRUNC : Z := 0x200.
Definition O_APPEND : Z := 0x400.
Definition O_EXEC : Z := 0x200000.
Definition has_flag (flags m : Z) : bool := negb (Z.land flags m =? 0).
Definition flags_to_options (flags : Z) : OpenOptions :=
  let flags := wrap 32 flags in
  let acc := Z.land flags 3 in
  {| o_read := negb (acc =? O_WRONLY); o_write := negb (acc =? O_RDONLY);
     o_append := has_flag flags O_APPEND; o_truncate := has_flag flags O_TRUNC;
     o_create := has_flag flags O_CREAT; o_create_new := has_flag flags O_EXEC |}.

Section posix.
Context `{Bitflags} {B : Type} `{Bitmap B}.
Local Abbreviation FdTable := (FlattenObjects PFile B).
Record PState : Type := {
  p_table : FdTable; p_files : gmap nat OpenFile; p_fs : AxFs; p_stdin : BufReader StdinRaw; p_stdout : list Z }.
Local Abbreviation PM := (M PState Z).

Definition on_p_table {A} (m : M FdTable Z A) : PM A := λ s,
  let '(r, t) := m (p_table s) in
  (r, {| p_table := t; p_files := p_files s; p_fs := p_fs s; p_stdin := p_stdin s; p_stdout := p_stdout s |}).
Definition on_p_fs {A} (m : M AxFs AxError A) : PM A := λ s,
  let '(r, t) := to_linux m (p_fs s) in
  (r, {| p_table := p_table s; p_files := p_files s; p_fs := t; p_stdin := p_stdin s; p_stdout := p_stdout s |}).
Definition on_p_stdin {A} (m : StdinM A) : PM A := λ s,
  let '(r, t) := to_linux m (p_stdin s) in
  (r, {| p_table := p_table s; p_files := p_files s; p_fs := p_fs s; p_stdin := t; p_stdout := p_stdout s |}).
Definition set_files (m : gmap nat OpenFile) : PM unit := modify (λ s,
  {| p_table := p_table s; p_files := m; p_fs := p_fs s; p_stdin := p_stdin s; p_stdout := p_stdout s |}).
(** [console_write_bytes]. *)
Definition console_write (l : list Z) : PM Z :=
  _ ← modify (λ s, {| p_table := p_table s; p_files := p_files s; p_fs := p_fs s; p_stdin := p_stdin s; p_stdout := p_stdout s ++ l |});
  mret (len l).

(** An operation on the file behind its lock. *)
Definition on_file {A} (id : nat) (m : M (AxFs * File) AxError A) : PM A :=
  s ← get_state;
  o ← unwrap (p_files s !! id);
  ((λ s, let '(r, (fs, f)) := to_linux m (p_fs s, of_inner o) in
         (r, {| p_table := p_table s; p_files := <[id := {| of_inner := f; of_strong := of_strong o |}]> (p_files s);
                p_fs := fs; p_stdin := p_stdin s; p_stdout := p_stdout s |})) : PM A).
(** [Arc::clone] and the drop of a reference; the last one closes the file. *)
Definition arc_clone (f : PFile) : PM unit :=
  match f with
  | PFs id =>
      s ← get_state; o ← unwrap (p_files s !! id);
      set_files (<[id := {| of_inner := of_inner o; of_strong := of_strong o + 1 |}]> (p_files s))
  | _ => mret tt
  end.
Definition arc_drop (f : PFile) : PM unit :=
  match f with
  | PFs id =>
      s ← get_state; o ← unwrap (p_files s !! id);
      if of_strong o =? 1 then _ ← set_files (delete id (p_files s)); on_p_fs (File_drop (of_inner o))
      else set_files (<[id := {| of_inner := of_inner o; of_strong := of_strong o - 1 |}]> (p_files s))
  | _ => mret tt
  end.

(** *** [FileLike] *)

Definition file_like_read (arrivals : list (list Z)) (f : PFile) (n : Z) : PM (list Z) :=
  match f with
  | PStdin => on_p_stdin (read_blocked arrivals n)
  | PStdout => throw EPERM
  | PFs id => on_file id (File_read n)
  end.
Definition file_like_write (f : PFile) (buf : list Z) : PM Z :=
  match f with
  | PStdin => throw EPERM
  | PStdout => console_write buf
  | PFs id => on_file id (File_write buf)
  end.
(** [Ok(ctypes::stat { .. })] of a file. *)
Definition stat_of (metadata : VfsNodeAttr) : stat :=
  {| st_ino := 1; st_nlink := 1; st_mode := Z.lor (Z.shiftl (node_type_u8 (attr_ty metadata)) 12) (attr_mode metadata);
     st_uid := 1000; st_gid := 1000; st_size := wrap_i64 (attr_size metadata); st_blksize := 512;
     st_blocks := wrap_i64 (attr_blocks metadata) |}.
Definition stat_console (mode : Z) : stat :=
  {| st_ino := 1; st_nlink := 1; st_mode := mode; st_uid := 0; st_gid := 0; st_size := 0; st_blksize := 0; st_blocks := 0 |}.
Definition file_like_stat (f : PFile) : PM stat :=
  match f with
  | PStdin => mret (stat_console (Z.lor 0x2000 0x120))
  | PStdout => mret (stat_console (Z.lor 0x2000 0x90))
  | PFs id => metadata ← on_file id (λ s, on_fst (File_get_attr s.2) s); mret (stat_of metadata)
  end.

(** ** [io.rs] *)

(** The result, and the bytes that are written to the buffer. *)
Definition sys_read (arrivals : list (list Z)) (fd : Z) (buf_null : bool) (count : Z) : M PState NoError (Z * list Z) :=
  syscall []
    (if buf_null then throw EFAULT
     else
       f ← on_p_table (get_file_like fd);
       l ← file_like_read arrivals f count;
       mret (len l, l)).
(** A null buffer is [None]. *)
Definition sys_write (fd : Z) (buf : option (list Z)) : M PState NoError (Z * unit) :=
  syscall tt
    (match buf with
     | None => throw EFAULT
     | Some src => f ← on_p_table (get_file_like fd); n ← file_like_write f src; mret (n, tt)
     end).
Fixpoint writev_loop (fd : Z) (iovs : list (option (list Z))) (ret : Z) : M PState NoError Z :=
  match iovs with
  | [] => mret ret
  | iov :: iovs => r ← sys_write fd iov; writev_loop fd iovs (wrap_i64 (ret + r.1))
  end.
Definition no_error {A} (m : M PState NoError A) : PM A := λ s,
  match m s with
  | (Ok a, s') => (Ok a, s')
  | (Err e, s') => match e with end
  | (Panic, s') => (Panic, s')
  | (OutOfFuel, s') => (OutOfFuel, s')
  end.
Definition sys_writev (fd : Z) (iov : list (option (list Z))) (iocnt : Z) : M PState NoError (Z * unit) :=
  syscall tt
    (if negb ((0 <=? iocnt) && (iocnt <=? 1024))%bool then throw EINVAL
     else if (length iov <? Z.to_nat iocnt)%nat then panic
     else r ← no_error (writev_loop fd (take (Z.to_nat iocnt) iov) 0); mret (r, tt)).

(** ** [fs.rs] *)

Definition char_ptr_to_str (s : CStr) : PM Str :=
  match s with CNull => throw EFAULT | CInvalid => throw EINVAL | CStr_ s => mret s end.
(** [Arc::new] of a file; the number of the object is a new one. *)
Definition arc_new (f : File) : PM PFile :=
  s ← get_state;
  let id := fresh (dom (p_files s)) in
  _ ← set_files (<[id := {| of_inner := f; of_strong := 1 |}]> (p_files s)); mret (PFs id).
(** A reference that does not get into the table is dropped. *)
Definition add_or_drop (f : PFile) : PM Z := λ s,
  match on_p_table (add_file_like f) s with
  | (Err e, s') => (_ ← arc_drop f; throw e) s'
  | x => x
  end.
Definition add_to_fd_table (f : File) : PM Z := x ← arc_new f; add_or_drop x.
(** A file by its descriptor; the console is not one. *)
Definition File_from_fd (fd : Z) : PM nat :=
  f ← on_p_table (get_file_like fd); match f with PFs id => mret id | _ => throw EINVAL end.
Definition open_options (path : Str) (o : OpenOptions) : PM File := on_p_fs (opts_open o path).

Definition sys_open (filename : CStr) (flags : Z) : M PState NoError (Z * unit) :=
  syscall tt
    (path ← char_ptr_to_str filename;
     file ← open_options path (flags_to_options flags);
     fd ← add_to_fd_table file; mret (fd, tt)).
Definition sys_lseek (fd offset whence : Z) : M PState NoError (Z * unit) :=
  syscall tt
    (pos ← (if whence =? 0 then mret (Start (wrap 64 offset))
            else if whence =? 1 then mret (Current offset)
            else if whence =? 2 then mret (End_ offset)
            else throw EINVAL);
     id ← File_from_fd fd;
     off ← on_file id (File_seek pos); mret (wrap_i64 off, tt)).
Definition sys_stat (path : CStr) (buf_null : bool) : M PState NoError (Z * option stat) :=
  syscall None
    (if buf_null then throw EFAULT
     else
       path ← char_ptr_to_str path;
       file ← open_options path opts_read;
       ((λ s, match (metadata ← on_p_fs (File_get_attr file); mret (stat_of metadata)) s with
             | (Ok st, s') => (_ ← on_p_fs (File_drop file); mret (0, Some st)) s'
             | (Err e, s') => (_ ← on_p_fs (File_drop file); throw e) s'
             | (Panic, s') => (Panic, s')
             | (OutOfFuel, s') => (OutOfFuel, s')
             end) : PM (Z * option stat))).
Definition sys_fstat (fd : Z) (buf_null : bool) : M PState NoError (Z * option stat) :=
  syscall None
    (if buf_null then throw EFAULT
     else f ← on_p_table (get_file_like fd); st ← file_like_stat f; mret (0, Some st)).
Definition sys_lstat (path : CStr) (buf_null : bool) : M PState NoError (Z * option stat) :=
  syscall None (if buf_null then throw EFAULT else mret (0, Some stat_default)).
(** The result is a pointer: null, the buffer, or the number of the error; with the bytes in the buffer. *)
Definition sys_getcwd (buf : Z) (size : Z) : M PState NoError (Z * list Z) :=
  syscall []
    (if buf =? 0 then mret (0, [])
     else
       s ← get_state;
       let cwd := as_bytes (CURRENT_DIR_PATH (p_fs s)) in
       if len cwd <? size then mret (buf, cwd ++ [0]) else throw ERANGE).
Definition sys_rename (old new : CStr) : M PState NoError (Z * unit) :=
  syscall tt
    (old_path ← char_ptr_to_str old; new_path ← char_ptr_to_str new;
     _ ← on_p_fs (fs_rename old_path new_path); mret (0, tt)).

(** ** Descriptors of shared files *)

Definition posix_close (fd : Z) : M PState NoError (Z * unit) :=
  if ((0 <=? fd) && (fd <=? 2))%bool then mret (0, tt)
  else
    syscall tt
      (f ← on_p_table (r ← on_table (fo_remove AX_FILE_LIMIT (as_usize fd)); ok_or_errno EBADF r);
       _ ← arc_drop f; mret (0, tt)).
Definition posix_dup_fd (old_fd : Z) : PM Z := f ← on_p_table (get_file_like old_fd); _ ← arc_clone f; add_or_drop f.
Definition posix_dup (old_fd : Z) : M PState NoError (Z * unit) :=
  syscall tt (fd ← posix_dup_fd old_fd; mret (fd, tt)).
(** [FileLike::set_nonblocking] of files and of the console. *)
Definition file_like_set_nonblocking (f : PFile) (nonblocking : bool) : PM unit := mret tt.
Definition posix_fcntl (fd cmd arg : Z) : M PState NoError (Z * unit) :=
  syscall tt
    (let cmd := wrap 32 cmd in
     if ((cmd =? F_DUPFD) || (cmd =? F_DUPFD_CLOEXEC))%bool then fd ← posix_dup_fd fd; mret (fd, tt)
     else if cmd =? F_SETFL then
       if ((fd =? 0) || (fd =? 1) || (fd =? 2))%bool then mret (0, tt)
       else
         f ← on_p_table (get_file_like fd);
         _ ← file_like_set_nonblocking f (0 <? Z.land arg O_NONBLOCK);
         mret (0, tt)
     else mret (0, tt)).
(** A reference that cannot be entered at the number is dropped. *)
Definition add_at_or_drop (fd : Z) (f : PFile) : PM unit := λ s,
  match on_p_table (r ← on_table (fo_add_at AX_FILE_LIMIT fd f); _ ← ok_or_errno EMFILE r; mret tt) s with
  | (Err e, s') => (_ ← arc_drop f; throw e) s'
  | x => x
  end.
Definition posix_dup2 (old_fd new_fd : Z) : M PState NoError (Z * unit) :=
  syscall tt
    (if old_fd =? new_fd then
       r ← no_error (posix_fcntl old_fd F_GETFD 0); if 0 <=? r.1 then mret (old_fd, tt) else mret r
     else if AX_FILE_LIMIT <=? as_usize new_fd then throw EBADF
     else
       f ← on_p_table (get_file_like old_fd); _ ← arc_clone f;
       _ ← add_at_or_drop (as_usize new_fd) f;
       mret (new_fd, tt)).
End posix.
