(* ===== verification/PosixFsProps.v ===== *)
(** * What descriptors do

    The table of descriptors with its shared open files refines a map from numbers to files; data written through
    a descriptor is read back; and where the calls differ from what programs expect of them. *)

From Stdlib Require Import ZArith Lia.
From stdpp Require Import base decidable numbers gmap list.
From S2P Require Import Prelude LinkedList Path Vfs VfsProps AxIo AxIoProps AxFs RootFs FsApi AxFsProps FsApiProps FlattenObjects PosixTime Epoll Errno PosixFs.

Local Open Scope Z_scope.

(** ** References *)

#[export] Instance PFile_eq_dec : EqDecision PFile.
Proof. solve_decision. Defined.

(** How many descriptors refer to something. *)
Definition refs_to {F} `{EqDecision F} (m : gmap Z F) (x : F) : Z := Z.of_nat (size (filter (λ kv, kv.2 = x) m)).
Definition bump_to {F} `{EqDecision F} (f x : F) : Z := if decide (f = x) then 1 else 0.
Lemma refs_to_insert {F} `{EqDecision F} (m : gmap Z F) fd f x : m !! fd = None → refs_to (<[fd := f]> m) x = refs_to m x + bump_to f x.
Proof.
  intros Hm. unfold refs_to, bump_to. case_decide as Hf.
  - rewrite map_filter_insert_True by done. rewrite map_size_insert_None; [lia|].
    apply map_lookup_filter_None. by left.
  - rewrite map_filter_insert_not' by (done || by intros ? ?; simplify_eq). lia.
Qed.
Lemma refs_to_delete {F} `{EqDecision F} (m : gmap Z F) fd f x : m !! fd = Some f → refs_to m x = refs_to (delete fd m) x + bump_to f x.
Proof. intros Hm. rewrite <-(refs_to_insert (delete fd m) fd f x) by apply lookup_delete_eq. by rewrite insert_delete_id. Qed.

(** How many descriptors refer to an open file. *)
Definition refs (m : gmap Z PFile) (id : nat) : Z := refs_to m (PFs id).
Definition bump (f : PFile) (id : nat) : Z := bump_to f (PFs id).

Lemma refs_nonneg m id : 0 ≤ refs m id.
Proof. unfold refs, refs_to. lia. Qed.
Lemma refs_insert m fd f id : m !! fd = None → refs (<[fd := f]> m) id = refs m id + bump f id.
Proof. apply refs_to_insert. Qed.
Lemma refs_delete m fd f id : m !! fd = Some f → refs m id = refs (delete fd m) id + bump f id.
Proof. apply refs_to_delete. Qed.
Lemma refs_pos m fd id : m !! fd = Some (PFs id) → 1 ≤ refs m id.
Proof. intros Hm. rewrite (refs_delete m fd _ id Hm). unfold bump, bump_to. rewrite decide_True by done. pose proof (refs_nonneg (delete fd m) id). lia. Qed.
Lemma refs_zero m : (∀ id, refs m id = 0) → ∀ fd id, m !! fd ≠ Some (PFs id).
Proof. intros H0 fd id Hm. pose proof (refs_pos m fd id Hm). rewrite H0 in *. lia. Qed.

Section descriptors.
Context `{BF : Bitflags} {B : Type} `{BM : Bitmap B} `{BMS : !BitmapSpec B}.
Local Abbreviation PState := (@PState B).
Local Abbreviation PM := (M PState Z).

(** The open files are those that descriptors, and [extra] more references, refer to, with their number. *)
Record wf_with (m : gmap Z PFile) (extra : nat → Z) (s : PState) : Prop := {
  ww_table : fo_rep AX_FILE_LIMIT (p_table s) m;
  ww_count id : of_strong <$> p_files s !! id = (if decide (refs m id + extra id = 0) then None else Some (refs m id + extra id));
}.
Definition posix_wf (m : gmap Z PFile) : PState → Prop := wf_with m (λ _, 0).

(** *** Triples *)

Definition triple {A} (P : PState → Prop) (x : PM A) (Q : A → PState → Prop) (E : Z → PState → Prop) : Prop := ∀ s,
  P s → match x s with (Ok a, s') => Q a s' | (Err e, s') => E e s' | _ => True end.
Lemma triple_ret {A} (P : PState → Prop) (a : A) (Q : A → PState → Prop) E : (∀ s, P s → Q a s) → triple P (mret a) Q E.
Proof. intros H s HP. by apply H. Qed.
Lemma triple_throw {A} (P : PState → Prop) e (Q : A → PState → Prop) (E : Z → PState → Prop) : (∀ s, P s → E e s) → triple P (throw e) Q E.
Proof. intros H s HP. by apply H. Qed.
Lemma triple_bind {A C} P (x : PM A) (R : A → PState → Prop) (k : A → PM C) Q E :
  triple P x R E → (∀ a, triple (R a) (k a) Q E) → triple P (x ≫= k) Q E.
Proof.
  intros Hx Hk s HP. specialize (Hx s HP). unfold mbind, M_bind.
  destruct (x s) as [[a|e| |] s']; [|done..]. by apply Hk.
Qed.
Lemma triple_conseq {A} (P P' : PState → Prop) (x : PM A) (Q Q' : A → PState → Prop) (E E' : Z → PState → Prop) :
  triple P' x Q' E' → (∀ s, P s → P' s) → (∀ a s, Q' a s → Q a s) → (∀ e s, E' e s → E e s) → triple P x Q E.
Proof.
  intros H HP HQ HE s Hs. specialize (H s (HP s Hs)). destruct (x s) as [[a|e| |] s']; auto.
Qed.
Lemma triple_pure {A} (φ : Prop) (P : PState → Prop) (x : PM A) Q E : (φ → triple P x Q E) → triple (λ s, φ ∧ P s) x Q E.
Proof. intros H s [Hφ HP]. by apply H. Qed.

(** *** The parts of the state *)

Lemma keep_fs {A} m extra (x : M AxFs AxError A) :
  triple (wf_with m extra) (on_p_fs x) (λ _, wf_with m extra) (λ _, wf_with m extra).
Proof.
  intros s [Ht Hc]. unfold on_p_fs. destruct (to_linux x (p_fs s)) as [[a|e| |] t]; try done; by split.
Qed.
Lemma keep_stdin {A} m extra (x : M (BufReader StdinRaw) AxError A) :
  triple (wf_with m extra) (on_p_stdin x) (λ _, wf_with m extra) (λ _, wf_with m extra).
Proof.
  intros s [Ht Hc]. unfold on_p_stdin. destruct (to_linux x (p_stdin s)) as [[a|e| |] t]; try done; by split.
Qed.
Lemma keep_console m extra l : triple (wf_with m extra) (console_write l) (λ _, wf_with m extra) (λ _, wf_with m extra).
Proof. intros s [Ht Hc]. by split. Qed.
Lemma keep_file {A} m extra id (x : M (AxFs * File) AxError A) :
  triple (wf_with m extra) (on_file id x) (λ _, wf_with m extra) (λ _, wf_with m extra).
Proof.
  intros s [Ht Hc]. unfold on_file, mbind, M_bind, get_state, unwrap, mret, M_ret.
  destruct (p_files s !! id) as [o|] eqn:Ho; [|done]. cbv beta iota zeta.
  destruct (to_linux x (p_fs s, of_inner o)) as [[a|e| |] [fs f]]; cbv beta iota; try done; (split; [done|]); intros id'; cbn;
    (destruct (decide (id = id')) as [<-|Hne]; [rewrite lookup_insert_eq, <-Hc, Ho; done|by rewrite lookup_insert_ne]).
Qed.
Lemma get_file_triple m fd :
  c_int fd → triple (posix_wf m) (on_p_table (get_file_like fd)) (λ f s, m !! fd = Some f ∧ posix_wf m s)
    (λ e s, (m !! fd = None ∧ e = EBADF) ∧ posix_wf m s).
Proof.
  intros Hfd s Hs. destruct (Hs : wf_with m (λ _, 0) s) as [Ht Hc]. unfold on_p_table. rewrite (get_file_like_ok _ m fd Ht Hfd).
  destruct (m !! fd); by split_and!.
Qed.

(** *** References *)

Lemma wf_ext m e1 e2 s : (∀ id, e1 id = e2 id) → wf_with m e1 s → wf_with m e2 s.
Proof. intros He [Ht Hc]. split; [done|]. intros id. by rewrite Hc, He. Qed.
Lemma arc_new_triple m f :
  triple (posix_wf m) (arc_new f) (λ x s, (∃ id, x = PFs id ∧ refs m id = 0) ∧ wf_with m (bump x) s) (λ _ _, False).
Proof.
  intros s [Ht Hc]. unfold arc_new, set_files, mbind, M_bind, get_state, modify. cbv beta iota zeta.
  set (id := fresh (dom (p_files s))). assert (p_files s !! id = None) as Hnone by (apply not_elem_of_dom, is_fresh).
  assert (refs m id = 0) as H0.
  { specialize (Hc id). rewrite Hnone in Hc. cbn in Hc. case_decide; [lia|done]. }
  split; [by exists id|]. split; [done|]. intros id'. cbn. unfold bump, bump_to. destruct (decide (id = id')) as [<-|Hne].
  - rewrite lookup_insert_eq, !(decide_True (P := PFs id = PFs id)) by done. by rewrite H0.
  - rewrite lookup_insert_ne by done. rewrite (decide_False (P := PFs id = PFs id')) by congruence. apply Hc.
Qed.
Lemma arc_clone_triple m fd f :
  m !! fd = Some f → triple (posix_wf m) (arc_clone f) (λ _, wf_with m (bump f)) (λ _ _, False).
Proof.
  intros Hm s [Ht Hc]. destruct f as [| |id]; try (by apply wf_ext with (λ _, 0)).
  unfold arc_clone, mbind, M_bind, get_state, unwrap, mret, M_ret, set_files, modify.
  destruct (p_files s !! id) as [o|] eqn:Ho; [|done]. cbv beta iota zeta. split; [done|]. intros id'. cbn. unfold bump, bump_to.
  pose proof (refs_pos m fd id Hm). destruct (decide (id = id')) as [<-|Hne].
  - rewrite lookup_insert_eq, !(decide_True (P := PFs id = PFs id)), decide_False by (done || lia). cbn. f_equal.
    specialize (Hc id). rewrite Ho, decide_False in Hc by lia. cbn in Hc. injection Hc as ->. lia.
  - rewrite lookup_insert_ne by done. rewrite (decide_False (P := PFs id = PFs id')) by congruence. apply Hc.
Qed.
Lemma drop_loop_no_error fuel l (st : Store) e st' : drop_loop fuel l st ≠ (Err e, st').
Proof.
  revert l st. induction fuel as [|fuel IH]; intros [|n l] st; cbn [drop_loop]; try done.
  unfold get_inode, mbind, M_bind, get_state, unwrap, mret, M_ret, modify. destruct (st !! n) as [i|]; [|done].
  destruct (strong i =? 1); apply IH.
Qed.
Lemma file_drop_triple m extra f : triple (wf_with m extra) (on_p_fs (File_drop f)) (λ _, wf_with m extra) (λ _ _, False).
Proof.
  intros s Hs. pose proof (keep_fs m extra (File_drop f) s Hs) as H. unfold on_p_fs in *.
  destruct (to_linux (File_drop f) (p_fs s)) as [[a|e| |] t] eqn:E; try done.
  unfold to_linux, File_drop, vref_drop in E. destruct (inner (f_node f)) as [|n]; [done|]. unfold on_store, node_drop, mbind, M_bind, get_state in E.
  destruct (drop_loop _ [n] (store (p_fs s))) as [[?|?| |] ?] eqn:Ed; try done. by apply drop_loop_no_error in Ed.
Qed.
Lemma arc_drop_triple m f : triple (wf_with m (bump f)) (arc_drop f) (λ _, posix_wf m) (λ _ _, False).
Proof.
  destruct f as [| |id]; [intros s Hs; by eapply wf_ext, Hs..|].
  intros s [Ht Hc]. unfold arc_drop, mbind, M_bind, get_state, unwrap, mret, M_ret.
  pose proof (Hc id) as Hid. unfold bump, bump_to in Hid. rewrite !(decide_True (P := PFs id = PFs id)) in Hid by done. pose proof (refs_nonneg m id).
  destruct (p_files s !! id) as [o|] eqn:Ho; [|done]. rewrite decide_False in Hid by lia. cbn in Hid. injection Hid as Hid.
  assert (∀ id', id' ≠ id → of_strong <$> p_files s !! id' = (if decide (refs m id' + 0 = 0) then None else Some (refs m id' + 0))) as Hother.
  { intros id' Hne. rewrite Hc. unfold bump, bump_to. by rewrite (decide_False (P := PFs id = PFs id')) by congruence. }
  destruct (Z.eqb_spec (of_strong o) 1) as [E1|E1]; unfold set_files, modify; cbv beta iota.
  - apply file_drop_triple. split; [done|]. intros id'. cbn. destruct (decide (id = id')) as [<-|Hne].
    + rewrite lookup_delete_eq. rewrite decide_True by lia. done.
    + rewrite lookup_delete_ne by done. by apply Hother.
  - split; [done|]. intros id'. cbn. destruct (decide (id = id')) as [<-|Hne].
    + rewrite lookup_insert_eq, decide_False by lia. cbn. f_equal. lia.
    + rewrite lookup_insert_ne by done. by apply Hother.
Qed.
(** A free descriptor is taken, the least one, or none is free. *)
Definition least_free (m : gmap Z PFile) (fd : Z) : Prop := 0 ≤ fd < AX_FILE_LIMIT ∧ m !! fd = None ∧ used_below m fd.
Lemma add_or_drop_triple m f :
  triple (wf_with m (bump f)) (add_or_drop f) (λ fd s, least_free m fd ∧ posix_wf (<[fd := f]> m) s)
    (λ e s, (e = EMFILE ∧ used_below m AX_FILE_LIMIT) ∧ posix_wf m s).
Proof.
  intros s Hs. destruct (Hs) as [Ht Hc]. unfold add_or_drop, on_p_table.
  destruct (add_file_like_ok (p_table s) m f Ht) as [(fd & t' & -> & Hr & Hn & Hu & Ht')|[-> Hfull]].
  - split; [done|]. split; [done|]. intros id. cbn. rewrite Hc, refs_insert by done. by rewrite Z.add_0_r.
  - pose proof (arc_drop_triple m f s Hs) as Hd. unfold mbind, M_bind.
    destruct s as [t fl a b c]. cbn in *. destruct (arc_drop f _) as [[[]|e| |] s']; try done.
Qed.
Lemma remove_triple m fd :
  c_int fd →
  triple (posix_wf m) (on_p_table (r ← on_table (fo_remove AX_FILE_LIMIT (as_usize fd)); ok_or_errno EBADF r))
    (λ f s, m !! fd = Some f ∧ wf_with (delete fd m) (bump f) s) (λ e s, (m !! fd = None ∧ e = EBADF) ∧ posix_wf m s).
Proof.
  intros Hfd s [Ht Hc]. unfold on_p_table, on_table, mbind, M_bind.
  destruct (fo_remove_ok AX_FILE_LIMIT _ m _ Ht (as_usize_range fd)) as (t' & -> & Ht').
  assert (m !! as_usize fd = m !! fd) as El by (by apply (fd_lookup (p_table s))). rewrite El.
  destruct (m !! fd) as [f|] eqn:Hm; cbn.
  - split; [done|]. assert (as_usize fd = fd) as Eu.
    { apply as_usize_nonneg; [done|]. destruct (fr_object _ _ _ Ht fd f Hm). lia. }
    rewrite Eu in Ht'. split; [done|]. intros id. cbn. rewrite Hc, (refs_delete m fd f id Hm). by rewrite Z.add_0_r.
  - split; [done|]. rewrite delete_id in Ht' by done. by split.
Qed.

(** *** The calls *)

Inductive PCall : Type :=
| COpen (filename : CStr) (flags : Z) | CClose (fd : Z) | CDup (fd : Z) | CDup2 (old_fd new_fd : Z) | CFcntl (fd cmd arg : Z)
| CRead (arrivals : list (list Z)) (fd : Z) (buf_null : bool) (count : Z) | CWrite (fd : Z) (buf : option (list Z))
| CWritev (fd : Z) (iov : list (option (list Z))) (iocnt : Z) | CSeek (fd offset whence : Z)
| CStat (path : CStr) (buf_null : bool) | CFstat (fd : Z) (buf_null : bool) | CLstat (path : CStr) (buf_null : bool)
| CGetcwd (buf size : Z) | CRename (old new : CStr).
Definition fst_of {A} (x : M PState NoError (Z * A)) : M PState NoError Z := r ← x; mret r.1.
Definition run_call (c : PCall) : M PState NoError Z :=
  match c with
  | COpen f fl => fst_of (sys_open f fl) | CClose fd => fst_of (posix_close fd) | CDup fd => fst_of (posix_dup fd)
  | CDup2 fd new => fst_of (posix_dup2 fd new) | CFcntl fd cmd arg => fst_of (posix_fcntl fd cmd arg)
  | CRead a fd n k => fst_of (sys_read a fd n k) | CWrite fd b => fst_of (sys_write fd b)
  | CWritev fd v k => fst_of (sys_writev fd v k) | CSeek fd o w => fst_of (sys_lseek fd o w)
  | CStat p n => fst_of (sys_stat p n) | CFstat fd n => fst_of (sys_fstat fd n) | CLstat p n => fst_of (sys_lstat p n)
  | CGetcwd b n => fst_of (sys_getcwd b n) | CRename o n => fst_of (sys_rename o n)
  end.
(** The descriptors among the arguments are numbers of type [int]. *)
Definition call_args (c : PCall) : Prop :=
  match c with
  | CClose fd | CDup fd | CFcntl fd _ _ | CRead _ fd _ _ | CWrite fd _ | CWritev fd _ _ | CSeek fd _ _ | CFstat fd _ => c_int fd
  | CDup2 fd new => c_int fd ∧ c_int new
  | _ => True
  end.
(** What a call does to the map of descriptors. *)
Definition dup_spec (m : gmap Z PFile) (fd r : Z) (m' : gmap Z PFile) : Prop :=
  match m !! fd with
  | Some f => (least_free m r ∧ m' = <[r := f]> m) ∨ (r = - EMFILE ∧ used_below m AX_FILE_LIMIT ∧ m' = m)
  | None => r = - EBADF ∧ m' = m
  end.
Definition dup2_spec (m : gmap Z PFile) (fd new r : Z) (m' : gmap Z PFile) : Prop :=
  if decide (fd = new) then r = fd ∧ m' = m
  else if decide (0 ≤ new < AX_FILE_LIMIT) then
    match m !! fd, m !! new with
    | None, _ => r = - EBADF ∧ m' = m
    | Some _, Some _ => r = - EMFILE ∧ m' = m
    | Some f, None => r = new ∧ m' = <[new := f]> m
    end
  else r = - EBADF ∧ m' = m.
(** The sum of the errors of writes to a number that is not open. *)
Definition errors_sum (iov : list (option (list Z))) : Z := foldr (λ b r, r - match b with Some _ => EBADF | None => EFAULT end) 0 iov.
Definition call_spec (m : gmap Z PFile) (c : PCall) (r : Z) (m' : gmap Z PFile) : Prop :=
  match c with
  | COpen _ _ =>
      (r < 0 ∧ m' = m) ∨ (least_free m r ∧ ∃ id, refs m id = 0 ∧ m' = <[r := PFs id]> m)
  | CClose fd =>
      if decide (0 ≤ fd ≤ 2) then r = 0 ∧ m' = m
      else match m !! fd with Some _ => r = 0 ∧ m' = delete fd m | None => r = - EBADF ∧ m' = m end
  | CDup fd => dup_spec m fd r m'
  | CDup2 fd new => dup2_spec m fd new r m'
  | CFcntl fd cmd _ =>
      if decide (wrap 32 cmd = F_DUPFD ∨ wrap 32 cmd = F_DUPFD_CLOEXEC) then dup_spec m fd r m'
      else m' = m ∧ r = if decide (wrap 32 cmd = F_SETFL ∧ ¬ 0 ≤ fd ≤ 2 ∧ m !! fd = None) then - EBADF else 0
  | CRead _ fd null _ => m' = m ∧ (m !! fd = None → r = if null then - EFAULT else - EBADF)
  | CWrite fd buf => m' = m ∧ (m !! fd = None → r = match buf with Some _ => - EBADF | None => - EFAULT end)
  | CWritev fd iov k => m' = m ∧ (m !! fd = None → 0 ≤ k ≤ 1024 → r = errors_sum (take (Z.to_nat k) iov))
  | CSeek fd _ whence => m' = m ∧ (m !! fd = None → r = if decide (0 ≤ whence ≤ 2) then - EBADF else - EINVAL)
  | CFstat fd null => m' = m ∧ (m !! fd = None → r = if null then - EFAULT else - EBADF)
  | _ => m' = m
  end.

(** *** Calls that leave the table as it is *)

Definition keeps {A} (m : gmap Z PFile) (x : PM A) : Prop := triple (posix_wf m) x (λ _, posix_wf m) (λ _, posix_wf m).
Lemma keeps_ret {A} m (a : A) : keeps m (mret a).
Proof. by apply triple_ret. Qed.
Lemma keeps_throw {A} m e : keeps (A := A) m (throw e).
Proof. by apply triple_throw. Qed.
Lemma keeps_panic {A} m : keeps (A := A) m panic.
Proof. by intros s Hs. Qed.
Lemma keeps_get m : keeps m get_state.
Proof. by intros s Hs. Qed.
Lemma keeps_bind {A C} m (x : PM A) (k : A → PM C) : keeps m x → (∀ a, keeps m (k a)) → keeps m (x ≫= k).
Proof. intros Hx Hk. by eapply triple_bind. Qed.
Lemma keeps_fs {A} m (x : M AxFs AxError A) : keeps m (on_p_fs x).
Proof. apply keep_fs. Qed.
Lemma keeps_stdin {A} m (x : M (BufReader StdinRaw) AxError A) : keeps m (on_p_stdin x).
Proof. apply keep_stdin. Qed.
Lemma keeps_console m l : keeps m (console_write l).
Proof. apply keep_console. Qed.
Lemma keeps_file {A} m id (x : M (AxFs * File) AxError A) : keeps m (on_file id x).
Proof. apply keep_file. Qed.
Lemma keeps_get_file m fd : c_int fd → keeps m (on_p_table (get_file_like fd)).
Proof. intros Hfd. eapply triple_conseq; [by apply get_file_triple|done|by intros f s []|by intros e s []]. Qed.
Lemma keeps_path m p : keeps m (char_ptr_to_str p).
Proof. destruct p; [apply keeps_throw|apply keeps_throw|apply keeps_ret]. Qed.
#[local] Hint Resolve keeps_ret keeps_throw keeps_panic keeps_get keeps_fs keeps_stdin keeps_console keeps_file
  keeps_get_file keeps_path : keeps.
Ltac keep := repeat (intros; cbv zeta; first [solve [auto with keeps] | case_match | simple apply keeps_bind]).

Lemma keeps_try {A C} m (x : PM A) (y : A → PM C) (z : Z → PM C) :
  keeps m x → (∀ a, keeps m (y a)) → (∀ e, keeps m (z e)) →
  keeps m (λ s, match x s with (Ok a, s') => y a s' | (Err e, s') => z e s' | (Panic, s') => (Panic, s') | (OutOfFuel, s') => (OutOfFuel, s') end).
Proof.
  intros Hx Hy Hz s Hs. specialize (Hx s Hs). destruct (x s) as [[a|e| |] s']; [by apply Hy|by apply Hz|done|done].
Qed.
Lemma keeps_read m arrivals f n : keeps m (file_like_read arrivals f n).
Proof. destruct f; cbn [file_like_read]; keep. Qed.
Lemma keeps_write m f buf : keeps m (file_like_write f buf).
Proof. destruct f; cbn [file_like_write]; keep. Qed.
Lemma keeps_stat m f : keeps m (file_like_stat f).
Proof. destruct f; cbn [file_like_stat]; keep. Qed.
#[local] Hint Resolve keeps_read keeps_write keeps_stat : keeps.

Lemma syscall_inv {A} P (d : A) (x : PM (Z * A)) Q E s v s' :
  triple P x Q E → P s → syscall d x s = (Ok v, s') → Q v s' ∨ ∃ e, v = (- e, d) ∧ E e s'.
Proof.
  intros Hx HP. specialize (Hx s HP). unfold syscall. destruct (x s) as [[a|e| |] s1]; intros [= <- <-]; [by left|].
  right. by exists e.
Qed.
Lemma keeps_syscall {A} m (d : A) (x : PM (Z * A)) s v s' :
  keeps m x → posix_wf m s → syscall d x s = (Ok v, s') → posix_wf m s'.
Proof. intros Hx Hs Hr. destruct (syscall_inv _ d x _ _ s v s' Hx Hs Hr) as [|(e & _ & ?)]; done. Qed.
Lemma keeps_sys_write m fd buf s v s' : c_int fd → posix_wf m s → sys_write fd buf s = (Ok v, s') → posix_wf m s'.
Proof. intros Hfd. apply keeps_syscall. destruct buf; keep. Qed.
Lemma keeps_writev m fd iovs ret s r s' : c_int fd → posix_wf m s → writev_loop fd iovs ret s = (Ok r, s') → posix_wf m s'.
Proof.
  intros Hfd. revert ret s. induction iovs as [|iov iovs IH]; intros ret s Hs; cbn [writev_loop]; [by intros [= _ <-]|].
  intros (v & s1 & H1 & H2)%M_bind_ok_inv. eapply IH; [|exact H2]. by eapply keeps_sys_write.
Qed.
Lemma keeps_sys_writev m fd iov k : c_int fd →
  keeps m (if negb ((0 <=? k) && (k <=? 1024))%bool then throw EINVAL
     else if (length iov <? Z.to_nat k)%nat then panic
     else r ← no_error (writev_loop fd (take (Z.to_nat k) iov) 0); mret (r, tt)).
Proof.
  intros Hfd. case_match; [apply keeps_throw|]. case_match; [apply keeps_panic|]. apply keeps_bind; [|intros; apply keeps_ret].
  intros s Hs. unfold no_error. destruct (writev_loop _ _ _ s) as [[a|[]| |] s'] eqn:E; try done. by eapply keeps_writev.
Qed.
Lemma fs_error_positive {A} m (x : M AxFs AxError A) :
  triple (posix_wf m) (on_p_fs x) (λ _, posix_wf m) (λ e s, 0 < e ∧ posix_wf m s).
Proof.
  intros s Hs. pose proof (keep_fs m _ x s Hs) as Hk. unfold on_p_fs, to_linux in *.
  destruct (x (p_fs s)) as [[a|e| |] t]; try done. split; [by destruct e|done].
Qed.
Lemma open_triple m filename flags :
  triple (posix_wf m)
    (path ← char_ptr_to_str filename; file ← open_options path (flags_to_options flags); fd ← add_to_fd_table file; mret (fd, tt))
    (λ v s, least_free m v.1 ∧ ∃ id, refs m id = 0 ∧ posix_wf (<[v.1 := PFs id]> m) s) (λ e s, 0 < e ∧ posix_wf m s).
Proof.
  eapply triple_bind with (R := λ _, posix_wf m).
  { destruct filename; [apply triple_throw|apply triple_throw|apply triple_ret]; done. }
  intros path. eapply triple_bind; [apply fs_error_positive|]. intros file. unfold add_to_fd_table.
  eapply triple_bind; [|intros fd; apply triple_ret; exact (λ s h, h)].
  eapply triple_bind; [eapply triple_conseq; [apply arc_new_triple|done|exact (λ a s h, h)|done]|].
  intros x. apply triple_pure. intros (id & -> & H0).
  eapply triple_conseq; [apply add_or_drop_triple|done| |].
  - intros fd s [Hl Hs]. split; [exact Hl|]. by exists id.
  - by intros e s [[-> _] Hs].
Qed.
Lemma close_triple m fd :
  c_int fd →
  triple (posix_wf m)
    (f ← on_p_table (r ← on_table (fo_remove AX_FILE_LIMIT (as_usize fd)); ok_or_errno EBADF r); _ ← arc_drop f; mret (0, tt))
    (λ v s, v.1 = 0 ∧ is_Some (m !! fd) ∧ posix_wf (delete fd m) s) (λ e s, (m !! fd = None ∧ e = EBADF) ∧ posix_wf m s).
Proof.
  intros Hfd. eapply triple_bind; [by apply remove_triple|]. intros f. apply triple_pure. intros Hm.
  eapply triple_bind; [eapply triple_conseq; [apply arc_drop_triple|done|exact (λ a s h, h)|done]|].
  intros []. apply triple_ret. by eauto.
Qed.
Lemma dup_triple m fd f :
  c_int fd → m !! fd = Some f →
  triple (posix_wf m) (posix_dup_fd fd)
    (λ new s, least_free m new ∧ posix_wf (<[new := f]> m) s)
    (λ e s, (e = EMFILE ∧ used_below m AX_FILE_LIMIT) ∧ posix_wf m s).
Proof.
  intros Hfd Hm. eapply triple_bind; [eapply triple_conseq; [by apply (get_file_triple m fd)|done|exact (λ a s h, h)|]|].
  { intros e t [[Hn _] _]. by rewrite Hm in Hn. }
  intros f'. apply triple_pure. rewrite Hm. intros [= <-].
  eapply triple_bind; [eapply triple_conseq; [by eapply arc_clone_triple|done|exact (λ a s h, h)|done]|].
  intros []. apply add_or_drop_triple.
Qed.
Lemma posix_fcntl_getfd fd s : no_error (posix_fcntl fd F_GETFD 0) s = (Ok (0, tt), s).
Proof. done. Qed.
Lemma add_at_triple m fd f :
  0 ≤ fd < AX_FILE_LIMIT →
  triple (wf_with m (bump f)) (add_at_or_drop fd f) (λ _ s, m !! fd = None ∧ posix_wf (<[fd := f]> m) s)
    (λ e s, (e = EMFILE ∧ is_Some (m !! fd)) ∧ posix_wf m s).
Proof.
  intros Hfd s Hs. destruct (Hs) as [Ht Hc]. unfold add_at_or_drop, on_p_table, on_table. pose proof (fo_add_at_ok _ (p_table s) m fd f Ht Hfd) as Ha.
  destruct (m !! fd) as [x|] eqn:Hm.
  - unfold mbind, M_bind. rewrite Ha. cbn [ok_or_errno throw]. pose proof (arc_drop_triple m f s Hs) as Hd. destruct s as [t fl a b c]. cbn in *.
    destruct (arc_drop f _) as [[[]|e| |] s']; done.
  - destruct Ha as (t' & Ha & Ht'). unfold mbind, M_bind. rewrite Ha. cbn. split; [done|]. split; [done|].
    intros id. cbn. rewrite Hc, refs_insert by done. by rewrite Z.add_0_r.
Qed.
Lemma dup2_triple m fd new f :
  c_int fd → m !! fd = Some f → 0 ≤ new < AX_FILE_LIMIT →
  triple (posix_wf m) (f ← on_p_table (get_file_like fd); _ ← arc_clone f; _ ← add_at_or_drop new f; mret (new, tt))
    (λ v s, v.1 = new ∧ m !! new = None ∧ posix_wf (<[new := f]> m) s) (λ e s, (e = EMFILE ∧ is_Some (m !! new)) ∧ posix_wf m s).
Proof.
  intros Hfd Hm Hn. eapply triple_bind; [eapply triple_conseq; [by apply (get_file_triple m fd)|done|exact (λ a s h, h)|]|].
  { intros e t [[Hx _] _]. by rewrite Hm in Hx. }
  intros f'. apply triple_pure. rewrite Hm. intros [= <-].
  eapply triple_bind; [eapply triple_conseq; [by eapply arc_clone_triple|done|exact (λ a s h, h)|done]|].
  intros []. eapply triple_bind; [by apply add_at_triple|]. intros []. by apply triple_ret.
Qed.
Lemma fst_of_inv {A} (x : M PState NoError (Z * A)) s r s' : fst_of x s = (Ok r, s') → ∃ a, x s = (Ok (r, a), s').
Proof. unfold fst_of. intros ([r' a] & s1 & Hx & [= <- <-])%M_bind_ok_inv. by exists a. Qed.

Lemma get_file_open m fd f s : c_int fd → posix_wf m s → m !! fd = Some f → on_p_table (get_file_like fd) s = (Ok f, s).
Proof. intros Hfd [Ht _] Hm. unfold on_p_table. rewrite (get_file_like_ok _ m fd Ht Hfd), Hm. by destruct s. Qed.
Lemma get_file_closed m fd s : c_int fd → posix_wf m s → m !! fd = None → on_p_table (get_file_like fd) s = (Err EBADF, s).
Proof. intros Hfd [Ht _] Hm. unfold on_p_table. rewrite (get_file_like_ok _ m fd Ht Hfd), Hm. by destruct s. Qed.
Lemma syscall_closed {A} m fd s (d : A) (k : PFile → PM (Z * A)) :
  c_int fd → posix_wf m s → m !! fd = None → syscall d (f ← on_p_table (get_file_like fd); k f) s = (Ok (- EBADF, d), s).
Proof. intros Hfd Hs Hm. unfold syscall. by erewrite M_bind_err by (by apply (get_file_closed m)). Qed.
Lemma posix_dup_call_ok m fd s v s' :
  posix_wf m s → c_int fd → syscall tt (fd ← posix_dup_fd fd; mret (fd, tt)) s = (Ok v, s') →
  ∃ m', dup_spec m fd v.1 m' ∧ posix_wf m' s'.
Proof.
  intros Hs Hfd Hr. unfold dup_spec. destruct (m !! fd) as [f|] eqn:Hm.
  - assert (triple (posix_wf m) (fd ← posix_dup_fd fd; mret (fd, tt)) (λ v s, least_free m v.1 ∧ posix_wf (<[v.1 := f]> m) s)
      (λ e s, (e = EMFILE ∧ used_below m AX_FILE_LIMIT) ∧ posix_wf m s)) as Ht.
    { eapply triple_bind; [by apply dup_triple|]. intros new. by apply triple_ret. }
    destruct (syscall_inv _ _ _ _ _ _ _ _ Ht Hs Hr) as [[Hl H]|(e & -> & [-> Hu] & H)].
    + exists (<[v.1 := f]> m). split; [by left|done].
    + exists m. split; [by right|done].
  - unfold syscall, posix_dup_fd in Hr. erewrite M_bind_err in Hr by (by erewrite M_bind_err by (by apply (get_file_closed m))).
    injection Hr as <- <-. by exists m.
Qed.
Lemma fcntl_call_ok m fd cmd arg s v s' :
  posix_wf m s → c_int fd → posix_fcntl fd cmd arg s = (Ok v, s') → ∃ m', call_spec m (CFcntl fd cmd arg) v.1 m' ∧ posix_wf m' s'.
Proof.
  intros Hs Hfd Hr. unfold posix_fcntl in Hr. cbn [call_spec]. destruct (decide (_ ∨ _)) as [Hd|Hd].
  { assert (((wrap 32 cmd =? F_DUPFD) || (wrap 32 cmd =? F_DUPFD_CLOEXEC))%bool = true) as E by (destruct Hd as [-> | ->]; done).
    cbv zeta in Hr. rewrite E in Hr. by apply (posix_dup_call_ok m fd s v s'). }
  assert (((wrap 32 cmd =? F_DUPFD) || (wrap 32 cmd =? F_DUPFD_CLOEXEC))%bool = false) as E by lia. cbv zeta in Hr. rewrite E in Hr. clear E.
  exists m. destruct (Z.eqb_spec (wrap 32 cmd) F_SETFL) as [Hc|Hc]; [|rewrite decide_False by (by intros [? _]); by injection Hr as <- <-].
  destruct (((fd =? 0) || (fd =? 1) || (fd =? 2))%bool) eqn:E2; [rewrite decide_False by lia; by injection Hr as <- <-|].
  destruct (m !! fd) as [f|] eqn:Hm.
  - rewrite decide_False by (by intros (_ & _ & ?)). unfold syscall in Hr.
    erewrite M_bind_ok in Hr by (apply (get_file_open m fd f); done). by injection Hr as <- <-.
  - rewrite decide_True by (split_and!; [done|lia|done]). rewrite (syscall_closed m) in Hr by done. by injection Hr as <- <-.
Qed.
Lemma dup2_call_ok m fd new s v s' :
  posix_wf m s → c_int fd → c_int new → posix_dup2 fd new s = (Ok v, s') → ∃ m', dup2_spec m fd new v.1 m' ∧ posix_wf m' s'.
Proof.
  intros Hs Hfd Hcn Hr. unfold posix_dup2 in Hr. unfold dup2_spec. destruct (Z.eqb_spec fd new) as [->|Hne].
  { destruct (decide (new = new)); [|done]. unfold syscall in Hr. erewrite M_bind_ok in Hr by apply posix_fcntl_getfd. injection Hr as <- <-. by exists m. }
  destruct (decide (fd = new)); [done|]. destruct (decide (0 ≤ new < AX_FILE_LIMIT)) as [Hn|Hn].
  - rewrite (as_usize_nonneg new Hcn), (proj2 (Z.leb_gt AX_FILE_LIMIT new)) in Hr by lia. destruct (m !! fd) as [f|] eqn:Hm.
    + destruct (syscall_inv _ _ _ _ _ _ _ _ (dup2_triple m fd new f Hfd Hm Hn) Hs Hr) as [(H1 & -> & H)|(e & -> & [-> [x ->]] & H)].
      * by exists (<[new := f]> m).
      * by exists m.
    + rewrite (syscall_closed m) in Hr by done. injection Hr as <- <-. by exists m.
  - assert (AX_FILE_LIMIT ≤ as_usize new) as Hl.
    { destruct (decide (0 ≤ new)); [rewrite as_usize_nonneg by done; lia|]. apply (as_usize_neg (p_table s) m new); [by destruct Hs|done|lia]. }
    rewrite (proj2 (Z.leb_le AX_FILE_LIMIT _) Hl) in Hr. injection Hr as <- <-. by exists m.
Qed.
Lemma writev_closed m fd s : c_int fd → posix_wf m s → m !! fd = None →
  ∀ iov ret, Z.of_nat (length iov) ≤ 1024 → - 14 * (1024 - Z.of_nat (length iov)) ≤ ret ≤ 0 →
  writev_loop fd iov ret s = (Ok (ret + errors_sum iov), s).
Proof.
  intros Hfd Hs Hm. induction iov as [|b iov IH]; intros ret Hl Hret; cbn [writev_loop errors_sum foldr length] in *; [by rewrite Z.add_0_r|].
  erewrite (M_bind_ok _ _ s (match b with Some _ => - EBADF | None => - EFAULT end, tt) s).
  2: { destruct b; [|done]. unfold sys_write. by rewrite (syscall_closed m). }
  cbn [fst]. rewrite wrap_i64_small by (destruct b; unfold EBADF, EFAULT; lia). rewrite IH by (destruct b; unfold EBADF, EFAULT; lia).
  unfold errors_sum. destruct b; do 2 f_equal; lia.
Qed.
Lemma seek_closed m fd o w s v s' :
  c_int fd → posix_wf m s → m !! fd = None → sys_lseek fd o w s = (Ok v, s') → v.1 = if decide (0 ≤ w ≤ 2) then - EBADF else - EINVAL.
Proof.
  intros Hfd Hs Hm. assert (File_from_fd fd s = (Err EBADF, s)) as Hf by (unfold File_from_fd; by erewrite M_bind_err by (by apply (get_file_closed m))).
  unfold sys_lseek, syscall, mbind, M_bind.
  destruct (Z.eqb_spec w 0); [|destruct (Z.eqb_spec w 1); [|destruct (Z.eqb_spec w 2)]]; cbn [mret M_ret throw];
    rewrite ?Hf; intros [= <- _]; case_decide; (done || lia).
Qed.
Lemma call_spec_ok m s c r s' :
  posix_wf m s → call_args c → run_call c s = (Ok r, s') → ∃ m', call_spec m c r m' ∧ posix_wf m' s'.
Proof.
  intros Hs Hfd. destruct c as [p fl|fd|fd|fd new|fd cmd arg|ar fd nl k|fd b|fd v k|fd o w|p nl|fd nl|p nl|b n|o n];
    cbn [run_call call_args] in *; intros (a & Hr)%fst_of_inv.
  - destruct (syscall_inv _ _ _ _ _ _ _ _ (open_triple m p fl) Hs Hr) as [(Hl & id & H0 & H)|(e & [= -> ->] & He & H)].
    + exists (<[r := PFs id]> m). split; [right; split; [exact Hl|by exists id]|exact H].
    + exists m. split; [left; split; [lia|done]|done].
  - unfold posix_close in Hr. cbn [call_spec]. destruct (decide (0 ≤ fd ≤ 2)) as [H02|H02].
    { replace ((0 <=? fd) && (fd <=? 2))%bool with true in Hr by lia. injection Hr as <- _ <-. by exists m. }
    replace ((0 <=? fd) && (fd <=? 2))%bool with false in Hr by lia.
    destruct (syscall_inv _ _ _ _ _ _ _ _ (close_triple m fd Hfd) Hs Hr) as [(Hr0 & [f Hm] & H)|(e & [= -> ->] & [Hm ->] & H)]; rewrite Hm;
      [by exists (delete fd m)|by exists m].
  - by apply (posix_dup_call_ok m fd s (r, a)).
  - destruct Hfd. by apply (dup2_call_ok m fd new s (r, a)).
  - by apply (fcntl_call_ok m fd cmd arg s (r, a)).
  - exists m. split; [split; [done|]|].
    + intros Hm. unfold sys_read in Hr. destruct nl; [by injection Hr as <- _ _|]. rewrite (syscall_closed m) in Hr by done. by injection Hr as <- _ _.
    + eapply keeps_syscall; [|exact Hs|exact Hr]. keep.
  - exists m. split; [split; [done|]|by eapply keeps_sys_write].
    intros Hm. unfold sys_write in Hr. destruct b as [l|]; [|by injection Hr as <- _ _].
    rewrite (syscall_closed m) in Hr by done. by injection Hr as <- _ _.
  - exists m. split; [split; [done|]|eapply keeps_syscall; [|exact Hs|exact Hr]; by apply keeps_sys_writev].
    intros Hm Hk. unfold sys_writev, syscall in Hr. replace ((0 <=? k) && (k <=? 1024))%bool with true in Hr by lia. cbn [negb] in Hr.
    destruct (_ <? _)%nat; [done|]. erewrite M_bind_ok in Hr by (unfold no_error; by rewrite (writev_closed m) by (done || rewrite ?length_take; lia)).
    by injection Hr as <- _ _.
  - exists m. split; [split; [done|]|eapply keeps_syscall; [|exact Hs|exact Hr]; unfold File_from_fd; keep].
    intros Hm. by apply (seek_closed m fd o w s (r, a) s').
  - exists m. split; [done|]. eapply keeps_syscall; [|exact Hs|exact Hr]. unfold open_options. case_match; [keep|].
    do 2 (apply keeps_bind; [solve [auto with keeps]|intros ?]).
    apply (keeps_try m _ (λ st, _ ← on_p_fs (File_drop _); mret (0, Some st)) (λ e, _ ← on_p_fs (File_drop _); throw e)); keep.
  - exists m. split; [split; [done|]|eapply keeps_syscall; [|exact Hs|exact Hr]; keep].
    intros Hm. unfold sys_fstat in Hr. destruct nl; [by injection Hr as <- _ _|]. rewrite (syscall_closed m) in Hr by done. by injection Hr as <- _ _.
  - exists m. split; [done|]. eapply keeps_syscall; [|exact Hs|exact Hr]. keep.
  - exists m. split; [done|]. eapply keeps_syscall; [|exact Hs|exact Hr]. keep.
  - exists m. split; [done|]. eapply keeps_syscall; [|exact Hs|exact Hr]. keep.
Qed.


(** ** Data *)

(** The state after an operation on an open file. *)
Definition file_updated (s : PState) (id : nat) (f : File) (fs : AxFs) : PState :=
  {| p_table := p_table s; p_files := alter (λ o, {| of_inner := f; of_strong := of_strong o |}) id (p_files s); p_fs := fs;
     p_stdin := p_stdin s; p_stdout := p_stdout s |}.
Lemma on_file_ok {A} s id o (x : M (AxFs * File) AxError A) a fs f :
  p_files s !! id = Some o → x (p_fs s, of_inner o) = (Ok a, (fs, f)) → on_file id x s = (Ok a, file_updated s id f fs).
Proof.
  intros Ho Hx. unfold on_file, mbind, M_bind, get_state, unwrap, mret, M_ret. rewrite Ho. cbv beta iota. unfold to_linux. rewrite Hx.
  unfold file_updated. f_equal. f_equal. symmetry. apply map_eq. intros i. destruct (decide (id = i)) as [<-|Hne].
  - by rewrite lookup_alter_eq, lookup_insert_eq, Ho.
  - by rewrite lookup_alter_ne, lookup_insert_ne.
Qed.
Lemma file_updated_twice s id f1 fs1 f2 fs2 : file_updated (file_updated s id f1 fs1) id f2 fs2 = file_updated s id f2 fs2.
Proof. unfold file_updated. cbn. f_equal. by rewrite alter_alter_eq. Qed.
Lemma file_updated_wf m s id f fs : posix_wf m s → posix_wf m (file_updated s id f fs).
Proof.
  intros [Ht Hc]. split; [done|]. intros i. rewrite <-Hc. cbn. destruct (decide (id = i)) as [<-|Hne].
  - rewrite lookup_alter_eq. by destruct (p_files s !! id).
  - by rewrite lookup_alter_ne.
Qed.

(** An open file behind descriptors: its number, its cursor and its node. *)
Record opened (m : gmap Z PFile) (s : PState) (id : nat) (f : File) (n : nid) (str : Z) (content : list Z) : Prop := {
  op_wf : posix_wf m s;
  op_file : of_inner <$> p_files s !! id = Some f;
  op_inner : inner (f_node f) = VNode n;
  op_node : store (p_fs s) !! n = Some {| ino := RamFile content; strong := str |};
}.
Section data.
Context `{BS : !BitflagsSpec BF}.
Context (m : gmap Z PFile) (id : nat) (n : nid) (str : Z) (fd : Z) (Hfd : c_int fd) (Hm : m !! fd = Some (PFs id)).

Lemma sys_write_ok s f content buf :
  opened m s id f n str content → can_access (f_node f) CAP_WRITE = true →
  let off := if is_append f then len content else offset f in
  0 ≤ off → off + len buf < 2 ^ 63 →
  ∃ s', sys_write fd (Some buf) s = (Ok (len buf, tt), s') ∧
    opened m s' id (at_offset f (off + len buf)) n str (written (Z.to_nat off) buf content) ∧
    s' = file_updated s id (at_offset f (off + len buf)) (with_node (p_fs s) n {| ino := RamFile (written (Z.to_nat off) buf content); strong := str |}).
Proof.
  intros [Hw Ho Hi Hn] Hc off H0 Hl. destruct (p_files s !! id) as [o|] eqn:Eo; [|done]. injection Ho as Ho.
  pose proof (File_write_ok (p_fs s) f n str content buf Hi Hn Hc H0 Hl) as Hwr. 
  eexists. split; [|split; [|reflexivity]].
  - unfold sys_write, syscall. erewrite M_bind_ok by (by apply (get_file_open m fd (PFs id))). cbn [file_like_write].
    by erewrite M_bind_ok by (apply (on_file_ok s id o); [done|rewrite Ho; exact Hwr]).
  - split; [by apply file_updated_wf| |done|apply lookup_insert_eq]. cbn. by rewrite lookup_alter_eq, Eo.
Qed.
Lemma sys_lseek_start s f content pos :
  opened m s id f n str content →
  ∃ s', sys_lseek fd pos 0 s = (Ok (wrap_i64 (wrap 64 pos), tt), s') ∧ opened m s' id (at_offset f (wrap 64 pos)) n str content ∧
    s' = file_updated s id (at_offset f (wrap 64 pos)) (p_fs s).
Proof.
  intros [Hw Ho Hi Hn]. destruct (p_files s !! id) as [o|] eqn:Eo; [|done]. injection Ho as Ho.
  pose proof (File_seek_start (p_fs s) f n str content (wrap 64 pos) Hi Hn) as Hsk. eexists. split; [|split; [|reflexivity]].
  - unfold sys_lseek, syscall. erewrite M_bind_ok by reflexivity.
    erewrite M_bind_ok by (unfold File_from_fd; by erewrite M_bind_ok by (by apply (get_file_open m fd (PFs id)))).
    by erewrite M_bind_ok by (apply (on_file_ok s id o); [done|rewrite Ho; exact Hsk]).
  - split; [by apply file_updated_wf| |done|done]. cbn. by rewrite lookup_alter_eq, Eo.
Qed.
Lemma sys_lseek_ok s f content pos :
  opened m s id f n str content → 0 ≤ pos < 2 ^ 63 →
  ∃ s', sys_lseek fd pos 0 s = (Ok (pos, tt), s') ∧ opened m s' id (at_offset f pos) n str content ∧
    s' = file_updated s id (at_offset f pos) (p_fs s).
Proof.
  intros Ho Hp. pose proof (sys_lseek_start s f content pos Ho) as H. rewrite wrap_small, wrap_i64_small in H by lia. exact H.
Qed.
Lemma sys_read_ok s f content k :
  opened m s id f n str content → can_access (f_node f) CAP_READ = true → 0 ≤ offset f ≤ len content → 0 ≤ k < 2 ^ 63 →
  len content < 2 ^ 63 →
  let l := take (Z.to_nat k) (drop (Z.to_nat (offset f)) content) in
  ∃ s', sys_read [] fd false k s = (Ok (len l, l), s') ∧ opened m s' id (at_offset f (offset f + len l)) n str content ∧
    s' = file_updated s id (at_offset f (offset f + len l)) (p_fs s).
Proof.
  intros [Hw Ho Hi Hn] Hc H0 Hk Hl l. destruct (p_files s !! id) as [o|] eqn:Eo; [|done]. injection Ho as Ho.
  pose proof (File_read_ok (p_fs s) f n str content k Hi Hn Hc H0 ltac:(lia) Hl ltac:(lia)) as Hrd. eexists. split; [|split; [|reflexivity]].
  - unfold sys_read, syscall. erewrite M_bind_ok by (by apply (get_file_open m fd (PFs id))). cbn [file_like_read].
    by erewrite M_bind_ok by (apply (on_file_ok s id o); [done|rewrite Ho; exact Hrd]).
  - split; [by apply file_updated_wf| |done|done]. cbn. by rewrite lookup_alter_eq, Eo.
Qed.
End data.

(** The options of a descriptor for reading and writing a new file. *)
Lemma rdwr_options : flags_to_options (Z.lor O_RDWR (Z.lor O_CREAT O_TRUNC)) =
  {| o_read := true; o_write := true; o_append := false; o_truncate := true; o_create := true; o_create_new := false |}.
Proof. reflexivity. Qed.
Lemma add_to_fd_table_ok m s f fd s' :
  posix_wf m s → add_to_fd_table f s = (Ok fd, s') →
  ∃ id, m !! fd = None ∧ 0 ≤ fd < AX_FILE_LIMIT ∧ posix_wf (<[fd := PFs id]> m) s' ∧
    of_inner <$> p_files s' !! id = Some f ∧ of_strong <$> p_files s' !! id = Some 1 ∧ p_fs s' = p_fs s.
Proof.
  intros Hs Hr. pose proof (arc_new_triple m f s Hs) as Hn. unfold add_to_fd_table in Hr.
  assert (∃ id, arc_new f s = (Ok (PFs id), {| p_table := p_table s; p_files := <[id := {| of_inner := f; of_strong := 1 |}]> (p_files s);
    p_fs := p_fs s; p_stdin := p_stdin s; p_stdout := p_stdout s |})) as [id Ha] by (by exists (fresh (dom (p_files s)))).
  erewrite M_bind_ok in Hr by exact Ha. rewrite Ha in Hn. destruct Hn as [_ Hn]. exists id.
  pose proof (add_or_drop_triple m (PFs id) _ Hn) as Ht. rewrite Hr in Ht. destruct Ht as [(Hrg & Hnone & _) Ht].
  split; [done|]. split; [done|]. split; [done|]. unfold add_or_drop, on_p_table in Hr. cbn [p_table] in Hr.
  destruct (add_file_like (PFs id) (p_table s)) as [[fd'|e| |] t'].
  - injection Hr as <- <-. cbn. by rewrite lookup_insert_eq.
  - apply M_bind_ok_inv in Hr as (u & s1 & _ & Hr). done.
  - done.
  - done.
Qed.
(** The last descriptor of a file is closed. *)
Lemma posix_close_last `{BS : !BitflagsSpec BF} m s fd id f n str content :
  opened m s id f n str content → m !! fd = Some (PFs id) → c_int fd → 2 < fd → of_strong <$> p_files s !! id = Some 1 → 2 ≤ str →
  ∃ s', posix_close fd s = (Ok (0, tt), s') ∧ posix_wf (delete fd m) s' ∧ p_files s' !! id = None ∧
    p_fs s' = with_node (p_fs s) n {| ino := RamFile content; strong := str - 1 |}.
Proof.
  intros [Hw Ho Hi Hn] Hm Hfd H2 Hst Hstr. destruct (p_files s !! id) as [o|] eqn:Eo; [|done]. injection Ho as Ho. injection Hst as Hst.
  unfold posix_close. replace ((0 <=? fd) && (fd <=? 2))%bool with false by lia.
  destruct (Hw) as [Ht _]. destruct (fo_remove_ok AX_FILE_LIMIT _ m _ Ht (as_usize_range fd)) as (t' & Hrm & Ht').
  rewrite as_usize_nonneg in Hrm, Ht' by (done || lia). rewrite Hm in Hrm.
  set (s1 := {| p_table := t'; p_files := p_files s; p_fs := p_fs s; p_stdin := p_stdin s; p_stdout := p_stdout s |}).
  assert (on_p_table (r ← on_table (fo_remove AX_FILE_LIMIT (as_usize fd)); ok_or_errno EBADF r) s = (Ok (PFs id), s1)) as Hrm'.
  { unfold on_p_table. rewrite as_usize_nonneg by (done || lia). by erewrite M_bind_ok by (unfold on_table; by rewrite Hrm). }
  pose proof (close_triple m fd Hfd s Hw) as Hcl. unfold syscall.
  assert ((f ← on_p_table (r ← on_table (fo_remove AX_FILE_LIMIT (as_usize fd)); ok_or_errno EBADF r); _ ← arc_drop f; mret (0, tt)) s =
    (Ok (0, tt), {| p_table := t'; p_files := delete id (p_files s); p_fs := with_node (p_fs s) n {| ino := RamFile content; strong := str - 1 |};
                    p_stdin := p_stdin s; p_stdout := p_stdout s |})) as E.
  { erewrite M_bind_ok by exact Hrm'. unfold arc_drop, mbind, M_bind, get_state, unwrap, mret, M_ret. cbn [s1 p_files]. rewrite Eo, Hst.
    change (1 =? 1) with true. unfold set_files, modify. cbv beta iota. unfold on_p_fs, to_linux. cbn [p_fs s1].
    unfold File_drop. rewrite Ho, Hi. rewrite (drop_reference _ n _ Hn Hstr). done. }
  rewrite E in Hcl |- *. destruct Hcl as (_ & _ & Hcl). eexists. split; [reflexivity|]. split; [done|]. cbn. by rewrite lookup_delete_eq.
Qed.
Lemma sys_open_inv m s path flags fd s1 :
  posix_wf m s → sys_open (CStr_ path) flags s = (Ok (fd, tt), s1) → 0 ≤ fd →
  ∃ f fs, opts_open (flags_to_options flags) path (p_fs s) = (Ok f, fs) ∧
    add_to_fd_table f {| p_table := p_table s; p_files := p_files s; p_fs := fs; p_stdin := p_stdin s; p_stdout := p_stdout s |} = (Ok fd, s1).
Proof.
  intros Hs Ho Hfd. pose proof (open_triple m (CStr_ path) flags s Hs) as Ht. unfold sys_open, syscall in Ho.
  match type of Ho with (let (_, _) := ?x in _) = _ => destruct x as [[v|e| |] s2] eqn:E end; try done; [|destruct Ht; injection Ho as <- _; lia].
  injection Ho as -> ->. erewrite M_bind_ok in E by reflexivity. apply M_bind_ok_inv in E as (f & s3 & Hopen & E).
  apply M_bind_ok_inv in E as (fd' & s4 & Hadd & [= <- <-]). unfold open_options, on_p_fs, to_linux in Hopen.
  destruct (opts_open _ path (p_fs s)) as [[f'|e| |] fs] eqn:Eo; try done. injection Hopen as -> <-. by exists f, fs.
Qed.

(** C18: What a program writes to a file it opened it reads back: after [open] for reading and writing with creation and
    truncation, a [write], an [lseek] to the start and a [read] return the number of bytes and the bytes;
    [close] then leaves the descriptors as they were before, and the file has the contents under its path. *)
Theorem posix_open_write_read `{BS : !BitflagsSpec BF} m s H path buf fd s1 fuel :
  posix_wf m s → (∀ i, 0 ≤ i ≤ 2 → is_Some (m !! i)) → axfs_wf (p_fs s) H → ends_with_slash path = false → no_device (p_fs s) path →
  len buf < 2 ^ 63 → (length buf < fuel)%nat →
  sys_open (CStr_ path) (Z.lor O_RDWR (Z.lor O_CREAT O_TRUNC)) s = (Ok (fd, tt), s1) → 0 ≤ fd →
  ∃ s2 s3 s4 s5,
    sys_write fd (Some buf) s1 = (Ok (len buf, tt), s2) ∧
    sys_lseek fd 0 0 s2 = (Ok (0, tt), s3) ∧
    sys_read [] fd false (len buf) s3 = (Ok (len buf, buf), s4) ∧
    posix_close fd s4 = (Ok (0, tt), s5) ∧ posix_wf m s5 ∧
    api_read path fuel (p_fs s5) = (Ok buf, p_fs s5).
Proof.
  intros Hs H012 HW He Hnd Hl Hf Ho Hfd0. destruct (sys_open_inv m s path _ fd s1 Hs Ho Hfd0) as (f & fs & Hopen & Hadd).
  rewrite rdwr_options in Hopen. apply opts_open_ok with (H := H) in Hopen as (n & str & Hp & -> & Hroots & Hlead); [|done..].
  cbn [o_append] in Hadd.
  apply (add_to_fd_table_ok m) in Hadd as (id & Hnone & Hrg & Hw1 & Hf1 & Hst1 & Hfs1); [|destruct Hs; by split]. cbn [p_fs] in Hfs1.
  assert (c_int fd) as Hc by (unfold c_int, AX_FILE_LIMIT in *; lia).
  assert (2 < fd) as H2.
  { destruct (decide (fd ≤ 2)); [|lia]. destruct (H012 fd ltac:(lia)) as [? E]. by rewrite E in Hnone. }
  set (m1 := <[fd := PFs id]> m) in *. assert (m1 !! fd = Some (PFs id)) as Hm1 by apply lookup_insert_eq.
  destruct Hlead as (Hwalk & Hnode & Hstr). rewrite <-Hfs1 in Hnode.
  set (o1 := {| o_read := true; o_write := true; o_append := false; o_truncate := true; o_create := true; o_create_new := false |}) in *.
  set (f1 := {| f_node := {| inner := VNode n; cap := opts_cap o1 |}; is_append := false; offset := 0 |}) in *.
  assert (opened m1 s1 id f1 n str []) as Hop1 by (by split).
  destruct (sys_write_ok m1 id n str fd Hc Hm1 s1 f1 [] buf Hop1) as (s2 & Hwr & Hop2 & Es2); [by apply opts_cap_write|done|done|].
  cbn [is_append f1 offset] in Hop2, Es2. change (Z.to_nat 0) with O in *. rewrite written_all, Z.add_0_l in *.
  destruct (sys_lseek_ok m1 id n str fd Hc Hm1 s2 _ buf 0 Hop2) as (s3 & Hsk & Hop3 & Es3); [lia|].
  destruct (sys_read_ok m1 id n str fd Hc Hm1 s3 _ buf (len buf) Hop3) as (s4 & Hrd & Hop4 & Es4); cbn [at_offset offset];
    [by apply opts_cap_read|unfold len; lia|unfold len in *; lia|done|].
  cbn [at_offset offset] in Hrd, Hop4, Es4. change (Z.to_nat 0) with O in *. rewrite drop_0 in *.
  replace (take (Z.to_nat (len buf)) buf) with buf in * by (unfold len; by rewrite Nat2Z.id, firstn_all).
  destruct (posix_close_last m1 s4 fd id _ n str buf Hop4 Hm1 Hc H2) as (s5 & Hcl & Hw5 & _ & Hfs5); [|done|].
  { rewrite Es4, Es3, Es2, !file_updated_twice. cbn. rewrite lookup_alter_eq. by destruct (p_files s1 !! id). }
  exists s2, s3, s4, s5. split_and!; try done.
  - unfold m1 in Hw5. by rewrite delete_insert_id in Hw5.
  - rewrite Hfs5, Es4, Es3, Es2, !file_updated_twice. cbn [file_updated p_fs].
    destruct (leads_to_update fs path n {| ino := RamFile []; strong := str |} {| ino := RamFile buf; strong := str |}) as (Hwk2 & Hn2 & _);
      [split_and!; [done|by rewrite <-Hfs1|done]|done|done|]. rewrite Hfs1.
    eapply api_read_ok; [done..| |apply lookup_insert_eq|done|cbn in *; lia|done|done].
    rewrite <-(target_same (with_node fs n {| ino := RamFile buf; strong := str |})) by done. rewrite <-Hwk2. symmetry. apply walk_same_dirs.
    by apply (same_dirs_insert _ _ _ _ Hn2).
Qed.

(** ** Where the calls differ from what programs expect *)

Lemma flag_disjoint flags m1 m2 : 0 ≤ m2 < 2 ^ 32 → Z.land m1 m2 = 0 → Z.land (wrap 32 (Z.lor flags m1)) m2 = Z.land (wrap 32 flags) m2.
Proof.
  intros Hm Hd. apply Z.bits_inj_iff. intros i. rewrite !Z.land_spec. unfold wrap. destruct (decide (0 ≤ i)) as [Hi|Hi].
  - destruct (decide (i < 32)).
    + rewrite !Z.mod_pow2_bits_low, Z.lor_spec by lia. apply (f_equal (λ z, Z.testbit z i)) in Hd. rewrite Z.land_spec, Z.testbit_0_l in Hd.
      destruct (Z.testbit flags i), (Z.testbit m1 i), (Z.testbit m2 i); done.
    + by rewrite !Z.mod_pow2_bits_high by lia.
  - by rewrite !Z.testbit_neg_r by lia.
Qed.
(** [O_EXCL] is not looked at: an [open] with it, which is to fail when the file exists, does what it does
    without. *)
Theorem open_ignores_excl path flags (s : PState) : sys_open path (Z.lor flags O_EXCL) s = sys_open path flags s.
Proof.
  assert (flags_to_options (Z.lor flags O_EXCL) = flags_to_options flags) as E; [|unfold sys_open; by rewrite E].
  unfold flags_to_options, has_flag. by rewrite !flag_disjoint by (reflexivity || (split; [discriminate|reflexivity])).
Qed.

(** An [lseek] to a negative position from the start is not refused: it returns -1, the position it sets, and the next
    [read] that asks for no more bytes than the file has panics. *)
Theorem negative_seek_panics `{BS : !BitflagsSpec BF} m s id f n str content fd k :
  opened m s id f n str content → m !! fd = Some (PFs id) → c_int fd → can_access (f_node f) CAP_READ = true → 0 < k ≤ len content →
  len content < 2 ^ 63 →
  ∃ s', sys_lseek fd (-1) 0 s = (Ok (-1, tt), s') ∧ (sys_read [] fd false k s').1 = Panic.
Proof.
  intros Hop Hm Hfd Hc Hk Hl. destruct (sys_lseek_start m id n str fd Hfd Hm s f content (-1) Hop) as (s' & Hsk & [Hw Ho Hi Hn] & _).
  exists s'. split; [exact Hsk|]. destruct (p_files s' !! id) as [o|] eqn:Eo; [|done]. injection Ho as Ho.
  unfold sys_read, syscall. erewrite M_bind_ok by (by apply (get_file_open m fd (PFs id))). cbn [file_like_read].
  unfold mbind at 1, M_bind at 1, on_file, mbind at 1, M_bind at 1, get_state. rewrite Eo. unfold unwrap, mbind, M_bind, mret, M_ret. cbv beta iota zeta.
  assert ((File_read k (p_fs s', of_inner o)).1 = Panic) as Hp.
  { rewrite Ho. unfold File_read. erewrite M_bind_ok by reflexivity. erewrite M_bind_ok by (by apply access_ok). cbn [fst snd at_offset offset].
    unfold mbind at 1, M_bind at 1, on_fst. cbn [fst snd]. cbn [at_offset f_node] in Hi |- *. rewrite Hi. cbn [v_on_file]. unfold on_store, vfs_read_at.
    erewrite M_bind_ok by (by apply get_node_ok). cbn [ino].
    assert (add64 (wrap 64 (-1)) k = k - 1) as ->.
    { unfold add64, wrap. change ((-1) mod 2 ^ 64) with (2 ^ 64 - 1). symmetry. apply (Zmod_unique _ _ 1); unfold len in *; lia. }
    change (wrap 64 (-1)) with (2 ^ 64 - 1). unfold len in *. by rewrite (proj2 (Z.ltb_lt _ _)) by lia. }
  unfold to_linux. destruct (File_read k (p_fs s', of_inner o)) as [r [fs f']]. cbn in Hp. by subst r.
Qed.

Lemma sys_write_console m s fd l :
  posix_wf m s → c_int fd → m !! fd = Some PStdout →
  sys_write fd (Some l) s = (Ok (len l, tt), {| p_table := p_table s; p_files := p_files s; p_fs := p_fs s; p_stdin := p_stdin s; p_stdout := p_stdout s ++ l |}).
Proof. intros Hs Hfd Hm. unfold sys_write, syscall. by erewrite M_bind_ok by (by apply (get_file_open m fd PStdout)). Qed.
(** [writev] adds up the results of its writes, errors included: when the second buffer is a null pointer, the bytes of
    the first are written and the result is their number less [EFAULT]. *)
Theorem writev_adds_errors m s l :
  posix_wf m s → m !! 1 = Some PStdout → len l < 2 ^ 62 →
  ∃ s', sys_writev 1 [Some l; None] 2 s = (Ok (len l - EFAULT, tt), s') ∧ p_stdout s' = p_stdout s ++ l.
Proof.
  intros Hs Hm Hl. unfold sys_writev, syscall. cbn [Z.leb Z.compare Pos.compare Pos.compare_cont andb negb].
  change (length [Some l; None] <? Z.to_nat 2)%nat with false. change (take (Z.to_nat 2) [Some l; None]) with [Some l; None].
  eexists. split; [|shelve]. erewrite M_bind_ok.
  2: { unfold no_error. cbn [writev_loop]. erewrite M_bind_ok by (apply (sys_write_console m); [done|unfold c_int; lia|done]).
       erewrite M_bind_ok by reflexivity. reflexivity. }
  unfold mret, M_ret. cbn [fst]. unfold len in *. rewrite Z.add_0_l, (wrap_i64_small (Z.of_nat _)), wrap_i64_small by (unfold EFAULT; lia). reflexivity.
  Unshelve. reflexivity.
Qed.
End descriptors.

(** ** Standard input *)

(** A carriage return is read as a line feed. *)
Definition cr (c : Z) : Z := if c =? 13 then 10 else c.
Lemma stdin_raw_read_ok n s : stdin_raw_read n s = (Ok (cr <$> take n (typed s)), {| typed := drop n (typed s) |}).
Proof.
  revert s. induction n as [|n IH]; intros [t]; cbn [stdin_raw_read]; [by destruct t|].
  destruct t as [|c t]; [done|]. erewrite M_bind_ok by reflexivity. cbv beta iota. erewrite M_bind_ok by apply IH. done.
Qed.
Lemma stdin_read_law : read_law (λ s, cr <$> typed s) (λ _, True) False (read (R := StdinRaw)).
Proof.
  intros s n _ Hn. cbn [read StdinRaw_Read]. rewrite stdin_raw_read_ok. cbn [typed]. split; [done|].
  rewrite <-fmap_app, take_drop. split; [done|]. split.
  - unfold len. rewrite length_fmap, length_take. lia.
  - intros Hp E. apply (f_equal length) in E. rewrite length_fmap, length_take in E. cbn in E.
    destruct (typed s); [done|cbn in E; lia].
Qed.
#[export] Instance StdinRaw_ReadSpec : ReadSpec StdinRaw :=
  {| rd_read := stdin_read_law; rd_read_to_end := default_read_to_end_ok _ _ _ _ stdin_read_law |}.

Lemma arrive_ok b a : br_ok b → ∃ b', arrive a b = (Ok tt, b') ∧ br_ok b' ∧ br_stream b' = br_stream b ++ (cr <$> a).
Proof.
  intros Hok. eexists. split; [reflexivity|]. split; [exact Hok|]. unfold br_stream, buffered. cbn. by rewrite fmap_app, app_assoc.
Qed.
Lemma br_read_some b n :
  br_ok b → 0 < n < 2 ^ 63 →
  ∃ l b', br_read n b = (Ok l, b') ∧ br_ok b' ∧ br_stream b = l ++ br_stream b' ∧ len l ≤ n ∧ (l = [] → br_stream b = []).
Proof.
  intros Hok Hn. pose proof (br_read_law b n Hok ltac:(lia)) as H. destruct (br_read n b) as [[l|e| |] b']; try done.
  - destruct H as (H1 & H2 & H3 & H4). exists l, b'. split_and!; auto. intros El. apply H4; [lia|done].
  - by destruct H as [[] _].
Qed.
Lemma stdin_wait_ok arrivals n b i a :
  br_ok b → 0 < n < 2 ^ 63 → (br_stream b ≠ [] ∧ arrivals ≠ []) ∨ (arrivals !! i = Some a ∧ a ≠ [] ∧ S i < length arrivals)%nat →
  ∃ l b' k, stdin_wait arrivals n b = (Ok l, b') ∧ br_ok b' ∧ 0 < len l ≤ n ∧
    br_stream b ++ (cr <$> concat (take k arrivals)) = l ++ br_stream b'.
Proof.
  revert b i. induction arrivals as [|a0 arrivals IH]; intros b i Hok Hn Har; [naive_solver|].
  cbn [stdin_wait]. destruct (br_read_some b n Hok Hn) as (l & b1 & Hr & Hok1 & Hs & Hl & He). erewrite M_bind_ok by exact Hr.
  destruct (Z.ltb_spec 0 (len l)) as [Hp|Hp].
  - exists l, b1, O. cbn. rewrite app_nil_r. split_and!; try done; lia.
  - assert (l = []) as -> by (apply len_nil_inv; pose proof (len_nonneg l); lia). specialize (He eq_refl). rewrite He in Hs. cbn in Hs.
    destruct (arrive_ok b1 a0 Hok1) as (b2 & Ha & Hok2 & Hs2). erewrite M_bind_ok by exact Ha. rewrite <-Hs in Hs2. cbn in Hs2.
    destruct Har as [[Hne _]|(Hi & Hne & Hlt)]; [done|].
    destruct (IH b2 (pred i) Hok2 Hn) as (l & b3 & k & Hw & Hok3 & Hl3 & Hs3).
    { destruct i as [|i]; cbn in Hi.
      - injection Hi as ->. left. rewrite Hs2. split; [by destruct a|]. destruct arrivals; cbn in Hlt; [lia|done].
      - right. cbn in Hlt. split_and!; [done|done|lia]. }
    exists l, b3, (S k). split_and!; try done; [lia..|]. rewrite He. cbn. by rewrite fmap_app, <-Hs2.
Qed.

(** Reading from the keyboard waits until there is something: when a character is there, or one is typed while the
    task waits, [read] returns at least one character and at most as many as asked for.  The characters come in
    the order they were typed, with line feeds for carriage returns, and those not returned stay for the next
    [read]. *)
Theorem stdin_read_waits arrivals n b i a :
  br_ok b → 0 < n < 2 ^ 63 → br_stream b ≠ [] ∨ (arrivals !! i = Some a ∧ a ≠ [] ∧ S i < length arrivals)%nat →
  ∃ l b' k, read_blocked arrivals n b = (Ok l, b') ∧ br_ok b' ∧ 0 < len l ≤ n ∧
    br_stream b ++ (cr <$> concat (take k arrivals)) = l ++ br_stream b'.
Proof.
  intros Hok Hn Har. unfold read_blocked. destruct (br_read_some b n Hok Hn) as (l & b1 & Hr & Hok1 & Hs & Hl & He).
  erewrite M_bind_ok by exact Hr. rewrite (proj2 (Z.eqb_neq n 0)) by lia. cbn [orb]. destruct (Z.ltb_spec 0 (len l)) as [Hp|Hp].
  - exists l, b1, O. cbn. rewrite app_nil_r. split_and!; try done; lia.
  - assert (l = []) as -> by (apply len_nil_inv; pose proof (len_nonneg l); lia). specialize (He eq_refl). rewrite He in Hs. cbn in Hs.
    destruct Har as [|Har]; [done|]. replace (br_stream b) with (br_stream b1) by congruence. apply (stdin_wait_ok arrivals n b1 i a); [done|done|by right].
Qed.

(** ** Concrete instances *)

Section examples.
Local Instance posix_bitflags : Bitflags := std_bitflags.

Definition example_fds : FlattenObjects PFile (gset Z) :=
  match fd_table_new PStdin PStdout PStdout with Ok t => t | _ => {| objects := []; id_bitmap := ∅; count := 0 |} end.
(** A program with a root directory, before it opens a file. *)
Definition example_posix : PState (B := gset Z) :=
  {| p_table := example_fds; p_files := ∅; p_fs := example_root; p_stdin := BufReader_new {| typed := [] |}; p_stdout := [] |}.
Definition example_map : gmap Z PFile := <[2 := PStdout]> (<[1 := PStdout]> (<[0 := PStdin]> ∅)).
Lemma example_posix_wf : posix_wf example_map example_posix.
Proof.
  destruct (fd_table_new_ok (B:=gset Z) PStdin PStdout PStdout) as (t&Ht&HR). split.
  - cbn. assert (example_fds = t) as -> by (unfold example_fds; rewrite Ht; reflexivity). exact HR.
  - intros id. cbn. unfold example_map. rewrite !refs_insert by reflexivity. reflexivity.
Qed.
Definition rdwr_new : Z := Z.lor O_RDWR (Z.lor O_CREAT O_TRUNC).
Lemma posix_open_write_read_witness :
  ∃ s1 s2 s3 s4, sys_open (CStr_ [97]) rdwr_new example_posix = (Ok (3, tt), s1) ∧
    sys_write 3 (Some [7; 8; 9]) s1 = (Ok (3, tt), s2) ∧ sys_lseek 3 0 0 s2 = (Ok (0, tt), s3) ∧
    sys_read [] 3 false 3 s3 = (Ok (3, [7; 8; 9]), s4).
Proof.
  destruct (sys_open (CStr_ [97]) rdwr_new example_posix) as [r s1] eqn:Hr.
  assert (r = Ok (3, tt)) as -> by (apply (f_equal fst) in Hr; vm_compute in Hr; by symmetry).
  destruct (posix_open_write_read example_map example_posix example_held [97] [7; 8; 9] 3 s1 4) as (s2 & s3 & s4 & s5 & H1 & H2 & H3 & _).
  - exact example_posix_wf.
  - intros i Hi. assert (i = 0 ∨ i = 1 ∨ i = 2) as [-> |[->| ->]] by lia; by eexists.
  - split; [exact example_fs_wf|vm_compute; discriminate|intros n Hn; inversion Hn|intros n Hc; discriminate Hc].
  - done.
  - intros n i Hn. vm_compute in Hn. discriminate.
  - done.
  - cbn. lia.
  - exact Hr.
  - lia.
  - exists s1, s2, s3, s4. split; [reflexivity|]. split; [exact H1|]. split; [exact H2|exact H3].
Defined.
Definition example_held_file : File := {| f_node := {| inner := VNode 2; cap := 3 |}; is_append := false; offset := 0 |}.
(** A descriptor of the file [a] of three bytes. *)
Lemma example_opened : ∃ s : PState (B := gset Z), opened (<[3 := PFs 0]> example_map) s 0 example_held_file 2 1 [1; 2; 3].
Proof.
  destruct example_posix_wf as [Ht _]. destruct (add_file_like_ok (p_table example_posix) example_map (PFs 0) Ht) as
    [(fd & t & Hadd & _ & _ & _ & Ht')|[Hadd _]]; [|apply (f_equal fst) in Hadd; by vm_compute in Hadd].
  assert (fd = 3) as -> by (apply (f_equal fst) in Hadd; vm_compute in Hadd; congruence).
  exists {| p_table := t; p_files := {[0%nat := {| of_inner := example_held_file; of_strong := 1 |}]}; p_fs := example_axfs;
            p_stdin := BufReader_new {| typed := [] |}; p_stdout := [] |}.
  split; [|reflexivity..]. split; [exact Ht'|]. intros id. cbn. unfold example_map. rewrite !refs_insert by reflexivity.
  destruct id as [|id]; [reflexivity|]. rewrite lookup_singleton_ne by done. unfold bump, bump_to. cbn. reflexivity.
Qed.
Lemma negative_seek_panics_witness :
  ∃ s s' : PState (B := gset Z), sys_lseek 3 (-1) 0 s = (Ok (-1, tt), s') ∧ (sys_read [] 3 false 2 s').1 = Panic.
Proof.
  destruct example_opened as [s Hs]. exists s.
  apply (negative_seek_panics _ s 0 example_held_file 2 1 [1; 2; 3] 3 2 Hs); [done|unfold c_int; lia|reflexivity|unfold len; cbn; lia|done].
Defined.
Lemma writev_adds_errors_witness : ∃ s', sys_writev 1 [Some [104; 105]; None] 2 example_posix = (Ok (-12, tt), s') ∧ p_stdout s' = [104; 105].
Proof. apply (writev_adds_errors example_map example_posix [104; 105] example_posix_wf); done. Defined.
Lemma stdin_read_waits_witness :
  ∃ l b' k, read_blocked [[]; [104; 13; 106]; []] 2 (BufReader_new {| typed := [] |}) = (Ok l, b') ∧
    [104; 10; 106] = l ++ br_stream b' ∧ 0 < len l ≤ 2 ∧ (k ≤ 3)%nat.
Proof.
  destruct (stdin_read_waits [[]; [104; 13; 106]; []] 2 (BufReader_new {| typed := [] |}) 1 [104; 13; 106]) as (l & b' & k & Hr & Hok & Hl & Hs).
  - repeat split; cbn; try lia; done.
  - lia.
  - right. split; [done|]. split; [done|cbn; lia].
  - exists l, b', 3%nat. split; [exact Hr|].
    assert (l = [104; 10]) as El by (apply (f_equal fst) in Hr; vm_compute in Hr; congruence).
    assert (br_stream (read_blocked [[]; [104; 13; 106]; []] 2 (BufReader_new {| typed := [] |})).2 = [106]) as Es by (vm_compute; reflexivity).
    rewrite Hr in Es. cbn in Es. rewrite El, Es. split; [reflexivity|]. split; [rewrite <-El; exact Hl|lia].
Defined.
End examples.
