(* ===== verification/Stdio.v ===== *)
(** * Streams of the C library ([ulib/axlibc/c/stdio.c])

    A [FILE] is a descriptor and a buffer of output.  The functions are written over the descriptor calls
    of the C library, an interface that the system calls of [PosixFs] implement. *)

From Stdlib Require Import ZArith Lia.
From stdpp Require Import base decidable numbers gmap list.
From S2P Require Import Prelude LinkedList Path Vfs AxIo AxFs FsApi FlattenObjects PosixTime Epoll CString CStdlib CTime Printf Errno PosixFs.

Local Open Scope Z_scope.

(** [open], [close], [read] and [write] of the C library, on the state of the system. *)
Class FdIo (W : Type) : Type := {
  c_open : CStr → Z → M W NoError Z;
  c_close : Z → M W NoError Z;
  c_read : Z → Z → M W NoError (Z * list Z);
  c_write : Z → list Z → M W NoError Z;
}.

Definition FILE_BUF_SIZE : Z := 1024.
(** [buf] holds the bytes up to [buffer_len]; a [FILE] from [malloc] holds anything. *)
Record FILE : Set := { f_fd : Z; f_buffer_len : Z; f_buf : list Z }.
Definition FILE_new (fd : Z) : FILE := {| f_fd := fd; f_buffer_len := 0; f_buf := replicate (Z.to_nat FILE_BUF_SIZE) 0 |}.

Section stdio.
Context {W : Type} `{FdIo W}.
(** The stream a function works on, and the system. *)
Local Abbreviation SM := (M (FILE * W) NoError).
Definition on_world {A} (m : M W NoError A) : SM A := λ s, let '(r, w) := m s.2 in (r, (s.1, w)).

(** ** Output *)

Definition write_buffer : SM Z :=
  s ← get_state;
  if f_buffer_len s.1 =? 0 then mret 0
  else if Z.of_nat (length (f_buf s.1)) <? f_buffer_len s.1 then panic
  else on_world (c_write (f_fd s.1) (take (Z.to_nat (f_buffer_len s.1)) (f_buf s.1))).
Definition clear_buffer : SM unit := modify (λ s, ({| f_fd := f_fd s.1; f_buffer_len := 0; f_buf := f_buf s.1 |}, s.2)).
Definition fflush_ : SM Z := r ← write_buffer; _ ← clear_buffer; mret (if 0 <=? r then 0 else r).
(** [f->buf[f->buffer_len++] = c]; the length has 16 bits. *)
Definition push_byte (c : Z) : SM unit :=
  s ← get_state;
  if f_buffer_len s.1 <? Z.of_nat (length (f_buf s.1))
  then put_state ({| f_fd := f_fd s.1; f_buffer_len := wrap 16 (f_buffer_len s.1 + 1);
                     f_buf := <[Z.to_nat (f_buffer_len s.1) := c]> (f_buf s.1) |}, s.2)
  else panic.
Fixpoint out_loop (s : list Z) (ret : Z) : SM Z :=
  match s with
  | [] => mret ret
  | c :: s =>
      _ ← push_byte c;
      st ← get_state;
      if ((f_buffer_len st.1 =? FILE_BUF_SIZE) || (c =? 10))%bool then
        r ← write_buffer; _ ← clear_buffer;
        st ← get_state;
        if r <? 0 then mret r else if r <? f_buffer_len st.1 then mret (ret + r) else out_loop s (ret + r)
      else out_loop s ret
  end.
Definition out (s : list Z) : SM Z := out_loop s 0.

Definition fflush : SM Z := fflush_.
Definition do_putc (c : Z) : SM Z := out [wrap 8 c].
Definition fputc (c : Z) : SM Z := do_putc c.
(** [puts] does not use the stream; its result is that of the first [write]. *)
Definition puts (s : list Z) : M W NoError Z := r ← c_write 1 s; _ ← c_write 1 [10]; mret r.
(** [msg] is [None] for a null pointer; [errstr] is the text of [errno]. *)
Definition perror (msg : option (list Z)) (errstr : list Z) : SM unit :=
  _ ← match msg with Some (c :: l) => _ ← out (c :: l); _ ← out [58; 32]; mret tt | _ => mret tt end;
  _ ← out errstr; _ ← out [10]; mret tt.

(** [__out_wrapper] on every character that the formatter gives out, in their order. *)
Fixpoint out_wrapper_all (l : list Z) : SM unit :=
  match l with [] => mret tt | c :: l => _ ← out [c]; out_wrapper_all l end.
Definition vfprintf (mem : CMem) (sfuel : nat) (fmt : list Z) (ap : list Z) : SM Z :=
  let '(r, g) := vfctprintf mem sfuel fmt ap in
  _ ← out_wrapper_all (g_emitted g);
  match r with Ok n => mret n | Err e => match e with end | Panic => panic | OutOfFuel => out_of_fuel end.

(** ** Files *)

Definition O_CLOEXEC : Z := 0x80000.
Definition fmodeflags (mode : list Z) : Z :=
  let first := hd 0 mode in
  let flags := if decide (43 ∈ mode) then O_RDWR else if first =? 114 then O_RDONLY else O_WRONLY in
  let flags := if decide (120 ∈ mode) then Z.lor flags O_EXCL else flags in
  let flags := if decide (101 ∈ mode) then Z.lor flags O_CLOEXEC else flags in
  let flags := if negb (first =? 114) then Z.lor flags O_CREAT else flags in
  let flags := if first =? 119 then Z.lor flags O_TRUNC else flags in
  if first =? 97 then Z.lor flags O_APPEND else flags.
(** The memory from [malloc] holds [garbage].  An empty mode passes the test, which finds the final zero. *)
Definition fopen (garbage : FILE) (filename : CStr) (mode : list Z) : M W NoError (option FILE) :=
  if negb (bool_decide (hd 0 mode ∈ [114; 119; 97; 0])) then mret None
  else
    fd ← c_open filename (fmodeflags mode);
    if fd <? 0 then mret None else mret (Some {| f_fd := fd; f_buffer_len := f_buffer_len garbage; f_buf := f_buf garbage |}).

(** The bytes stored in [s], before the zero; [None] for a null result. *)
Fixpoint fgets_loop (fuel : nat) (fd n cnt : Z) : M W NoError (list Z) :=
  match fuel with
  | O => out_of_fuel
  | S fuel =>
      if cnt <? n - 1 then
        '(r, l) ← c_read fd 1;
        match l with
        | c :: _ =>
            if 0 <? r then if negb (c =? 10) then l ← fgets_loop fuel fd n (cnt + 1); mret (c :: l) else mret []
            else mret []
        | [] => if 0 <? r then panic else mret []
        end
      else mret []
  end.
Definition fgets (n : Z) (f : FILE) : M W NoError (option (list Z)) :=
  if n =? 0 then mret None
  else if n =? 1 then mret (Some [])
  else l ← fgets_loop (S (Z.to_nat n)) (f_fd f) n 0; mret (Some l).

(** The memory is flat; [len < 0] is never true of a [size_t]. *)
Definition bytes_at (mem : CMem) (p n : Z) : list Z := (λ i, default 0 (mem !! (wrap 64 (p + Z.of_nat i)))) <$> seq 0 (Z.to_nat n).
Definition blocks_done (done size nmemb : Z) : M W NoError Z :=
  if done =? mul64 size nmemb then mret nmemb else if size =? 0 then panic else mret (done / size).
Fixpoint fwrite_loop (mem : CMem) (src total : Z) (fuel : nat) (fd write_len : Z) : M W NoError Z :=
  match fuel with
  | O => out_of_fuel
  | S fuel =>
      r ← c_write fd (bytes_at mem (add64 src write_len) (sub64 total write_len));
      let len := wrap 64 r in
      let write_len := add64 write_len len in
      if 0 <? len then fwrite_loop mem src total fuel fd write_len else mret write_len
  end.
Definition fwrite (mem : CMem) (fuel : nat) (src size nmemb : Z) (f : FILE) : M W NoError Z :=
  n ← fwrite_loop mem src (mul64 size nmemb) fuel (f_fd f) 0; blocks_done n size nmemb.
Fixpoint fread_loop (fuel : nat) (fd dest total read_len : Z) (mem : CMem) : M W NoError (Z * CMem) :=
  match fuel with
  | O => out_of_fuel
  | S fuel =>
      '(r, l) ← c_read fd (sub64 total read_len);
      let mem := put (add64 dest read_len) l mem in
      let len := wrap 64 r in
      let read_len := add64 read_len len in
      if 0 <? len then fread_loop fuel fd dest total read_len mem else mret (read_len, mem)
  end.
Definition fread (mem : CMem) (fuel : nat) (dest size nmemb : Z) (f : FILE) : M W NoError (Z * CMem) :=
  '(n, mem) ← fread_loop fuel (f_fd f) dest (mul64 size nmemb) 0 mem; k ← blocks_done n size nmemb; mret (k, mem).
(** The string is at [s] and has [l] characters. *)
Definition fputs (mem : CMem) (fuel : nat) (s l : Z) (f : FILE) : M W NoError Z :=
  n ← fwrite mem fuel s 1 l f; mret ((if n =? l then 1 else 0) - 1).
Definition fclose (f : FILE) : M W NoError Z := c_close (f_fd f).
Definition fileno (f : FILE) : Z := f_fd f.
End stdio.

(** ** The system calls as an implementation *)

Section posix.
Context `{Bitflags} {B : Type} `{Bitmap B} (arrivals : list (list Z)).
Definition libc_result {S A} (m : M S NoError (Z * A)) : M S NoError (Z * A) := r ← m; mret ((e_ r.1).1, r.2).
Definition posix_FdIo : FdIo (PState (B := B)) := {|
  c_open p fl := r ← libc_result (sys_open p fl); mret r.1;
  c_close fd := r ← libc_result (posix_close fd); mret r.1;
  c_read fd n := libc_result (sys_read arrivals fd false n);
  c_write fd l := r ← libc_result (sys_write fd (Some l)); mret r.1;
|}.
End posix.
