(* ===== verification/StdioProps.v ===== *)
(** * What streams write and read *)

From Stdlib Require Import ZArith Lia.
From stdpp Require Import base decidable numbers gmap list.
From S2P Require Import Prelude LinkedList Path Vfs VfsProps AxIo AxIoProps AxFs FsApi FsApiProps FlattenObjects PosixTime Epoll CString CStdlib CTime Printf Errno PosixFs PosixFsProps Stdio.

Local Open Scope Z_scope.

Definition buffered_out (f : FILE) : list Z := take (Z.to_nat (f_buffer_len f)) (f_buf f).

Section streams.
Context {W : Type} `{IO : FdIo W} (fd : Z) (content : W → list Z) (ok : W → Prop).

(** A file that takes all the bytes of a buffer. *)
Definition takes_all : Prop := ∀ l w, ok w → l ≠ [] → len l ≤ FILE_BUF_SIZE →
  ∃ w', c_write fd l w = (Ok (len l), w') ∧ ok w' ∧ content w' = content w ++ l.
(** A stream between two calls: there is room, and no complete line, in the buffer. *)
Record stream_ok (f : FILE) : Prop := {
  so_fd : f_fd f = fd;
  so_len : 0 ≤ f_buffer_len f < FILE_BUF_SIZE;
  so_buf : len (f_buf f) = FILE_BUF_SIZE;
  so_line : 10 ∉ buffered_out f;
}.
Context (Hw : takes_all).

Lemma write_buffer_ok f w :
  f_fd f = fd → 0 < f_buffer_len f ≤ FILE_BUF_SIZE → len (f_buf f) = FILE_BUF_SIZE → ok w →
  ∃ w', write_buffer (f, w) = (Ok (f_buffer_len f), (f, w')) ∧ ok w' ∧ content w' = content w ++ buffered_out f.
Proof.
  intros Hfd Hl Hb Hok. unfold write_buffer, mbind, M_bind, get_state. cbn [fst snd].
  rewrite (proj2 (Z.eqb_neq _ 0)), (proj2 (Z.ltb_ge _ _)) by (unfold len, FILE_BUF_SIZE in *; lia). rewrite Hfd. fold (buffered_out f).
  assert (len (buffered_out f) = f_buffer_len f) as El by (unfold buffered_out, len, FILE_BUF_SIZE in *; rewrite length_take; lia).
  destruct (Hw (buffered_out f) w Hok) as (w' & E & Hok' & Hc); [intros Hn; rewrite Hn in El; unfold len in El; cbn in El; lia|lia|].
  exists w'. unfold on_world. cbn [fst snd]. by rewrite E, El.
Qed.
Lemma push_byte_ok f (w : W) c :
  stream_ok f → ∃ f', push_byte c (f, w) = (Ok tt, (f', w)) ∧ f_fd f' = fd ∧ f_buffer_len f' = f_buffer_len f + 1 ∧
    len (f_buf f') = FILE_BUF_SIZE ∧ buffered_out f' = buffered_out f ++ [c].
Proof.
  intros [Hfd Hl Hb Hn]. unfold push_byte, mbind, M_bind, get_state. cbn [fst snd].
  rewrite (proj2 (Z.ltb_lt _ _)) by (unfold len in *; lia). eexists. split; [reflexivity|]. cbn [f_fd f_buffer_len f_buf].
  unfold FILE_BUF_SIZE, len in *. rewrite wrap_small by lia. split; [done|]. split; [done|]. split; [by rewrite length_insert|].
  unfold buffered_out. cbn [f_buffer_len f_buf]. replace (Z.to_nat (f_buffer_len f + 1)) with (S (Z.to_nat (f_buffer_len f))) by lia.
  rewrite (take_S_r _ _ c) by (apply list_lookup_insert_eq; lia). f_equal. apply take_insert_ge. lia.
Qed.
Lemma clear_ok f (w : W) : f_fd f = fd → len (f_buf f) = FILE_BUF_SIZE →
  ∃ f', clear_buffer (f, w) = (Ok tt, (f', w)) ∧ stream_ok f' ∧ buffered_out f' = [] ∧ f_buffer_len f' = 0.
Proof.
  intros Hfd Hb. eexists. split; [reflexivity|]. cbn. split; [|done]. split; cbn; [done|unfold FILE_BUF_SIZE; lia|done|].
  apply not_elem_of_nil.
Qed.

Lemma out_loop_ok s ret f w :
  stream_ok f → ok w →
  ∃ k f' w', out_loop s ret (f, w) = (Ok k, (f', w')) ∧ stream_ok f' ∧ ok w' ∧
    content w' ++ buffered_out f' = content w ++ buffered_out f ++ s ∧ k = ret + (len (content w') - len (content w)).
Proof.
  revert ret f w. induction s as [|c s IH]; intros ret f w Hf Hok.
  { exists ret, f, w. split; [done|]. rewrite app_nil_r. split_and!; try done. lia. }
  cbn [out_loop]. destruct (push_byte_ok f w c Hf) as (f1 & Hp & Hfd1 & Hl1 & Hb1 & Hbo). destruct Hf as [Hfd Hl Hb Hn].
  erewrite M_bind_ok by exact Hp. erewrite M_bind_ok by reflexivity. cbn [fst].
  destruct ((f_buffer_len f1 =? FILE_BUF_SIZE) || (c =? 10))%bool eqn:E.
  - destruct (write_buffer_ok f1 w Hfd1 ltac:(lia) Hb1 Hok) as (w1 & Hwr & Hok1 & Hc1). erewrite M_bind_ok by exact Hwr.
    destruct (clear_ok f1 w1 Hfd1 Hb1) as (f2 & Hcl & Hf2 & Hbo2 & Hl2). erewrite M_bind_ok by exact Hcl.
    erewrite M_bind_ok by reflexivity. cbn [fst]. rewrite Hl2, !(proj2 (Z.ltb_ge _ _)) by lia.
    destruct (IH (ret + f_buffer_len f1) f2 w1 Hf2 Hok1) as (k & f' & w' & Hr & Hf' & Hok' & Hc' & Hk).
    exists k, f', w'. split_and!; try done.
    + rewrite Hc', Hbo2, Hc1, Hbo. cbn [app]. by rewrite <-!app_assoc.
    + rewrite Hk, Hc1. unfold len, buffered_out, FILE_BUF_SIZE in *. rewrite length_app, length_take. lia.
  - apply orb_false_iff in E as [E1%Z.eqb_neq E2%Z.eqb_neq].
    assert (stream_ok f1) as Hf1.
    { split; [done|lia|done|]. rewrite Hbo, not_elem_of_app, list_elem_of_singleton. split; [done|]. intros H10. by apply E2. }
    destruct (IH ret f1 w Hf1 Hok) as (k & f' & w' & Hr & Hf' & Hok' & Hc' & Hk).
    exists k, f', w'. split_and!; try done. rewrite Hc', Hbo. by rewrite <-app_assoc.
Qed.

(** ** Sequences of calls *)

Inductive SOp : Type :=
| SPutc (c : Z) | SPrintf (mem : CMem) (sfuel : nat) (fmt args : list Z) | SPerror (msg : option (list Z)) (errstr : list Z) | SFlush.
Definition op_text (o : SOp) : list Z :=
  match o with
  | SPutc c => [wrap 8 c]
  | SPrintf mem sfuel fmt args => g_emitted (vfctprintf mem sfuel fmt args).2
  | SPerror (Some (c :: l)) e => (c :: l) ++ [58; 32] ++ e ++ [10]
  | SPerror _ e => e ++ [10]
  | SFlush => []
  end.
(** The format of a [printf] is a good one. *)
Definition op_good (o : SOp) : Prop :=
  match o with SPrintf mem sfuel fmt args => ∃ r, (vfctprintf mem sfuel fmt args).1 = Ok r | _ => True end.
Definition run_op (o : SOp) : M (FILE * W) NoError unit :=
  match o with
  | SPutc c => _ ← fputc c; mret tt
  | SPrintf mem sfuel fmt args => _ ← vfprintf mem sfuel fmt args; mret tt
  | SPerror msg e => perror msg e
  | SFlush => _ ← fflush; mret tt
  end.
Fixpoint run_ops (l : list SOp) : M (FILE * W) NoError unit := match l with [] => mret tt | o :: l => _ ← run_op o; run_ops l end.

(** The call leaves a good stream, and [s] is added to what is in the file and in the buffer. *)
Definition appends {A} (x : M (FILE * W) NoError A) (s : list Z) : Prop := ∀ f w, stream_ok f → ok w →
  ∃ a f' w', x (f, w) = (Ok a, (f', w')) ∧ stream_ok f' ∧ ok w' ∧ content w' ++ buffered_out f' = content w ++ buffered_out f ++ s.
Lemma appends_ret {A} (a : A) : appends (mret a) [].
Proof. intros f w Hf Hok. exists a, f, w. by rewrite app_nil_r. Qed.
Lemma appends_bind {A C} (x : M (FILE * W) NoError A) (k : A → M (FILE * W) NoError C) s1 s2 :
  appends x s1 → (∀ a, appends (k a) s2) → appends (x ≫= k) (s1 ++ s2).
Proof.
  intros Hx Hk f w Hf Hok. destruct (Hx f w Hf Hok) as (a & f1 & w1 & E1 & Hf1 & Hok1 & H1).
  destruct (Hk a f1 w1 Hf1 Hok1) as (b & f2 & w2 & E2 & Hf2 & Hok2 & H2). exists b, f2, w2.
  erewrite M_bind_ok by exact E1. split_and!; try done. rewrite H2, (app_assoc (content w1)), H1. by rewrite <-!app_assoc.
Qed.
Lemma appends_out s : appends (out s) s.
Proof. intros f w Hf Hok. destruct (out_loop_ok s 0 f w Hf Hok) as (k & f' & w' & H). exists k, f', w'. tauto. Qed.
Lemma appends_all l : appends (out_wrapper_all l) l.
Proof.
  induction l as [|c l IH]; cbn [out_wrapper_all]; [apply appends_ret|].
  apply (appends_bind _ _ [c] l); [apply appends_out|done].
Qed.
Lemma fflush_ok f w : stream_ok f → ok w → ∃ f' w', fflush (f, w) = (Ok 0, (f', w')) ∧ stream_ok f' ∧ ok w' ∧
  content w' = content w ++ buffered_out f ∧ buffered_out f' = [].
Proof.
  intros Hf Hok. destruct (Hf) as [Hfd Hl Hb _]. unfold fflush, fflush_.
  assert (∃ r w1, write_buffer (f, w) = (Ok r, (f, w1)) ∧ 0 ≤ r ∧ ok w1 ∧ content w1 = content w ++ buffered_out f) as (r & w1 & Hr & H0 & Hok1 & Hc).
  { destruct (decide (f_buffer_len f = 0)) as [E|E].
    - exists 0, w. unfold write_buffer, mbind, M_bind, get_state. cbn [fst]. rewrite E. split_and!; try done.
      unfold buffered_out. rewrite E. by rewrite app_nil_r.
    - destruct (write_buffer_ok f w Hfd ltac:(lia) Hb Hok) as (w1 & ? & ? & ?). exists (f_buffer_len f), w1. split_and!; try done. lia. }
  erewrite M_bind_ok by exact Hr. destruct (clear_ok f w1 Hfd Hb) as (f1 & Hcl & Hf1 & Hbo & _). erewrite M_bind_ok by exact Hcl.
  exists f1, w1. rewrite (proj2 (Z.leb_le 0 r)) by done. by split_and!.
Qed.
Lemma appends_op o : op_good o → appends (run_op o) (op_text o).
Proof.
  assert (∀ A (x : M (FILE * W) NoError A) s, appends x s → appends (_ ← x; mret tt) s) as Hend.
  { intros A x s Hx. rewrite <-(app_nil_r s). apply appends_bind; [done|]. intros _. apply appends_ret. }
  destruct o as [c|mem sfuel fmt args|msg e|]; cbn [op_good run_op op_text].
  - intros _. apply Hend, appends_out.
  - intros [r Hr]. apply Hend. unfold vfprintf. destruct (vfctprintf mem sfuel fmt args) as [r' g]. cbn in Hr. subst r'. cbn [snd].
    pose proof (appends_bind _ (λ _, mret r) _ [] (appends_all (g_emitted g)) (λ _, appends_ret r)) as H. by rewrite app_nil_r in H.
  - intros _. unfold perror. assert (appends (_ ← out e; _ ← out [10]; mret tt) (e ++ [10])) as He.
    { apply appends_bind; [apply appends_out|]. intros _. apply Hend, appends_out. }
    destruct msg as [[|c l]|]; try apply (appends_bind _ _ [] (e ++ [10]) (appends_ret tt)); try done.
    rewrite (app_assoc (c :: l)). apply appends_bind; [|done]. apply appends_bind; [apply appends_out|].
    intros _. apply Hend, appends_out.
  - intros _. apply Hend. intros f w Hf Hok. destruct (fflush_ok f w Hf Hok) as (f' & w' & H1 & H2 & H3 & H4 & H5).
    exists 0, f', w'. split_and!; try done. by rewrite H4, H5, !app_nil_r.
Qed.

(** C22: Output to a stream comes out in order and once: whatever sequence of [fputc], [printf], [perror] and [fflush] runs
    on a stream whose file takes what it is given, the bytes in the file followed by those in the buffer are what they
    were before, followed by the text of the calls.  The buffer never overflows and never holds a complete line,
    and it is empty after [fflush]. *)
Theorem stream_output ops f w :
  stream_ok f → ok w → Forall op_good ops →
  ∃ f' w', run_ops ops (f, w) = (Ok tt, (f', w')) ∧ stream_ok f' ∧ ok w' ∧
    content w' ++ buffered_out f' = content w ++ buffered_out f ++ (ops ≫= op_text) ∧
    (last ops = Some SFlush → buffered_out f' = []).
Proof.
  intros Hf Hok Hg. revert f w Hf Hok. induction Hg as [|o ops Ho Hg IH]; intros f w Hf Hok.
  { exists f, w. by rewrite app_nil_r. }
  destruct (appends_op o Ho f w Hf Hok) as ([] & f1 & w1 & E1 & Hf1 & Hok1 & H1).
  destruct (IH f1 w1 Hf1 Hok1) as (f2 & w2 & E2 & Hf2 & Hok2 & H2 & Hl). exists f2, w2. cbn [run_ops].
  erewrite M_bind_ok by exact E1. split_and!; try done.
  - rewrite H2, (app_assoc (content w1)), H1. cbn. by rewrite <-!app_assoc.
  - destruct ops as [|o' ops]; [|exact Hl]. cbn in E2. injection E2 as <- <-. intros [= ->]. cbn in E1.
    destruct (fflush_ok f w Hf Hok) as (f' & w' & Hfl & _ & _ & _ & Hb). unfold mbind, M_bind in E1. rewrite Hfl in E1.
    by injection E1 as <- _.
Qed.
End streams.

(** ** Blocks *)

Lemma wrap_plus_l w x y : 0 ≤ w → wrap w (wrap w x + y) = wrap w (x + y).
Proof. intros. unfold wrap. apply Zplus_mod_idemp_l. Qed.
Lemma bytes_at_wrap mem p n : bytes_at mem (wrap 64 p) n = bytes_at mem p n.
Proof. unfold bytes_at. apply list_fmap_ext. intros i x _. by rewrite wrap_plus_l. Qed.
Lemma bytes_at_length mem p n : 0 ≤ n → len (bytes_at mem p n) = n.
Proof. intros Hn. unfold bytes_at, len. rewrite length_fmap, length_seq. lia. Qed.
Lemma bytes_at_split mem p k n :
  0 ≤ k ≤ n → bytes_at mem p n = bytes_at mem p k ++ bytes_at mem (p + k) (n - k).
Proof.
  intros Hk. unfold bytes_at. replace (Z.to_nat n) with (Z.to_nat k + Z.to_nat (n - k))%nat by lia.
  rewrite seq_app, fmap_app. f_equal. rewrite Nat.add_0_l. rewrite <-(Nat.add_0_r (Z.to_nat k)) at 1. rewrite <-fmap_add_seq, <-list_fmap_compose.
  apply list_fmap_ext. intros i x _. cbn. do 3 f_equal. lia.
Qed.
Section blocks.
Context {W : Type} `{IO : FdIo W} (fd : Z) (content : W → list Z) (ok : W → Prop).
(** A file that takes some of the bytes, at least one. *)
Definition takes_some : Prop := ∀ l w, ok w → len l < 2 ^ 31 →
  ∃ k w', c_write fd l w = (Ok k, w') ∧ 0 ≤ k ≤ len l ∧ (l ≠ [] → 0 < k) ∧ ok w' ∧ content w' = content w ++ take (Z.to_nat k) l.
Context (Hw : takes_some).

Lemma fwrite_loop_ok mem src total fuel d w :
  ok w → 0 ≤ d ≤ total → total < 2 ^ 31 → (Z.to_nat (total - d) < fuel)%nat →
  ∃ w', fwrite_loop mem src total fuel fd d w = (Ok total, w') ∧ ok w' ∧ content w' = content w ++ bytes_at mem (src + d) (total - d).
Proof.
  revert d w. induction fuel as [|fuel IH]; intros d w Hok Hd Ht Hf; [lia|]. cbn [fwrite_loop]. unfold sub64, add64.
  rewrite bytes_at_wrap, (wrap_small 64 (total - d)) by lia. pose proof (bytes_at_length mem (src + d) (total - d) ltac:(lia)) as Hl.
  destruct (Hw (bytes_at mem (src + d) (total - d)) w Hok ltac:(lia)) as (k & w1 & E & Hk & Hpos & Hok1 & Hc).
  erewrite M_bind_ok by exact E. rewrite (wrap_small 64 k), (wrap_small 64 (d + k)) by lia. destruct (Z.ltb_spec 0 k) as [Hk0|Hk0].
  - destruct (IH (d + k) w1 Hok1 ltac:(lia) Ht ltac:(lia)) as (w2 & E2 & Hok2 & Hc2). exists w2. split_and!; try done.
    rewrite Hc2, Hc, <-app_assoc. f_equal. rewrite (bytes_at_split mem (src + d) k (total - d)) by lia. f_equal.
    + rewrite take_app_length'; [done|]. pose proof (bytes_at_length mem (src + d) k ltac:(lia)). unfold len in *. lia.
    + f_equal; lia.
  - assert (bytes_at mem (src + d) (total - d) = []) as En.
    { destruct (bytes_at mem (src + d) (total - d)); [done|]. specialize (Hpos ltac:(done)). lia. }
    exists w1. rewrite En in *. unfold len in Hl. cbn in Hl. replace (d + k) with total by lia. split_and!; try done. by rewrite Hc, take_nil.
Qed.
(** [fwrite] writes all the bytes, however few the file takes at a time, and returns the number of blocks. *)
Theorem fwrite_writes_all mem fuel src size nmemb f w :
  f_fd f = fd → ok w → 0 ≤ size → 0 ≤ nmemb → size * nmemb < 2 ^ 31 → (Z.to_nat (size * nmemb) < fuel)%nat →
  ∃ w', fwrite mem fuel src size nmemb f w = (Ok nmemb, w') ∧ ok w' ∧ content w' = content w ++ bytes_at mem src (size * nmemb).
Proof.
  intros Hfd Hok H0 H1 Ht Hf. unfold fwrite, blocks_done, mul64. rewrite (wrap_small 64 (size * nmemb)) by nia. rewrite Hfd.
  destruct (fwrite_loop_ok mem src (size * nmemb) fuel 0 w Hok ltac:(nia) Ht ltac:(rewrite Z.sub_0_r; done)) as (w' & E & Hok' & Hc).
  exists w'. erewrite M_bind_ok by exact E. rewrite Z.eqb_refl. rewrite Z.add_0_r, Z.sub_0_r in Hc. by split_and!.
Qed.
End blocks.

(** C38: A [write] or [read] that fails makes [fwrite] and [fread] run for ever: the result -1 is stored in a [size_t], which
    is then a large positive number. *)
Theorem failing_stream_never_returns {W} `{IO : FdIo W} f w mem p size nmemb :
  ((∀ l, c_write (f_fd f) l w = (Ok (-1), w)) → ∀ fuel, fwrite mem fuel p size nmemb f w = (OutOfFuel, w)) ∧
  ((∀ n, c_read (f_fd f) n w = (Ok (-1, []), w)) → ∀ fuel, fread mem fuel p size nmemb f w = (OutOfFuel, w)).
Proof.
  split; intros Hf fuel.
  - assert (∀ d total, fwrite_loop mem p total fuel (f_fd f) d w = (OutOfFuel, w)) as H.
    { induction fuel as [|fuel IH]; intros d total; [done|]. cbn [fwrite_loop]. erewrite M_bind_ok by apply Hf. apply IH. }
    unfold fwrite, mbind, M_bind. by rewrite H.
  - assert (∀ d total mem, fread_loop fuel (f_fd f) p total d mem w = (OutOfFuel, w)) as H.
    { induction fuel as [|fuel IH]; intros d total mem'; [done|]. cbn [fread_loop]. erewrite M_bind_ok by apply Hf. apply IH. }
    unfold fread, mbind, M_bind. by rewrite H.
Qed.

(** ** Lines *)

Section lines.
Context {W : Type} `{IO : FdIo W} (fd : Z) (stream_of : W → list Z) (ok : W → Prop).
(** A file that gives one byte at a time, and none at its end. *)
Definition gives_bytes : Prop := ∀ w, ok w →
  match stream_of w with
  | [] => c_read fd 1 w = (Ok (0, []), w)
  | c :: l => ∃ w', c_read fd 1 w = (Ok (1, [c]), w') ∧ ok w' ∧ stream_of w' = l
  end.
Context (Hr : gives_bytes).

Definition line_of (n cnt : Z) (s l r : list Z) : Prop :=
  10 ∉ l ∧ ((s = l ++ 10 :: r ∧ cnt + len l < n - 1) ∨ (s = l ++ r ∧ (cnt + len l = n - 1 ∨ r = []))).
Lemma fgets_loop_ok fuel n cnt w :
  ok w → 0 ≤ cnt ≤ n - 1 → (Z.to_nat (n - 1 - cnt) < fuel)%nat →
  ∃ l w', fgets_loop fuel fd n cnt w = (Ok l, w') ∧ ok w' ∧ line_of n cnt (stream_of w) l (stream_of w').
Proof.
  revert cnt w. induction fuel as [|fuel IH]; intros cnt w Hok Hc Hf; [lia|]. cbn [fgets_loop].
  destruct (Z.ltb_spec cnt (n - 1)) as [Hlt|Hge].
  2: { exists [], w. split; [done|]. split; [done|]. split; [apply not_elem_of_nil|]. right. split; [done|]. left. unfold len. cbn. lia. }
  pose proof (Hr w Hok) as Hw. destruct (stream_of w) as [|c s] eqn:Es.
  - exists [], w. erewrite M_bind_ok by exact Hw. split; [done|]. split; [done|]. split; [apply not_elem_of_nil|].
    right. rewrite Es. by split; [|right].
  - destruct Hw as (w1 & E & Hok1 & Hs1). erewrite M_bind_ok by exact E. cbv beta iota. change (0 <? 1) with true. cbv iota.
    destruct (Z.eqb_spec c 10) as [->|H10]; cbn [negb].
    + exists [], w1. split; [done|]. split; [done|]. split; [apply not_elem_of_nil|]. left. rewrite Hs1. split; [done|]. unfold len. cbn. lia.
    + destruct (IH (cnt + 1) w1 Hok1 ltac:(lia) ltac:(lia)) as (l & w2 & E2 & Hok2 & Hnl & Hl). erewrite M_bind_ok by exact E2.
      exists (c :: l), w2. split; [done|]. split; [done|]. split; [rewrite not_elem_of_cons; by split|].
      rewrite Hs1 in Hl. unfold len in *. cbn [length]. destruct Hl as [[-> Hl]|[-> Hl]]; [left; split; [done|lia]|].
      right. split; [done|]. destruct Hl; [left; lia|by right].
Qed.
(** [fgets] returns the next line, without its line feed, or as much of it as there is room for; the rest stays
    for the next call.  At the end of the file it returns an empty string and not a null pointer, so that a
    program cannot tell the end from an empty line. *)
Theorem fgets_line n f w :
  f_fd f = fd → ok w → 2 ≤ n →
  ∃ l w', fgets n f w = (Ok (Some l), w') ∧ ok w' ∧ line_of n 0 (stream_of w) l (stream_of w').
Proof.
  intros Hfd Hok Hn. unfold fgets. rewrite (proj2 (Z.eqb_neq n 0)), (proj2 (Z.eqb_neq n 1)), Hfd by lia.
  destruct (fgets_loop_ok (S (Z.to_nat n)) n 0 w Hok ltac:(lia) ltac:(lia)) as (l & w' & E & H). exists l, w'.
  by erewrite M_bind_ok by exact E.
Qed.
End lines.

(** A [write] that takes a part of the buffer loses the rest: [fflush] empties the buffer and reports success. *)
Theorem short_write_lost {W} `{IO : FdIo W} f w k w' :
  0 < f_buffer_len f ≤ len (f_buf f) → 0 ≤ k < f_buffer_len f →
  c_write (f_fd f) (buffered_out f) w = (Ok k, w') →
  ∃ f', fflush (f, w) = (Ok 0, (f', w')) ∧ buffered_out f' = [].
Proof.
  intros Hl Hk E. unfold fflush, fflush_, write_buffer. unfold mbind, M_bind, get_state. cbn [fst snd].
  rewrite (proj2 (Z.eqb_neq _ 0)), (proj2 (Z.ltb_ge _ _)) by (unfold len in *; lia). fold (buffered_out f). unfold on_world. cbn [fst snd].
  rewrite E. unfold clear_buffer, modify, mret, M_ret. cbn [fst snd]. rewrite (proj2 (Z.leb_le 0 k)) by lia. by eexists.
Qed.

(** ** Standard output *)

Section stdout.
Context `{BF : Bitflags} {B : Type} `{BM : Bitmap B} `{BMS : !BitmapSpec B} (arrivals : list (list Z)).
Local Existing Instance posix_FdIo.
Context (m : gmap Z PFile) (fd : Z) (Hfd : c_int fd) (Hm : m !! fd = Some PStdout).

Lemma console_takes (l : list Z) (s : PState (B := B)) :
  posix_wf m s → len l < 2 ^ 31 →
  ∃ s', c_write (FdIo := posix_FdIo arrivals) fd l s = (Ok (len l), s') ∧ posix_wf m s' ∧ p_stdout s' = p_stdout s ++ l.
Proof.
  intros Hs Hl.
  exists {| p_table := p_table s; p_files := p_files s; p_fs := p_fs s; p_stdin := p_stdin s; p_stdout := p_stdout s ++ l |}.
  split; [|split; [|reflexivity]].
  - cbn [c_write posix_FdIo]. unfold libc_result. erewrite M_bind_ok by (by erewrite M_bind_ok by (by apply (sys_write_console m))).
    unfold mret, M_ret. cbn [fst snd]. unfold e_, to_c_int. unfold len in *. rewrite wrap_small by lia.
    rewrite (proj2 (Z.ltb_lt (Z.of_nat (length l)) _)) by lia. by rewrite (proj2 (Z.ltb_ge _ 0)) by lia.
  - destruct Hs as [Ht Hc]. by split.
Qed.
Lemma console_takes_all : takes_all (IO := posix_FdIo arrivals) fd p_stdout (posix_wf (B := B) m).
Proof. intros l s Hs _ Hl. apply console_takes; [done|]. unfold FILE_BUF_SIZE in Hl. lia. Qed.
Lemma console_takes_some : takes_some (IO := posix_FdIo arrivals) fd p_stdout (posix_wf (B := B) m).
Proof.
  intros l s Hs Hl. destruct (console_takes l s Hs Hl) as (s' & E & Hs' & Ho). exists (len l), s'.
  assert (take (Z.to_nat (len l)) l = l) as Et by (unfold len; by rewrite Nat2Z.id, firstn_all).
  split_and!; try done; [unfold len; lia| |by rewrite Et]. intros Hn. destruct l; [done|]. unfold len. cbn. lia.
Qed.
(** A closed descriptor refuses every write and read. *)
Lemma closed_refuses (s : PState (B := B)) fd' :
  posix_wf m s → c_int fd' → m !! fd' = None →
  (∀ l, c_write (FdIo := posix_FdIo arrivals) fd' l s = (Ok (-1), s)) ∧ (∀ n, c_read (FdIo := posix_FdIo arrivals) fd' n s = (Ok (-1, []), s)).
Proof.
  intros Hs Hc Hn. split; intros x; cbn [c_write c_read posix_FdIo]; unfold libc_result.
  - erewrite M_bind_ok by (erewrite M_bind_ok by (by apply (syscall_closed m)); reflexivity). reflexivity.
  - by erewrite M_bind_ok by (by apply (syscall_closed m)).
Qed.
End stdout.

(** ** Concrete instances *)

Section examples.
Local Instance stdio_bitflags : Bitflags := std_bitflags.
Local Instance stdio_io : FdIo (PState (B := gset Z)) := posix_FdIo [].

Lemma stdout_ok : stream_ok 1 (FILE_new 1).
Proof. split; [done|unfold FILE_BUF_SIZE; cbn; lia|vm_compute; reflexivity|]. unfold buffered_out. cbn. apply not_elem_of_nil. Qed.
(** [printf("n=%d\n", 42); putchar('x');] *)
Definition example_output : list SOp := [SPrintf ∅ 0 [110; 61; 37; 100; 10] [42]; SPutc 120].
Lemma stream_output_witness :
  ∃ f' s', run_ops example_output (FILE_new 1, example_posix) = (Ok tt, (f', s')) ∧
    p_stdout s' ++ buffered_out f' = [110; 61; 52; 50; 10; 120].
Proof.
  destruct (stream_output 1 p_stdout (posix_wf example_map) (console_takes_all [] example_map 1 ltac:(unfold c_int; lia) eq_refl)
    example_output (FILE_new 1) example_posix stdout_ok example_posix_wf) as (f' & s' & E & _ & _ & Hc & _).
  - repeat constructor. exists 5. vm_compute. reflexivity.
  - exists f', s'. split; [exact E|]. rewrite Hc. vm_compute. reflexivity.
Defined.
Definition example_text : CMem := put 100 [104; 105; 33; 33] ∅.
Lemma fwrite_writes_all_witness :
  ∃ s', fwrite example_text 5 100 2 2 (FILE_new 1) example_posix = (Ok 2, s') ∧ p_stdout s' = [104; 105; 33; 33].
Proof.
  destruct (fwrite_writes_all 1 p_stdout (posix_wf example_map) (console_takes_some [] example_map 1 ltac:(unfold c_int; lia) eq_refl)
    example_text 5 100 2 2 (FILE_new 1) example_posix) as (s' & E & _ & Hc); [done|exact example_posix_wf|lia|lia|lia|lia|].
  exists s'. split; [exact E|]. rewrite Hc. vm_compute. reflexivity.
Defined.
(** A stream whose descriptor is not open. *)
Lemma failing_stream_never_returns_witness :
  c_write 7 [1] example_posix = (Ok (-1), example_posix) ∧
  ∀ fuel, fwrite example_text fuel 100 2 2 (FILE_new 7) example_posix = (OutOfFuel, example_posix).
Proof.
  pose proof (closed_refuses [] example_map example_posix 7 example_posix_wf ltac:(unfold c_int; lia) eq_refl) as [Hc _]. split; [exact (Hc [1])|].
  exact (proj1 (failing_stream_never_returns (FILE_new 7) example_posix example_text 100 2 2) Hc).
Defined.
(** The system of a file that is a list of bytes, of which one is written at a time. *)
Definition slow_io : FdIo (list Z) := {|
  c_open _ _ := mret (-1); c_close _ := mret 0;
  c_read _ n := s ← get_state; _ ← put_state (drop (Z.to_nat n) s); mret (len (take (Z.to_nat n) s), take (Z.to_nat n) s);
  c_write _ l := s ← get_state; _ ← put_state (s ++ take 1 l); mret (len (take 1 l));
|}.
Lemma fgets_line_witness :
  ∃ l w', fgets (H := slow_io) 10 (FILE_new 3) [104; 105; 10; 33] = (Ok (Some l), w') ∧ l = [104; 105] ∧ w' = [33].
Proof.
  assert (gives_bytes (IO := slow_io) 3 id (λ _, True)) as Hg by (intros [|c l] _; [reflexivity|by exists l]).
  destruct (fgets_line (IO := slow_io) 3 id (λ _, True) Hg 10 (FILE_new 3) [104; 105; 10; 33]) as (l & w' & E & _ & _); [done|done|lia|].
  exists l, w'. split; [exact E|]. assert (fgets (H := slow_io) 10 (FILE_new 3) [104; 105; 10; 33] = (Ok (Some [104; 105]), [33])) as E2 by reflexivity.
  rewrite E in E2. by injection E2 as -> ->.
Defined.
Lemma short_write_lost_witness :
  ∃ f', fflush (H := slow_io) ({| f_fd := 3; f_buffer_len := 2; f_buf := [104; 105; 0] |}, []) = (Ok 0, (f', [104])) ∧ buffered_out f' = [].
Proof. apply (short_write_lost (IO := slow_io) {| f_fd := 3; f_buffer_len := 2; f_buf := [104; 105; 0] |} [] 1 [104]); [unfold len; cbn; lia|cbn; lia|reflexivity]. Defined.

(** [fclose] closes the descriptor and not the stream: what is in the buffer is lost.  The program writes a character to a
    new file and closes it; the file is empty. *)
Theorem fclose_loses_output :
  ∃ f f' s1 s2 s3,
    fopen (FILE_new 0) (CStr_ [97]) [119] example_posix = (Ok (Some f), s1) ∧
    fputc 120 (f, s1) = (Ok 0, (f', s2)) ∧ fclose f' s2 = (Ok 0, s3) ∧ (api_read [97] 4 (p_fs s3)).1 = Ok [].
Proof.
  eexists _, _, _, _, _. split; [|split; [|split]].
  - vm_compute. reflexivity.
  - vm_compute. reflexivity.
  - vm_compute. reflexivity.
  - vm_compute. reflexivity.
Qed.
End examples.
