(* ===== verification/Inet.v ===== *)
(** * Network addresses of the C library ([ulib/axlibc/c/network.c])

    Byte order, and the texts of addresses of versions 4 and 6.  A string is the list of its bytes before the final
    zero. *)

From Stdlib Require Import ZArith Lia.
From stdpp Require Import base decidable numbers gmap list.
From S2P Require Import Prelude LinkedList CString CStdlib CTime Printf PrintfProps.

Local Open Scope Z_scope.

(** ** Byte order *)

Definition bswap_16 (x : Z) : Z := wrap 16 (Z.lor (Z.shiftl x 8) (Z.shiftr x 8)).
Definition bswap_32 (x : Z) : Z :=
  wrap 32 (Z.lor (Z.lor (Z.lor (Z.shiftr x 24) (Z.land (Z.shiftr x 8) 0xff00)) (Z.land (wrap 32 (Z.shiftl x 8)) 0xff0000)) (Z.shiftl x 24)).
(** The machine is little-endian when the first byte of the number 1 is not zero. *)
Definition htonl (little : bool) (n : Z) : Z := if little then bswap_32 n else n.
Definition htons (little : bool) (n : Z) : Z := if little then bswap_16 n else n.
Definition ntohl (little : bool) (n : Z) : Z := if little then bswap_32 n else n.
Definition ntohs (little : bool) (n : Z) : Z := if little then bswap_16 n else n.

(** ** Reading addresses *)

Definition AF_INET : Z := 2.
Definition AF_INET6 : Z := 10.
Definition EAFNOSUPPORT_ : Z := 97.
Definition ENOSPC_ : Z := 28.
Definition char_at (s : list Z) (j : nat) : Z := default 0 (s !! j).

Definition hexval (c : Z) : Z :=
  if wrap 32 (c - 48) <? 10 then c - 48
  else let c := Z.lor c 32 in if wrap 32 (c - 97) <? 6 then c - 97 + 10 else -1.
(** The value and the number of at most [k] digits. *)
Fixpoint v4_digits (k : nat) (s : list Z) (v : Z) (j : nat) : Z * nat :=
  match k with
  | O => (v, j)
  | S k => if isdigit (char_at s j) then v4_digits k s (10 * v + char_at s j - 48) (S j) else (v, j)
  end.
(** The result, and the bytes written so far; [n] parts are left after this one. *)
Fixpoint pton4 (n : nat) (s : list Z) : Z * list Z :=
  let '(v, j) := v4_digits 3 s 0 0 in
  if ((j =? 0)%nat || ((1 <? j)%nat && (char_at s 0 =? 48)) || (255 <? v))%bool then (0, [])
  else
    match n with
    | O => if char_at s j =? 0 then (1, [v]) else (0, [v])
    | S n =>
        if negb (char_at s j =? 46) then (0, [v])
        else let '(r, l) := pton4 n (drop (S j) s) in (r, v :: l)
    end.

Fixpoint hex_digits (k : nat) (s : list Z) (v : Z) (j : nat) : Z * nat :=
  match k with
  | O => (v, j)
  | S k => if 0 <=? hexval (char_at s j) then hex_digits k s (16 * v + hexval (char_at s j)) (S j) else (v, j)
  end.
(** The loop over the groups: [None] when the text is refused; else the index, the place of [::], the groups, whether
    an address of version 4 follows, and the rest of the text. *)
Fixpoint pton6_loop (fuel : nat) (i : nat) (s : list Z) (brk : option nat) (ip : list Z) : option (nat * option nat * list Z * bool * list Z) :=
  match fuel with
  | O => None
  | S fuel =>
      if ((char_at s 0 =? 58) && bool_decide (brk = None))%bool then
        let brk := Some i in
        let ip := <[Nat.modulo i 8 := 0]> ip in
        let s := drop 1 s in
        if char_at s 0 =? 0 then Some (i, brk, ip, false, s)
        else if (i =? 7)%nat then None
        else pton6_loop fuel (S i) s brk ip
      else
        let '(v, j) := hex_digits 4 s 0 0 in
        if (j =? 0)%nat then None
        else
          let ip := <[Nat.modulo i 8 := wrap 16 v]> ip in
          if ((char_at s j =? 0) && (bool_decide (is_Some brk) || (i =? 7)%nat))%bool then Some (i, brk, ip, false, s)
          else if (i =? 7)%nat then None
          else if negb (char_at s j =? 58) then
            if (negb (char_at s j =? 46) || ((i <? 6)%nat && bool_decide (brk = None)))%bool then None
            else Some (S i, brk, ip, true, s)
          else pton6_loop fuel (S i) (drop (S j) s) brk ip
  end.
(** The groups behind [::] are moved to the end, after the space was cleared. *)
Definition spread (i : nat) (brk : option nat) (ip : list Z) : list Z :=
  match brk with
  | None => ip
  | Some b =>
      let ip := take b ip ++ replicate (7 - i) 0 ++ drop (b + (7 - i)) ip in
      let moved := take (i + 1 - b) (drop b ip) in
      take (b + (7 - i)) ip ++ moved ++ drop (b + (7 - i) + length moved) ip
  end.
Definition group_bytes (ip : list Z) : list Z := ip ≫= λ g, [wrap 8 (Z.shiftr g 8); wrap 8 g].
(** [ip] starts with what is in memory.  The result is the value of the function and the address; [errno] when it is set. *)
Definition inet_pton (garbage : list Z) (af : Z) (s : list Z) : Z * list Z * option Z :=
  if af =? AF_INET then (pton4 3 s, None)
  else if negb (af =? AF_INET6) then (-1, [], Some EAFNOSUPPORT_)
  else if ((char_at s 0 =? 58) && negb (char_at s 1 =? 58))%bool then (0, [], None)
  else
    let s := if char_at s 0 =? 58 then drop 1 s else s in
    match pton6_loop 9 0 s None garbage with
    | None => (0, [], None)
    | Some (i, brk, ip, need_v4, s) =>
        let a := group_bytes (spread i brk ip) in
        if need_v4 then
          let '(r, l) := pton4 3 s in
          let a := take 12 a ++ l ++ drop (12 + length l) a in
          (if r <=? 0 then 0 else 1, a, None)
        else (1, a, None)
    end.

(** ** Printing addresses *)

(** [%d.%d.%d.%d] *)
Definition fmt_v4 : list Z := [37; 100; 46; 37; 100; 46; 37; 100; 46; 37; 100].
Definition fmt_x : list Z := [37; 120].
Definition fmt_v6 : list Z := (replicate 7 (fmt_x ++ [58]) ≫= id) ++ fmt_x.
Definition fmt_v6_v4 : list Z := (replicate 6 (fmt_x ++ [58]) ≫= id) ++ fmt_v4.
Fixpoint until_zero (l : list Z) : list Z := match l with [] => [] | c :: l => if c =? 0 then [] else c :: until_zero l end.
(** [snprintf] into a buffer: its result and the string in the buffer. *)
Definition snprintf (b : list Z) (n : Z) (fmt args : list Z) : option (Z * list Z) :=
  match vsnprintf_ ∅ 0 (Some b) n fmt args with
  | (Ok r, g) => Some (r, default [] (g_buffer g))
  | _ => None
  end.
(** The length of the characters [:] and [0] at the start. *)
Fixpoint span_zeros (l : list Z) : nat := match l with c :: l => if ((c =? 58) || (c =? 48))%bool then S (span_zeros l) else O | [] => O end.
Fixpoint best_run (l : list Z) (i best max : nat) : nat * nat :=
  match l with
  | [] => (best, max)
  | c :: l' =>
      if (negb (i =? 0)%nat && negb (c =? 58))%bool then best_run l' (S i) best max
      else
        let j := span_zeros l in
        if (max <? j)%nat then best_run l' (S i) i j else best_run l' (S i) best max
  end.
Definition compress (buf : list Z) : list Z :=
  let '(best, max) := best_run buf 0 0 2 in
  if (3 <? max)%nat then take best buf ++ [58; 58] ++ drop (best + max) buf else buf.
Definition group (a : list Z) (k : nat) : Z := 256 * char_at a (2 * k) + char_at a (2 * k + 1).
(** The string in the buffer [s] of [l] bytes, or [None] and [errno]. *)
Definition inet_ntop (af : Z) (a s : list Z) (l : Z) : option (list Z) * option Z :=
  if af =? AF_INET then
    match snprintf s l fmt_v4 [char_at a 0; char_at a 1; char_at a 2; char_at a 3] with
    | Some (r, s) => if wrap 32 r <? l then (Some s, None) else (None, Some ENOSPC_)
    | None => (None, None)
    end
  else if af =? AF_INET6 then
    let groups n := group a <$> seq 0 n in
    let text :=
      if negb (bool_decide (take 12 a = replicate 10 0 ++ [255; 255])) then snprintf (replicate 100 0) 100 fmt_v6 (groups 8%nat)
      else snprintf (replicate 100 0) 100 fmt_v6_v4 (groups 6%nat ++ [char_at a 12; char_at a 13; char_at a 14; char_at a 15]) in
    match text with
    | Some (_, buf) =>
        let buf := compress (until_zero buf) in
        if Z.of_nat (length buf) <? l then (Some (buf ++ [0] ++ drop (S (length buf)) s), None) else (None, Some ENOSPC_)
    | None => (None, None)
    end
  else (None, Some EAFNOSUPPORT_).

(** ** Byte order *)

Definition swap_index (i : Z) : Z := if i <? 8 then i + 24 else if i <? 16 then i + 8 else if i <? 24 then i - 8 else i - 24.
Lemma testbit_mask k i : 0 ≤ k → 0 ≤ i → Z.testbit (Z.shiftl (Z.ones 8) k) i = bool_decide (k ≤ i < k + 8).
Proof.
  intros Hk Hi. rewrite Z.shiftl_spec by lia. destruct (decide (i < k)).
  - rewrite Z.testbit_neg_r, bool_decide_false by lia. done.
  - rewrite Z.testbit_ones by lia. case_bool_decide; destruct (Z.leb_spec 0 (i - k)), (Z.ltb_spec (i - k) 8); cbn; lia || done.
Qed.
Lemma testbit_wrap w x i : 0 ≤ w → 0 ≤ i → Z.testbit (wrap w x) i = (bool_decide (i < w) && Z.testbit x i)%bool.
Proof.
  intros Hw Hi. unfold wrap. case_bool_decide; [by rewrite Z.mod_pow2_bits_low by lia|by rewrite Z.mod_pow2_bits_high by lia].
Qed.
Lemma testbit_above w x i : 0 ≤ x < 2 ^ w → 0 ≤ w ≤ i → Z.testbit x i = false.
Proof. intros Hx Hi. rewrite <-(Z.mod_small x (2 ^ w)) by lia. apply Z.mod_pow2_bits_high. lia. Qed.
Lemma bswap_32_bits n i : 0 ≤ n < 2 ^ 32 → 0 ≤ i < 32 → Z.testbit (bswap_32 n) i = Z.testbit n (swap_index i).
Proof.
  intros Hn Hi. unfold bswap_32, swap_index. change 0xff00 with (Z.shiftl (Z.ones 8) 8). change 0xff0000 with (Z.shiftl (Z.ones 8) 16).
  rewrite testbit_wrap, !Z.lor_spec, !Z.land_spec, !testbit_mask, testbit_wrap, !Z.shiftr_spec, !Z.shiftl_spec by lia.
  repeat case_bool_decide; try lia; destruct (Z.ltb_spec i 8), (Z.ltb_spec i 16), (Z.ltb_spec i 24); try lia; cbn [andb orb];
    rewrite ?andb_false_r, ?andb_true_r, ?orb_false_r; try (rewrite (testbit_above 32 n (i + 24)) by lia); try (rewrite (Z.testbit_neg_r n (i - 24)) by lia);
    rewrite ?orb_false_r, ?orb_false_l; try done.
Qed.
Lemma bswap_16_bits n i : 0 ≤ n < 2 ^ 16 → 0 ≤ i < 16 → Z.testbit (bswap_16 n) i = Z.testbit n (if i <? 8 then i + 8 else i - 8).
Proof.
  intros Hn Hi. unfold bswap_16. rewrite testbit_wrap, Z.lor_spec, Z.shiftl_spec, Z.shiftr_spec by lia.
  rewrite bool_decide_true by lia. destruct (Z.ltb_spec i 8); [by rewrite (Z.testbit_neg_r n (i - 8)) by lia|].
  rewrite (testbit_above 16 n (i + 8)) by lia. apply orb_false_r.
Qed.
(** A map of numbers that permutes the bits below [w] in pairs undoes itself. *)
Lemma swap_twice w (f : Z → Z) (p : Z → Z) n :
  0 ≤ w → 0 ≤ n < 2 ^ w → (∀ x, 0 ≤ f x < 2 ^ w) → (∀ x i, 0 ≤ x < 2 ^ w → 0 ≤ i < w → Z.testbit (f x) i = Z.testbit x (p i)) →
  (∀ i, 0 ≤ i < w → 0 ≤ p i < w ∧ p (p i) = i) → f (f n) = n.
Proof.
  intros Hw Hn Hf Hb Hp. apply Z.bits_inj'. intros i Hi. destruct (decide (i < w)) as [Hlt|].
  - destruct (Hp i) as [Hr E]; [lia|]. by rewrite Hb, Hb, E by (done || apply Hf || lia).
  - rewrite (testbit_above w n), (testbit_above w (f (f n))); done || lia.
Qed.
(** Byte order: on a little-endian machine byte [k] of the result is byte [3 - k] of the argument, on a big-endian one nothing
    changes; on both, [ntohl] undoes [htonl], and [ntohs] undoes [htons]. *)
Theorem byte_order_roundtrip little n :
  0 ≤ n < 2 ^ 32 →
  ntohl little (htonl little n) = n ∧
  (∀ i, 0 ≤ i < 32 → Z.testbit (htonl little n) i = Z.testbit n (if little then swap_index i else i)) ∧
  (n < 2 ^ 16 → ntohs little (htons little n) = n).
Proof.
  intros Hn. destruct little; cbn; split_and!; try done; [|intros i Hi; by apply bswap_32_bits|intros H16].
  - apply (swap_twice 32 _ swap_index); [lia|done|intros; apply wrap_range; lia|apply bswap_32_bits|].
    intros i Hi. unfold swap_index. repeat case_match; rewrite ?Z.ltb_lt, ?Z.ltb_ge in *; lia.
  - apply (swap_twice 16 _ (λ i, if i <? 8 then i + 8 else i - 8)); [lia..|intros; apply wrap_range; lia|apply bswap_16_bits|].
    intros i Hi. repeat case_match; rewrite ?Z.ltb_lt, ?Z.ltb_ge in *; lia.
Qed.

(** ** The text of an address of version 4 *)

Definition octet (v : Z) : Prop := 0 ≤ v ≤ 255.
Definition octet_text (v : Z) : list Z :=
  if v <? 10 then [48 + v] else if v <? 100 then [48 + v / 10; 48 + v mod 10] else [48 + v / 100; 48 + v / 10 mod 10; 48 + v mod 10].
Fixpoint dotted (vs : list Z) : list Z :=
  match vs with [] => [] | [v] => octet_text v | v :: vs => octet_text v ++ 46 :: dotted vs end.

Lemma isdigit_spec c : 0 ≤ c < 256 → isdigit c = true ↔ 48 ≤ c ≤ 57.
Proof.
  intros Hc. unfold isdigit, wrap. rewrite Z.ltb_lt. change (2 ^ 32) with 4294967296. Z.to_euclidean_division_equations. lia.
Qed.
Lemma isdigit_digit d : 0 ≤ d < 10 → isdigit (48 + d) = true.
Proof. intros Hd. apply isdigit_spec; lia. Qed.
Lemma octet_text_head v : octet v → (length (octet_text v) = 1%nat) ∨ char_at (octet_text v) 0 ≠ 48.
Proof.
  intros Hv. unfold octet, octet_text in *. repeat case_match; rewrite ?Z.ltb_lt, ?Z.ltb_ge in *; [by left|right..]; cbn; unfold id;
    Z.to_euclidean_division_equations; lia.
Qed.
Lemma octet_text_length v : (1 ≤ length (octet_text v) ≤ 3)%nat.
Proof. unfold octet_text. repeat case_match; cbn; lia. Qed.

Lemma octet_digits v rest :
  octet v → isdigit (char_at rest 0) = false →
  v4_digits 3 (octet_text v ++ rest) 0 0 = (v, length (octet_text v)).
Proof.
  intros Hv Hr. unfold octet, octet_text in *. unfold char_at in Hr. destruct rest; cbn in Hr;
  repeat case_match; rewrite ?Z.ltb_lt, ?Z.ltb_ge in *; cbn [v4_digits app char_at lookup list_lookup default length]; unfold id in *;
    rewrite ?isdigit_digit, ?Hr by (Z.to_euclidean_division_equations; lia); f_equal; Z.to_euclidean_division_equations; lia.
Qed.
(** What the checks after the digits accept is the text of the number. *)
Lemma digits_octet s v j :
  Forall (λ c, 0 < c < 256) s → v4_digits 3 s 0 0 = (v, j) → j ≠ 0%nat → (j = 1%nat ∨ char_at s 0 ≠ 48) → v ≤ 255 →
  octet v ∧ j = length (octet_text v) ∧ s = octet_text v ++ drop j s.
Proof.
  intros Hs E Hj H0 Hv. unfold octet, octet_text, char_at in *.
  destruct s as [|c0 [|c1 [|c2 s]]]; rewrite ?Forall_cons in Hs; cbn in E, H0; unfold id in *; change (isdigit 0) with false in E; cbn iota in E;
    repeat match type of E with
      (if isdigit ?c then _ else _) = _ => let H := fresh "D" in destruct (isdigit c) eqn:H; [apply isdigit_spec in H; [|lia]|clear H]
    end;
    injection E as <- <-; try done; (destruct H0 as [H0|H0]; try done);
    repeat match goal with |- context [if ?a <? ?b then _ else _] => destruct (Z.ltb_spec a b); try lia end;
    cbn [length app drop]; (split; [lia|]); (split; [done|]); rewrite ?drop_0; repeat apply (f_equal2 cons); try done; Z.to_euclidean_division_equations; lia.
Qed.

Lemma dotted_cons v vs : vs ≠ [] → dotted (v :: vs) = octet_text v ++ 46 :: dotted vs.
Proof. by destruct vs. Qed.
Lemma octet_passes v rest :
  octet v → ((length (octet_text v) =? 0)%nat || ((1 <? length (octet_text v))%nat && (char_at (octet_text v ++ rest) 0 =? 48)) || (255 <? v))%bool = false.
Proof.
  intros Hv. pose proof (octet_text_length v). rewrite (proj2 (Nat.eqb_neq _ 0)), (proj2 (Z.ltb_ge 255 v)) by (unfold octet in Hv; lia).
  destruct (octet_text_head v Hv) as [->|H0]; [done|]. cbn [orb]. rewrite orb_false_r. apply andb_false_iff. right. apply Z.eqb_neq.
  unfold char_at in *. rewrite lookup_app_l by lia. done.
Qed.
Lemma char_at_skip l rest : char_at (l ++ rest) (length l) = char_at rest 0.
Proof. unfold char_at. by rewrite lookup_app_r, Nat.sub_diag by lia. Qed.
Lemma pton4_accepts n vs : length vs = S n → Forall octet vs → pton4 n (dotted vs) = (1, vs).
Proof.
  revert vs. induction n as [|n IH]; intros [|v vs] Hl Hv; try done; apply Forall_cons in Hv as [Hv Hvs].
  - destruct vs; [|done]. cbn [pton4 dotted]. rewrite <-(app_nil_r (octet_text v)) at 1. rewrite (octet_digits v [] Hv eq_refl).
    rewrite <-(app_nil_r (octet_text v)) at 3. rewrite octet_passes by done.
    rewrite <-(app_nil_r (octet_text v)) at 1. by rewrite char_at_skip.
  - rewrite dotted_cons by (by destruct vs). cbn [pton4]. rewrite octet_digits, octet_passes by done. rewrite char_at_skip.
    cbn [char_at lookup list_lookup default]. rewrite <-Nat.add_1_r, <-drop_drop, drop_app_length. cbn [drop negb Z.eqb Pos.eqb id]. rewrite drop_0, IH; [done|cbn in Hl; lia|done].
Qed.
Lemma pton4_only n s vs :
  Forall (λ c, 0 < c < 256) s → pton4 n s = (1, vs) → length vs = S n ∧ Forall octet vs ∧ s = dotted vs.
Proof.
  revert s vs. induction n as [|n IH]; intros s vs Hs E; cbn [pton4] in E; destruct (v4_digits 3 s 0 0) as [v j] eqn:Ed;
    destruct (_ || _)%bool eqn:Hc in E; try done; apply orb_false_iff in Hc as [[Hj H0]%orb_false_iff Hv%Z.ltb_ge];
    apply Nat.eqb_neq in Hj; (assert (j = 1%nat ∨ char_at s 0 ≠ 48) as H0' by
      (apply andb_false_iff in H0 as [H0%Nat.ltb_ge|H0%Z.eqb_neq]; [left; lia|by right]));
    destruct (digits_octet s v j Hs Ed Hj H0' Hv) as (Ho & -> & Es).
  - destruct (char_at s _ =? 0) eqn:Ez; [|done]. injection E as <-. split; [done|]. split; [by apply Forall_singleton|].
    rewrite Es, char_at_skip in Ez. cbn [dotted]. rewrite Es at 1. pose proof (Forall_drop _ (length (octet_text v)) s Hs) as Hr.
    destruct (drop _ s) as [|c r]; [apply app_nil_r|]. apply Forall_cons in Hr as [? _]. apply Z.eqb_eq in Ez. cbn in Ez. unfold id in *. lia.
  - destruct (char_at s _ =? 46) eqn:Ez; cbn [negb] in E; [|done]. rewrite Es, char_at_skip in Ez.
    rewrite <-Nat.add_1_r, <-drop_drop in E. pose proof (Forall_drop _ (length (octet_text v)) s Hs) as Hr.
    destruct (drop _ s) as [|c r]; [done|]. apply Z.eqb_eq in Ez. cbn in Ez. unfold id in Ez. subst c.
    apply Forall_cons in Hr as [_ Hr]. cbn [drop] in E. rewrite drop_0 in E. destruct (pton4 n r) as [x l] eqn:El. injection E as -> <-.
    destruct (IH r l Hr El) as (Hl & Hf & ->). split; [cbn; lia|]. split; [by constructor|]. rewrite dotted_cons by (by destruct l). done.
Qed.
(** C25: [inet_pton] reads as an address of version 4 exactly the texts of four numbers up to 255, without needless zeros, with a dot
    between them, and gives these numbers. *)
Theorem inet_pton_v4_exact garbage s vs :
  Forall (λ c, 0 < c < 256) s →
  inet_pton garbage AF_INET s = (1, vs, None) ↔ length vs = 4%nat ∧ Forall octet vs ∧ s = dotted vs.
Proof.
  intros Hs. unfold inet_pton. cbn [Z.eqb Pos.eqb AF_INET]. split.
  - intros E. apply (f_equal fst) in E. by apply (pton4_only 3 s vs Hs).
  - intros (Hl & Hv & ->). by rewrite (pton4_accepts 3 vs).
Qed.

(** ** Printing and reading an address of version 4 *)

Definition plain : Directive := {| d_flags := []; d_width := []; d_precision := None; d_long := false; d_conv := 100 |}.
Lemma plain_ok : directive_ok plain.
Proof.
  split; [|split; [split|]| |]; cbn; try (by repeat constructor); try lia; try done; set_solver.
Qed.
Definition plain_prints (v : Z) : bool := bool_decide (directive_output plain v = octet_text v) && (directive_value plain v =? v).
Lemma plain_octet v : octet v → directive_output plain v = octet_text v ∧ directive_value plain v = v.
Proof.
  intros Hv. assert (plain_prints v = true) as H
    by (apply (all_from_spec plain_prints 256 0); [vm_compute; reflexivity|unfold octet in Hv; lia]).
  apply andb_true_iff in H as [H1 H2]. split; [by apply bool_decide_eq_true in H1|by apply Z.eqb_eq].
Qed.
Definition v4_pieces : list Piece := [Conv plain; Lit 46; Conv plain; Lit 46; Conv plain; Lit 46; Conv plain].
Lemma v4_output a b c d :
  Forall octet [a; b; c; d] → format_ok v4_pieces [a; b; c; d] ∧ format_output v4_pieces [a; b; c; d] = dotted [a; b; c; d].
Proof.
  rewrite !Forall_cons. intros (Ha & Hb & Hc & Hd & _).
  destruct (plain_octet a Ha) as [E1 V1], (plain_octet b Hb) as [E2 V2], (plain_octet c Hc) as [E3 V3], (plain_octet d Hd) as [E4 V4].
  split.
  - cbn [v4_pieces format_ok]. rewrite V1, V2, V3, V4. unfold octet, is_byte, LONG_MIN in *. split_and!; try apply plain_ok; try lia.
  - cbn [v4_pieces format_output dotted]. rewrite E1, E2, E3, E4. by rewrite app_nil_r.
Qed.
Lemma dotted_length a b c d : (length (dotted [a; b; c; d]) ≤ 15)%nat.
Proof.
  cbn [dotted]. rewrite !length_app. cbn [length]. rewrite !length_app. cbn [length]. rewrite !length_app. cbn [length].
  pose proof (octet_text_length a). pose proof (octet_text_length b). pose proof (octet_text_length c). pose proof (octet_text_length d). lia.
Qed.
Lemma dotted_positive vs : Forall octet vs → Forall (λ c, 0 < c) (dotted vs).
Proof.
  assert (∀ v, octet v → Forall (λ c, 0 < c) (octet_text v)) as Hp.
  { intros v Hv. unfold octet, octet_text in *. repeat case_match; repeat constructor; Z.to_euclidean_division_equations; lia. }
  induction 1 as [|v vs Hv Hvs IH]; [done|]. destruct vs; [by apply Hp|]. rewrite dotted_cons, Forall_app by done.
  split; [by apply Hp|]. by constructor.
Qed.
Lemma until_zero_app l r : Forall (λ c, 0 < c) l → until_zero (l ++ 0 :: r) = l.
Proof. induction 1 as [|c l Hc _ IH]; [done|]. cbn. rewrite (proj2 (Z.eqb_neq c 0)), IH by lia. done. Qed.
Lemma snprintf_v4 a b c d buf n :
  Forall octet [a; b; c; d] → (n ≤ length buf)%nat → Z.of_nat n ≤ INT_MAX →
  snprintf buf (Z.of_nat n) fmt_v4 [a; b; c; d] = Some (Z.of_nat (length (dotted [a; b; c; d])), buffer_after n buf (dotted [a; b; c; d])).
Proof.
  intros Ho Hn Hmax. destruct (v4_output a b c d Ho) as [Hok Eo]. pose proof (dotted_length a b c d) as Hl.
  assert (format_string_loop ∅ 0 (S (length fmt_v4)) fmt_v4 (function_gadget [a; b; c; d]) =
    (Ok tt, after (with_args [] (function_gadget [a; b; c; d])) (dotted [a; b; c; d]))) as Hloop.
  { rewrite <-Eo in *. change fmt_v4 with (format_text v4_pieces). apply loop_format; try done; [|lia].
    split; try done. change (0 + Z.of_nat (length (format_output v4_pieces [a; b; c; d])) ≤ INT_MAX). unfold INT_MAX. lia. }
  destruct (vsnprintf_ok ∅ 0 buf n fmt_v4 [a; b; c; d] _ Hloop) as (_ & g & Hr & _ & Hb); cbn [after with_args function_gadget g_emitted app] in *;
    [unfold INT_MAX; lia|done|done|].
  unfold snprintf. rewrite Hr, Hb. done.
Qed.
(** C26: The address printed by [inet_ntop] into a buffer with room for it, and the final zero, is read back by [inet_pton]; sixteen
    bytes are enough for every address.  Without room the printing fails with [ENOSPC]. *)
Theorem inet_v4_roundtrip garbage vs buf n :
  length vs = 4%nat → Forall octet vs → (n ≤ length buf)%nat → Z.of_nat n ≤ INT_MAX →
  (length (dotted vs) < 16)%nat ∧
  if (length (dotted vs) <? n)%nat
  then ∃ buf', inet_ntop AF_INET vs buf (Z.of_nat n) = (Some buf', None) ∧ until_zero buf' = dotted vs ∧
         inet_pton garbage AF_INET (until_zero buf') = (1, vs, None)
  else inet_ntop AF_INET vs buf (Z.of_nat n) = (None, Some ENOSPC_).
Proof.
  intros Hl Ho Hn Hmax. destruct vs as [|a [|b [|c [|d [|? ?]]]]]; try done. pose proof (dotted_length a b c d) as Hd. split; [lia|].
  pose proof (snprintf_v4 a b c d buf n Ho Hn Hmax) as Hs.
  assert (inet_ntop AF_INET [a; b; c; d] buf (Z.of_nat n) =
    if Z.of_nat (length (dotted [a; b; c; d])) <? Z.of_nat n then (Some (buffer_after n buf (dotted [a; b; c; d])), None) else (None, Some ENOSPC_)) as E.
  { unfold inet_ntop. change (AF_INET =? AF_INET) with true. cbv iota.
    change [char_at [a; b; c; d] 0; char_at [a; b; c; d] 1; char_at [a; b; c; d] 2; char_at [a; b; c; d] 3] with [a; b; c; d].
    rewrite Hs, wrap_small by lia. done. }
  rewrite E. destruct (Nat.ltb_spec (length (dotted [a; b; c; d])) n); [|by rewrite (proj2 (Z.ltb_ge _ _)) by lia].
  rewrite (proj2 (Z.ltb_lt _ _)) by lia. eexists. split; [done|].
  assert (until_zero (buffer_after n buf (dotted [a; b; c; d])) = dotted [a; b; c; d]) as ->.
  { destruct n as [|k]; [lia|]. unfold buffer_after. rewrite take_ge by lia. apply until_zero_app, dotted_positive, Ho. }
  split; [done|]. unfold inet_pton. change (AF_INET =? AF_INET) with true. cbv iota. by rewrite (pton4_accepts 3 [a; b; c; d]).
Qed.

(** ** The text of an address of version 6 *)

Definition is_hex (c : Z) : Prop := 48 ≤ c ≤ 57 ∨ 65 ≤ c ≤ 70 ∨ 97 ≤ c ≤ 102.
Definition digit_value (c : Z) : Z := if c <=? 57 then c - 48 else if c <=? 70 then c - 55 else c - 87.
(** The text of a group, one to four digits, and its value. *)
Definition group_text (g : list Z) : Prop := (1 ≤ length g ≤ 4)%nat ∧ Forall is_hex g.
Definition hex_value (g : list Z) : Z := foldl (λ v c, 16 * v + digit_value c) 0 g.
Fixpoint colons (gs : list (list Z)) : list Z :=
  match gs with [] => [] | [g] => g | g :: gs => g ++ 58 :: colons gs end.

Lemma hexval_digit c : is_hex c → hexval c = digit_value c ∧ 0 ≤ hexval c < 16.
Proof.
  intros Hc. assert (c ∈ seqZ 48 10 ++ seqZ 65 6 ++ seqZ 97 6) as Hin.
  { rewrite !elem_of_app, !elem_of_seqZ. unfold is_hex in Hc. lia. }
  assert (forallb (λ c, (hexval c =? digit_value c) && (0 <=? hexval c) && (hexval c <? 16))%bool
    (seqZ 48 10 ++ seqZ 65 6 ++ seqZ 97 6) = true) as Hb by (by vm_compute).
  rewrite forallb_forall in Hb. specialize (Hb c (proj1 (list_elem_of_In _ _) Hin)).
  rewrite !andb_true_iff, Z.eqb_eq, Z.leb_le, Z.ltb_lt in Hb. lia.
Qed.
Lemma hex_not_colon g rest : group_text g → char_at (g ++ rest) 0 ≠ 58.
Proof. intros [Hl Hg]. destruct g as [|c g]; cbn in Hl; [lia|]. apply Forall_cons in Hg as [Hc _]. unfold is_hex in Hc. cbn. lia. Qed.
Lemma hex_digits_app g2 rest : ∀ k g1 v,
  Forall is_hex g2 → (length g2 ≤ k)%nat → hexval (char_at rest 0) < 0 →
  hex_digits k (g1 ++ g2 ++ rest) v (length g1) = (foldl (λ v c, 16 * v + digit_value c) v g2, (length g1 + length g2)%nat).
Proof.
  induction g2 as [|c g2 IH]; intros k g1 v Hg Hk Hr.
  - cbn [foldl app length]. rewrite Nat.add_0_r. destruct k as [|k]; [done|]. cbn [hex_digits]. rewrite char_at_skip.
    by rewrite (proj2 (Z.leb_gt 0 _)).
  - apply Forall_cons in Hg as [Hc Hg]. destruct k as [|k]; cbn in Hk; [lia|]. cbn [hex_digits]. rewrite char_at_skip.
    change (char_at ((c :: g2) ++ rest) 0) with c. destruct (hexval_digit c Hc) as [Hv Hd].
    rewrite (proj2 (Z.leb_le 0 _)) by lia. replace (g1 ++ (c :: g2) ++ rest) with ((g1 ++ [c]) ++ g2 ++ rest) by (by rewrite <-app_assoc).
    replace (S (length g1)) with (length (g1 ++ [c])) by (rewrite length_app; cbn; lia).
    rewrite IH by (done || lia). rewrite Hv, length_app. cbn. f_equal. lia.
Qed.
Lemma group_digits g rest :
  group_text g → hexval (char_at rest 0) < 0 → hex_digits 4 (g ++ rest) 0 0 = (hex_value g, length g).
Proof. intros [Hl Hg] Hr. apply (hex_digits_app g rest 4 [] 0); (done || lia). Qed.
Lemma hex_value_bound g : ∀ v, Forall is_hex g → 0 ≤ v →
  0 ≤ foldl (λ v c, 16 * v + digit_value c) v g < 16 ^ Z.of_nat (length g) * (v + 1).
Proof.
  induction g as [|c g IH]; intros v Hg Hv; cbn [foldl length]; [lia|]. apply Forall_cons in Hg as [Hc Hg].
  destruct (hexval_digit c Hc) as [Hd ?]. rewrite Hd in *. specialize (IH (16 * v + digit_value c) Hg ltac:(lia)).
  rewrite Nat2Z.inj_succ, Z.pow_succ_r by lia. pose proof (Z.pow_pos_nonneg 16 (Z.of_nat (length g)) ltac:(lia) ltac:(lia)). nia.
Qed.
Lemma group_value_range g : group_text g → 0 ≤ hex_value g < 2 ^ 16.
Proof.
  intros [Hl Hg]. pose proof (hex_value_bound g 0 Hg ltac:(lia)) as H. unfold hex_value.
  assert (16 ^ Z.of_nat (length g) ≤ 16 ^ 4) by (apply Z.pow_le_mono_r; lia). change (16 ^ 4) with (2 ^ 16) in *. lia.
Qed.

(** One turn of the loop at a group. *)
Lemma put_group i (pre : list Z) x g v : length pre = i → (i < 8)%nat → <[Nat.modulo i 8 := v]> (pre ++ x :: g) = (pre ++ [v]) ++ g.
Proof. intros <- Hi. rewrite Nat.mod_small by done. rewrite <-(Nat.add_0_r (length pre)) at 1. rewrite insert_app_r. by rewrite <-app_assoc. Qed.
Lemma colons_cons g gs : gs ≠ [] → colons (g :: gs) = g ++ 58 :: colons gs.
Proof. by destruct gs. Qed.
Lemma loop_group fuel i g rest brk pre x ip :
  group_text g → length pre = i → (i < 7)%nat →
  pton6_loop (S fuel) i (g ++ 58 :: rest) brk (pre ++ x :: ip) = pton6_loop fuel (S i) rest brk ((pre ++ [hex_value g]) ++ ip).
Proof.
  intros Hg Hp Hi. cbn [pton6_loop]. rewrite (proj2 (Z.eqb_neq _ 58)) by by apply hex_not_colon. cbn [andb].
  rewrite group_digits by done. pose proof (proj1 Hg). rewrite (proj2 (Nat.eqb_neq (length g) 0)) by lia.
  rewrite char_at_skip. change (char_at (58 :: rest) 0) with 58. cbn [Z.eqb Pos.eqb andb negb].
  rewrite (proj2 (Nat.eqb_neq i 7)) by lia. rewrite put_group by (done || lia).
  rewrite <-(Nat.add_1_r (length g)), <-drop_drop, drop_app_length. cbn [drop]. rewrite drop_0.
  by rewrite wrap_small by (apply group_value_range, Hg).
Qed.
Lemma loop_last fuel i g brk pre x ip :
  group_text g → length pre = i → (i < 8)%nat → is_Some brk ∨ i = 7%nat →
  pton6_loop (S fuel) i g brk (pre ++ x :: ip) = Some (i, brk, (pre ++ [hex_value g]) ++ ip, false, g).
Proof.
  intros Hg Hp Hi Hb. cbn [pton6_loop]. pose proof (hex_not_colon g [] Hg) as Hc. pose proof (group_digits g [] Hg eq_refl) as Hd.
  pose proof (char_at_skip g []) as He. rewrite app_nil_r in Hc, Hd, He.
  rewrite (proj2 (Z.eqb_neq _ 58) Hc). cbn [andb]. rewrite Hd. pose proof (proj1 Hg).
  rewrite (proj2 (Nat.eqb_neq (length g) 0)) by lia. rewrite He. change (char_at [] 0 =? 0) with true. cbn [andb].
  assert ((bool_decide (is_Some brk) || (i =? 7)%nat)%bool = true) as ->.
  { apply orb_true_iff. rewrite bool_decide_eq_true, Nat.eqb_eq. done. }
  rewrite put_group by done. by rewrite wrap_small by (apply group_value_range, Hg).
Qed.
(** Groups up to the end of the text, and groups in front of [::]. *)
Lemma loop_groups brk : ∀ gs fuel i pre ip,
  Forall group_text gs → gs ≠ [] → length pre = i → length ip = (8 - i)%nat → (i + length gs ≤ 8)%nat → (length gs ≤ fuel)%nat →
  is_Some brk ∨ (i + length gs = 8)%nat →
  ∃ s, pton6_loop fuel i (colons gs) brk (pre ++ ip) =
    Some ((i + length gs - 1)%nat, brk, pre ++ (hex_value <$> gs) ++ drop (length gs) ip, false, s).
Proof.
  induction gs as [|g gs IH]; intros fuel i pre ip Hg Hne Hp Hip Hl Hf Hb; [done|]. apply Forall_cons in Hg as [Hg Hgs].
  destruct fuel as [|fuel]; cbn [length] in *; [lia|]. destruct ip as [|x ip]; cbn [length] in Hip; [lia|].
  destruct gs as [|g2 gs].
  - cbn [colons]. rewrite loop_last by (done || lia || (destruct Hb as [|Hb]; [by left|right; cbn [length] in *; lia])).
    eexists. cbn [fmap list_fmap length app drop]. rewrite drop_0, <-app_assoc. by replace (i + 1 - 1)%nat with i by lia.
  - rewrite colons_cons by done. cbn [length] in *. rewrite loop_group by (done || lia).
    destruct (IH fuel (S i) (pre ++ [hex_value g]) ip) as [s Hs]; try done; try (rewrite ?length_app; cbn [length]; lia).
    { destruct Hb as [|Hb]; [by left|right; cbn [length] in *; lia]. }
    rewrite Hs. eexists. rewrite <-app_assoc. cbn [length fmap list_fmap app drop].
    by replace (i + S (S (length gs)) - 1)%nat with (S i + S (length gs) - 1)%nat by lia.
Qed.
Lemma loop_heads rest : ∀ gs fuel i pre ip,
  Forall group_text gs → length pre = i → length ip = (8 - i)%nat → (i + length gs ≤ 7)%nat →
  pton6_loop (length gs + fuel) i ((gs ≫= λ g, g ++ [58]) ++ rest) None (pre ++ ip) =
    pton6_loop fuel (i + length gs) rest None (pre ++ (hex_value <$> gs) ++ drop (length gs) ip).
Proof.
  induction gs as [|g gs IH]; intros fuel i pre ip Hg Hp Hip Hl.
  { cbn. by rewrite drop_0, Nat.add_0_r. }
  apply Forall_cons in Hg as [Hg Hgs]. cbn [length Nat.add] in *. destruct ip as [|x ip]; cbn [length] in Hip; [lia|].
  cbn [mbind list_bind]. rewrite <-!app_assoc. cbn [app]. rewrite loop_group by (done || lia).
  rewrite IH; [|done|rewrite length_app; cbn; lia|lia..]. rewrite <-app_assoc. cbn. f_equal. lia.
Qed.
(** The groups behind [::] after they were cleared: of [q] groups behind it and [p] in front, the [j]-th becomes zero if p + q + j is at most 6. *)
Definition cleared (n : nat) (ts : list (list Z)) : list Z := imap (λ j t, if (n + S j <=? 6)%nat then 0 else hex_value t) ts.
Lemma cleared_split n ts :
  cleared n ts = replicate (Nat.min (6 - n) (length ts)) 0 ++ (hex_value <$> drop (6 - n) ts).
Proof.
  unfold cleared. revert n. induction ts as [|t ts IH]; intros n; [by destruct (6 - n)%nat|]. cbn [imap length].
  replace (imap _ ts) with (cleared (S n) ts). 2: { apply imap_ext. intros j x _. unfold compose. by rewrite (Nat.add_succ_r n (S j)). }
  unfold cleared. rewrite IH. destruct (Nat.leb_spec (n + 1) 6).
  - replace (6 - n)%nat with (S (6 - S n)) by lia. cbn. done.
  - replace (6 - n)%nat with 0%nat by lia. replace (6 - S n)%nat with 0%nat by lia. cbn. by rewrite drop_0.
Qed.

Lemma spread_groups hs ts rest :
  (length hs + length ts ≤ 7)%nat → length rest = (7 - (length hs + length ts))%nat →
  spread (length hs + length ts) (Some (length hs)) ((hex_value <$> hs) ++ 0 :: (hex_value <$> ts) ++ rest) =
  (hex_value <$> hs) ++ replicate (8 - (length hs + length ts)) 0 ++ cleared (length hs + length ts) ts.
Proof.
  intros Hn Hr. set (n := (length hs + length ts)%nat) in *. set (hv := hex_value <$> hs). set (tv := hex_value <$> ts).
  assert (length hv = length hs) as Lh by apply length_fmap. assert (length tv = length ts) as Lt by apply length_fmap.
  set (zs := replicate (7 - n) 0). set (mid := drop (7 - n) (0 :: tv ++ rest)).
  assert (length zs = (7 - n)%nat) as Lz by apply length_replicate.
  assert (length mid = (length ts + 1)%nat) as Lm. { subst mid. rewrite length_drop. cbn. rewrite length_app. lia. }
  assert (take (n + 1 - length hs) (zs ++ mid) = 0 :: cleared n ts) as Hm.
  { rewrite cleared_split. subst zs mid. replace (n + 1 - length hs)%nat with (S (length ts)) by lia.
    destruct (7 - n)%nat as [|m] eqn:Em.
    - replace (6 - n)%nat with 0%nat by lia. cbn. rewrite !drop_0. by rewrite <-Lt, take_app_length.
    - replace (6 - n)%nat with m by lia. cbn. rewrite take_app, take_replicate, length_replicate. f_equal. f_equal; [f_equal; lia|].
      rewrite fmap_drop. fold tv. rewrite drop_app, take_app, length_drop, Lt.
      replace (take (length ts - m) (drop m tv)) with (drop m tv) by (symmetry; apply take_ge; rewrite length_drop; lia).
      rewrite Nat.sub_diag. cbn. by rewrite app_nil_r. }
  unfold spread. rewrite <-Lh, take_app_length. rewrite <-drop_drop, drop_app_length. fold mid zs.
  rewrite drop_app_length, Lh, Hm. rewrite <-Lh at 1. rewrite take_app_add. rewrite <-Lz at 1. rewrite take_app_length.
  rewrite drop_ge. 2: { apply (f_equal length) in Hm. rewrite length_take, length_app, Lz, Lm in Hm. rewrite !length_app, <-Hm. lia. }
  rewrite app_nil_r, <-app_assoc. f_equal. subst zs. replace (8 - n)%nat with (S (7 - n)) by lia. rewrite replicate_S_end, <-app_assoc. done.
Qed.
Lemma loop_break ts fuel i pre ip :
  Forall group_text ts → length pre = i → length ip = (8 - i)%nat → (i + length ts ≤ 7)%nat → (length ts ≤ fuel)%nat →
  ∃ s, pton6_loop (S fuel) i (58 :: colons ts) None (pre ++ ip) =
    Some ((i + length ts)%nat, Some i, pre ++ 0 :: (hex_value <$> ts) ++ drop (S (length ts)) ip, false, s).
Proof.
  intros Hg Hp Hip Hl Hf. destruct ip as [|x ip]; cbn [length] in Hip; [lia|]. cbn [pton6_loop].
  change (char_at (58 :: colons ts) 0) with 58. change (bool_decide (None = None)) with true. cbn [Z.eqb Pos.eqb andb drop].
  rewrite drop_0, put_group by (done || lia). destruct ts as [|t ts].
  - cbn. eexists. by rewrite drop_0, <-app_assoc, Nat.add_0_r.
  - assert (char_at (colons (t :: ts)) 0 ≠ 0) as H0.
    { apply Forall_cons in Hg as [[Hgl Hg] _]. destruct t as [|c t]; cbn in Hgl; [lia|]. apply Forall_cons in Hg as [Hc _].
      unfold is_hex in Hc. destruct ts; cbn; lia. }
    rewrite (proj2 (Z.eqb_neq _ 0) H0), (proj2 (Nat.eqb_neq i 7)) by (cbn in Hl; lia).
    destruct (loop_groups (Some i) (t :: ts) fuel (S i) (pre ++ [0]) ip) as [s ->]; try done; try (rewrite ?length_app; cbn [length] in *; lia).
    { by left. }
    eexists. rewrite <-app_assoc. cbn [app length]. by replace (S i + S (length ts) - 1)%nat with (i + S (length ts))%nat by lia.
Qed.
Lemma colons_bind hs : hs ≠ [] → colons hs ++ [58] = hs ≫= λ g, g ++ [58].
Proof.
  induction hs as [|g hs IH]; [done|intros _]. destruct hs as [|h hs]; [cbn; by rewrite app_nil_r|].
  rewrite colons_cons by done. cbn [mbind list_bind]. rewrite <-!app_assoc. cbn [app]. do 2 f_equal. rewrite IH by done. cbn. by rewrite <-app_assoc.
Qed.
Lemma colons_head g gs rest : group_text g → char_at (colons (g :: gs) ++ rest) 0 ≠ 58.
Proof. intros Hg. destruct gs; cbn [colons]; rewrite <-?app_assoc; by apply hex_not_colon. Qed.

Lemma group_bytes_inj l k :
  Forall (λ g, 0 ≤ g < 2 ^ 16) l → Forall (λ g, 0 ≤ g < 2 ^ 16) k → group_bytes l = group_bytes k → l = k.
Proof.
  intros Hl. revert k. induction Hl as [|g l Hg _ IH]; intros [|h k] Hk E; try done. apply Forall_cons in Hk as [Hh Hk].
  cbn in E. injection E as E1 E2 E. f_equal; [|by apply IH]. unfold wrap in *. rewrite !Z.shiftr_div_pow2 in E1 by lia.
  change (2 ^ 8) with 256 in *. change (2 ^ 16) with 65536 in *. Z.to_euclidean_division_equations. lia.
Qed.

Lemma pton_short garbage hs ts :
  let n := (length hs + length ts)%nat in
  length garbage = 8%nat → Forall group_text hs → Forall group_text ts → (n ≤ 7)%nat →
  inet_pton garbage AF_INET6 (colons hs ++ [58; 58] ++ colons ts) =
    (1, group_bytes ((hex_value <$> hs) ++ replicate (8 - n) 0 ++ cleared n ts), None).
Proof.
  intros n Hgb Hh Ht Hn. unfold n. rewrite <-(spread_groups hs ts (drop (S n) garbage)) by (rewrite ?length_drop; lia). fold n.
  assert (∃ s, pton6_loop 9 0 ((hs ≫= λ g, g ++ [58]) ++ 58 :: colons ts) None garbage =
    Some (n, Some (length hs), (hex_value <$> hs) ++ 0 :: (hex_value <$> ts) ++ drop (S n) garbage, false, s)) as [s Hs].
  { replace 9%nat with (length hs + S (8 - length hs))%nat by lia.
    pose proof (loop_heads (58 :: colons ts) hs (S (8 - length hs)) 0 [] garbage Hh eq_refl Hgb ltac:(lia)) as Hl.
    cbn [app Nat.add] in Hl. rewrite Hl.
    destruct (loop_break ts (8 - length hs) (length hs) (hex_value <$> hs) (drop (length hs) garbage) Ht) as [s Hs];
      [by rewrite length_fmap|by rewrite length_drop, Hgb|lia..|].
    exists s. rewrite Hs, drop_drop. by rewrite Nat.add_succ_r. }
  unfold inet_pton. cbn [Z.eqb Pos.eqb AF_INET AF_INET6 negb].
  destruct hs as [|h hs].
  - cbn [colons app mbind list_bind] in *. change (char_at (58 :: 58 :: colons ts) 0) with 58. change (char_at (58 :: 58 :: colons ts) 1) with 58.
    cbn [Z.eqb Pos.eqb negb andb drop]. by rewrite Hs.
  - rewrite !(proj2 (Z.eqb_neq _ 58) (colons_head h hs _ (Forall_inv Hh))). cbn [andb].
    change ([58; 58] ++ colons ts) with ([58] ++ 58 :: colons ts). rewrite app_assoc, colons_bind by done. by rewrite Hs.
Qed.
Lemma address_range hs n tv :
  Forall group_text hs → Forall (λ g, 0 ≤ g < 2 ^ 16) tv → Forall (λ g, 0 ≤ g < 2 ^ 16) ((hex_value <$> hs) ++ replicate n 0 ++ tv).
Proof.
  intros Hh Ht. rewrite !Forall_app. split_and!; [|by apply Forall_replicate|done]. apply Forall_fmap. eapply Forall_impl; [done|].
  exact group_value_range.
Qed.
Lemma group_values_range ts n :
  Forall group_text ts → Forall (λ g, 0 ≤ g < 2 ^ 16) (hex_value <$> ts) ∧ Forall (λ g, 0 ≤ g < 2 ^ 16) (cleared n ts).
Proof.
  intros Ht. assert (Forall (λ g, 0 ≤ g < 2 ^ 16) (hex_value <$> ts)) as H.
  { apply Forall_fmap. eapply Forall_impl; [done|]. exact group_value_range. }
  split; [done|]. rewrite cleared_split. apply Forall_app. split; [by apply Forall_replicate|]. rewrite fmap_drop. by apply Forall_drop.
Qed.

(** C40: Reading an address of version 6, written as groups of one to four digits.  Eight groups are read exactly.  With [::], [hs] in front
    and [ts] behind, the address is the groups in front, zeros, and the groups behind; but of those the [j]-th (from 1) is cleared
    when it and the [n] groups are at most six, n + j <= 6.  So the result is the address of the text exactly when the groups behind
    [::] that this concerns are zero; with six or seven groups it always is. *)
Theorem inet_pton_v6_groups garbage hs ts :
  let n := (length hs + length ts)%nat in
  let text := colons hs ++ [58; 58] ++ colons ts in
  let address tv := (1, group_bytes ((hex_value <$> hs) ++ replicate (8 - n) 0 ++ tv), None) in
  length garbage = 8%nat → Forall group_text hs → Forall group_text ts →
  (length hs = 8%nat → inet_pton garbage AF_INET6 (colons hs) = (1, group_bytes (hex_value <$> hs), None)) ∧
  ((n ≤ 7)%nat →
    inet_pton garbage AF_INET6 text = address (imap (λ j t, if (n + S j <=? 6)%nat then 0 else hex_value t) ts) ∧
    (inet_pton garbage AF_INET6 text = address (hex_value <$> ts) ↔ ∀ j t, ts !! j = Some t → (n + S j ≤ 6)%nat → hex_value t = 0)).
Proof.
  intros n text address Hgb Hh Ht. split.
  - intros H8. destruct hs as [|h hs]; [done|]. pose proof (colons_head h hs [] (Forall_inv Hh)) as H0. rewrite app_nil_r in H0.
    unfold inet_pton. cbn [Z.eqb Pos.eqb AF_INET AF_INET6 negb]. rewrite !(proj2 (Z.eqb_neq _ 58) H0). cbn [andb].
    destruct (loop_groups None (h :: hs) 9 0 [] garbage) as [s Hs]; try done; try lia; try by right.
    cbn [app] in Hs. rewrite Hs. cbn [spread]. rewrite drop_ge, app_nil_r by lia. done.
  - intros Hn. assert (inet_pton garbage AF_INET6 text = address (cleared n ts)) as E; [by apply pton_short|].
    split; [exact E|]. rewrite E. unfold address. split.
    + intros [= Eb] j t Hj Hl. apply group_bytes_inj in Eb; [|apply address_range; [done|by apply group_values_range]..].
      apply app_inv_head, app_inv_head in Eb. apply (f_equal (.!! j)) in Eb. unfold cleared in Eb.
      rewrite list_lookup_imap, list_lookup_fmap, Hj in Eb. cbn in Eb. rewrite (proj2 (Nat.leb_le _ _) Hl) in Eb. congruence.
    + intros Hz. assert (cleared n ts = hex_value <$> ts) as ->; [|done]. apply list_eq. intros j. unfold cleared. rewrite list_lookup_imap, list_lookup_fmap.
      destruct (ts !! j) as [t|] eqn:Hj; [|done]. cbn. destruct (Nat.leb_spec (n + S j) 6); [|done]. f_equal. symmetry. by eapply Hz.
Qed.

(** ** Examples *)

Lemma byte_order_roundtrip_witness : ntohl true (htonl true 0x0a000215) = 0x0a000215 ∧ htonl true 0x0a000215 = 0x1502000a.
Proof. split; [|by vm_compute]. by apply (byte_order_roundtrip true 0x0a000215). Defined.
Lemma inet_pton_v4_exact_witness : inet_pton (replicate 8 0) AF_INET [49; 48; 46; 48; 46; 50; 46; 49; 53] = (1, [10; 0; 2; 15], None).
Proof.
  apply (inet_pton_v4_exact (replicate 8 0) _ [10; 0; 2; 15]); [repeat constructor; lia|].
  split; [done|]. split; [unfold octet; repeat constructor; lia|by vm_compute].
Defined.
Lemma inet_v4_roundtrip_witness :
  ∃ buf', inet_ntop AF_INET [255; 255; 255; 255] (replicate 16 9) 16 = (Some buf', None) ∧ until_zero buf' = dotted [255; 255; 255; 255] ∧
    inet_pton (replicate 8 0) AF_INET (until_zero buf') = (1, [255; 255; 255; 255], None).
Proof.
  apply (inet_v4_roundtrip (replicate 8 0) [255; 255; 255; 255] (replicate 16 9) 16); [done| |done|by vm_compute].
  unfold octet; repeat constructor; lia.
Defined.
Lemma inet_pton_v6_groups_witness :
  inet_pton (replicate 8 7) AF_INET6 [58; 58; 49] = (1, replicate 16 0, None) ∧
  inet_pton (replicate 8 7) AF_INET6 [58; 58; 49] ≠ (1, replicate 15 0 ++ [1], None).
Proof.
  assert (Forall group_text [[49]]) as Hg. { repeat constructor; cbn; unfold is_hex; lia. }
  destruct (inet_pton_v6_groups (replicate 8 7) [] [[49]] eq_refl (Forall_nil_2 _) Hg) as [_ H].
  destruct (H ltac:(cbn; lia)) as [E1 E2]. split; [exact E1|]. intros E.
  pose proof (proj1 E2 E 0%nat [49] eq_refl ltac:(cbn; lia)) as Hv. discriminate Hv.
Defined.
