(* ===== verification/PosixNet.v ===== *)
(** * Sockets by descriptor ([api/arceos_posix_api/src/imp/net.rs])

    The system calls on sockets, over the table of descriptors and the network stack.  The table holds references to
    sockets, which several descriptors share, and to other files.  The machine is little-endian, as all the supported
    ones are.  A call that waits takes the number of turns of its loop as fuel. *)

From Stdlib Require Import ZArith Lia.
From stdpp Require Import base decidable numbers gmap list.
From S2P Require Import Prelude LinkedList Vfs AxIo NetStack NetProps TcpSocket TcpProps SmolModel UdpSocket FlattenObjects PosixTime Epoll Errno PosixFs Inet.

Local Open Scope Z_scope.

(** ** Addresses *)

Definition EISCONN : Z := 106.
Definition EOPNOTSUPP : Z := 95.
Definition SOCK_STREAM : Z := 1.
Definition SOCK_DGRAM : Z := 2.
Definition IPPROTO_TCP : Z := 6.
Definition IPPROTO_UDP : Z := 17.
(** [size_of::<ctypes::sockaddr>()]. *)
Definition SOCKADDR_SIZE : Z := 16.

Record sockaddr_in : Set := { sin_family : Z; sin_port : Z; s_addr : Z; sin_zero : list Z }.
Definition from_ne_bytes (o : Octets) : Z := let '(a, b, c, d) := o in a + 256 * (b + 256 * (c + 256 * d)).
Definition to_ne_bytes (x : Z) : Octets :=
  (x mod 256, x / 256 mod 256, x / 65536 mod 256, x / 16777216 mod 256).
(** [From<SocketAddrV4> for sockaddr_in], and back. *)
Definition sockaddr_in_from (ip : Octets) (port : Z) : sockaddr_in :=
  {| sin_family := AF_INET; sin_port := bswap_16 port; s_addr := from_ne_bytes ip; sin_zero := replicate 8 0 |}.
Definition SocketAddrV4_from (a : sockaddr_in) : SocketAddr :=
  {| sa_ip := IpV4 (to_ne_bytes (s_addr a)); sa_port := bswap_16 (sin_port a) |}.
Definition into_sockaddr {S E} (addr : SocketAddr) : M S E (sockaddr_in * Z) :=
  match sa_ip addr with IpV4 o => mret (sockaddr_in_from o (sa_port addr), SOCKADDR_SIZE) | IpV6 _ => panic end.
(** A null pointer is [None]. *)
Definition from_sockaddr {S} (addr : option sockaddr_in) (addrlen : Z) : M S Z SocketAddr :=
  match addr with
  | None => throw EFAULT
  | Some mid =>
      if negb (addrlen =? SOCKADDR_SIZE) then throw EINVAL
      else if negb (sin_family mid =? AF_INET) then throw EINVAL
      else mret (SocketAddrV4_from mid)
  end.

(** ** The list of [sys_getaddrinfo] *)

Definition MAXADDRS : nat := 48.
(** A buffer of the vector; pointers to buffers, and to their addresses, are indices. *)
Record aibuf : Set := {
  ai_family : Z; ai_socktype : Z; ai_protocol : Z; ai_addrlen : Z; ai_addr : option nat; ai_next : option nat;
  ab_sin : sockaddr_in; ab_slot : Z; ab_ref : Z }.
Definition set_ai_addr (p : option nat) (b : aibuf) : aibuf :=
  {| ai_family := ai_family b; ai_socktype := ai_socktype b; ai_protocol := ai_protocol b; ai_addrlen := ai_addrlen b;
     ai_addr := p; ai_next := ai_next b; ab_sin := ab_sin b; ab_slot := ab_slot b; ab_ref := ab_ref b |}.
Definition set_ai_next (p : option nat) (b : aibuf) : aibuf :=
  {| ai_family := ai_family b; ai_socktype := ai_socktype b; ai_protocol := ai_protocol b; ai_addrlen := ai_addrlen b;
     ai_addr := ai_addr b; ai_next := p; ab_sin := ab_sin b; ab_slot := ab_slot b; ab_ref := ab_ref b |}.
Definition set_ab_ref (k : Z) (b : aibuf) : aibuf :=
  {| ai_family := ai_family b; ai_socktype := ai_socktype b; ai_protocol := ai_protocol b; ai_addrlen := ai_addrlen b;
     ai_addr := ai_addr b; ai_next := ai_next b; ab_sin := ab_sin b; ab_slot := ab_slot b; ab_ref := k |}.
Definition aibuf_new (o : Octets) (port : Z) (i : nat) : aibuf :=
  {| ai_family := AF_INET; ai_socktype := SOCK_STREAM; ai_protocol := IPPROTO_TCP; ai_addrlen := 16; ai_addr := None;
     ai_next := None; ab_sin := sockaddr_in_from o port; ab_slot := Z.of_nat i; ab_ref := 0 |}.
(** The loop, from index [i] on, with the vector so far. *)
Fixpoint fill_addrs (ips : list IpAddr) (port : Z) (i : nat) (out : list aibuf) : option (list aibuf) :=
  match ips with
  | [] => Some out
  | IpV6 _ :: _ => None
  | IpV4 o :: ips =>
      let out := out ++ [aibuf_new o port i] in
      let out := alter (set_ai_addr (Some i)) i out in
      let out := if (0 <? i)%nat then alter (set_ai_next (Some i)) (i - 1)%nat out else out in
      fill_addrs ips port (S i) out
  end.
(** From the addresses found on: the result and the list, if one is stored; an address of version 6 is a panic. *)
Definition addrinfo_list {S} (ip_addrs : list IpAddr) (port : Z) : M S Z (Z * list aibuf) :=
  let n := Nat.min (length ip_addrs) MAXADDRS in
  if (n =? 0)%nat then mret (0, [])
  else
    match fill_addrs (take n ip_addrs) port 0 [] with
    | None => panic
    | Some out => mret (Z.of_nat n, alter (set_ab_ref (Z.of_nat n)) 0%nat out)
    end.
(** The number of buffers that are freed. *)
Definition sys_freeaddrinfo {S} (res : option aibuf) : M S NoError Z :=
  match res with
  | None => mret 0
  | Some b =>
      _ ← assert_ (ab_slot b =? 0); _ ← assert_ (0 <? wrap 64 (ab_ref b)); mret (wrap 64 (ab_ref b))
  end.

Section net.
Context `{SK : SmolSockets} `{N : !SmolNet} {B : Type} `{Bitmap B}.

(** ** Sockets *)

Inductive PosixSocket : Type := Udp (u : UdpSocket) | Tcp (t : TcpSocket).
(** What the table refers to. *)
Inductive NFile : Set := NSocket (id : nat) | NOther.
Record OpenSocket : Type := { os_inner : PosixSocket; os_strong : Z }.
Local Abbreviation FdTable := (FlattenObjects NFile B).
Record NState : Type := { n_table : FdTable; n_socks : gmap nat OpenSocket; n_net : Net }.
Local Abbreviation NM := (M NState Z).
Local Abbreviation UM := (M (Net * UdpSocket) Z).
Local Abbreviation TM := (M (Net * TcpSocket) Z).

Definition on_n_table {A} (m : M FdTable Z A) : NM A := λ s,
  let '(r, t) := m (n_table s) in (r, {| n_table := t; n_socks := n_socks s; n_net := n_net s |}).
Definition on_n_net {A} (m : M Net Z A) : NM A := λ s,
  let '(r, n) := m (n_net s) in (r, {| n_table := n_table s; n_socks := n_socks s; n_net := n |}).
Definition set_socks (m : gmap nat OpenSocket) : NM unit := modify (λ s,
  {| n_table := n_table s; n_socks := m; n_net := n_net s |}).
Definition put_sock (s : NState) (id : nat) (k : Z) (n : Net) (x : PosixSocket) : NState :=
  {| n_table := n_table s; n_socks := <[id := {| os_inner := x; os_strong := k |}]> (n_socks s); n_net := n |}.
(** A method of the socket behind its lock, by the kind of the socket. *)
Definition on_sock {A} (id : nat) (fu : UM A) (ft : TM A) : NM A := λ s,
  match n_socks s !! id with
  | None => (Panic, s)
  | Some o =>
      match os_inner o with
      | Udp u => let '(r, (n, u)) := fu (n_net s, u) in (r, put_sock s id (os_strong o) n (Udp u))
      | Tcp t => let '(r, (n, t)) := ft (n_net s, t) in (r, put_sock s id (os_strong o) n (Tcp t))
      end
  end.

(** The drop of a socket that is not shared. *)
Definition sock_drop (x : PosixSocket) : M Net Z unit := λ n,
  match x with
  | Udp u => let '(r, (n, _)) := to_linux udp_socket_drop (n, u) in (r, n)
  | Tcp t => let '(r, (n, _)) := to_linux tcp_socket_drop (n, t) in (r, n)
  end.
Definition narc_clone (f : NFile) : NM unit :=
  match f with
  | NSocket id =>
      s ← get_state; o ← unwrap (n_socks s !! id);
      set_socks (<[id := {| os_inner := os_inner o; os_strong := os_strong o + 1 |}]> (n_socks s))
  | NOther => mret tt
  end.
Definition narc_drop (f : NFile) : NM unit :=
  match f with
  | NSocket id =>
      s ← get_state; o ← unwrap (n_socks s !! id);
      if os_strong o =? 1 then _ ← set_socks (delete id (n_socks s)); on_n_net (sock_drop (os_inner o))
      else set_socks (<[id := {| os_inner := os_inner o; os_strong := os_strong o - 1 |}]> (n_socks s))
  | NOther => mret tt
  end.
Definition narc_new (x : PosixSocket) : NM NFile :=
  s ← get_state;
  let id := fresh (dom (n_socks s)) in
  _ ← set_socks (<[id := {| os_inner := x; os_strong := 1 |}]> (n_socks s)); mret (NSocket id).
(** A reference that does not get into the table is dropped. *)
Definition nadd_or_drop (f : NFile) : NM Z := λ s,
  match on_n_table (add_file_like f) s with
  | (Err e, s') => (_ ← narc_drop f; throw e) s'
  | x => x
  end.
Definition Socket_add_to_fd_table (x : PosixSocket) : NM Z := f ← narc_new x; nadd_or_drop f.
Definition Socket_from_fd (fd : Z) : NM nat :=
  f ← on_n_table (get_file_like fd); match f with NSocket id => mret id | NOther => throw EINVAL end.

(** *** [impl Socket] *)

Definition Socket_send (fuel id : nat) (buf : list Z) : NM Z :=
  on_sock id (to_linux (udp_socket_send fuel buf)) (to_linux (tcp_socket_send fuel buf)).
(** The datagram, whoever sent it. *)
Definition Socket_recv (fuel id : nat) (len : Z) : NM (list Z) :=
  on_sock id (r ← to_linux (udp_recv_from fuel len); mret r.1) (to_linux (tcp_socket_recv fuel len)).
Definition Socket_poll (id : nat) : NM PollState := on_sock id (to_linux udp_socket_poll) (to_linux tcp_socket_poll).
Definition Socket_local_addr (id : nat) : NM SocketAddr := on_sock id (to_linux udp_local_addr) (to_linux local_addr).
Definition Socket_peer_addr (id : nat) : NM SocketAddr := on_sock id (to_linux udp_peer_addr) (to_linux peer_addr).
Definition Socket_bind (id : nat) (addr : SocketAddr) : NM unit :=
  on_sock id (to_linux (udp_socket_bind addr)) (to_linux (tcp_socket_bind addr)).
Definition Socket_connect (fuel id : nat) (addr : SocketAddr) : NM unit :=
  on_sock id (to_linux (udp_socket_connect addr)) (to_linux (tcp_socket_connect fuel addr)).
Definition Socket_sendto (fuel id : nat) (buf : list Z) (addr : SocketAddr) : NM Z :=
  on_sock id (to_linux (udp_send_to fuel buf addr)) (throw EISCONN).
Definition Socket_recvfrom (fuel id : nat) (len : Z) : NM (list Z * option SocketAddr) :=
  on_sock id (r ← to_linux (udp_recv_from fuel len); mret (r.1, Some r.2))
    (r ← to_linux (tcp_socket_recv fuel len); mret (r, None)).
Definition Socket_listen (id : nat) : NM unit := on_sock id (throw EOPNOTSUPP) (to_linux tcp_socket_listen).
Definition Socket_accept (fuel id : nat) : NM TcpSocket := on_sock id (throw EOPNOTSUPP) (to_linux (tcp_socket_accept fuel)).
Definition Socket_shutdown (id : nat) : NM unit :=
  on_sock id (_ ← to_linux udp_peer_addr; to_linux udp_socket_shutdown) (_ ← to_linux peer_addr; to_linux tcp_socket_shutdown).
Definition Socket_stat : stat :=
  {| st_ino := 1; st_nlink := 1; st_mode := Z.lor 0xc000 0x1ff; st_uid := 1000; st_gid := 1000; st_size := 0; st_blksize := 4096; st_blocks := 0 |}.
Definition Socket_set_nonblocking (id : nat) (b : bool) : NM unit :=
  on_sock id (to_linux (udp_set_nonblocking b)) (to_linux (set_nonblocking b)).

(** ** System calls *)

Definition sys_socket (domain socktype protocol : Z) : M NState NoError (Z * unit) :=
  let domain := wrap 32 domain in
  let socktype := wrap 32 socktype in
  let protocol := wrap 32 protocol in
  syscall tt
    (if ((domain =? AF_INET) && (socktype =? SOCK_STREAM) && ((protocol =? IPPROTO_TCP) || (protocol =? 0)))%bool then
       fd ← Socket_add_to_fd_table (Tcp TcpSocket_new); mret (fd, tt)
     else if ((domain =? AF_INET) && (socktype =? SOCK_DGRAM) && ((protocol =? IPPROTO_UDP) || (protocol =? 0)))%bool then
       u ← on_n_net (to_linux UdpSocket_new); fd ← Socket_add_to_fd_table (Udp u); mret (fd, tt)
     else throw EINVAL).
Definition sys_bind (fd : Z) (addr : option sockaddr_in) (addrlen : Z) : M NState NoError (Z * unit) :=
  syscall tt (addr ← from_sockaddr addr addrlen; id ← Socket_from_fd fd; _ ← Socket_bind id addr; mret (0, tt)).
Definition sys_connect (fuel : nat) (fd : Z) (addr : option sockaddr_in) (addrlen : Z) : M NState NoError (Z * unit) :=
  syscall tt (addr ← from_sockaddr addr addrlen; id ← Socket_from_fd fd; _ ← Socket_connect fuel id addr; mret (0, tt)).
(** A null buffer is [None]. *)
Definition sys_sendto (fuel : nat) (fd : Z) (buf : option (list Z)) (addr : option sockaddr_in) (addrlen : Z) : M NState NoError (Z * unit) :=
  syscall tt
    (match buf with
     | None => throw EFAULT
     | Some buf => addr ← from_sockaddr addr addrlen; id ← Socket_from_fd fd; n ← Socket_sendto fuel id buf addr; mret (n, tt)
     end).
Definition sys_send (fuel : nat) (fd : Z) (buf : option (list Z)) : M NState NoError (Z * unit) :=
  syscall tt
    (match buf with None => throw EFAULT | Some buf => id ← Socket_from_fd fd; n ← Socket_send fuel id buf; mret (n, tt) end).
(** The bytes received, and what is stored as address and length of the sender. *)
Definition sys_recvfrom (fuel : nat) (fd : Z) (null : bool) (n : Z) : M NState NoError (Z * (list Z * option (sockaddr_in * Z))) :=
  syscall ([], None)
    (if null then throw EFAULT
     else
       id ← Socket_from_fd fd;
       res ← Socket_recvfrom fuel id n;
       match res.2 with
       | Some addr => a ← into_sockaddr addr; mret (len res.1, (res.1, Some a))
       | None => mret (len res.1, (res.1, None))
       end).
Definition sys_recv (fuel : nat) (fd : Z) (null : bool) (n : Z) : M NState NoError (Z * list Z) :=
  syscall [] (if null then throw EFAULT else id ← Socket_from_fd fd; l ← Socket_recv fuel id n; mret (len l, l)).
Definition sys_listen (fd : Z) : M NState NoError (Z * unit) :=
  syscall tt (id ← Socket_from_fd fd; _ ← Socket_listen id; mret (0, tt)).
(** A new socket without address is dropped. *)
Definition accepted_addr (t : TcpSocket) : NM SocketAddr := λ s,
  match to_linux peer_addr (n_net s, t) with
  | (Ok a, _) => (Ok a, s)
  | (Err e, _) => (_ ← on_n_net (sock_drop (Tcp t)); throw e) s
  | (Panic, _) => (Panic, s)
  | (OutOfFuel, _) => (OutOfFuel, s)
  end.
Definition sys_accept (fuel : nat) (fd : Z) (null : bool) : M NState NoError (Z * option (sockaddr_in * Z)) :=
  syscall None
    (if null then throw EFAULT
     else
       id ← Socket_from_fd fd;
       new_socket ← Socket_accept fuel id;
       addr ← accepted_addr new_socket;
       new_fd ← Socket_add_to_fd_table (Tcp new_socket);
       a ← into_sockaddr addr; mret (new_fd, Some a)).
Definition sys_shutdown (fd : Z) : M NState NoError (Z * unit) :=
  syscall tt (id ← Socket_from_fd fd; _ ← Socket_shutdown id; mret (0, tt)).
(** The length that the caller gives, [None] for a null pointer. *)
Definition sock_name (get : nat → NM SocketAddr) (fd : Z) (addrlen : option Z) : M NState NoError (Z * option (sockaddr_in * Z)) :=
  syscall None
    (match addrlen with
     | None => throw EFAULT
     | Some l =>
         if l <? SOCKADDR_SIZE then throw EINVAL
         else id ← Socket_from_fd fd; a ← get id; r ← into_sockaddr a; mret (0, Some r)
     end).
Definition sys_getsockname := sock_name Socket_local_addr.
Definition sys_getpeername := sock_name Socket_peer_addr.

(** [sys_close] and [sys_dup] on sockets. *)
Definition net_close (fd : Z) : M NState NoError (Z * unit) :=
  if ((0 <=? fd) && (fd <=? 2))%bool then mret (0, tt)
  else
    syscall tt
      (f ← on_n_table (r ← on_table (fo_remove AX_FILE_LIMIT (as_usize fd)); ok_or_errno EBADF r);
       _ ← narc_drop f; mret (0, tt)).
Definition net_dup (old_fd : Z) : M NState NoError (Z * unit) :=
  syscall tt (f ← on_n_table (get_file_like old_fd); _ ← narc_clone f; fd ← nadd_or_drop f; mret (fd, tt)).
End net.
