(* ===== verification/PosixNetProps.v ===== *)
(** * What socket calls do

    Addresses survive the way through the structures of C; the list of [sys_getaddrinfo] links all its buffers; no
    sequence of calls of a program with UDP sockets panics, whatever the network does; and the receive call of a connected
    socket takes datagrams from everyone. *)

From Stdlib Require Import ZArith Lia.
From stdpp Require Import base decidable numbers gmap list.
From S2P Require Import Prelude LinkedList Vfs AxIo NetStack NetProps TcpSocket TcpProps SmolModel UdpSocket FlattenObjects PosixTime Epoll Errno PosixFs PosixFsProps Inet PosixNet.

Local Open Scope Z_scope.

(** ** Addresses *)

Definition octets_ok (o : Octets) : Prop := let '(a, b, c, d) := o in octet a ∧ octet b ∧ octet c ∧ octet d.
Lemma ne_bytes_roundtrip o : octets_ok o → to_ne_bytes (from_ne_bytes o) = o ∧ 0 ≤ from_ne_bytes o < 2 ^ 32.
Proof.
  destruct o as [[[a b] c] d]. unfold octets_ok, octet, to_ne_bytes, from_ne_bytes. intros (Ha & Hb & Hc & Hd).
  split; [|lia]. repeat f_equal; Z.to_euclidean_division_equations; lia.
Qed.
Lemma ne_bytes_roundtrip' x : 0 ≤ x < 2 ^ 32 → from_ne_bytes (to_ne_bytes x) = x ∧ octets_ok (to_ne_bytes x).
Proof. intros Hx. unfold to_ne_bytes, from_ne_bytes, octets_ok, octet. Z.to_euclidean_division_equations. lia. Qed.
Lemma bswap_16_twice p : 0 ≤ p < 2 ^ 16 → bswap_16 (bswap_16 p) = p.
Proof.
  intros Hp. apply (swap_twice 16 _ (λ i, if i <? 8 then i + 8 else i - 8)); [lia..|intros; apply wrap_range; lia|apply bswap_16_bits|].
  intros i Hi. repeat case_match; rewrite ?Z.ltb_lt, ?Z.ltb_ge in *; lia.
Qed.
(** A structure that a program may pass. *)
Definition sockaddr_ok (a : sockaddr_in) : Prop := 0 ≤ sin_port a < 2 ^ 16 ∧ 0 ≤ s_addr a < 2 ^ 32.
Lemma from_sockaddr_inv {St} addr l (s : St) :
  (∃ e, from_sockaddr addr l s = (Err e, s) ∧ (e = EFAULT ∨ e = EINVAL)) ∨ (∃ a, from_sockaddr addr l s = (Ok a, s) ∧ v4 a).
Proof.
  unfold from_sockaddr. destruct addr as [a|]; [|left; eauto]. destruct (negb _); [left; eauto|]. destruct (negb _); [left; eauto|].
  right. by eexists.
Qed.

(** An address of version 4 is stored in the structure of C with the port and the address in network order, and loaded from there
    unchanged; every structure that is loaded is the one that its address is stored as, up to the padding. *)
Theorem sockaddr_roundtrip {St} (s : St) :
  (∀ o p, octets_ok o → 0 ≤ p < 2 ^ 16 →
    into_sockaddr (E := Z) {| sa_ip := IpV4 o; sa_port := p |} s = (Ok (sockaddr_in_from o p, SOCKADDR_SIZE), s) ∧
    from_sockaddr (Some (sockaddr_in_from o p)) SOCKADDR_SIZE s = (Ok {| sa_ip := IpV4 o; sa_port := p |}, s)) ∧
  (∀ a l x, sockaddr_ok a → from_sockaddr (Some a) l s = (Ok x, s) →
    ∃ a', into_sockaddr (E := Z) x s = (Ok (a', l), s) ∧ sin_family a' = sin_family a ∧ sin_port a' = sin_port a ∧ s_addr a' = s_addr a).
Proof.
  split.
  - intros o p Ho Hp. split; [done|]. unfold from_sockaddr. change (SOCKADDR_SIZE =? SOCKADDR_SIZE) with true. cbn [negb sockaddr_in_from sin_family].
    change (AF_INET =? AF_INET) with true. cbn [negb]. unfold SocketAddrV4_from. cbn [sockaddr_in_from s_addr sin_port].
    by rewrite (proj1 (ne_bytes_roundtrip o Ho)), bswap_16_twice.
  - intros a l x [Hp Hs] E. unfold from_sockaddr in E. destruct (Z.eqb_spec l SOCKADDR_SIZE) as [->|]; cbn [negb] in E; [|done].
    destruct (Z.eqb_spec (sin_family a) AF_INET) as [Hf|]; cbn [negb] in E; [|done]. injection E as <-. eexists. split; [done|].
    split_and!; [done|by apply bswap_16_twice|by apply ne_bytes_roundtrip'].
Qed.

(** ** The list of addresses *)

(** The buffers that are reached from a pointer. *)
Fixpoint follow (fuel : nat) (p : option nat) (out : list aibuf) : list aibuf :=
  match fuel, p with
  | S fuel, Some i => match out !! i with Some b => b :: follow fuel (ai_next b) out | None => [] end
  | _, _ => []
  end.
Definition buf_at (os : list Octets) (port : Z) (i : nat) : option aibuf :=
  (λ o, set_ai_next (if (S i <? length os)%nat then Some (S i) else None) (set_ai_addr (Some i) (aibuf_new o port i))) <$> os !! i.

Lemma link_lookup k (out : list aibuf) i :
  (if (0 <? k)%nat then alter (set_ai_next (Some k)) (k - 1)%nat out else out) !! i =
  if decide (S i = k) then set_ai_next (Some k) <$> out !! i else out !! i.
Proof.
  destruct (Nat.ltb_spec 0 k); [|by rewrite decide_False by lia]. case_decide as Hi.
  - subst. replace (S i - 1)%nat with i by lia. by rewrite list_lookup_alter_eq.
  - by rewrite list_lookup_alter_ne by lia.
Qed.
Lemma fill_addrs_ok os port : ∀ done out,
  length out = length done → (∀ i, out !! i = buf_at done port i) →
  ∃ out', fill_addrs (IpV4 <$> os) port (length done) out = Some out' ∧ length out' = length (done ++ os) ∧
    ∀ i, out' !! i = buf_at (done ++ os) port i.
Proof.
  induction os as [|o os IH]; intros done out Hl Hb; [exists out; by rewrite app_nil_r|].
  cbn [fmap list_fmap fill_addrs]. replace (done ++ o :: os) with ((done ++ [o]) ++ os) by (by rewrite <-app_assoc).
  replace (S (length done)) with (length (done ++ [o])) by (rewrite length_app; cbn; lia). apply IH.
  - destruct (0 <? _)%nat; rewrite ?length_alter, !length_app; cbn; lia.
  - intros i. rewrite link_lookup. destruct (decide (i = length done)) as [->|Hi].
    + rewrite list_lookup_alter_eq, lookup_app_r, Hl, Nat.sub_diag by lia. unfold buf_at. rewrite lookup_app_r, Nat.sub_diag, length_app by lia.
      rewrite decide_False, (proj2 (Nat.ltb_ge (S (length done)) _)) by (cbn; lia). done.
    + rewrite list_lookup_alter_ne by done. unfold buf_at. rewrite length_app. destruct (decide (i < length done)%nat).
      * rewrite !lookup_app_l by lia. rewrite Hb. unfold buf_at. destruct (done !! i); [|by case_decide]. cbn [fmap option_fmap option_map length].
        rewrite (proj2 (Nat.ltb_lt (S i) (length done + 1))) by lia. case_decide as Hs; [by rewrite <-Hs|].
        by rewrite (proj2 (Nat.ltb_lt (S i) (length done))) by lia.
      * rewrite !lookup_ge_None_2 by (rewrite length_app; cbn; lia). by case_decide.
Qed.
Lemma follow_all out :
  (∀ i b, out !! i = Some b → ai_next b = if (S i <? length out)%nat then Some (S i) else None) → ∀ fuel i,
  (length out ≤ i + fuel)%nat → (i < length out)%nat → follow fuel (Some i) out = drop i out.
Proof.
  intros Hb. induction fuel as [|fuel IH]; intros i Hf Hi; [lia|]. cbn [follow].
  destruct (lookup_lt_is_Some_2 out i Hi) as [b Eb]. rewrite Eb, (drop_S _ _ _ Eb), (Hb i b Eb). f_equal.
  destruct (Nat.ltb_spec (S i) (length out)); [apply IH; lia|]. rewrite drop_ge by lia. by destruct fuel.
Qed.
Lemma fill_addrs_v6 ips port l : ∀ i out, IpV6 l ∈ ips → fill_addrs ips port i out = None.
Proof.
  induction ips as [|ip ips IH]; intros i out Hin; [by apply not_elem_of_nil in Hin|]. destruct ip as [o|l']; [|done].
  apply elem_of_cons in Hin as [?|Hin]; [done|]. by apply IH.
Qed.
(** The list for addresses of version 4: at most 48 of them, in order, each with the port; following the links from the first
    buffer reaches all of them, and nothing else; every buffer points to its own address.  The first buffer tells [sys_freeaddrinfo]
    to free exactly these buffers, and its checks pass. *)
Theorem addrinfo_list_linked {St} (s : St) os port :
  os ≠ [] →
  let n := Nat.min (length os) MAXADDRS in
  ∃ out, addrinfo_list (IpV4 <$> os) port s = (Ok (Z.of_nat n, out), s) ∧ length out = n ∧ follow n (Some 0%nat) out = out ∧
    ab_sin <$> out = (λ o, sockaddr_in_from o port) <$> take n os ∧
    (∀ i b, out !! i = Some b → ai_addr b = Some i ∧ ai_family b = AF_INET ∧ ab_slot b = Z.of_nat i) ∧
    sys_freeaddrinfo (out !! 0%nat) s = (Ok (Z.of_nat n), s).
Proof.
  intros Hne n. assert (1 ≤ n ≤ 48)%nat as Hn by (unfold n, MAXADDRS; destruct os; [done|]; cbn [length]; lia).
  assert (length (take n os) = n) as Hlt by (rewrite length_take; lia).
  destruct (fill_addrs_ok (take n os) port [] []) as (out & E & Hl & Hb); [done|done|]. cbn [app length] in *.
  set (out' := alter (set_ab_ref (Z.of_nat n)) 0%nat out). exists out'.
  assert (length out' = n) as Hl' by (unfold out'; rewrite length_alter; lia).
  assert (∀ i, ∃ k, out' !! i = set_ab_ref k <$> buf_at (take n os) port i) as Hb'.
  { intros i. unfold out'. rewrite <-Hb. destruct i; [rewrite list_lookup_alter_eq; eauto|rewrite list_lookup_alter_ne by done].
    exists 0. rewrite Hb. unfold buf_at. by destruct (take n os !! S i). }
  split_and!.
  - unfold addrinfo_list. rewrite length_fmap. fold n. rewrite (proj2 (Nat.eqb_neq n 0)) by lia. rewrite <-fmap_take, E. done.
  - done.
  - apply (follow_all out'); [|lia..]. intros i b Hi. destruct (Hb' i) as [k Hk]. rewrite Hk in Hi. unfold buf_at in Hi.
    destruct (take n os !! i); [|done]. injection Hi as <-. cbn [set_ab_ref set_ai_next ai_next]. by rewrite Hlt, Hl'.
  - apply list_eq. intros i. rewrite !list_lookup_fmap. destruct (Hb' i) as [k ->]. unfold buf_at. by destruct (take n os !! i).
  - intros i b Hi. destruct (Hb' i) as [k Hk]. rewrite Hk in Hi. unfold buf_at in Hi. destruct (take n os !! i); [|done]. by injection Hi as <-.
  - unfold out'. rewrite list_lookup_alter_eq, Hb. unfold buf_at. destruct (lookup_lt_is_Some_2 (take n os) 0) as [o ->]; [lia|].
    unfold sys_freeaddrinfo. cbn [fmap option_fmap option_map set_ab_ref set_ai_next set_ai_addr aibuf_new ab_slot ab_ref].
    rewrite wrap_small, (proj2 (Z.ltb_lt 0 _)) by lia. done.
Qed.
(** An address of version 6 among those that are used is a panic. *)
Lemma addrinfo_list_v6 {St} (s : St) ips port l :
  IpV6 l ∈ take (Nat.min (length ips) MAXADDRS) ips → (addrinfo_list ips port s).1 = Panic.
Proof.
  intros Hin. unfold addrinfo_list. set (n := Nat.min (length ips) MAXADDRS) in *. destruct (Nat.eqb_spec n 0) as [E|].
  - rewrite E in Hin. by apply not_elem_of_nil in Hin.
  - by rewrite (fill_addrs_v6 _ port l).
Qed.

(** ** Programs with UDP sockets *)

#[export] Instance NFile_eq_dec : EqDecision NFile.
Proof. solve_decision. Defined.

Section udp.
Context `{SK : SmolSockets} `{N : !SmolNet} `{SP : !SmolSpec} {B : Type} `{BM : Bitmap B} `{BMS : !BitmapSpec B}.
Local Abbreviation NState := (@NState SK N B).
Local Abbreviation NM := (M NState Z).

Definition nrefs (m : gmap Z NFile) (id : nat) : Z := refs_to m (NSocket id).
Definition nbump (f : NFile) (id : nat) : Z := bump_to f (NSocket id).
Definition udp_at (s : NState) (id : nat) (u : UdpSocket) : Prop := os_inner <$> n_socks s !! id = Some (Udp u).
(** The sockets are those that descriptors, and [extra] more references, refer to, with their number; all are UDP sockets, and
    each has a handle of its own in the set of the stack. *)
Record ninv (m : gmap Z NFile) (extra : nat → Z) (s : NState) : Prop := {
  ni_table : fo_rep AX_FILE_LIMIT (n_table s) m;
  ni_count id : os_strong <$> n_socks s !! id = (if decide (nrefs m id + extra id = 0) then None else Some (nrefs m id + extra id));
  ni_udp id o : n_socks s !! id = Some o → ∃ u, os_inner o = Udp u ∧ udp_in (us_handle u) (n_net s);
  ni_own id id' u u' : udp_at s id u → udp_at s id' u' → us_handle u = us_handle u' → id = id';
}.
Definition nwf (m : gmap Z NFile) : NState → Prop := ninv m (λ _, 0).

(** A computation that does not panic. *)
Definition ntriple {A} (P : NState → Prop) (x : NM A) (Q : A → NState → Prop) (E : NState → Prop) : Prop := ∀ s,
  P s → match x s with (Ok a, s') => Q a s' | (Err _, s') => E s' | (Panic, _) => False | (OutOfFuel, _) => True end.
Lemma ntriple_ret {A} (P : NState → Prop) (a : A) (Q : A → NState → Prop) E : (∀ s, P s → Q a s) → ntriple P (mret a) Q E.
Proof. intros H s HP. by apply H. Qed.
Lemma ntriple_throw {A} (P : NState → Prop) e (Q : A → NState → Prop) (E : NState → Prop) : (∀ s, P s → E s) → ntriple P (throw e) Q E.
Proof. intros H s HP. by apply H. Qed.
Lemma ntriple_bind {A C} P (x : NM A) (R : A → NState → Prop) (k : A → NM C) Q E :
  ntriple P x R E → (∀ a, ntriple (R a) (k a) Q E) → ntriple P (x ≫= k) Q E.
Proof.
  intros Hx Hk s HP. specialize (Hx s HP). unfold mbind, M_bind. destruct (x s) as [[a|e| |] s']; [|done..]. by apply Hk.
Qed.
Lemma ntriple_pure {A} (φ : Prop) (P : NState → Prop) (x : NM A) Q E : (φ → ntriple P x Q E) → ntriple (λ s, φ ∧ P s) x Q E.
Proof. intros H s [Hφ HP]. by apply H. Qed.

(** *** A method of a socket *)

Definition returns {S E A} (P : A → Prop) (m : M S E A) : Prop := ∀ s, match m s with (Ok a, _) => P a | _ => True end.
Lemma safe_linux {A} h (m : M (Net * UdpSocket) AxError A) : safe h m → safe h (to_linux m).
Proof.
  intros H n s Hs Hn. specialize (H n s Hs Hn). unfold to_linux.
  destruct (m (n, s)) as [[a|e| |] s']; destruct H as (Hp & ? & ?); by split_and!.
Qed.
Lemma returns_linux {S A} (P : A → Prop) (m : M S AxError A) : returns P m → returns P (to_linux m).
Proof. intros H s. specialize (H s). unfold to_linux. by destruct (m s) as [[a|e| |] s']. Qed.
Lemma returns_bind {S E A C} (P : A → Prop) (Q : C → Prop) (m : M S E A) (k : A → M S E C) :
  returns P m → (∀ a, P a → returns Q (k a)) → returns Q (m ≫= k).
Proof. intros Hm Hk s. specialize (Hm s). unfold mbind, M_bind. destruct (m s) as [[a|e| |] s']; [|done..]. by apply Hk. Qed.
Lemma put_inv m extra s id o u u' n :
  ninv m extra s → n_socks s !! id = Some o → os_inner o = Udp u → us_handle u' = us_handle u →
  (∀ h', udp_in h' (n_net s) → udp_in h' n) → ninv m extra (put_sock s id (os_strong o) n (Udp u')).
Proof.
  intros [Ht Hc Hu Ho] Hid Eo Hh Hn. destruct (Hu id o Hid) as (u0 & E0 & Hin0). rewrite Eo in E0. injection E0 as <-.
  assert (∀ i v, udp_at (put_sock s id (os_strong o) n (Udp u')) i v → ∃ v0, udp_at s i v0 ∧ us_handle v = us_handle v0) as Hat.
  { intros i v Hv. unfold udp_at in *. cbn in Hv. destruct (decide (id = i)) as [<-|Hne].
    - rewrite lookup_insert_eq in Hv. injection Hv as <-. exists u. split; [rewrite Hid; cbn; by rewrite Eo|done].
    - rewrite lookup_insert_ne in Hv by done. by exists v. }
  split; cbn.
  - done.
  - intros i. destruct (decide (id = i)) as [<-|Hne]; [by rewrite lookup_insert_eq, <-Hc, Hid|by rewrite lookup_insert_ne, Hc].
  - intros i o'. destruct (decide (id = i)) as [<-|Hne]; [rewrite lookup_insert_eq|rewrite lookup_insert_ne by done].
    + intros [= <-]. exists u'. split; [done|]. rewrite Hh. by apply Hn.
    + intros Hi. destruct (Hu i o' Hi) as (v & Ev & Hv). exists v. split; [done|]. by apply Hn.
  - intros i i' v v' Hv Hv' E. destruct (Hat i v Hv) as (v0 & H0 & E0), (Hat i' v' Hv') as (v0' & H0' & E0').
    apply (Ho i i' v0 v0'); congruence.
Qed.
Lemma sock_triple {A} m extra id (P : A → Prop) fu (ft : M (Net * TcpSocket) Z A) :
  nrefs m id + extra id ≠ 0 → (∀ h, safe h fu) → returns P fu →
  ntriple (ninv m extra) (on_sock id fu ft) (λ a s, P a ∧ ninv m extra s) (ninv m extra).
Proof.
  intros Hr Hs HP s Hi. destruct (Hi : ninv m extra s) as [Ht Hc Hu Ho]. unfold on_sock. specialize (Hc id). rewrite decide_False in Hc by done.
  destruct (n_socks s !! id) as [o|] eqn:Eid; [|done]. destruct (Hu id o Eid) as (u & Eo & Hin). rewrite Eo.
  destruct (Hs (us_handle u) (n_net s) u eq_refl Hin) as (Hp & Hh & Hn). specialize (HP (n_net s, u)).
  destruct (fu (n_net s, u)) as [[a|e| |] [n u']]; cbn in *; try done; [split; [done|]|]; by eapply put_inv.
Qed.

(** *** References *)

Lemma ninv_ext m e1 e2 s : (∀ id, e1 id = e2 id) → ninv m e1 s → ninv m e2 s.
Proof. intros He [Ht Hc Hu Ho]. split; [done| |done..]. intros id. by rewrite Hc, He. Qed.
Lemma nrefs_nonneg m id : 0 ≤ nrefs m id.
Proof. unfold nrefs, refs_to. lia. Qed.
Lemma nrefs_pos m fd id : m !! fd = Some (NSocket id) → 1 ≤ nrefs m id.
Proof.
  intros Hm. unfold nrefs. rewrite (refs_to_delete m fd _ (NSocket id) Hm). unfold bump_to. rewrite decide_True by done.
  pose proof (nrefs_nonneg (delete fd m) id) as H. unfold nrefs in H. lia.
Qed.
Lemma nbump_eq id : nbump (NSocket id) id = 1.
Proof. unfold nbump, bump_to. by rewrite decide_True. Qed.
Lemma nbump_ne id id' : id ≠ id' → nbump (NSocket id) id' = 0.
Proof. intros Hne. unfold nbump, bump_to. rewrite decide_False; [done|congruence]. Qed.
(** The counts after the entry of one socket changes. *)
Lemma count_update m e1 e2 (m1 : gmap nat OpenSocket) id o :
  (∀ i, os_strong <$> m1 !! i = (if decide (nrefs m i + e1 i = 0) then None else Some (nrefs m i + e1 i))) →
  (∀ i, i ≠ id → e1 i = e2 i) → nrefs m id + e2 id ≠ 0 → os_strong o = nrefs m id + e2 id →
  ∀ i, os_strong <$> <[id := o]> m1 !! i = (if decide (nrefs m i + e2 i = 0) then None else Some (nrefs m i + e2 i)).
Proof.
  intros Hc He Hz Ho i. destruct (decide (id = i)) as [<-|Hne].
  - rewrite lookup_insert_eq, decide_False by done. cbn. by rewrite Ho.
  - rewrite lookup_insert_ne, Hc, He by done. done.
Qed.
(** A new reference to a socket, or one less, when others remain. *)
Lemma recount m e1 e2 s id o k :
  ninv m e1 s → n_socks s !! id = Some o → (∀ i, i ≠ id → e1 i = e2 i) → nrefs m id + e2 id ≠ 0 → k = nrefs m id + e2 id →
  ninv m e2 {| n_table := n_table s; n_socks := <[id := {| os_inner := os_inner o; os_strong := k |}]> (n_socks s); n_net := n_net s |}.
Proof.
  intros [Ht Hc Hu Ho] Hid He Hz Hk.
  assert (∀ i, os_inner <$> <[id := {| os_inner := os_inner o; os_strong := k |}]> (n_socks s) !! i = os_inner <$> n_socks s !! i) as Hin.
  { intros i. destruct (decide (id = i)) as [<-|Hne]; [by rewrite lookup_insert_eq, Hid|by rewrite lookup_insert_ne]. }
  split; cbn; [done|by apply (count_update m e1 e2 (n_socks s) id)| |].
  - intros i x Hx. destruct (decide (id = i)) as [<-|Hne].
    + rewrite lookup_insert_eq in Hx. injection Hx as <-. exact (Hu id o Hid).
    + rewrite lookup_insert_ne in Hx by done. by apply (Hu i).
  - intros i i' u u' Hu1 Hu2. unfold udp_at in *. cbn in *. rewrite !Hin in *. by apply Ho.
Qed.
Lemma narc_clone_triple m fd f : m !! fd = Some f → ntriple (nwf m) (narc_clone f) (λ _, ninv m (nbump f)) (λ _, False).
Proof.
  intros Hm s Hs. destruct f as [id|]; [|by eapply ninv_ext, Hs].
  unfold narc_clone, mbind, M_bind, get_state, unwrap, mret, M_ret, set_socks, modify. pose proof (nrefs_pos m fd id Hm).
  pose proof (ni_count _ _ _ Hs id) as Hc. rewrite decide_False in Hc by lia. destruct (n_socks s !! id) as [o|] eqn:Ho; [|done].
  cbn in Hc. injection Hc as Hc. cbv beta iota. apply (recount m (λ _, 0)); rewrite ?nbump_eq; try done; try lia.
  intros i Hne. by rewrite nbump_ne.
Qed.
Lemma narc_drop_triple m f : ntriple (ninv m (nbump f)) (narc_drop f) (λ _, nwf m) (λ _, False).
Proof.
  intros s Hs. destruct f as [id|]; [|by eapply ninv_ext, Hs].
  unfold narc_drop, mbind, M_bind, get_state, unwrap, mret, M_ret, set_socks, modify. pose proof (nrefs_nonneg m id).
  destruct (Hs) as [Ht Hc Hu Ho]. pose proof (Hc id) as Hid. rewrite nbump_eq, decide_False in Hid by lia.
  destruct (n_socks s !! id) as [o|] eqn:Eo; [|done]. cbn in Hid. injection Hid as Hid. cbv beta iota.
  destruct (Z.eqb_spec (os_strong o) 1) as [E1|E1].
  2: { apply (recount m (nbump (NSocket id))); try done; try lia. intros i Hne. by rewrite nbump_ne. }
  destruct (Hu id o Eo) as (u & Eu & Hin). unfold on_n_net, sock_drop. cbn [n_net n_table n_socks]. rewrite Eu. unfold to_linux.
  destruct (udp_drop_ok (n_net s) u Hin) as (n' & u' & -> & _ & Hn). cbv beta iota.
  assert (udp_at s id u) as Hat by (unfold udp_at; rewrite Eo; cbn; by rewrite Eu).
  assert (∀ i x, delete id (n_socks s) !! i = Some x → i ≠ id ∧ n_socks s !! i = Some x) as Hd.
  { intros i x Hx. destruct (decide (id = i)) as [<-|Hne]; [by rewrite lookup_delete_eq in Hx|by rewrite lookup_delete_ne in Hx]. }
  split; cbn.
  - done.
  - intros i. destruct (decide (id = i)) as [<-|Hne]; [rewrite lookup_delete_eq, decide_True by lia; done|].
    by rewrite lookup_delete_ne, Hc, nbump_ne.
  - intros i x Hx. destruct (Hd i x Hx) as [Hne Hi]. destruct (Hu i x Hi) as (v & Ev & Hv). exists v. split; [done|].
    apply Hn; [|done]. intros E. apply Hne. apply (Ho i id v u); [|done..]. unfold udp_at. rewrite Hi. cbn. by rewrite Ev.
  - intros i i' v v' Hv Hv'. apply Ho; [revert Hv|revert Hv']; unfold udp_at; cbn; intros (x & Hx & ->)%fmap_Some;
      by destruct (Hd _ x Hx) as [_ ->].
Qed.

(** *** The table *)

Lemma nget_triple m fd :
  c_int fd → ntriple (nwf m) (on_n_table (get_file_like fd)) (λ f s, m !! fd = Some f ∧ nwf m s) (nwf m).
Proof.
  intros Hfd s Hs. destruct (Hs : ninv m (λ _, 0) s) as [Ht Hc Hu Ho]. unfold on_n_table. rewrite (get_file_like_ok _ m fd Ht Hfd).
  destruct (m !! fd); [split; [done|]|]; by split.
Qed.
Lemma nadd_triple m f :
  ntriple (ninv m (nbump f)) (nadd_or_drop f) (λ fd s, m !! fd = None ∧ nwf (<[fd := f]> m) s) (nwf m).
Proof.
  intros s Hs. destruct (Hs) as [Ht Hc Hu Ho]. unfold nadd_or_drop, on_n_table.
  destruct (add_file_like_ok (n_table s) m f Ht) as [(fd & t' & -> & Hr & Hn & Hl & Ht')|[-> Hfull]].
  - split; [done|]. split; [done| |done..]. intros id. cbn. rewrite Hc. unfold nrefs. rewrite refs_to_insert by done. by rewrite Z.add_0_r.
  - pose proof (narc_drop_triple m f s Hs) as Hd. unfold mbind, M_bind.
    destruct s as [t fl a]. cbn in *. destruct (narc_drop f _) as [[[]|e| |] s']; try done.
Qed.
Lemma nremove_triple m fd :
  c_int fd →
  ntriple (nwf m) (on_n_table (r ← on_table (fo_remove AX_FILE_LIMIT (as_usize fd)); ok_or_errno EBADF r))
    (λ f s, m !! fd = Some f ∧ ninv (delete fd m) (nbump f) s) (nwf m).
Proof.
  intros Hfd s [Ht Hc Hu Ho]. unfold on_n_table, on_table, mbind, M_bind.
  destruct (fo_remove_ok AX_FILE_LIMIT _ m _ Ht (as_usize_range fd)) as (t' & -> & Ht').
  assert (m !! as_usize fd = m !! fd) as El by (by apply (fd_lookup (n_table s))). rewrite El.
  destruct (m !! fd) as [f|] eqn:Hm; cbn.
  - split; [done|]. assert (as_usize fd = fd) as Eu.
    { apply as_usize_nonneg; [done|]. destruct (fr_object _ _ _ Ht fd f Hm). lia. }
    rewrite Eu in Ht'. split; [done| |done..]. intros id. cbn. rewrite Hc. unfold nrefs. rewrite (refs_to_delete m fd f (NSocket id) Hm). by rewrite Z.add_0_r.
  - rewrite delete_id in Ht' by done. by split.
Qed.
(** A new socket: the stack gets a new handle, and the socket one reference. *)
Lemma new_udp_triple m :
  ntriple (nwf m) (u ← on_n_net (to_linux UdpSocket_new); Socket_add_to_fd_table (Udp u))
    (λ fd s, ∃ id, m !! fd = None ∧ nwf (<[fd := NSocket id]> m) s) (nwf m).
Proof.
  intros s Hs. destruct (Hs : ninv m (λ _, 0) s) as [Ht Hc Hu Ho]. unfold mbind at 1, M_bind at 1. unfold on_n_net, to_linux.
  destruct (udp_new_ok (n_net s)) as (h & st & u & _ & -> & Hh & Hfresh & Hnew & Hn). cbv beta iota.
  unfold Socket_add_to_fd_table. unfold mbind at 1, M_bind at 1. unfold narc_new, mbind, M_bind, get_state, set_socks, modify, mret, M_ret.
  cbv beta iota zeta. cbn [n_socks n_table n_net]. set (id := fresh (dom (n_socks s))).
  assert (n_socks s !! id = None) as Hnone by (apply not_elem_of_dom, is_fresh).
  assert (nrefs m id = 0) as H0 by (specialize (Hc id); rewrite Hnone in Hc; cbn in Hc; case_decide; [lia|done]).
  match goal with |- match nadd_or_drop _ ?s1 with _ => _ end => assert (ninv m (nbump (NSocket id)) s1) as H1 end.
  2: { pose proof (nadd_triple m (NSocket id) _ H1) as H2. destruct (nadd_or_drop _ _) as [[fd|e| |] s']; try done. by exists id. }
  set (s1 := {| n_table := _; n_socks := _; n_net := _ |}).
  assert (∀ i v, udp_at s1 i v → (i = id ∧ us_handle v = h) ∨ (udp_at s i v ∧ us_handle v ≠ h)) as Hat.
  { intros i v Hv. unfold udp_at, s1 in Hv. cbn in Hv. destruct (decide (id = i)) as [<-|Hne].
    - rewrite lookup_insert_eq in Hv. injection Hv as <-. by left.
    - rewrite lookup_insert_ne in Hv by done. right. split; [done|]. apply fmap_Some in Hv as (x & Hx & Ex).
      destruct (Hu i x Hx) as (v' & Ev & Hin). rewrite Ev in Ex. injection Ex as ->. intros E. apply Hfresh. by rewrite <-E. }
  split; cbn; [done|apply (count_update m (λ _, 0)); rewrite ?nbump_eq, ?H0; try done; intros; by rewrite nbump_ne| |].
  - intros i x Hx. destruct (decide (id = i)) as [<-|Hne].
    + rewrite lookup_insert_eq in Hx. injection Hx as <-. exists u. by rewrite Hh.
    + rewrite lookup_insert_ne in Hx by done. destruct (Hu i x Hx) as (v & Ev & Hv). eauto.
  - intros i i' v v' Hv Hv' E. destruct (Hat i v Hv) as [[-> ?]|[? ?]], (Hat i' v' Hv') as [[-> ?]|[? ?]]; try congruence. by apply (Ho i i' v v').
Qed.

(** *** The calls *)

Definition nkeeps {A} (m : gmap Z NFile) (x : NM A) : Prop := ntriple (nwf m) x (λ _, nwf m) (nwf m).
Lemma nkeeps_ret {A} m (a : A) : nkeeps m (mret a).
Proof. by apply ntriple_ret. Qed.
Lemma nkeeps_throw {A} m e : nkeeps (A := A) m (throw e).
Proof. by apply ntriple_throw. Qed.
Lemma nkeeps_bind {A C} m (x : NM A) (k : A → NM C) : nkeeps m x → (∀ a, nkeeps m (k a)) → nkeeps m (x ≫= k).
Proof. intros. by eapply ntriple_bind. Qed.
(** With an address of version 4 or an error. *)
Lemma nkeeps_addr {C} m addr l (k : SocketAddr → NM C) : (∀ a, v4 a → nkeeps m (k a)) → nkeeps m (from_sockaddr addr l ≫= k).
Proof.
  intros Hk s Hs. unfold mbind, M_bind. destruct (from_sockaddr_inv addr l s) as [(e & -> & _)|(a & -> & Ha)]; [done|]. by apply Hk.
Qed.
Lemma from_fd_triple m fd :
  c_int fd → ntriple (nwf m) (Socket_from_fd fd) (λ id s, m !! fd = Some (NSocket id) ∧ nwf m s) (nwf m).
Proof.
  intros Hfd. unfold Socket_from_fd. eapply ntriple_bind; [by apply nget_triple|]. intros f. apply ntriple_pure. intros Hf.
  destruct f as [id|]; [by apply ntriple_ret|by apply ntriple_throw].
Qed.
(** A method of the socket behind a descriptor. *)
Lemma nkeeps_socket {A C} m fd (P : A → Prop) (fu : M (Net * UdpSocket) Z A) ft (k : A → NM C) :
  c_int fd → (∀ h, safe h fu) → returns P fu → (∀ a, P a → nkeeps m (k a)) →
  nkeeps m (id ← Socket_from_fd fd; a ← on_sock id fu ft; k a).
Proof.
  intros Hfd Hs HP Hk. eapply ntriple_bind; [by apply from_fd_triple|]. intros id. apply ntriple_pure. intros Hm. eapply ntriple_bind.
  - apply (sock_triple m (λ _, 0) id P); try done. pose proof (nrefs_pos m fd id Hm). lia.
  - intros a. apply ntriple_pure. apply Hk.
Qed.
Lemma safe_unvoid {A} h (m : M (Net * UdpSocket) AxError A) : safe h (void_ m) → safe h m.
Proof. intros H n s Hs Hn. destruct (H n s Hs Hn) as (Hp & ? & ?). split_and!; [|done..]. intros E. apply Hp. unfold void_. cbn. by rewrite E. Qed.
Lemma returns_any {S E A} (m : M S E A) : returns (λ _, True) m.
Proof. intros s. by destruct (m s) as [[a|e| |] s']. Qed.
Lemma v4_core e : v4 (into_core_sockaddr e).
Proof. by destruct e as [[o] p]. Qed.
Lemma returns_block {A} (P : A → Prop) fuel (f : M (Net * UdpSocket) AxError A) : returns P f → returns P (udp_block_on fuel f).
Proof.
  intros Hf. assert (returns P (_ ← on_fst poll_interfaces; f)) as Ht by (eapply returns_bind; [apply returns_any|done]).
  eapply (returns_bind (λ _, True)); [apply returns_any|]. intros u _. destruct (us_nonblock u); [done|]. induction fuel as [|fuel IH]; intros s; [done|].
  cbn [udp_block_loop]. specialize (Ht s). destruct ((_ ← on_fst poll_interfaces; f) s) as [[a|e| |] s']; try done. destruct e; try done. apply IH.
Qed.
Lemma recv_from_v4 fuel l : returns (λ r, v4 r.2) (udp_recv_from fuel l).
Proof.
  unfold udp_recv_from, udp_recv_impl. eapply (returns_bind (λ _, True)); [apply returns_any|]. intros u _. destruct (us_local u); [|by intros s].
  apply returns_block. eapply (returns_bind (λ _, True)); [apply returns_any|]. intros x _. destruct (udp_can_recv x); [|by intros s].
  eapply (returns_bind (λ _, True)); [apply returns_any|]. intros [[d e]|] _; [|by intros s]. intros s. apply v4_core.
Qed.
Lemma udp_local_addr_ok : (∀ h, safe h udp_local_addr) ∧ returns v4 udp_local_addr.
Proof.
  split.
  - intros h. apply safe_gets. intros s _. apply safe_bind; [destruct (us_local s); [apply safe_ret|apply safe_throw]|]. intros; apply safe_ret.
  - do 2 (eapply (returns_bind (λ _, True)); [apply returns_any|]; intros ? _). intros s. apply v4_core.
Qed.
Lemma udp_peer_addr_ok : (∀ h, safe h udp_peer_addr) ∧ returns v4 udp_peer_addr.
Proof.
  split.
  - intros h. apply safe_bind; [apply safe_remote|]. intros; apply safe_ret.
  - eapply (returns_bind (λ _, True)); [apply returns_any|]; intros ? _. intros s. apply v4_core.
Qed.
Lemma nkeeps_into {C} m a (k : sockaddr_in * Z → NM C) : v4 a → (∀ x, nkeeps m (k x)) → nkeeps m (into_sockaddr a ≫= k).
Proof. intros Ha Hk s Hs. unfold v4 in Ha. unfold into_sockaddr, mbind, M_bind. destruct (sa_ip a); [by apply Hk|done]. Qed.

Inductive NCall : Type :=
| NSock (domain socktype protocol : Z) | NBind (fd : Z) (addr : option sockaddr_in) (addrlen : Z)
| NConnect (fd : Z) (addr : option sockaddr_in) (addrlen : Z)
| NSendto (fd : Z) (buf : option (list Z)) (addr : option sockaddr_in) (addrlen : Z) | NSend (fd : Z) (buf : option (list Z))
| NRecvfrom (fd : Z) (null : bool) (n : Z) | NRecv (fd : Z) (null : bool) (n : Z)
| NListen (fd : Z) | NAccept (fd : Z) (null : bool) | NShutdown (fd : Z)
| NGetsockname (fd : Z) (addrlen : option Z) | NGetpeername (fd : Z) (addrlen : option Z) | NClose (fd : Z) | NDup (fd : Z).
(** Only UDP sockets are made; the numbers of descriptors are those of C. *)
Definition udp_call (c : NCall) : Prop :=
  match c with
  | NSock _ socktype _ => wrap 32 socktype ≠ SOCK_STREAM
  | NBind fd _ _ | NConnect fd _ _ | NSendto fd _ _ _ | NSend fd _ | NRecvfrom fd _ _ | NRecv fd _ _ | NListen fd | NAccept fd _
  | NShutdown fd | NGetsockname fd _ | NGetpeername fd _ | NClose fd | NDup fd => c_int fd
  end.
Definition nfst {A} (x : M NState NoError (Z * A)) : M NState NoError Z := r ← x; mret r.1.
Definition run_ncall (fuel : nat) (c : NCall) : M NState NoError Z :=
  match c with
  | NSock d t p => nfst (sys_socket d t p)
  | NBind fd a l => nfst (sys_bind fd a l)
  | NConnect fd a l => nfst (sys_connect fuel fd a l)
  | NSendto fd b a l => nfst (sys_sendto fuel fd b a l)
  | NSend fd b => nfst (sys_send fuel fd b)
  | NRecvfrom fd b n => nfst (sys_recvfrom fuel fd b n)
  | NRecv fd b n => nfst (sys_recv fuel fd b n)
  | NListen fd => nfst (sys_listen fd)
  | NAccept fd b => nfst (sys_accept fuel fd b)
  | NShutdown fd => nfst (sys_shutdown fd)
  | NGetsockname fd l => nfst (sys_getsockname fd l)
  | NGetpeername fd l => nfst (sys_getpeername fd l)
  | NClose fd => nfst (net_close fd)
  | NDup fd => nfst (net_dup fd)
  end.
Lemma nfst_syscall {A} (P : NState → Prop) (d : A) (x : NM (Z * A)) (Q E : NState → Prop) s :
  ntriple P x (λ _, Q) E → (∀ s, E s → Q s) → P s → match nfst (syscall d x) s with (Ok _, s') => Q s' | (Err e, _) => match e with end | (Panic, _) => False | _ => True end.
Proof.
  intros H HE HP. specialize (H s HP). unfold nfst, syscall, mbind, M_bind. destruct (x s) as [[a|e| |] s']; try done. by apply HE.
Qed.
Definition some_nwf (s : NState) : Prop := ∃ m, nwf m s.
Lemma nkeeps_some {A} m (x : NM A) : nkeeps m x → ntriple (nwf m) x (λ _, some_nwf) some_nwf.
Proof. intros H s Hs. specialize (H s Hs). destruct (x s) as [[a|e| |] s']; try done; by exists m. Qed.

(** The calls on one socket, as methods of it that are safe. *)
Definition fits {A} (x : NM A) : Prop := ∀ m, nkeeps m x.
Lemma safe_to h (o : UdpOp) : v4_udp o → safe h (to_linux (udp_op o)).
Proof. intros Ho. by apply safe_linux, udp_op_safe. Qed.
Lemma safe_to_unvoid {A} h (x : M (Net * UdpSocket) AxError A) o : udp_op o = void_ x → v4_udp o → safe h (to_linux x).
Proof. intros E Ho. apply safe_linux, safe_unvoid. rewrite <-E. by apply udp_op_safe. Qed.
Lemma fits_bind fd a l : c_int fd → fits (addr ← from_sockaddr a l; id ← Socket_from_fd fd; _ ← Socket_bind id addr; mret (0, tt)).
Proof.
  intros Hfd m. apply nkeeps_addr. intros x Hx. apply (nkeeps_socket m fd (λ _, True)); [done| |apply returns_any|intros; apply nkeeps_ret].
  intros h. by apply (safe_to h (UBind x)).
Qed.
Lemma fits_connect fuel fd a l : c_int fd → fits (addr ← from_sockaddr a l; id ← Socket_from_fd fd; _ ← Socket_connect fuel id addr; mret (0, tt)).
Proof.
  intros Hfd m. apply nkeeps_addr. intros x Hx. apply (nkeeps_socket m fd (λ _, True)); [done| |apply returns_any|intros; apply nkeeps_ret].
  intros h. by apply (safe_to h (UConnect x)).
Qed.
Lemma fits_sendto fuel fd buf a l :
  c_int fd → fits (addr ← from_sockaddr a l; id ← Socket_from_fd fd; n ← Socket_sendto fuel id buf addr; mret (n, tt)).
Proof.
  intros Hfd m. apply nkeeps_addr. intros x Hx. apply (nkeeps_socket m fd (λ _, True)); [done| |apply returns_any|intros; apply nkeeps_ret].
  intros h. by apply (safe_to_unvoid h _ (USendTo fuel buf x)).
Qed.
Lemma fits_send fuel fd buf : c_int fd → fits (id ← Socket_from_fd fd; n ← Socket_send fuel id buf; mret (n, tt)).
Proof.
  intros Hfd m. apply (nkeeps_socket m fd (λ _, True)); [done| |apply returns_any|intros; apply nkeeps_ret].
  intros h. by apply (safe_to_unvoid h _ (USend fuel buf)).
Qed.
Lemma safe_recv_from fuel n h : safe h (to_linux (udp_recv_from fuel n)).
Proof. by apply (safe_to_unvoid h _ (URecvFrom fuel n)). Qed.
Lemma fits_recvfrom fuel fd n :
  c_int fd → fits (id ← Socket_from_fd fd; res ← Socket_recvfrom fuel id n;
    match res.2 with
    | Some addr => a ← into_sockaddr addr; mret (len res.1, (res.1, Some a))
    | None => mret (len res.1, (res.1, None))
    end).
Proof.
  intros Hfd m. apply (nkeeps_socket m fd (λ r, from_option v4 True r.2)); [done| | |].
  - intros h. apply safe_bind; [apply safe_recv_from|]. intros; apply safe_ret.
  - eapply returns_bind; [apply returns_linux, recv_from_v4|]. intros [d a] Ha. by intros s.
  - intros [d [a|]] Ha; cbn in *; [apply nkeeps_into; [done|]; intros|]; apply nkeeps_ret.
Qed.
Lemma fits_recv fuel fd n : c_int fd → fits (id ← Socket_from_fd fd; l ← Socket_recv fuel id n; mret (len l, l)).
Proof.
  intros Hfd m. apply (nkeeps_socket m fd (λ _, True)); [done| |apply returns_any|intros; apply nkeeps_ret].
  intros h. apply safe_bind; [apply safe_recv_from|]. intros; apply safe_ret.
Qed.
Lemma fits_listen fd : c_int fd → fits (id ← Socket_from_fd fd; _ ← Socket_listen id; mret (0, tt)).
Proof.
  intros Hfd m. apply (nkeeps_socket m fd (λ _, True)); [done|intros; apply safe_throw|apply returns_any|intros; apply nkeeps_ret].
Qed.
Lemma fits_shutdown fd : c_int fd → fits (id ← Socket_from_fd fd; _ ← Socket_shutdown id; mret (0, tt)).
Proof.
  intros Hfd m. apply (nkeeps_socket m fd (λ _, True)); [done| |apply returns_any|intros; apply nkeeps_ret].
  intros h. apply safe_bind; [apply safe_linux, udp_peer_addr_ok|]. intros _. by apply (safe_to h UShutdown).
Qed.
Lemma fits_name fd fu ft :
  c_int fd → (∀ h, safe h fu) ∧ returns v4 fu →
  fits (id ← Socket_from_fd fd; a ← on_sock id (to_linux fu) ft; r ← into_sockaddr a; mret (0, Some r)).
Proof.
  intros Hfd [Hs Hr] m. apply (nkeeps_socket m fd v4); [done|intros; by apply safe_linux|by apply returns_linux|].
  intros a Ha. apply nkeeps_into; [done|]. intros; apply nkeeps_ret.
Qed.
(** Accepting fails before a connection is taken. *)
Lemma fits_accept {C} fuel fd (k : TcpSocket → NM C) : c_int fd → fits (id ← Socket_from_fd fd; t ← Socket_accept fuel id; k t).
Proof. intros Hfd m. apply (nkeeps_socket m fd (λ _, False)); [done|intros; apply safe_throw|by intros s|done]. Qed.

Lemma socket_call_ok m d t p : wrap 32 t ≠ SOCK_STREAM → ∀ s, nwf m s →
  match nfst (sys_socket d t p) s with (Ok _, s') => some_nwf s' | (Err e, _) => match e with end | (Panic, _) => False | _ => True end.
Proof.
  intros Ht s Hs. unfold sys_socket. rewrite (proj2 (Z.eqb_neq (wrap 32 t) SOCK_STREAM)) by done. rewrite andb_false_r. cbn [andb].
  apply (nfst_syscall (nwf m) _ _ some_nwf some_nwf); [|done..]. destruct (_ && _)%bool; [|by apply nkeeps_some, nkeeps_throw].
  intros s0 Hs0. pose proof (new_udp_triple m s0 Hs0) as H. unfold mbind, M_bind in *.
  destruct (on_n_net (to_linux UdpSocket_new) s0) as [[u|e| |] s1]; try done; [|by exists m].
  destruct (Socket_add_to_fd_table (Udp u) s1) as [[fd|e| |] s2]; try done; [|by exists m]. destruct H as (id & _ & H). by eexists.
Qed.
Lemma close_call_ok m fd : c_int fd → ∀ s, nwf m s →
  match nfst (net_close fd) s with (Ok _, s') => some_nwf s' | (Err e, _) => match e with end | (Panic, _) => False | _ => True end.
Proof.
  intros Hfd s Hs. unfold net_close. destruct (_ && _)%bool; [by exists m|].
  apply (nfst_syscall (nwf m) _ _ some_nwf some_nwf); [|done..].
  eapply ntriple_bind; [intros s0 Hs0; pose proof (nremove_triple m fd Hfd s0 Hs0) as H; destruct (on_n_table _ s0) as [[f|e| |] s1]; try done; [exact H|by exists m]|].
  intros f. apply ntriple_pure. intros _ s0 Hs0. pose proof (narc_drop_triple (delete fd m) f s0 Hs0) as H. unfold mbind, M_bind.
  destruct (narc_drop f s0) as [[u|e| |] s1]; try done. by exists (delete fd m).
Qed.
Lemma dup_call_ok m fd : c_int fd → ∀ s, nwf m s →
  match nfst (net_dup fd) s with (Ok _, s') => some_nwf s' | (Err e, _) => match e with end | (Panic, _) => False | _ => True end.
Proof.
  intros Hfd s Hs. unfold net_dup. apply (nfst_syscall (nwf m) _ _ some_nwf some_nwf); [|done..]. intros s0 Hs0. unfold mbind, M_bind.
  pose proof (nget_triple m fd Hfd s0 Hs0) as H. destruct (on_n_table _ s0) as [[f|e| |] s1]; try done; [|by exists m]. destruct H as [Hm H].
  pose proof (narc_clone_triple m fd f Hm s1 H) as H2. destruct (narc_clone f s1) as [[u|e| |] s2]; try done.
  pose proof (nadd_triple m f s2 H2) as H3. destruct (nadd_or_drop f s2) as [[x|e| |] s3]; try done; [destruct H3 as [_ H3]|]; by eexists.
Qed.
Lemma fits_call {A} (d : A) (x : NM (Z * A)) m s : fits x → nwf m s →
  match nfst (syscall d x) s with (Ok _, s') => some_nwf s' | (Err e, _) => match e with end | (Panic, _) => False | _ => True end.
Proof. intros H Hs. apply (nfst_syscall (nwf m) _ _ some_nwf some_nwf); [apply nkeeps_some, H|done..]. Qed.
Lemma run_ncall_ok fuel c s : udp_call c → some_nwf s →
  match run_ncall fuel c s with (Ok _, s') => some_nwf s' | (Err e, _) => match e with end | (Panic, _) => False | _ => True end.
Proof.
  intros Hc [m Hs]. assert (∀ A e, fits (A := A) (throw e)) as Hthrow by (intros A e m'; apply nkeeps_throw).
  destruct c; cbn [run_ncall udp_call] in *.
  - by apply (socket_call_ok m).
  - eapply fits_call; [by apply fits_bind|exact Hs].
  - eapply fits_call; [by apply fits_connect|exact Hs].
  - eapply fits_call; [destruct buf; [by apply fits_sendto|done]|exact Hs].
  - eapply fits_call; [destruct buf; [by apply fits_send|done]|exact Hs].
  - eapply fits_call; [destruct null; [done|by apply fits_recvfrom]|exact Hs].
  - eapply fits_call; [destruct null; [done|by apply fits_recv]|exact Hs].
  - eapply fits_call; [by apply fits_listen|exact Hs].
  - eapply fits_call; [destruct null; [done|by apply fits_accept]|exact Hs].
  - eapply fits_call; [by apply fits_shutdown|exact Hs].
  - eapply fits_call; [destruct addrlen as [l|]; [|done]; destruct (l <? _); [done|]; by apply fits_name, udp_local_addr_ok|exact Hs].
  - eapply fits_call; [destruct addrlen as [l|]; [|done]; destruct (l <? _); [done|]; by apply fits_name, udp_peer_addr_ok|exact Hs].
  - by apply (close_call_ok m).
  - by apply (dup_call_ok m).
Qed.

(** The results of a sequence of calls. *)
Fixpoint run_ncalls (fuel : nat) (cs : list NCall) : M NState NoError (list Z) :=
  match cs with [] => mret [] | c :: cs => r ← run_ncall fuel c; rs ← run_ncalls fuel cs; mret (r :: rs) end.
Lemma nwf_sockets m s : nwf m s → ∀ id, is_Some (n_socks s !! id) ↔ ∃ fd, m !! fd = Some (NSocket id).
Proof.
  intros Hw id. pose proof (ni_count _ _ _ Hw id) as Hc. rewrite Z.add_0_r in Hc. split.
  - intros [o Ho]. rewrite Ho in Hc. cbn in Hc. case_decide as H0; [done|].
    destruct (map_choose (filter (λ kv, kv.2 = NSocket id) m)) as (fd & f & Hf).
    { intros E. apply H0. unfold nrefs, refs_to. by rewrite E. }
    apply map_lookup_filter_Some in Hf as [Hf Hk]. cbn in Hk. subst f. by exists fd.
  - intros [fd Hf]. pose proof (nrefs_pos m fd id Hf). rewrite decide_False in Hc by lia.
    destruct (n_socks s !! id); [by eexists|done].
Qed.
(** C16: No sequence of socket calls of a program that uses UDP sockets panics, whatever the arguments and the network: every call
    answers, unless it waits for the network for ever.  At the end the sockets are those that descriptors refer to: none is
    dropped early and none is kept without a descriptor. *)
Theorem udp_program_safe fuel m s cs :
  nwf m s → Forall udp_call cs →
  match run_ncalls fuel cs s with
  | (Ok rs, s') => length rs = length cs ∧ ∃ m', nwf m' s' ∧ ∀ id, is_Some (n_socks s' !! id) ↔ ∃ fd, m' !! fd = Some (NSocket id)
  | (OutOfFuel, _) => True
  | _ => False
  end.
Proof.
  intros Hs Hcs. revert m s Hs. induction Hcs as [|c cs Hc _ IH]; intros m s Hs.
  - split; [done|]. exists m. split; [done|by apply nwf_sockets].
  - cbn [run_ncalls]. unfold mbind, M_bind. pose proof (run_ncall_ok fuel c s Hc (ex_intro _ m Hs)) as H.
    destruct (run_ncall fuel c s) as [[r|[]| |] s1]; try done. destruct H as [m1 H1]. specialize (IH m1 s1 H1).
    destruct (run_ncalls fuel cs s1) as [[rs|e| |] s2]; try done. destruct IH as [Hl IH]. split; [cbn; lia|done].
Qed.

(** C39: A socket that is connected receives with [sys_recv] a datagram that someone else than the peer sent, which
    [UdpSocket::recv] refuses. *)
Theorem udp_recv_ignores_peer fuel m s fd id k u x x' n data meta remote :
  fo_rep AX_FILE_LIMIT (n_table s) m → c_int fd → m !! fd = Some (NSocket id) →
  n_socks s !! id = Some {| os_inner := Udp u; os_strong := k |} → is_Some (us_local u) → us_peer u = Some remote → us_nonblock u = true →
  ss_get (us_handle u) (sockets (n_net s)) = Some (UdpS x) → udp_can_recv x = true → udp_recv_slice n x = (x', Some (data, meta)) →
  ¬ from_peer remote meta →
  (sys_recv fuel fd false n s).1 = Ok (len data, data) ∧ (udp_socket_recv fuel n (n_net s, u)).1 = Err WouldBlock.
Proof.
  intros Ht Hfd Hm Ho [l Hl] Hp Hb Hx Hc Hr Hne.
  assert (∀ A (op : SocketHandle → M (Net * UdpSocket) AxError A), udp_recv_impl fuel op (n_net s, u) = op (us_handle u) (n_net s, u)) as Himpl.
  { intros A op. unfold udp_recv_impl, udp_block_on, udp_recv_try, gets, on_fst, with_udp, mbind, M_bind. cbn. rewrite Hl. cbn. rewrite Hb. cbn. rewrite Hx. cbn. by rewrite Hc. }
  assert (with_udp_mut (us_handle u) (udp_recv_slice n) (n_net s) =
    (Ok (Some (data, meta)), set_sockets (ss_set (us_handle u) (UdpS x') (sockets (n_net s))) (n_net s))) as Hw.
  { unfold with_udp_mut, with_udp, mbind, M_bind. rewrite Hx. cbn. by rewrite Hr. }
  split.
  - unfold sys_recv, syscall, Socket_from_fd, Socket_recv, on_n_table, mbind, M_bind. rewrite (get_file_like_ok _ m fd Ht Hfd), Hm.
    cbn. unfold on_sock. cbn [n_socks n_net]. rewrite Ho. cbn [os_inner]. unfold to_linux, udp_recv_from. rewrite Himpl.
    unfold recv_from_op, on_fst, mbind, M_bind. cbn [fst snd]. rewrite Hw. done.
  - unfold udp_socket_recv, udp_remote_endpoint, gets, mbind, M_bind. cbn. rewrite Hp. cbn. rewrite Himpl.
    unfold recv_op, on_fst, mbind, M_bind. cbn [fst snd]. rewrite Hw. cbn. unfold from_peer in Hne.
    destruct (negb (is_unspecified _) && _)%bool eqn:E1; [done|]. destruct (negb (ep_port remote =? 0) && _)%bool eqn:E2; [done|]. destruct Hne.
    split; [apply andb_false_iff in E1 as [E|E]|apply andb_false_iff in E2 as [E|E]]; apply negb_false_iff in E.
    + left. by apply bool_decide_eq_true in E.
    + right. by apply bool_decide_eq_true in E.
    + left. by apply Z.eqb_eq.
    + right. by apply Z.eqb_eq.
Qed.
End udp.

(** ** Examples *)

Definition net_fds : FlattenObjects NFile (gset Z) :=
  match fd_table_new NOther NOther NOther with Ok t => t | _ => {| objects := []; id_bitmap := ∅; count := 0 |} end.
Definition net_map : gmap Z NFile := <[2 := NOther]> (<[1 := NOther]> (<[0 := NOther]> ∅)).
Lemma net_fds_rep : fo_rep AX_FILE_LIMIT net_fds net_map.
Proof.
  destruct (fd_table_new_ok (B := gset Z) NOther NOther NOther) as (t&Ht&HR).
  assert (net_fds = t) as -> by (unfold net_fds; rewrite Ht; reflexivity). exact HR.
Qed.
(** A program before it makes a socket, on a network that delivers two datagrams. *)
Definition example_net : NState (B := gset Z) := {| n_table := net_fds; n_socks := ∅; n_net := net_init demo_udp_world |}.
Lemma example_net_wf : nwf net_map example_net.
Proof.
  split; cbn; [exact net_fds_rep| |by intros id o; rewrite lookup_empty|by intros id id' u u' Hu; unfold udp_at in Hu; cbn in Hu; rewrite lookup_empty in Hu].
  intros id. unfold nrefs, net_map. rewrite !refs_to_insert by reflexivity. reflexivity.
Qed.
Definition example_peer : sockaddr_in := sockaddr_in_from (10, 0, 2, 2) 7.
Definition example_calls : list NCall :=
  [NSock 2 2 0; NBind 3 (Some (sockaddr_in_from (0, 0, 0, 0) 5000)) 16; NConnect 3 (Some example_peer) 16; NSend 3 (Some [1; 2]);
   NRecv 3 false 10; NDup 3; NClose 3; NGetpeername 4 (Some 16); NListen 4; NClose 4; NRecv 4 false 1; NSock 1 2 0].
Lemma udp_program_safe_witness :
  (run_ncalls 3 example_calls example_net).1 = Ok [3; 0; 0; 2; 1; 4; 0; 0; -95; 0; -9; -22] ∧
  ∃ s' m', run_ncalls 3 example_calls example_net = (Ok [3; 0; 0; 2; 1; 4; 0; 0; -95; 0; -9; -22], s') ∧ nwf m' s'.
Proof.
  assert ((run_ncalls 3 example_calls example_net).1 = Ok [3; 0; 0; 2; 1; 4; 0; 0; -95; 0; -9; -22]) as E by (vm_compute; reflexivity).
  split; [exact E|]. pose proof (udp_program_safe 3 net_map example_net example_calls example_net_wf) as H.
  destruct (run_ncalls 3 example_calls example_net) as [r s']. cbn [fst] in E. subst r.
  destruct H as [_ (m' & Hm & _)]; [repeat constructor; unfold c_int; try lia; by vm_compute|]. exists s', m'. split; [reflexivity|exact Hm].
Defined.
Lemma addrinfo_list_linked_witness :
  ∃ out, addrinfo_list (IpV4 <$> [(10, 0, 2, 2); (10, 0, 2, 3)]) 80 tt = (Ok (2, out), tt) ∧ follow 2 (Some 0%nat) out = out ∧
    sys_freeaddrinfo (out !! 0%nat) tt = (Ok 2, tt).
Proof.
  destruct (addrinfo_list_linked tt [(10, 0, 2, 2); (10, 0, 2, 3)] 80) as (out & E & _ & Hw & _ & _ & Hf); [done|].
  exists out. split; [exact E|]. split; [exact Hw|exact Hf].
Defined.
(** A connected socket whose first datagram comes from another port of the peer's machine. *)
Definition example_udp : UdpSocket :=
  {| us_handle := 0%nat; us_local := Some {| ep_addr := Ipv4 (0, 0, 0, 0); ep_port := 5000 |};
     us_peer := Some {| ep_addr := Ipv4 (10, 0, 2, 2); ep_port := 7 |}; us_nonblock := true |}.
Definition example_rx : DemoUdp := demo_dgram [1] 9 {| u_bound := None; u_rx := []; u_tx := [] |}.
Definition example_recv : NState (B := gset Z) :=
  {| n_table := (add_file_like (NSocket 0) net_fds).2; n_socks := {[0%nat := {| os_inner := Udp example_udp; os_strong := 1 |}]};
     n_net := set_sockets [Some (UdpS example_rx)] (net_init []) |}.
Lemma udp_recv_ignores_peer_witness :
  (sys_recv 0 3 false 10 example_recv).1 = Ok (1, [1]) ∧ (udp_socket_recv 0 10 (n_net example_recv, example_udp)).1 = Err WouldBlock.
Proof.
  destruct (add_file_like_ok net_fds net_map (NSocket 0) net_fds_rep) as [(fd & t' & E & _ & _ & _ & Ht)|[E _]].
  2: { exfalso. apply (f_equal fst) in E. by vm_compute in E. }
  assert (fd = 3) as -> by (apply (f_equal fst) in E; vm_compute in E; congruence).
  apply (udp_recv_ignores_peer 0 (<[3 := NSocket 0]> net_map) example_recv 3 0 1 example_udp example_rx
    {| u_bound := None; u_rx := []; u_tx := [] |} 10 [1] {| ep_addr := Ipv4 (10, 0, 2, 2); ep_port := 9 |}
    {| ep_addr := Ipv4 (10, 0, 2, 2); ep_port := 7 |}); try reflexivity.
  - unfold example_recv. cbn [n_table]. rewrite E. exact Ht.
  - unfold c_int. lia.
  - by eexists.
  - intros [_ [H|H]]; discriminate H.
Defined.
