(* ===== verification/Strftime.v ===== *)
(** * Dates of the C library ([ulib/axlibc/src/mktime.rs], [strftime.rs])

    The time of a date, which inverts [gmtime_r] of [CTime], and the text of a date.  An index out of range is [Panic]. *)

From Stdlib Require Import ZArith Lia.
From stdpp Require Import base decidable numbers gmap list.
From S2P Require Import Prelude LinkedList CTime.

Local Open Scope Z_scope.

(** ** [mktime] *)

Local Abbreviation TM := (M unit NoError).
Definition MONTH_DAYS : list (list Z) :=
  [[31; 28; 31; 30; 31; 30; 31; 31; 30; 31; 30; 31]; [31; 29; 31; 30; 31; 30; 31; 31; 30; 31; 30; 31]].
Definition rs_leap_year (year : Z) : bool := ((Z.rem year 4 =? 0) && (negb (Z.rem year 100 =? 0) || (Z.rem year 400 =? 0)))%bool.
Definition month_days (leap : nat) (month : Z) : TM Z :=
  row ← unwrap (MONTH_DAYS !! leap); if month <? 0 then panic else unwrap (row !! Z.to_nat month).
(** The four loops. *)
Fixpoint year_up (fuel : nat) (year day : Z) : TM Z :=
  match fuel with
  | O => out_of_fuel
  | S fuel => if year <? 1969 then year_up fuel (year + 1) (day + if rs_leap_year (year + 1) then 366 else 365) else mret day
  end.
Fixpoint month_up (fuel leap : nat) (month day : Z) : TM Z :=
  match fuel with
  | O => out_of_fuel
  | S fuel => if month <? 11 then d ← month_days leap (month + 1); month_up fuel leap (month + 1) (day + d) else mret day
  end.
Fixpoint year_down (fuel : nat) (year day : Z) : TM Z :=
  match fuel with
  | O => out_of_fuel
  | S fuel => if 1970 <? year then year_down fuel (year - 1) (day + if rs_leap_year (year - 1) then 366 else 365) else mret day
  end.
Fixpoint month_down (fuel leap : nat) (month day : Z) : TM Z :=
  match fuel with
  | O => out_of_fuel
  | S fuel => if 0 <? month then d ← month_days leap (month - 1); month_down fuel leap (month - 1) (day + d) else mret day
  end.
(** An [i32] or [i64] wraps around; the fuel is enough for the loops. *)
Definition wrap_i32 (x : Z) : Z := (x + 2 ^ 31) mod 2 ^ 32 - 2 ^ 31.
Definition mktime (t : tm) : TM Z :=
  let year := wrap_i32 (tm_year t + 1900) in
  let month := tm_mon t in
  let day := tm_mday t - 1 in
  let leap := if rs_leap_year year then 1%nat else 0%nat in
  let time := tm_hour t * 3600 + tm_min t * 60 + tm_sec t in
  if year <? 1970 then
    d ← month_days leap month;
    day ← year_up (S (Z.to_nat (1969 - year))) year (d - day);
    day ← month_up (S (Z.to_nat (11 - month))) leap month day;
    mret (- (day * 86400 - time))
  else
    day ← year_down (S (Z.to_nat (year - 1970))) year day;
    day ← month_down (S (Z.to_nat month)) leap month day;
    mret (day * 86400 + time).

(** ** [mktime] inverts [gmtime_r] *)

Lemma rem_mod_zero x n : n ≠ 0 → (Z.rem x n =? 0) = (x mod n =? 0).
Proof.
  intros Hn. apply eq_true_iff_eq. rewrite !Z.eqb_eq. rewrite Z.rem_divide, Z.mod_divide by done. done.
Qed.
Lemma rs_leap_year_ok y : rs_leap_year y = leap_year y.
Proof.
  unfold rs_leap_year, leap_year. rewrite !rem_mod_zero by lia.
  assert (y mod 400 = 0 → y mod 100 = 0) by (Z.div_mod_to_equations; lia).
  assert (y mod 100 = 0 → y mod 4 = 0) by (Z.div_mod_to_equations; lia).
  destruct (Z.eqb_spec (y mod 4) 0), (Z.eqb_spec (y mod 100) 0), (Z.eqb_spec (y mod 400) 0); cbn; lia || done.
Qed.
Lemma year_length y : (if rs_leap_year y then 366 else 365) = days_before_year (y + 1) - days_before_year y.
Proof. rewrite days_next_year, rs_leap_year_ok. destruct (leap_year y); cbn; lia. Qed.
Lemma year_up_ok n y day : y + Z.of_nat n = 1969 →
  year_up (S n) y day tt = (Ok (day - days_before_year (y + 1)), tt).
Proof.
  revert y day. induction n as [|n IH]; intros y day Hy; cbn [year_up].
  - rewrite (proj2 (Z.ltb_ge y 1969)) by lia. replace (y + 1) with 1970 by lia. unfold mret, M_ret. by rewrite Z.sub_0_r.
  - rewrite (proj2 (Z.ltb_lt y 1969)), year_length by lia. change (year_up (S n) (y + 1) (day + (days_before_year (y + 1 + 1) - days_before_year (y + 1))) tt = (Ok (day - days_before_year (y + 1)), tt)).
    rewrite IH by lia. do 2 f_equal. lia.
Qed.
Lemma year_down_ok n y day : y - Z.of_nat n = 1970 →
  year_down (S n) y day tt = (Ok (day + days_before_year y), tt).
Proof.
  revert y day. induction n as [|n IH]; intros y day Hy; cbn [year_down].
  - rewrite (proj2 (Z.ltb_ge 1970 y)) by lia. replace y with 1970 by lia. unfold mret, M_ret. by rewrite Z.add_0_r.
  - rewrite (proj2 (Z.ltb_lt 1970 y)), year_length by lia. replace (y - 1 + 1) with y by lia.
    change (year_down (S n) (y - 1) (day + (days_before_year y - days_before_year (y - 1))) tt = (Ok (day + days_before_year y), tt)).
    rewrite IH by lia. do 2 f_equal. lia.
Qed.
Definition leap_index (leap : bool) : nat := if leap then 1%nat else 0%nat.
Lemma month_days_ok leap mon : 0 ≤ mon < 12 → month_days (leap_index leap) mon tt = (Ok (default 0 (month_lengths leap !! Z.to_nat mon)), tt).
Proof. intros H%twelve. destruct leap; repeat destruct H as [->|H]; subst; reflexivity. Qed.
Lemma days_next_month leap mon : 0 ≤ mon < 12 →
  days_before_month leap (mon + 1) = days_before_month leap mon + default 0 (month_lengths leap !! Z.to_nat mon).
Proof. intros H%twelve. destruct leap; repeat destruct H as [->|H]; subst; reflexivity. Qed.
Lemma month_up_ok leap n : ∀ mon day, 0 ≤ mon → mon + Z.of_nat n = 11 →
  month_up (S n) (leap_index leap) mon day tt = (Ok (day + (365 + Z.b2z leap) - days_before_month leap (mon + 1)), tt).
Proof.
  induction n as [|n IH]; intros mon day Hm Hn.
  - cbn [month_up]. rewrite (proj2 (Z.ltb_ge mon 11)) by lia. replace (mon + 1) with 12 by lia. unfold mret, M_ret. do 2 f_equal.
    destruct leap; [change (days_before_month true 12) with 366|change (days_before_month false 12) with 365]; cbn [Z.b2z]; lia.
  - remember (S n) as k. cbn [month_up]. subst k. rewrite (proj2 (Z.ltb_lt mon 11)) by lia. erewrite M_bind_ok by (apply month_days_ok; lia).
    rewrite IH by lia. rewrite (days_next_month leap (mon + 1)) by lia. do 2 f_equal. lia.
Qed.
Lemma month_down_ok leap n : ∀ mon day, mon < 12 → mon = Z.of_nat n →
  month_down (S n) (leap_index leap) mon day tt = (Ok (day + days_before_month leap mon), tt).
Proof.
  induction n as [|n IH]; intros mon day Hm Hn.
  - subst mon. cbn [month_down]. unfold mret, M_ret. cbn. by rewrite Z.add_0_r.
  - remember (S n) as k. cbn [month_down]. subst k. rewrite (proj2 (Z.ltb_lt 0 mon)) by lia. erewrite M_bind_ok by (apply month_days_ok; lia).
    rewrite IH by lia. pose proof (days_next_month leap (mon - 1) ltac:(lia)) as E. replace (mon - 1 + 1) with mon in E by lia.
    rewrite E. do 2 f_equal. lia.
Qed.
Lemma mktime_ok r : valid_tm r → INT_MIN ≤ tm_year r ≤ INT_MAX - 1900 → mktime r tt = (Ok (unix_time r), tt).
Proof.
  intros V Hy. destruct V as [Hs Hm Hh Hmo Hd Hyd _ _]. unfold mktime. rewrite rs_leap_year_ok.
  assert (wrap_i32 (tm_year r + 1900) = year_of r) as -> by (unfold wrap_i32, year_of, INT_MIN, INT_MAX in *; rewrite Z.mod_small; lia).
  fold (leap_index (leap_year (year_of r))). unfold unix_time, day_of. rewrite Hyd. destruct (Z.ltb_spec (year_of r) 1970).
  - erewrite M_bind_ok by (by apply month_days_ok). erewrite M_bind_ok by (apply year_up_ok; lia).
    erewrite M_bind_ok by (apply month_up_ok; lia). unfold mret, M_ret. rewrite days_next_year, days_next_month by done. do 2 f_equal. lia.
  - erewrite M_bind_ok by (apply year_down_ok; lia). erewrite M_bind_ok by (apply month_down_ok; lia). unfold mret, M_ret. do 2 f_equal. lia.
Qed.
(** C21: [mktime] inverts [gmtime_r]: it ends, and gives back the time that a date was made from, before and after 1970, for every
    time that [gmtime_r] converts to a year whose number fits an [int]. *)
Theorem mktime_inverts_gmtime isdst t r :
  gmtime_r isdst t tt = (Ok (inr r), tt) → tm_year r ≤ INT_MAX - 1900 → mktime r tt = (Ok t, tt).
Proof.
  intros E Hy. unfold gmtime_r, mbind, M_bind in E. destruct (decide (INT_MIN * 31622400 ≤ t ≤ INT_MAX * 31622400)) as [Hb|Hb].
  - destruct (secs_to_tm_ok isdst t Hb) as (r' & V & Et & Er). rewrite Er in E. destruct (_ || _)%bool eqn:Ef; [done|].
    assert (r = r') as ->.
    { injection E as <-. destruct V as [_ _ _ _ _ _ _ Hd]. destruct r'. cbn in Hd. by subst. }
    rewrite <-Et. apply mktime_ok; [done|]. apply orb_false_iff in Ef as [? Hlt%Z.ltb_ge]. lia.
  - unfold secs_to_tm in E. replace (_ || _)%bool with true in E by lia. done.
Qed.
Lemma mktime_inverts_gmtime_witness : ∃ r, gmtime_r 0 (-1) tt = (Ok (inr r), tt) ∧ mktime r tt = (Ok (-1), tt).
Proof.
  destruct (gmtime_r 0 (-1) tt) as [[[e|r]| | |] []] eqn:E; [by vm_compute in E| |by vm_compute in E..]. exists r. split; [reflexivity|].
  apply (mktime_inverts_gmtime 0 (-1) r E). assert (tm_year r = 69) as -> by (vm_compute in E; by injection E as <-). unfold INT_MAX. lia.
Defined.

(** ** [strftime] *)

(** [CountingWriter<StringWriter>]: the buffer, the place of the pointer in it, the size that is left, and the count. *)
Record Writer : Set := { w_buf : list Z; w_pos : nat; w_left : Z; w_written : Z }.
Local Abbreviation WM := (M Writer NoError).
(** [StringWriter::write] below [CountingWriter]. *)
Definition sw_write (l : list Z) : WM unit := modify (λ w,
  let n := Z.of_nat (length l) in
  if 1 <? w_left w then
    let k := Z.to_nat (Z.min n (w_left w - 1)) in
    let pos := (w_pos w + k)%nat in
    {| w_buf := take (w_pos w) (w_buf w) ++ take k l ++ [0] ++ drop (S pos) (w_buf w); w_pos := pos;
       w_left := w_left w - Z.of_nat k; w_written := w_written w + n |}
  else {| w_buf := w_buf w; w_pos := w_pos w; w_left := w_left w; w_written := w_written w + n |}).

(** The texts of [write!]: decimal digits, padded with zeros behind the sign, or with blanks before it. *)
Fixpoint dec_loop (fuel : nat) (n : Z) (acc : list Z) : list Z :=
  match fuel with
  | O => acc
  | S fuel => let acc := (48 + n mod 10) :: acc in if n / 10 =? 0 then acc else dec_loop fuel (n / 10) acc
  end.
Definition dec_digits (n : Z) : list Z := dec_loop 20 n [].
Definition fmt_zero (width : nat) (n : Z) : list Z :=
  let sign := if n <? 0 then [45] else [] in
  let ds := dec_digits (Z.abs n) in
  sign ++ replicate (width - (length sign + length ds)) 48 ++ ds.
Definition fmt_blank (width : nat) (n : Z) : list Z := let l := fmt_zero 0 n in replicate (width - length l) 32 ++ l.

Definition WDAYS : list (list Z) :=
  [[83; 117; 110; 100; 97; 121]; [77; 111; 110; 100; 97; 121]; [84; 117; 101; 115; 100; 97; 121];
   [87; 101; 100; 110; 101; 115; 100; 97; 121]; [84; 104; 117; 114; 115; 100; 97; 121]; [70; 114; 105; 100; 97; 121];
   [83; 97; 116; 117; 114; 100; 97; 121]].
(** The second month is written [Febuary]. *)
Definition MONTHS : list (list Z) :=
  [[74; 97; 110; 117; 97; 114; 121]; [70; 101; 98; 117; 97; 114; 121]; [77; 97; 114; 99; 104]; [65; 112; 114; 105; 108];
   [77; 97; 121]; [74; 117; 110; 101]; [74; 117; 108; 121]; [65; 117; 103; 117; 115; 116];
   [83; 101; 112; 116; 101; 109; 98; 101; 114]; [79; 99; 116; 111; 98; 101; 114]; [78; 111; 118; 101; 109; 98; 101; 114];
   [68; 101; 99; 101; 109; 98; 101; 114]].
Definition index_ (l : list (list Z)) (i : Z) : WM (list Z) := if i <? 0 then panic else unwrap (l !! Z.to_nat i).
Definition no_state {A} (m : M unit NoError A) : WM A := λ w, ((m tt).1, w).
Definition i32_rem (x n : Z) : Z := Z.rem (wrap_i32 x) n.
Definition i32_quot (x n : Z) : Z := Z.quot (wrap_i32 x) n.
Definition hour12 (t : tm) : Z := i32_rem (tm_hour t + 12 - 1) 12 + 1.
Definition century (t : tm) : Z :=
  wrap_i32 (Z.quot (tm_year t) 100 + (if Z.rem (tm_year t) 100 =? 0 then 0 else 1) + 19).

(** The strings of the directives that recurse. *)
Definition fmt_D : list Z := [37; 109; 47; 37; 100; 47; 37; 121].
Definition fmt_F : list Z := [37; 89; 45; 37; 109; 45; 37; 100].
Definition fmt_r : list Z := [37; 73; 58; 37; 77; 58; 37; 83; 32; 37; 112].
Definition fmt_R : list Z := [37; 72; 58; 37; 77].
Definition fmt_T : list Z := [37; 72; 58; 37; 77; 58; 37; 83].
Definition fmt_plus : list Z := [37; 97; 32; 37; 98; 32; 37; 100; 32; 37; 84; 32; 37; 90; 32; 37; 89].

(** What a directive does: text, a name from a table, a format, the time, or nothing that is known. *)
Inductive Action : Set := AText (l : list Z) | AName (l : list (list Z)) (i : Z) (short : bool) | ARecurse (f : list Z) | ATime | AInvalid.
Definition directive (c : Z) (t : tm) : Action :=
  if c =? 37 then AText [37]
  else if c =? 110 then AText [10]
  else if c =? 116 then AText [9]
  else if c =? 97 then AName WDAYS (tm_wday t) true
  else if c =? 65 then AName WDAYS (tm_wday t) false
  else if ((c =? 98) || (c =? 104))%bool then AName MONTHS (tm_mon t) true
  else if c =? 66 then AName MONTHS (tm_mon t) false
  else if c =? 67 then AText (fmt_zero 2 (century t))
  else if c =? 100 then AText (fmt_zero 2 (tm_mday t))
  else if c =? 68 then ARecurse fmt_D
  else if c =? 101 then AText (fmt_blank 2 (tm_mday t))
  else if c =? 70 then ARecurse fmt_F
  else if c =? 72 then AText (fmt_zero 2 (tm_hour t))
  else if c =? 73 then AText (fmt_zero 2 (hour12 t))
  else if c =? 106 then AText (fmt_zero 3 (tm_yday t))
  else if c =? 107 then AText (fmt_blank 2 (tm_hour t))
  else if c =? 108 then AText (fmt_blank 2 (hour12 t))
  else if c =? 109 then AText (fmt_zero 2 (wrap_i32 (tm_mon t + 1)))
  else if c =? 77 then AText (fmt_zero 2 (tm_min t))
  else if c =? 112 then AText (if tm_hour t <? 12 then [65; 77] else [80; 77])
  else if c =? 80 then AText (if tm_hour t <? 12 then [97; 109] else [112; 109])
  else if c =? 114 then ARecurse fmt_r
  else if c =? 82 then ARecurse fmt_R
  else if c =? 115 then ATime
  else if c =? 83 then AText (fmt_zero 2 (tm_sec t))
  else if c =? 84 then ARecurse fmt_T
  else if c =? 117 then AText (fmt_zero 0 (i32_rem (tm_wday t + 7 - 1) 7 + 1))
  else if c =? 85 then AText (fmt_zero 0 (i32_quot (tm_yday t + 7 - tm_wday t) 7))
  else if c =? 119 then AText (fmt_zero 0 (tm_wday t))
  else if c =? 87 then AText (fmt_zero 0 (i32_quot (tm_yday t + 7 - i32_rem (tm_wday t + 6) 7) 7))
  else if c =? 121 then AText (fmt_zero 2 (Z.rem (tm_year t) 100))
  else if c =? 89 then AText (fmt_zero 0 (wrap_i32 (tm_year t + 1900)))
  else if c =? 122 then AText [43; 48; 48; 48; 48]
  else if c =? 90 then AText [85; 84; 67]
  else if c =? 43 then ARecurse fmt_plus
  else AInvalid.

(** [inner_strftime]; the end of the string is the character 0. *)
Fixpoint inner_strftime (fuel : nat) (format : list Z) (t : tm) : WM bool :=
  match fuel with
  | O => out_of_fuel
  | S fuel =>
      match format with
      | [] => mret true
      | c :: format =>
          if negb (c =? 37) then _ ← sw_write [c]; inner_strftime fuel format t
          else
            let format := match format with c :: f => if ((c =? 69) || (c =? 79))%bool then f else format | [] => [] end in
            let rest := drop 1 format in
            match directive (default 0 (head format)) t with
            | AText l => _ ← sw_write l; inner_strftime fuel rest t
            | AName l i short =>
                name ← index_ l i;
                _ ← sw_write (if short then take 3 name else name); inner_strftime fuel rest t
            | ARecurse f =>
                ok ← inner_strftime fuel f t;
                if negb ok then mret false else inner_strftime fuel rest t
            | ATime => x ← no_state (mktime t); _ ← sw_write (fmt_zero 0 x); inner_strftime fuel rest t
            | AInvalid => mret false
            end
      end
  end.
(** The result and the buffer. *)
Definition strftime (buf : list Z) (size : Z) (format : list Z) (t : tm) : res NoError (Z * list Z) :=
  match inner_strftime (length format + 40) format t {| w_buf := buf; w_pos := 0; w_left := size; w_written := 0 |} with
  | (Ok ok, w) => let ret := if ok then w_written w else 0 in Ok (if ret <? size then ret else 0, w_buf w)
  | (Err e, _) => Err e
  | (Panic, _) => Panic
  | (OutOfFuel, _) => OutOfFuel
  end.

(** *** What is in the buffer *)

(** The writer after a text: what fits, with a final zero, unless the text is empty or there is no room for anything. *)
Definition kept (n : Z) (txt : list Z) : nat := Z.to_nat (Z.min (Z.of_nat (length txt)) (n - 1)).
Definition buffer_with (b : list Z) (n : Z) (txt : list Z) : list Z :=
  if ((n <=? 1) || bool_decide (txt = []))%bool then b else take (kept n txt) txt ++ [0] ++ drop (S (kept n txt)) b.
Definition wrote (b : list Z) (n : Z) (txt : list Z) : Writer :=
  {| w_buf := buffer_with b n txt; w_pos := kept n txt; w_left := n - Z.of_nat (kept n txt); w_written := Z.of_nat (length txt) |}.

Lemma buffer_take b n txt : n - Z.of_nat (kept n txt) > 1 → take (length txt) (buffer_with b n txt) = txt.
Proof.
  intros Hk. assert (kept n txt = length txt) as E by (unfold kept in *; lia). unfold buffer_with.
  rewrite (proj2 (Z.leb_gt n 1)) by lia. cbn [orb]. case_bool_decide as Ht; [by subst|].
  rewrite E, firstn_all, take_app_le, firstn_all by lia. done.
Qed.
Lemma buffer_drop b n txt k : (length txt < k)%nat → (kept n txt < k)%nat → drop (S k) (buffer_with b n txt) = drop (S k) b.
Proof.
  intros H1 H2. unfold buffer_with. destruct (_ || _)%bool; [done|]. rewrite drop_app_ge by (rewrite length_take; lia).
  rewrite drop_app_ge by (cbn; rewrite length_take; lia). rewrite drop_drop. f_equal. cbn [length]. rewrite length_take. unfold kept in *. lia.
Qed.
Lemma sw_write_ok b n txt l : l ≠ [] → sw_write l (wrote b n txt) = (Ok tt, wrote b n (txt ++ l)).
Proof.
  intros Hl. assert (0 < length l)%nat as Hl0 by (destruct l; [done|cbn; lia]). unfold sw_write, modify. do 1 f_equal.
  cbn [wrote w_left w_pos w_buf w_written]. assert (txt ++ l ≠ []) as Hne by (intros [_ ?]%app_nil; done).
  destruct (Z.ltb_spec 1 (n - Z.of_nat (kept n txt))) as [H1|H1].
  - assert (kept n txt = length txt) as E by (unfold kept in *; lia).
    set (k := Z.to_nat (Z.min (Z.of_nat (length l)) (n - Z.of_nat (kept n txt) - 1))).
    assert (kept n (txt ++ l) = (length txt + k)%nat) as E' by (unfold kept, k; rewrite length_app; lia).
    unfold wrote. rewrite E', E. f_equal; [|lia|rewrite length_app; lia].
    rewrite buffer_take by lia. rewrite buffer_drop by (unfold k; lia). unfold buffer_with. rewrite (proj2 (Z.leb_gt n 1)) by lia.
    rewrite bool_decide_false by done. cbn [orb]. rewrite E'. rewrite take_app_ge by lia. rewrite <-app_assoc. do 2 f_equal. f_equal. lia.
  - assert (kept n (txt ++ l) = kept n txt) as E' by (unfold kept in *; rewrite length_app; lia). unfold wrote. rewrite E'.
    f_equal; [|rewrite length_app; lia]. unfold buffer_with. destruct (Z.leb_spec n 1); [done|]. cbn [orb].
    assert (txt ≠ []) as Ht by (intros ->; unfold kept in H1; cbn in H1; lia). rewrite !bool_decide_false by done.
    rewrite E', take_app_le; [done|]. unfold kept. lia.
Qed.

(** *** What is written *)

(** Whatever the buffer, the computation ends with [r] and writes [out]. *)
Definition emits {A} (x : WM A) (r : A) (out : list Z) : Prop := ∀ b n txt, x (wrote b n txt) = (Ok r, wrote b n (txt ++ out)).
Definition regular {A} (x : WM A) : Prop := ∃ r out, emits x r out.
Lemma emits_ret {A} (a : A) : emits (mret a) a [].
Proof. intros b n txt. by rewrite app_nil_r. Qed.
Lemma emits_write l : l ≠ [] → emits (sw_write l) tt l.
Proof. intros Hl b n txt. by apply sw_write_ok. Qed.
Lemma emits_bind {A C} (x : WM A) (k : A → WM C) a o1 c o2 : emits x a o1 → emits (k a) c o2 → emits (x ≫= k) c (o1 ++ o2).
Proof. intros Hx Hk b n txt. rewrite (M_bind_ok _ _ _ _ _ (Hx b n txt)), Hk. by rewrite app_assoc. Qed.
Lemma regular_bind {A C} (x : WM A) (k : A → WM C) : regular x → (∀ a, regular (k a)) → regular (x ≫= k).
Proof. intros (a & o1 & Hx) Hk. destruct (Hk a) as (c & o2 & Hc). eexists _, _. by eapply emits_bind. Qed.
Lemma regular_ret {A} (a : A) : regular (mret a).
Proof. eexists _, _. apply emits_ret. Qed.
Lemma regular_write l : l ≠ [] → regular (sw_write l).
Proof. intros Hl. eexists _, _. by apply emits_write. Qed.
Lemma dec_loop_ne fuel n acc : acc ≠ [] → dec_loop fuel n acc ≠ [].
Proof. revert n acc. induction fuel as [|fuel IH]; intros n acc Ha; [done|]. cbn [dec_loop]. case_match; [done|]. by apply IH. Qed.
Lemma dec_digits_ne n : dec_digits n ≠ [].
Proof.
  unfold dec_digits. generalize 19%nat. intros k. change (dec_loop (S k) n [] ≠ []). cbn [dec_loop]. case_match; [done|]. by apply dec_loop_ne.
Qed.
Lemma fmt_zero_ne w n : fmt_zero w n ≠ [].
Proof. unfold fmt_zero. intros [_ [_ E]%app_nil]%app_nil. by eapply dec_digits_ne. Qed.
Lemma fmt_blank_ne w n : fmt_blank w n ≠ [].
Proof. unfold fmt_blank. intros [_ E]%app_nil. by eapply fmt_zero_ne. Qed.
(** Every text that a directive writes has a character, every name is one of the table, and few directives recurse. *)
Definition recursing : list Z := [68; 70; 114; 82; 84; 43].
Definition action_ok (c : Z) (t : tm) (a : Action) : Prop :=
  match a with
  | AText l => l ≠ []
  | AName l i _ => (l = WDAYS ∧ i = tm_wday t) ∨ (l = MONTHS ∧ i = tm_mon t)
  | ARecurse f => c ∈ recursing ∧ (c ≠ 43 → f ∈ [fmt_D; fmt_F; fmt_r; fmt_R; fmt_T]) ∧ (c = 43 → f = fmt_plus)
  | _ => True
  end.
Lemma directive_ok' c t : action_ok c t (directive c t).
Proof.
  unfold directive.
  repeat match goal with
  | |- action_ok _ _ (if ?b then _ else _) =>
      let H := fresh in destruct b eqn:H; [cbn [action_ok];
        first [done|apply fmt_zero_ne|apply fmt_blank_ne|by left|by right|by case_match|
               apply Z.eqb_eq in H; subst c; split_and!; [by apply (bool_decide_unpack _)|intros _; by apply (bool_decide_unpack _)|done]|
               apply Z.eqb_eq in H; subst c; split_and!; [by apply (bool_decide_unpack _)|done|done]]|clear H]
  end; done.
Qed.
Lemma regular_name l i (short : bool) t :
  (l = WDAYS ∧ i = tm_wday t) ∨ (l = MONTHS ∧ i = tm_mon t) → 0 ≤ tm_wday t < 7 → 0 ≤ tm_mon t < 12 →
  ∃ name, take 3 name ≠ [] ∧ emits (index_ l i) name [].
Proof.
  intros Hl Hw Hm.
  assert (∃ name, l !! Z.to_nat i = Some name ∧ take 3 name ≠ [] ∧ 0 ≤ i) as (name & E & Hn & Hi).
  { assert (0 ≤ i ∧ is_Some (l !! Z.to_nat i) ∧ Forall (λ x, take 3 x ≠ []) l) as (Hi & [name E] & Hf).
    { destruct Hl as [[-> ->]|[-> ->]]; (split; [lia|split; [apply lookup_lt_is_Some; cbn; lia|by repeat constructor]]). }
    exists name. split; [done|]. split; [by apply (Forall_lookup_1 _ _ _ _ Hf E)|done]. }
  exists name. split; [done|]. intros b n txt. unfold index_. rewrite (proj2 (Z.ltb_ge i 0)), E by done. unfold unwrap, mret, M_ret. by rewrite app_nil_r.
Qed.

Section dates.
Context (t : tm) (V : valid_tm t) (Hy : INT_MIN ≤ tm_year t ≤ INT_MAX - 1900).

(** A format whose directives recurse only to formats that end. *)
Lemma inner_regular need (R : Z → Prop) :
  R 0 → (∀ c f fuel, directive c t = ARecurse f → R c → (need ≤ fuel)%nat → regular (inner_strftime fuel f t)) →
  ∀ fuel format, Forall R format → (length format + need < fuel)%nat → regular (inner_strftime fuel format t).
Proof.
  intros R0 Hrec. induction fuel as [|fuel IH]; intros format Hf Hl; [lia|]. cbn [inner_strftime].
  destruct format as [|c format]; [apply regular_ret|]. apply Forall_cons in Hf as [Hc Hf]. cbn [length] in Hl. destruct (negb (c =? 37)).
  { apply regular_bind; [by apply regular_write|]. intros _. apply IH; [done|lia]. }
  cbv zeta. set (f' := match format with [] => [] | c0 :: f => if ((c0 =? 69) || (c0 =? 79))%bool then f else format end).
  assert (Forall R f' ∧ (length f' ≤ length format)%nat) as [Hf' Hl'].
  { unfold f'. destruct format as [|c0 f]; [done|]. destruct (_ || _)%bool; [|done]. apply Forall_cons in Hf as [_ Hf]. split; [done|cbn; lia]. }
  assert (regular (inner_strftime fuel (drop 1 f') t)) as Hrest by (apply IH; [by apply Forall_drop|rewrite length_drop; lia]).
  assert (R (default 0 (head f'))) as HR by (destruct f'; [done|by apply Forall_cons in Hf' as [? _]]).
  pose proof (directive_ok' (default 0 (head f')) t) as Ha. destruct (directive (default 0 (head f')) t) as [l|l i short|f| |] eqn:Ed; cbn [action_ok] in Ha.
  - apply regular_bind; [by apply regular_write|done].
  - destruct V as [_ _ _ Hmo _ _ Hw _]. destruct (regular_name l i short t Ha) as (name & Hn & He); [rewrite Hw; by apply Z.mod_pos_bound|done|].
    destruct (regular_bind (sw_write (if short then take 3 name else name)) (λ _, inner_strftime fuel (drop 1 f') t)) as (r & out & Hr); [|done|].
    + apply regular_write. destruct short; [done|]. by intros ->.
    + exists r, ([] ++ out). by eapply emits_bind.
  - apply regular_bind; [apply (Hrec (default 0 (head f'))); [done|done|lia]|]. intros ok. destruct (negb ok); [apply regular_ret|done].
  - apply regular_bind; [|intros x; apply regular_bind; [apply regular_write, fmt_zero_ne|done]].
    exists (unix_time t), []. intros b n txt. unfold no_state. by rewrite mktime_ok, app_nil_r.
  - apply regular_ret.
Qed.
Lemma recurse_inv c f : directive c t = ARecurse f →
  c ∈ recursing ∧ (c ≠ 43 → f ∈ [fmt_D; fmt_F; fmt_r; fmt_R; fmt_T]) ∧ (c = 43 → f = fmt_plus).
Proof. intros E. pose proof (directive_ok' c t) as H. by rewrite E in H. Qed.
Lemma flat_regular fuel f : f ∈ [fmt_D; fmt_F; fmt_r; fmt_R; fmt_T] → (12 ≤ fuel)%nat → regular (inner_strftime fuel f t).
Proof.
  intros Hf Hl. assert (Forall (λ c, c ∉ recursing) f ∧ (length f ≤ 11)%nat) as [Hr Hn].
  { assert (Forall (λ f, Forall (λ c, c ∉ recursing) f ∧ (length f ≤ 11)%nat) [fmt_D; fmt_F; fmt_r; fmt_R; fmt_T]) as H by (by apply (bool_decide_unpack _)).
    by apply (proj1 (Forall_forall _ _) H). }
  apply (inner_regular 0 (λ c, c ∉ recursing)); [by apply (bool_decide_unpack _)| |done|lia].
  intros c f' fuel' E Hc. by destruct (recurse_inv c f' E).
Qed.
Lemma plus_regular fuel : (30 ≤ fuel)%nat → regular (inner_strftime fuel fmt_plus t).
Proof.
  intros Hl. apply (inner_regular 12 (λ c, c ≠ 43)); [done| |by apply (bool_decide_unpack _)|cbn; lia].
  intros c f fuel' E Hc Hn. destruct (recurse_inv c f E) as (_ & H & _). by apply flat_regular; [apply H|].
Qed.
(** Every format ends. *)
Lemma format_regular format : regular (inner_strftime (length format + 40) format t).
Proof.
  apply (inner_regular 30 (λ _, True)); [done| |by apply Forall_true|lia].
  intros c f fuel E _ Hn. destruct (recurse_inv c f E) as (_ & H1 & H2). destruct (decide (c = 43)) as [Hc|Hc].
  - rewrite (H2 Hc). by apply plus_regular.
  - apply flat_regular; [by apply H1|lia].
Qed.
End dates.

Lemma strftime_emits format t ok out buf size :
  emits (inner_strftime (length format + 40) format t) ok out → 0 ≤ size →
  strftime buf size format t =
    Ok (if ((ok : bool) && (Z.of_nat (length out) <? size))%bool then Z.of_nat (length out) else 0, buffer_with buf size out).
Proof.
  intros H Hs. assert (wrote buf size [] = {| w_buf := buf; w_pos := 0; w_left := size; w_written := 0 |}) as E.
  { unfold wrote, buffer_with, kept. cbn. rewrite orb_true_r. replace (Z.to_nat _) with 0%nat by lia. f_equal. lia. }
  unfold strftime. rewrite <-E, H. cbn [app wrote w_written w_buf]. destruct ok; cbn [andb]; [done|]. by destruct (0 <? size).
Qed.

(** C24: [strftime] ends for every format and every date, and never writes outside the [size] bytes of the buffer: the buffer holds the part
    of a text that fits, and the result is the length of the text, or 0 when the text does not fit or the format is refused.
    The text does not depend on the buffer.  A final zero follows what was written when the text is not empty and the size is
    at least 2; otherwise the buffer stays as it was, and no zero is written. *)
Theorem strftime_bounded t format :
  valid_tm t → INT_MIN ≤ tm_year t ≤ INT_MAX - 1900 →
  ∃ (ok : bool) out, ∀ buf size, 0 ≤ size ≤ Z.of_nat (length buf) →
    strftime buf size format t =
      Ok (if (ok && (Z.of_nat (length out) <? size))%bool then Z.of_nat (length out) else 0, buffer_with buf size out) ∧
    length (buffer_with buf size out) = length buf ∧ drop (Z.to_nat size) (buffer_with buf size out) = drop (Z.to_nat size) buf ∧
    (out ≠ [] → 2 ≤ size → buffer_with buf size out !! kept size out = Some 0 ∧ (kept size out < Z.to_nat size)%nat) ∧
    (out = [] ∨ size < 2 → buffer_with buf size out = buf).
Proof.
  intros V Hy. destruct (format_regular t V Hy format) as (ok & out & H). exists ok, out. intros buf size Hs.
  split_and!; [apply strftime_emits; [done|lia]|..].
  - unfold buffer_with. destruct (Z.leb_spec size 1); [done|]. cbn [orb]. case_bool_decide; [done|]. rewrite !length_app, length_take, length_drop. cbn. unfold kept. lia.
  - unfold buffer_with. destruct (Z.leb_spec size 1); [done|]. cbn [orb]. case_bool_decide; [done|]. rewrite app_assoc, drop_app_ge by (rewrite length_app, length_take; cbn; unfold kept; lia).
    rewrite drop_drop. f_equal. rewrite length_app, length_take. cbn. unfold kept. lia.
  - intros Hne H2. unfold buffer_with. rewrite (proj2 (Z.leb_gt size 1)), bool_decide_false by (done || lia). cbn [orb].
    assert (kept size out ≤ length out)%nat by (unfold kept; lia). split; [|unfold kept; lia].
    rewrite lookup_app_r by (rewrite length_take; lia). by rewrite length_take, Nat.min_l, Nat.sub_diag by lia.
  - intros [->|Hlt]; unfold buffer_with; [by rewrite bool_decide_true, orb_true_r|by rewrite (proj2 (Z.leb_le size 1)) by lia].
Qed.

(** *** A date in the order of ISO 8601 *)

Definition two_digits (v : Z) : list Z := [48 + v / 10; 48 + v mod 10].
Definition four_digits (v : Z) : list Z := [48 + v / 1000; 48 + v / 100 mod 10; 48 + v / 10 mod 10; 48 + v mod 10].
Definition iso_text (t : tm) : list Z :=
  four_digits (year_of t) ++ [45] ++ two_digits (tm_mon t + 1) ++ [45] ++ two_digits (tm_mday t) ++ [32] ++
  two_digits (tm_hour t) ++ [58] ++ two_digits (tm_min t) ++ [58] ++ two_digits (tm_sec t).
(** [%F %T] *)
Definition fmt_iso : list Z := [37; 70; 32; 37; 84].

Definition two_ok (v : Z) : bool := bool_decide (fmt_zero 2 v = two_digits v).
Lemma fmt_two v : 0 ≤ v < 100 → fmt_zero 2 v = two_digits v.
Proof. intros Hv. assert (two_ok v = true) as H%bool_decide_eq_true by (apply (all_from_spec two_ok 100 0); [vm_compute; reflexivity|lia]). done. Qed.
Definition four_ok (v : Z) : bool := bool_decide (fmt_zero 0 v = four_digits v).
Lemma fmt_four v : 1000 ≤ v < 10000 → fmt_zero 0 v = four_digits v.
Proof. intros Hv. assert (four_ok v = true) as H%bool_decide_eq_true by (apply (all_from_spec four_ok (Z.to_nat 9000) 1000); [vm_compute; reflexivity|rewrite Z2Nat.id by lia; lia]). done. Qed.

Lemma emits_eq {A} (x : M Writer NoError A) r o o' : emits x r o → o = o' → emits x r o'.
Proof. by intros H <-. Qed.
Section text.
Context (t : tm).
Lemma emits_end fuel : emits (inner_strftime (S fuel) [] t) true [].
Proof. apply emits_ret. Qed.
Lemma emits_char fuel c f r out : c ≠ 37 → emits (inner_strftime fuel f t) r out → emits (inner_strftime (S fuel) (c :: f) t) r ([c] ++ out).
Proof.
  intros Hc H. cbn [inner_strftime]. rewrite (proj2 (Z.eqb_neq c 37)) by done. cbn [negb]. eapply emits_bind; [by apply emits_write|done].
Qed.
Lemma emits_text fuel c l f r out :
  directive c t = AText l → c ≠ 69 ∧ c ≠ 79 → emits (inner_strftime fuel f t) r out → emits (inner_strftime (S fuel) (37 :: c :: f) t) r (l ++ out).
Proof.
  intros Ed [H1 H2] H. pose proof (directive_ok' c t) as Ha. rewrite Ed in Ha. cbn [action_ok] in Ha. cbn [inner_strftime].
  change (37 =? 37) with true. cbn [negb]. cbv zeta. rewrite (proj2 (Z.eqb_neq c 69)), (proj2 (Z.eqb_neq c 79)) by done. cbn [orb head default drop]. unfold id.
  rewrite Ed. eapply emits_bind; [by apply emits_write|]. done.
Qed.
Lemma emits_recurse fuel c g f o1 r o2 :
  directive c t = ARecurse g → c ≠ 69 ∧ c ≠ 79 → emits (inner_strftime fuel g t) true o1 → emits (inner_strftime fuel f t) r o2 →
  emits (inner_strftime (S fuel) (37 :: c :: f) t) r (o1 ++ o2).
Proof.
  intros Ed [H1 H2] Hg Hf. cbn [inner_strftime]. change (37 =? 37) with true. cbn [negb]. cbv zeta.
  rewrite (proj2 (Z.eqb_neq c 69)), (proj2 (Z.eqb_neq c 79)) by done. cbn [orb head default drop]. unfold id. rewrite Ed.
  eapply emits_bind; [exact Hg|]. done.
Qed.
End text.
(** The text of a date of the years 1000 to 9999, with [%F %T], in a buffer with room for 20 bytes: four digits of the year and two of
    each other field, the month counted from 1. *)
Theorem strftime_iso t buf size :
  valid_tm t → 1000 ≤ year_of t ≤ 9999 → 20 ≤ size ≤ Z.of_nat (length buf) →
  strftime buf size fmt_iso t = Ok (19, iso_text t ++ [0] ++ drop 20 buf).
Proof.
  intros [Hs Hm Hh Hmo Hd _ _ _] Hy Hsz.
  assert (1 ≤ tm_mday t < 100) as Hd'.
  { split; [lia|]. apply twelve in Hmo. revert Hd. destruct (leap_year (year_of t)); repeat destruct Hmo as [->|Hmo]; try rewrite Hmo; eval_calendar; lia. }
  assert (emits (inner_strftime (length fmt_iso + 40) fmt_iso t) true (iso_text t)) as He.
  { assert (wrap_i32 (tm_year t + 1900) = year_of t) as Ey by (unfold wrap_i32, year_of in *; rewrite Z.mod_small; lia).
    assert (wrap_i32 (tm_mon t + 1) = tm_mon t + 1) as Em by (unfold wrap_i32; rewrite Z.mod_small; lia).
    change (length fmt_iso + 40)%nat with 45%nat. unfold fmt_iso. eapply emits_eq.
    { eapply emits_recurse; [reflexivity|done| |eapply emits_char; [done|]; eapply emits_recurse; [reflexivity|done| |apply emits_end]];
        repeat first [apply emits_end|eapply emits_text; [reflexivity|done|]|eapply emits_char; [done|]]. }
    rewrite Ey, Em, fmt_four, !fmt_two by lia. done. }
  rewrite (strftime_emits _ _ _ _ _ _ He) by lia. change (Z.of_nat (length (iso_text t))) with 19. rewrite (proj2 (Z.ltb_lt 19 size)) by lia.
  cbn [andb]. unfold buffer_with. rewrite (proj2 (Z.leb_gt size 1)), bool_decide_false by (done || lia). cbn [orb].
  assert (kept size (iso_text t) = 19%nat) as -> by (unfold kept; change (Z.of_nat (length (iso_text t))) with 19; lia). done.
Qed.

(** [%C] is not the century: in a year that is not a multiple of 100 it is the number of the next one, [21] in 2024. *)
Lemma century_wrong t : 0 < tm_year t < 8100 → tm_year t mod 100 ≠ 0 → century t = year_of t / 100 + 1.
Proof.
  intros Hy Hm. unfold century, year_of. rewrite rem_mod_zero, (proj2 (Z.eqb_neq (tm_year t mod 100) 0)) by lia.
  rewrite Z.quot_div_nonneg by lia. replace (tm_year t + 1900) with (tm_year t + 19 * 100) by lia. rewrite Z.div_add by lia.
  assert (0 ≤ tm_year t / 100 ≤ 81) by (Z.div_mod_to_equations; lia). unfold wrap_i32. rewrite Z.mod_small; lia.
Qed.

(** ** Examples *)

Definition example_tm : tm :=
  {| tm_sec := 5; tm_min := 4; tm_hour := 3; tm_mday := 29; tm_mon := 1; tm_year := 124; tm_wday := 4; tm_yday := 59; tm_isdst := 0 |}.
Lemma example_tm_valid : valid_tm example_tm.
Proof. split; vm_compute; first [reflexivity|split; [discriminate|first [reflexivity|discriminate]]]. Qed.
Lemma strftime_iso_witness :
  strftime (replicate 22 7) 20 fmt_iso example_tm =
    Ok (19, [50; 48; 50; 52; 45; 48; 50; 45; 50; 57; 32; 48; 51; 58; 48; 52; 58; 48; 53; 0; 7; 7]).
Proof. apply (strftime_iso example_tm (replicate 22 7) 20); [exact example_tm_valid|vm_compute; split; discriminate|vm_compute; split; discriminate]. Defined.
(** [%B %C] in a buffer of 6 bytes, of which 5 are given. *)
Lemma strftime_bounded_witness :
  ∃ ok out, strftime (replicate 6 7) 5 [37; 66; 32; 37; 67] example_tm = Ok (0, buffer_with (replicate 6 7) 5 out) ∧
    strftime (replicate 20 7) 20 [37; 66; 32; 37; 67] example_tm = Ok (if ok && (Z.of_nat (length out) <? 20) then Z.of_nat (length out) else 0, buffer_with (replicate 20 7) 20 out)%bool ∧
    out = [70; 101; 98; 117; 97; 114; 121; 32; 50; 49].
Proof.
  destruct (strftime_bounded example_tm [37; 66; 32; 37; 67] example_tm_valid) as (ok & out & H); [unfold INT_MIN, INT_MAX; cbn; lia|].
  destruct (H (replicate 6 7) 5) as [E1 _]; [cbn; lia|]. destruct (H (replicate 20 7) 20) as [E2 _]; [cbn; lia|].
  assert (out = [70; 101; 98; 117; 97; 114; 121; 32; 50; 49]) as Eo.
  { assert (strftime (replicate 20 7) 20 [37; 66; 32; 37; 67] example_tm = Ok (10, [70; 101; 98; 117; 97; 114; 121; 32; 50; 49; 0] ++ replicate 9 7)) as E3 by (vm_compute; reflexivity).
    rewrite E2 in E3. pose proof (f_equal (λ r, match r with Ok x => x.2 | _ => [] end) E3) as E4.
    apply (f_equal (λ r, match r with Ok x => x.1 | _ => 0 end)) in E3. cbn [fst snd] in E3, E4. destruct (ok && (Z.of_nat (length out) <? 20))%bool; [|discriminate E3].
    assert (length out = 10%nat) as Hl by lia. unfold buffer_with in E4. change (20 <=? 1) with false in E4. cbn [orb] in E4.
    case_bool_decide as Hn; [by rewrite Hn in Hl|]. apply (f_equal (take 10)) in E4.
    assert (kept 20 out = 10%nat) as Hk by (unfold kept; lia). rewrite Hk, take_app_le, take_take, take_ge in E4 by (rewrite ?length_take; lia). exact E4. }
  exists ok, out. split; [|split; [exact E2|exact Eo]]. rewrite E1. subst out. by destruct ok.
Defined.
